(* ===== verification/_CoqProject ===== *)
-Q . S2P
Prelude.v
CString.v
CDouble.v
HashTbl.v
Trash.v
WfStructs.v
WfSetup.v
WfDag.v
WfFlow.v
JobList.v
Auth.v
BlackList.v
ArgParser.v
TaskParser.v
WfVars.v
WfSubmit.v
WfEngine.v
Notify.v
Execute.v
Runs.v
Messages.v
Retry.v
RManager.v
Subset.v
JsonDoc.v
JsonText.v
JsonRound.v
WfLoad.v
WfReady.v
EndToEnd.v
WfStore.v
WfRound.v
Values.v
FlowControl.v
OdbFs.v
Filters.v
FilterScope.v
