(* ===== verification/Prelude.v ===== *)
(** * A verification library for the ESDM-PAV runtime (the Ophidia workflow server)

    ** The program

    The runtime is a server: a client submits a workflow, a JSON document of tasks with
    dependencies and flow control operators; the server checks it, starts the tasks that
    are ready, and advances the workflow at every notification of a finished task.  The
    parts of the source (all paths below [src/src/]) and how they interact:

    - a request is authenticated ([oph_auth.c]: roles, session codes, timed lists of
      failed logins), its text is cut into arguments ([oph_parser.c]) or into a workflow
      ([oph_workflow/oph_workflow_structs.c], [oph_workflow_parsing.c]);
    - the workflow is set up ([oph_workflow/oph_workflow_setup.c]): dependencies are
      resolved and checked to be acyclic, flow control operators are paired, the basic
      variables enter its environment, a hash table ([hashtbl.c]);
    - it enters the list of running jobs ([oph_job_list.c]), from where the engine
      ([oph_workflow_engine.c]) and the flow control operators
      ([oph_flow_control_operators.c]) work on it at each notification, substitute
      variables in what they submit ([oph_workflow/oph_workflow_utils.c]), read index
      ranges ([oph_subset_library.c]) and values in earlier responses;
    - a task that is ready is checked against the description of its operator
      ([oph_task_parser_library.c]) and handed to a resource manager by a shell command
      ([oph_rmanager.c]), which sends the next notification;
    - a massive operation is applied to the cubes that a query of the database selects
      ([oph_filters.c]), within the folders of the session
      ([oph_ophidiadb_fs_library.c]);
    - responses are JSON documents ([oph_json/]); identifiers of cubes and markers are
      recycled through the trash ([oph_trash.c]).

    ** Which file models what

    - [Prelude]: the C monad, its weakest preconditions, nullable strings, machine
      integers, shared lemmas and hint databases.
    - [CString]: what the code uses of [<string.h>], [<ctype.h>] and [<stdlib.h>].
    - [HashTbl]: [hashtbl.c], its nodes and chains; refines a finite map.
    - [Trash]: [oph_trash.c], keyed queues of identifiers.
    - [WfStructs]: the records of [oph_workflow_structs.h] and the operations of
      [oph_workflow_structs.c] (stack of loop frames, copies, expansion, deferred release).
    - [WfSetup], [WfDag]: [oph_workflow_indexing], [oph_workflow_validate] and
      [oph_workflow_init]; the topological sort decides acyclicity.
    - [WfFlow]: [oph_workflow_validate_fco], the pairing of flow control operators.
    - [JobList]: [oph_job_list.c] and [oph_memory_job.c], a linked list on a store, so that
      use after free is visible.
    - [Auth], [BlackList]: [oph_auth.c], role masks and texts, session codes; timed lists,
      password check and lockout.
    - [ArgParser]: [oph_parser.c], queries, argument lists, ordering.
    - [WfVars]: [oph_workflow_set_basic_var] and [oph_workflow_var_substitute]; an interface
      [VarStore] of environments, discharged by the hash table.
    - [WfEngine]: the passes of [oph_workflow_engine.c] over the graph of a running workflow.
    - [WfSubmit]: the string that submits a task, with the arguments the engine adds.
    - [Notify]: [oph_workflow_notify] of [oph_workflow_engine.c], the parsing of a
      notification and its effect on a workflow; [Execute]: [oph_workflow_execute] and
      [oph_workflow_exit], the preparation and submission of the ready tasks and the
      notifications the server writes itself.
    - [Runs]: the two composed into runs of a workflow, and their theorems; [Messages]: the
      notifications that are rewritten or neglected; [Retry]: repeated attempts;
      [EndToEnd]: a document from its text to the end of its run.
    - [RManager]: [oph_rmanager.c], the configuration of the resource managers, the command
      of a task, the limits, the list of detached tasks and the stopping of a task.
    - [CDouble], [TaskParser]: [oph_task_parser_library.c], the values of a task checked
      against the description of its operator (an XML tree) and the lookup of arguments.
    - [Subset]: [oph_subset_library.c].
    - [OdbFs]: [oph_ophidiadb_fs_library.c], paths and folders of a session; [Filters]:
      [oph_filters.c], the query that selects the cubes of a massive operation;
      [FilterScope]: what that query selects, read with the precedence of SQL.
    - [JsonDoc]: the structures of [oph_json/] and all functions that build them.
    - [JsonText], [JsonRound]: [oph_json_common.c], a response printed as JSON text and read
      again, over a class [Jansson] of the library with its law.
    - [WfLoad], [WfStore]: [oph_workflow_parsing.c], the comments of a document, loading and
      storing a workflow; [WfReady] what a loaded workflow satisfies and its way through
      the setup, [WfRound] storing and loading.
    - [Values], [FlowControl]: [oph_flow_control_operators.c], the values of a loop and the
      execution of for, endfor, if, elseif, else.

    ** Conventions

    A function of the code is a definition with its name; its state is passed and
    returned.  A C computation ([C], in this file) consumes the outcomes of the future
    allocations: each [malloc], [strdup], [realloc] pops one, and a statement that
    quantifies over the list [m] of outcomes covers every allocation failure, while
    [m = []] is a machine with enough memory.  A null or dangling dereference, an access
    out of range and the like are [UB]; a loop that is not structurally recursive takes
    fuel and ends in [OutOfFuel] without it.  [wp c m Q] holds only if [c] returns, so that
    a specification excludes both.  Fuel: the graph walks take the number of tasks as
    depth, which is enough on an acyclic workflow (proved), the reset of a loop body the
    number of tasks with a status; the string loops take the length of the string; a loop
    that the code itself does not leave is a theorem for every fuel.

    Releases of memory are modelled where a claim depends on them (the job list, the
    pointers after [oph_subset_free], the deferred release of a workflow) and left out
    elsewhere, as are log messages, locks and the texts of error messages.  An array with
    its counter is a list where the code keeps them in step.  Integers that can wrap
    (the login counter, hash values, identifiers read from text) are kept at their width
    with the wrap-around written out; counters bounded by the size of an array in memory
    are [nat] or unbounded [Z].  Time and host names are arguments.

    Code of other libraries is a parameter: the JSON library jansson, the expression
    evaluator libmatheval, the XML library, the database and the shell.  What the theorems need of it is a named
    hypothesis or a class, with an instance as witness.

    ** What the theorems show

    - Data structures: the hash table refines a finite map over every sequence of
      operations; the job list refines a queue with expiry, with the two histories that
      leave a dangling tail; the trash delivers in order, except that a fresh key drops
      the head; push and pop, copies.
    - Documents ([WfReady.document_ok] for loading, [WfStore.storable] for storing say which):
      comments are removed and nothing else; a loaded workflow has complete tasks,
      and one that passes the setup is acyclic with paired operators; a stored workflow
      loads again; a workflow with tables of variables is never stored from a checkpoint; the
      documents on which loading is undefined.
    - Setup: indexing makes dependencies and dependents dual; validation accepts exactly
      the acyclic workflows; closing operators are linked to opening ones from which they
      are reachable.
    - Engine: aborting reaches exactly the transitive dependents; a reset restores exactly
      the body of a loop; a loop runs once per value, in order, and then leaves, whatever
      its bodies do that keeps the frame of the loop (work on tasks does); the
      branches that are not selected are skipped; where dependencies are discounted twice.
    - Runs ([Runs.successful_run]: the requests are taken, the tasks are reported completed,
      no task is massive and no flow control operator acts in between): an accepted document
      becomes a workflow whose tasks are completed once each and
      after the tasks they depend on; some task is in progress until the run is over, and
      then all are completed; each report hands exactly the tasks it made ready to the
      execution.  A failing task ([Retry], its resubmissions made by the execution) is tried
      exactly as often as it asks for, or as the automatic retries allow; a notification the
      server makes is parsed to what was written; the
      notification of a rejected task is neglected; where a second notification of the
      same task is counted again.
    - Resource manager: the settings of a file are those of the last line of each key; the
      limits hold and the counters are exact over every sequence of admissions and ends; the command to stop a task is
      cut off for long names; removing a detached task loses the newer ones.
    - Submission: an argument of a task is found in the string that submits it, and checked
      integers lie within the bounds of the description and values in its lists; the bounds of
      real arguments are not checked.
    - Folders and filters: a folder belongs to a session exactly when it is below its home;
      the path of a folder is parsed to the folder again; the query of a filter, when it is not cut off, selects only
      rows in the folders of the session, with the three ways around it; the exploration of folders
      ends whatever the database holds.
    - Security: after five failed logins every access is refused whatever its password, the
      right one included, until the timeout or until the counter wraps; roles print and parse back.
    - Texts: queries, index ranges, roles and JSON texts are read back as they were
      printed; templates expand as specified; the inputs on which these functions are
      undefined or do not end.
    - Responses: a sequence of builder calls leaves a well-formed document up to the first
      call that fails.

    ** Not modelled

    The web service library and stubs (gSOAP), server loops, threads, signals, logging; the
    access to the MySQL database and what only wraps queries (management operators, the
    statements of request execution); remote submission, notification plugins; session
    files, tokens and OpenID calls.  The expansion of massive operations is a parameter of
    the notification and of the execution, and the theorems on runs assume that no task is
    massive; of the expansion itself the filters are modelled.  Of the workflow engine the JSON documents written for a
    task, the abort of a single task on a request of a user, the progress ratio and the
    check of the job queue are left, of the flow control operators set, input and wait.
    These consult the database, the files of a session or the state of other threads
    between their steps. *)

From stdpp Require Import base gmap strings numbers pretty list.

(** ** The C monad

    A fragment of C code is a computation that

    - consumes the future outcomes of the allocator ([mem]): [malloc] pops the
      next outcome, and an exhausted list means that every further allocation
      succeeds;
    - may run into undefined behaviour ([UB]: a null or dangling pointer is
      dereferenced, an array is accessed out of range, a division by zero);
    - may exhaust the fuel of a loop whose recursion is not structural
      ([OutOfFuel]); the theorems exclude it. *)

Definition mem : Type := list bool.

Inductive res (A : Type) : Type :=
| Ok (a : A) (m : mem)
| UB
| OutOfFuel.
Arguments Ok {A} _ _.
Arguments UB {A}.
Arguments OutOfFuel {A}.

Definition C (A : Type) : Type := mem → res A.

#[global] Instance C_ret : MRet C := λ A a m, Ok a m.
#[global] Instance C_bind : MBind C := λ A B f c m,
  match c m with
  | Ok a m' => f a m'
  | UB => UB
  | OutOfFuel => OutOfFuel
  end.
#[global] Instance C_fmap : FMap C := λ A B f c m,
  match c m with
  | Ok a m' => Ok (f a) m'
  | UB => UB
  | OutOfFuel => OutOfFuel
  end.

Definition undef {A} : C A := λ _, UB.
Definition out_of_fuel {A} : C A := λ _, OutOfFuel.

(** [malloc], [calloc], [realloc], [strdup] and [asprintf] are all this: the
    size is irrelevant, only success matters. *)
Definition malloc : C bool := λ m,
  match m with
  | [] => Ok true []
  | b :: m' => Ok b m'
  end.

(** A use of a pointer or of an array cell that has to exist. *)
Definition deref {A} (o : option A) : C A :=
  match o with
  | Some a => mret a
  | None => undef
  end.

(** A condition whose failure is undefined behaviour. *)
Definition assertC (b : bool) : C unit := if b then mret () else undef.

(** [for] loops over a list of values (usually the indices [seq 0 n]). *)
Fixpoint foldC {S X} (f : S → X → C S) (s : S) (l : list X) : C S :=
  match l with
  | [] => mret s
  | x :: l' => s' ← f s x; foldC f s' l'
  end.

(** The body of a loop that may leave it early with a value. *)
Inductive ctl (S R : Type) : Type :=
| Next (s : S)
| Break (r : R).
Arguments Next {S R} _.
Arguments Break {S R} _.

Fixpoint loopC {S X R} (f : S → X → C (ctl S R)) (s : S) (l : list X) : C (ctl S R) :=
  match l with
  | [] => mret (Next s)
  | x :: l' =>
      c ← f s x;
      match c with
      | Next s' => loopC f s' l'
      | Break r => mret (Break r)
      end
  end.

(** ** Weakest preconditions

    [wp c Q m]: started with the allocator outcomes [m], [c] returns (no
    undefined behaviour, no lack of fuel) and the result satisfies [Q]. *)
Definition wp {A} (c : C A) (Q : A → mem → Prop) (m : mem) : Prop :=
  match c m with
  | Ok a m' => Q a m'
  | UB => False
  | OutOfFuel => False
  end.

(** An allocator that does not fail any more. *)
Definition reliable (m : mem) : Prop := Forall (λ b, b = true) m.

Lemma reliable_nil : reliable [].
Proof. constructor. Qed.

Lemma wp_ret {A} (a : A) (Q : A → mem → Prop) m : Q a m → wp (mret a) Q m.
Proof. done. Qed.

Lemma wp_mono {A} (c : C A) (Q R : A → mem → Prop) m :
  wp c Q m → (∀ a m', Q a m' → R a m') → wp c R m.
Proof. unfold wp. destruct (c m); naive_solver. Qed.

Lemma wp_conj {A} (c : C A) (Q R : A → mem → Prop) m :
  wp c Q m → wp c R m → wp c (λ a m', Q a m' ∧ R a m') m.
Proof. unfold wp. destruct (c m); naive_solver. Qed.

Lemma wp_bind {A B} (c : C A) (f : A → C B) (Q : B → mem → Prop) m :
  wp c (λ a m', wp (f a) Q m') m → wp (c ≫= f) Q m.
Proof. unfold wp, mbind, C_bind. by destruct (c m). Qed.

Lemma wp_bind_inv {A B} (c : C A) (f : A → C B) (Q : B → mem → Prop) m :
  wp (c ≫= f) Q m → wp c (λ a m', wp (f a) Q m') m.
Proof. unfold wp, mbind, C_bind. by destruct (c m). Qed.

Lemma wp_deref {A} (o : option A) (Q : A → mem → Prop) m a :
  o = Some a → Q a m → wp (deref o) Q m.
Proof. by intros ->. Qed.

Lemma wp_assert b (Q : () → mem → Prop) m : b = true → Q () m → wp (assertC b) Q m.
Proof. by intros ->. Qed.

(** Either outcome of an allocation. *)
Lemma wp_malloc (Q : bool → mem → Prop) m :
  (∀ b m', (reliable m → b = true ∧ reliable m') → Q b m') → wp malloc Q m.
Proof.
  intros HQ. destruct m as [|b m]; apply HQ.
  - intros _. split; [done|apply reliable_nil].
  - intros [-> ?]%Forall_cons. done.
Qed.

(** An allocation of a reliable allocator. *)
Lemma wp_malloc_reliable (Q : bool → mem → Prop) m :
  reliable m → (∀ m', reliable m' → Q true m') → wp malloc Q m.
Proof. intros Hm HQ. apply wp_malloc. intros b m' [-> ?]; auto. Qed.

(** Loop rule: [I done s m] is the invariant after the elements [done]. *)
Lemma wp_foldC {S X} (f : S → X → C S) (I : list X → S → mem → Prop) (l : list X) s m :
  I [] s m →
  (∀ done x rest s m, l = done ++ x :: rest → I done s m →
     wp (f s x) (λ s' m', I (done ++ [x]) s' m') m) →
  wp (foldC f s l) (λ s' m', I l s' m') m.
Proof.
  intros H0 Hstep.
  assert (∀ rest don s m, l = don ++ rest → I don s m →
    wp (foldC f s rest) (λ s' m', I l s' m') m) as Hgen.
  { induction rest as [|x rest IH]; intros don s1 m1 -> HI; simpl.
    - apply wp_ret. by rewrite app_nil_r.
    - apply wp_bind. eapply wp_mono; [by eapply Hstep|].
      intros s2 m2 HI2. apply IH with (don ++ [x]); [by rewrite <-app_assoc|done]. }
  by apply Hgen with [].
Qed.

(** Loop rule with an early exit. *)
Lemma wp_loopC {S X R} (f : S → X → C (ctl S R)) (I : list X → S → mem → Prop)
    (Q : R → mem → Prop) (l : list X) s m :
  I [] s m →
  (∀ done x rest s m, l = done ++ x :: rest → I done s m →
     wp (f s x) (λ c m', match c with Next s' => I (done ++ [x]) s' m' | Break r => Q r m' end) m) →
  wp (loopC f s l) (λ c m', match c with Next s' => I l s' m' | Break r => Q r m' end) m.
Proof.
  intros H0 Hstep.
  assert (∀ rest don s m, l = don ++ rest → I don s m →
    wp (loopC f s rest)
       (λ c m', match c with Next s' => I l s' m' | Break r => Q r m' end) m) as Hgen.
  { induction rest as [|x rest IH]; intros don s1 m1 -> HI; simpl.
    - apply wp_ret. by rewrite app_nil_r.
    - apply wp_bind. eapply wp_mono; [by eapply Hstep|].
      intros [s2|r] m2 HI2; [|by apply wp_ret].
      apply IH with (don ++ [x]); [by rewrite <-app_assoc|done]. }
  by apply Hgen with [].
Qed.

(** Nested loops over the elements of the rows of a matrix are one loop over
    their concatenation. *)
Lemma loopC_app {S X R} (f : S → X → C (ctl S R)) s l1 l2 m :
  loopC f s (l1 ++ l2) m =
  (c ← loopC f s l1;
   match c with Next s' => loopC f s' l2 | Break r => mret (Break r) end) m.
Proof.
  revert s m. induction l1 as [|x l1 IH]; intros s m; [done|].
  simpl. unfold mbind, C_bind at 1 2 3. destruct (f s x m) as [[s'|r] m'| |]; try done.
Qed.

Lemma loopC_rows {S X R} (f : S → X → C (ctl S R)) (ls : list (list X)) s m :
  loopC (λ s i, row ← deref (ls !! i); loopC f s row) s (seq 0 (length ls)) m =
  loopC f s (concat ls) m.
Proof.
  assert (∀ (post pre : list (list X)) s m, ls = pre ++ post →
    loopC (λ s i, row ← deref (ls !! i); loopC f s row) s
      (seq (length pre) (length post)) m = loopC f s (concat post) m) as Hgen;
    [|by apply (Hgen ls [])].
  induction post as [|row post IH]; intros pre s1 m1 ->; [done|].
  simpl. rewrite loopC_app. rewrite list_lookup_middle by done.
  unfold mbind, C_bind, deref, mret, C_ret.
  destruct (loopC f s1 row m1) as [[s2|r] m2| |]; try done.
  specialize (IH (pre ++ [row]) s2 m2). rewrite <-app_assoc in IH.
  rewrite length_app in IH. simpl in IH. rewrite Nat.add_1_r in IH. by apply IH.
Qed.

Lemma wp_loopC_rows {S X R} (f : S → X → C (ctl S R)) (ls : list (list X)) s Q n m :
  n = length ls → wp (loopC f s (concat ls)) Q m →
  wp (loopC (λ s i, row ← deref (ls !! i); loopC f s row) s (seq 0 n)) Q m.
Proof. intros ->. unfold wp. by rewrite loopC_rows. Qed.

(** A total run has a result. *)
Lemma wp_run {A} (c : C A) (Q : A → mem → Prop) m :
  wp c Q m → ∃ a m', c m = Ok a m' ∧ Q a m'.
Proof. unfold wp. destruct (c m); naive_solver. Qed.

(** A computation whose continuation runs into undefined behaviour. *)
Lemma bind_ub {A B} (c : C A) (f : A → C B) m :
  wp c (λ a m', f a m' = UB) m → (c ≫= f) m = UB.
Proof. unfold wp, mbind, C_bind. by destruct (c m). Qed.

Lemma bind_run {A B} (c : C A) (f : A → C B) m a m' : c m = Ok a m' → (c ≫= f) m = f a m'.
Proof. unfold mbind, C_bind. by intros ->. Qed.

Lemma wp_eq {A} (c c' : C A) Q m : c m = c' m → wp c' Q m → wp c Q m.
Proof. unfold wp. by intros ->. Qed.

(** ** Nullable strings *)

(** [char *]: a null pointer or a terminated string. *)
Definition cstr : Type := option string.

(** [strdup(s)] of a string that has to exist. *)
Definition strdup (s : cstr) : C cstr :=
  v ← deref s;
  ok ← malloc;
  mret (if ok : bool then Some v else None).

(** [s ? strdup(s) : NULL] *)
Definition strdup_opt (s : cstr) : C cstr :=
  match s with
  | None => mret None
  | Some _ => strdup s
  end.

(** [strcmp(a, b) == 0] of strings that have to exist. *)
Definition strcmp0 (a b : cstr) : C bool :=
  x ← deref a; y ← deref b; mret (bool_decide (x = y)).

Lemma wp_strdup s (Q : cstr → mem → Prop) m :
  reliable m → (∀ m', reliable m' → Q (Some s) m') → wp (strdup (Some s)) Q m.
Proof.
  intros Hm HQ. apply wp_bind, wp_ret, wp_bind, wp_malloc_reliable; [done|].
  intros m' Hm'. by apply wp_ret, HQ.
Qed.

Lemma wp_strdup_opt s (Q : cstr → mem → Prop) m :
  reliable m → (∀ m', reliable m' → Q s m') → wp (strdup_opt s) Q m.
Proof. intros Hm HQ. destruct s as [s|]; [by apply wp_strdup|by apply wp_ret, HQ]. Qed.

(** Setter of a record field: [eta] is the record rebuilt from its fields. *)
Ltac set_field eta proj v r :=
  let e := eval cbv beta delta [eta] in (eta r) in
  let e := eval pattern (proj r) in e in
  lazymatch e with
  | ?g _ => let t := eval cbv beta in (g v) in exact t
  end.

(** Copying an array element by element. *)
Fixpoint mapC {A B} (f : A → C B) (l : list A) : C (list B) :=
  match l with
  | [] => mret []
  | x :: l' => y ← f x; ys ← mapC f l'; mret (y :: ys)
  end.

Lemma wp_mapC {A B} (f : A → C B) (g : A → B) (l : list A) (Q : list B → mem → Prop) m :
  reliable m →
  (∀ x m (R : B → mem → Prop), x ∈ l → reliable m → (∀ m', reliable m' → R (g x) m') → wp (f x) R m) →
  (∀ m', reliable m' → Q (g <$> l) m') →
  wp (mapC f l) Q m.
Proof.
  revert Q m. induction l as [|x l IH]; intros Q m Hm Hf HQ; simpl; [by apply wp_ret, HQ|].
  apply wp_bind, Hf; [left|done|]. intros m1 Hm1. apply wp_bind, IH; [done| |].
  - intros y m2 R Hy. apply Hf. by right.
  - intros m2 Hm2. by apply wp_ret, HQ.
Qed.

(** Steps through the binds, returns and successful allocations of a goal. *)
Ltac wp_step :=
  lazymatch goal with
  | |- wp (_ ≫= _) _ _ => apply wp_bind
  | |- wp (mret _) _ _ => apply wp_ret
  | |- wp malloc _ _ => apply wp_malloc_reliable; [assumption|intros ? ?]
  | |- wp (deref (Some ?a)) _ _ => apply (wp_deref _ _ _ a eq_refl)
  | |- wp (assertC _) _ _ => apply wp_assert
  end.
Ltac wp_steps := repeat (wp_step; cbv beta; simpl).

(** ** Machine integers *)

(** [int] (32 bits, two's complement) and [size_t]/[unsigned long] (64 bits). *)
Definition wrap_u32 (z : Z) : Z := z mod 2 ^ 32.
Definition wrap_i32 (z : Z) : Z := (z + 2 ^ 31) mod 2 ^ 32 - 2 ^ 31.
Definition wrap_u64 (z : Z) : Z := z mod 2 ^ 64.
Definition wrap_i64 (z : Z) : Z := (z + 2 ^ 63) mod 2 ^ 64 - 2 ^ 63.

Definition in_i32 (z : Z) : Prop := (- 2 ^ 31 ≤ z < 2 ^ 31)%Z.
Definition in_i64 (z : Z) : Prop := (- 2 ^ 63 ≤ z < 2 ^ 63)%Z.

Lemma wrap_u64_range z : (0 ≤ wrap_u64 z < 2 ^ 64)%Z.
Proof. unfold wrap_u64. apply Z.mod_pos_bound. lia. Qed.

Lemma wrap_u32_range z : (0 ≤ wrap_u32 z < 2 ^ 32)%Z.
Proof. unfold wrap_u32. apply Z.mod_pos_bound. lia. Qed.

Lemma wrap_i32_range z : in_i32 (wrap_i32 z).
Proof.
  unfold in_i32, wrap_i32.
  pose proof (Z.mod_pos_bound (z + 2 ^ 31) (2 ^ 32)). lia.
Qed.

Lemma wrap_i32_id z : in_i32 z → wrap_i32 z = z.
Proof. unfold in_i32, wrap_i32. intros ?. rewrite Z.mod_small; lia. Qed.

Lemma wrap_i64_id z : in_i64 z → wrap_i64 z = z.
Proof. unfold in_i64, wrap_i64. intros ?. rewrite Z.mod_small; lia. Qed.

Lemma wrap_u32_id z : (0 ≤ z < 2 ^ 32)%Z → wrap_u32 z = z.
Proof. apply Z.mod_small. Qed.

Lemma wrap_u64_id z : (0 ≤ z < 2 ^ 64)%Z → wrap_u64 z = z.
Proof. apply Z.mod_small. Qed.

(** ** Lists *)

Lemma concat_insert_perm {A} (ls : list (list A)) i c c' :
  ls !! i = Some c → concat (<[i := c']> ls) ++ c ≡ₚ concat ls ++ c'.
Proof.
  intros Hi. rewrite <- (take_drop_middle _ _ _ Hi) at 2.
  rewrite insert_take_drop by (by eapply lookup_lt_Some).
  rewrite !concat_app; simpl. solve_Permutation.
Qed.

Lemma elem_of_concat {A} (ls : list (list A)) (x : A) :
  x ∈ concat ls ↔ ∃ i c, ls !! i = Some c ∧ x ∈ c.
Proof.
  rewrite list_elem_of_In, in_concat. split.
  - intros (c & Hc & Hx). apply list_elem_of_In in Hc, Hx.
    apply list_elem_of_lookup in Hc as [i Hi]. eauto.
  - intros (i & c & Hi & Hx). exists c. rewrite <-!list_elem_of_In.
    split; [by eapply list_elem_of_lookup_2|done].
Qed.

Lemma elem_of_mid {A} (l k : list A) x : x ∈ l ++ x :: k.
Proof. apply elem_of_app. right. left. Qed.

Lemma seq_app_cons_inv (n : nat) (don rest : list nat) x :
  seq 0 n = don ++ x :: rest → x = length don ∧ don = seq 0 (length don) ∧ x < n.
Proof.
  intros H.
  assert (length don < n) as Hlt.
  { pose proof (f_equal length H) as Hl. rewrite length_seq, length_app in Hl. simpl in Hl. lia. }
  assert (x = length don) as ->.
  { assert (seq 0 n !! length don = Some x) as Hx by (by rewrite H, list_lookup_middle).
    apply lookup_seq in Hx. lia. }
  split; [done|]. split; [|done].
  assert (take (length don) (seq 0 n) = don) as Ht by (rewrite H; apply take_app_length).
  rewrite take_seq in Ht. rewrite <- Ht at 1. f_equal; lia.
Qed.

(** A duplicate-free image makes the function injective on the list. *)
Lemma NoDup_fmap_inj_on {A B} (f : A → B) (l : list A) x y :
  NoDup (f <$> l) → x ∈ l → y ∈ l → f x = f y → x = y.
Proof.
  intros Hnd [i Hi]%list_elem_of_lookup [j Hj]%list_elem_of_lookup Hf.
  assert (i = j) as ->; [|congruence].
  eapply NoDup_lookup; [exact Hnd| |]; rewrite list_lookup_fmap.
  - by rewrite Hi.
  - rewrite Hj. simpl. by rewrite Hf.
Qed.

(** Under a duplicate-free image an element splits the list in one way. *)
Lemma NoDup_fmap_split {A B} (f : A → B) (a a' b b' : list A) x :
  NoDup (f <$> a ++ x :: b) → a ++ x :: b = a' ++ x :: b' → a = a' ∧ b = b'.
Proof.
  revert a'. induction a as [|y a IH]; intros a' Hnd Heq; destruct a' as [|z a']; simplify_eq/=.
  - done.
  - apply NoDup_cons in Hnd as [Hx _]. exfalso. apply Hx. rewrite fmap_app. set_solver.
  - apply NoDup_cons in Hnd as [Hx _]. exfalso. apply Hx. rewrite fmap_app. set_solver.
  - apply NoDup_cons in Hnd as [_ Hnd]. by destruct (IH a') as [-> ->].
Qed.

(** ** Hint databases *)

Create HintDb oph.
#[export] Hint Resolve reliable_nil : oph.
#[export] Hint Resolve wrap_u64_range wrap_u32_range wrap_i32_range : oph.
