(* ===== verification/CString.v ===== *)
(** * C string functions

    What the runtime uses of [<string.h>], [<ctype.h>] and [<stdlib.h>] on
    terminated strings.  A string is its characters before the terminator; a
    pointer into a string is the suffix that starts there. *)

From Stdlib Require Ascii.
From stdpp Require Import base gmap strings numbers pretty list.
From S2P Require Import Prelude.
Import (notations) Stdlib.Strings.Ascii.

Abbreviation ascii := Ascii.ascii.

Declare Scope cstr_scope.
Delimit Scope cstr_scope with cstr.

(** [strchr(s, c)] for a character other than the terminator: the suffix from the
    first occurrence. *)
Fixpoint strchr (s : string) (c : ascii) : option string :=
  match s with
  | EmptyString => None
  | String a s' => if Ascii.eqb a c then Some s else strchr s' c
  end.

Infix "=c" := Ascii.eqb (at level 70) : cstr_scope.

(** [strchr(s, c) != NULL] *)
Definition has_char (c : ascii) (s : string) : bool := bool_decide (is_Some (strchr s c)).

(** The suffix from the last occurrence. *)
Fixpoint strrchr (s : string) (c : ascii) : option string :=
  match s with
  | EmptyString => None
  | String a s' =>
      match strrchr s' c with
      | Some r => Some r
      | None => if Ascii.eqb a c then Some s else None
      end
  end.

Definition in_range (lo hi : N) (c : ascii) : bool :=
  (lo <=? Ascii.N_of_ascii c)%N && (Ascii.N_of_ascii c <=? hi)%N.

(** [tolower] and [toupper] in the C locale. *)
Definition tolower (c : ascii) : ascii :=
  if in_range 65 90 c then Ascii.ascii_of_N (Ascii.N_of_ascii c + 32) else c.
Definition toupper (c : ascii) : ascii :=
  if in_range 97 122 c then Ascii.ascii_of_N (Ascii.N_of_ascii c - 32) else c.

Fixpoint string_map (f : ascii → ascii) (s : string) : string :=
  match s with
  | EmptyString => EmptyString
  | String c s' => String (f c) (string_map f s')
  end.

(** [strncmp(a, b, n) == 0] and, up to case, [strncasecmp(a, b, n) == 0]. *)
Fixpoint eqn (eq : ascii → ascii → bool) (n : nat) (a b : string) : bool :=
  match n with
  | 0 => true
  | S n' =>
      match a, b with
      | EmptyString, EmptyString => true
      | String x a', String y b' => eq x y && eqn eq n' a' b'
      | _, _ => false
      end
  end.

Definition strncmp0 (a b : string) (n : nat) : bool := eqn Ascii.eqb n a b.
Definition strncasecmp0 (a b : string) (n : nat) : bool :=
  eqn (λ x y, Ascii.eqb (tolower x) (tolower y)) n a b.
Definition strcasecmp0 (a b : string) : bool :=
  bool_decide (string_map tolower a = string_map tolower b).

(** The first [n] characters: [strncpy(dst, s, n); dst[n] = 0]. *)
Fixpoint take_str (n : nat) (s : string) : string :=
  match n, s with
  | S n', String c s' => String c (take_str n' s')
  | _, _ => EmptyString
  end.

(** The characters before the first one of [p]. *)
Fixpoint span_str (p : ascii → bool) (s : string) : string * string :=
  match s with
  | EmptyString => (EmptyString, EmptyString)
  | String c s' =>
      if p c then (EmptyString, s)
      else let r := span_str p s' in (String c r.1, r.2)
  end.

(** The pieces between the characters of [delims], empty ones included. *)
Fixpoint split_on (p : ascii → bool) (s : string) : list string :=
  match s with
  | EmptyString => [EmptyString]
  | String c s' =>
      if p c then EmptyString :: split_on p s'
      else match split_on p s' with
           | [] => [String c EmptyString]
           | w :: ws => String c w :: ws
           end
  end.

(** The tokens a sequence of [strtok_r] calls delivers: the non-empty pieces. *)
Definition strtok (delims s : string) : list string :=
  filter (λ w, w ≠ EmptyString) (split_on (λ c, has_char c delims) s).

(** [strtol(s, NULL, 10)] on a 64-bit [long]: blanks, a sign, digits, saturation. *)
Definition is_space (c : ascii) : bool := in_range 9 13 c || Ascii.eqb c " ".
Definition is_digit (c : ascii) : bool := in_range 48 57 c.
Definition digit (c : ascii) : Z := Z.of_N (Ascii.N_of_ascii c) - 48.

Fixpoint skip_spaces (s : string) : string :=
  match s with
  | String c s' => if is_space c then skip_spaces s' else s
  | EmptyString => EmptyString
  end.

Fixpoint digits (acc : Z) (s : string) : Z :=
  match s with
  | String c s' => if is_digit c then digits (acc * 10 + digit c) s' else acc
  | EmptyString => acc
  end.

Definition clamp_i64 (z : Z) : Z := Z.max (- 2 ^ 63) (Z.min z (2 ^ 63 - 1)).

Definition strtol (s : string) : Z :=
  clamp_i64
    match skip_spaces s with
    | String c s' =>
        if Ascii.eqb c "-" then - digits 0 s'
        else if Ascii.eqb c "+" then digits 0 s'
        else digits 0 (String c s')
    | EmptyString => 0
    end.

(** [%d] of an integer. *)
Definition print_int (z : Z) : string := pretty z.

(** [snprintf(buf, n, "%s", s)]: at most [n - 1] characters. *)
Definition truncate (n : nat) (s : string) : string := take_str (n - 1) s.

(** ** Lemmas *)

Lemma strchr_has c s : has_char c s = true ↔ is_Some (strchr s c).
Proof. apply bool_decide_eq_true. Qed.

Lemma has_char_cons c a s :
  has_char c (String a s) = (Ascii.eqb a c || has_char c s).
Proof. unfold has_char. simpl. destruct (Ascii.eqb_spec a c); [done|]. done. Qed.

Lemma app_str_cons c s1 s2 : String c s1 +:+ s2 = String c (s1 +:+ s2).
Proof. done. Qed.

Lemma app_str_nil s : "" +:+ s = s.
Proof. done. Qed.

Lemma strchr_app c s1 s2 :
  has_char c s1 = false → strchr (s1 +:+ String c s2) c = Some (String c s2).
Proof.
  induction s1 as [|a s1 IH].
  - intros _. rewrite app_str_nil. simpl. by rewrite Ascii.eqb_refl.
  - rewrite has_char_cons, app_str_cons. intros [Ha Hs]%orb_false_iff. simpl. rewrite Ha. by apply IH.
Qed.

Lemma strtol_range s : in_i64 (strtol s).
Proof. unfold strtol, clamp_i64, in_i64. lia. Qed.

Lemma length_take_str n s : String.length (take_str n s) = Nat.min n (String.length s).
Proof. revert s. induction n; intros [|c s]; simpl; auto. Qed.

Lemma take_str_ge n s : (String.length s ≤ n)%nat → take_str n s = s.
Proof. revert s. induction n; intros [|c s] H; simpl in *; try done; [lia|]. f_equal. apply IHn. lia. Qed.

Lemma take_str_app s1 s2 : take_str (String.length s1) (s1 +:+ s2) = s1.
Proof.
  induction s1 as [|c s1 IH]; [by destruct s2|]. rewrite app_str_cons. simpl. by rewrite IH.
Qed.

Lemma length_app_str s1 s2 :
  String.length (s1 +:+ s2) = (String.length s1 + String.length s2)%nat.
Proof. induction s1 as [|c s1 IH]; [done|]. rewrite app_str_cons. simpl. by rewrite IH. Qed.

Lemma app_str_nil_r s : s +:+ "" = s.
Proof. induction s as [|c s IH]; [done|]. by rewrite app_str_cons, IH. Qed.

Lemma app_str_assoc s1 s2 s3 : (s1 +:+ s2) +:+ s3 = s1 +:+ s2 +:+ s3.
Proof. induction s1 as [|c s1 IH]; [done|]. by rewrite !app_str_cons, IH. Qed.

Lemma strncasecmp0_refl a n : strncasecmp0 a a n = true.
Proof.
  revert n. induction a as [|c a IH]; intros [|n]; try done.
  unfold strncasecmp0 in *. simpl. by rewrite Ascii.eqb_refl, IH.
Qed.

Lemma split_on_nonempty p s : split_on p s ≠ [].
Proof. destruct s; simpl; [done|]. case_match; [done|]. by case_match. Qed.

(** No character of [s] is a separator. *)
Fixpoint none_of (p : ascii → bool) (s : string) : bool :=
  match s with
  | EmptyString => true
  | String c s' => negb (p c) && none_of p s'
  end.

Lemma none_of_app p s t : none_of p (s +:+ t) = none_of p s && none_of p t.
Proof. induction s as [|c s IH]; [done|]. rewrite app_str_cons. simpl. by rewrite IH, andb_assoc. Qed.

Lemma split_on_none p w : none_of p w = true → split_on p w = [w].
Proof.
  induction w as [|c w IH]; simpl; [done|]. intros [Hc Hw]%andb_true_iff.
  rewrite (proj1 (negb_true_iff _) Hc). by rewrite IH.
Qed.

Lemma split_on_app p w d s :
  none_of p w = true → p d = true → split_on p (w +:+ String d s) = w :: split_on p s.
Proof.
  intros Hw Hd. induction w as [|c w IH].
  - rewrite app_str_nil. simpl. by rewrite Hd.
  - simpl in Hw. apply andb_true_iff in Hw as [Hc Hw]. rewrite app_str_cons. simpl.
    rewrite (proj1 (negb_true_iff _) Hc). by rewrite IH.
Qed.

Lemma split_on_snoc p s d : p d = true → split_on p (s +:+ String d "") = split_on p s ++ [EmptyString].
Proof.
  intros Hd. induction s as [|c s IH]; [rewrite app_str_nil; simpl; by rewrite Hd|].
  rewrite app_str_cons. simpl. rewrite IH. destruct (p c); [done|].
  destruct (split_on p s) eqn:Hs; [by apply split_on_nonempty in Hs|done].
Qed.

(** Tokens before a separator. *)
Lemma strtok_app delims w d s :
  none_of (λ c, has_char c delims) w = true → has_char d delims = true → w ≠ EmptyString →
  strtok delims (w +:+ String d s) = w :: strtok delims s.
Proof.
  intros Hw Hd Hne. unfold strtok. rewrite split_on_app by done. by rewrite filter_cons_True.
Qed.

Lemma strtok_single delims w :
  none_of (λ c, has_char c delims) w = true → w ≠ EmptyString → strtok delims w = [w].
Proof.
  intros Hw Hne. unfold strtok. rewrite split_on_none by done.
  by rewrite filter_cons_True, filter_nil.
Qed.

(** A separator at the front is skipped. *)
Lemma strtok_skip delims d s :
  has_char d delims = true → strtok delims (String d s) = strtok delims s.
Proof. intros Hd. unfold strtok. simpl. rewrite Hd. by rewrite filter_cons_False by (by intros []). Qed.

Lemma strncmp0_app a b : strncmp0 (a +:+ b) a (String.length a) = true.
Proof.
  induction a as [|c a IH]; [done|]. rewrite app_str_cons. unfold strncmp0 in *. simpl.
  by rewrite Ascii.eqb_refl.
Qed.

Lemma substring_all s : String.substring 0 (String.length s) s = s.
Proof. induction s as [|c s IH]; [done|]. simpl. by rewrite IH. Qed.

Lemma substring_app a b :
  String.substring (String.length a) (String.length (a +:+ b) - String.length a) (a +:+ b) = b.
Proof.
  rewrite length_app_str. replace (String.length a + String.length b - String.length a)%nat
    with (String.length b) by lia.
  induction a as [|c a IH]; [apply substring_all|]. rewrite app_str_cons. simpl. apply IH.
Qed.

(** ** Printing and reading integers *)

Lemma digit_char (x : N) : (x < 10)%N → is_digit (pretty_N_char x) = true ∧ digit (pretty_N_char x) = Z.of_N x.
Proof.
  intros Hx. assert (x = 0 ∨ x = 1 ∨ x = 2 ∨ x = 3 ∨ x = 4 ∨ x = 5 ∨ x = 6 ∨ x = 7 ∨ x = 8 ∨ x = 9)%N as H by lia.
  destruct_or!; subst x; done.
Qed.

Lemma digits_pretty (x : N) s : digits 0 (pretty_N_go x s) = digits (Z.of_N x) s.
Proof.
  revert s. induction (N.lt_wf_0 x) as [x _ IH]; intros s.
  assert (x = 0 ∨ 0 < x)%N as [->|Hx] by lia; [done|].
  rewrite pretty_N_go_step by done. rewrite IH by (by apply N.div_lt). simpl.
  destruct (digit_char (x mod 10)) as [-> ->]; [by apply N.mod_lt|].
  f_equal. rewrite N2Z.inj_div, N2Z.inj_mod. simpl. pose proof (Z.div_mod (Z.of_N x) 10). lia.
Qed.

(** The first character of a printed number is a digit. *)
Lemma pretty_go_head (x : N) s :
  (0 < x)%N → ∃ d s', (d < 10)%N ∧ pretty_N_go x s = String (pretty_N_char d) s'.
Proof.
  revert s. induction (N.lt_wf_0 x) as [x _ IH]; intros s Hx. rewrite pretty_N_go_step by done.
  destruct (decide (0 < x `div` 10)%N) as [Hd|Hd].
  - apply IH; [by apply N.div_lt|done].
  - apply N.nlt_ge, N.le_0_r in Hd. rewrite Hd. exists (x mod 10)%N, s. split; [by apply N.mod_lt|done].
Qed.

Lemma digit_not_special (d : N) :
  (d < 10)%N → let c := pretty_N_char d in is_space c = false ∧ Ascii.eqb c "-" = false ∧ Ascii.eqb c "+" = false.
Proof.
  intros Hx. assert (d = 0 ∨ d = 1 ∨ d = 2 ∨ d = 3 ∨ d = 4 ∨ d = 5 ∨ d = 6 ∨ d = 7 ∨ d = 8 ∨ d = 9)%N as H by lia.
  destruct_or!; subst d; done.
Qed.

(** [strtol] reads what ["%d"] prints. *)
Lemma strtol_print z : in_i64 z → strtol (print_int z) = z.
Proof.
  intros Hz. unfold strtol. transitivity (clamp_i64 z); [f_equal|unfold clamp_i64, in_i64 in *; lia].
  unfold print_int. destruct z as [|p|p]; [done| |].
  - change (pretty (Z.pos p)) with (pretty_N_go (N.pos p) "").
    destruct (pretty_go_head (N.pos p) "") as (d & s' & Hd & Heq); [lia|].
    pose proof (digits_pretty (N.pos p) "") as Hdig. rewrite Heq in Hdig |- *.
    destruct (digit_not_special d Hd) as (H1 & H2 & H3). cbn -[digits pretty_N_go]. rewrite H1, H2, H3. by rewrite Hdig.
  - change (pretty (Z.neg p)) with (String "-" (pretty_N_go (N.pos p) "")).
    pose proof (digits_pretty (N.pos p) "") as Hdig. revert Hdig. generalize (pretty_N_go (N.pos p) "").
    intros t Ht.
    change ((- digits 0 t)%Z = Z.neg p). by rewrite Ht.
Qed.

Lemma length_pretty_go (x : N) s (k : nat) :
  (x < 10 ^ N.of_nat k)%N → (String.length (pretty_N_go x s) ≤ k + String.length s)%nat.
Proof.
  revert x s. induction k as [|k IH]; intros x s Hx.
  { replace x with 0%N by (change (10 ^ N.of_nat 0)%N with 1%N in Hx; lia). done. }
  assert (x = 0 ∨ 0 < x)%N as [->|Hp] by lia; [rewrite pretty_N_go_0; lia|].
  rewrite pretty_N_go_step by done. etrans; [apply IH|simpl; lia].
  apply N.Div0.div_lt_upper_bound. rewrite Nat2N.inj_succ, N.pow_succ_r' in Hx. lia.
Qed.

Lemma length_print_int z : in_i32 z → (String.length (print_int z) ≤ 11)%nat.
Proof.
  intros Hz. unfold print_int, in_i32 in *. destruct z as [|p|p]; [simpl; lia| |].
  - change (pretty (Z.pos p)) with (pretty_N_go (N.pos p) "").
    etrans; [apply (length_pretty_go _ _ 10)|simpl; lia].
    change (10 ^ N.of_nat 10)%N with 10000000000%N. lia.
  - change (pretty (Z.neg p)) with (String "-" (pretty_N_go (N.pos p) "")). simpl String.length.
    apply le_n_S. etrans; [apply (length_pretty_go _ _ 10)|simpl; lia].
    change (10 ^ N.of_nat 10)%N with 10000000000%N. lia.
Qed.

(** A printed number is made of digits behind a possible sign. *)
Lemma pretty_go_none p (x : N) s :
  (∀ c, is_digit c = true → p c = false) → none_of p (pretty_N_go x s) = none_of p s.
Proof.
  intros Hp. revert s. induction (N.lt_wf_0 x) as [x _ IH]; intros s.
  assert (x = 0 ∨ 0 < x)%N as [->|Hx] by lia; [done|].
  rewrite pretty_N_go_step by done. rewrite IH by (by apply N.div_lt). simpl.
  destruct (digit_char (x mod 10)) as [Hd _]; [by apply N.mod_lt|]. by rewrite Hp.
Qed.

Lemma print_int_none p z :
  (∀ c, is_digit c = true ∨ c = "-"%char → p c = false) → none_of p (print_int z) = true.
Proof.
  intros Hp. unfold print_int. destruct z as [|q|q].
  - change (none_of p "0" = true). simpl. by rewrite Hp by (by left).
  - change (none_of p (pretty_N_go (N.pos q) "") = true). rewrite pretty_go_none; [done|]. intros c Hc. apply Hp. by left.
  - change (none_of p (String "-" (pretty_N_go (N.pos q) "")) = true). simpl. rewrite (Hp "-"%char) by (by right).
    rewrite pretty_go_none; [done|]. intros c Hc. apply Hp. by left.
Qed.

Lemma print_int_head z : ∃ c s, print_int z = String c s ∧ (is_digit c = true ∨ c = "-"%char).
Proof.
  unfold print_int. destruct z as [|q|q].
  - exists "0"%char, ""%string. split; [done|by left].
  - change (pretty (Z.pos q)) with (pretty_N_go (N.pos q) "").
    destruct (pretty_go_head (N.pos q) "") as (d & s & Hd & ->); [lia|]. exists (pretty_N_char d), s.
    split; [done|]. left. by apply digit_char.
  - exists "-"%char, (pretty_N_go (N.pos q) ""). split; [done|by right].
Qed.

Lemma print_int_nonempty z : print_int z ≠ EmptyString.
Proof. by destruct (print_int_head z) as (c & s & -> & _). Qed.

(** ** Comparison up to case *)

Lemma eqn_sym f n a b :
  eqn (λ x y, Ascii.eqb (f x) (f y)) n a b = eqn (λ x y, Ascii.eqb (f x) (f y)) n b a.
Proof.
  revert a b. induction n as [|n IH]; intros [|x a] [|y b]; simpl; try done.
  by rewrite IH, Ascii.eqb_sym.
Qed.

Lemma eqn_trans f n a b c :
  eqn (λ x y, Ascii.eqb (f x) (f y)) n a b = true → eqn (λ x y, Ascii.eqb (f x) (f y)) n b c = true →
  eqn (λ x y, Ascii.eqb (f x) (f y)) n a c = true.
Proof.
  revert a b c. induction n as [|n IH]; intros [|x a] [|y b] [|z c]; simpl; try done.
  intros [Hx%Ascii.eqb_eq Ha]%andb_true_iff [Hy%Ascii.eqb_eq Hb]%andb_true_iff.
  rewrite Hx, Hy, Ascii.eqb_refl. by apply (IH a b c).
Qed.

(** The strings whose first [n] characters differ at most in case. *)
Definition same_case (n : nat) (a b : string) : Prop := strncasecmp0 a b n = true.

#[global] Instance same_case_equiv n : Equivalence (same_case n).
Proof.
  split.
  - intros a. apply strncasecmp0_refl.
  - intros a b H. unfold same_case, strncasecmp0 in *. by rewrite eqn_sym.
  - intros a b c. apply eqn_trans.
Qed.

#[global] Instance strncasecmp0_proper n :
  Proper (same_case n ==> same_case n ==> eq) (λ a b, strncasecmp0 a b n).
Proof.
  intros a a' Ha b b' Hb. apply eq_true_iff_eq. fold (same_case n a b) (same_case n a' b').
  by rewrite Ha, Hb.
Qed.

Lemma same_case_take n s : same_case n (take_str n s) s.
Proof.
  unfold same_case, strncasecmp0. revert s. induction n as [|n IH]; intros [|c s]; simpl; try done.
  by rewrite Ascii.eqb_refl, IH.
Qed.

(** ** Searching a character in a concatenation *)

Lemma strchr_app_some c s r t : strchr s c = Some r → strchr (s +:+ t) c = Some (r +:+ t).
Proof.
  induction s as [|a s IH]; [done|]. rewrite app_str_cons. simpl.
  destruct (Ascii.eqb a c); [by intros [= <-]|apply IH].
Qed.

Lemma strchr_suffix c s r : strchr s c = Some r → ∃ p, s = p +:+ r ∧ has_char c p = false ∧ ∃ t, r = String c t.
Proof.
  induction s as [|a s IH]; [done|]. simpl. destruct (Ascii.eqb_spec a c) as [->|Hne].
  - intros [= <-]. exists ""%string. eauto.
  - intros (p & -> & Hp & Ht)%IH. exists (String a p). rewrite app_str_cons, has_char_cons, Hp.
    split_and!; [done| |done]. by rewrite (proj2 (Ascii.eqb_neq a c)).
Qed.

(** A character that is neither a digit nor a sign is not in a printed number. *)
Lemma none_of_has_char c s : none_of (λ x, has_char x (String c EmptyString)) s = true ↔ has_char c s = false.
Proof.
  induction s as [|a s IH]; [done|]. rewrite has_char_cons. simpl none_of.
  assert (has_char a (String c EmptyString) = Ascii.eqb a c) as ->.
  { rewrite has_char_cons, Ascii.eqb_sym. by destruct (Ascii.eqb a c). }
  rewrite andb_true_iff, negb_true_iff, orb_false_iff, IH. done.
Qed.

Lemma digit_none (c : ascii) z : is_digit c = false → c ≠ "-"%char → has_char c (print_int z) = false.
Proof.
  intros Hc Hm. apply none_of_has_char. apply print_int_none. intros x Hx. rewrite has_char_cons.
  destruct (Ascii.eqb_spec c x) as [->|]; [destruct Hx; congruence|done].
Qed.
