(* ===== verification/CDouble.v ===== *)
(** * C floating point numbers

    What the runtime uses of [double] and [<stdlib.h>]: [strtod], the comparisons, the
    conversions between [int] and [double], and ["%f"].  A [double] is an IEEE 754 binary64
    number; the rounding of the arithmetic is the one of [SpecFloat]. *)

From Stdlib Require Ascii SpecFloat.
From stdpp Require Import base gmap strings numbers pretty list.
From S2P Require Import Prelude CString.
Import (notations) Stdlib.Strings.Ascii.
Import SpecFloat.

Module CDouble.

#[local] Open Scope Z_scope.
#[local] Open Scope cstr_scope.

Definition double : Type := spec_float.

Definition of_scaled (neg : bool) (m e : Z) : double :=
  binary_normalize 53 1024 (if neg then - m else m) e neg.

(** [m * 10 ^ e], rounded once. *)
Definition of_decimal (neg : bool) (m e : Z) : double :=
  if m =? 0 then S754_zero neg
  else if 0 <=? e then of_scaled neg (m * 10 ^ e) 0
  else let '(q, e', l) := SFdiv_core_binary 53 1024 m 0 (10 ^ (- e)) 0 in binary_round_aux 53 1024 neg q e' l.

(** ** [strtod] *)

Definition dec_digit (c : ascii) : option Z := if is_digit c then Some (digit c) else None.
Definition hex_digit (c : ascii) : option Z :=
  if is_digit c then Some (digit c)
  else if in_range 97 102 (tolower c) then Some (Z.of_N (Ascii.N_of_ascii (tolower c)) - 87)
  else None.

(** The digits with at most one point: the number they form, how many follow the point,
    whether there is any, and the rest. *)
Fixpoint mantissa (dig : ascii → option Z) (base : Z) (dot : bool) (acc frac : Z) (any : bool) (s : string) :
    Z * Z * bool * string :=
  match s with
  | EmptyString => (acc, frac, any, EmptyString)
  | String c s' =>
      match dig c with
      | Some d => mantissa dig base dot (acc * base + d) (if dot then frac + 1 else frac) true s'
      | None => if (c =c ".") && negb dot then mantissa dig base true acc frac any s' else (acc, frac, any, s)
      end
  end.

(** The exponent after [mark]; without digits there is none. *)
Definition exponent (mark : ascii) (s : string) : Z :=
  match s with
  | String c s' =>
      if negb (tolower c =c mark) then 0 else
      let '(neg, t) := match s' with
                       | String "-" t => (true, t)
                       | String "+" t => (false, t)
                       | _ => (false, s')
                       end in
      let z := digits 0 t in if neg then - z else z
  | EmptyString => 0
  end.

Definition of_decimal_text (neg : bool) (s : string) : option double :=
  let '(m, frac, any, rest) := mantissa dec_digit 10 false 0 0 false s in
  if any : bool then Some (of_decimal neg m (exponent "e" rest - frac)) else None.

Definition of_hex_text (neg : bool) (s : string) : option double :=
  match s with
  | String "0" (String x s') =>
      if negb (tolower x =c "x") then None else
      let '(m, frac, any, rest) := mantissa hex_digit 16 false 0 0 false s' in
      if any : bool then Some (of_scaled neg m (exponent "p" rest - 4 * frac)) else None
  | _ => None
  end.

Definition of_word (neg : bool) (s : string) : option double :=
  if strncasecmp0 s "inf" 3 then Some (S754_infinity neg)
  else if strncasecmp0 s "nan" 3 then Some S754_nan
  else None.

Definition strtod (s : string) : double :=
  let s := skip_spaces s in
  let '(neg, t) := match s with
                   | String "-" t => (true, t)
                   | String "+" t => (false, t)
                   | _ => (false, s)
                   end in
  match of_word neg t, of_hex_text neg t, of_decimal_text neg t with
  | Some d, _, _ => d
  | None, Some d, _ => d
  | None, None, Some d => d
  | None, None, None => S754_zero false
  end.

(** ** Conversions and printing *)

(** [m * 2 ^ e], cut at the point. *)
Definition cut (m : positive) (e : Z) : Z := if 0 <=? e then Z.pos m * 2 ^ e else Z.pos m / 2 ^ (- e).

(** [(int) d] is undefined out of range. *)
Definition int_of_double (d : double) : C Z :=
  match d with
  | S754_zero _ => mret 0
  | S754_finite neg m e =>
      let z := if neg then - cut m e else cut m e in
      assertC (bool_decide (in_i32 z));; mret z
  | _ => undef
  end.

Definition double_of_int (z : Z) : double := binary_normalize 53 1024 z 0 false.

(** [m * 2 ^ e * 10 ^ 6], rounded to the nearest, half to even. *)
Definition millionths (m : positive) (e : Z) : Z :=
  let n := Z.pos m * 10 ^ 6 in
  if 0 <=? e then n * 2 ^ e else
  let d := 2 ^ (- e) in
  let q := n / d in
  let r := 2 * (n mod d) in
  if (d <? r) || ((r =? d) && Z.odd q) then q + 1 else q.

Fixpoint zeros (n : nat) : string := match n with O => EmptyString | S n' => String "0" (zeros n') end.

(** ["%f"] *)
Definition print_f (d : double) : string :=
  match d with
  | S754_zero neg => (if neg then "-" else "") +:+ "0.000000"
  | S754_infinity neg => (if neg then "-" else "") +:+ "inf"
  | S754_nan => "nan"
  | S754_finite neg m e =>
      let n := millionths m e in
      let f := print_int (n mod 10 ^ 6) in
      (if neg then "-" else "") +:+ print_int (n / 10 ^ 6) +:+ "." +:+ zeros (6 - String.length f) +:+ f
  end%string.

(** ** Checks *)

Example strtod_half : strtod " -1.25e1x" = strtod "-12.5".
Proof. reflexivity. Qed.
Example strtod_hex : strtod "0x1.8p3" = double_of_int 12.
Proof. reflexivity. Qed.
Example strtod_tenth : print_f (strtod "0.1") = "0.100000"%string ∧ strtod "0.1" = S754_finite false 7205759403792794 (-56).
Proof. split; reflexivity. Qed.
Example print_f_half_even : print_f (strtod "2.5e-7") = "0.000000"%string ∧ print_f (strtod "-1234.5678905") = "-1234.567890"%string.
Proof. split; reflexivity. Qed.
Example strtod_words : strtod "-Infinity" = S754_infinity true ∧ strtod "x" = S754_zero false ∧ strtod "0x" = S754_zero false.
Proof. split_and!; reflexivity. Qed.

End CDouble.
