(* ===== verification/HashTbl.v ===== *)
(** * The hash table of the runtime ([src/src/hashtbl.c], [hashtbl.h])

    The chained hash table with string keys in which the runtime keeps
    configuration parameters, task arguments and workflow variables.  The
    chains [nodes] are lists of nodes, most recent first; the buffer a node owns
    is a value of type [D] (a string for the parameter tables, a variable record
    for the workflow environments), copied on insertion.

    The theorems show that the table refines a finite map ([abs]) under the
    representation invariant [hash_wf], that [hashtbl_next] enumerates every
    entry exactly once, and what the allocation failures do. *)

From stdpp Require Import base gmap strings numbers list.
From S2P Require Import Prelude.

Module HashTbl.

Record hashnode_s (D : Type) : Type := Node {
  key : string;
  data : D;
  size : nat;
}.
Arguments Node {D} _ _ _.
Arguments key {D} _.
Arguments data {D} _.
Arguments size {D} _.

Record HASHTBL (D : Type) : Type := Tbl {
  tsize : nat;
  nodes : list (list (hashnode_s D));
  hashfunc : string → Z;
}.
Arguments Tbl {D} _ _ _.
Arguments tsize {D} _.
Arguments nodes {D} _.
Arguments hashfunc {D} _.

(** [hash += (unsigned char) *key++] on a [size_t]. *)
Fixpoint def_hashfunc_from (hash : Z) (k : string) : Z :=
  match k with
  | EmptyString => hash
  | String c k' => def_hashfunc_from (wrap_u64 (hash + Z.of_N (Ascii.N_of_ascii c))) k'
  end.

Definition def_hashfunc (k : string) : Z := def_hashfunc_from 0 k.

Section ops.
Context {D : Type}.
Implicit Types (t : HASHTBL D) (k : string) (n : hashnode_s D).

Definition hashtbl_create (sz : nat) (hf : option (string → Z)) : C (option (HASHTBL D)) :=
  ok ← malloc;
  if negb ok then mret None else
  ok ← malloc;
  if negb ok then mret None else
  mret (Some (Tbl sz (replicate sz []) (from_option id def_hashfunc hf))).

(** [hashtbl->hashfunc(key) % hashtbl->size]: undefined when the size is 0. *)
Definition bucket t k : C nat :=
  assertC (bool_decide (tsize t ≠ 0));;
  mret (Z.to_nat (hashfunc t k mod Z.of_nat (tsize t))).

Definition has_key k n : bool := bool_decide (key n = k).

Definition set_chain t (i : nat) (c : list (hashnode_s D)) : HASHTBL D :=
  Tbl (tsize t) (<[i := c]> (nodes t)) (hashfunc t).

(** The data buffer is allocated without a check and written at once. *)
Definition hashtbl_insert_with_size t k (d : D) (sz : nat) : C (Z * HASHTBL D) :=
  hash ← bucket t k;
  chain ← deref (nodes t !! hash);
  if existsb (has_key k) chain then mret ((-1)%Z, t) else
  ok ← malloc;
  if negb ok then mret ((-1)%Z, t) else
  ok ← malloc;
  if negb ok then mret ((-1)%Z, t) else
  ok ← malloc;
  assertC ok;;
  mret (0%Z, set_chain t hash (Node k d sz :: chain)).

(** The first node of the chain with the key is unlinked. *)
Fixpoint unlink k (chain : list (hashnode_s D)) : option (list (hashnode_s D)) :=
  match chain with
  | [] => None
  | n :: chain' => if has_key k n then Some chain' else cons n <$> unlink k chain'
  end.

Definition hashtbl_remove t k : C (Z * HASHTBL D) :=
  hash ← bucket t k;
  chain ← deref (nodes t !! hash);
  match unlink k chain with
  | Some chain' => mret (0%Z, set_chain t hash chain')
  | None => mret ((-1)%Z, t)
  end.

Definition hashtbl_get t k : C (option D) :=
  hash ← bucket t k;
  chain ← deref (nodes t !! hash);
  mret (data <$> List.find (has_key k) chain).

(** One pass over the chains, stopping at the first insertion that fails. *)
Definition duplicate_chain (hashtbl : HASHTBL D) (chain : list (hashnode_s D)) :
    C (ctl (HASHTBL D) unit) :=
  loopC (λ tbl node,
    '(rc, tbl') ← hashtbl_insert_with_size tbl (key node) (data node) (size node);
    mret (if bool_decide (rc = 0%Z) then Next tbl' else Break tt)) hashtbl chain.

Definition hashtbl_duplicate (h : HASHTBL D) : C (option (HASHTBL D)) :=
  ok ← malloc;
  if negb ok then mret None else
  ok ← malloc;
  if negb ok then mret None else
  r ← loopC (λ tbl i, chain ← deref (nodes h !! i); duplicate_chain tbl chain)
        (Tbl (tsize h) (replicate (tsize h) []) (hashfunc h)) (seq 0 (tsize h));
  mret (match r with Next tbl => Some tbl | Break _ => None end).

(** The results of the insertion and of the removal are not checked. *)
Definition hashtbl_resize (hashtbl : HASHTBL D) (sz : nat) : C (Z * HASHTBL D) :=
  ok ← malloc;
  if negb ok then mret ((-1)%Z, hashtbl) else
  '(old, new) ← foldC (λ '(old, new) i,
      chain ← deref (nodes old !! i);
      foldC (λ '(old, new) node,
        '(_, new') ← hashtbl_insert_with_size new (key node) (data node) (size node);
        '(_, old') ← hashtbl_remove old (key node);
        mret (old', new')) (old, new) chain)
    (hashtbl, Tbl sz (replicate sz []) (hashfunc hashtbl)) (seq 0 (tsize hashtbl));
  mret (0%Z, new).

(** The first node found in the chains [seq i k], where [first] replaces the
    first chain when the search starts inside it. *)
Fixpoint next_from t (first : option (list (hashnode_s D))) (idx : list nat) :
    C (option (hashnode_s D)) :=
  match idx with
  | [] => mret None
  | i :: idx' =>
      chain ← match first with Some c => mret c | None => deref (nodes t !! i) end;
      match chain with
      | n :: _ => mret (Some n)
      | [] => next_from t None idx'
      end
  end.

(** The chain after the node with the key. *)
Fixpoint after k (chain : list (hashnode_s D)) : option (list (hashnode_s D)) :=
  match chain with
  | [] => None
  | n :: chain' => if has_key k n then Some chain' else after k chain'
  end.

Definition hashtbl_next t (k : option string) : C (option (string * D)) :=
  r ← match k with
      | None => next_from t None (seq 0 (tsize t))
      | Some k =>
          hash ← bucket t k;
          chain ← deref (nodes t !! hash);
          match after k chain with
          | None => mret None
          | Some rest => next_from t (Some rest) (seq hash (tsize t - hash))
          end
      end;
  mret ((λ n, (key n, data n)) <$> r).

End ops.

(** [hashtbl_insert] stores a C string with its terminator. *)
Definition hashtbl_insert (t : HASHTBL string) (k : string) (d : string) : C (Z * HASHTBL string) :=
  hashtbl_insert_with_size t k d (String.length d).

(** ** Representation invariant and abstraction *)

Section spec.
Context {D : Type}.
Implicit Types (t : HASHTBL D) (k : string) (n : hashnode_s D).

Definition index_of t k : nat := Z.to_nat (hashfunc t k mod Z.of_nat (tsize t)).

Definition entry n : string * D := (key n, data n).

Definition entries t : list (string * D) := entry <$> concat (nodes t).

Definition abs t : gmap string D := list_to_map (entries t).

Record hash_wf t : Prop := {
  wf_size : 0 < tsize t;
  wf_length : length (nodes t) = tsize t;
  wf_nodup : NoDup (key <$> concat (nodes t));
  wf_placed : ∀ i c n, nodes t !! i = Some c → n ∈ c → index_of t (key n) = i;
}.

Lemma index_of_lt t k : 0 < tsize t → index_of t k < tsize t.
Proof.
  intros Hs. unfold index_of.
  pose proof (Z.mod_pos_bound (hashfunc t k) (Z.of_nat (tsize t))). lia.
Qed.

Lemma wf_bucket t k : hash_wf t → ∃ c, nodes t !! index_of t k = Some c.
Proof.
  intros [Hs Hl _ _]. apply lookup_lt_is_Some_2. rewrite Hl. by apply index_of_lt.
Qed.

Lemma wp_bucket t k (Q : nat → mem → Prop) m :
  0 < tsize t → Q (index_of t k) m → wp (bucket t k) Q m.
Proof. intros Hs HQ. apply wp_bind, wp_assert; [apply bool_decide_eq_true; lia|done]. Qed.

Lemma entries_keys t : (entries t).*1 = key <$> concat (nodes t).
Proof. unfold entries. by rewrite <-list_fmap_compose. Qed.

Lemma abs_lookup t k d : hash_wf t → abs t !! k = Some d ↔ (k, d) ∈ entries t.
Proof.
  intros Hwf. symmetry. apply elem_of_list_to_map. rewrite entries_keys. apply Hwf.
Qed.

Lemma has_key_true k n : has_key k n = true ↔ key n = k.
Proof. apply bool_decide_eq_true. Qed.

(** The chain of the bucket decides whether a key is bound. *)
Lemma chain_find t k c :
  hash_wf t → nodes t !! index_of t k = Some c →
  data <$> List.find (has_key k) c = abs t !! k.
Proof.
  intros Hwf Hc. apply option_eq. intros d. rewrite abs_lookup by done. split.
  - intros (n & [Hn Hk]%List.find_some & ->)%fmap_Some.
    apply has_key_true in Hk as <-.
    apply list_elem_of_fmap. exists n. split; [done|].
    apply elem_of_concat. exists (index_of t (key n)), c. split; [done|].
    by apply list_elem_of_In.
  - intros (n & [= -> ->] & (i & c' & Hi & Hn)%elem_of_concat)%list_elem_of_fmap.
    pose proof (wf_placed _ Hwf _ _ _ Hi Hn) as <-. simplify_eq.
    destruct (List.find (has_key (key n)) c) as [n'|] eqn:Hf.
    + apply List.find_some in Hf as [Hn' Hk']. apply has_key_true in Hk'. simpl. f_equal.
      assert (n' = n) as ->; [|done].
      apply list_elem_of_In in Hn'.
      apply (NoDup_fmap_inj_on key (concat (nodes t))); [apply Hwf| | |done];
        apply elem_of_concat; eauto.
    + apply list_elem_of_In in Hn. pose proof (List.find_none _ _ Hf _ Hn) as Hk.
      exfalso. assert (has_key (key n) n = true) by (by apply has_key_true). congruence.
Qed.

Lemma existsb_has_key t k c :
  hash_wf t → nodes t !! index_of t k = Some c →
  existsb (has_key k) c = true ↔ is_Some (abs t !! k).
Proof.
  intros Hwf Hc. rewrite <-(chain_find t k c) by done. rewrite fmap_is_Some.
  destruct (List.find (has_key k) c) as [n|] eqn:Hf.
  - split; [by eauto|intros _]. apply List.existsb_exists. exists n.
    by apply List.find_some in Hf.
  - split; [|by intros []]. intros (n & Hn & Hk)%List.existsb_exists.
    pose proof (List.find_none _ _ Hf _ Hn). congruence.
Qed.

Lemma abs_None t k : abs t !! k = None ↔ k ∉ key <$> concat (nodes t).
Proof. unfold abs. by rewrite <-not_elem_of_list_to_map, entries_keys. Qed.

(** Same entries, in any order: same map. *)
Lemma abs_perm t t' : hash_wf t → entries t ≡ₚ entries t' → abs t = abs t'.
Proof.
  intros Hwf He. apply list_to_map_proper; [|done]. rewrite entries_keys. apply Hwf.
Qed.

(** Linking a fresh node at the head of its chain. *)
Lemma link_spec t k d sz c :
  hash_wf t → abs t !! k = None → nodes t !! index_of t k = Some c →
  let t' := set_chain t (index_of t k) (Node k d sz :: c) in
  hash_wf t' ∧ entries t' ≡ₚ (k, d) :: entries t ∧ abs t' = <[k := d]> (abs t).
Proof.
  intros Hwf Hk Hc t'. pose proof Hwf as [Hs Hl Hnd Hpl].
  assert (concat (nodes t') ≡ₚ Node k d sz :: concat (nodes t)) as Hp.
  { apply (Permutation_app_inv_r c). unfold t'. simpl.
    rewrite (concat_insert_perm _ _ _ _ Hc). solve_Permutation. }
  assert (entries t' ≡ₚ (k, d) :: entries t) as He by (unfold entries; by rewrite Hp).
  apply abs_None in Hk.
  assert (hash_wf t') as Hwf'.
  { split; [done| | |].
    - simpl. by rewrite length_insert.
    - rewrite Hp. simpl. by apply NoDup_cons.
    - intros i c' n Hi Hn. unfold index_of; simpl. fold (index_of t (key n)).
      simpl in Hi. apply list_lookup_insert_Some in Hi as [(<- & <- & _)|[_ Hi]]; [|by eauto].
      apply elem_of_cons in Hn as [->|Hn]; [done|by eauto]. }
  split; [done|]. split; [done|].
  unfold abs. rewrite <-list_to_map_cons. apply list_to_map_proper; [|done].
  rewrite entries_keys. apply Hwf'.
Qed.

Lemma insert_spec t k d sz m :
  hash_wf t → reliable m →
  wp (hashtbl_insert_with_size t k d sz) (λ r m',
    reliable m' ∧ hash_wf r.2 ∧ tsize r.2 = tsize t ∧ hashfunc r.2 = hashfunc t ∧
    match abs t !! k with
    | Some _ => r = ((-1)%Z, t)
    | None => r.1 = 0%Z ∧ entries r.2 ≡ₚ (k, d) :: entries t ∧ abs r.2 = <[k := d]> (abs t)
    end) m.
Proof.
  intros Hwf Hm. unfold hashtbl_insert_with_size.
  apply wp_bind, wp_bucket; [apply Hwf|]. destruct (wf_bucket t k Hwf) as [c Hc].
  apply wp_bind. eapply wp_deref; [exact Hc|].
  pose proof (existsb_has_key t k c Hwf Hc) as Hex.
  destruct (existsb (has_key k) c).
  - destruct (abs t !! k); [|by destruct (proj1 Hex eq_refl)]. by apply wp_ret.
  - destruct (abs t !! k) eqn:Hk; [by assert (false = true) by (apply Hex; eauto)|].
    wp_steps. destruct (link_spec t k d sz c) as (? & ? & ?); split_and?; auto.
Qed.

Lemma unlink_Some k (c c' : list (hashnode_s D)) :
  unlink k c = Some c' → ∃ n l1 l2, c = l1 ++ n :: l2 ∧ c' = l1 ++ l2 ∧ key n = k.
Proof.
  revert c'. induction c as [|n c IH]; intros c'; simpl; [done|].
  destruct (has_key k n) eqn:Hk.
  - intros [= <-]. apply has_key_true in Hk. by exists n, [], c.
  - intros (c1 & (n1 & l1 & l2 & -> & -> & <-)%IH & ->)%fmap_Some.
    by exists n1, (n :: l1), l2.
Qed.

Lemma unlink_None k (c : list (hashnode_s D)) : unlink k c = None → List.find (has_key k) c = None.
Proof.
  induction c as [|n c IH]; simpl; [done|]. destruct (has_key k n); [done|].
  intros ?%fmap_None. by apply IH.
Qed.

(** Unlinking the node of a key from its chain. *)
Lemma unlink_spec t k c l1 l2 n :
  hash_wf t → nodes t !! index_of t k = Some c → c = l1 ++ n :: l2 → key n = k →
  let t' := set_chain t (index_of t k) (l1 ++ l2) in
  hash_wf t' ∧ entries t ≡ₚ (k, data n) :: entries t' ∧ abs t' = delete k (abs t).
Proof.
  intros Hwf Hc -> Hk t'. pose proof Hwf as [Hs Hl Hnd Hpl].
  assert (concat (nodes t) ≡ₚ n :: concat (nodes t')) as Hp.
  { apply (Permutation_app_inv_r (l1 ++ l2)). unfold t'. simpl.
    rewrite <-(concat_insert_perm _ _ _ _ Hc). solve_Permutation. }
  assert (entries t ≡ₚ (k, data n) :: entries t') as He.
  { unfold entries. rewrite Hp. simpl. by rewrite <-Hk. }
  rewrite Hp in Hnd. simpl in Hnd. apply NoDup_cons in Hnd as [Hni Hnd].
  assert (hash_wf t') as Hwf'.
  { split; [done| |done|].
    - simpl. by rewrite length_insert.
    - intros i c' n' Hi Hn. unfold index_of; simpl. fold (index_of t (key n')).
      simpl in Hi. apply list_lookup_insert_Some in Hi as [(<- & <- & _)|[_ Hi]]; [|by eauto].
      eapply Hpl; [exact Hc|]. apply elem_of_app.
      apply elem_of_app in Hn as [?|?]; [by left|by right; right]. }
  split; [done|]. split; [done|].
  assert (abs t = <[k := data n]> (abs t')) as ->.
  { unfold abs. rewrite <-list_to_map_cons. apply list_to_map_proper; [|done].
    rewrite entries_keys. apply Hwf. }
  rewrite delete_insert_id; [done|]. apply abs_None. by rewrite <-Hk.
Qed.

Lemma remove_spec t k m :
  hash_wf t →
  wp (hashtbl_remove t k) (λ r m',
    m' = m ∧ hash_wf r.2 ∧ tsize r.2 = tsize t ∧ hashfunc r.2 = hashfunc t ∧
    match abs t !! k with
    | Some d => r.1 = 0%Z ∧ entries t ≡ₚ (k, d) :: entries r.2 ∧ abs r.2 = delete k (abs t)
    | None => r = ((-1)%Z, t)
    end) m.
Proof.
  intros Hwf. unfold hashtbl_remove.
  apply wp_bind, wp_bucket; [apply Hwf|]. destruct (wf_bucket t k Hwf) as [c Hc].
  apply wp_bind. eapply wp_deref; [exact Hc|].
  destruct (unlink k c) as [c'|] eqn:Hu; apply wp_ret.
  - apply unlink_Some in Hu as (n & l1 & l2 & Hcc & -> & Hk).
    destruct (unlink_spec t k c l1 l2 n) as (? & He & Hd); [done..|].
    assert (abs t !! k = Some (data n)) as ->; [|by auto].
    apply abs_lookup; [done|]. rewrite He. left.
  - apply unlink_None in Hu. pose proof (chain_find t k c Hwf Hc) as Hf.
    rewrite Hu in Hf. simpl in Hf. rewrite <-Hf. auto.
Qed.

Lemma get_spec t k m :
  hash_wf t → wp (hashtbl_get t k) (λ r m', m' = m ∧ r = abs t !! k) m.
Proof.
  intros Hwf. unfold hashtbl_get.
  apply wp_bind, wp_bucket; [apply Hwf|]. destruct (wf_bucket t k Hwf) as [c Hc].
  apply wp_bind. eapply wp_deref; [exact Hc|]. apply wp_ret. split; [done|].
  by apply chain_find.
Qed.

Definition empty_table (sz : nat) (hf : string → Z) : HASHTBL D :=
  Tbl sz (replicate sz []) hf.

Lemma empty_table_concat sz hf : concat (nodes (empty_table sz hf)) = [].
Proof. simpl. induction sz; [done|]. by simpl. Qed.

Lemma empty_table_spec sz hf :
  0 < sz → hash_wf (empty_table sz hf) ∧ entries (empty_table sz hf) = [].
Proof.
  intros Hs. unfold entries. rewrite empty_table_concat. split; [|done]. split.
  - done.
  - apply length_replicate.
  - rewrite empty_table_concat. constructor.
  - intros i c n [-> _]%lookup_replicate Hn. by apply elem_of_nil in Hn.
Qed.

(** Inserting the nodes of a list with fresh, distinct keys. *)
Definition copies (t0 : HASHTBL D) (l : list (hashnode_s D)) t : Prop :=
  hash_wf t ∧ tsize t = tsize t0 ∧ hashfunc t = hashfunc t0 ∧ entries t ≡ₚ entry <$> l.

Lemma insert_copies t0 l n t m :
  copies t0 l t → NoDup (key <$> l ++ [n]) → reliable m →
  wp (hashtbl_insert_with_size t (key n) (data n) (size n)) (λ r m',
    reliable m' ∧ r.1 = 0%Z ∧ copies t0 (l ++ [n]) r.2) m.
Proof.
  intros (Hwf & Hs & Hh & He) Hnd Hm. eapply wp_mono; [by apply insert_spec|].
  intros [rc t'] m' (? & ? & ? & ? & Hr); simpl in *.
  assert (abs t !! key n = None) as Hk.
  { apply abs_None. rewrite <-entries_keys, He, <-list_fmap_compose.
    rewrite fmap_app, Permutation_app_comm in Hnd. simpl in Hnd.
    by apply NoDup_cons in Hnd as [? _]. }
  rewrite Hk in Hr. destruct Hr as (-> & He' & _).
  split_and?; [done|done|]. split_and!; [done|congruence|congruence|].
  rewrite He', He, fmap_app. simpl. solve_Permutation.
Qed.

Lemma duplicate_loop t0 l m :
  0 < tsize t0 → NoDup (key <$> l) → reliable m →
  wp (duplicate_chain (empty_table (tsize t0) (hashfunc t0)) l)
     (λ r m', match r with Next t => reliable m' ∧ copies t0 l t | Break _ => False end) m.
Proof.
  intros Hs Hnd Hm.
  apply (wp_loopC _ (λ don t m', reliable m' ∧ copies t0 don t) (λ _ _, False)).
  - split; [done|]. destruct (empty_table_spec (tsize t0) (hashfunc t0) Hs) as [? He].
    split_and!; [done..|]. by rewrite He.
  - intros don n rest t m' -> [Hm' Ht]. apply wp_bind.
    eapply wp_mono; [apply (insert_copies t0 don)|]; [done| |done|].
    + rewrite (cons_middle n), app_assoc, fmap_app in Hnd. by apply NoDup_app in Hnd as [? _].
    + intros [rc t'] m'' (? & Hrc & ?). simpl in *. subst rc. by apply wp_ret.
Qed.

Lemma duplicate_spec t m :
  hash_wf t → reliable m →
  wp (hashtbl_duplicate t) (λ r m', reliable m' ∧ ∃ t', r = Some t' ∧
    hash_wf t' ∧ tsize t' = tsize t ∧ hashfunc t' = hashfunc t ∧ abs t' = abs t) m.
Proof.
  intros Hwf Hm. unfold hashtbl_duplicate. do 2 (wp_step; wp_step; simpl). wp_step.
  apply (wp_loopC_rows _ (nodes t)); [by rewrite (wf_length _ Hwf)|].
  eapply wp_mono; [apply duplicate_loop; [apply Hwf|apply Hwf|done]|].
  intros [t'|[]] m2 Hr; [|done]. destruct Hr as (? & Hwf' & ? & ? & He).
  apply wp_ret. split; [done|]. exists t'. split_and!; try done. by apply abs_perm.
Qed.

(** State of [hashtbl_resize] after the chains before [i] and the first nodes
    [don] of chain [i]: those are in the new table, the others still in the old
    one, in place. *)
Definition resizing (h : HASHTBL D) (sz i : nat) (don : list (hashnode_s D))
    (st : HASHTBL D * HASHTBL D) : Prop :=
  hash_wf st.1 ∧ tsize st.1 = tsize h ∧ hashfunc st.1 = hashfunc h ∧
  (∀ j, i < j → nodes st.1 !! j = nodes h !! j) ∧
  copies (empty_table sz (hashfunc h)) (concat (take i (nodes h)) ++ don) st.2.

Lemma resize_node h sz i don n rest st m :
  hash_wf h → reliable m → nodes h !! i = Some (don ++ n :: rest) →
  resizing h sz i don st → nodes st.1 !! i = Some (n :: rest) →
  wp ('(_, new') ← hashtbl_insert_with_size st.2 (key n) (data n) (size n);
      '(_, old') ← hashtbl_remove st.1 (key n);
      mret (old', new'))
     (λ st' m', reliable m' ∧ resizing h sz i (don ++ [n]) st' ∧
        nodes st'.1 !! i = Some rest) m.
Proof.
  destruct st as [old new]; simpl.
  intros Hwf Hm Hi (Hwo & Hso & Hho & Hrest & Hc) Ho. simpl in *.
  assert (concat (nodes h) = ((concat (take i (nodes h)) ++ don) ++ [n]) ++ rest ++
    concat (drop (S i) (nodes h))) as Hcat.
  { rewrite <-(take_drop_middle _ _ _ Hi) at 1. rewrite concat_app. simpl.
    by rewrite <-!app_assoc. }
  pose proof (wf_nodup _ Hwf) as Hnd. rewrite Hcat in Hnd.
  apply wp_bind. eapply wp_mono; [eapply insert_copies; [exact Hc| |done]|].
  { rewrite fmap_app in Hnd. by apply NoDup_app in Hnd as [? _]. }
  intros [rc new'] m1 (Hm1 & _ & Hc'); simpl in *.
  assert (index_of old (key n) = i) as Hidx.
  { eapply (wf_placed _ Hwo); [exact Ho|left]. }
  unfold hashtbl_remove. apply wp_bind, wp_bind, wp_bucket; [apply Hwo|].
  rewrite Hidx. apply wp_bind. eapply wp_deref; [exact Ho|]. simpl.
  assert (has_key (key n) n = true) as -> by (by apply has_key_true).
  do 2 apply wp_ret. split; [done|]. unfold resizing. simpl.
  destruct (unlink_spec old (key n) (n :: rest) [] rest n) as (Hwf' & _); try done;
    [by rewrite Hidx|]. rewrite Hidx in Hwf'. simpl in Hwf'.
  split_and!; try done.
  - intros j Hj. rewrite list_lookup_insert_ne by lia. by apply Hrest.
  - by rewrite app_assoc.
  - apply list_lookup_insert_eq. by eapply lookup_lt_Some.
Qed.

Lemma resize_chain h sz i c st m :
  hash_wf h → reliable m → nodes h !! i = Some c →
  resizing h sz i [] st → nodes st.1 !! i = Some c →
  wp (foldC (λ '(old, new) node,
        '(_, new') ← hashtbl_insert_with_size new (key node) (data node) (size node);
        '(_, old') ← hashtbl_remove old (key node);
        mret (old', new')) st c)
     (λ st' m', reliable m' ∧ resizing h sz (S i) [] st' ∧
        nodes st'.1 !! S i = nodes h !! S i) m.
Proof.
  intros Hwf Hm Hi Hst Ho.
  eapply wp_mono; [apply (wp_foldC _ (λ don st' m', reliable m' ∧
    resizing h sz i don st' ∧ nodes st'.1 !! i = Some (drop (length don) c)))|].
  - done.
  - intros don n rest [old new] m' -> (Hm' & Hr & Ho').
    rewrite drop_app_length in Ho'.
    eapply wp_mono; [by eapply (resize_node h sz i don n rest (old, new))|].
    intros st' m'' (? & ? & Hn). split_and!; [done..|].
    by rewrite length_app, Nat.add_1_r, cons_middle, app_assoc, drop_app_length' by
      (rewrite length_app; simpl; lia).
  - intros st' m' (Hm' & (? & ? & ? & Hrest & Hc) & _). split; [done|].
    split; [|apply Hrest; lia]. unfold resizing. split_and!; try done.
    + intros j Hj. apply Hrest. lia.
    + rewrite (take_S_r _ _ _ Hi), concat_app. simpl. by rewrite !app_nil_r.
Qed.

Lemma resize_spec h sz m :
  hash_wf h → 0 < sz → reliable m →
  wp (hashtbl_resize h sz) (λ r m', reliable m' ∧ r.1 = 0%Z ∧ hash_wf r.2 ∧
    tsize r.2 = sz ∧ hashfunc r.2 = hashfunc h ∧ abs r.2 = abs h) m.
Proof.
  intros Hwf Hsz Hm. unfold hashtbl_resize. wp_step. wp_step. simpl. wp_step.
  eapply wp_mono; [apply (wp_foldC _ (λ don st m',
    reliable m' ∧ resizing h sz (length don) [] st ∧
    nodes st.1 !! length don = nodes h !! length don))|].
  - split; [done|]. split; [|done].
    destruct (empty_table_spec sz (hashfunc h) Hsz) as [? He].
    unfold resizing, copies. split_and!; try done. simpl.
    fold (empty_table sz (hashfunc h)). by rewrite He.
  - intros don i rest [old new] m0 Heq (Hm0 & Hr & Ho).
    apply seq_app_cons_inv in Heq as (-> & _ & Hlt).
    destruct (lookup_lt_is_Some_2 (nodes h) (length don)) as [c Hc];
      [by rewrite (wf_length _ Hwf)|].
    rewrite Hc in Ho. simpl in Ho. apply wp_bind. eapply wp_deref; [exact Ho|].
    eapply wp_mono; [by eapply (resize_chain h sz (length don) c (old, new))|].
    intros st' m'' ?. by rewrite length_app, Nat.add_1_r.
  - intros [old new] m1 (? & (_ & _ & _ & _ & Hc) & _). rewrite length_seq in Hc.
    apply wp_ret. simpl in *. destruct Hc as (? & ? & ? & He). split_and!; try done.
    apply abs_perm; [done|]. rewrite He, app_nil_r, take_ge; [done|].
    by rewrite (wf_length _ Hwf).
Qed.

(** ** Enumeration *)

Lemma next_from_spec t (first : option (list (hashnode_s D))) i m :
  length (nodes t) = tsize t → i < tsize t ∨ first = None →
  wp (next_from t first (seq i (tsize t - i))) (λ r m',
    m' = m ∧
    r = head (from_option (λ c, c ++ concat (drop (S i) (nodes t))) (concat (drop i (nodes t))) first))
    m.
Proof.
  intros Hl. remember (tsize t - i) as len eqn:Hlen. revert first i Hlen.
  induction len as [|len IH]; intros first i Hlen Hfirst; simpl.
  - apply wp_ret. destruct Hfirst as [?| ->]; [lia|]. simpl.
    rewrite drop_ge by lia. done.
  - assert (wp (next_from t None (seq (S i) len))
      (λ r m', m' = m ∧ r = head (concat (drop (S i) (nodes t)))) m) as Hnone.
    { apply (IH None); [lia|by right]. }
    destruct first as [c|]; simpl.
    + apply wp_bind, wp_ret. destruct c as [|n c]; [done|by apply wp_ret].
    + destruct (lookup_lt_is_Some_2 (nodes t) i) as [c Hc]; [lia|].
      apply wp_bind. eapply wp_deref; [exact Hc|]. rewrite (drop_S _ _ _ Hc). simpl.
      destruct c as [|n c]; [done|by apply wp_ret].
Qed.

Lemma after_spec k (c l1 l2 : list (hashnode_s D)) n :
  c = l1 ++ n :: l2 → key n = k → NoDup (key <$> c) → after k c = Some l2.
Proof.
  intros -> <-. induction l1 as [|x l1 IH]; simpl.
  - intros _. by rewrite (proj2 (has_key_true _ _)).
  - intros [Hx Hnd]%NoDup_cons. destruct (has_key (key n) x) eqn:Hk; [|by apply IH].
    apply has_key_true in Hk. exfalso. apply Hx. rewrite Hk, fmap_app. set_solver.
Qed.

(** [hashtbl_next] steps from one node of the concatenated chains to the next. *)
Lemma next_spec t pre n post m :
  hash_wf t → concat (nodes t) = pre ++ n :: post →
  wp (hashtbl_next t (Some (key n))) (λ r m', m' = m ∧ r = entry <$> head post) m.
Proof.
  intros Hwf Hcat. pose proof Hwf as [Hs Hl Hnd Hpl].
  assert (n ∈ concat (nodes t)) as (i & c & Hi & Hn)%elem_of_concat by (rewrite Hcat; set_solver).
  pose proof (Hpl _ _ _ Hi Hn) as Hidx.
  apply list_elem_of_split in Hn as (l1 & l2 & ->).
  assert (concat (nodes t) = (concat (take i (nodes t)) ++ l1) ++ n :: l2 ++
    concat (drop (S i) (nodes t))) as Hcat2.
  { rewrite <-(take_drop_middle _ _ _ Hi) at 1. rewrite concat_app. simpl.
    by rewrite <-!app_assoc. }
  assert (post = l2 ++ concat (drop (S i) (nodes t))) as ->.
  { rewrite Hcat in Hnd, Hcat2. by destruct (NoDup_fmap_split _ _ _ _ _ _ Hnd Hcat2). }
  unfold hashtbl_next. apply wp_bind. apply wp_bind, wp_bucket; [done|].
  rewrite Hidx. apply wp_bind. eapply wp_deref; [exact Hi|].
  rewrite (after_spec _ _ l1 l2 n); [|done..|].
  2:{ rewrite <-(take_drop_middle _ _ _ Hi), concat_app, fmap_app in Hnd. simpl in Hnd.
      apply NoDup_app in Hnd as (_ & _ & Hnd). rewrite fmap_app in Hnd.
      by apply NoDup_app in Hnd as [? _]. }
  eapply wp_mono; [apply next_from_spec; [done|left]|].
  { rewrite <-Hl. by eapply lookup_lt_Some. }
  intros r m' [-> ->]. by apply wp_ret.
Qed.

(** The caller's loop: [key = NULL; while (!hashtbl_next(tbl, &key, &data)) ...]. *)
Fixpoint enumerate (fuel : nat) t (k : option string) : C (list (string * D)) :=
  match fuel with
  | 0 => out_of_fuel
  | S fuel' =>
      r ← hashtbl_next t k;
      match r with
      | None => mret []
      | Some (k', d) => rest ← enumerate fuel' t (Some k'); mret ((k', d) :: rest)
      end
  end.

Lemma enumerate_from t pre n post m :
  hash_wf t → concat (nodes t) = pre ++ n :: post →
  wp (enumerate (S (length post)) t (Some (key n))) (λ l m', m' = m ∧ l = entry <$> post) m.
Proof.
  intros Hwf. revert pre n. induction post as [|n' post IH]; intros pre n Hcat; simpl.
  - apply wp_bind. eapply wp_mono; [by eapply next_spec|]. intros r m' [-> ->]. by apply wp_ret.
  - apply wp_bind. eapply wp_mono; [by eapply next_spec|]. intros r m' [-> ->]. simpl.
    apply wp_bind. eapply wp_mono; [apply (IH (pre ++ [n]))|].
    + by rewrite <-app_assoc.
    + intros l m' [-> ->]. by apply wp_ret.
Qed.

(** ** Trace refinement *)

Inductive op : Type :=
| OpInsert (k : string) (d : D) (sz : nat)
| OpRemove (k : string)
| OpGet (k : string)
| OpResize (sz : nat)
| OpDuplicate.

Inductive obs : Type :=
| ObsCode (rc : Z)
| ObsData (d : option D)
| ObsTable (created : bool).

Definition exec_op t (o : op) : C (obs * HASHTBL D) :=
  match o with
  | OpInsert k d sz => '(rc, t') ← hashtbl_insert_with_size t k d sz; mret (ObsCode rc, t')
  | OpRemove k => '(rc, t') ← hashtbl_remove t k; mret (ObsCode rc, t')
  | OpGet k => d ← hashtbl_get t k; mret (ObsData d, t)
  | OpResize sz => '(rc, t') ← hashtbl_resize t sz; mret (ObsCode rc, t')
  | OpDuplicate => r ← hashtbl_duplicate t; mret (ObsTable (bool_decide (is_Some r)), default t r)
  end.

(** The map a table stands for, and what each operation reports of it. *)
Definition spec_op (M : gmap string D) (o : op) : obs * gmap string D :=
  match o with
  | OpInsert k d _ =>
      match M !! k with Some _ => (ObsCode (-1), M) | None => (ObsCode 0, <[k := d]> M) end
  | OpRemove k =>
      match M !! k with Some _ => (ObsCode 0, delete k M) | None => (ObsCode (-1), M) end
  | OpGet k => (ObsData (M !! k), M)
  | OpResize _ => (ObsCode 0, M)
  | OpDuplicate => (ObsTable true, M)
  end.

Definition op_ok (o : op) : Prop := match o with OpResize sz => 0 < sz | _ => True end.

Fixpoint exec_ops t (os : list op) : C (list obs * HASHTBL D) :=
  match os with
  | [] => mret ([], t)
  | o :: os' => '(b, t') ← exec_op t o; '(bs, t'') ← exec_ops t' os'; mret (b :: bs, t'')
  end.

Fixpoint spec_ops (M : gmap string D) (os : list op) : list obs * gmap string D :=
  match os with
  | [] => ([], M)
  | o :: os' => let r := spec_op M o in let rs := spec_ops r.2 os' in (r.1 :: rs.1, rs.2)
  end.

Lemma exec_op_spec t o m :
  hash_wf t → op_ok o → reliable m →
  wp (exec_op t o) (λ r m', reliable m' ∧ hash_wf r.2 ∧ spec_op (abs t) o = (r.1, abs r.2)) m.
Proof.
  intros Hwf Ho Hm. destruct o as [k d sz|k|k|sz|]; simpl; apply wp_bind.
  - eapply wp_mono; [by apply insert_spec|]. intros [rc t'] m' (? & ? & _ & _ & Hr).
    apply wp_ret. split_and!; [done..|]. simpl in *.
    destruct (abs t !! k); [by simplify_eq|]. by destruct Hr as (-> & _ & ->).
  - eapply wp_mono; [by apply remove_spec|]. intros [rc t'] m' (-> & ? & _ & _ & Hr).
    apply wp_ret. split_and!; [done..|]. simpl in *.
    destruct (abs t !! k); [|by simplify_eq]. by destruct Hr as (-> & _ & ->).
  - eapply wp_mono; [by apply get_spec|]. intros r m' [-> ->]. by apply wp_ret.
  - eapply wp_mono; [by apply resize_spec|]. intros [rc t'] m' (? & ? & ? & _ & _ & Ha).
    apply wp_ret. simpl in *. split_and!; [done..|]. congruence.
  - eapply wp_mono; [by apply duplicate_spec|]. intros r m' (? & t' & -> & ? & _ & _ & Ha).
    apply wp_ret. simpl. split_and!; [done..|]. by rewrite Ha.
Qed.

Lemma exec_ops_spec t os m :
  hash_wf t → Forall op_ok os → reliable m →
  wp (exec_ops t os) (λ r m', hash_wf r.2 ∧ spec_ops (abs t) os = (r.1, abs r.2)) m.
Proof.
  revert t m. induction os as [|o os IH]; intros t m Hwf Hos Hm; simpl; [by apply wp_ret|].
  apply Forall_cons in Hos as [Ho Hos]. apply wp_bind.
  eapply wp_mono; [by apply exec_op_spec|]. intros [b t'] m' (Hm' & Hwf' & Hs); simpl in *.
  apply wp_bind. eapply wp_mono; [by apply IH|]. intros [bs t''] m'' [Hwf'' Hs''].
  apply wp_ret. by rewrite Hs; simpl; rewrite Hs''.
Qed.

End spec.

(** ** Properties *)

(** C16: started on a table created with a positive size, every sequence of
    insertions, removals, lookups, resizings and duplications reports exactly
    what the finite map from keys to data reports, and ends in a well-formed
    table that stands for the same map; no bucket is accessed out of range and no
    division by zero occurs. *)
Theorem hashtbl_refines_map {D} (sz : nat) (hf : option (string → Z)) (os : list (@op D)) (m : mem) :
  0 < sz → Forall op_ok os → reliable m →
  wp (r ← hashtbl_create sz hf; t ← deref r; exec_ops t os)
     (λ r m', hash_wf r.2 ∧ spec_ops ∅ os = (r.1, abs r.2)) m.
Proof.
  intros Hsz Hos Hm. wp_step. unfold hashtbl_create. wp_steps.
  destruct (@empty_table_spec D sz (from_option id def_hashfunc hf) Hsz) as [Hwf He].
  eapply wp_mono; [by apply exec_ops_spec|].
  intros r m1 [? Hs]. split; [done|]. rewrite <-Hs. f_equal. unfold abs.
  fold (@empty_table D sz (from_option id def_hashfunc hf)). by rewrite He.
Qed.

Lemma hashtbl_refines_map_witness :
  Forall (@op_ok string) [OpInsert "ab" "1" 1; OpInsert "ba" "2" 1; OpResize 3; OpGet "ab"; OpRemove "zz"] ∧
  wp (r ← hashtbl_create 2 None; t ← deref r;
      exec_ops t [OpInsert "ab" "1" 1; OpInsert "ba" "2" 1; OpResize 3; OpGet "ab"; OpRemove "zz"])
     (λ r m', hash_wf r.2 ∧
       spec_ops ∅ [OpInsert "ab" "1" 1; OpInsert "ba" "2" 1; OpResize 3; OpGet "ab"; OpRemove "zz"]
         = (r.1, abs r.2)) [].
Proof.
  assert (Forall (@op_ok string)
    [OpInsert "ab" "1" 1; OpInsert "ba" "2" 1; OpResize 3; OpGet "ab"; OpRemove "zz"])
    by (repeat constructor).
  split; [done|]. apply hashtbl_refines_map; [lia|done|apply reliable_nil].
Defined.

(** iterating [hashtbl_next] from the null key until it fails visits every
    entry of a well-formed table exactly once, in bucket order, and stops after
    one more call than there are entries. *)
Theorem hashtbl_next_enumerates {D} (t : HASHTBL D) (m : mem) :
  hash_wf t →
  wp (enumerate (S (length (entries t))) t None)
     (λ l m', m' = m ∧ l = entries t ∧ NoDup l.*1 ∧ list_to_map l = abs t) m.
Proof.
  intros Hwf.
  apply (wp_mono _ (λ l m', m' = m ∧ l = entries t)).
  2:{ intros l m' [-> ->]. split_and!; try done. rewrite entries_keys. apply Hwf. }
  simpl. apply wp_bind. unfold hashtbl_next. apply wp_bind.
  pose proof (next_from_spec t None 0 m (wf_length _ Hwf) (or_intror eq_refl)) as Hn.
  rewrite Nat.sub_0_r in Hn. eapply wp_mono; [exact Hn|].
  intros r m' [-> ->]. apply wp_ret. simpl. unfold entries. rewrite length_fmap, drop_0.
  destruct (concat (nodes t)) as [|n post] eqn:Hcat; simpl; [by apply wp_ret|].
  apply wp_bind. eapply wp_mono; [by apply (enumerate_from t [])|].
  intros l m' [-> ->]. by apply wp_ret.
Qed.

(** A table of three entries in two buckets. *)
Definition sample_table : HASHTBL string :=
  Tbl 2 [[Node "b" "2" 1; Node "d" "4" 1]; [Node "a" "1" 1]] def_hashfunc.

Lemma sample_table_wf : hash_wf sample_table.
Proof.
  split; [simpl; lia|done| |].
  - apply (bool_decide_unpack _). by vm_compute.
  - intros i c n Hi Hn.
    destruct i as [|[|i]]; simplify_eq/=; set_unfold; destruct_or?; subst; by vm_compute.
Qed.

Lemma hashtbl_next_enumerates_witness :
  wp (enumerate 4 sample_table None)
     (λ l m', m' = [] ∧ l = entries sample_table ∧ NoDup l.*1 ∧ list_to_map l = abs sample_table) [].
Proof. apply (hashtbl_next_enumerates sample_table []). apply sample_table_wf. Defined.

(** when the key is not bound yet, a failure of the allocation of the node or
    of its key leaves the table as it was and returns -1, but a failure of the
    allocation of the data buffer, whose result the code does not test, is
    undefined behaviour. *)
Theorem hashtbl_insert_out_of_memory {D} (t : HASHTBL D) (k : string) (d : D) (sz : nat) (m : mem) :
  hash_wf t → abs t !! k = None →
  hashtbl_insert_with_size t k d sz (false :: m) = Ok ((-1)%Z, t) m ∧
  hashtbl_insert_with_size t k d sz (true :: false :: m) = Ok ((-1)%Z, t) m ∧
  hashtbl_insert_with_size t k d sz (true :: true :: false :: m) = UB.
Proof.
  intros Hwf Hk. destruct (wf_bucket t k Hwf) as [c Hc].
  assert (existsb (has_key k) c = false) as Hex.
  { apply not_true_is_false. rewrite (existsb_has_key t k c) by done. rewrite Hk. by intros []. }
  assert (∀ m, bucket t k m = Ok (index_of t k) m) as Hb.
  { intros m1. unfold bucket. rewrite bool_decide_true; [done|]. pose proof (wf_size _ Hwf). lia. }
  unfold hashtbl_insert_with_size, mbind, C_bind. rewrite !Hb, Hc. simpl. by rewrite Hex.
Qed.

Lemma hashtbl_insert_out_of_memory_witness :
  hashtbl_insert_with_size sample_table "c" "3" 1 [false] = Ok ((-1)%Z, sample_table) [] ∧
  hashtbl_insert_with_size sample_table "c" "3" 1 [true; false] = Ok ((-1)%Z, sample_table) [] ∧
  hashtbl_insert_with_size sample_table "c" "3" 1 [true; true; false] = UB.
Proof.
  apply (hashtbl_insert_out_of_memory sample_table "c" "3" 1 []); [apply sample_table_wf|].
  by vm_compute.
Defined.

End HashTbl.
