(* ===== verification/Trash.v ===== *)
(** * The trash of recyclable identifiers ([src/src/oph_trash.c], [oph_trash.h])

    A trash maps keys (session identifiers) to queues of integers: the server
    keeps in it the marker identifiers to be recycled, a workflow keeps in it,
    under the null key, the cubes and containers to be deleted at the end.  The
    nodes of the C list are a Rocq list; each node holds its key and the items
    from [head] to [tail]. *)

From stdpp Require Import base gmap strings numbers sorting list.
From S2P Require Import Prelude.

Module Trash.

Definition OPH_TRASH_OK : Z := 0.
Definition OPH_TRASH_ERROR : Z := 1.

Record oph_trash_node : Type := TNode {
  key : option string;
  items : list Z;
}.

Definition oph_trash : Type := list oph_trash_node.

Definition oph_trash_create : C (Z * option oph_trash) :=
  ok ← malloc;
  mret (if ok : bool then (OPH_TRASH_OK, Some []) else (OPH_TRASH_ERROR, None)).

(** [!key || !strcmp(tmp->key, key)]; comparing with a node that has no key
    dereferences a null pointer. *)
Definition matches (k : option string) (n : oph_trash_node) : C bool :=
  match k with
  | None => mret true
  | Some k => nk ← deref (key n); mret (bool_decide (nk = k))
  end.

(** The nodes before the first match, the match and the nodes after it. *)
Fixpoint find_node (k : option string) (prev l : oph_trash) :
    C (option (oph_trash * oph_trash_node * oph_trash)) :=
  match l with
  | [] => mret None
  | n :: l' =>
      b ← matches k n;
      if b : bool then mret (Some (prev, n, l')) else find_node k (prev ++ [n]) l'
  end.

(** A new node is linked in front of the second one: the first is lost. *)
Definition oph_trash_append (trash : option oph_trash) (k : option string) (item : Z) :
    C (Z * option oph_trash) :=
  match trash with
  | None => mret (OPH_TRASH_ERROR, None)
  | Some t =>
      ok ← malloc;
      if negb ok then mret (OPH_TRASH_ERROR, Some t) else
      r ← find_node k [] t;
      match r with
      | Some (pre, n, post) =>
          mret (OPH_TRASH_OK, Some (pre ++ TNode (key n) (items n ++ [item]) :: post))
      | None =>
          ok ← malloc;
          if negb ok then mret (OPH_TRASH_ERROR, Some t) else
          ok ← match k with Some _ => malloc | None => mret true end;
          if negb ok then mret (OPH_TRASH_ERROR, Some t) else
          mret (OPH_TRASH_OK, Some (TNode k [item] :: tail t))
      end
  end.

(** Returns the code, the item (0 when there is none) and the new trash. *)
Definition oph_trash_extract (trash : option oph_trash) (k : option string) :
    C (Z * Z * option oph_trash) :=
  match trash with
  | None => mret (OPH_TRASH_ERROR, 0%Z, None)
  | Some t =>
      r ← find_node k [] t;
      match r with
      | None => mret (OPH_TRASH_ERROR, 0%Z, Some t)
      | Some (pre, n, post) =>
          match items n with
          | [] => mret (OPH_TRASH_ERROR, 0%Z, Some t)
          | [x] => mret (OPH_TRASH_OK, x, Some (pre ++ post))
          | x :: xs => mret (OPH_TRASH_OK, x, Some (pre ++ TNode (key n) xs :: post))
          end
      end
  end.

(** One pass of the exchange sort from the item [x]: the items after the pass and
    the value of [swap], which holds the larger item of the last exchange. *)
Fixpoint order_pass (x : Z) (rest : list Z) (swap : Z) : list Z * Z :=
  match rest with
  | [] => ([x], swap)
  | y :: rest' =>
      if (y <? x)%Z
      then let r := order_pass x rest' x in (y :: r.1, r.2)
      else let r := order_pass y rest' swap in (x :: r.1, r.2)
  end.

Definition pass (l : list Z) : list Z * Z :=
  match l with
  | [] => ([], 0%Z)
  | x :: rest => order_pass x rest 0
  end.

(** [do { swap = 0; ... } while (swap);] *)
Fixpoint order_items (fuel : nat) (l : list Z) : C (list Z) :=
  match fuel with
  | 0 => out_of_fuel
  | S fuel' =>
      let r := pass l in
      if bool_decide (r.2 = 0%Z) then mret r.1 else order_items fuel' r.1
  end.

Definition oph_trash_order (fuel : nat) (trash : option oph_trash) (k : option string) :
    C (Z * option oph_trash) :=
  match trash with
  | None => mret (OPH_TRASH_ERROR, None)
  | Some t =>
      r ← find_node k [] t;
      match r with
      | None => mret (OPH_TRASH_ERROR, Some t)
      | Some (pre, n, post) =>
          l ← order_items fuel (items n);
          mret (OPH_TRASH_OK, Some (pre ++ TNode (key n) l :: post))
      end
  end.

Definition oph_trash_size (trash : option oph_trash) (k : option string) : C (Z * Z) :=
  match trash with
  | None => mret (OPH_TRASH_ERROR, 0%Z)
  | Some t =>
      r ← find_node k [] t;
      match r with
      | None => mret (OPH_TRASH_ERROR, 0%Z)
      | Some (_, n, _) =>
          mret (if bool_decide (items n = []) then (OPH_TRASH_ERROR, 0%Z)
                else (OPH_TRASH_OK, wrap_u32 (Z.of_nat (length (items n)))))
      end
  end.

(** ** The exchange sort *)

Lemma order_pass_perm x l s : (order_pass x l s).1 ≡ₚ x :: l.
Proof.
  revert x s. induction l as [|y l IH]; intros x s; simpl; [done|].
  case_match; simpl; rewrite IH; [constructor|done].
Qed.

Lemma pass_perm l : (pass l).1 ≡ₚ l.
Proof. destruct l; [done|]. apply order_pass_perm. Qed.

(** A pass moves the largest item to the end. *)
Lemma order_pass_max x l s :
  ∃ l' mx, (order_pass x l s).1 = l' ++ [mx] ∧ Forall (λ y, y ≤ mx)%Z (x :: l).
Proof.
  revert x s. induction l as [|y l IH]; intros x s; simpl.
  - exists [], x. split; [done|]. by repeat constructor.
  - destruct (Z.ltb_spec y x) as [Hlt|Hle].
    + destruct (IH x x) as (l' & mx & -> & [Hx Hl]%Forall_cons).
      exists (y :: l'), mx. split; [done|]. repeat constructor; [done|lia|done].
    + destruct (IH y s) as (l' & mx & -> & [Hy Hl]%Forall_cons).
      exists (x :: l'), mx. split; [done|]. repeat constructor; [lia|done|done].
Qed.

(** A pass that ends with [swap = 0] on non-zero items exchanged nothing. *)
Lemma order_pass_swap x l s :
  Forall (λ y, y ≠ 0%Z) (x :: l) →
  (order_pass x l s).2 = 0%Z → s = 0%Z ∧ Sorted Z.le (x :: l) ∧ (order_pass x l s).1 = x :: l.
Proof.
  revert x s. induction l as [|y l IH]; intros x s Hnz; simpl.
  - intros ->. split_and!; [done| |done]. by repeat constructor.
  - apply Forall_cons in Hnz as [Hx Hnz].
    destruct (Z.ltb_spec y x) as [Hlt|Hle]; simpl; intros Hs.
    + apply Forall_cons in Hnz as [_ Hnz].
      apply IH in Hs as [-> _]; [done|]. by constructor.
    + apply IH in Hs as (-> & Hsort & ->); [|done]. split_and!; [done| |done].
      constructor; [done|]. by constructor.
Qed.

(** A largest item at the end is left alone. *)
Lemma order_pass_snoc x l mx s :
  Forall (λ y, y ≤ mx)%Z (x :: l) →
  order_pass x (l ++ [mx]) s = ((order_pass x l s).1 ++ [mx], (order_pass x l s).2).
Proof.
  revert x s. induction l as [|y l IH]; intros x s [Hx Hl]%Forall_cons; simpl.
  - destruct (Z.ltb_spec mx x); [lia|done].
  - apply Forall_cons in Hl as [Hy Hl].
    destruct (y <? x)%Z; rewrite IH by (by constructor); done.
Qed.

Lemma order_items_S fuel l m :
  order_items (S fuel) l m =
  if bool_decide ((pass l).2 = 0%Z) then Ok (pass l).1 m else order_items fuel (pass l).1 m.
Proof. simpl. by case_bool_decide. Qed.

Lemma order_items_snoc fuel l mx m l' :
  l ≠ [] → Forall (λ y, y ≤ mx)%Z l → order_items fuel l m = Ok l' m →
  order_items fuel (l ++ [mx]) m = Ok (l' ++ [mx]) m.
Proof.
  revert l. induction fuel as [|fuel IH]; intros l Hl Hmx; [done|].
  destruct l as [|x l]; [done|]. simpl.
  rewrite order_pass_snoc by done. simpl.
  case_bool_decide as Hs; [by intros [= <-]|].
  apply IH.
  - destruct (order_pass_max x l 0) as (? & ? & -> & _). by destruct x0.
  - by rewrite order_pass_perm.
Qed.

Lemma Sorted_snoc_max (l : list Z) mx :
  Sorted Z.le l → Forall (λ y, y ≤ mx)%Z l → Sorted Z.le (l ++ [mx]).
Proof.
  induction 1 as [|x l Hs IH Hd]; intros Hmx; simpl; [by repeat constructor|].
  apply Forall_cons in Hmx as [Hx Hmx]. constructor; [by apply IH|].
  destruct l; simpl; constructor; [done|]. by inversion Hd.
Qed.

(** As many passes as items are enough. *)
Lemma order_items_sorts n l m :
  length l ≤ n → Forall (λ y, y ≠ 0%Z) l →
  ∃ l', order_items (S n) l m = Ok l' m ∧ l' ≡ₚ l ∧ Sorted Z.le l'.
Proof.
  revert l. induction n as [|n IH]; intros l Hlen Hnz.
  { destruct l; [|simpl in Hlen; lia]. exists []. by repeat constructor. }
  destruct l as [|x l]; [by exists []; repeat constructor|].
  rewrite order_items_S. cbn [pass]. case_bool_decide as Hs.
  - apply order_pass_swap in Hs as (_ & Hsort & ->); [|done]. eauto.
  - destruct (order_pass_max x l 0) as (l1 & mx & He & Hmx).
    pose proof (order_pass_perm x l 0) as Hp. rewrite He in Hp.
    rewrite <-Hp in Hmx, Hnz. apply Forall_app in Hmx as [Hmx _], Hnz as [Hnz _].
    assert (length l1 ≤ n) as Hl1.
    { apply Permutation_length in Hp. rewrite length_app in Hp. simpl in *. lia. }
    destruct (IH l1 Hl1 Hnz) as (l' & Hr & Hp' & Hs').
    exists (l' ++ [mx]). rewrite He. split_and!.
    + destruct l1 as [|y l1]; [|by apply order_items_snoc].
      apply Permutation_nil_r in Hp' as ->. done.
    + by rewrite Hp', Hp.
    + apply Sorted_snoc_max; [done|]. by rewrite Hp'.
Qed.

Lemma wp_order_items fuel l (Q : list Z → mem → Prop) m :
  length l < fuel → Forall (λ y, y ≠ 0%Z) l →
  (∀ l', l' ≡ₚ l → Sorted Z.le l' → Q l' m) → wp (order_items fuel l) Q m.
Proof.
  intros Hf Hnz HQ. destruct fuel as [|n]; [lia|].
  destruct (order_items_sorts n l m) as (l' & Hr & ? & ?); [lia|done|].
  unfold wp. rewrite Hr. by apply HQ.
Qed.

(** ** Queues under the null key *)

(** The calls of the engine at the end of a workflow: the identifiers are
    appended under the null key, ordered, and extracted until the trash is empty. *)
Definition append_all (t : option oph_trash) (k : option string) (ids : list Z) :
    C (option oph_trash) :=
  foldC (λ t id, '(_, t') ← oph_trash_append t k id; mret t') t ids.

Fixpoint extract_all (fuel : nat) (t : option oph_trash) (k : option string) :
    C (list Z * option oph_trash) :=
  match fuel with
  | 0 => out_of_fuel
  | S fuel' =>
      '(rc, id, t') ← oph_trash_extract t k;
      if bool_decide (rc = OPH_TRASH_OK)
      then '(ids, t'') ← extract_all fuel' t' k; mret (id :: ids, t'')
      else mret ([], t')
  end.

(** The trash that holds one queue, or none when it is empty. *)
Definition queue (k : option string) (ids : list Z) : oph_trash :=
  match ids with [] => [] | _ => [TNode k ids] end.

Lemma find_queue k x ids (Q : option (oph_trash * oph_trash_node * oph_trash) → mem → Prop) m :
  Q (Some ([], TNode k (x :: ids), [])) m → wp (find_node k [] (queue k (x :: ids))) Q m.
Proof.
  intros HQ. simpl. wp_step. destruct k as [k|]; simpl; wp_steps; [|done].
  rewrite bool_decide_true by done. by wp_steps.
Qed.

Lemma append_queue k ids x m :
  reliable m →
  wp (oph_trash_append (Some (queue k ids)) k x)
     (λ r m', reliable m' ∧ r = (OPH_TRASH_OK, Some (queue k (ids ++ [x])))) m.
Proof.
  intros Hm. unfold oph_trash_append. wp_step. wp_step. simpl negb. cbv iota. wp_step.
  destruct ids as [|y ids]; [|apply find_queue; by wp_steps].
  simpl. wp_steps. destruct k as [k|]; by wp_steps.
Qed.

Lemma append_all_queue k ids0 ids m :
  reliable m →
  wp (append_all (Some (queue k ids0)) k ids)
     (λ t m', reliable m' ∧ t = Some (queue k (ids0 ++ ids))) m.
Proof.
  intros Hm.
  apply (wp_foldC _ (λ don t m', reliable m' ∧ t = Some (queue k (ids0 ++ don)))).
  - by rewrite app_nil_r.
  - intros don x rest t m' -> [Hm' ->]. wp_step.
    eapply wp_mono; [by apply append_queue|]. intros r m'' [? ->]. wp_steps.
    by rewrite <-app_assoc.
Qed.

Lemma extract_queue k ids m :
  wp (oph_trash_extract (Some (queue k ids)) k) (λ r m',
    m' = m ∧
    r = match ids with
        | [] => (OPH_TRASH_ERROR, 0%Z, Some [])
        | x :: ids' => (OPH_TRASH_OK, x, Some (queue k ids'))
        end) m.
Proof.
  unfold oph_trash_extract. wp_step. destruct ids as [|x ids]; [by wp_steps|].
  apply find_queue. destruct ids; by wp_steps.
Qed.

Lemma extract_all_queue k ids m :
  wp (extract_all (S (length ids)) (Some (queue k ids)) k)
     (λ r m', m' = m ∧ r = (ids, Some [])) m.
Proof.
  induction ids as [|x ids IH].
  - cbn [extract_all length]. wp_step. eapply wp_mono; [apply extract_queue|].
    intros r m' [-> ->]. by wp_steps.
  - change (length (x :: ids)) with (S (length ids)). remember (S (length ids)) as f.
    cbn [extract_all]. wp_step. eapply wp_mono; [apply extract_queue|].
    intros r m' [-> ->]. rewrite bool_decide_true by done. wp_step.
    eapply wp_mono; [exact IH|]. intros r m' [-> ->]. by wp_steps.
Qed.

(** ** Properties *)

(** the end-of-workflow protocol on [exit_cubes]: appending identifiers under
    the null key, [oph_trash_order] and extracting until the first error delivers
    every identifier exactly once in ascending order and empties the trash; the
    exchange sort finishes within one pass per item plus one.  The identifiers
    must differ from 0. *)
Theorem trash_delivers_in_order (ids : list Z) (m : mem) :
  Forall (λ x, x ≠ 0%Z) ids → ids ≠ [] → reliable m →
  wp ('(_, t) ← oph_trash_create;
      t ← append_all t None ids;
      '(rc, t) ← oph_trash_order (S (length ids)) t None;
      r ← extract_all (S (length ids)) t None;
      mret (rc, r))
     (λ r _, ∃ out, r = (OPH_TRASH_OK, (out, Some [])) ∧ out ≡ₚ ids ∧ Sorted Z.le out) m.
Proof.
  intros Hnz Hne Hm. remember (S (length ids)) as fuel eqn:Hf. wp_step.
  unfold oph_trash_create. wp_steps.
  eapply wp_mono; [by apply (append_all_queue None [])|]. intros t m1 [Hm1 ->]. simpl.
  destruct ids as [|x ids]; [done|]. wp_step. unfold oph_trash_order. wp_step.
  apply find_queue. wp_step. apply wp_order_items; [simpl in *; lia|done|].
  intros l' Hp Hs. wp_steps.
  assert ([TNode None l'] = queue None l') as ->.
  { destruct l'; [|done]. by apply Permutation_nil_cons in Hp. }
  simpl in Hp. rewrite Hf, <-(Permutation_length Hp).
  eapply wp_mono; [apply extract_all_queue|]. intros r m2 [_ ->]. wp_steps. eauto.
Qed.

Lemma trash_delivers_in_order_witness :
  wp ('(_, t) ← oph_trash_create;
      t ← append_all t None [7; 3; 5; 3]%Z;
      '(rc, t) ← oph_trash_order 5 t None;
      r ← extract_all 5 t None;
      mret (rc, r))
     (λ r _, ∃ out, r = (OPH_TRASH_OK, (out, Some [])) ∧ out ≡ₚ [7; 3; 5; 3]%Z ∧ Sorted Z.le out) [].
Proof.
  apply (trash_delivers_in_order [7; 3; 5; 3]%Z); [|done|apply reliable_nil].
  by repeat constructor.
Defined.

(** with a single key (one session) the trash is a first-in first-out queue:
    what is appended is extracted in the same order, and extraction then fails. *)
Theorem trash_single_key_fifo (k : option string) (ids : list Z) (m : mem) :
  reliable m →
  wp ('(_, t) ← oph_trash_create; t ← append_all t k ids; extract_all (S (length ids)) t k)
     (λ r _, r = (ids, Some [])) m.
Proof.
  intros Hm. wp_step. unfold oph_trash_create. wp_steps.
  eapply wp_mono; [by apply (append_all_queue k [])|]. intros t m1 [Hm1 ->]. simpl.
  eapply wp_mono; [apply extract_all_queue|]. by intros r m2 [_ ->].
Qed.

Lemma trash_single_key_fifo_witness :
  wp ('(_, t) ← oph_trash_create; t ← append_all t (Some "s1") [4; 2]%Z; extract_all 3 t (Some "s1"))
     (λ r _, r = ([4; 2]%Z, Some [])) [].
Proof. apply (trash_single_key_fifo (Some "s1") [4; 2]%Z). apply reliable_nil. Defined.

(** Nodes with a key different from [k]: those a search for [k] passes over. *)
Definition other_keys (k : string) (t : oph_trash) : Prop :=
  Forall (λ n, ∃ k', key n = Some k' ∧ k' ≠ k) t.

Lemma find_node_fresh k pre t m :
  other_keys k t → find_node (Some k) pre t m = Ok None m.
Proof.
  revert pre. induction t as [|n t IH]; intros pre Hk; [done|].
  apply Forall_cons in Hk as [(k' & Hn & Hne) Hk]. simpl. unfold mbind, C_bind. simpl.
  rewrite Hn. simpl. unfold mbind, C_bind. simpl. rewrite bool_decide_false by done. by apply IH.
Qed.

(** appending under a key that is not in a non-empty trash forgets the whole
    queue of the first node: the new node takes its place, although the identifiers
    of that queue were never extracted. *)
Theorem trash_append_fresh_key_drops_head (n : oph_trash_node) (t : oph_trash) (k : string) (x : Z) (m : mem) :
  other_keys k (n :: t) → reliable m →
  wp (oph_trash_append (Some (n :: t)) (Some k) x)
     (λ r _, r = (OPH_TRASH_OK, Some (TNode (Some k) [x] :: t))) m.
Proof.
  intros Hk Hm. unfold oph_trash_append. wp_step. wp_step. simpl negb. cbv iota. wp_step.
  unfold wp at 1. rewrite find_node_fresh by done. by wp_steps.
Qed.

Lemma trash_append_fresh_key_drops_head_witness :
  other_keys "s2" [TNode (Some "s1") [11; 12]%Z] ∧
  wp (oph_trash_append (Some [TNode (Some "s1") [11; 12]%Z]) (Some "s2") 20)
     (λ r _, r = (OPH_TRASH_OK, Some [TNode (Some "s2") [20]%Z])) [].
Proof.
  assert (other_keys "s2" [TNode (Some "s1") [11; 12]%Z]) as Hk
    by (repeat constructor; by exists "s1").
  split; [exact Hk|].
  apply (trash_append_fresh_key_drops_head (TNode (Some "s1") [11; 12]%Z) [] "s2" 20 []); [exact Hk|].
  apply reliable_nil.
Defined.

(** the flag of the exchange sort is the exchanged item itself, so an exchange
    of the item 0 ends the sort: [0, -1, -2] is left unsorted, with code
    [OPH_TRASH_OK]. *)
Theorem trash_order_stops_at_zero :
  oph_trash_order 4 (Some [TNode None [0; -1; -2]%Z]) None [] =
    Ok (OPH_TRASH_OK, Some [TNode None [-1; -2; 0]%Z]) [].
Proof. reflexivity. Qed.

(** ** Any trash *)

(** Every node has a key, as when all of them were appended with one. *)
Definition keyed_trash (t : oph_trash) : Prop := Forall (λ n, is_Some (key n)) t.

Lemma wp_find_keyed k pre t (Q : option (oph_trash * oph_trash_node * oph_trash) → mem → Prop) m :
  keyed_trash (pre ++ t) → Q None m → (∀ a n b, pre ++ t = a ++ n :: b → Q (Some (a, n, b)) m) → wp (find_node (Some k) pre t) Q m.
Proof.
  revert pre. induction t as [|n t IH]; intros pre Hk Hnone Hsome; simpl; [by wp_step|].
  destruct (proj1 (Forall_forall _ _) Hk n) as [nk Hn]; [apply elem_of_mid|]. wp_step. rewrite Hn. wp_steps.
  case_bool_decide; wp_steps; [by apply Hsome|]. apply IH; [by rewrite <-app_assoc|done|].
  intros a n' b Heq. apply Hsome. by rewrite <-Heq, <-app_assoc.
Qed.

Lemma wp_append_keyed k t x (Q : Z * option oph_trash → mem → Prop) m :
  keyed_trash t → reliable m → (∀ t' m', keyed_trash t' → reliable m' → Q (OPH_TRASH_OK, Some t') m') →
  wp (oph_trash_append (Some t) (Some k) x) Q m.
Proof.
  intros Hk Hm HQ. unfold oph_trash_append. wp_steps. apply (wp_find_keyed k []); [done| |].
  - wp_steps. apply HQ; [|done]. constructor; [by eexists|]. by destruct Hk.
  - intros a n b Heq. simpl in Heq. subst t. wp_steps. apply HQ; [|done].
    apply Forall_app in Hk as [Ha [Hn Hb]%Forall_cons]. apply Forall_app. split; [done|]. by constructor.
Qed.
End Trash.
