(* ===== verification/WfStructs.v ===== *)
(** * Workflow data structures ([src/src/oph_workflow/oph_workflow_structs.{h,c}])

    The records of a workflow with the C field names (fields of [oph_workflow]
    that a task also has carry the prefix [wf_]; those of a light task [lt_], of a
    stack item [stk_], of a task saved in the stack [stt_]), and the operations on
    them: stack push and pop, saving of task outputs, array expansion, task copy,
    and the deferred release of a workflow.

    The parallel arrays [arguments_keys], [arguments_values], [arguments_lists]
    (all of length [arguments_num]) are one list of [argument]s; likewise the
    outputs; an array and its [_num] field are a list.  [tasks] is the C array: it
    has one cell more than [tasks_num], the slot of the final task.  The creation
    time of tasks and workflows (a [double]) is left out. *)

From Stdlib Require Ascii.
From stdpp Require Import base gmap strings numbers pretty list.
From S2P Require Import Prelude HashTbl Trash.
Import (notations) Stdlib.Strings.Ascii.

Export HashTbl (HASHTBL).
Export Trash (oph_trash).

Module WfStructs.

Open Scope Z_scope.

Definition OPH_WORKFLOW_EXIT_SUCCESS : Z := 0.
Definition OPH_WORKFLOW_EXIT_GENERIC_ERROR : Z := 1.
Definition OPH_WORKFLOW_EXIT_MEMORY_ERROR : Z := 2.
Definition OPH_WORKFLOW_EXIT_BAD_PARAM_ERROR : Z := 3.
Definition OPH_WORKFLOW_EXIT_TASK_NAME_ERROR : Z := 5.

(** [enum oph__oph_odb_job_status] ([oph_gather.h]), in its order. *)
Definition OPH_ODB_STATUS_UNKNOWN : Z := 0.
Definition OPH_ODB_STATUS_PENDING : Z := 1.
Definition OPH_ODB_STATUS_WAIT : Z := 2.
Definition OPH_ODB_STATUS_RUNNING : Z := 3.
Definition OPH_ODB_STATUS_START : Z := 4.
Definition OPH_ODB_STATUS_SET_ENV : Z := 5.
Definition OPH_ODB_STATUS_INIT : Z := 6.
Definition OPH_ODB_STATUS_DISTRIBUTE : Z := 7.
Definition OPH_ODB_STATUS_EXECUTE : Z := 8.
Definition OPH_ODB_STATUS_REDUCE : Z := 9.
Definition OPH_ODB_STATUS_DESTROY : Z := 10.
Definition OPH_ODB_STATUS_UNSET_ENV : Z := 11.
Definition OPH_ODB_STATUS_COMPLETED : Z := 12.
Definition OPH_ODB_STATUS_ERROR : Z := 13.
Definition OPH_ODB_STATUS_PENDING_ERROR : Z := 14.
Definition OPH_ODB_STATUS_RUNNING_ERROR : Z := 15.
Definition OPH_ODB_STATUS_START_ERROR : Z := 16.
Definition OPH_ODB_STATUS_SET_ENV_ERROR : Z := 17.
Definition OPH_ODB_STATUS_INIT_ERROR : Z := 18.
Definition OPH_ODB_STATUS_DISTRIBUTE_ERROR : Z := 19.
Definition OPH_ODB_STATUS_EXECUTE_ERROR : Z := 20.
Definition OPH_ODB_STATUS_REDUCE_ERROR : Z := 21.
Definition OPH_ODB_STATUS_DESTROY_ERROR : Z := 22.
Definition OPH_ODB_STATUS_UNSET_ENV_ERROR : Z := 23.
Definition OPH_ODB_STATUS_SKIPPED : Z := 24.
Definition OPH_ODB_STATUS_ABORTED : Z := 25.
Definition OPH_ODB_STATUS_UNSELECTED : Z := 26.
Definition OPH_ODB_STATUS_EXPIRED : Z := 27.

(** [oph_workflow_ordered_list]: a linked list of (key, object). *)
Definition oph_workflow_ordered_list : Type := list (cstr * cstr).

(** A variable; [svalue] is the copy of the string that follows the C struct in
    the buffer of the hash table. *)
Record oph_workflow_var : Type := Var {
  caller : Z;
  svalue : string;
  ivalue : Z;
}.

Record argument : Type := Arg {
  arg_key : cstr;
  arg_value : cstr;
  arg_list : oph_workflow_ordered_list;
}.

Record oph_workflow_light_task : Type := LightTask {
  lt_idjob : Z;
  lt_markerid : Z;
  lt_status : Z;
  lt_ncores : Z;
  lt_nhosts : Z;
  lt_nthreads : Z;
  lt_arguments : list (cstr * cstr);
  lt_response : cstr;
  lt_is_marked_to_be_aborted : Z;
}.

Record oph_workflow_dep : Type := Dep {
  dep_argument : cstr;
  dep_order : cstr;
  task_name : cstr;
  task_index : Z;
  dep_type : cstr;
  dep_filter : cstr;
  output_argument : cstr;
  output_order : cstr;
}.

Record oph_workflow_task : Type := Task {
  idjob : Z;
  markerid : Z;
  status : Z;
  name : cstr;
  operator : cstr;
  type : cstr;
  rtype : cstr;
  role : Z;
  ncores : Z;
  nhosts : Z;
  nthreads : Z;
  arguments : list argument;
  deps : list oph_workflow_dep;
  residual_deps_num : Z;
  dependents_indexes : list Z;
  outputs : list (cstr * cstr);
  outputs_file : Z;
  light_tasks : list oph_workflow_light_task;
  residual_light_tasks_num : Z;
  retry_num : Z;
  residual_retry_num : Z;
  residual_auto_retry_num : Z;
  is_marked_for_auto_retry : Z;
  response : cstr;
  exit_action : Z;
  run : Z;
  save : Z;
  parent : Z;
  child : Z;
  nesting_level : Z;
  parallel_mode : Z;
  is_marked : Z;
  vars : option (HASHTBL oph_workflow_var);
  on_error : cstr;
  on_exit : cstr;
  is_skipped : Z;
  branch_num : Z;
  is_known : Z;
  forward : Z;
  is_marked_to_be_aborted : Z;
  backoff_time : Z;
  backoff_type : Z;
  checkpoint : cstr;
  query : cstr;
  massive_expansion : Z;
}.

Record oph_workflow_light_task_out : Type := LightTaskOut {
  lto_markerid : Z;
  lto_status : Z;
  lto_response : cstr;
}.

Record oph_workflow_task_out : Type := TaskOut {
  to_markerid : Z;
  to_status : Z;
  to_name : cstr;
  light_task_outs : list oph_workflow_light_task_out;
  to_response : cstr;
}.

Record oph_workflow_stack_task : Type := StackTask {
  stt_arguments : list argument;
  stt_deps_task_index : list Z;
  stt_residual_deps_num : Z;
  stt_dependents_indexes : list Z;
}.

Record oph_workflow_stack : Type := Stack {
  stk_caller : Z;
  stk_index : Z;
  stk_tasks : list oph_workflow_stack_task;
  stk_name : cstr;
  svalues : option (list cstr);
  ivalues : option (list Z);
  values_num : Z;
}.

Record oph_workflow : Type := Workflow {
  wf_idjob : Z;
  workflowid : Z;
  wf_markerid : Z;
  wf_status : Z;
  is_closed : Z;
  username : cstr;
  password : cstr;
  os_username : cstr;
  iduser : Z;
  userrole : Z;
  ip_address : cstr;
  wf_name : cstr;
  author : cstr;
  abstract : cstr;
  url : cstr;
  sessionid : cstr;
  exec_mode : cstr;
  wf_ncores : Z;
  wf_nhosts : Z;
  wf_nthreads : Z;
  max_hosts : Z;
  command : cstr;
  cwd : cstr;
  cdd : cstr;
  cube : cstr;
  callback_url : cstr;
  tasks : list oph_workflow_task;
  tasks_num : nat;
  residual_tasks_num : Z;
  wf_response : cstr;
  exit_cubes : option oph_trash;
  exit_containers : option oph_trash;
  wf_run : Z;
  wf_save : Z;
  output : list oph_workflow_task_out;
  wf_parallel_mode : Z;
  wf_vars : option (HASHTBL oph_workflow_var);
  stack : list oph_workflow_stack;
  wf_on_error : cstr;
  wf_on_exit : cstr;
  output_format : Z;
  cancel_type : Z;
  host_partition : cstr;
  host_partition_orig : cstr;
  waiting_tasks_num : Z;
  client_address : cstr;
  new_token : cstr;
  project : cstr;
  wf_checkpoint : cstr;
  direct_output : Z;
}.

(** Field updates. *)
Definition eta_task (r : oph_workflow_task) : oph_workflow_task :=
  Task (idjob r) (markerid r) (status r) (name r) (operator r) (type r) (rtype r) (role r)
    (ncores r) (nhosts r) (nthreads r) (arguments r) (deps r) (residual_deps_num r)
    (dependents_indexes r) (outputs r) (outputs_file r) (light_tasks r)
    (residual_light_tasks_num r) (retry_num r) (residual_retry_num r)
    (residual_auto_retry_num r) (is_marked_for_auto_retry r) (response r) (exit_action r)
    (run r) (save r) (parent r) (child r) (nesting_level r) (parallel_mode r) (is_marked r)
    (vars r) (on_error r) (on_exit r) (is_skipped r) (branch_num r) (is_known r)
    (forward r) (is_marked_to_be_aborted r) (backoff_time r) (backoff_type r)
    (checkpoint r) (query r) (massive_expansion r).

Definition set_idjob (v : Z) (r : oph_workflow_task) : oph_workflow_task :=
  ltac:(set_field eta_task idjob v r).
Definition set_markerid (v : Z) (r : oph_workflow_task) : oph_workflow_task :=
  ltac:(set_field eta_task markerid v r).
Definition set_status (v : Z) (r : oph_workflow_task) : oph_workflow_task :=
  ltac:(set_field eta_task status v r).
Definition set_name (v : cstr) (r : oph_workflow_task) : oph_workflow_task :=
  ltac:(set_field eta_task name v r).
Definition set_operator (v : cstr) (r : oph_workflow_task) : oph_workflow_task :=
  ltac:(set_field eta_task operator v r).
Definition set_type (v : cstr) (r : oph_workflow_task) : oph_workflow_task :=
  ltac:(set_field eta_task type v r).
Definition set_rtype (v : cstr) (r : oph_workflow_task) : oph_workflow_task :=
  ltac:(set_field eta_task rtype v r).
Definition set_arguments (v : list argument) (r : oph_workflow_task) : oph_workflow_task :=
  ltac:(set_field eta_task arguments v r).
Definition set_deps (v : list oph_workflow_dep) (r : oph_workflow_task) : oph_workflow_task :=
  ltac:(set_field eta_task deps v r).
Definition set_residual_deps_num (v : Z) (r : oph_workflow_task) : oph_workflow_task :=
  ltac:(set_field eta_task residual_deps_num v r).
Definition set_dependents_indexes (v : list Z) (r : oph_workflow_task) : oph_workflow_task :=
  ltac:(set_field eta_task dependents_indexes v r).
Definition set_outputs (v : list (cstr * cstr)) (r : oph_workflow_task) : oph_workflow_task :=
  ltac:(set_field eta_task outputs v r).
Definition set_light_tasks (v : list oph_workflow_light_task) (r : oph_workflow_task) : oph_workflow_task :=
  ltac:(set_field eta_task light_tasks v r).
Definition set_residual_light_tasks_num (v : Z) (r : oph_workflow_task) : oph_workflow_task :=
  ltac:(set_field eta_task residual_light_tasks_num v r).
Definition set_residual_retry_num (v : Z) (r : oph_workflow_task) : oph_workflow_task :=
  ltac:(set_field eta_task residual_retry_num v r).
Definition set_residual_auto_retry_num (v : Z) (r : oph_workflow_task) : oph_workflow_task :=
  ltac:(set_field eta_task residual_auto_retry_num v r).
Definition set_is_marked_for_auto_retry (v : Z) (r : oph_workflow_task) : oph_workflow_task :=
  ltac:(set_field eta_task is_marked_for_auto_retry v r).
Definition set_response (v : cstr) (r : oph_workflow_task) : oph_workflow_task :=
  ltac:(set_field eta_task response v r).
Definition set_parent (v : Z) (r : oph_workflow_task) : oph_workflow_task :=
  ltac:(set_field eta_task parent v r).
Definition set_child (v : Z) (r : oph_workflow_task) : oph_workflow_task :=
  ltac:(set_field eta_task child v r).
Definition set_nesting_level (v : Z) (r : oph_workflow_task) : oph_workflow_task :=
  ltac:(set_field eta_task nesting_level v r).
Definition set_parallel_mode (v : Z) (r : oph_workflow_task) : oph_workflow_task :=
  ltac:(set_field eta_task parallel_mode v r).
Definition set_is_marked (v : Z) (r : oph_workflow_task) : oph_workflow_task :=
  ltac:(set_field eta_task is_marked v r).
Definition set_vars (v : option (HASHTBL oph_workflow_var)) (r : oph_workflow_task) : oph_workflow_task :=
  ltac:(set_field eta_task vars v r).
Definition set_is_skipped (v : Z) (r : oph_workflow_task) : oph_workflow_task :=
  ltac:(set_field eta_task is_skipped v r).
Definition set_branch_num (v : Z) (r : oph_workflow_task) : oph_workflow_task :=
  ltac:(set_field eta_task branch_num v r).
Definition set_forward (v : Z) (r : oph_workflow_task) : oph_workflow_task :=
  ltac:(set_field eta_task forward v r).
Definition set_is_marked_to_be_aborted (v : Z) (r : oph_workflow_task) : oph_workflow_task :=
  ltac:(set_field eta_task is_marked_to_be_aborted v r).
Definition set_on_error (v : cstr) (r : oph_workflow_task) : oph_workflow_task :=
  ltac:(set_field eta_task on_error v r).
Definition set_on_exit (v : cstr) (r : oph_workflow_task) : oph_workflow_task :=
  ltac:(set_field eta_task on_exit v r).
Definition set_checkpoint (v : cstr) (r : oph_workflow_task) : oph_workflow_task :=
  ltac:(set_field eta_task checkpoint v r).
Definition set_ncores (v : Z) (r : oph_workflow_task) : oph_workflow_task :=
  ltac:(set_field eta_task ncores v r).
Definition set_nhosts (v : Z) (r : oph_workflow_task) : oph_workflow_task :=
  ltac:(set_field eta_task nhosts v r).
Definition set_nthreads (v : Z) (r : oph_workflow_task) : oph_workflow_task :=
  ltac:(set_field eta_task nthreads v r).
Definition set_retry_num (v : Z) (r : oph_workflow_task) : oph_workflow_task :=
  ltac:(set_field eta_task retry_num v r).
Definition set_exit_action (v : Z) (r : oph_workflow_task) : oph_workflow_task :=
  ltac:(set_field eta_task exit_action v r).
Definition set_run (v : Z) (r : oph_workflow_task) : oph_workflow_task :=
  ltac:(set_field eta_task run v r).
Definition set_save (v : Z) (r : oph_workflow_task) : oph_workflow_task :=
  ltac:(set_field eta_task save v r).
Definition set_outputs_file (v : Z) (r : oph_workflow_task) : oph_workflow_task :=
  ltac:(set_field eta_task outputs_file v r).
Definition set_backoff_time (v : Z) (r : oph_workflow_task) : oph_workflow_task :=
  ltac:(set_field eta_task backoff_time v r).
Definition set_backoff_type (v : Z) (r : oph_workflow_task) : oph_workflow_task :=
  ltac:(set_field eta_task backoff_type v r).

Definition eta_workflow (r : oph_workflow) : oph_workflow :=
  Workflow (wf_idjob r) (workflowid r) (wf_markerid r) (wf_status r) (is_closed r) (username r)
    (password r) (os_username r) (iduser r) (userrole r) (ip_address r) (wf_name r)
    (author r) (abstract r) (url r) (sessionid r) (exec_mode r) (wf_ncores r) (wf_nhosts r)
    (wf_nthreads r) (max_hosts r) (command r) (cwd r) (cdd r) (cube r) (callback_url r)
    (tasks r) (tasks_num r) (residual_tasks_num r) (wf_response r) (exit_cubes r)
    (exit_containers r) (wf_run r) (wf_save r) (output r) (wf_parallel_mode r) (wf_vars r)
    (stack r) (wf_on_error r) (wf_on_exit r) (output_format r) (cancel_type r)
    (host_partition r) (host_partition_orig r) (waiting_tasks_num r) (client_address r)
    (new_token r) (project r) (wf_checkpoint r) (direct_output r).

Definition set_wf_status (v : Z) (r : oph_workflow) : oph_workflow :=
  ltac:(set_field eta_workflow wf_status v r).
Definition set_tasks (v : list oph_workflow_task) (r : oph_workflow) : oph_workflow :=
  ltac:(set_field eta_workflow tasks v r).
Definition set_tasks_num (v : nat) (r : oph_workflow) : oph_workflow :=
  ltac:(set_field eta_workflow tasks_num v r).
Definition set_residual_tasks_num (v : Z) (r : oph_workflow) : oph_workflow :=
  ltac:(set_field eta_workflow residual_tasks_num v r).
Definition set_wf_vars (v : option (HASHTBL oph_workflow_var)) (r : oph_workflow) : oph_workflow :=
  ltac:(set_field eta_workflow wf_vars v r).
Definition set_sessionid (v : cstr) (r : oph_workflow) : oph_workflow :=
  ltac:(set_field eta_workflow sessionid v r).
Definition set_stack (v : list oph_workflow_stack) (r : oph_workflow) : oph_workflow :=
  ltac:(set_field eta_workflow stack v r).
Definition set_waiting_tasks_num (v : Z) (r : oph_workflow) : oph_workflow :=
  ltac:(set_field eta_workflow waiting_tasks_num v r).
Definition set_wf_idjob (v : Z) (r : oph_workflow) : oph_workflow :=
  ltac:(set_field eta_workflow wf_idjob v r).
Definition set_workflowid (v : Z) (r : oph_workflow) : oph_workflow :=
  ltac:(set_field eta_workflow workflowid v r).
Definition set_wf_markerid (v : Z) (r : oph_workflow) : oph_workflow :=
  ltac:(set_field eta_workflow wf_markerid v r).
Definition set_username (v : cstr) (r : oph_workflow) : oph_workflow :=
  ltac:(set_field eta_workflow username v r).
Definition set_ip_address (v : cstr) (r : oph_workflow) : oph_workflow :=
  ltac:(set_field eta_workflow ip_address v r).
Definition set_wf_name (v : cstr) (r : oph_workflow) : oph_workflow :=
  ltac:(set_field eta_workflow wf_name v r).
Definition set_author (v : cstr) (r : oph_workflow) : oph_workflow :=
  ltac:(set_field eta_workflow author v r).
Definition set_abstract (v : cstr) (r : oph_workflow) : oph_workflow :=
  ltac:(set_field eta_workflow abstract v r).
Definition set_url (v : cstr) (r : oph_workflow) : oph_workflow :=
  ltac:(set_field eta_workflow url v r).
Definition set_exec_mode (v : cstr) (r : oph_workflow) : oph_workflow :=
  ltac:(set_field eta_workflow exec_mode v r).
Definition set_wf_ncores (v : Z) (r : oph_workflow) : oph_workflow :=
  ltac:(set_field eta_workflow wf_ncores v r).
Definition set_wf_nhosts (v : Z) (r : oph_workflow) : oph_workflow :=
  ltac:(set_field eta_workflow wf_nhosts v r).
Definition set_wf_nthreads (v : Z) (r : oph_workflow) : oph_workflow :=
  ltac:(set_field eta_workflow wf_nthreads v r).
Definition set_command (v : cstr) (r : oph_workflow) : oph_workflow :=
  ltac:(set_field eta_workflow command v r).
Definition set_cwd (v : cstr) (r : oph_workflow) : oph_workflow :=
  ltac:(set_field eta_workflow cwd v r).
Definition set_cdd (v : cstr) (r : oph_workflow) : oph_workflow :=
  ltac:(set_field eta_workflow cdd v r).
Definition set_cube (v : cstr) (r : oph_workflow) : oph_workflow :=
  ltac:(set_field eta_workflow cube v r).
Definition set_callback_url (v : cstr) (r : oph_workflow) : oph_workflow :=
  ltac:(set_field eta_workflow callback_url v r).
Definition set_wf_run (v : Z) (r : oph_workflow) : oph_workflow :=
  ltac:(set_field eta_workflow wf_run v r).
Definition set_wf_save (v : Z) (r : oph_workflow) : oph_workflow :=
  ltac:(set_field eta_workflow wf_save v r).
Definition set_wf_on_error (v : cstr) (r : oph_workflow) : oph_workflow :=
  ltac:(set_field eta_workflow wf_on_error v r).
Definition set_wf_on_exit (v : cstr) (r : oph_workflow) : oph_workflow :=
  ltac:(set_field eta_workflow wf_on_exit v r).
Definition set_output_format (v : Z) (r : oph_workflow) : oph_workflow :=
  ltac:(set_field eta_workflow output_format v r).
Definition set_host_partition (v : cstr) (r : oph_workflow) : oph_workflow :=
  ltac:(set_field eta_workflow host_partition v r).
Definition set_project (v : cstr) (r : oph_workflow) : oph_workflow :=
  ltac:(set_field eta_workflow project v r).
Definition set_wf_checkpoint (v : cstr) (r : oph_workflow) : oph_workflow :=
  ltac:(set_field eta_workflow wf_checkpoint v r).
Definition set_direct_output (v : Z) (r : oph_workflow) : oph_workflow :=
  ltac:(set_field eta_workflow direct_output v r).

Definition set_task_index (v : Z) (d : oph_workflow_dep) : oph_workflow_dep :=
  Dep (dep_argument d) (dep_order d) (task_name d) v (dep_type d) (dep_filter d)
    (output_argument d) (output_order d).

Definition set_lt_response (v : cstr) (l : oph_workflow_light_task) : oph_workflow_light_task :=
  LightTask (lt_idjob l) (lt_markerid l) (lt_status l) (lt_ncores l) (lt_nhosts l)
    (lt_nthreads l) (lt_arguments l) v (lt_is_marked_to_be_aborted l).

(** Cells zeroed by [calloc]. *)
Definition zero_task : oph_workflow_task :=
  Task 0 0 0 None None None None 0 0 0 0 [] [] 0 [] [] 0 [] 0 0 0 0 0 None 0 0 0 0 0 0 0 0
    None None None 0 0 0 0 0 0 0 None None 0.

Definition zero_workflow : oph_workflow :=
  Workflow 0 0 0 0 0 None None None 0 0 None None None None None None None 0 0 0 0 None None None
    None None [] 0%nat 0 None None None 0 0 [] 0 None [] None None 0 0 None None 0 None
    None None None 0.

(** [wf->tasks[i]] and its update. *)
Definition task_at (wf : oph_workflow) (i : Z) : option oph_workflow_task :=
  if (i <? 0) then None else tasks wf !! Z.to_nat i.

Definition update_task (i : Z) (t : oph_workflow_task) (wf : oph_workflow) : oph_workflow :=
  if (i <? 0) then wf else set_tasks (<[Z.to_nat i := t]> (tasks wf)) wf.

Definition deps_num (t : oph_workflow_task) : Z := Z.of_nat (length (deps t)).
Definition arguments_num (t : oph_workflow_task) : Z := Z.of_nat (length (arguments t)).
Definition dependents_indexes_num (t : oph_workflow_task) : Z :=
  Z.of_nat (length (dependents_indexes t)).

(** ** Operations *)

(** Nodes are allocated without a check; their strings are duplicated. *)
Definition oph_workflow_copy_list (l : oph_workflow_ordered_list) : C oph_workflow_ordered_list :=
  mapC (λ n : cstr * cstr,
    ok ← malloc; assertC ok;;
    k ← strdup_opt n.1;
    o ← strdup_opt n.2;
    mret (k, o)) l.

(** One cell of the argument arrays in the stack. *)
Definition push_argument (a : argument) : C argument :=
  k ← strdup (arg_key a);
  v ← strdup_opt (arg_value a);
  l ← oph_workflow_copy_list (arg_list a);
  mret (Arg k v l).

Definition push_task (t : oph_workflow_task) : C oph_workflow_stack_task :=
  args ← (if bool_decide (arguments t = []) then mret [] else
          ok1 ← malloc; ok2 ← malloc; ok3 ← malloc;
          assertC (ok1 && ok2 && ok3);;
          mapC push_argument (arguments t));
  (if bool_decide (deps t = []) then mret () else ok ← malloc; assertC ok);;
  (if bool_decide (dependents_indexes t = []) then mret () else ok ← malloc; assertC ok);;
  mret (StackTask args (task_index <$> deps t) (residual_deps_num t) (dependents_indexes t)).

Definition oph_workflow_push (workflow : option oph_workflow) (caller : Z) (name : cstr)
    (svalues : option (list cstr)) (ivalues : option (list Z)) (values_num : Z) :
    C (Z * option oph_workflow) :=
  match workflow, name with
  | Some wf, Some nm =>
      if values_num <=? 0 then mret (OPH_WORKFLOW_EXIT_BAD_PARAM_ERROR, workflow) else
      ok ← malloc;
      if negb ok then mret (OPH_WORKFLOW_EXIT_MEMORY_ERROR, workflow) else
      ok ← (if bool_decide (tasks_num wf = 0%nat) then mret true else malloc);
      if negb ok then mret (OPH_WORKFLOW_EXIT_MEMORY_ERROR, workflow) else
      saved ← mapC (λ i, t ← deref (tasks wf !! i); push_task t) (seq 0 (tasks_num wf));
      nm' ← strdup (Some nm);
      mret (OPH_WORKFLOW_EXIT_SUCCESS,
            Some (set_stack (Stack caller 0 saved nm' svalues ivalues values_num :: stack wf) wf))
  | _, _ => mret (OPH_WORKFLOW_EXIT_BAD_PARAM_ERROR, workflow)
  end.

(** [prev] points to a stack item (given by its position); the item after it, or
    the top when it is null, is unlinked and released. *)
Definition oph_workflow_pop (workflow : option oph_workflow) (prev : option nat) :
    C (Z * option oph_workflow) :=
  match workflow with
  | None => mret (OPH_WORKFLOW_EXIT_BAD_PARAM_ERROR, None)
  | Some wf =>
      match prev with
      | Some p =>
          _ ← deref (stack wf !! p);
          mret (OPH_WORKFLOW_EXIT_SUCCESS, Some (set_stack (delete (S p) (stack wf)) wf))
      | None => mret (OPH_WORKFLOW_EXIT_SUCCESS, Some (set_stack (tail (stack wf)) wf))
      end
  end.

(** The responses of the light tasks are moved, that of the task is copied. *)
Definition oph_workflow_save_task_output (t : oph_workflow_task) :
    C (Z * oph_workflow_task * option oph_workflow_task_out) :=
  ok ← malloc;
  if negb ok then mret (OPH_WORKFLOW_EXIT_MEMORY_ERROR, t, None) else
  nm ← strdup (name t);
  resp ← strdup_opt (response t);
  if bool_decide (light_tasks t = [])
  then mret (OPH_WORKFLOW_EXIT_SUCCESS, t, Some (TaskOut (markerid t) (status t) nm [] resp))
  else
    ok ← malloc;
    if negb ok then mret (OPH_WORKFLOW_EXIT_MEMORY_ERROR, t, None) else
    mret (OPH_WORKFLOW_EXIT_SUCCESS,
          set_light_tasks (set_lt_response None <$> light_tasks t) t,
          Some (TaskOut (markerid t) (status t) nm
                 ((λ l, LightTaskOut (lt_markerid l) (lt_status l) (lt_response l)) <$> light_tasks t)
                 resp)).

(** The new array is zeroed; the old tasks keep their cells and the final task
    moves to the new last cell. *)
Definition oph_workflow_expand (workflow : option oph_workflow) (n : Z) :
    C (Z * option oph_workflow) :=
  match workflow with
  | None => mret (OPH_WORKFLOW_EXIT_BAD_PARAM_ERROR, None)
  | Some wf =>
      if n <=? Z.of_nat (tasks_num wf) then mret (OPH_WORKFLOW_EXIT_BAD_PARAM_ERROR, workflow) else
      ok ← malloc;
      if negb ok then mret (OPH_WORKFLOW_EXIT_MEMORY_ERROR, workflow) else
      final ← deref (tasks wf !! tasks_num wf);
      let new := take (tasks_num wf) (tasks wf)
                   ++ replicate (Z.to_nat n - tasks_num wf) zero_task ++ [final] in
      mret (OPH_WORKFLOW_EXIT_SUCCESS,
            Some (set_residual_tasks_num n (set_tasks_num (Z.to_nat n) (set_tasks new wf))))
  end.

(** The release is deferred while tasks are waiting: the count is negated and the
    workflow survives. *)
Definition oph_workflow_free (workflow : option oph_workflow) : Z * option oph_workflow :=
  match workflow with
  | None => (OPH_WORKFLOW_EXIT_SUCCESS, None)
  | Some wf =>
      if bool_decide (waiting_tasks_num wf = 0) then (OPH_WORKFLOW_EXIT_SUCCESS, None)
      else if 0 <? waiting_tasks_num wf
      then (OPH_WORKFLOW_EXIT_SUCCESS, Some (set_waiting_tasks_num (- waiting_tasks_num wf) wf))
      else (OPH_WORKFLOW_EXIT_SUCCESS, workflow)
  end.

(** *** Task copy *)

(** "%s (%d)", or "%s,%d)" without the final bracket when the name has one. *)
Definition copy_name (nm : string) (suffix : Z) : C string :=
  assertC (bool_decide (nm ≠ ""));;
  let length := (String.length nm - 1)%nat in
  mret (match String.get length nm with
        | Some ")"%char => String.substring 0 length nm +:+ "," +:+ pretty suffix +:+ ")"
        | _ => nm +:+ " (" +:+ pretty suffix +:+ ")"
        end).

(** [s && !((d = strdup(s)))]: [None] when a non-null string cannot be copied. *)
Definition dup_or_fail (s : cstr) : C (option cstr) :=
  match s with
  | None => mret (Some None)
  | Some v => ok ← malloc; mret (if ok : bool then Some (Some v) else None)
  end.

Definition copy_dep (d : oph_workflow_dep) : C (option oph_workflow_dep) :=
  a ← dup_or_fail (dep_argument d); match a with None => mret None | Some a =>
  o ← dup_or_fail (dep_order d); match o with None => mret None | Some o =>
  ty ← dup_or_fail (dep_type d); match ty with None => mret None | Some ty =>
  f ← dup_or_fail (dep_filter d); match f with None => mret None | Some f =>
  oa ← dup_or_fail (output_argument d); match oa with None => mret None | Some oa =>
  oo ← dup_or_fail (output_order d); match oo with None => mret None | Some oo =>
  mret (Some (Dep a o None (task_index d) ty f oa oo)) end end end end end end.

(** All the elements of an array, or [None] at the first that fails. *)
Fixpoint mapC_opt {A B} (f : A → C (option B)) (l : list A) : C (option (list B)) :=
  match l with
  | [] => mret (Some [])
  | x :: l' =>
      y ← f x;
      match y with
      | None => mret None
      | Some y => ys ← mapC_opt f l'; mret (cons y <$> ys)
      end
  end.

(** An array that is copied only when it exists. *)
Definition copy_array {A B} (f : A → C (option B)) (l : list A) : C (option (list B)) :=
  if bool_decide (length l = 0%nat) then mret (Some []) else
  ok ← malloc;
  if negb ok then mret None else mapC_opt f l.

(** An ordered list of an argument; [oph_workflow_copy_list] does not fail. *)
Definition copy_arg_list (l : oph_workflow_ordered_list) : C (option oph_workflow_ordered_list) :=
  l' ← oph_workflow_copy_list l; mret (Some l').

Definition copy_task_name (nm : cstr) (suffix : Z) : C (option cstr) :=
  match nm with
  | None => mret (Some None)
  | Some n =>
      if 0 <=? suffix then n' ← copy_name n suffix; dup_or_fail (Some n')
      else dup_or_fail (Some n)
  end.

Definition copy_arguments (args : list argument) : C (option (list argument)) :=
  ks ← copy_array dup_or_fail (arg_key <$> args);
  match ks with None => mret None | Some ks =>
  vs ← copy_array dup_or_fail (arg_value <$> args);
  match vs with None => mret None | Some vs =>
  ls ← copy_array copy_arg_list (arg_list <$> args);
  match ls with None => mret None | Some ls =>
  mret (Some (zip_with (λ kv l, Arg kv.1 kv.2 l) (zip ks vs) ls)) end end end.

Definition copy_vars (v : option (HASHTBL oph_workflow_var)) :
    C (option (option (HASHTBL oph_workflow_var))) :=
  match v with
  | None => mret (Some None)
  | Some t => r ← HashTbl.hashtbl_duplicate t; mret (Some <$> r)
  end.

(** The copy of a task, or the memory error after which the destination is
    unusable.  The fields that [memcpy] shares are copied as values. *)
Definition oph_workflow_copy_task (s : oph_workflow_task) (suffix : Z) :
    C (Z * option oph_workflow_task) :=
  let fail := mret (OPH_WORKFLOW_EXIT_MEMORY_ERROR, None) in
  nm ← copy_task_name (name s) suffix; match nm with None => fail | Some nm =>
  op ← dup_or_fail (operator s); match op with None => fail | Some op =>
  ty ← dup_or_fail (type s); match ty with None => fail | Some ty =>
  rt ← dup_or_fail (rtype s); match rt with None => fail | Some rt =>
  args ← copy_arguments (arguments s); match args with None => fail | Some args =>
  ds ← copy_array copy_dep (deps s); match ds with None => fail | Some ds =>
  di ← copy_array (λ i, mret (Some i)) (dependents_indexes s); match di with None => fail | Some di =>
  vs ← copy_vars (vars s); match vs with None => fail | Some vs =>
  oe ← dup_or_fail (on_error s); match oe with None => fail | Some oe =>
  ox ← dup_or_fail (on_exit s); match ox with None => fail | Some ox =>
  cp ← dup_or_fail (checkpoint s); match cp with None => fail | Some cp =>
  mret (OPH_WORKFLOW_EXIT_SUCCESS,
    Some (set_checkpoint cp (set_on_exit ox (set_on_error oe (set_vars vs
      (set_dependents_indexes di (set_deps ds (set_arguments args (set_rtype rt
      (set_type ty (set_operator op (set_name nm s))))))))))))
  end end end end end end end end end end end.

(** ** Round trips and copies *)

(** What the stack remembers of a task. *)
Definition snapshot (t : oph_workflow_task) : oph_workflow_stack_task :=
  StackTask (arguments t) (task_index <$> deps t) (residual_deps_num t) (dependents_indexes t).

Definition keyed (t : oph_workflow_task) : Prop := Forall (λ a, is_Some (arg_key a)) (arguments t).

Lemma wp_copy_list l (Q : oph_workflow_ordered_list → mem → Prop) m :
  reliable m → (∀ m', reliable m' → Q l m') → wp (oph_workflow_copy_list l) Q m.
Proof.
  intros Hm HQ. apply (wp_mapC _ id); [done| |by rewrite list_fmap_id].
  intros [k o] m1 R _ Hm1 HR. wp_steps. apply wp_strdup_opt; [done|]. intros m3 Hm3. wp_step.
  apply wp_strdup_opt; [done|]. intros m4 Hm4. by wp_step; apply HR.
Qed.

Lemma wp_push_argument a (Q : argument → mem → Prop) m :
  is_Some (arg_key a) → reliable m → (∀ m', reliable m' → Q a m') → wp (push_argument a) Q m.
Proof.
  destruct a as [k v l]. intros [k' Hk] Hm HQ. simpl in Hk. subst k.
  unfold push_argument. simpl. wp_step. apply wp_strdup; [done|]. intros m1 Hm1.
  wp_step. apply wp_strdup_opt; [done|]. intros m2 Hm2.
  wp_step. apply wp_copy_list; [done|]. intros m3 Hm3. by wp_step; apply HQ.
Qed.

Lemma wp_malloc_if {A} (l : list A) (Q : () → mem → Prop) m :
  reliable m → (∀ m', reliable m' → Q () m') →
  wp (if bool_decide (l = []) then mret () else ok ← malloc; assertC ok) Q m.
Proof.
  intros Hm HQ. case_bool_decide; [by apply wp_ret, HQ|].
  wp_step. apply wp_malloc_reliable; [done|]. intros m1 Hm1. by apply HQ.
Qed.

Lemma wp_push_task t (Q : oph_workflow_stack_task → mem → Prop) m :
  keyed t → reliable m → (∀ m', reliable m' → Q (snapshot t) m') → wp (push_task t) Q m.
Proof.
  intros Hk Hm HQ. unfold push_task. wp_step.
  apply (wp_mono _ (λ a m', a = arguments t ∧ reliable m')).
  - case_bool_decide as Ha; [by rewrite Ha; wp_steps|]. wp_steps.
    apply (wp_mapC _ id); [done| |by rewrite list_fmap_id].
    intros a m1 R Hin. apply wp_push_argument. by eapply Forall_forall in Hk.
  - intros a m1 [-> Hm1]. wp_step. apply wp_malloc_if; [done|]. intros m2 Hm2.
    wp_step. apply wp_malloc_if; [done|]. intros m3 Hm3. by wp_step; apply HQ.
Qed.

(** The array of tasks has a cell for every task, with named arguments. *)
Definition tasks_ok (wf : oph_workflow) : Prop :=
  (tasks_num wf < length (tasks wf))%nat ∧ Forall keyed (tasks wf).

Definition pushed (wf : oph_workflow) (c : Z) (nm : string) (sv : option (list cstr))
    (iv : option (list Z)) (n : Z) : oph_workflow :=
  set_stack (Stack c 0 (snapshot <$> take (tasks_num wf) (tasks wf)) (Some nm) sv iv n :: stack wf) wf.

Lemma push_spec wf c nm sv iv n m :
  tasks_ok wf → 0 < n → reliable m →
  wp (oph_workflow_push (Some wf) c (Some nm) sv iv n)
     (λ r m', reliable m' ∧ r = (OPH_WORKFLOW_EXIT_SUCCESS, Some (pushed wf c nm sv iv n))) m.
Proof.
  intros [Hlen Hk] Hn Hm. unfold oph_workflow_push.
  destruct (Z.leb_spec n 0) as [?|_]; [lia|]. wp_step. wp_step. simpl negb. cbv iota. wp_step.
  apply (wp_mono _ (λ ok m', ok = true ∧ reliable m')).
  { case_bool_decide; [by apply wp_ret|]. by wp_step. }
  intros ok m1 [-> Hm1]. simpl negb. cbv iota. wp_step.
  apply (wp_mapC _ (λ i, snapshot (default zero_task (tasks wf !! i)))); [done| |].
  - intros i m2 R Hi Hm2 HR. apply elem_of_seq in Hi. wp_step.
    destruct (lookup_lt_is_Some_2 (tasks wf) i) as [t Ht]; [lia|].
    apply (wp_deref _ _ _ _ Ht). rewrite Ht in HR. apply wp_push_task; [|done..].
    by eapply Forall_lookup_1 in Hk.
  - intros m2 Hm2. wp_step. apply wp_strdup; [done|]. intros m3 Hm3. wp_step. split; [done|].
    unfold pushed. do 5 f_equal. apply list_eq. intros i. rewrite !list_lookup_fmap.
    destruct (decide (i < tasks_num wf)%nat) as [Hi|Hi].
    + rewrite lookup_seq_lt by done. rewrite lookup_take_lt by done. simpl.
      destruct (lookup_lt_is_Some_2 (tasks wf) i) as [t Ht]; [lia|]. by rewrite Ht.
    + rewrite lookup_seq_ge by lia. rewrite lookup_take_ge by lia. done.
Qed.

(** ** Properties *)

(** pushing a loop frame records in it, for every task, the arguments, the
    dependency indices, the residual dependencies and the dependents the task has at
    that moment, puts the frame on top with index 0, changes nothing else of the
    workflow, and popping it gives the workflow back. *)
Theorem push_pop_roundtrip (wf : oph_workflow) (c : Z) (nm : string) (sv : option (list cstr))
    (iv : option (list Z)) (n : Z) (m : mem) :
  tasks_ok wf → 0 < n → reliable m →
  wp ('(rc1, wf1) ← oph_workflow_push (Some wf) c (Some nm) sv iv n;
      '(rc2, wf2) ← oph_workflow_pop wf1 None;
      mret (rc1, wf1, rc2, wf2))
     (λ r _, r = (OPH_WORKFLOW_EXIT_SUCCESS,
        Some (set_stack (Stack c 0 (snapshot <$> take (tasks_num wf) (tasks wf)) (Some nm) sv iv n
                         :: stack wf) wf),
        OPH_WORKFLOW_EXIT_SUCCESS, Some wf)) m.
Proof.
  intros Hok Hn Hm. wp_step. eapply wp_mono; [by apply push_spec|].
  intros r m1 [Hm1 ->]. wp_steps. by destruct wf.
Qed.

(** A workflow of one task with an argument and a dependent. *)
Definition sample_task : oph_workflow_task :=
  set_name (Some "T1") (set_arguments [Arg (Some "cube") (Some "1/1") []]
    (set_dependents_indexes [1] (set_residual_deps_num 0 zero_task))).

Definition sample_wf : oph_workflow :=
  set_tasks [sample_task; zero_task] (set_tasks_num 1 zero_workflow).

Lemma sample_wf_ok : tasks_ok sample_wf.
Proof. split; [simpl; lia|]. repeat constructor; by eexists. Qed.

Lemma push_pop_roundtrip_witness :
  wp ('(rc1, wf1) ← oph_workflow_push (Some sample_wf) 0 (Some "i") None (Some [5; 6]) 2;
      '(rc2, wf2) ← oph_workflow_pop wf1 None;
      mret (rc1, wf1, rc2, wf2))
     (λ r _, r = (OPH_WORKFLOW_EXIT_SUCCESS,
        Some (set_stack (Stack 0 0 (snapshot <$> take (tasks_num sample_wf) (tasks sample_wf))
                           (Some "i") None (Some [5; 6]) 2 :: stack sample_wf) sample_wf),
        OPH_WORKFLOW_EXIT_SUCCESS, Some sample_wf)) [].
Proof.
  apply (push_pop_roundtrip sample_wf 0 "i" None (Some [5; 6]) 2); [apply sample_wf_ok|lia|].
  apply reliable_nil.
Defined.

(** expanding a workflow to [n] tasks keeps every existing task in its cell and
    the final task in the last cell, fills the cells in between with zeroed tasks,
    and resets the number of residual tasks to [n]; a number of tasks that does not
    grow is refused. *)
Theorem expand_keeps_tasks (wf : oph_workflow) (n : Z) (m : mem) :
  length (tasks wf) = S (tasks_num wf) → reliable m →
  wp (oph_workflow_expand (Some wf) n) (λ r _,
    if n <=? Z.of_nat (tasks_num wf) then r = (OPH_WORKFLOW_EXIT_BAD_PARAM_ERROR, Some wf)
    else ∃ wf', r = (OPH_WORKFLOW_EXIT_SUCCESS, Some wf') ∧
      tasks_num wf' = Z.to_nat n ∧ residual_tasks_num wf' = n ∧
      length (tasks wf') = S (Z.to_nat n) ∧
      (∀ i, (i < tasks_num wf)%nat → tasks wf' !! i = tasks wf !! i) ∧
      (∀ i, (tasks_num wf ≤ i < Z.to_nat n)%nat → tasks wf' !! i = Some zero_task) ∧
      tasks wf' !! Z.to_nat n = tasks wf !! tasks_num wf) m.
Proof.
  intros Hlen Hm. unfold oph_workflow_expand.
  destruct (Z.leb_spec n (Z.of_nat (tasks_num wf))) as [?|Hn]; [by wp_steps|]. wp_steps.
  destruct (lookup_lt_is_Some_2 (tasks wf) (tasks_num wf)) as [f Hf]; [lia|].
  apply (wp_deref _ _ _ _ Hf). wp_steps. eexists. split; [done|]. simpl.
  assert (length (take (tasks_num wf) (tasks wf)) = tasks_num wf) as Ht.
  { rewrite length_take. lia. }
  split_and!; [done|done| | | |].
  - rewrite !length_app, length_replicate, Ht. simpl. lia.
  - intros i Hi. rewrite lookup_app_l by lia. by rewrite lookup_take_lt.
  - intros i Hi. rewrite lookup_app_r by lia. rewrite lookup_app_l by (rewrite length_replicate; lia).
    apply lookup_replicate_2. lia.
  - rewrite lookup_app_r by lia. rewrite lookup_app_r by (rewrite length_replicate; lia).
    rewrite length_replicate, Ht. by replace (Z.to_nat n - tasks_num wf - (Z.to_nat n - tasks_num wf))%nat with 0%nat by lia.
Qed.

Lemma expand_keeps_tasks_witness :
  wp (oph_workflow_expand (Some sample_wf) 3) (λ r _,
    if 3 <=? Z.of_nat (tasks_num sample_wf) then r = (OPH_WORKFLOW_EXIT_BAD_PARAM_ERROR, Some sample_wf)
    else ∃ wf', r = (OPH_WORKFLOW_EXIT_SUCCESS, Some wf') ∧
      tasks_num wf' = Z.to_nat 3 ∧ residual_tasks_num wf' = 3 ∧
      length (tasks wf') = S (Z.to_nat 3) ∧
      (∀ i, (i < tasks_num sample_wf)%nat → tasks wf' !! i = tasks sample_wf !! i) ∧
      (∀ i, (tasks_num sample_wf ≤ i < Z.to_nat 3)%nat → tasks wf' !! i = Some zero_task) ∧
      tasks wf' !! Z.to_nat 3 = tasks sample_wf !! tasks_num sample_wf) [].
Proof. apply (expand_keeps_tasks sample_wf 3); [done|apply reliable_nil]. Defined.

(** *** Copies of tasks *)

Lemma wp_dup_or_fail s (Q : option cstr → mem → Prop) m :
  reliable m → (∀ m', reliable m' → Q (Some s) m') → wp (dup_or_fail s) Q m.
Proof. intros Hm HQ. destruct s; simpl; wp_steps; auto. Qed.

Lemma wp_mapC_opt {A B} (f : A → C (option B)) (g : A → B) l (Q : option (list B) → mem → Prop) m :
  reliable m →
  (∀ x m (R : option B → mem → Prop), reliable m →
     (∀ m', reliable m' → R (Some (g x)) m') → wp (f x) R m) →
  (∀ m', reliable m' → Q (Some (g <$> l)) m') → wp (mapC_opt f l) Q m.
Proof.
  revert Q m. induction l as [|x l IH]; intros Q m Hm Hf HQ; simpl; [by apply wp_ret, HQ|].
  wp_step. apply Hf; [done|]. intros m1 Hm1. wp_step. apply IH; [done|done|].
  intros m2 Hm2. by apply wp_ret, HQ.
Qed.

Lemma wp_copy_array {A B} (f : A → C (option B)) (g : A → B) l (Q : option (list B) → mem → Prop) m :
  reliable m →
  (∀ x m (R : option B → mem → Prop), reliable m →
     (∀ m', reliable m' → R (Some (g x)) m') → wp (f x) R m) →
  (∀ m', reliable m' → Q (Some (g <$> l)) m') → wp (copy_array f l) Q m.
Proof.
  intros Hm Hf HQ. unfold copy_array. case_bool_decide as Hl.
  - apply nil_length_inv in Hl as ->. by apply wp_ret, HQ.
  - wp_step. wp_step. simpl negb. cbv iota. by apply (wp_mapC_opt _ g).
Qed.

Definition clear_name (d : oph_workflow_dep) : oph_workflow_dep :=
  Dep (dep_argument d) (dep_order d) None (task_index d) (dep_type d) (dep_filter d)
    (output_argument d) (output_order d).

Lemma wp_copy_dep d (Q : option oph_workflow_dep → mem → Prop) m :
  reliable m → (∀ m', reliable m' → Q (Some (clear_name d)) m') → wp (copy_dep d) Q m.
Proof.
  intros Hm HQ. unfold copy_dep.
  do 6 (wp_step; apply wp_dup_or_fail; [done|intros ? ?]). by apply wp_ret, HQ.
Qed.

Lemma wp_copy_arguments args (Q : option (list argument) → mem → Prop) m :
  reliable m → (∀ m', reliable m' → Q (Some args) m') → wp (copy_arguments args) Q m.
Proof.
  intros Hm HQ. unfold copy_arguments.
  wp_step. apply (wp_copy_array _ id); [done|by intros; apply wp_dup_or_fail|]. intros m1 Hm1.
  wp_step. apply (wp_copy_array _ id); [done|by intros; apply wp_dup_or_fail|]. intros m2 Hm2.
  wp_step. apply (wp_copy_array _ id); [done| |].
  { intros l m3 R Hm3 HR. unfold copy_arg_list. wp_step. apply wp_copy_list; [done|].
    intros m4 Hm4. by apply wp_ret, HR. }
  intros m3 Hm3. wp_step. rewrite !list_fmap_id.
  assert (zip_with (λ kv l, Arg kv.1 kv.2 l) (zip (arg_key <$> args) (arg_value <$> args))
    (arg_list <$> args) = args) as ->; [|by apply HQ].
  clear. induction args as [|[k v l] args IH]; simpl; [done|]. f_equal. exact IH.
Qed.

(** The names a copy can have. *)
Definition copied_name (nm : string) (suffix : Z) : string :=
  if suffix <? 0 then nm else
  match String.get (String.length nm - 1) nm with
  | Some ")"%char => String.substring 0 (String.length nm - 1) nm +:+ "," +:+ pretty suffix +:+ ")"
  | _ => nm +:+ " (" +:+ pretty suffix +:+ ")"
  end.

Lemma wp_copy_task_name nm suffix (Q : option cstr → mem → Prop) m :
  nm ≠ "" → reliable m → (∀ m', reliable m' → Q (Some (Some (copied_name nm suffix))) m') →
  wp (copy_task_name (Some nm) suffix) Q m.
Proof.
  intros Hne Hm HQ. unfold copy_task_name, copied_name in *.
  destruct (Z.leb_spec 0 suffix), (Z.ltb_spec suffix 0); try lia.
  - wp_step. unfold copy_name. wp_step. apply wp_assert; [by apply bool_decide_eq_true|].
    wp_step. by apply wp_dup_or_fail.
  - by apply wp_dup_or_fail.
Qed.

(** The environment of a copied task stands for the same variables. *)
Definition same_vars (v v' : option (HASHTBL oph_workflow_var)) : Prop :=
  match v, v' with
  | None, None => True
  | Some t, Some t' => HashTbl.hash_wf t' ∧ HashTbl.abs t' = HashTbl.abs t
  | _, _ => False
  end.

Definition vars_wf (v : option (HASHTBL oph_workflow_var)) : Prop :=
  match v with None => True | Some t => HashTbl.hash_wf t end.

Lemma wp_copy_vars v (Q : option (option (HASHTBL oph_workflow_var)) → mem → Prop) m :
  vars_wf v → reliable m → (∀ v' m', reliable m' → same_vars v v' → Q (Some v') m') →
  wp (copy_vars v) Q m.
Proof.
  intros Hv Hm HQ. destruct v as [t|]; simpl.
  - wp_step. eapply wp_mono; [by apply HashTbl.duplicate_spec|].
    intros r m1 (Hm1 & t' & -> & Hwf & _ & _ & Ha). apply wp_ret. by apply HQ.
  - apply wp_ret. by apply HQ.
Qed.

(** copying a named task with enough memory succeeds; the copy has the name of
    the source with the suffix appended (inside the brackets of an earlier
    suffix), the dependencies without the names of the tasks they refer to, an
    environment with the same variables, and every other field of the source. *)
Theorem copy_task_copies (s : oph_workflow_task) (nm : string) (suffix : Z) (m : mem) :
  name s = Some nm → nm ≠ "" → vars_wf (vars s) → reliable m →
  wp (oph_workflow_copy_task s suffix) (λ r _, ∃ vs, same_vars (vars s) vs ∧
    r = (OPH_WORKFLOW_EXIT_SUCCESS,
         Some (set_vars vs (set_deps (clear_name <$> deps s)
                 (set_name (Some (copied_name nm suffix)) s))))) m.
Proof.
  intros Hnm Hne Hv Hm. unfold oph_workflow_copy_task.
  wp_step. rewrite Hnm. apply wp_copy_task_name; [done..|]. intros m1 Hm1.
  do 3 (wp_step; apply wp_dup_or_fail; [done|intros ? ?]).
  wp_step. apply wp_copy_arguments; [done|]. intros m2 Hm2.
  wp_step. apply (wp_copy_array _ clear_name); [done|by intros; apply wp_copy_dep|]. intros m3 Hm3.
  wp_step. apply (wp_copy_array _ id); [done|by intros ??? Hx HR; apply wp_ret, HR|]. intros m4 Hm4.
  wp_step. apply wp_copy_vars; [done..|]. intros vs m5 Hm5 Hvs.
  do 3 (wp_step; apply wp_dup_or_fail; [done|intros ? ?]).
  wp_step. exists vs. split; [done|]. rewrite list_fmap_id. by destruct s.
Qed.

Lemma copy_task_copies_witness :
  wp (oph_workflow_copy_task sample_task 2) (λ r _, ∃ vs, same_vars (vars sample_task) vs ∧
    r = (OPH_WORKFLOW_EXIT_SUCCESS,
         Some (set_vars vs (set_deps (clear_name <$> deps sample_task)
                 (set_name (Some (copied_name "T1" 2)) sample_task))))) [] ∧
  copied_name "T1" 2 = "T1 (2)" ∧ copied_name "T1 (2)" 3 = "T1 (2,3)".
Proof.
  split; [|done]. apply (copy_task_copies sample_task "T1" 2); [done..|apply reliable_nil].
Defined.

(** [oph_workflow_free] releases a workflow exactly when no task is waiting;
    otherwise the workflow survives with a negative count, and the next call leaves
    it as it is. *)
Theorem free_deferred_while_waiting (wf : oph_workflow) :
  ((oph_workflow_free (Some wf)).2 = None ↔ waiting_tasks_num wf = 0) ∧
  (waiting_tasks_num wf ≠ 0 →
     oph_workflow_free (Some wf) =
       (OPH_WORKFLOW_EXIT_SUCCESS, Some (set_waiting_tasks_num (- Z.abs (waiting_tasks_num wf)) wf)) ∧
     oph_workflow_free (oph_workflow_free (Some wf)).2 = oph_workflow_free (Some wf)).
Proof.
  unfold oph_workflow_free. case_bool_decide as Hw; [done|].
  destruct (Z.ltb_spec 0 (waiting_tasks_num wf)) as [Hpos|Hneg]; simpl.
  - split; [by split|]. intros _. split.
    + by rewrite Z.abs_eq by lia.
    + rewrite bool_decide_false by lia. by destruct (Z.ltb_spec 0 (- waiting_tasks_num wf)); [lia|].
  - split; [by split|]. intros _. split.
    + rewrite Z.abs_neq by lia. rewrite Z.opp_involutive. by destruct wf.
    + rewrite bool_decide_false by done. by destruct (Z.ltb_spec 0 (waiting_tasks_num wf)); [lia|].
Qed.

End WfStructs.
