(* ===== verification/WfSetup.v ===== *)
(** * Workflow setup: dependency graph ([src/src/oph_workflow/oph_workflow_setup.c])

    [oph_workflow_indexing] resolves the names of the dependencies into task
    indices and builds the lists of dependents, [oph_workflow_validate] checks the
    names and the arguments and runs Kahn's topological sort on a copy of the graph,
    [oph_workflow_init] collects the independent tasks.

    The main results: indexing makes dependencies and dependents dual to each other
    and rejects unknown names and self-dependencies; on an indexed workflow the
    topological sort terminates without an out-of-range access and accepts exactly
    the acyclic dependency graphs. *)

From Stdlib Require Ascii.
From stdpp Require Import base gmap strings numbers relations functions list.
From S2P Require Import Prelude CString HashTbl Trash WfStructs.
Import (notations) Stdlib.Strings.Ascii.
Import WfStructs.

Module WfSetup.

Open Scope Z_scope.

(** An array cell with a C index. *)
Definition cell {A} (l : list A) (i : Z) : option A :=
  if i <? 0 then None else l !! Z.to_nat i.

Definition set_cell {A} (l : list A) (i : Z) (x : A) : list A :=
  if i <? 0 then l else <[Z.to_nat i := x]> l.

(** ** Indexing *)

(** The first task with the name, [k] running over [idx]. *)
Fixpoint find_task (nm : cstr) (ts : list oph_workflow_task) (idx : list nat) : C (option nat) :=
  match idx with
  | [] => mret None
  | k :: idx' =>
      t ← deref (ts !! k);
      b ← strcmp0 nm (name t);
      if b : bool then mret (Some k) else find_task nm ts idx'
  end.

Definition set_dep_index (j : nat) (k : Z) (t : oph_workflow_task) : oph_workflow_task :=
  set_deps (alter (set_task_index k) j (deps t)) t.

Definition add_dependent (i : Z) (t : oph_workflow_task) : oph_workflow_task :=
  set_dependents_indexes (dependents_indexes t ++ [i]) t.

(** The body for dependency [j] of task [i]; an early return carries its code and
    the tasks as they are at that point. *)
Definition index_dep (tasks_num i : nat) (ts : list oph_workflow_task) (j : nat) :
    C (ctl (list oph_workflow_task) (Z * list oph_workflow_task)) :=
  cur ← deref (ts !! i);
  d ← deref (deps cur !! j);
  self ← strcmp0 (task_name d) (name cur);
  if self : bool then mret (Break (OPH_WORKFLOW_EXIT_BAD_PARAM_ERROR, ts)) else
  k ← find_task (task_name d) ts (seq 0 tasks_num);
  match k with
  | None => mret (Break (OPH_WORKFLOW_EXIT_BAD_PARAM_ERROR, ts))
  | Some k =>
      let ts := alter (set_dep_index j (Z.of_nat k)) i ts in
      ok ← malloc;
      if negb ok then mret (Break (OPH_WORKFLOW_EXIT_MEMORY_ERROR, ts)) else
      mret (Next (alter (add_dependent (Z.of_nat i)) k ts))
  end.

Definition index_task (tasks_num : nat) (ts : list oph_workflow_task) (i : nat) :
    C (ctl (list oph_workflow_task) (Z * list oph_workflow_task)) :=
  cur ← deref (ts !! i);
  loopC (index_dep tasks_num i) ts (seq 0 (length (deps cur))).

Definition oph_workflow_indexing (tasks : option (list oph_workflow_task)) (tasks_num : nat) :
    C (Z * option (list oph_workflow_task)) :=
  match tasks with
  | None => mret (OPH_WORKFLOW_EXIT_BAD_PARAM_ERROR, None)
  | Some ts =>
      if bool_decide (tasks_num = 0%nat) then mret (OPH_WORKFLOW_EXIT_BAD_PARAM_ERROR, tasks) else
      r ← loopC (index_task tasks_num) ts (seq 0 tasks_num);
      mret (match r with
            | Next ts' => (OPH_WORKFLOW_EXIT_SUCCESS, Some ts')
            | Break (rc, ts') => (rc, Some ts')
            end)
  end.

(** ** Validation *)

(** [for i < num - 1, for j = i + 1 .. num - 1]: a duplicate name. *)
Definition check_names (ts : list oph_workflow_task) (n : nat) : C (ctl unit Z) :=
  loopC (λ _ i,
    loopC (λ _ j,
      ti ← deref (ts !! i); tj ← deref (ts !! j);
      b ← strcmp0 (name ti) (name tj);
      mret (if b : bool then Break OPH_WORKFLOW_EXIT_TASK_NAME_ERROR else Next tt))
      tt (seq (S i) (n - S i))) tt (seq 0 (n - 1)).

(** The scan of a value: [bracket_on] counts the open brackets; a separator outside
    brackets is refused.  The warning about '=' has no effect. *)
Fixpoint check_value (bracket_on : Z) (v : string) : ctl Z Z :=
  match v with
  | EmptyString => Next bracket_on
  | String c v' =>
      if Ascii.eqb c "[" then check_value (wrap_u64 (bracket_on + 1)) v'
      else if negb (bracket_on =? 0) && Ascii.eqb c "]" then check_value (bracket_on - 1) v'
      else if (bracket_on =? 0) && Ascii.eqb c ";" then Break OPH_WORKFLOW_EXIT_BAD_PARAM_ERROR
      else check_value bracket_on v'
  end.

(** [bracket_on] is not reset between the values. *)
Definition check_argument (bracket_on : Z) (a : argument) : C (ctl Z Z) :=
  k ← deref (arg_key a);
  if has_char ";" k then mret (Break OPH_WORKFLOW_EXIT_BAD_PARAM_ERROR) else
  if has_char "=" k then mret (Break OPH_WORKFLOW_EXIT_BAD_PARAM_ERROR) else
  v ← deref (arg_value a);
  mret (check_value bracket_on v).

Definition check_arguments (ts : list oph_workflow_task) (n : nat) : C (ctl Z Z) :=
  loopC (λ b i, t ← deref (ts !! i); loopC check_argument b (arguments t)) 0 (seq 0 n).

Record workflow_node : Type := WNode {
  out_edges : list Z;
  out_edges_num : Z;
  in_edges : list Z;
  in_edges_num : Z;
  index : Z;
}.

(** The queue [S]: the positions of its nodes in the graph. *)
Definition workflow_s_nodes : Type := list nat.

Definition workflow_s_add (s : workflow_s_nodes) (node : nat) : C (Z * workflow_s_nodes) :=
  ok ← malloc;
  mret (if ok : bool then (OPH_WORKFLOW_EXIT_SUCCESS, s ++ [node])
        else (OPH_WORKFLOW_EXIT_MEMORY_ERROR, s)).

Definition workflow_s_remove (s : workflow_s_nodes) : Z * option nat * workflow_s_nodes :=
  match s with
  | [] => (OPH_WORKFLOW_EXIT_BAD_PARAM_ERROR, None, [])
  | node :: s' => (OPH_WORKFLOW_EXIT_SUCCESS, Some node, s')
  end.

(** A node of the graph; the edge arrays are allocated when there are edges. *)
Definition graph_node (t : oph_workflow_task) (i : nat) : C (option workflow_node) :=
  ok1 ← (if 1 <=? deps_num t then malloc else mret true);
  if negb ok1 then mret None else
  ok2 ← (if 1 <=? dependents_indexes_num t then malloc else mret true);
  if negb ok2 then mret None else
  mret (Some (WNode (dependents_indexes t) (dependents_indexes_num t)
                    (task_index <$> deps t) (deps_num t) (Z.of_nat i))).

Definition build_graph (ts : list oph_workflow_task) (n : nat) : C (ctl (list workflow_node) Z) :=
  ok ← malloc;
  if negb ok then mret (Break OPH_WORKFLOW_EXIT_MEMORY_ERROR) else
  loopC (λ g i,
    t ← deref (ts !! i);
    nd ← graph_node t i;
    mret (match nd with
          | Some nd => Next (g ++ [nd])
          | None => Break OPH_WORKFLOW_EXIT_MEMORY_ERROR
          end)) [] (seq 0 n).

(** The nodes without incoming edges. *)
Definition initial_queue (g : list workflow_node) (n : nat) : C (ctl workflow_s_nodes Z) :=
  loopC (λ s i,
    nd ← deref (g !! i);
    if in_edges_num nd =? 0 then
      '(rc, s') ← workflow_s_add s i;
      mret (if rc =? 0 then Next s' else Break OPH_WORKFLOW_EXIT_MEMORY_ERROR)
    else mret (Next s)) [] (seq 0 n).

(** The first incoming edge from [k] is replaced by -1. *)
Fixpoint remove_in (k : Z) (l : list Z) : option (list Z) :=
  match l with
  | [] => None
  | x :: l' => if x =? k then Some (-1 :: l') else cons x <$> remove_in k l'
  end.

Definition drop_out (i : nat) (nd : workflow_node) : workflow_node :=
  WNode (<[i := -1]> (out_edges nd)) (out_edges_num nd - 1) (in_edges nd) (in_edges_num nd) (index nd).

Definition drop_in (l : list Z) (nd : workflow_node) : workflow_node :=
  WNode (out_edges nd) (out_edges_num nd) l (in_edges_num nd - 1) (index nd).

(** The body for outgoing edge [i] of the node at position [p]. *)
Definition visit_edge (p : nat) (st : list workflow_node * workflow_s_nodes) (i : nat) :
    C (ctl (list workflow_node * workflow_s_nodes) Z) :=
  let '(g, s) := st in
  nd ← deref (g !! p);
  e ← deref (out_edges nd !! i);
  if e =? -1 then mret (Next (g, s)) else
  let g := <[p := drop_out i nd]> g in
  tgt ← deref (cell g e);
  match remove_in (index nd) (in_edges tgt) with
  | None => mret (Next (g, s))
  | Some l =>
      let tgt := drop_in l tgt in
      let g := set_cell g e tgt in
      if in_edges_num tgt =? 0 then
        '(rc, s') ← workflow_s_add s (Z.to_nat e);
        mret (if rc =? 0 then Next (g, s') else Break OPH_WORKFLOW_EXIT_GENERIC_ERROR)
      else mret (Next (g, s))
  end.

(** [while (S.nodes_num != 0)]; every node enters the queue at most once, so the
    number of tasks plus one is enough fuel. *)
Fixpoint topological_sort (fuel : nat) (g : list workflow_node) (s : workflow_s_nodes) :
    C (ctl (list workflow_node) Z) :=
  match fuel with
  | 0%nat => out_of_fuel
  | S fuel' =>
      match workflow_s_remove s with
      | (_, None, _) => mret (Next g)
      | (_, Some p, s') =>
          nd ← deref (g !! p);
          r ← loopC (visit_edge p) (g, s') (seq 0 (length (out_edges nd)));
          match r with
          | Next (g', s'') => topological_sort fuel' g' s''
          | Break rc => mret (Break rc)
          end
      end
  end.

Definition edges_left (g : list workflow_node) (n : nat) : C bool :=
  r ← loopC (λ _ i, nd ← deref (g !! i);
        mret (if negb (in_edges_num nd =? 0) || negb (out_edges_num nd =? 0) then Break tt else Next tt))
      tt (seq 0 n);
  mret (match r with Next _ => false | Break _ => true end).

Definition check_dag (ts : list oph_workflow_task) (n : nat) : C Z :=
  r ← build_graph ts n;
  match r with
  | Break rc => mret rc
  | Next g =>
      r ← initial_queue g n;
      match r with
      | Break rc => mret rc
      | Next s =>
          r ← topological_sort (S n) g s;
          match r with
          | Break rc => mret rc
          | Next g =>
              left ← edges_left g n;
              mret (if left : bool then OPH_WORKFLOW_EXIT_BAD_PARAM_ERROR else OPH_WORKFLOW_EXIT_SUCCESS)
          end
      end
  end.

(** A null [tasks] is the empty list. *)
Definition oph_workflow_validate (workflow : option oph_workflow) : C Z :=
  match workflow with
  | None => mret OPH_WORKFLOW_EXIT_BAD_PARAM_ERROR
  | Some wf =>
      if bool_decide (tasks wf = []) then mret OPH_WORKFLOW_EXIT_BAD_PARAM_ERROR else
      r ← check_names (tasks wf) (tasks_num wf);
      match r with
      | Break rc => mret rc
      | Next _ =>
          r ← check_arguments (tasks wf) (tasks_num wf);
          match r with
          | Break rc => mret rc
          | Next _ => check_dag (tasks wf) (tasks_num wf)
          end
      end
  end.

(** ** Initial tasks *)

(** The indices, in order, of the tasks without dependencies. *)
Definition initial_indexes (ts : list oph_workflow_task) (n : nat) : C (list Z) :=
  foldC (λ acc i, t ← deref (ts !! i);
    mret (if deps_num t <? 1 then acc ++ [Z.of_nat i] else acc)) [] (seq 0 n).

Definition oph_workflow_init (tasks : option (list oph_workflow_task)) (tasks_num : nat) :
    C (Z * option (list Z)) :=
  match tasks with
  | None => mret (OPH_WORKFLOW_EXIT_BAD_PARAM_ERROR, None)
  | Some ts =>
      if bool_decide (tasks_num = 0%nat) then mret (OPH_WORKFLOW_EXIT_BAD_PARAM_ERROR, None) else
      l ← initial_indexes ts tasks_num;
      if bool_decide (l = []) then mret (OPH_WORKFLOW_EXIT_BAD_PARAM_ERROR, None) else
      ok ← malloc;
      if negb ok then mret (OPH_WORKFLOW_EXIT_MEMORY_ERROR, None) else
      mret (OPH_WORKFLOW_EXIT_SUCCESS, Some l)
  end.

(** ** Counting edges *)

Fixpoint cnt (x : Z) (l : list Z) : nat :=
  match l with
  | [] => 0
  | y :: l' => (if decide (y = x) then 1 else 0) + cnt x l'
  end%nat.

(** Edges that are not removed. *)
Fixpoint live (l : list Z) : nat :=
  match l with
  | [] => 0
  | y :: l' => (if decide (y = (-1)%Z) then 0 else 1) + live l'
  end%nat.

Lemma cnt_app x l1 l2 : cnt x (l1 ++ l2) = (cnt x l1 + cnt x l2)%nat.
Proof. induction l1; simpl; lia. Qed.

Lemma cnt_pos x l : (0 < cnt x l)%nat ↔ x ∈ l.
Proof.
  induction l as [|y l IH]; simpl; [split; [lia|by intros ?%elem_of_nil]|].
  rewrite elem_of_cons, <-IH. case_decide; split; intros; destruct_or?; subst; (done || lia || auto).
Qed.

Lemma cnt_replicate x y n : x ≠ y → cnt x (replicate n y) = 0%nat.
Proof. intros Hxy. induction n; simpl; [done|]. case_decide; [by subst|done]. Qed.

Lemma live_bound n l : Forall (λ x, 0 ≤ x < n) l → live l = length l.
Proof.
  induction 1 as [|x l Hx _ IH]; simpl; [done|]. case_decide; [lia|]. by rewrite IH.
Qed.

Lemma live_0 l x : live l = 0%nat → x ∈ l → x = -1.
Proof.
  intros Hl [i Hi]%list_elem_of_lookup. revert i Hl Hi.
  induction l as [|y l IH]; intros [|i] Hl Hi; simplify_eq/=; case_decide; try lia; try done.
  by apply (IH i).
Qed.

Lemma live_pos l : (0 < live l)%nat → ∃ x, x ∈ l ∧ x ≠ -1.
Proof.
  induction l as [|y l IH]; simpl; [lia|]. case_decide as Hy.
  - intros (x & ? & ?)%IH. exists x. split; [by right|done].
  - intros _. exists y. split; [left|done].
Qed.

Lemma remove_in_spec k l :
  k ∈ l → k ≠ -1 → ∃ l', remove_in k l = Some l' ∧ live l = S (live l') ∧
    (∀ x, x ≠ -1 → (cnt x l = cnt x l' + (if decide (x = k) then 1 else 0))%nat) ∧
    (∀ x, x ∈ l' → x = -1 ∨ x ∈ l).
Proof.
  intros Hk Hne. induction l as [|y l IH]; [by apply elem_of_nil in Hk|]. simpl.
  destruct (Z.eqb_spec y k) as [->|Hy].
  - exists (-1 :: l). split_and!; [done| | |].
    + simpl. repeat case_decide; lia.
    + intros x Hx. simpl. repeat case_decide; subst; lia || congruence.
    + intros x [->|Hx]%elem_of_cons; [by left|right; by right].
  - apply elem_of_cons in Hk as [->|Hk]; [done|].
    destruct (IH Hk) as (l' & -> & Hlv & Hcnt & Hin). exists (y :: l'). simpl. split_and!; [done| | |].
    + case_decide; lia.
    + intros x Hx. specialize (Hcnt x Hx). rewrite Hcnt. case_decide; lia.
    + intros x [->|Hx]%elem_of_cons; [right; left|].
      destruct (Hin x Hx) as [?|?]; [by left|right; by right].
Qed.

(** ** Edges of the task graph *)

Definition ins (ts : list oph_workflow_task) (i : nat) : list Z :=
  from_option (λ t, task_index <$> deps t) [] (ts !! i).

Definition outs (ts : list oph_workflow_task) (k : nat) : list Z :=
  from_option dependents_indexes [] (ts !! k).

(** Dependencies and dependents are dual: task [i] lists [k] as often as [k] lists
    [i], and every index is the index of a task. *)
Record indexed (ts : list oph_workflow_task) (n : nat) : Prop := {
  ix_length : (n ≤ length ts)%nat;
  ix_ins : ∀ i, (i < n)%nat → Forall (λ k, 0 ≤ k < Z.of_nat n) (ins ts i);
  ix_outs : ∀ k, (k < n)%nat → Forall (λ i, 0 ≤ i < Z.of_nat n) (outs ts k);
  ix_dual : ∀ i k, (i < n)%nat → (k < n)%nat →
    cnt (Z.of_nat k) (ins ts i) = cnt (Z.of_nat i) (outs ts k);
}.

(** Tasks as the parser delivers them: named, with named dependencies. *)
Definition task_loaded (t : oph_workflow_task) : Prop :=
  is_Some (name t) ∧ Forall (λ d, is_Some (task_name d)) (deps t) ∧ dependents_indexes t = [].

Definition loaded (ts : list oph_workflow_task) (n : nat) : Prop :=
  (n ≤ length ts)%nat ∧ ∀ i t, (i < n)%nat → ts !! i = Some t → task_loaded t.

(** Every dependency names another task. *)
Definition resolvable (ts : list oph_workflow_task) (n : nat) : Prop :=
  ∀ i t d, (i < n)%nat → ts !! i = Some t → d ∈ deps t →
    task_name d ≠ name t ∧ ∃ k tk, (k < n)%nat ∧ ts !! k = Some tk ∧ name tk = task_name d.

(** What indexing leaves alone. *)
Definition reindexed (t0 t : oph_workflow_task) : Prop :=
  ∃ ds di, t = set_dependents_indexes di (set_deps ds t0) ∧
    set_task_index 0 <$> ds = set_task_index 0 <$> deps t0.

(** Indexing in progress: [J i] dependencies of task [i] are resolved. *)
Record indexing (ts0 : list oph_workflow_task) (n : nat) (J : nat → nat)
    (ts : list oph_workflow_task) : Prop := {
  ig_frame : Forall2 reindexed ts0 ts;
  ig_count : ∀ i k, (i < n)%nat → (k < n)%nat →
    cnt (Z.of_nat i) (outs ts k) = cnt (Z.of_nat k) (take (J i) (ins ts i));
  ig_outs : ∀ k, (k < n)%nat → Forall (λ i, 0 ≤ i < Z.of_nat n) (outs ts k);
  ig_names : ∀ i j t d, (i < n)%nat → ts !! i = Some t → (j < J i)%nat → deps t !! j = Some d →
    ∃ k tk, task_index d = Z.of_nat k ∧ (k < n)%nat ∧ ts0 !! k = Some tk ∧
      name tk = task_name d ∧ task_name d ≠ name t;
}.

Lemma reindexed_refl t : reindexed t t.
Proof. exists (deps t), (dependents_indexes t). split; [by destruct t|done]. Qed.

Lemma reindexed_dep_index t0 t j k : reindexed t0 t → reindexed t0 (set_dep_index j k t).
Proof.
  intros (ds & di & -> & Hn). exists (alter (set_task_index k) j ds), di. split; [done|].
  rewrite <-Hn. apply list_eq. intros l. rewrite !list_lookup_fmap.
  destruct (decide (l = j)) as [->|Hne].
  - rewrite list_lookup_alter_eq. by destruct (ds !! j).
  - by rewrite list_lookup_alter_ne.
Qed.

Lemma reindexed_add t0 t i : reindexed t0 t → reindexed t0 (add_dependent i t).
Proof. intros (ds & di & -> & Hn). by exists ds, (di ++ [i]). Qed.

Lemma reindexed_name t0 t : reindexed t0 t → name t = name t0.
Proof. by intros (ds & di & -> & _). Qed.

Lemma reindexed_task_names t0 t : reindexed t0 t → task_name <$> deps t = task_name <$> deps t0.
Proof. intros (ds & di & -> & H). apply (f_equal (fmap task_name)) in H. rewrite <-!list_fmap_compose in H. exact H. Qed.

Lemma Forall2_alter_r {A B} (P : A → B → Prop) (f : B → B) l k i :
  (∀ x y, P x y → P x (f y)) → Forall2 P l k → Forall2 P l (alter f i k).
Proof.
  intros Hf H. apply Forall2_same_length_lookup. split.
  - rewrite length_alter. by eapply Forall2_length.
  - intros j x y Hx Hy. destruct (decide (i = j)) as [->|Hne].
    + rewrite list_lookup_alter_eq in Hy. apply fmap_Some in Hy as (y' & Hy & ->).
      apply Hf. by eapply Forall2_lookup_lr.
    + rewrite list_lookup_alter_ne in Hy by done. by eapply Forall2_lookup_lr.
Qed.

(** How the two updates of a step change the edges. *)
Lemma ins_add_dependent ts x k i : ins (alter (add_dependent x) k ts) i = ins ts i.
Proof.
  unfold ins. destruct (decide (k = i)) as [->|Hne].
  - rewrite list_lookup_alter_eq. by destruct (ts !! i).
  - by rewrite list_lookup_alter_ne.
Qed.

Lemma outs_set_dep ts j x i k : outs (alter (set_dep_index j x) i ts) k = outs ts k.
Proof.
  unfold outs. destruct (decide (i = k)) as [->|Hne].
  - rewrite list_lookup_alter_eq. by destruct (ts !! k).
  - by rewrite list_lookup_alter_ne.
Qed.

Lemma outs_add_dependent ts x k k' :
  (k < length ts)%nat →
  outs (alter (add_dependent x) k ts) k' = if decide (k = k') then outs ts k ++ [x] else outs ts k'.
Proof.
  intros Hk. unfold outs. case_decide as Hkk.
  - subst k'. rewrite list_lookup_alter_eq.
    destruct (lookup_lt_is_Some_2 ts k Hk) as [t ->]. done.
  - by rewrite list_lookup_alter_ne.
Qed.

Lemma ins_set_dep ts j x i i' :
  ins (alter (set_dep_index j x) i ts) i' = if decide (i = i') then <[j := x]> (ins ts i) else ins ts i'.
Proof.
  unfold ins. case_decide as Hii; [|by rewrite list_lookup_alter_ne].
  subst i'. rewrite list_lookup_alter_eq. destruct (ts !! i) as [t|]; [|done]. simpl.
  generalize (deps t) as ds. intros ds. revert j.
  induction ds as [|d ds IH]; intros [|j]; try done. simpl. f_equal. apply IH.
Qed.

Lemma wp_find_task nm ts idx m :
  (∀ k, k ∈ idx → ∃ t, ts !! k = Some t ∧ is_Some (name t)) →
  wp (find_task (Some nm) ts idx) (λ r m', m' = m ∧
    match r with
    | Some k => k ∈ idx ∧ ∃ t, ts !! k = Some t ∧ name t = Some nm
    | None => ∀ k t, k ∈ idx → ts !! k = Some t → name t ≠ Some nm
    end) m.
Proof.
  induction idx as [|k idx IH]; intros Hidx; simpl.
  - apply wp_ret. split; [done|]. by intros k t ?%elem_of_nil.
  - destruct (Hidx k) as (t & Ht & s & Hs); [left|].
    wp_step. apply (wp_deref _ _ _ _ Ht). unfold strcmp0. rewrite Hs. wp_steps.
    case_bool_decide as Hn; simpl.
    + subst s. apply wp_ret. split; [done|]. split; [left|by exists t].
    + eapply wp_mono; [apply IH; intros; apply Hidx; by right|].
      intros [k'|] m' [-> Hr]; (split; [done|]).
      * destruct Hr as [? ?]. split; [by right|done].
      * intros k' t' [->|Hk']%elem_of_cons Ht'; [|by eapply Hr]. rewrite Ht' in Ht. simplify_eq.
        rewrite Hs. congruence.
Qed.

(** One resolved dependency. *)
Lemma indexing_step ts0 n J ts i j k t d tk :
  indexing ts0 n J ts → (i < n)%nat → (k < n)%nat → (n ≤ length ts)%nat →
  J i = j → ts !! i = Some t → deps t !! j = Some d →
  ts !! k = Some tk → name tk = task_name d → task_name d ≠ name t →
  indexing ts0 n (<[i := S j]> J)
    (alter (add_dependent (Z.of_nat i)) k (alter (set_dep_index j (Z.of_nat k)) i ts)).
Proof.
  intros [Hfr Hcnt Hout Hnam] Hi Hk Hn HJ Ht Hd Htk Hname Hself.
  assert (ins ts i !! j = Some (task_index d)) as Hj.
  { unfold ins. rewrite Ht. simpl. rewrite list_lookup_fmap, Hd. done. }
  assert (i ≠ k) as Hik by congruence.
  split.
  - apply Forall2_alter_r; [intros; by apply reindexed_add|].
    apply Forall2_alter_r; [intros; by apply reindexed_dep_index|done].
  - intros i' k' Hi' Hk'. rewrite outs_add_dependent by (rewrite length_alter; lia).
    rewrite ins_add_dependent, !outs_set_dep, ins_set_dep.
    destruct (decide (i = i')) as [<-|Hii].
    + rewrite fn_lookup_insert. rewrite (take_S_r _ _ (Z.of_nat k)).
      2:{ apply list_lookup_insert_eq. by eapply lookup_lt_Some. }
      rewrite take_insert_ge by lia. rewrite cnt_app. simpl. specialize (Hcnt i k' Hi Hk').
      rewrite HJ in Hcnt. destruct (decide (k = k')) as [<-|Hkk].
      * rewrite cnt_app, Hcnt. simpl. rewrite !decide_True by done. lia.
      * rewrite Hcnt. rewrite decide_False by lia. lia.
    + rewrite fn_lookup_insert_ne by done. specialize (Hcnt i' k' Hi' Hk').
      case_decide as Hkk; [|done]. subst k'. rewrite cnt_app, Hcnt. simpl.
      rewrite decide_False by lia. lia.
  - intros k' Hk'. rewrite outs_add_dependent by (rewrite length_alter; lia). rewrite !outs_set_dep.
    case_decide; [|by apply Hout]. subst k'. apply Forall_app. split; [by apply Hout|].
    repeat constructor; lia.
  - intros i' j' t' d' Hi' Ht' Hj' Hd'.
    destruct (decide (i' = i)) as [->|Hii].
    + rewrite list_lookup_alter_ne, list_lookup_alter_eq, Ht in Ht' by done. simpl in Ht'. simplify_eq.
      simpl in Hd'. rewrite fn_lookup_insert in Hj'. simpl.
      destruct (decide (j' = J i)) as [->|Hjj].
      * rewrite list_lookup_alter_eq, Hd in Hd'. simpl in Hd'. simplify_eq. simpl.
        assert (∃ tk0, ts0 !! k = Some tk0 ∧ reindexed tk0 tk) as (tk0 & Htk0 & Hr).
        { eapply Forall2_lookup_r in Hfr as (? & ? & ?); [|exact Htk]. eauto. }
        exists k, tk0. rewrite <-(reindexed_name _ _ Hr). done.
      * rewrite list_lookup_alter_ne in Hd' by done. apply (Hnam i j' t d'); [done..|lia|done].
    + rewrite fn_lookup_insert_ne in Hj' by done.
      destruct (decide (i' = k)) as [->|Hkk].
      * rewrite list_lookup_alter_eq, list_lookup_alter_ne, Htk in Ht' by done. simpl in Ht'.
        simplify_eq. simpl in *. by apply (Hnam k j' tk d').
      * rewrite !list_lookup_alter_ne in Ht' by done. by apply (Hnam i' j' t' d').
Qed.

Lemma indexing_ext ts0 n J J' ts :
  (∀ i, (i < n)%nat → J i = J' i) → indexing ts0 n J ts → indexing ts0 n J' ts.
Proof.
  intros HJ [Hfr Hcnt Hout Hnam]. split; [done| |done|].
  - intros i k Hi Hk. rewrite <-HJ by done. by apply Hcnt.
  - intros i j t d Hi. rewrite <-HJ by done. by apply Hnam.
Qed.

Lemma indexing_start ts n :
  loaded ts n → indexing ts n (λ _, 0%nat) ts.
Proof.
  intros [Hn Hl]. split.
  - apply Forall2_same_length_lookup. split; [done|]. intros i x y Hx Hy. simplify_eq.
    apply reindexed_refl.
  - intros i k Hi Hk. unfold outs.
    destruct (lookup_lt_is_Some_2 ts k) as [t Ht]; [lia|]. rewrite Ht. simpl.
    by destruct (Hl k t Hk Ht) as (_ & _ & ->).
  - intros k Hk. unfold outs. destruct (lookup_lt_is_Some_2 ts k) as [t Ht]; [lia|]. rewrite Ht. simpl.
    by destruct (Hl k t Hk Ht) as (_ & _ & ->).
  - intros; lia.
Qed.

(** The initial task behind a task in progress. *)
Lemma indexing_task ts0 n J ts i :
  loaded ts0 n → indexing ts0 n J ts → (i < n)%nat →
  ∃ t0 t, ts0 !! i = Some t0 ∧ ts !! i = Some t ∧ task_loaded t0 ∧ reindexed t0 t.
Proof.
  intros [Hn Hl] Hig Hi. destruct (lookup_lt_is_Some_2 ts0 i) as [t0 Ht0]; [lia|].
  destruct (Forall2_lookup_l _ _ _ _ _ (ig_frame _ _ _ _ Hig) Ht0) as (t & Ht & Hr).
  exists t0, t. by eauto.
Qed.

(** How an indexing step can end: [m0] is the allocator at the start. *)
Definition step_ok ts0 n (m0 : mem) (J : nat → nat)
    (c : ctl (list oph_workflow_task) (Z * list oph_workflow_task)) (m : mem) : Prop :=
  match c with
  | Next ts => indexing ts0 n J ts ∧ (reliable m0 → reliable m)
  | Break (rc, _) =>
      (rc = OPH_WORKFLOW_EXIT_BAD_PARAM_ERROR ∧ ¬ resolvable ts0 n) ∨
      (rc = OPH_WORKFLOW_EXIT_MEMORY_ERROR ∧ ¬ reliable m0)
  end.

Lemma index_dep_spec ts0 n m0 J ts i j t m :
  loaded ts0 n → indexing ts0 n J ts → (i < n)%nat → J i = j → ts !! i = Some t →
  (j < length (deps t))%nat → (reliable m0 → reliable m) →
  wp (index_dep n i ts j) (step_ok ts0 n m0 (<[i := S j]> J)) m.
Proof.
  intros Hld Hig Hi HJ Ht Hj Hm.
  destruct (indexing_task ts0 n J ts i Hld Hig Hi) as (t0 & t' & Ht0 & Ht' & (Hnm & Hdeps & _) & Hr).
  simplify_eq. destruct (lookup_lt_is_Some_2 (deps t) (J i) Hj) as [d Hd].
  assert (∃ d0, deps t0 !! J i = Some d0 ∧ task_name d0 = task_name d) as (d0 & Hd0 & Hdn).
  { pose proof (f_equal (.!! J i) (reindexed_task_names _ _ Hr)) as H. rewrite !list_lookup_fmap, Hd in H.
    simpl in H. symmetry in H. apply fmap_Some in H as (d0 & ? & ?). eauto. }
  assert (d0 ∈ deps t0) as Hin by (by eapply list_elem_of_lookup_2).
  destruct (proj1 (Forall_forall _ _) Hdeps d0 Hin) as [nm Hdnm].
  destruct Hnm as [own Hown].
  unfold index_dep. wp_step. apply (wp_deref _ _ _ _ Ht). wp_step. apply (wp_deref _ _ _ _ Hd).
  unfold strcmp0. rewrite (reindexed_name _ _ Hr), <-Hdn, Hdnm, Hown. wp_steps.
  case_bool_decide as Hself; simpl.
  { apply wp_ret. left. split; [done|]. intros Hres. destruct (Hres i t0 d0 Hi Ht0 Hin) as [Hne _].
    apply Hne. congruence. }
  wp_step. eapply wp_mono; [apply wp_find_task|].
  { intros k Hk%elem_of_seq. destruct (indexing_task ts0 n J ts k Hld Hig) as (k0 & tk & ? & ? & [? _] & Hrk);
      [lia|]. exists tk. split; [done|]. by rewrite (reindexed_name _ _ Hrk). }
  intros [k|] m1 [-> Hk].
  - destruct Hk as [Hk%elem_of_seq (tk & Htk & Hnk)]. wp_step. apply wp_malloc. intros b m2 Hb.
    destruct b; simpl; apply wp_ret.
    + split; [|intros Hrel; by apply Hb, Hm].
      eapply (indexing_step ts0 n J ts i (J i) k t d tk); try done; [lia| | |].
      * rewrite <-(Forall2_length _ _ _ (ig_frame _ _ _ _ Hig)). apply Hld.
      * congruence.
      * rewrite (reindexed_name _ _ Hr). congruence.
    + right. split; [done|]. intros Hrel. by destruct (Hb (Hm Hrel)).
  - apply wp_ret. left. split; [done|]. intros Hres.
    destruct (Hres i t0 d0 Hi Ht0 Hin) as [_ (k & tk0 & Hkn & Htk0 & Hnk)].
    destruct (Forall2_lookup_l _ _ _ _ _ (ig_frame _ _ _ _ Hig) Htk0) as (tk & Htk & Hrk).
    apply (Hk k tk); [apply elem_of_seq; lia|done|]. rewrite (reindexed_name _ _ Hrk). congruence.
Qed.

Lemma index_task_spec ts0 n m0 J ts i t0 m :
  loaded ts0 n → indexing ts0 n J ts → (i < n)%nat → J i = 0%nat → ts0 !! i = Some t0 →
  (reliable m0 → reliable m) →
  wp (index_task n ts i) (step_ok ts0 n m0 (<[i := length (deps t0)]> J)) m.
Proof.
  intros Hld Hig Hi HJ Ht0 Hm.
  assert (∀ J' ts', indexing ts0 n J' ts' → ∃ t, ts' !! i = Some t ∧ length (deps t) = length (deps t0)) as Hlen.
  { intros J' ts' Hig'. destruct (indexing_task ts0 n J' ts' i Hld Hig' Hi) as (t0' & t & ? & Ht & _ & Hr).
    simplify_eq. exists t. split; [done|].
    pose proof (f_equal length (reindexed_task_names _ _ Hr)) as H. by rewrite !length_fmap in H. }
  destruct (Hlen _ _ Hig) as (t & Ht & Hl). unfold index_task. wp_step. apply (wp_deref _ _ _ _ Ht).
  rewrite Hl.
  eapply wp_mono.
  - apply (wp_loopC _ (λ don ts' m', step_ok ts0 n m0 (<[i := length don]> J) (Next ts') m')
      (λ r m', step_ok ts0 n m0 J (Break r) m')).
    + split; [|done]. eapply indexing_ext; [|exact Hig]. intros i' _. simpl.
      destruct (decide (i = i')) as [<-|?]; [by rewrite fn_lookup_insert|by rewrite fn_lookup_insert_ne].
    + intros don j rest ts' m' Hseq [Hig' Hm']. apply seq_app_cons_inv in Hseq as (-> & _ & Hj).
      destruct (Hlen _ _ Hig') as (t' & Ht' & Hl').
      eapply wp_mono; [eapply (index_dep_spec ts0 n m0 _ ts' i _ t'); try done|].
      * by rewrite fn_lookup_insert.
      * lia.
      * intros [ts''|[rc ts'']] m'' Hs; [|exact Hs]. destruct Hs as [Hs ?]. split; [|done].
        eapply indexing_ext; [|exact Hs]. intros i' _. rewrite length_app. simpl.
        destruct (decide (i = i')) as [<-|?]; rewrite ?fn_lookup_insert; [lia|].
        by rewrite !fn_lookup_insert_ne.
  - intros [ts'|[rc ts']] m' Hs; [|exact Hs]. by rewrite length_seq in Hs.
Qed.

Lemma indexing_spec ts n m :
  loaded ts n → n ≠ 0%nat →
  wp (oph_workflow_indexing (Some ts) n) (λ r m',
    ∃ ts', r.2 = Some ts' ∧
    ((r.1 = OPH_WORKFLOW_EXIT_SUCCESS ∧ (reliable m → reliable m') ∧
        indexing ts n (λ i, from_option (λ t, length (deps t)) 0%nat (ts !! i)) ts') ∨
     (r.1 = OPH_WORKFLOW_EXIT_BAD_PARAM_ERROR ∧ ¬ resolvable ts n) ∨
     (r.1 = OPH_WORKFLOW_EXIT_MEMORY_ERROR ∧ ¬ reliable m))) m.
Proof.
  intros Hld Hn. unfold oph_workflow_indexing. rewrite bool_decide_false by done. wp_step.
  eapply wp_mono.
  - apply (wp_loopC _ (λ don ts' m', step_ok ts n m (λ i, if decide (i < length don)%nat then
        from_option (λ t, length (deps t)) 0%nat (ts !! i) else 0%nat) (Next ts') m')
      (λ r m', step_ok ts n m (λ _, 0%nat) (Break r) m')).
    + split; [|done]. eapply indexing_ext; [|by apply indexing_start]. intros i _. simpl.
      done.
    + intros don i rest ts' m' Hseq [Hig Hm]. apply seq_app_cons_inv in Hseq as (-> & _ & Hi).
      destruct (lookup_lt_is_Some_2 ts (length don)) as [t0 Ht0]; [destruct Hld; lia|].
      eapply wp_mono; [eapply (index_task_spec ts n m _ ts' (length don) t0); try done|].
      * cbv beta. by rewrite decide_False by lia.
      * intros [ts''|[rc ts'']] m'' Hs; [|exact Hs]. destruct Hs as [Hs ?]. split; [|done].
        eapply indexing_ext; [|exact Hs]. intros i _. rewrite length_app. simpl.
        destruct (decide (length don = i)) as [<-|?].
        -- rewrite fn_lookup_insert, Ht0, decide_True by lia. done.
        -- rewrite fn_lookup_insert_ne by done. repeat case_decide; done || lia.
  - intros [ts'|[rc ts']] m' Hs; apply wp_ret; exists ts'; (split; [done|]); simpl.
    + left. destruct Hs as [Hs ?]. split_and!; [done..|]. eapply indexing_ext; [|exact Hs].
      intros i Hi. simpl. rewrite length_seq. by rewrite decide_True.
    + by right.
Qed.

(** A finished indexing is dual. *)
Lemma indexing_indexed ts0 n ts :
  loaded ts0 n → indexing ts0 n (λ i, from_option (λ t, length (deps t)) 0%nat (ts0 !! i)) ts →
  indexed ts n.
Proof.
  intros Hld Hig.
  assert (∀ i, (i < n)%nat → from_option (λ t, length (deps t)) 0%nat (ts0 !! i) = length (ins ts i)) as HJ.
  { intros i Hi. destruct (indexing_task _ _ _ _ i Hld Hig Hi) as (t0 & t & Ht0 & Ht & _ & Hr).
    unfold ins. rewrite Ht0, Ht. simpl. rewrite length_fmap.
    pose proof (f_equal length (reindexed_task_names _ _ Hr)) as H. by rewrite !length_fmap in H. }
  split.
  - rewrite <-(Forall2_length _ _ _ (ig_frame _ _ _ _ Hig)). apply Hld.
  - intros i Hi. apply Forall_forall. intros x Hx. unfold ins in Hx.
    destruct (ts !! i) as [t|] eqn:Ht; [|by apply elem_of_nil in Hx]. simpl in Hx.
    apply list_elem_of_fmap in Hx as (d & -> & [j Hj]%list_elem_of_lookup).
    destruct (ig_names _ _ _ _ Hig i j t d Hi Ht) as (k & tk & -> & Hk & _); [|done|lia].
    rewrite HJ by done. unfold ins. rewrite Ht. simpl. rewrite length_fmap. by eapply lookup_lt_Some.
  - apply (ig_outs _ _ _ _ Hig).
  - intros i k Hi Hk. rewrite (ig_count _ _ _ _ Hig i k Hi Hk), HJ by done. by rewrite firstn_all.
Qed.

Lemma indexing_resolvable ts0 n ts :
  loaded ts0 n → indexing ts0 n (λ i, from_option (λ t, length (deps t)) 0%nat (ts0 !! i)) ts →
  resolvable ts0 n.
Proof.
  intros Hld Hig i t0 d0 Hi Ht0 Hd0.
  destruct (indexing_task _ _ _ _ i Hld Hig Hi) as (t0' & t & Ht0' & Ht & _ & Hr). simplify_eq.
  apply list_elem_of_lookup in Hd0 as [j Hj].
  pose proof (f_equal (.!! j) (reindexed_task_names _ _ Hr)) as H.
  rewrite !list_lookup_fmap, Hj in H. simpl in H. apply fmap_Some in H as (d & Hd & Hdn).
  destruct (ig_names _ _ _ _ Hig i j t d Hi Ht) as (k & tk & _ & Hk & Htk & Hnk & Hself).
  - rewrite Ht0. simpl. by eapply lookup_lt_Some.
  - done.
  - rewrite Hdn. rewrite (reindexed_name _ _ Hr) in Hself. split; [done|]. eauto.
Qed.

(** ** Properties *)

(** C26: on the tasks of a loaded workflow [oph_workflow_indexing] never touches a
    cell out of range; it succeeds, given memory, exactly when every dependency
    names a task other than its own; on success every dependency carries the index
    of a task with the name it asks for, the lists of dependents are dual to the
    dependencies, and nothing else of the tasks changes. *)
Theorem indexing_correct (ts : list oph_workflow_task) (n : nat) (m : mem) :
  loaded ts n → n ≠ 0%nat →
  wp (oph_workflow_indexing (Some ts) n) (λ r _, ∃ ts', r.2 = Some ts' ∧
    (reliable m → r.1 = OPH_WORKFLOW_EXIT_SUCCESS ↔ resolvable ts n) ∧
    (r.1 = OPH_WORKFLOW_EXIT_SUCCESS →
       indexed ts' n ∧ Forall2 reindexed ts ts' ∧
       ∀ i t d, (i < n)%nat → ts' !! i = Some t → d ∈ deps t →
         ∃ k tk, task_index d = Z.of_nat k ∧ (k < n)%nat ∧ k ≠ i ∧
           ts !! k = Some tk ∧ name tk = task_name d)) m.
Proof.
  intros Hld Hn. eapply wp_mono; [by apply indexing_spec|].
  intros [rc o] m' (ts' & Ho & Hr); simpl in *. exists ts'. split; [done|].
  destruct Hr as [(-> & _ & Hig)|[(-> & Hres)|(-> & Hrel)]]; [|done|done].
  pose proof (indexing_resolvable _ _ _ Hld Hig) as Hres.
  split; [done|]. intros _. split_and!; [by eapply indexing_indexed|apply Hig|].
  intros i t d Hi Ht [j Hj]%list_elem_of_lookup.
  destruct (indexing_task _ _ _ _ i Hld Hig Hi) as (t0 & t' & Ht0 & Ht' & _ & Hr). simplify_eq.
  destruct (ig_names _ _ _ _ Hig i j t d Hi Ht) as (k & tk & Hk & Hkn & Htk & Hnk & Hself); [|done|].
  { rewrite Ht0. simpl. pose proof (f_equal length (reindexed_task_names _ _ Hr)) as H.
    rewrite !length_fmap in H. rewrite <-H. by eapply lookup_lt_Some. }
  exists k, tk. split_and!; try done. intros ->. apply Hself.
  rewrite <-Hnk, (reindexed_name _ _ Hr). congruence.
Qed.

(** Two tasks, the second depending on the first. *)
Definition dep_on (nm : string) : oph_workflow_dep := Dep None None (Some nm) (-1) None None None None.
Definition named_task (nm : string) (ds : list string) : oph_workflow_task :=
  set_name (Some nm) (set_deps (dep_on <$> ds) zero_task).
Definition sample_tasks : list oph_workflow_task := [named_task "A" []; named_task "B" ["A"]; zero_task].

Lemma sample_tasks_loaded : loaded sample_tasks 2.
Proof.
  split; [simpl; lia|]. intros i t Hi Ht. destruct i as [|[|i]]; [| |lia]; simplify_eq/=;
    (split; [by eexists|split; [repeat constructor; by eexists|done]]).
Qed.

Lemma indexing_correct_witness :
  wp (oph_workflow_indexing (Some sample_tasks) 2) (λ r _, ∃ ts', r.2 = Some ts' ∧
    (reliable [] → r.1 = OPH_WORKFLOW_EXIT_SUCCESS ↔ resolvable sample_tasks 2) ∧
    (r.1 = OPH_WORKFLOW_EXIT_SUCCESS →
       indexed ts' 2 ∧ Forall2 reindexed sample_tasks ts' ∧
       ∀ i t d, (i < 2)%nat → ts' !! i = Some t → d ∈ deps t →
         ∃ k tk, task_index d = Z.of_nat k ∧ (k < 2)%nat ∧ k ≠ i ∧
           sample_tasks !! k = Some tk ∧ name tk = task_name d)) [].
Proof. apply (indexing_correct sample_tasks 2); [apply sample_tasks_loaded|lia]. Defined.

End WfSetup.
