(* ===== verification/WfDag.v ===== *)
(** * The acyclicity check of [oph_workflow_validate]

    Kahn's algorithm as [WfSetup.check_dag] runs it: the invariant of the queue and
    of the removed edges, and the decision it takes.  On an indexed workflow the
    check never leaves the edge arrays, finishes within one visit per task, and
    accepts exactly the acyclic graphs. *)

From Stdlib Require Ascii.
From stdpp Require Import base gmap strings numbers relations functions sets list.
From S2P Require Import Prelude CString HashTbl Trash WfStructs WfSetup.
Import (notations) Stdlib.Strings.Ascii.
Import WfStructs WfSetup.

Module WfDag.

Open Scope Z_scope.

(** Task [i] waits for task [k]. *)
Definition depends (ts : list oph_workflow_task) (n k i : nat) : Prop :=
  (k < n)%nat ∧ (i < n)%nat ∧ Z.of_nat k ∈ ins ts i.

Definition acyclic (ts : list oph_workflow_task) (n : nat) : Prop :=
  ∀ i, ¬ tc (depends ts n) i i.

Section kahn.
Context (ts : list oph_workflow_task) (n : nat).
Context (Hix : indexed ts n).

(** What a node of the graph holds when the out-edges [r] of task [i] are left. *)
Record node_ok (i : nat) (r : list Z) (nd : workflow_node) : Prop := {
  nk_index : index nd = Z.of_nat i;
  nk_in_num : in_edges_num nd = Z.of_nat (live (in_edges nd));
  nk_in : Forall (λ x, x = -1 ∨ 0 ≤ x < Z.of_nat n) (in_edges nd);
  nk_out_num : out_edges_num nd = Z.of_nat (length r);
  nk_out : out_edges nd = replicate (length (outs ts i) - length r) (-1) ++ r;
}.

(** [D]: the nodes taken from the queue; [s]: the queue; [R k]: the edges out of
    task [k] that are not removed yet; [g]: the graph. *)
Record kahn (D s : list nat) (R : nat → list Z) (g : list workflow_node) : Prop := {
  kh_length : length g = n;
  kh_node : ∀ i nd, g !! i = Some nd → node_ok i (R i) nd;
  kh_suffix : ∀ k, R k `suffix_of` outs ts k;
  kh_count : ∀ i nd k, g !! i = Some nd → (k < n)%nat →
    cnt (Z.of_nat k) (in_edges nd) = cnt (Z.of_nat i) (R k);
  kh_nodup : NoDup (D ++ s);
  kh_bound : ∀ v, v ∈ D ++ s → (v < n)%nat;
  kh_ready : ∀ v nd, g !! v = Some nd → v ∈ D ++ s ↔ in_edges_num nd = 0;
  kh_topo : ∀ l1 v l2, D ++ s = l1 ++ v :: l2 → ∀ k, depends ts n k v → k ∈ l1;
  kh_fresh : ∀ k, (k < n)%nat → k ∉ D → R k = outs ts k;
}.

Lemma kahn_size D s R g : kahn D s R g → (length (D ++ s) ≤ n)%nat.
Proof.
  intros Hk. rewrite <-(length_seq n 0). apply submseteq_length, NoDup_submseteq; [apply Hk|].
  intros v Hv. apply elem_of_seq. pose proof (kh_bound _ _ _ _ Hk v Hv). lia.
Qed.

Lemma depends_count k i :
  (k < n)%nat → (i < n)%nat → depends ts n k i ↔ (0 < cnt (Z.of_nat i) (outs ts k))%nat.
Proof.
  intros Hk Hi. rewrite <-(ix_dual _ _ Hix), cnt_pos by done. unfold depends. tauto.
Qed.

Lemma cnt_suffix x l l' : l `suffix_of` l' → (cnt x l ≤ cnt x l')%nat.
Proof. intros [p ->]. rewrite cnt_app. lia. Qed.

(** The next edge of the node in progress. *)
Lemma kahn_edge D s R g p e rest nd :
  kahn D s R g → (p < n)%nat → g !! p = Some nd → R p = e :: rest →
  0 ≤ e < Z.of_nat n ∧
  out_edges nd !! (length (outs ts p) - length (R p))%nat = Some e ∧
  node_ok p rest (drop_out (length (outs ts p) - length (R p))%nat nd) ∧
  ∃ j tgt, e = Z.of_nat j ∧ g !! j = Some tgt ∧ (j < n)%nat ∧
    Z.of_nat p ∈ in_edges tgt.
Proof.
  intros Hk Hp Hnd HR. pose proof (kh_node _ _ _ _ Hk p nd Hnd) as [Hi Hin Hfa Hon Hout].
  pose proof (kh_suffix _ _ _ _ Hk p) as Hsuf.
  assert (0 ≤ e < Z.of_nat n) as He.
  { destruct Hsuf as [pre Hpre]. pose proof (ix_outs _ _ Hix p Hp) as Hall.
    rewrite Hpre, HR in Hall. apply Forall_app in Hall as [_ Hall]. by apply Forall_cons in Hall as [? _]. }
  assert (length (R p) ≤ length (outs ts p))%nat as Hle by (by apply suffix_length).
  assert (out_edges nd !! (length (outs ts p) - length (R p))%nat = Some e) as He'.
  { rewrite Hout, lookup_app_r by (rewrite length_replicate; lia).
    by rewrite length_replicate, Nat.sub_diag, HR. }
  split_and!; [lia|lia|done| |].
  - split; simpl; try done.
    + rewrite Hon, HR. simpl. lia.
    + rewrite Hout, HR in *. simpl in *. rewrite insert_app_r_alt by (rewrite length_replicate; lia).
      rewrite length_replicate, Nat.sub_diag. simpl.
      replace (length (outs ts p) - length rest)%nat with (S (length (outs ts p) - S (length rest))) by lia.
      rewrite replicate_S_end, <-app_assoc. done.
  - exists (Z.to_nat e). destruct (lookup_lt_is_Some_2 g (Z.to_nat e)) as [tgt Htgt].
    { rewrite (kh_length _ _ _ _ Hk). lia. }
    exists tgt. split_and!; [lia|done|lia|]. apply cnt_pos.
    rewrite (kh_count _ _ _ _ Hk _ _ p Htgt Hp), HR. simpl. rewrite decide_True by lia. lia.
Qed.

Lemma cnt_live x l : x ≠ -1 → (cnt x l ≤ live l)%nat.
Proof. intros Hx. induction l; simpl; [done|]. repeat case_decide; subst; lia || congruence. Qed.

(** Removing it keeps the invariant; its target joins the queue with its last edge. *)
Lemma kahn_step D s R g p e rest nd j tgt l :
  kahn (D ++ [p]) s R g → (p < n)%nat → (j < n)%nat →
  g !! p = Some nd → R p = e :: rest → e = Z.of_nat j → g !! j = Some tgt →
  remove_in (Z.of_nat p) (in_edges tgt) = Some l → live (in_edges tgt) = S (live l) →
  (∀ x, x ≠ -1 → (cnt x (in_edges tgt) = cnt x l + (if decide (x = Z.of_nat p) then 1 else 0))%nat) →
  (∀ x, x ∈ l → x = -1 ∨ x ∈ in_edges tgt) →
  node_ok p rest (drop_out (length (outs ts p) - length (R p))%nat nd) →
  j ≠ p ∧ in_edges_num (drop_in l tgt) = Z.of_nat (live l) ∧
  kahn (D ++ [p]) (if decide (live l = 0%nat) then s ++ [j] else s) (<[p := rest]> R)
    (<[j := drop_in l tgt]> (<[p := drop_out (length (outs ts p) - length (R p))%nat nd]> g)).
Proof.
  intros Hk Hp Hj Hnd HR He Htgt Hrem Hlive Hcnt Hsub Hok.
  pose proof (kh_node _ _ _ _ Hk j tgt Htgt) as [Hti Htin Htfa Hton Htout].
  assert (j ∉ (D ++ [p]) ++ s) as Hjn.
  { rewrite (kh_ready _ _ _ _ Hk j tgt Htgt). lia. }
  assert (j ≠ p) as Hjp by (intros ->; apply Hjn; set_solver).
  set (R' := <[p := rest]> R).
  set (g' := <[j := drop_in l tgt]> (<[p := drop_out (length (outs ts p) - length (R p))%nat nd]> g)).
  assert (∀ i nd', g' !! i = Some nd' → ∃ nd0, g !! i = Some nd0 ∧ node_ok i (R' i) nd' ∧
     in_edges_num nd' = (if decide (i = j) then Z.of_nat (live l) else in_edges_num nd0) ∧
     in_edges nd' = (if decide (i = j) then l else in_edges nd0)) as Hg'.
  { intros i nd' Hnd'. unfold g' in Hnd'. destruct (decide (i = j)) as [->|Hij].
    - rewrite list_lookup_insert_eq in Hnd' by (rewrite length_insert, (kh_length _ _ _ _ Hk); done).
      simplify_eq. exists tgt. split_and!; [done| |simpl; lia|done].
      unfold R'. rewrite fn_lookup_insert_ne by done. split; simpl; try done; [lia|].
      apply Forall_forall. intros x [->|Hx]%Hsub; [by left|]. by eapply Forall_forall in Htfa.
    - rewrite list_lookup_insert_ne in Hnd' by done. destruct (decide (i = p)) as [->|Hip].
      + rewrite list_lookup_insert_eq in Hnd' by (rewrite (kh_length _ _ _ _ Hk); done).
        simplify_eq. exists nd. unfold R'. by rewrite fn_lookup_insert.
      + rewrite list_lookup_insert_ne in Hnd' by done. exists nd'. unfold R'.
        rewrite fn_lookup_insert_ne by done. split_and!; [done| |done..]. by eapply kh_node. }
  assert (∀ k, cnt (Z.of_nat j) (R k) = (cnt (Z.of_nat j) (R' k) + (if decide (k = p) then 1 else 0))%nat
     ∧ ∀ i, i ≠ j → cnt (Z.of_nat i) (R k) = cnt (Z.of_nat i) (R' k)) as HRR.
  { intros k. unfold R'. destruct (decide (k = p)) as [->|Hkp].
    - rewrite fn_lookup_insert, HR. simpl. rewrite decide_True by lia. split; [lia|].
      intros i Hi. by rewrite decide_False by lia.
    - rewrite fn_lookup_insert_ne by done. split; [lia|done]. }
  split_and!; [done|simpl; lia|]. split.
  - unfold g'. rewrite !length_insert. apply Hk.
  - intros i nd' Hi. by destruct (Hg' i nd' Hi) as (? & _ & ? & _).
  - intros k. pose proof (kh_suffix _ _ _ _ Hk k) as Hs. unfold R'. destruct (decide (k = p)) as [->|Hkp].
    + rewrite fn_lookup_insert. rewrite HR in Hs. by eapply suffix_cons_l.
    + by rewrite fn_lookup_insert_ne.
  - intros i nd' k Hi Hkn. destruct (Hg' i nd' Hi) as (nd0 & Hnd0 & _ & _ & ->).
    pose proof (kh_count _ _ _ _ Hk i nd0 k Hnd0 Hkn) as Hc. destruct (HRR k) as [Hj1 Hj2].
    destruct (decide (i = j)) as [->|Hij]; [|by rewrite <-Hj2].
    simplify_eq. specialize (Hcnt (Z.of_nat k)). rewrite Hcnt, Hj1 in Hc by lia.
    repeat case_decide; lia.
  - case_decide; [|apply Hk]. rewrite app_assoc. apply NoDup_app. split_and!; [apply Hk| |apply NoDup_singleton].
    intros x Hx ->%list_elem_of_singleton. done.
  - intros v Hv. destruct (decide (live l = 0%nat)); [|by eapply kh_bound].
    rewrite app_assoc in Hv. apply elem_of_app in Hv as [Hv| ->%list_elem_of_singleton]; [by eapply kh_bound|done].
  - intros v nd' Hv. destruct (Hg' v nd' Hv) as (nd0 & Hnd0 & _ & -> & _).
    pose proof (kh_ready _ _ _ _ Hk v nd0 Hnd0) as Hr.
    destruct (decide (v = j)) as [->|Hvj].
    + case_decide; [|split; [done|lia]]. split; [lia|]. intros _. set_solver.
    + case_decide; [|done]. rewrite app_assoc, elem_of_app, Hr, list_elem_of_singleton. naive_solver.
  - intros l1 v l2 Hl k Hd. case_decide as Hz; [|by eapply kh_topo].
    rewrite app_assoc in Hl. induction l2 as [|y l2 _] using rev_ind.
    + apply app_inj_tail in Hl as [<- <-]. destruct Hd as (Hkn & _ & Hd).
      apply elem_of_app. left. destruct (decide (k ∈ D ++ [p])) as [|Hno]; [done|].
      assert (g' !! j = Some (drop_in l tgt)) as Hlk.
      { unfold g'. apply list_lookup_insert_eq. rewrite length_insert, (kh_length _ _ _ _ Hk). done. }
      apply cnt_pos in Hd. rewrite (ix_dual _ _ Hix) in Hd by done.
      rewrite <-(kh_fresh _ _ _ _ Hk k Hkn Hno), <-(kh_count _ _ _ _ Hk j tgt k Htgt Hkn), Hcnt in Hd by lia.
      pose proof (cnt_live (Z.of_nat k) l). case_decide; [|lia].
      exfalso. apply Hno. replace k with p by lia. set_solver.
    + rewrite app_comm_cons, app_assoc in Hl. apply app_inj_tail in Hl as [Hl _]. by eapply kh_topo.
  - intros k Hkn Hno. unfold R'. rewrite fn_lookup_insert_ne by set_solver. by eapply kh_fresh.
Qed.

(** A failure of the allocator ends the check with an error code. *)
Definition broken (m0 : mem) (rc : Z) : Prop := rc ≠ OPH_WORKFLOW_EXIT_SUCCESS ∧ ¬ reliable m0.

(** Between two visits: the edges of the visited nodes are removed. *)
Definition between (m0 : mem) (D s : list nat) (g : list workflow_node) (m : mem) : Prop :=
  ∃ R, kahn D s R g ∧ (∀ k, k ∈ D → R k = []) ∧ (reliable m0 → reliable m).

(** During the visit of [p], [i] of its edges being removed. *)
Definition visiting (m0 : mem) (D : list nat) (p i : nat) (st : list workflow_node * workflow_s_nodes)
    (m : mem) : Prop :=
  ∃ R, kahn (D ++ [p]) st.2 R st.1 ∧ (∀ k, k ∈ D → R k = []) ∧
    length (R p) = (length (outs ts p) - i)%nat ∧ (reliable m0 → reliable m).

Lemma visit_edge_spec m0 D p st i m :
  visiting m0 D p i st m → p ∉ D → (p < n)%nat → (i < length (outs ts p))%nat →
  wp (visit_edge p st i) (λ c m', match c with
    | Next st' => visiting m0 D p (S i) st' m'
    | Break rc => broken m0 rc
    end) m.
Proof.
  intros (R & Hk & HD & HR & Hm) HpD Hp Hi. destruct st as [g s]; simpl in *.
  destruct (lookup_lt_is_Some_2 g p) as [nd Hnd]; [by rewrite (kh_length _ _ _ _ Hk)|].
  destruct (R p) as [|e rest] eqn:HRp; [simpl in HR; lia|].
  destruct (kahn_edge _ _ _ _ p e rest nd Hk Hp Hnd HRp) as (He & Hout & Hok & j & tgt & Hej & Htgt & Hj & Hin).
  destruct (remove_in_spec _ _ Hin) as (l & Hrem & Hlive & Hcnt & Hsub); [lia|].
  destruct (kahn_step _ _ _ _ p e rest nd j tgt l Hk Hp Hj Hnd HRp Hej Htgt Hrem Hlive Hcnt Hsub Hok)
    as (Hjp & Hnum & Hk').
  rewrite HRp in Hout, Hk'. replace (length (outs ts p) - length (e :: rest))%nat with i in * by lia.
  unfold visit_edge. wp_step. apply (wp_deref _ _ _ _ Hnd). wp_step. apply (wp_deref _ _ _ _ Hout).
  rewrite (proj2 (Z.eqb_neq e (-1))) by lia. wp_step. apply wp_deref with tgt.
  { unfold cell. rewrite (proj2 (Z.ltb_ge e 0)), Hej, Nat2Z.id by lia. by rewrite list_lookup_insert_ne. }
  rewrite (nk_index _ _ _ (kh_node _ _ _ _ Hk p nd Hnd)), Hrem. cbv beta iota zeta. change (in_edges_num tgt - 1) with (in_edges_num (drop_in l tgt)). rewrite Hnum.
  replace (set_cell _ e _) with (<[j:=drop_in l tgt]> (<[p:=drop_out i nd]> g)).
  2:{ unfold set_cell. by rewrite (proj2 (Z.ltb_ge e 0)), Hej, Nat2Z.id by lia. }
  assert (∀ s' m', kahn (D ++ [p]) s' (<[p:=rest]> R) (<[j:=drop_in l tgt]> (<[p:=drop_out i nd]> g)) →
    (reliable m0 → reliable m') →
    visiting m0 D p (S i) (<[j:=drop_in l tgt]> (<[p:=drop_out i nd]> g), s') m') as Hdone.
  { intros s' m' Hk2 Hm2. exists (<[p:=rest]> R). split_and!; [done| | |done].
    - intros k HkD. rewrite fn_lookup_insert_ne by (intros ->; done). by apply HD.
    - rewrite fn_lookup_insert. simpl in *. lia. }
  destruct (decide (live l = 0%nat)) as [Hz|Hz].
  - rewrite (proj2 (Z.eqb_eq _ _)) by lia. unfold workflow_s_add. wp_step. wp_step. apply wp_malloc.
    intros b m1 Hb. wp_step. destruct b; simpl; wp_step.
    + rewrite Hej, Nat2Z.id. apply Hdone; [done|]. intros Hrel. by apply Hb, Hm.
    + split; [done|]. intros Hrel. by destruct (Hb (Hm Hrel)).
  - rewrite (proj2 (Z.eqb_neq _ _)) by lia. wp_step. by apply Hdone.
Qed.

Lemma kahn_out_length D s R g p nd :
  kahn D s R g → g !! p = Some nd → length (out_edges nd) = length (outs ts p).
Proof.
  intros Hk Hnd. rewrite (nk_out _ _ _ (kh_node _ _ _ _ Hk p nd Hnd)), length_app, length_replicate.
  pose proof (suffix_length _ _ (kh_suffix _ _ _ _ Hk p)). lia.
Qed.

(** Taking the head of the queue starts a visit. *)
Lemma between_visiting m0 D p s g m :
  between m0 D (p :: s) g m → visiting m0 D p 0 (g, s) m ∧ p ∉ D ∧ (p < n)%nat.
Proof.
  intros (R & Hk & HD & Hm). pose proof (kh_nodup _ _ _ _ Hk) as Hnd.
  apply NoDup_app in Hnd as (_ & Hdis & _).
  assert (p ∉ D) as HpD by (intros ?; by apply (Hdis p); [|left]).
  assert (p < n)%nat as Hp by (eapply kh_bound; [done|set_solver]).
  split_and!; [|done|done]. exists R. simpl. split_and!; [|done| |done].
  - destruct Hk as [H1 H2 H3 H4 H5 H6 H7 H8 H9].
    assert ((D ++ [p]) ++ s = D ++ p :: s) as E by (by rewrite <-app_assoc).
    split; rewrite ?E; try done. intros k Hkn Hno. apply H9; [done|set_solver].
  - rewrite (kh_fresh _ _ _ _ Hk p Hp HpD). lia.
Qed.

Lemma topological_sort_spec m0 fuel D s g m :
  between m0 D s g m → (n < fuel + length D)%nat →
  wp (topological_sort fuel g s) (λ c m', match c with
    | Next g' => ∃ D', between m0 D' [] g' m'
    | Break rc => broken m0 rc
    end) m.
Proof.
  revert D s g m. induction fuel as [|fuel IH]; intros D s g m Hb Hf.
  { destruct Hb as (R & Hk & _). apply kahn_size in Hk. rewrite length_app in Hk. lia. }
  destruct s as [|p s]; simpl; [wp_step; by exists D|].
  destruct (between_visiting _ _ _ _ _ _ Hb) as (Hv & HpD & Hp).
  destruct Hv as (R & Hk & HD & HR & Hm). simpl in Hk.
  destruct (lookup_lt_is_Some_2 g p) as [nd Hnd]; [by rewrite (kh_length _ _ _ _ Hk)|].
  wp_step. apply (wp_deref _ _ _ _ Hnd). wp_step. rewrite (kahn_out_length _ _ _ _ _ _ Hk Hnd).
  eapply wp_mono.
  - apply (wp_loopC _ (λ don st m', visiting m0 D p (length don) st m') (λ rc _, broken m0 rc)).
    + by exists R.
    + intros don i rest st m1 Hseq Hv. apply seq_app_cons_inv in Hseq as (-> & _ & Hi).
      rewrite length_app. simpl. rewrite Nat.add_1_r. by apply visit_edge_spec.
  - intros [[g' s']|rc] m1 Hr; [|by wp_step].
    destruct Hr as (R' & Hk' & HD' & HR' & Hm'). rewrite length_seq, Nat.sub_diag in HR'.
    apply (IH (D ++ [p])); [|rewrite length_app; simpl; lia].
    exists R'. split_and!; [done| |done]. intros k [Hkk| ->%list_elem_of_singleton]%elem_of_app; [by apply HD'|].
    by apply nil_length_inv.
Qed.

Lemma ins_outs_task i t : ts !! i = Some t → ins ts i = (task_index <$> deps t) ∧ outs ts i = dependents_indexes t.
Proof. intros Ht. unfold ins, outs. by rewrite Ht. Qed.

(** The node of a task. *)
Definition fresh_node (i : nat) : workflow_node :=
  WNode (outs ts i) (Z.of_nat (length (outs ts i))) (ins ts i) (Z.of_nat (length (ins ts i))) (Z.of_nat i).

Lemma wp_graph_node t i (Q : option workflow_node → mem → Prop) m :
  ts !! i = Some t →
  (∀ m', (reliable m → reliable m') → Q (Some (fresh_node i)) m') →
  (∀ m', ¬ reliable m → Q None m') →
  wp (graph_node t i) Q m.
Proof.
  intros Ht HS HN. destruct (ins_outs_task i t Ht) as [Hi Ho]. unfold graph_node.
  assert (∀ (b : bool) m0 (Q' : bool → mem → Prop),
    (∀ ok m', (reliable m0 → ok = true ∧ reliable m') → Q' ok m') →
    wp (if b then malloc else mret true) Q' m0) as Hopt.
  { intros [] m0 Q' HQ; [by apply wp_malloc|apply wp_ret; by apply HQ]. }
  wp_step. apply Hopt. intros b1 m1 H1. destruct b1; simpl; [|apply wp_ret, HN; intros Hr; by destruct (H1 Hr)].
  wp_step. apply Hopt. intros b2 m2 H2. destruct b2; simpl.
  - apply wp_ret. unfold fresh_node in HS. rewrite Hi, Ho, length_fmap in HS. apply HS.
    intros Hr. by apply H2, H1.
  - apply wp_ret, HN. intros Hr. by destruct (H2 (proj2 (H1 Hr))).
Qed.

Lemma build_graph_spec m :
  wp (build_graph ts n) (λ c m', match c with
    | Next g => g = fresh_node <$> seq 0 n ∧ (reliable m → reliable m')
    | Break rc => broken m rc
    end) m.
Proof.
  unfold build_graph. wp_step. apply wp_malloc. intros b m1 Hb.
  destruct b; simpl; [|wp_step; split; [done|intros Hr; by destruct (Hb Hr)]].
  apply (wp_loopC _ (λ don g m', g = fresh_node <$> don ∧ (reliable m → reliable m'))
    (λ rc _, broken m rc)); [split; [done|apply Hb]|].
  intros don i rest g m2 Hseq [-> Hm]. apply seq_app_cons_inv in Hseq as (-> & _ & Hi).
  destruct (lookup_lt_is_Some_2 ts (length don)) as [t Ht]; [pose proof (ix_length _ _ Hix); lia|].
  wp_step. apply (wp_deref _ _ _ _ Ht). wp_step. apply (wp_graph_node _ _ _ _ Ht).
  - intros m3 Hm3. wp_step. split; [by rewrite fmap_app|]. intros Hr. by apply Hm3, Hm.
  - intros m3 Hm3. wp_step. split; [done|]. intros Hr. by apply Hm3, Hm.
Qed.

Lemma fresh_lookup i nd :
  (fresh_node <$> seq 0 n) !! i = Some nd → nd = fresh_node i ∧ (i < n)%nat.
Proof.
  rewrite list_lookup_fmap. intros (j & [-> Hj]%lookup_seq & ->)%fmap_Some. done.
Qed.

Lemma fresh_node_ok i : (i < n)%nat → node_ok i (outs ts i) (fresh_node i).
Proof.
  intros Hi. split; simpl; try done.
  - by rewrite (live_bound (Z.of_nat n)) by by apply ix_ins.
  - eapply Forall_impl; [by apply (ix_ins _ _ Hix)|]. simpl. tauto.
  - by rewrite Nat.sub_diag.
Qed.

(** The start: the queue holds the tasks without dependencies. *)
Lemma between_start m0 m s :
  NoDup s → (∀ v, v ∈ s ↔ (v < n)%nat ∧ ins ts v = []) → (reliable m0 → reliable m) →
  between m0 [] s (fresh_node <$> seq 0 n) m.
Proof.
  intros Hnd Hs Hm. exists (outs ts). split_and!; [|by intros k ?%elem_of_nil|done]. split; simpl.
  - by rewrite length_fmap, length_seq.
  - intros i nd [-> Hi]%fresh_lookup. by apply fresh_node_ok.
  - done.
  - intros i nd k [-> Hi]%fresh_lookup Hk. by apply (ix_dual _ _ Hix).
  - done.
  - intros v Hv. by apply Hs.
  - intros v nd [-> Hv]%fresh_lookup. rewrite Hs. simpl. split.
    + intros [_ ->]. done.
    + intros Hl. split; [done|]. apply nil_length_inv. lia.
  - intros l1 v l2 -> k (_ & _ & Hk). assert (ins ts v = []) as Hv by (apply Hs; set_solver).
    rewrite Hv in Hk. by apply elem_of_nil in Hk.
  - done.
Qed.

Lemma initial_queue_spec m0 m :
  (reliable m0 → reliable m) →
  wp (initial_queue (fresh_node <$> seq 0 n) n) (λ c m', match c with
    | Next s => between m0 [] s (fresh_node <$> seq 0 n) m'
    | Break rc => broken m0 rc
    end) m.
Proof.
  intros Hm. unfold initial_queue. eapply wp_mono.
  - apply (wp_loopC _ (λ don s m', s = filter (λ v, ins ts v = []) don ∧ (reliable m0 → reliable m'))
      (λ rc _, broken m0 rc)); [done|].
    intros don i rest s m2 Hseq [-> Hm2]. apply seq_app_cons_inv in Hseq as (Hlen & _ & Hi).
    wp_step. apply wp_deref with (fresh_node i).
    { rewrite list_lookup_fmap, lookup_seq_lt by done. done. }
    rewrite filter_app. simpl in_edges_num. destruct (ins ts i) as [|x l] eqn:Hins.
    + simpl. unfold workflow_s_add. wp_step. wp_step. apply wp_malloc. intros b m3 Hb.
      wp_step. destruct b; simpl; wp_step.
      * rewrite filter_cons_True, filter_nil by done. split; [done|]. intros Hr. by apply Hb, Hm2.
      * split; [done|]. intros Hr. by destruct (Hb (Hm2 Hr)).
    + simpl. wp_step. rewrite filter_cons_False, filter_nil, app_nil_r by (by rewrite Hins). done.
  - intros [s|rc] m2 H; [|done]. destruct H as [-> Hm2]. apply between_start; [| |done].
    + apply NoDup_filter, NoDup_seq.
    + intros v. rewrite list_elem_of_filter, elem_of_seq. naive_solver lia.
Qed.

(** The visited tasks come in a topological order. *)
Lemma kahn_order D R g k v :
  kahn D [] R g → tc (depends ts n) k v → ∀ l1 l2, D = l1 ++ v :: l2 → k ∈ l1.
Proof.
  intros Hk. induction 1 as [k v Hd|k x v Hd _ IH]; intros l1 l2 HD.
  - eapply (kh_topo _ _ _ _ Hk l1 v l2); [by rewrite app_nil_r|done].
  - destruct (list_elem_of_split l1 x) as (a & b & ->); [by eapply IH|].
    assert (k ∈ a); [|set_solver].
    eapply (kh_topo _ _ _ _ Hk a x (b ++ v :: l2)); [|done].
    by rewrite app_nil_r, HD, <-app_assoc.
Qed.

Lemma kahn_acyclic D R g :
  kahn D [] R g → (∀ v, (v < n)%nat → v ∈ D) → acyclic ts n.
Proof.
  intros Hk Hall i Htc. assert (i < n)%nat as Hi by (inv Htc; match goal with H : depends _ _ _ _ |- _ => apply H end).
  destruct (list_elem_of_split D i) as (l1 & l2 & HD); [by apply Hall|].
  pose proof (kahn_order _ _ _ _ _ Hk Htc l1 l2 HD) as Hin.
  pose proof (kh_nodup _ _ _ _ Hk) as Hnd. rewrite app_nil_r, HD in Hnd.
  apply NoDup_app in Hnd as (_ & Hdis & _). apply (Hdis i Hin). left.
Qed.

Lemma acyclic_sn : acyclic ts n → ∀ v, sn (flip (depends ts n)) v.
Proof.
  intros Hac v.
  assert (∀ x y, tc (flip (depends ts n)) x y → tc (depends ts n) y x ∧ (y < n)%nat) as Hflip.
  { induction 1 as [x y H|x z y H _ [IH ?]]; [split; [by apply tc_once|apply H]|].
    split; [by eapply tc_r|done]. }
  apply tc_finite_sn.
  - intros x Hx. by apply (Hac x), Hflip.
  - eapply pred_finite_impl; [apply (pred_finite_lt n)|]. intros x Hx. by apply (Hflip v x).
Qed.

(** An unvisited task waits for an unvisited task. *)
Lemma kahn_complete D R g :
  kahn D [] R g → (∀ k, k ∈ D → R k = []) → acyclic ts n → ∀ v, (v < n)%nat → v ∈ D.
Proof.
  intros Hk HD Hac v. induction (acyclic_sn Hac v) as [v _ IH]. intros Hv.
  destruct (decide (v ∈ D)) as [|Hno]; [done|exfalso].
  destruct (lookup_lt_is_Some_2 g v) as [nd Hnd]; [by rewrite (kh_length _ _ _ _ Hk)|].
  pose proof (kh_ready _ _ _ _ Hk v nd Hnd) as Hr. rewrite app_nil_r in Hr.
  destruct (kh_node _ _ _ _ Hk v nd Hnd) as [_ Hnum Hfa _ _].
  rewrite Hr in Hno. destruct (live_pos (in_edges nd)) as (x & Hx & Hx1); [lia|].
  destruct (proj1 (Forall_forall _ _) Hfa x Hx) as [|Hxn]; [done|].
  set (k := Z.to_nat x). assert (x = Z.of_nat k) as Exk by lia. assert (k < n)%nat as Hkn by lia.
  apply cnt_pos in Hx. rewrite Exk, (kh_count _ _ _ _ Hk v nd k Hnd Hkn) in Hx.
  assert (depends ts n k v) as Hdep.
  { apply depends_count; [done..|]. pose proof (cnt_suffix (Z.of_nat v) _ _ (kh_suffix _ _ _ _ Hk k)). lia. }
  pose proof (IH k Hdep Hkn) as HkD. rewrite (HD k HkD) in Hx. simpl in Hx. lia.
Qed.

(** No edge is left exactly when every task was visited. *)
Lemma edges_left_spec D R g m :
  kahn D [] R g → (∀ k, k ∈ D → R k = []) →
  wp (edges_left g n) (λ b m', m' = m ∧ (b = false ↔ ∀ v, (v < n)%nat → v ∈ D)) m.
Proof.
  intros Hk HD. unfold edges_left. wp_step. eapply wp_mono.
  - apply (wp_loopC _ (λ don _ m', m' = m ∧ ∀ v, v ∈ don → v ∈ D)
      (λ _ m', m' = m ∧ ∃ v, (v < n)%nat ∧ v ∉ D)); [split; [done|by intros v ?%elem_of_nil]|].
    intros don i rest _ m2 Hseq [-> Hdon]. apply seq_app_cons_inv in Hseq as (Hlen & _ & Hi).
    destruct (lookup_lt_is_Some_2 g i) as [nd Hnd]; [by rewrite (kh_length _ _ _ _ Hk)|].
    wp_step. apply (wp_deref _ _ _ _ Hnd). wp_step.
    pose proof (kh_ready _ _ _ _ Hk i nd Hnd) as Hr. rewrite app_nil_r in Hr.
    pose proof (nk_out_num _ _ _ (kh_node _ _ _ _ Hk i nd Hnd)) as Hon.
    destruct (Z.eqb_spec (in_edges_num nd) 0) as [Hz|Hz]; simpl.
    + apply Hr in Hz. rewrite (HD i Hz) in Hon. rewrite Hon. simpl. split; [done|].
      intros v [?| ->%list_elem_of_singleton]%elem_of_app; [by apply Hdon|done].
    + split; [done|]. exists i. split; [done|]. by rewrite Hr.
  - intros [u|u] m2 H; wp_step; simpl.
    + destruct H as [-> H]. split; [done|]. split; [|done]. intros _ v Hv. apply H, elem_of_seq. lia.
    + destruct H as [-> (v & Hv & Hno)]. split; [done|]. split; [done|]. intros H. by destruct Hno; apply H.
Qed.

Lemma check_dag_spec m :
  wp (check_dag ts n) (λ rc m',
    (rc = OPH_WORKFLOW_EXIT_SUCCESS ∧ acyclic ts n ∧ (reliable m → reliable m')) ∨
    (rc = OPH_WORKFLOW_EXIT_BAD_PARAM_ERROR ∧ ¬ acyclic ts n) ∨ broken m rc) m.
Proof.
  unfold check_dag. wp_step. eapply wp_mono; [apply build_graph_spec|].
  intros [g|rc] m1 H; [|wp_step; by do 2 right]. destruct H as [-> Hm1].
  wp_step. eapply wp_mono; [by apply (initial_queue_spec m)|].
  intros [s|rc] m2 H; [|wp_step; by do 2 right].
  wp_step. eapply wp_mono; [apply (topological_sort_spec m _ [] _ _ _ H); simpl; lia|].
  intros [g|rc] m3 Hr; [|wp_step; by do 2 right].
  destruct Hr as (D & R & Hk & HD & Hm3). wp_step. eapply wp_mono; [by eapply edges_left_spec|].
  intros b m4 [-> Hb]. wp_step. destruct b.
  - right; left. split; [done|]. intros Hac. by pose proof (proj2 Hb (kahn_complete D R g Hk HD Hac)).
  - left. split_and!; [done| |done]. eapply kahn_acyclic; [done|]. by apply Hb.
Qed.

End kahn.

(** ** Names and arguments *)

(** The names are there and pairwise different. *)
Definition unique_names (ts : list oph_workflow_task) (n : nat) : Prop :=
  ∀ i j ti tj, (i < j < n)%nat → ts !! i = Some ti → ts !! j = Some tj → name ti ≠ name tj.

Definition named (ts : list oph_workflow_task) (n : nat) : Prop :=
  (n ≤ length ts)%nat ∧ ∀ i t, (i < n)%nat → ts !! i = Some t → is_Some (name t).

Lemma check_names_spec ts n m :
  named ts n →
  wp (check_names ts n) (λ c m', m' = m ∧ match c with
    | Next _ => unique_names ts n
    | Break rc => rc = OPH_WORKFLOW_EXIT_TASK_NAME_ERROR ∧ ¬ unique_names ts n
    end) m.
Proof.
  intros [Hn Hnm]. unfold check_names.
  assert (∀ i, (i < n)%nat → ∃ t x, ts !! i = Some t ∧ name t = Some x) as Hget.
  { intros i Hi. destruct (lookup_lt_is_Some_2 ts i) as [t Ht]; [lia|]. destruct (Hnm i t Hi Ht) as [x Hx]. eauto. }
  eapply wp_mono.
  - apply (wp_loopC _ (λ don _ m', m' = m ∧ ∀ i j ti tj, (i < length don)%nat → (i < j < n)%nat →
        ts !! i = Some ti → ts !! j = Some tj → name ti ≠ name tj)
      (λ rc m', m' = m ∧ rc = OPH_WORKFLOW_EXIT_TASK_NAME_ERROR ∧ ¬ unique_names ts n)).
    { split; [done|]. simpl. lia. }
    intros don i rest _ m1 Hseq [-> Hdon]. apply seq_app_cons_inv in Hseq as (-> & _ & Hi).
    destruct (Hget (length don)) as (t & x & Ht & Hx); [lia|].
    eapply wp_mono.
    + apply (wp_loopC _ (λ don' _ m', m' = m ∧ ∀ j tj, j ∈ don' → ts !! j = Some tj → name t ≠ name tj)
        (λ rc m', m' = m ∧ rc = OPH_WORKFLOW_EXIT_TASK_NAME_ERROR ∧ ¬ unique_names ts n)).
      { split; [done|]. by intros j tj ?%elem_of_nil. }
      intros don' j rest' _ m2 Hseq [-> Hdon'].
      assert (j ∈ seq (S (length don)) (n - S (length don))) as Hj%elem_of_seq by (rewrite Hseq; set_solver).
      destruct (Hget j) as (tj & y & Htj & Hy); [lia|].
      wp_step. apply (wp_deref _ _ _ _ Ht). wp_step. apply (wp_deref _ _ _ _ Htj). wp_step.
      unfold strcmp0. rewrite Hx, Hy. wp_steps. case_bool_decide as Hxy; (split; [done|]).
      * subst y. split; [done|]. intros Hu. apply (Hu (length don) j t tj); [lia|done..|congruence].
      * intros j' tj' [Hj'| ->%list_elem_of_singleton]%elem_of_app Htj'; [rewrite <-Hx; exact (Hdon' j' tj' Hj' Htj')|]. congruence.
    + intros [u|rc] m2 [-> H]; [|by split]. split; [done|].
      intros i j ti tj Hi' Hj' Hti Htj. rewrite length_app in Hi'. simpl in Hi'.
      destruct (decide (i = length don)) as [->|Hne]; [|apply (Hdon i j ti tj); [lia|done..]].
      simplify_eq. apply (H j tj); [apply elem_of_seq; lia|done].
  - intros [u|rc] m1 [-> H]; [|by split]. split; [done|].
    intros i j ti tj Hj Hti Htj. apply (H i j ti tj); [rewrite length_seq; lia|done..].
Qed.

(** Arguments as the parser delivers them. *)
Definition argued (ts : list oph_workflow_task) (n : nat) : Prop :=
  ∀ i t a, (i < n)%nat → ts !! i = Some t → a ∈ arguments t → is_Some (arg_key a) ∧ is_Some (arg_value a).

(** The arguments of the first [n] tasks, in order. *)
Definition all_arguments (ts : list oph_workflow_task) (n : nat) : list argument :=
  concat (arguments <$> take n ts).

(** The scan of all arguments, with the bracket depth carried along. *)
Fixpoint scan (b : Z) (l : list argument) : ctl Z Z :=
  match l with
  | [] => Next b
  | a :: l' =>
      if has_char ";" (default ""%string (arg_key a)) || has_char "=" (default ""%string (arg_key a))
      then Break OPH_WORKFLOW_EXIT_BAD_PARAM_ERROR
      else match check_value b (default ""%string (arg_value a)) with
           | Next b' => scan b' l'
           | Break rc => Break rc
           end
  end.

Lemma wp_check_argument_list b l m :
  Forall (λ a, is_Some (arg_key a) ∧ is_Some (arg_value a)) l →
  wp (loopC check_argument b l) (λ c m', m' = m ∧ c = scan b l) m.
Proof.
  intros Hl. revert b. induction Hl as [|a l [[k Hk] [v Hv]] _ IH]; intros b; simpl; [by wp_step|].
  unfold check_argument. rewrite Hk, Hv. simpl. wp_step. wp_step. wp_step.
  destruct (has_char ";" k); simpl; [by wp_steps|].
  destruct (has_char "=" k); simpl; [by wp_steps|]. wp_step. wp_step. wp_step.
  destruct (check_value b v) as [b'|rc]; [apply IH|by wp_step].
Qed.

Lemma scan_app b l1 l2 :
  scan b (l1 ++ l2) = match scan b l1 with Next b' => scan b' l2 | Break rc => Break rc end.
Proof.
  revert b. induction l1 as [|a l1 IH]; intros b; simpl; [done|].
  destruct (_ || _); [done|]. destruct (check_value b _); [apply IH|done].
Qed.

Lemma check_arguments_spec ts n m :
  (n ≤ length ts)%nat → argued ts n →
  wp (check_arguments ts n) (λ c m', m' = m ∧ c = scan 0 (all_arguments ts n)) m.
Proof.
  intros Hn Hag. unfold check_arguments. eapply wp_mono.
  - apply (wp_loopC _ (λ don b m', m' = m ∧ scan 0 (all_arguments ts (length don)) = Next b)
      (λ rc m', m' = m ∧ scan 0 (all_arguments ts n) = Break rc)); [by split|].
    intros don i rest b m1 Hseq [-> Hb]. apply seq_app_cons_inv in Hseq as (-> & _ & Hi).
    destruct (lookup_lt_is_Some_2 ts (length don)) as [t Ht]; [lia|].
    assert (all_arguments ts (S (length don)) = all_arguments ts (length don) ++ arguments t) as Hall.
    { unfold all_arguments. rewrite (take_S_r _ _ _ Ht), fmap_app, concat_app. simpl. by rewrite app_nil_r. }
    wp_step. apply (wp_deref _ _ _ _ Ht). eapply wp_mono; [apply wp_check_argument_list|].
    { apply Forall_forall. intros a Ha. by apply (Hag (length don) t a). }
    intros c m2 [-> ->]. rewrite length_app. simpl. rewrite Nat.add_1_r.
    destruct (scan b (arguments t)) as [b'|rc] eqn:Hs; (split; [done|]).
    + by rewrite Hall, scan_app, Hb.
    + replace (all_arguments ts n) with
        ((all_arguments ts (length don) ++ arguments t) ++ concat (arguments <$> drop (S (length don)) (take n ts))).
      * by rewrite !scan_app, Hb, Hs.
      * rewrite <-Hall. unfold all_arguments. rewrite <-concat_app, <-fmap_app.
        f_equal. f_equal. rewrite <-(take_drop (S (length don)) (take n ts)) at 2.
        by rewrite take_take, Nat.min_l by lia.
  - intros [b|rc] m1 [-> H]; (split; [done|]); [|done]. by rewrite length_seq in H.
Qed.

(** ** Properties *)

(** A scan that meets no separator outside brackets, the depth starting at zero. *)
Definition arguments_accepted (ts : list oph_workflow_task) (n : nat) : Prop :=
  ∃ b, scan 0 (all_arguments ts n) = Next b.

Lemma check_value_code b v rc : check_value b v = Break rc → rc = OPH_WORKFLOW_EXIT_BAD_PARAM_ERROR.
Proof. revert b. induction v as [|c v IH]; intros b; simpl; [done|]. repeat case_match; naive_solver. Qed.

Lemma scan_code b l rc : scan b l = Break rc → rc = OPH_WORKFLOW_EXIT_BAD_PARAM_ERROR.
Proof.
  revert b. induction l as [|a l IH]; intros b; simpl; [done|]. repeat case_match; intros; simplify_eq;
    eauto using check_value_code.
Qed.

Lemma validate_spec (wf : oph_workflow) (m : mem) :
  let ts := tasks wf in let n := tasks_num wf in
  ts ≠ [] → indexed ts n → named ts n → argued ts n →
  wp (oph_workflow_validate (Some wf)) (λ rc _,
    (rc = OPH_WORKFLOW_EXIT_SUCCESS →
       unique_names ts n ∧ arguments_accepted ts n ∧ acyclic ts n) ∧
    (reliable m → unique_names ts n → arguments_accepted ts n → acyclic ts n →
       rc = OPH_WORKFLOW_EXIT_SUCCESS)) m.
Proof.
  intros ts n Hne Hix Hnm Hag. unfold oph_workflow_validate. rewrite bool_decide_false by done. wp_step.
  eapply wp_mono; [by apply check_names_spec|]. intros [u|rc] m1 [-> H1].
  2:{ destruct H1 as [-> H1]. wp_step. by split. }
  wp_step. eapply wp_mono; [apply check_arguments_spec; [apply Hnm|done]|].
  intros c m1 [-> Hc]. fold ts n in Hc. destruct c as [b|rc].
  2:{ wp_step. pose proof (scan_code _ _ _ (eq_sym Hc)) as ->. split; [done|].
      intros _ _ [b Hb]. congruence. }
  eapply wp_mono; [by apply check_dag_spec|].
  intros rc m1 [(-> & Hac & _)|[(-> & Hac)|[Hrc Hrel]]]; [|done|done].
  split; [|done]. intros _. split_and!; [done|by exists b|done].
Qed.

(** C12: on a workflow whose tasks are indexed and carry names and complete arguments,
    [oph_workflow_validate] never leaves its arrays and never loops for ever; given
    memory it succeeds exactly when the names are pairwise different, the arguments
    pass the scan, and the dependency graph has no cycle; it never accepts a workflow
    that fails one of these, even when allocations fail. *)
Theorem validate_decides (wf : oph_workflow) (m : mem) :
  let ts := tasks wf in let n := tasks_num wf in
  ts ≠ [] → indexed ts n → named ts n → argued ts n →
  wp (oph_workflow_validate (Some wf)) (λ rc _,
    (rc = OPH_WORKFLOW_EXIT_SUCCESS →
       unique_names ts n ∧ arguments_accepted ts n ∧ acyclic ts n) ∧
    (reliable m → unique_names ts n → arguments_accepted ts n → acyclic ts n →
       rc = OPH_WORKFLOW_EXIT_SUCCESS)) m.
Proof. apply validate_spec. Qed.

(** Two tasks in a chain, indexed. *)
Definition sample_indexed : list oph_workflow_task :=
  [set_dependents_indexes [1] (named_task "A" []);
   set_deps [set_task_index 0 (dep_on "A")] (named_task "B" ["A"]); zero_task].
Definition sample_workflow : oph_workflow := set_tasks sample_indexed (set_tasks_num 2 zero_workflow).

Lemma sample_indexed_ok : indexed sample_indexed 2 ∧ named sample_indexed 2 ∧ argued sample_indexed 2.
Proof.
  split_and!.
  - split; simpl; [lia| | |]; intros [|[|]]; try lia; intros; try (destruct k as [|[|]]; try lia);
      vm_compute; try done; repeat constructor; done.
  - split; [simpl; lia|]. intros [|[|]] t Hi Ht; simplify_eq/=; eauto. lia.
  - intros [|[|]] t a Hi Ht Ha; simplify_eq/=; [by apply elem_of_nil in Ha..|lia].
Qed.

Lemma validate_decides_witness :
  oph_workflow_validate (Some sample_workflow) [] = Ok OPH_WORKFLOW_EXIT_SUCCESS [] ∧
  wp (oph_workflow_validate (Some sample_workflow)) (λ rc _,
    (rc = OPH_WORKFLOW_EXIT_SUCCESS →
       unique_names sample_indexed 2 ∧ arguments_accepted sample_indexed 2 ∧ acyclic sample_indexed 2) ∧
    (reliable [] → unique_names sample_indexed 2 → arguments_accepted sample_indexed 2 →
       acyclic sample_indexed 2 → rc = OPH_WORKFLOW_EXIT_SUCCESS)) [].
Proof.
  split; [vm_compute; reflexivity|].
  apply (validate_decides sample_workflow []); [done|apply sample_indexed_ok..].
Defined.

(** A value without brackets keeps the depth. *)
Lemma check_value_plain b w :
  has_char "[" w = false → has_char "]" w = false →
  check_value b w =
    if (b =? 0) && has_char ";" w then Break OPH_WORKFLOW_EXIT_BAD_PARAM_ERROR else Next b.
Proof.
  induction w as [|c w IH]; simpl; [by rewrite andb_false_r|].
  rewrite !has_char_cons. intros [H1 H2]%orb_false_iff [H3 H4]%orb_false_iff.
  rewrite IH by done. rewrite H1, H3, andb_false_r.
  destruct (b =? 0); simpl; [|done]. by destruct (Ascii.eqb c ";").
Qed.

(** A workflow of one task with the given argument values. *)
Definition one_task (vs : list string) : oph_workflow :=
  set_tasks [set_arguments ((λ v, Arg (Some "k"%string) (Some v) []) <$> vs) (named_task "A" [])]
    (set_tasks_num 1 zero_workflow).

(** the depth of open brackets survives the end of a value: a value [w] with a
    separator is refused on its own but accepted after a value [v] that leaves a
    bracket open. *)
Theorem validate_bracket_leaks (v w : string) :
  check_value 0 v = Next 1 →
  has_char "[" w = false → has_char "]" w = false → has_char ";" w = true →
  oph_workflow_validate (Some (one_task [w])) [] = Ok OPH_WORKFLOW_EXIT_BAD_PARAM_ERROR [] ∧
  oph_workflow_validate (Some (one_task [v; w])) [] = Ok OPH_WORKFLOW_EXIT_SUCCESS [].
Proof.
  intros Hv H1 H2 H3.
  assert (check_value 0 w = Break OPH_WORKFLOW_EXIT_BAD_PARAM_ERROR) as Hw0
    by (by rewrite check_value_plain, H3).
  assert (check_value 1 w = Next 1) as Hw1 by (by rewrite check_value_plain).
  split.
  - cbv -[check_value]. by rewrite Hw0.
  - cbv -[check_value]. rewrite Hv. by rewrite Hw1.
Qed.

Lemma validate_bracket_leaks_witness :
  oph_workflow_validate (Some (one_task [";"]%string)) [] = Ok OPH_WORKFLOW_EXIT_BAD_PARAM_ERROR [] ∧
  oph_workflow_validate (Some (one_task ["["; ";"]%string)) [] = Ok OPH_WORKFLOW_EXIT_SUCCESS [].
Proof. apply (validate_bracket_leaks "[" ";"); reflexivity. Defined.

(** The tasks that wait for nothing. *)
Definition independent (ts : list oph_workflow_task) (n : nat) : list nat :=
  filter (λ i, ins ts i = []) (seq 0 n).

Lemma independent_nonempty ts n :
  indexed ts n → n ≠ 0%nat → acyclic ts n → independent ts n ≠ [].
Proof.
  intros Hix Hn Hac Hnil.
  assert (∀ v, (v < n)%nat → False) as H; [|apply (H 0%nat); lia].
  intros v. induction (acyclic_sn ts n Hac v) as [v _ IH]. intros Hv.
  destruct (ins ts v) as [|x l] eqn:Hi.
  - assert (v ∈ independent ts n) as Hin by (apply list_elem_of_filter; split; [done|apply elem_of_seq; lia]).
    rewrite Hnil in Hin. by apply elem_of_nil in Hin.
  - pose proof (ix_ins _ _ Hix v Hv) as Hall. rewrite Hi in Hall. apply Forall_cons in Hall as [Hx _].
    apply (IH (Z.to_nat x)); [|lia]. split_and!; [lia|done|]. rewrite Hi, Z2Nat.id by lia. left.
Qed.

Lemma initial_indexes_spec ts n m :
  (n ≤ length ts)%nat →
  wp (initial_indexes ts n) (λ l m', m' = m ∧ l = Z.of_nat <$> independent ts n) m.
Proof.
  intros Hn. unfold initial_indexes, independent.
  apply (wp_foldC _ (λ don l m', m' = m ∧ l = Z.of_nat <$> filter (λ i, ins ts i = []) don)); [done|].
  intros don i rest l m1 Hseq [-> ->]. apply seq_app_cons_inv in Hseq as (_ & _ & Hi).
  destruct (lookup_lt_is_Some_2 ts i) as [t Ht]; [lia|]. wp_step. apply (wp_deref _ _ _ _ Ht).
  wp_step. split; [done|]. rewrite filter_app, fmap_app. destruct (ins_outs_task ts i t Ht) as [Hins _].
  unfold deps_num. destruct (deps t) as [|d ds] eqn:Hd.
  - by rewrite filter_cons_True by done.
  - rewrite filter_cons_False by (by rewrite Hins). simpl. rewrite app_nil_r.
    by rewrite (proj2 (Z.ltb_ge _ _)) by lia.
Qed.

(** [oph_workflow_init] returns, in order, exactly the tasks without
    dependencies; it refuses a workflow where every task waits for another one, and
    given memory it succeeds on every acyclic workflow. *)
Theorem init_independent_tasks (ts : list oph_workflow_task) (n : nat) (m : mem) :
  indexed ts n → n ≠ 0%nat →
  wp (oph_workflow_init (Some ts) n) (λ r _,
    (r.1 = OPH_WORKFLOW_EXIT_SUCCESS → r.2 = Some (Z.of_nat <$> independent ts n) ∧ independent ts n ≠ []) ∧
    (r.1 = OPH_WORKFLOW_EXIT_BAD_PARAM_ERROR → ¬ acyclic ts n) ∧
    (reliable m → acyclic ts n → r.1 = OPH_WORKFLOW_EXIT_SUCCESS)) m.
Proof.
  intros Hix Hn. unfold oph_workflow_init. rewrite bool_decide_false by done. wp_step.
  eapply wp_mono; [apply initial_indexes_spec; apply Hix|]. intros l m1 [-> ->].
  case_bool_decide as Hnil.
  - apply fmap_nil_inv in Hnil. wp_step. simpl.
    assert (¬ acyclic ts n) by (intros Hac; by apply (independent_nonempty ts n)). by split_and!.
  - wp_step. apply wp_malloc. intros b m1 Hb. destruct b; simpl; wp_step; simpl; split_and!; try done.
    + intros _. split; [done|]. intros Hno. by rewrite Hno in Hnil.
    + intros Hr. by destruct (Hb Hr).
Qed.

Lemma init_independent_tasks_witness :
  oph_workflow_init (Some sample_indexed) 2 [] = Ok (OPH_WORKFLOW_EXIT_SUCCESS, Some [0]) [] ∧
  wp (oph_workflow_init (Some sample_indexed) 2) (λ r _,
    (r.1 = OPH_WORKFLOW_EXIT_SUCCESS →
       r.2 = Some (Z.of_nat <$> independent sample_indexed 2) ∧ independent sample_indexed 2 ≠ []) ∧
    (r.1 = OPH_WORKFLOW_EXIT_BAD_PARAM_ERROR → ¬ acyclic sample_indexed 2) ∧
    (reliable [] → acyclic sample_indexed 2 → r.1 = OPH_WORKFLOW_EXIT_SUCCESS)) [].
Proof.
  split; [vm_compute; reflexivity|].
  apply (init_independent_tasks sample_indexed 2); [apply sample_indexed_ok|lia].
Defined.

(** loading a workflow: what indexing builds from the names is what the
    acyclicity check and the initial tasks need.  Given memory, a workflow whose
    dependencies resolve and form no cycle passes both and has a task to start with;
    with a cycle, it is refused. *)
Theorem load_pipeline (ts : list oph_workflow_task) (n : nat) (m : mem) :
  loaded ts n → n ≠ 0%nat → resolvable ts n → reliable m →
  wp (r ← oph_workflow_indexing (Some ts) n;
      ts' ← deref r.2;
      rc ← check_dag ts' n;
      i ← oph_workflow_init (Some ts') n;
      mret (ts', r.1, rc, i))
    (λ '(ts', r1, rc, i) _, r1 = OPH_WORKFLOW_EXIT_SUCCESS ∧
       (rc = OPH_WORKFLOW_EXIT_SUCCESS ↔ acyclic ts' n) ∧
       (rc = OPH_WORKFLOW_EXIT_SUCCESS →
          ∃ k l, i = (OPH_WORKFLOW_EXIT_SUCCESS, Some (k :: l)))) m.
Proof.
  intros Hld Hn Hres Hm. wp_step. eapply wp_mono; [by apply indexing_spec|].
  intros [r1 o] m1 (ts' & Ho & [(-> & Hm1 & Hig)|[(_ & H)|(_ & H)]]); [|done|done]. simpl in *. subst o.
  pose proof (indexing_indexed _ _ _ Hld Hig) as Hix. wp_step. apply wp_deref with ts'; [done|]. wp_step.
  assert (reliable m1) as Hr1 by auto.
  eapply wp_mono; [by apply check_dag_spec|]. intros rc m2 Hrc. wp_step.
  unfold oph_workflow_init. rewrite bool_decide_false by done. wp_step.
  eapply wp_mono; [apply initial_indexes_spec; apply Hix|]. intros l m3 [-> ->].
  destruct Hrc as [(-> & Hac & Hm2)|[(-> & Hac)|[_ H]]]; [| |done].
  - pose proof (independent_nonempty _ _ Hix Hn Hac) as Hne.
    destruct (independent ts' n) as [|k l]; [done|]. rewrite bool_decide_false by done.
    wp_step. apply wp_malloc_reliable; [auto|]. intros m4 _. simpl. wp_step. wp_step.
    split_and!; [done|done|]. intros _. by eexists _, _.
  - case_bool_decide; [by wp_steps|]. wp_step. apply wp_malloc. intros b m4 _.
    destruct b; simpl; by wp_steps.
Qed.

Lemma load_pipeline_witness :
  wp (r ← oph_workflow_indexing (Some sample_tasks) 2;
      ts' ← deref r.2;
      rc ← check_dag ts' 2;
      i ← oph_workflow_init (Some ts') 2;
      mret (ts', r.1, rc, i))
    (λ '(ts', r1, rc, i) _, r1 = OPH_WORKFLOW_EXIT_SUCCESS ∧
       (rc = OPH_WORKFLOW_EXIT_SUCCESS ↔ acyclic ts' 2) ∧
       (rc = OPH_WORKFLOW_EXIT_SUCCESS →
          ∃ k l, i = (OPH_WORKFLOW_EXIT_SUCCESS, Some (k :: l)))) [].
Proof.
  apply (load_pipeline sample_tasks 2); [apply sample_tasks_loaded|lia| |apply reliable_nil].
  intros [|[|]] t d Hi Ht Hd; [| |lia]; simplify_eq/=.
  - by apply elem_of_nil in Hd.
  - apply list_elem_of_singleton in Hd as ->. split; [done|].
    exists 0%nat, (named_task "A" []). split_and!; [lia|done|done].
Defined.

End WfDag.
