(* ===== verification/WfFlow.v ===== *)
(** * Flow control operators of a workflow ([src/src/oph_workflow/oph_workflow_setup.c])

    [oph_workflow_validate_fco] pairs the flow control tasks (for/endfor,
    if/elseif/else/endif) along the dependency graph, recording the pairs in the
    fields [parent], [child], [branch_num] and [nesting_level] of the tasks.

    The results: on an acyclic workflow the recursive walks terminate within the
    number of tasks and stay in range; [oph_workflow_is_child_of] decides
    reachability; a validated workflow has every closing operator linked to an
    opening one of its kind from which it is reachable, and nothing but the four
    fields changes; the check of "if" against a missing "endif" has no effect. *)

From Stdlib Require Ascii.
From stdpp Require Import base gmap strings numbers relations functions sets list.
From S2P Require Import Prelude CString HashTbl Trash WfStructs WfSetup WfDag.
Import (notations) Stdlib.Strings.Ascii.
Import WfStructs WfSetup WfDag.

Module WfFlow.

Open Scope Z_scope.

Definition OPH_OPERATOR_FOR : string := "oph_for".
Definition OPH_OPERATOR_ENDFOR : string := "oph_endfor".
Definition OPH_OPERATOR_IF : string := "oph_if".
Definition OPH_OPERATOR_ELSEIF : string := "oph_elseif".
Definition OPH_OPERATOR_ELSE : string := "oph_else".
Definition OPH_OPERATOR_ENDIF : string := "oph_endif".
Definition OPH_WORKFLOW_OP_SEPARATOR : string := "|".
Definition OPH_WORKFLOW_MAX_STRING : nat := 2048.

(** [!strncasecmp(operator, op, OPH_WORKFLOW_MAX_STRING)] *)
Definition is_op (o op : string) : bool := strncasecmp0 o op OPH_WORKFLOW_MAX_STRING.

(** [char] *)
Definition wrap_i8 (z : Z) : Z := (z + 2 ^ 7) mod 2 ^ 8 - 2 ^ 7.

(** The topmost opening task above [k]: -2 when [k] has no parent. *)
Fixpoint climb (fuel : nat) (ts : list oph_workflow_task) (p : Z) : C Z :=
  match fuel with
  | 0%nat => out_of_fuel
  | S fuel' =>
      t ← deref (cell ts p);
      if 0 <=? parent t then climb fuel' ts (parent t) else mret p
  end.

Definition oph_gparent_of (ts : list oph_workflow_task) (n : nat) (k : Z) : C Z :=
  if k <? 0 then mret (-2) else
  t ← deref (cell ts k);
  if parent t <? 0 then mret (-2) else climb (S n) ts (parent t).

Fixpoint is_child_of (fuel : nat) (ts : list oph_workflow_task) (n : nat) (p c : Z) : C bool :=
  match fuel with
  | 0%nat => out_of_fuel
  | S fuel' =>
      if (Z.of_nat n <=? p) || (c <? 0) || (Z.of_nat n <=? c) then mret false else
      if (p <? 0) || (p =? c) then mret true else
      t ← deref (cell ts p);
      r ← loopC (λ _ j,
        b ← (if j =? p then mret false else is_child_of fuel' ts n j c);
        mret (if b : bool then Break () else Next ())) () (dependents_indexes t);
      mret (match r with Next _ => false | Break _ => true end)
  end.

(** A path of an acyclic graph visits a task at most once. *)
Definition oph_workflow_is_child_of (workflow : option oph_workflow) (p c : Z) : C bool :=
  match workflow with
  | None => mret false
  | Some wf => is_child_of (S (tasks_num wf)) (tasks wf) (tasks_num wf) p c
  end.

(** ** The pairing walk *)

(** The tasks, the arrays [flag] and [level] and the variable [child] of
    [oph_workflow_validate_fco]. *)
Record fco : Type := Fco {
  f_tasks : list oph_workflow_task;
  f_flag : list bool;
  f_level : list Z;
  f_child : Z;
}.

Definition set_f_tasks (ts : list oph_workflow_task) (st : fco) : fco :=
  Fco ts (f_flag st) (f_level st) (f_child st).
Definition set_f_flag (l : list bool) (st : fco) : fco := Fco (f_tasks st) l (f_level st) (f_child st).
Definition set_f_level (l : list Z) (st : fco) : fco := Fco (f_tasks st) (f_flag st) l (f_child st).
Definition set_f_child (c : Z) (st : fco) : fco := Fco (f_tasks st) (f_flag st) (f_level st) c.

(** [if (level[j] < v) level[j] = v] *)
Definition raise_level (j v : Z) (st : fco) : C fco :=
  lj ← deref (cell (f_level st) j);
  mret (if lj <? v then set_f_level (set_cell (f_level st) j (wrap_i8 v)) st else st).

(** An end-task of [p] is reached at level zero: it is counted once and linked. *)
Definition count_end (st : fco) (j p gp : Z) : C (Z * fco) :=
  fl ← deref (cell (f_flag st) j);
  if negb fl then mret (0, st) else
  let st := set_f_flag (set_cell (f_flag st) j false) st in
  tj ← deref (cell (f_tasks st) j);
  '(res, st) ←
    (if (parent tj <? 0) || (parent tj =? p) then
       let st := set_f_tasks (set_cell (f_tasks st) j (set_parent p tj)) st in
       tp ← deref (cell (f_tasks st) p);
       mret (1, set_f_child j (set_f_tasks (set_cell (f_tasks st) p (set_child j tp)) st))
     else mret (if negb (parent tj =? p) && negb (parent tj =? gp) then 2 else 1, st));
  tj ← deref (cell (f_tasks st) j);
  mret (res, set_f_tasks (set_cell (f_tasks st) j (set_branch_num (branch_num tj + 1) tj)) st).

(** An opening operator below [p]: one bracket more. *)
Definition open_bracket (st : fco) (j p bn : Z) : C (Z * fco) :=
  let bn := bn + 1 in
  tp ← deref (cell (f_tasks st) p);
  let st := if nesting_level tp <? bn
            then set_f_tasks (set_cell (f_tasks st) p (set_nesting_level bn tp)) st else st in
  lp ← deref (cell (f_level st) p);
  st ← raise_level j (bn + lp) st;
  mret (bn, st).

(** The number of ways from [k] to an end-task of [p]; more than one ends the walk. *)
Fixpoint number_of (fuel : nat) (n : nat) (st : fco) (k p gp : Z) (op nop : string) (bracket_number : Z) :
    C (Z * fco) :=
  match fuel with
  | 0%nat => out_of_fuel
  | S fuel' =>
      if (k <? 0) || (Z.of_nat n <=? k) then mret (0, st) else
      tk ← deref (cell (f_tasks st) k);
      r ← loopC (λ acc j,
        let '(res, st) := acc in
        let bn := bracket_number in
        lp ← deref (cell (f_level st) p);
        st ← raise_level j (bn + lp) st;
        tj ← deref (cell (f_tasks st) j);
        oj ← deref (operator tj);
        '(r, st) ←
          (if is_op oj (if (0 <? bracket_number) && negb (bool_decide (nop = OPH_OPERATOR_FOR))
                        then OPH_OPERATOR_ENDIF else op)
           then
             lj ← deref (cell (f_level st) j);
             lp ← deref (cell (f_level st) p);
             let bn := if bn + lp <? lj then lj - lp else bn in
             if negb (bn =? 0) then number_of fuel' n st j p gp op nop (bn - 1)
             else count_end st j p gp
           else
             '(bn, st) ← (if existsb (is_op oj) (strtok OPH_WORKFLOW_OP_SEPARATOR nop)
                          then open_bracket st j p bn else mret (bn, st));
             number_of fuel' n st j p gp op nop bn);
        let res := res + r in
        mret (if 1 <? res then Break (res, st) else Next (res, st))) (0, st) (dependents_indexes tk);
      mret (match r with Next x => x | Break x => x end)
  end.

(** ** Validation *)

(** All flags set, then the walk from [k]. *)
Definition count_ways (n : nat) (st : fco) (k gp : Z) (op nop : string) : C (Z * fco) :=
  number_of (S n) n (set_f_flag (replicate n true) st) k k gp op nop 0.

(** A task linked to [k] from which [child] cannot be reached. *)
Definition mismatch (n : nat) (st : fco) (k : Z) (closer : string) : C bool :=
  r ← loopC (λ _ i,
    ti ← deref (f_tasks st !! i);
    if negb (parent ti =? k) then mret (Next ()) else
    tk ← deref (cell (f_tasks st) k);
    ok ← deref (operator tk);
    if is_op ok closer then mret (Next ()) else
    b ← is_child_of (S n) (f_tasks st) n (Z.of_nat i) (f_child st);
    mret (if b : bool then Next () else Break ())) () (seq 0 n);
  mret (match r with Next _ => false | Break _ => true end).

(** The checks of a task: [true] when it is set correctly. *)
Definition check_for (n : nat) (st : fco) (k : Z) : C (bool * fco) :=
  '(number, st) ← count_ways n st k k OPH_OPERATOR_ENDFOR OPH_OPERATOR_FOR;
  if (number =? 0) || (1 <? number) then mret (false, st) else
  b ← mismatch n st k OPH_OPERATOR_ENDFOR;
  mret (negb b, st).

(** [count_ways] towards an operator that need not be there: [Some] when the task is
    settled (wrong, or linked and checked), [None] to go on. *)
Definition check_optional (n : nat) (st : fco) (k gp : Z) (op : string) : C (bool * bool * fco) :=
  '(number, st) ← count_ways n (set_f_child (-1) st) k gp op OPH_OPERATOR_IF;
  if 1 <? number then mret (true, false, st) else
  if 0 <=? f_child st then
    b ← mismatch n st k op;
    mret (true, negb b, st)
  else mret (false, true, st).

Definition check_if (n : nat) (st : fco) (k : Z) : C (bool * fco) :=
  '(linked, ok, st) ← check_optional n st k k OPH_OPERATOR_ELSEIF;
  if negb ok then mret (false, st) else
  '(ok, st) ← (if linked : bool then mret (true, st)
               else '(_, ok, st) ← check_optional n st k k OPH_OPERATOR_ELSE; mret (ok, st));
  if negb ok then mret (false, st) else
  '(number, st) ← count_ways n st k k OPH_OPERATOR_ENDIF OPH_OPERATOR_IF;
  if (number =? 0) && (1 <? number) then mret (false, st) else
  b ← mismatch n st k OPH_OPERATOR_ENDIF;
  mret (negb b, st).

Definition check_endif (n : nat) (st : fco) (k kk : Z) : C (bool * fco) :=
  '(number, st) ← count_ways n st k kk OPH_OPERATOR_ENDIF OPH_OPERATOR_IF;
  if (number =? 0) || (1 <? number) then mret (false, st) else
  b ← mismatch n st k OPH_OPERATOR_ENDIF;
  mret (negb b, st).

Definition check_elseif (n : nat) (st : fco) (k : Z) : C (bool * fco) :=
  kk ← oph_gparent_of (f_tasks st) n k;
  '(linked, ok, st) ← check_optional n st k kk OPH_OPERATOR_ELSEIF;
  if linked : bool then mret (ok, st) else
  '(linked, ok, st) ← check_optional n st k kk OPH_OPERATOR_ELSE;
  if linked : bool then mret (ok, st) else
  check_endif n st k kk.

Definition check_else (n : nat) (st : fco) (k : Z) : C (bool * fco) :=
  kk ← oph_gparent_of (f_tasks st) n k;
  check_endif n st k kk.

Definition check_task (n : nat) (st : fco) (k : Z) : C (bool * fco) :=
  t ← deref (cell (f_tasks st) k);
  o ← deref (operator t);
  if is_op o OPH_OPERATOR_FOR then check_for n st k
  else if is_op o OPH_OPERATOR_IF then check_if n st k
  else if is_op o OPH_OPERATOR_ELSEIF then check_elseif n st k
  else if is_op o OPH_OPERATOR_ELSE then check_else n st k
  else mret (true, st).

(** A closing operator. *)
Definition is_closer (o : string) : bool :=
  is_op o OPH_OPERATOR_ENDFOR || is_op o OPH_OPERATOR_ELSEIF || is_op o OPH_OPERATOR_ELSE || is_op o OPH_OPERATOR_ENDIF.

Definition reset_links (t : oph_workflow_task) : oph_workflow_task :=
  set_nesting_level 0 (set_branch_num 0 (set_child (-1) (set_parent (-1) t))).

(** [child0]: the value [child] happens to have at the start. *)
Definition oph_workflow_validate_fco (child0 : Z) (workflow : option oph_workflow) : C (Z * option oph_workflow) :=
  match workflow with
  | None => mret (OPH_WORKFLOW_EXIT_BAD_PARAM_ERROR, None)
  | Some wf =>
      let n := tasks_num wf in
      ts ← foldC (λ ts k, t ← deref (ts !! k); mret (<[k := reset_links t]> ts)) (tasks wf) (seq 0 n);
      r ← loopC (λ st k,
        '(ok, st) ← check_task n st (Z.of_nat k);
        mret (if ok : bool then Next st else Break st))
        (Fco ts (replicate n true) (replicate n 0) child0) (seq 0 n);
      match r with
      | Break st => mret (OPH_WORKFLOW_EXIT_BAD_PARAM_ERROR, Some (set_tasks (f_tasks st) wf))
      | Next st =>
          r ← loopC (λ _ k,
            t ← deref (f_tasks st !! k);
            if parent t <? 0 then
              o ← deref (operator t);
              mret (if is_closer o then Break () else Next ())
            else mret (Next ())) () (seq 0 n);
          mret (match r with
                | Break _ => (OPH_WORKFLOW_EXIT_BAD_PARAM_ERROR, Some (set_tasks (f_tasks st) wf))
                | Next _ => (OPH_WORKFLOW_EXIT_SUCCESS, Some (set_tasks (f_tasks st) wf))
                end)
      end
  end.

(** ** Tasks up to their links *)

(** The tasks agree but for [parent], [child], [branch_num] and [nesting_level]. *)
Definition same_tasks (ts ts' : list oph_workflow_task) : Prop := reset_links <$> ts' = reset_links <$> ts.

Lemma same_tasks_lookup ts ts' i t' :
  same_tasks ts ts' → ts' !! i = Some t' → ∃ t, ts !! i = Some t ∧ reset_links t' = reset_links t.
Proof.
  intros Hs Ht. apply (f_equal (.!! i)) in Hs. rewrite !list_lookup_fmap, Ht in Hs. simpl in Hs.
  symmetry in Hs. apply fmap_Some in Hs as (t & Ht0 & Heq). by exists t.
Qed.

Lemma same_tasks_lookup_r ts ts' i t :
  same_tasks ts ts' → ts !! i = Some t → ∃ t', ts' !! i = Some t' ∧ reset_links t' = reset_links t.
Proof.
  intros Hs Ht. apply (f_equal (.!! i)) in Hs. rewrite !list_lookup_fmap, Ht in Hs. simpl in Hs.
  apply fmap_Some in Hs as (t' & Ht' & Heq). by exists t'.
Qed.

Lemma same_tasks_length ts ts' : same_tasks ts ts' → length ts' = length ts.
Proof. intros Hs. apply (f_equal length) in Hs. by rewrite !length_fmap in Hs. Qed.

Lemma reset_fields t t' : reset_links t' = reset_links t →
  operator t' = operator t ∧ deps t' = deps t ∧ dependents_indexes t' = dependents_indexes t ∧ name t' = name t.
Proof. intros H. destruct t, t'. unfold reset_links in H. simpl in H. by simplify_eq. Qed.

Lemma same_edges ts ts' i : same_tasks ts ts' → ins ts' i = ins ts i ∧ outs ts' i = outs ts i.
Proof.
  intros Hs. unfold ins, outs. destruct (ts' !! i) as [t'|] eqn:Ht'.
  - destruct (same_tasks_lookup _ _ _ _ Hs Ht') as (t & -> & Hr). apply reset_fields in Hr as (_ & Hd & Ho & _).
    simpl. by rewrite Hd, Ho.
  - apply lookup_ge_None in Ht'. rewrite (same_tasks_length _ _ Hs) in Ht'.
    by rewrite (lookup_ge_None_2 _ _ Ht').
Qed.

Lemma same_indexed ts ts' n : same_tasks ts ts' → indexed ts n → indexed ts' n.
Proof.
  intros Hs [H1 H2 H3 H4]. split.
  - by rewrite (same_tasks_length _ _ Hs).
  - intros i. rewrite (proj1 (same_edges _ _ i Hs)). apply H2.
  - intros i. rewrite (proj2 (same_edges _ _ i Hs)). apply H3.
  - intros i k. rewrite (proj1 (same_edges _ _ i Hs)), (proj2 (same_edges _ _ k Hs)). apply H4.
Qed.

Lemma same_depends ts ts' n k i : same_tasks ts ts' → depends ts' n k i ↔ depends ts n k i.
Proof. intros Hs. unfold depends. by rewrite (proj1 (same_edges _ _ i Hs)). Qed.

Lemma cell_nat {A} (l : list A) (i : nat) : cell l (Z.of_nat i) = l !! i.
Proof. unfold cell. rewrite (proj2 (Z.ltb_ge _ _)) by lia. by rewrite Nat2Z.id. Qed.

Lemma set_cell_nat {A} (l : list A) (i : nat) x : set_cell l (Z.of_nat i) x = <[i := x]> l.
Proof. unfold set_cell. rewrite (proj2 (Z.ltb_ge _ _)) by lia. by rewrite Nat2Z.id. Qed.

Lemma tc_flip {A} (R : relation A) x y : tc (flip R) x y → tc R y x.
Proof. induction 1 as [x y H|x y z H _ IH]; [by apply tc_once|by eapply tc_r]. Qed.

Section flow.
Context (ts : list oph_workflow_task) (n : nat).
Context (Hix : indexed ts n) (Hac : acyclic ts n).

(** A dependent of a task, as an index. *)
Lemma outs_depends k j :
  (k < n)%nat → j ∈ outs ts k → ∃ i, j = Z.of_nat i ∧ (i < n)%nat ∧ depends ts n k i.
Proof.
  intros Hk Hj. pose proof (proj1 (Forall_forall _ _) (ix_outs _ _ Hix k Hk) j Hj) as Hb. simpl in Hb.
  exists (Z.to_nat j). split_and!; [lia|lia|]. apply depends_count; [done|lia|lia|]. apply cnt_pos.
  by rewrite Z2Nat.id by lia.
Qed.

Lemma depends_outs k i : depends ts n k i → Z.of_nat i ∈ outs ts k.
Proof. intros Hd. apply cnt_pos. apply depends_count in Hd; try apply Hd. done. Qed.

(** A chain of distinct tasks, all before (or all behind) [p], leaves fuel for [p]. *)
Lemma fuel_left (R : nat → nat → Prop) path p fuel :
  (∀ q, ¬ R q q) → (∀ q, q ∈ path → R q p) → NoDup path → (∀ q, q ∈ path → (q < n)%nat) → (p < n)%nat →
  (n < fuel + length path)%nat → ∃ fuel', fuel = S fuel' ∧ NoDup (path ++ [p]) ∧ (n < fuel' + length (path ++ [p]))%nat.
Proof.
  intros Hirr Hreach Hnd Hb Hp Hf.
  assert (NoDup (path ++ [p])) as Hnd'.
  { apply NoDup_app. split_and!; [done| |apply NoDup_singleton].
    intros q Hq ->%list_elem_of_singleton. by apply (Hirr p), Hreach. }
  assert (length (path ++ [p]) ≤ n)%nat as Hlen.
  { rewrite <-(length_seq n 0). apply submseteq_length, NoDup_submseteq; [done|].
    intros q [Hq| ->%list_elem_of_singleton]%elem_of_app; apply elem_of_seq; [apply Hb in Hq|]; lia. }
  rewrite length_app in *. simpl in *. destruct fuel as [|fuel]; [lia|]. exists fuel. split_and!; [done|done|lia].
Qed.

(** The path to a task extends along an edge. *)
Lemma path_extend path p j :
  (∀ q, q ∈ path → tc (depends ts n) q p) → (∀ q, q ∈ path → (q < n)%nat) → depends ts n p j →
  (∀ q, q ∈ path ++ [p] → tc (depends ts n) q j) ∧ (∀ q, q ∈ path ++ [p] → (q < n)%nat).
Proof.
  intros Hreach Hb Hd. split; intros q [Hq| ->%list_elem_of_singleton]%elem_of_app.
  - eapply tc_r; [by apply Hreach|done].
  - by apply tc_once.
  - by apply Hb.
  - apply Hd.
Qed.

Lemma wp_is_child ts' path p c fuel m :
  same_tasks ts ts' → (∀ q, q ∈ path → tc (depends ts n) q p) → NoDup path → (∀ q, q ∈ path → (q < n)%nat) →
  (p < n)%nat → (c < n)%nat → (n < fuel + length path)%nat →
  wp (is_child_of fuel ts' n (Z.of_nat p) (Z.of_nat c)) (λ b m', m' = m ∧ (b = true ↔ rtc (depends ts n) p c)) m.
Proof.
  intros Hs. revert path p. induction fuel as [|fuel IH]; intros path p Hreach Hnd Hb Hp Hc Hf.
  { by destruct (fuel_left _ path p 0 Hac Hreach Hnd Hb Hp Hf) as (? & ? & _). }
  destruct (fuel_left _ path p _ Hac Hreach Hnd Hb Hp Hf) as (f' & [= <-] & Hnd' & Hf').
  simpl. rewrite (proj2 (Z.leb_gt _ _)), (proj2 (Z.ltb_ge _ _)), (proj2 (Z.leb_gt _ _)) by lia. simpl.
  rewrite (proj2 (Z.ltb_ge (Z.of_nat p) 0)) by lia. simpl.
  destruct (Z.eqb_spec (Z.of_nat p) (Z.of_nat c)) as [Hpc|Hpc].
  { wp_step. split; [done|]. replace c with p by lia. done. }
  rewrite cell_nat. destruct (lookup_lt_is_Some_2 ts' p) as [t Ht].
  { rewrite (same_tasks_length _ _ Hs). pose proof (ix_length _ _ Hix). lia. }
  assert (dependents_indexes t = outs ts p) as Ho.
  { rewrite <-(proj2 (same_edges _ _ p Hs)). unfold outs. by rewrite Ht. }
  wp_step. apply (wp_deref _ _ _ _ Ht). wp_step. rewrite Ho. eapply wp_mono.
  - apply (wp_loopC _ (λ don _ m', m' = m ∧ ∀ j, Z.of_nat j ∈ don → ¬ rtc (depends ts n) j c)
      (λ _ m', m' = m ∧ rtc (depends ts n) p c)).
    { split; [done|]. by intros j ?%elem_of_nil. }
    intros don j rest _ m1 Hsplit [-> Hdon].
    destruct (outs_depends p j Hp) as (i & -> & Hi & Hd); [rewrite Hsplit; set_solver|].
    assert (i ≠ p) as Hne by (intros ->; by apply (Hac p), tc_once).
    destruct (path_extend path p i Hreach Hb Hd) as [Hr' Hb'].
    wp_step. rewrite (proj2 (Z.eqb_neq _ _)) by lia. eapply wp_mono; [by apply (IH (path ++ [p]) i)|].
    intros b m1 [-> Hbi]. wp_step. destruct b; (split; [done|]).
    + eapply rtc_l; [done|]. by apply Hbi.
    + intros j [Hj|Hj%list_elem_of_singleton]%elem_of_app; [by apply Hdon|].
      replace j with i by lia. intros Hrt%Hbi. done.
  - intros [u|u] m1 [-> H]; wp_step; (split; [done|]); [|done]. split; [done|]. intros Hrt.
    apply rtc_inv in Hrt as [?|(j & Hd & Hrt)]; [lia|]. exfalso. eapply H; [|done]. by apply depends_outs.
Qed.

(** Any other arguments. *)
Lemma wp_is_child_any ts' p c m :
  same_tasks ts ts' → (p < n)%nat →
  wp (is_child_of (S n) ts' n (Z.of_nat p) c) (λ _ m', m' = m) m.
Proof.
  intros Hs Hp. destruct (decide (0 ≤ c < Z.of_nat n)) as [Hc|Hc].
  - replace c with (Z.of_nat (Z.to_nat c)) by lia. eapply wp_mono.
    + apply (wp_is_child ts' [] p (Z.to_nat c)); try done; [by intros q ?%elem_of_nil|apply NoDup_nil_2|
        by intros q ?%elem_of_nil|lia|simpl; lia].
    + by intros b m' [-> _].
  - simpl. assert ((Z.of_nat n <=? Z.of_nat p) || (c <? 0) || (Z.of_nat n <=? c) = true) as ->; [|by wp_step].
    destruct (Z.ltb_spec c 0), (Z.leb_spec (Z.of_nat n) c); simpl; rewrite ?orb_true_r; done || lia.
Qed.

(** ** Links *)

(** The operators that a pair may have: opening and closing. *)
Definition pairs (o c : string) : bool :=
  (is_op o OPH_OPERATOR_FOR && is_op c OPH_OPERATOR_ENDFOR) ||
  ((is_op o OPH_OPERATOR_IF || is_op o OPH_OPERATOR_ELSEIF || is_op o OPH_OPERATOR_ELSE) &&
   (is_op c OPH_OPERATOR_ELSEIF || is_op c OPH_OPERATOR_ELSE || is_op c OPH_OPERATOR_ENDIF)).

Definition op_of (i : nat) : string := default ""%string (ts !! i ≫= operator).

(** Task [j] may have [p] as parent. *)
Definition link (p j : nat) : Prop :=
  (p < n)%nat ∧ tc (depends ts n) p j ∧ pairs (op_of p) (op_of j) = true.

Definition links_ok (ts' : list oph_workflow_task) : Prop :=
  ∀ j t, (j < n)%nat → ts' !! j = Some t → parent t = -1 ∨ ∃ p, parent t = Z.of_nat p ∧ link p j.

Record inv (st : fco) : Prop := {
  iv_same : same_tasks ts (f_tasks st);
  iv_flag : length (f_flag st) = n;
  iv_level : length (f_level st) = n;
  iv_links : links_ok (f_tasks st);
}.

Context (Hops : ∀ i t, (i < n)%nat → ts !! i = Some t → is_Some (operator t)).

Lemma inv_task st i : inv st → (i < n)%nat →
  ∃ t, f_tasks st !! i = Some t ∧ operator t = Some (op_of i) ∧ dependents_indexes t = outs ts i.
Proof.
  intros Hi Hin. destruct (lookup_lt_is_Some_2 ts i) as [t0 Ht0]; [pose proof (ix_length _ _ Hix); lia|].
  destruct (same_tasks_lookup_r _ _ _ _ (iv_same _ Hi) Ht0) as (t & Ht & Hr).
  exists t. apply reset_fields in Hr as (Ho & _ & Hd & _). destruct (Hops i t0 Hin Ht0) as [o Hop].
  split_and!; [done| |]; unfold op_of, outs; rewrite Ht0; simpl; [by rewrite Ho, Hop|done].
Qed.

(** A task changes only in its links, the parent included when the link is right. *)
Lemma inv_update st j t t' :
  inv st → f_tasks st !! j = Some t → reset_links t' = reset_links t →
  (parent t' = parent t ∨ ∃ p, parent t' = Z.of_nat p ∧ link p j) →
  inv (set_f_tasks (<[j := t']> (f_tasks st)) st).
Proof.
  intros [Hs Hfl Hlv Hl] Ht Hr Hp. split; simpl; [|done|done|].
  - unfold same_tasks in *. rewrite list_fmap_insert, Hr, <-Hs. apply list_insert_id.
    by rewrite list_lookup_fmap, Ht.
  - intros i ti Hi Hti. destruct (decide (i = j)) as [->|Hne].
    + rewrite list_lookup_insert_eq in Hti by (by eapply lookup_lt_Some). simplify_eq.
      destruct Hp as [->|Hp]; [by eapply Hl|by right].
    + rewrite list_lookup_insert_ne in Hti by done. by eapply Hl.
Qed.

Lemma inv_flag st l : inv st → length l = n → inv (set_f_flag l st).
Proof. intros [? ? ? ?] Hl. by split. Qed.
Lemma inv_level st l : inv st → length l = n → inv (set_f_level l st).
Proof. intros [? ? ? ?] Hl. by split. Qed.
Lemma inv_child st c : inv st → inv (set_f_child c st).
Proof. intros [? ? ? ?]. by split. Qed.

Lemma wp_raise_level st (j : nat) v m :
  inv st → (j < n)%nat → wp (raise_level (Z.of_nat j) v st) (λ st' m', m' = m ∧ inv st') m.
Proof.
  intros Hi Hj. unfold raise_level. rewrite cell_nat, set_cell_nat.
  destruct (lookup_lt_is_Some_2 (f_level st) j) as [lj Hlj]; [by rewrite (iv_level _ Hi)|].
  wp_step. apply (wp_deref _ _ _ _ Hlj). wp_step. split; [done|]. destruct (lj <? v); [|done].
  apply inv_level; [done|]. by rewrite length_insert, (iv_level _ Hi).
Qed.

Lemma wp_count_end st (j p : nat) gp m :
  inv st → (j < n)%nat → link p j →
  wp (count_end st (Z.of_nat j) (Z.of_nat p) gp) (λ r m', m' = m ∧ inv r.2) m.
Proof.
  intros Hi Hj Hlk. unfold count_end. rewrite ?cell_nat, ?set_cell_nat.
  destruct (lookup_lt_is_Some_2 (f_flag st) j) as [fl Hfl]; [by rewrite (iv_flag _ Hi)|].
  wp_step. apply (wp_deref _ _ _ _ Hfl). destruct fl; simpl negb; cbv iota; [|by wp_step].
  set (st1 := set_f_flag _ st). assert (inv st1) as Hi1.
  { apply inv_flag; [done|]. by rewrite length_insert, (iv_flag _ Hi). }
  destruct (inv_task st1 j Hi1 Hj) as (tj & Htj & _ & _). wp_step. rewrite ?cell_nat. apply (wp_deref _ _ _ _ Htj).
  assert (∀ st2 res, inv st2 → wp (tj ← deref (cell (f_tasks st2) (Z.of_nat j));
    mret (res : Z, set_f_tasks (set_cell (f_tasks st2) (Z.of_nat j) (set_branch_num (branch_num tj + 1) tj)) st2))
    (λ r m', m' = m ∧ inv r.2) m) as Hfin.
  { intros st2 res Hi2. destruct (inv_task st2 j Hi2 Hj) as (t2 & Ht2 & _ & _). rewrite ?cell_nat.
    wp_step. apply (wp_deref _ _ _ _ Ht2). wp_step. split; [done|]. rewrite ?set_cell_nat.
    apply (inv_update st2 j t2); [done|done|done|by left]. }
  wp_step. rewrite ?set_cell_nat. destruct ((parent tj <? 0) || (parent tj =? Z.of_nat p)).
  - set (st2 := set_f_tasks _ st1). assert (inv st2) as Hi2.
    { apply (inv_update st1 j tj); [done|done|done|]. right. by exists p. }
    destruct (inv_task st2 p Hi2 (proj1 Hlk)) as (tp & Htp & _ & _). wp_step. rewrite ?cell_nat.
    apply (wp_deref _ _ _ _ Htp). wp_step. apply Hfin. apply inv_child. rewrite ?set_cell_nat.
    apply (inv_update st2 p tp); [done|done|done|by left].
  - wp_step. by apply Hfin.
Qed.

Lemma wp_open_bracket st (j p : nat) bn m :
  inv st → (j < n)%nat → (p < n)%nat →
  wp (open_bracket st (Z.of_nat j) (Z.of_nat p) bn) (λ r m', m' = m ∧ inv r.2 ∧ r.1 = bn + 1) m.
Proof.
  intros Hi Hj Hp. unfold open_bracket. rewrite ?cell_nat, ?set_cell_nat.
  destruct (inv_task st p Hi Hp) as (tp & Htp & _ & _). wp_step. apply (wp_deref _ _ _ _ Htp).
  set (st1 := if nesting_level tp <? bn + 1 then _ else st).
  assert (inv st1) as Hi1.
  { unfold st1. destruct (nesting_level tp <? bn + 1); [|done]. rewrite set_cell_nat.
    apply (inv_update st p tp); [done|done|done|by left]. }
  destruct (lookup_lt_is_Some_2 (f_level st1) p) as [lp Hlp]; [by rewrite (iv_level _ Hi1)|].
  wp_step. rewrite ?cell_nat. apply (wp_deref _ _ _ _ Hlp). wp_step.
  eapply wp_mono; [by apply wp_raise_level|]. intros st2 m1 [-> Hi2]. by wp_step.
Qed.

(** The walk for the end-tasks of [p]: it terminates within a path of the graph and
    links [p] only to tasks it may be linked to. *)
Lemma wp_number_of (p : nat) gp op nop :
  (p < n)%nat → (∀ c, is_op c op = true → pairs (op_of p) c = true) →
  ∀ fuel st k path bn m,
  inv st → rtc (depends ts n) p k → (k < n)%nat → 0 ≤ bn →
  (∀ q, q ∈ path → tc (depends ts n) q k) → NoDup path → (∀ q, q ∈ path → (q < n)%nat) →
  (n < fuel + length path)%nat →
  wp (number_of fuel n st (Z.of_nat k) (Z.of_nat p) gp op nop bn) (λ r m', m' = m ∧ inv r.2) m.
Proof.
  intros Hp Hpair. induction fuel as [|fuel IH]; intros st k path bn m Hi Hpk Hk Hbn Hreach Hnd Hb Hf.
  { by destruct (fuel_left _ path k 0 Hac Hreach Hnd Hb Hk Hf) as (? & ? & _). }
  destruct (fuel_left _ path k _ Hac Hreach Hnd Hb Hk Hf) as (f' & [= <-] & Hnd' & Hf').
  simpl. rewrite (proj2 (Z.ltb_ge _ _)), (proj2 (Z.leb_gt _ _)) by lia. simpl. rewrite ?cell_nat.
  destruct (inv_task st k Hi Hk) as (tk & Htk & _ & Hout). wp_step. apply (wp_deref _ _ _ _ Htk).
  rewrite Hout. wp_step. eapply wp_mono.
  - apply (wp_loopC _ (λ _ acc m', m' = m ∧ inv acc.2) (λ acc m', m' = m ∧ inv acc.2)); [done|].
    intros don j rest [res st1] m1 Hsplit [-> Hi1]. simpl in Hi1.
    destruct (outs_depends k j Hk) as (i & -> & Hin & Hd); [rewrite Hsplit; set_solver|].
    destruct (path_extend path k i Hreach Hb Hd) as [Hr' Hb'].
    assert (tc (depends ts n) p i) as Hpi by (eapply tc_rtc_l; [done|by apply tc_once]).
    rewrite ?cell_nat. destruct (lookup_lt_is_Some_2 (f_level st1) p) as [lp Hlp]; [by rewrite (iv_level _ Hi1)|].
    wp_step. apply (wp_deref _ _ _ _ Hlp). wp_step. eapply wp_mono; [by apply wp_raise_level|].
    intros st2 m1 [-> Hi2]. rewrite ?cell_nat. destruct (inv_task st2 i Hi2 Hin) as (ti & Hti & Hoi & _).
    wp_step. apply (wp_deref _ _ _ _ Hti). rewrite Hoi. wp_step. wp_step. wp_step.
    assert (∀ c, wp c (λ r m', m' = m ∧ inv r.2) m → wp c (λ (a : Z * fco) m', wp (let '(r, st) := a in
      mret (if 1 <? res + r then Break (res + r, st) else Next (res + r, st)))
      (λ (c0 : ctl (Z * fco) (Z * fco)) m'0, match c0 with
        | Next s' => m'0 = m ∧ inv s'.2 | Break r => m'0 = m ∧ inv r.2 end) m') m) as Hres.
    { intros c Hc. eapply wp_mono; [exact Hc|]. intros [r st3] m2 [-> Hi3]. wp_step.
      by destruct (1 <? res + r). }
    destruct (lookup_lt_is_Some_2 (f_level st2) i) as [li Hli]; [by rewrite (iv_level _ Hi2)|].
    destruct (lookup_lt_is_Some_2 (f_level st2) p) as [lp2 Hlp2]; [by rewrite (iv_level _ Hi2)|].
    apply Hres. destruct (is_op (op_of i) _) eqn:Hop.
    + wp_step. apply (wp_deref _ _ _ _ Hli). wp_step. apply (wp_deref _ _ _ _ Hlp2).
      set (bn' := if bn + lp2 <? li then li - lp2 else bn).
      assert (bn ≤ bn') as Hbn' by (unfold bn'; destruct (Z.ltb_spec (bn + lp2) li); lia).
      destruct (Z.eqb_spec bn' 0) as [Hz|Hz]; simpl negb; cbv iota.
      * apply wp_count_end; [done|done|]. split_and!; [done|done|]. apply Hpair.
        replace bn with 0 in Hop by lia. done.
      * apply (IH _ _ (path ++ [k])); try done; [by apply tc_rtc|lia].
    + wp_step. assert (∀ bn2 st3, 0 ≤ bn2 → inv st3 →
        wp (number_of fuel n st3 (Z.of_nat i) (Z.of_nat p) gp op nop bn2) (λ r m', m' = m ∧ inv r.2) m) as Hrec.
      { intros bn2 st3 Hbn2 Hi3. apply (IH _ _ (path ++ [k])); try done. by apply tc_rtc. }
      destruct (existsb _ _).
      * eapply wp_mono; [by apply wp_open_bracket|]. intros [bn2 st3] m2 (-> & Hi3 & Hb2).
        simpl in Hb2. subst bn2. apply Hrec; [lia|done].
      * wp_step. by apply Hrec.
  - intros [r|r] m1 [-> Hi1]; by wp_step.
Qed.

(** ** The checks *)

Lemma wp_count_ways st (k : nat) gp op nop m :
  inv st → (k < n)%nat → (∀ c, is_op c op = true → pairs (op_of k) c = true) →
  wp (count_ways n st (Z.of_nat k) gp op nop) (λ r m', m' = m ∧ inv r.2) m.
Proof.
  intros Hi Hk Hpair. unfold count_ways. eapply (wp_number_of k gp op nop Hk Hpair _ _ k []); try done.
  - apply inv_flag; [done|]. apply length_replicate.
  - by intros q ?%elem_of_nil.
  - apply NoDup_nil_2.
  - by intros q ?%elem_of_nil.
  - simpl. lia.
Qed.

Lemma wp_mismatch st (k : nat) closer m :
  inv st → (k < n)%nat → wp (mismatch n st (Z.of_nat k) closer) (λ _ m', m' = m) m.
Proof.
  intros Hi Hk. unfold mismatch. wp_step. eapply wp_mono.
  - apply (wp_loopC _ (λ _ _ m', m' = m) (λ _ m', m' = m)); [done|].
    intros don i rest _ m1 Hseq ->. apply seq_app_cons_inv in Hseq as (_ & _ & Hin).
    destruct (inv_task st i Hi Hin) as (ti & Hti & _ & _). wp_step. apply (wp_deref _ _ _ _ Hti).
    destruct (negb (parent ti =? Z.of_nat k)); [by wp_step|].
    destruct (inv_task st k Hi Hk) as (tk & Htk & Hok & _). rewrite cell_nat.
    wp_step. apply (wp_deref _ _ _ _ Htk). rewrite Hok. wp_step. wp_step.
    destruct (is_op (op_of k) closer); [by wp_step|]. wp_step.
    eapply wp_mono; [apply wp_is_child_any; [apply Hi|done]|].
    intros b m1 ->. wp_step. by destruct b.
  - intros [u|u] m1 ->; by wp_step.
Qed.

(** A chain of parents goes up the graph. *)
Lemma wp_climb st path p fuel m :
  inv st → (∀ q, q ∈ path → tc (flip (depends ts n)) q p) → NoDup path → (∀ q, q ∈ path → (q < n)%nat) →
  (p < n)%nat → (n < fuel + length path)%nat →
  wp (climb fuel (f_tasks st) (Z.of_nat p)) (λ _ m', m' = m) m.
Proof.
  intros Hi. assert (∀ q, ¬ tc (flip (depends ts n)) q q) as Hirr.
  { intros q Hq. by apply (Hac q), tc_flip. }
  revert path p. induction fuel as [|fuel IH]; intros path p Hreach Hnd Hb Hp Hf.
  { by destruct (fuel_left _ path p 0 Hirr Hreach Hnd Hb Hp Hf) as (? & ? & _). }
  destruct (fuel_left _ path p _ Hirr Hreach Hnd Hb Hp Hf) as (f' & [= <-] & Hnd' & Hf').
  simpl. rewrite cell_nat. destruct (inv_task st p Hi Hp) as (tp & Htp & _ & _). wp_step. apply (wp_deref _ _ _ _ Htp).
  destruct (Z.leb_spec 0 (parent tp)) as [Hpos|Hneg]; [|by wp_step].
  destruct (iv_links _ Hi p tp Hp Htp) as [?|(q & -> & Hq & Htc & _)]; [lia|].
  assert (tc (flip (depends ts n)) p q) as Hpq by (by apply (tc_flip (flip (depends ts n)))).
  apply (IH (path ++ [p])); [|done| |done|done].
  - intros x [Hx| ->%list_elem_of_singleton]%elem_of_app; [|done]. etrans; [by apply Hreach|done].
  - intros x [Hx| ->%list_elem_of_singleton]%elem_of_app; [by apply Hb|done].
Qed.

Lemma wp_gparent st (k : nat) m :
  inv st → (k < n)%nat → wp (oph_gparent_of (f_tasks st) n (Z.of_nat k)) (λ _ m', m' = m) m.
Proof.
  intros Hi Hk. unfold oph_gparent_of. rewrite (proj2 (Z.ltb_ge _ _)), cell_nat by lia.
  destruct (inv_task st k Hi Hk) as (t & Ht & _ & _). wp_step. apply (wp_deref _ _ _ _ Ht).
  destruct (Z.ltb_spec (parent t) 0); [by wp_step|].
  destruct (iv_links _ Hi k t Hk Ht) as [?|(q & -> & Hq & _)]; [lia|].
  apply (wp_climb st []); [done|by intros ? ?%elem_of_nil|apply NoDup_nil_2|by intros ? ?%elem_of_nil|done|simpl; lia].
Qed.

(** The closing operators of an "if" block. *)
Definition if_closer (op : string) : Prop :=
  op = OPH_OPERATOR_ELSEIF ∨ op = OPH_OPERATOR_ELSE ∨ op = OPH_OPERATOR_ENDIF.
Definition if_opener (k : nat) : Prop :=
  is_op (op_of k) OPH_OPERATOR_IF || is_op (op_of k) OPH_OPERATOR_ELSEIF || is_op (op_of k) OPH_OPERATOR_ELSE = true.

Lemma if_pairs k op c : if_opener k → if_closer op → is_op c op = true → pairs (op_of k) c = true.
Proof.
  unfold if_opener, pairs. intros -> Hop Hc. apply orb_true_iff. right. simpl.
  destruct Hop as [->|[->| ->]]; rewrite Hc, ?orb_true_r; done.
Qed.

Lemma wp_check_optional st (k : nat) gp op m :
  inv st → (k < n)%nat → if_opener k → if_closer op →
  wp (check_optional n st (Z.of_nat k) gp op) (λ r m', m' = m ∧ inv r.2) m.
Proof.
  intros Hi Hk Ho Hc. unfold check_optional. wp_step.
  eapply wp_mono; [apply wp_count_ways; [by apply inv_child|done|intros c; by apply if_pairs]|].
  intros [number st1] m1 [-> Hi1]. simpl in Hi1. destruct (1 <? number); [by wp_step|].
  destruct (0 <=? f_child st1); [|by wp_step]. wp_step.
  eapply wp_mono; [by apply wp_mismatch|]. intros b m1 ->. by wp_step.
Qed.

Lemma wp_check_endif st (k : nat) kk m :
  inv st → (k < n)%nat → if_opener k → wp (check_endif n st (Z.of_nat k) kk) (λ r m', m' = m ∧ inv r.2) m.
Proof.
  intros Hi Hk Ho. unfold check_endif. wp_step.
  eapply wp_mono; [apply wp_count_ways; [done|done|]|].
  { intros c. apply if_pairs; [done|by do 2 right]. }
  intros [number st1] m1 [-> Hi1]. simpl in Hi1. destruct (_ || _); [by wp_step|].
  wp_step. eapply wp_mono; [by apply wp_mismatch|]. intros b m1 ->. by wp_step.
Qed.

Lemma wp_check_if st (k : nat) m :
  inv st → (k < n)%nat → if_opener k → wp (check_if n st (Z.of_nat k)) (λ r m', m' = m ∧ inv r.2) m.
Proof.
  intros Hi Hk Ho. unfold check_if. wp_step. eapply wp_mono; [apply wp_check_optional; [done|done|done|by left]|].
  intros [[linked ok] st1] m1 [-> Hi1]. simpl in Hi1. destruct ok; simpl negb; cbv iota; [|by wp_step].
  wp_step. assert (∀ st2 ok, inv st2 → wp (if negb ok then mret (false, st2) else
    '(number, st) ← count_ways n st2 (Z.of_nat k) (Z.of_nat k) OPH_OPERATOR_ENDIF OPH_OPERATOR_IF;
    if (number =? 0) && (1 <? number) then mret (false, st) else
    b ← mismatch n st (Z.of_nat k) OPH_OPERATOR_ENDIF; mret (negb b, st)) (λ r m', m' = m ∧ inv r.2) m) as Hend.
  { intros st2 ok Hi2. destruct ok; simpl negb; cbv iota; [|by wp_step]. wp_step.
    eapply wp_mono; [apply wp_count_ways; [done|done|intros c; apply if_pairs; [done|by do 2 right]]|].
    intros [number st3] m1 [-> Hi3]. simpl in Hi3. destruct (_ && _); [by wp_step|].
    wp_step. eapply wp_mono; [by apply wp_mismatch|]. intros b m1 ->. by wp_step. }
  destruct linked; [wp_step; by apply Hend|]. wp_step.
  eapply wp_mono; [apply wp_check_optional; [done|done|done|by right; left]|].
  intros [[l2 ok] st2] m1 [-> Hi2]. wp_step. by apply Hend.
Qed.

Lemma wp_check_elseif st (k : nat) m :
  inv st → (k < n)%nat → if_opener k → wp (check_elseif n st (Z.of_nat k)) (λ r m', m' = m ∧ inv r.2) m.
Proof.
  intros Hi Hk Ho. unfold check_elseif. wp_step. eapply wp_mono; [by apply wp_gparent|]. intros kk m1 ->. wp_step.
  eapply wp_mono; [apply wp_check_optional; [done|done|done|by left]|].
  intros [[linked ok] st1] m1 [-> Hi1]. simpl in Hi1. destruct linked; [by wp_step|]. wp_step.
  eapply wp_mono; [apply wp_check_optional; [done|done|done|by right; left]|].
  intros [[linked ok2] st2] m1 [-> Hi2]. simpl in Hi2. destruct linked; [by wp_step|]. by apply wp_check_endif.
Qed.

Lemma wp_check_task st (k : nat) m :
  inv st → (k < n)%nat → wp (check_task n st (Z.of_nat k)) (λ r m', m' = m ∧ inv r.2) m.
Proof.
  intros Hi Hk. unfold check_task. rewrite cell_nat. destruct (inv_task st k Hi Hk) as (t & Ht & Ho & _).
  wp_step. apply (wp_deref _ _ _ _ Ht). rewrite Ho. wp_step. wp_step.
  destruct (is_op (op_of k) OPH_OPERATOR_FOR) eqn:H1.
  { unfold check_for. wp_step. eapply wp_mono; [apply wp_count_ways; [done|done|]|].
    { intros c Hc. unfold pairs. by rewrite H1, Hc. }
    intros [number st1] m1 [-> Hi1]. simpl in Hi1. destruct (_ || _); [by wp_step|].
    wp_step. eapply wp_mono; [by apply wp_mismatch|]. intros b m1 ->. by wp_step. }
  destruct (is_op (op_of k) OPH_OPERATOR_IF) eqn:H2.
  { apply wp_check_if; [done|done|]. unfold if_opener. by rewrite H2. }
  destruct (is_op (op_of k) OPH_OPERATOR_ELSEIF) eqn:H3.
  { apply wp_check_elseif; [done|done|]. unfold if_opener. by rewrite H3, orb_true_r. }
  destruct (is_op (op_of k) OPH_OPERATOR_ELSE) eqn:H4; [|by wp_step].
  unfold check_else. wp_step. eapply wp_mono; [by apply wp_gparent|]. intros kk m1 ->.
  apply wp_check_endif; [done|done|]. unfold if_opener. by rewrite H4, !orb_true_r.
Qed.

(** The reset of the links. *)
Lemma wp_reset m :
  wp (foldC (λ ts k, t ← deref (ts !! k); mret (<[k := reset_links t]> ts)) ts (seq 0 n)) (λ ts' m', m' = m ∧
    same_tasks ts ts' ∧ ∀ j t, (j < n)%nat → ts' !! j = Some t → parent t = -1) m.
Proof.
  eapply wp_mono.
  - apply (wp_foldC _ (λ don ts' m', m' = m ∧ same_tasks ts ts' ∧
      ∀ j t, (j < length don)%nat → ts' !! j = Some t → parent t = -1)).
    { split_and!; [done|done|]. simpl. lia. }
    intros don k rest ts1 m1 Hseq (-> & Hs & Hp). apply seq_app_cons_inv in Hseq as (-> & _ & Hk).
    destruct (lookup_lt_is_Some_2 ts1 (length don)) as [t Ht].
    { rewrite (same_tasks_length _ _ Hs). pose proof (ix_length _ _ Hix). lia. }
    wp_step. apply (wp_deref _ _ _ _ Ht). wp_step. split_and!; [done| |].
    + unfold same_tasks in *. rewrite list_fmap_insert.
      change (reset_links (reset_links t)) with (reset_links t). rewrite <-Hs. apply list_insert_id.
      by rewrite list_lookup_fmap, Ht.
    + intros j tj Hj Htj. rewrite length_app in Hj. simpl in Hj. destruct (decide (j = length don)) as [->|Hne].
      * rewrite list_lookup_insert_eq in Htj by (by eapply lookup_lt_Some). by simplify_eq.
      * rewrite list_lookup_insert_ne in Htj by done. apply (Hp j); [lia|done].
  - intros ts1 m1 (-> & Hs & Hp). split_and!; [done|done|]. intros j t Hj. apply Hp. by rewrite length_seq.
Qed.

End flow.

(** ** Properties *)

Definition operators (ts : list oph_workflow_task) (n : nat) : Prop :=
  ∀ i t, (i < n)%nat → ts !! i = Some t → is_Some (operator t).

Lemma wp_workflow_is_child (wf : oph_workflow) (p c : nat) (m : mem) :
  let ts := tasks wf in let n := tasks_num wf in
  indexed ts n → acyclic ts n → (p < n)%nat → (c < n)%nat →
  wp (oph_workflow_is_child_of (Some wf) (Z.of_nat p) (Z.of_nat c)) (λ b m',
    m' = m ∧ (b = true ↔ rtc (depends ts n) p c)) m.
Proof.
  intros ts n Hix Hac Hp Hc. unfold oph_workflow_is_child_of.
  apply (wp_is_child ts n Hix Hac (tasks wf) [] p c); try done; [by intros q ?%elem_of_nil|apply NoDup_nil_2|
    by intros q ?%elem_of_nil|simpl; lia].
Qed.

(** on an acyclic workflow [oph_workflow_is_child_of] terminates and decides whether
    task [c] is task [p] or (transitively) depends on it. *)
Theorem is_child_of_reachable (wf : oph_workflow) (p c : nat) (m : mem) :
  let ts := tasks wf in let n := tasks_num wf in
  indexed ts n → acyclic ts n → (p < n)%nat → (c < n)%nat →
  wp (oph_workflow_is_child_of (Some wf) (Z.of_nat p) (Z.of_nat c)) (λ b _,
    b = true ↔ rtc (depends ts n) p c) m.
Proof.
  intros ts n Hix Hac Hp Hc. eapply wp_mono; [by apply wp_workflow_is_child|]. by intros b m' [_ H].
Qed.

(** Dependencies on earlier tasks only. *)
Lemma ordered_acyclic ts n :
  (∀ i x, (i < n)%nat → x ∈ ins ts i → x < Z.of_nat i) → acyclic ts n.
Proof.
  intros Hord. assert (∀ a b, tc (depends ts n) a b → (a < b)%nat) as H; [|intros i Hi%H; lia].
  assert (∀ a b, depends ts n a b → (a < b)%nat) as Hone.
  { intros a b (Ha & Hb & Hin). apply Hord in Hin; [lia|done]. }
  induction 1 as [a b Hd|a b c Hd _ IH]; [by apply Hone|]. apply Hone in Hd. lia.
Qed.

Lemma sample_acyclic : acyclic sample_indexed 2.
Proof.
  apply ordered_acyclic. intros [|[|]] x Hi Hx; [by apply elem_of_nil in Hx| |lia].
  apply list_elem_of_singleton in Hx as ->. simpl. lia.
Qed.

Lemma is_child_of_reachable_witness :
  oph_workflow_is_child_of (Some sample_workflow) 0 1 [] = Ok true [] ∧
  wp (oph_workflow_is_child_of (Some sample_workflow) (Z.of_nat 0) (Z.of_nat 1)) (λ b _,
    b = true ↔ rtc (depends sample_indexed 2) 0%nat 1%nat) [].
Proof.
  split; [vm_compute; reflexivity|].
  apply (is_child_of_reachable sample_workflow 0 1 []); [apply sample_indexed_ok|apply sample_acyclic|simpl; lia..].
Defined.

Lemma validate_fco_spec (child0 : Z) (wf : oph_workflow) (m : mem) :
  let ts := tasks wf in let n := tasks_num wf in
  indexed ts n → acyclic ts n → operators ts n →
  wp (oph_workflow_validate_fco child0 (Some wf)) (λ r _, ∃ ts',
    r.2 = Some (set_tasks ts' wf) ∧ same_tasks ts ts' ∧
    (∀ j t, (j < n)%nat → ts' !! j = Some t → parent t = -1 ∨ ∃ p, parent t = Z.of_nat p ∧ link ts n p j) ∧
    (r.1 = OPH_WORKFLOW_EXIT_SUCCESS → ∀ j t, (j < n)%nat → ts' !! j = Some t →
       is_closer (op_of ts j) = true → ∃ p, parent t = Z.of_nat p ∧ link ts n p j)) m.
Proof.
  intros ts n Hix Hac Hops. unfold oph_workflow_validate_fco. wp_step.
  eapply wp_mono; [by apply (wp_reset ts n)|]. intros ts1 m1 (-> & Hs & Hp). wp_step. eapply wp_mono.
  - apply (wp_loopC _ (λ _ st m', m' = m ∧ inv ts n st) (λ st m', m' = m ∧ inv ts n st)).
    + split; [done|]. split; simpl; [done|apply length_replicate|apply length_replicate|].
      intros j t Hj Ht. left. by eapply Hp.
    + intros don k rest st m1 Hseq [-> Hi]. apply seq_app_cons_inv in Hseq as (_ & _ & Hk). wp_step.
      eapply wp_mono; [by apply (wp_check_task ts n Hix Hac Hops)|]. intros [ok st1] m1 [-> Hi1]. wp_step.
      by destruct ok.
  - intros [st|st] m1 [-> Hi].
    2:{ wp_step. exists (f_tasks st). split_and!; [done|apply Hi|apply Hi|done]. }
    wp_step. eapply wp_mono.
    + apply (wp_loopC _ (λ don _ m', ∀ j t, (j < length don)%nat → f_tasks st !! j = Some t →
          parent t < 0 → is_closer (op_of ts j) = false) (λ _ m', True)); [simpl; lia|].
      intros don k rest _ m1 Hseq Hdon. apply seq_app_cons_inv in Hseq as (-> & _ & Hk).
      destruct (inv_task ts n Hix Hops st (length don) Hi Hk) as (t & Ht & Ho & _).
      assert (∀ j tj, (j < length (don ++ [length don]))%nat → f_tasks st !! j = Some tj → parent tj < 0 →
        (parent t < 0 → is_closer (op_of ts (length don)) = false) → is_closer (op_of ts j) = false) as Hnext.
      { intros j tj Hj Htj Hneg Hk'. rewrite length_app in Hj. simpl in Hj.
        destruct (decide (j = length don)) as [->|Hne]; [simplify_eq; auto|]. apply (Hdon j tj); [lia|done..]. }
      wp_step. apply (wp_deref _ _ _ _ Ht). destruct (Z.ltb_spec (parent t) 0) as [Hneg|Hpos].
      * rewrite Ho. wp_step. wp_step. wp_step. destruct (is_closer (op_of ts (length don))) eqn:Hcl; [done|].
        intros j tj Hj Htj Hn. by apply (Hnext j tj).
      * wp_step. intros j tj Hj Htj Hn. apply (Hnext j tj); [done..|]. lia.
    + intros [u|u] m1 H; wp_step; exists (f_tasks st); split_and!; try done; try apply Hi.
      simpl. intros _ j t Hj Ht Hcl. destruct (iv_links _ _ _ Hi j t Hj Ht) as [Hneg|?]; [|done].
      rewrite (H j t) in Hcl; [done|by rewrite length_seq|done|lia].
Qed.

(** C22: [oph_workflow_validate_fco] terminates on every acyclic workflow without leaving
    its arrays, whatever the uninitialised [child] holds; it changes only the four link
    fields; every parent it records is an opening operator of the kind of the task
    (for/endfor, if/elseif/else/endif) from which the task is reachable; and on success
    every closing operator has a parent. *)
Theorem validate_fco_links (child0 : Z) (wf : oph_workflow) (m : mem) :
  let ts := tasks wf in let n := tasks_num wf in
  indexed ts n → acyclic ts n → operators ts n →
  wp (oph_workflow_validate_fco child0 (Some wf)) (λ r _, ∃ ts',
    r.2 = Some (set_tasks ts' wf) ∧ same_tasks ts ts' ∧
    (∀ j t, (j < n)%nat → ts' !! j = Some t → parent t = -1 ∨ ∃ p, parent t = Z.of_nat p ∧ link ts n p j) ∧
    (r.1 = OPH_WORKFLOW_EXIT_SUCCESS → ∀ j t, (j < n)%nat → ts' !! j = Some t →
       is_closer (op_of ts j) = true → ∃ p, parent t = Z.of_nat p ∧ link ts n p j)) m.
Proof. apply validate_fco_spec. Qed.

(** A loop of two tasks. *)
Definition sample_loop : oph_workflow :=
  set_tasks [set_operator (Some "oph_for"%string) (set_dependents_indexes [1] (named_task "A" []));
             set_operator (Some "OPH_ENDFOR"%string)
               (set_deps [set_task_index 0 (dep_on "A")] (named_task "B" ["A"])); zero_task]
    (set_tasks_num 2 zero_workflow).

Lemma sample_loop_ok :
  indexed (tasks sample_loop) 2 ∧ acyclic (tasks sample_loop) 2 ∧ operators (tasks sample_loop) 2.
Proof.
  split_and!.
  - split; simpl; [lia| | |]; intros [|[|]]; try lia; intros; try (destruct k as [|[|]]; try lia);
      vm_compute; try done; repeat constructor; done.
  - apply ordered_acyclic. intros [|[|]] x Hi Hx; [by apply elem_of_nil in Hx| |lia].
    apply list_elem_of_singleton in Hx as ->. simpl. lia.
  - intros [|[|]] t Hi Ht; simplify_eq/=; [by eexists..|lia].
Qed.

Lemma validate_fco_links_witness :
  (∃ wf', oph_workflow_validate_fco 77 (Some sample_loop) [] = Ok (OPH_WORKFLOW_EXIT_SUCCESS, Some wf') [] ∧
     parent <$> tasks wf' = [-1; 0; 0] ∧ child <$> tasks wf' = [1; -1; 0]) ∧
  wp (oph_workflow_validate_fco 77 (Some sample_loop)) (λ r _, ∃ ts',
    r.2 = Some (set_tasks ts' sample_loop) ∧ same_tasks (tasks sample_loop) ts' ∧
    (∀ j t, (j < 2)%nat → ts' !! j = Some t →
       parent t = -1 ∨ ∃ p, parent t = Z.of_nat p ∧ link (tasks sample_loop) 2 p j) ∧
    (r.1 = OPH_WORKFLOW_EXIT_SUCCESS → ∀ j t, (j < 2)%nat → ts' !! j = Some t →
       is_closer (op_of (tasks sample_loop) j) = true → ∃ p, parent t = Z.of_nat p ∧ link (tasks sample_loop) 2 p j)) [].
Proof.
  split; [eexists; split; [vm_compute; reflexivity|split; reflexivity]|].
  apply (validate_fco_links 77 sample_loop []); apply sample_loop_ok.
Defined.

(** an "if" without an "endif" passes the validation (the test of the number of ways
    to the "endif" asks for zero and more than one at once), while an "else" or a "for"
    without its end is refused. *)
Theorem unclosed_if_accepted (child0 : Z) (m : mem) :
  let alone op := set_tasks [set_operator (Some op) (named_task "A" []); zero_task] (set_tasks_num 1 zero_workflow) in
  (∃ wf', oph_workflow_validate_fco child0 (Some (alone OPH_OPERATOR_IF)) m = Ok (OPH_WORKFLOW_EXIT_SUCCESS, Some wf') m) ∧
  (∃ wf', oph_workflow_validate_fco child0 (Some (alone OPH_OPERATOR_FOR)) m =
     Ok (OPH_WORKFLOW_EXIT_BAD_PARAM_ERROR, Some wf') m) ∧
  (∃ wf', oph_workflow_validate_fco child0 (Some (alone OPH_OPERATOR_ELSE)) m =
     Ok (OPH_WORKFLOW_EXIT_BAD_PARAM_ERROR, Some wf') m).
Proof. split_and!; eexists; vm_compute; reflexivity. Qed.

End WfFlow.
