(* ===== verification/JobList.v ===== *)
(** * The job list ([src/src/oph_job_list.c], [src/src/oph_memory_job.c])

    The list of running workflows is a linked list shared by the threads of the
    server (under [global_flag]); every search also unlinks and frees the workflows
    that exceeded the timeout.  The model keeps the nodes and the workflows in a
    store, so that an access to a freed node is undefined behaviour, and addresses
    are never reused.

    The results: on a list ordered by time the operations implement a queue of live
    jobs; and the two histories after which the list keeps a dangling tail. *)

From Stdlib Require Ascii.
From stdpp Require Import base gmap strings numbers sorting list.
From S2P Require Import Prelude CString WfStructs.
Import WfStructs.

Module JobList.

Open Scope Z_scope.

Definition OPH_JOB_LIST_OK : Z := 0.
Definition OPH_JOB_LIST_ERROR : Z := 1.
Definition OPH_JOB_LIST_EXISTING_JOB : Z := 2.
Definition OPH_JOB_LIST_FULL : Z := 3.
Definition OPH_JOB_LIST_FARM_FULL : Z := 4.

Definition OPH_SERVER_OK : Z := 0.
Definition OPH_SERVER_ERROR : Z := 3.
Definition OPH_SERVER_NO_RESPONSE : Z := 8.

Definition OPH_ARG_MODE_SYNC : string := "sync".
Definition OPH_MAX_STRING_SIZE : nat := 4096.

Definition loc : Type := nat.
Definition ptr : Type := option loc.
Bind Scope nat_scope with loc.

Record oph_job_info : Type := JobInfo {
  timestamp : Z;
  wf : ptr;
  next : ptr;
}.

Record oph_job_list : Type := JList {
  head : ptr;
  tail : ptr;
  saved : ptr;
  counter : Z;
}.

(** The server settings the list reads. *)
Record settings : Type := Settings {
  oph_server_workflow_timeout : Z;
  oph_server_farm_size : Z;
  oph_server_queue_size : Z;
  oph_status_log_file_name : cstr;
}.

(** The nodes, the workflows, the next unused address and the list. *)
Record store : Type := Store {
  jobs : gmap loc oph_job_info;
  wfs : gmap loc oph_workflow;
  unused : loc;
  jlist : option oph_job_list;
}.

Definition set_jobs (js : gmap loc oph_job_info) (st : store) : store :=
  Store js (wfs st) (unused st) (jlist st).
Definition set_wfs (ws : gmap loc oph_workflow) (st : store) : store :=
  Store (jobs st) ws (unused st) (jlist st).
Definition set_jlist (l : oph_job_list) (st : store) : store :=
  Store (jobs st) (wfs st) (unused st) (Some l).

Definition set_next (p : ptr) (j : oph_job_info) : oph_job_info := JobInfo (timestamp j) (wf j) p.
Definition set_timestamp (t : Z) (j : oph_job_info) : oph_job_info := JobInfo t (wf j) (next j).

Definition set_head (p : ptr) (l : oph_job_list) : oph_job_list := JList p (tail l) (saved l) (counter l).
Definition set_tail (p : ptr) (l : oph_job_list) : oph_job_list := JList (head l) p (saved l) (counter l).
Definition set_saved (p : ptr) (l : oph_job_list) : oph_job_list := JList (head l) (tail l) p (counter l).
Definition set_counter (c : Z) (l : oph_job_list) : oph_job_list := JList (head l) (tail l) (saved l) c.

(** [p->next = q] *)
Definition write_next (p : ptr) (q : ptr) (st : store) : C store :=
  a ← deref p;
  j ← deref (jobs st !! a);
  mret (set_jobs (<[a := set_next q j]> (jobs st)) st).

Definition free_job (p : loc) (st : store) : store := set_jobs (delete p (jobs st)) st.

(** [oph_workflow_free(wf)] on the store; a null pointer is fine. *)
Definition free_workflow (p : ptr) (st : store) : C store :=
  match p with
  | None => mret st
  | Some a =>
      w ← deref (wfs st !! a);
      mret (match (oph_workflow_free (Some w)).2 with
            | None => set_wfs (delete a (wfs st)) st
            | Some w' => set_wfs (<[a := w']> (wfs st)) st
            end)
  end.

Definition oph_create_job_list (st : store) : C (Z * store) :=
  ok ← malloc;
  mret (if ok : bool then (OPH_JOB_LIST_OK, set_jlist (JList None None None 0) st)
        else (OPH_JOB_LIST_ERROR, Store (jobs st) (wfs st) (unused st) None)).

(** ** Expiry *)

(** [int remote_deadline = tv.tv_sec - oph_server_workflow_timeout] *)
Definition remote_deadline (cfg : settings) (now : Z) : Z :=
  wrap_i32 (now - oph_server_workflow_timeout cfg).

(** A synchronous workflow is left to the thread that waits for it. *)
Definition expire_workflow (p : ptr) (st : store) : C store :=
  a ← deref p;
  w ← deref (wfs st !! a);
  if from_option (λ md, strncasecmp0 md OPH_ARG_MODE_SYNC OPH_MAX_STRING_SIZE) false (exec_mode w)
  then mret (set_wfs (<[a := set_wf_status OPH_ODB_STATUS_EXPIRED w]> (wfs st)) st)
  else free_workflow p st.

(** The branch for an expired node: [None] is the early return of a list whose
    counter is zero.  [guarded]: [oph_find_job_in_children_job_lists] tests
    [temp->wf] first. *)
Definition expire (guarded : bool) (st : store) (temp_prev : ptr) (temp : loc) (j : oph_job_info) :
    C (option store) :=
  l ← deref (jlist st);
  if counter l =? 0 then mret None else
  let l := if bool_decide (tail l = Some temp) then set_tail temp_prev l else l in
  '(l, st) ← (if bool_decide (head l = Some temp) then mret (set_head (next j) l, st)
              else match temp_prev with
                   | Some _ => st' ← write_next temp_prev (next j) st; mret (l, st')
                   | None => mret (l, st)
                   end);
  let st := set_jlist (set_counter (wrap_u32 (counter l - 1)) l) st in
  st ← (if guarded && bool_decide (wf j = None) then mret st else expire_workflow (wf j) st);
  mret (Some (free_job temp st)).

(** The loop the searches share: unlink the expired nodes, [visit] the workflows of
    the others.  It returns the store, [temp_prev] and how it ended: at the end of
    the list with what the visits gathered, or early with the node that was hit. *)
Fixpoint walk {A R} (guarded : bool) (visit : A → oph_workflow → C (ctl A R)) (deadline : Z)
    (fuel : nat) (st : store) (temp_prev temp : ptr) (acc : A) :
    C (store * ptr * ctl A (option (loc * R))) :=
  match temp, fuel with
  | None, _ => mret (st, temp_prev, Next acc)
  | Some _, 0%nat => out_of_fuel
  | Some p, S fuel' =>
      j ← deref (jobs st !! p);
      if timestamp j <? deadline then
        r ← expire guarded st temp_prev p j;
        match r with
        | None => mret (st, temp_prev, Break None)
        | Some st' => walk guarded visit deadline fuel' st' (Some p) (next j) acc
        end
      else
        a ← deref (wf j);
        w ← deref (wfs st !! a);
        c ← visit acc w;
        match c with
        | Next acc' => walk guarded visit deadline fuel' st (Some p) (next j) acc'
        | Break r => mret (st, temp_prev, Break (Some (p, r)))
        end
  end.

(** A list visits each node of the store at most once. *)
Definition fuel_of (st : store) : nat := S (size (jobs st)).

Definition search {A R} (guarded : bool) (visit : A → oph_workflow → C (ctl A R)) (cfg : settings) (now : Z)
    (st : store) (l : oph_job_list) (acc : A) : C (store * ptr * ctl A (option (loc * R))) :=
  walk guarded visit (remote_deadline cfg now) (fuel_of st) st None (head l) acc.

(** ** Searches

    The result is the node found, with [*prev] where the caller asks for it. *)

Definition hit {A R} (r : ctl A (option (loc * R))) : option (loc * R) :=
  match r with Break h => h | Next _ => None end.

Definition is_job (jobid : Z) (_ : ()) (w : oph_workflow) : C (ctl () ()) :=
  mret (if wf_idjob w =? jobid then Break () else Next ()).

(** [*prev] is written only when the job is found. *)
Definition oph_find_job_in_job_list (cfg : settings) (now : Z) (st : store) (jobid : Z) :
    C (option (loc * ptr) * store) :=
  match jlist st with
  | None => mret (None, st)
  | Some l =>
      '(st', temp_prev, r) ← search false (is_job jobid) cfg now st l ();
      mret ((λ h, (h.1, temp_prev)) <$> hit r, st')
  end.

Definition has_child_job (jobid : Z) (_ : ()) (w : oph_workflow) : C (ctl () ()) :=
  if bool_decide (tasks w = []) then mret (Next ()) else
  loopC (λ _ i, t ← deref (tasks w !! i);
    mret (if idjob t =? jobid then Break () else Next ())) () (seq 0 (tasks_num w)).

Definition oph_find_job_in_children_job_lists (cfg : settings) (now : Z) (st : store) (jobid : Z) :
    C (option (loc * ptr) * store) :=
  match jlist st with
  | None => mret (None, st)
  | Some l =>
      '(st', temp_prev, r) ← search true (has_child_job jobid) cfg now st l ();
      mret ((λ h, (h.1, temp_prev)) <$> hit r, st')
  end.

(** [!sessionid || !strcmp(temp->wf->sessionid, sessionid)] *)
Definition in_session (sid : cstr) (w : oph_workflow) : C bool :=
  match sid with
  | None => mret true
  | Some _ => strcmp0 (sessionid w) sid
  end.

Definition is_workflow (sid : cstr) (id : Z) (_ : ()) (w : oph_workflow) : C (ctl () ()) :=
  b ← (if workflowid w =? id then in_session sid w else mret false);
  mret (if b : bool then Break () else Next ()).

(** [*prev] follows [temp] through the loop, found or not. *)
Definition oph_find_workflow_in_job_list_to_drop (cfg : settings) (now : Z) (st : store) (sid : cstr) (id : Z) :
    C (ptr * ptr * store) :=
  match jlist st with
  | None => mret (None, None, st)
  | Some l =>
      '(st', temp_prev, r) ← search false (is_workflow sid id) cfg now st l ();
      mret (fst <$> hit r, temp_prev, st')
  end.

Definition oph_find_workflow_in_job_list (cfg : settings) (now : Z) (st : store) (sid : cstr) (id : Z) :
    C (ptr * store) :=
  '(p, _, st') ← oph_find_workflow_in_job_list_to_drop cfg now st sid id;
  mret (p, st').

(** The task or light task with the marker; -1 stands for "none". *)
Definition has_marker (sid : cstr) (id : Z) (_ : ()) (w : oph_workflow) : C (ctl () (Z * Z)) :=
  b ← (if wf_markerid w =? id then in_session sid w else mret false);
  if b : bool then mret (Break (-1, -1)) else
  loopC (λ _ i,
    t ← deref (tasks w !! i);
    b ← (if markerid t =? id then in_session sid w else mret false);
    if b : bool then mret (Break (Z.of_nat i, -1)) else
    loopC (λ _ j,
      lt ← deref (light_tasks t !! j);
      b ← (if lt_markerid lt =? id then in_session sid w else mret false);
      mret (if b : bool then Break (Z.of_nat i, Z.of_nat j) else Next ()))
      () (seq 0 (length (light_tasks t)))) () (seq 0 (tasks_num w)).

(** The node found, [*task_index] and [*light_task_index]. *)
Definition oph_find_marker_in_job_list (cfg : settings) (now : Z) (st : store) (sid : cstr) (id : Z) :
    C (ptr * (Z * Z) * store) :=
  match jlist st with
  | None => mret (None, (-1, -1), st)
  | Some l =>
      '(st', _, r) ← search false (has_marker sid id) cfg now st l ();
      mret (fst <$> hit r, from_option snd (-1, -1) (hit r), st')
  end.

Definition count_started (n : Z) (w : oph_workflow) : C (ctl Z ()) :=
  mret (Next (if wf_status w =? 0 then n else wrap_u32 (n + 1))).

(** The first node, from [temp] on, whose workflow has not started. *)
Fixpoint first_unstarted (fuel : nat) (st : store) (temp : ptr) : C ptr :=
  match temp, fuel with
  | None, _ => mret None
  | Some _, 0%nat => out_of_fuel
  | Some p, S fuel' =>
      j ← deref (jobs st !! p);
      a ← deref (wf j);
      w ← deref (wfs st !! a);
      if wf_status w =? 0 then mret (Some p) else first_unstarted fuel' st (next j)
  end.

Definition oph_find_unstarted_in_job_list (cfg : settings) (now : Z) (st : store) : C (ptr * store) :=
  match jlist st with
  | None => mret (None, st)
  | Some l =>
      '(st', _, r) ← search false count_started cfg now st l 0;
      match r with
      | Break _ => mret (None, st')
      | Next running =>
          l ← deref (jlist st');
          if negb (oph_server_farm_size cfg =? 0) && (running <? oph_server_farm_size cfg)
             && (running <? counter l)
          then p ← first_unstarted (fuel_of st') st' (head l); mret (p, st')
          else mret (None, st')
      end
  end.

(** ** Insertion and removal *)

(** The item becomes the tail of the list. *)
Definition link_last (now' : Z) (st : store) (item : loc) : C store :=
  l ← deref (jlist st);
  st ← (match tail l with Some _ => write_next (tail l) (Some item) st | None => mret st end);
  let l := set_tail (Some item) l in
  it ← deref (jobs st !! item);
  let st := set_jobs (<[item := set_timestamp (wrap_i32 now') (set_next None it)]> (jobs st)) st in
  let l := match head l with None => set_head (Some item) l | Some _ => l end in
  mret (set_jlist (set_counter (wrap_u32 (counter l + 1)) l) st).

(** [gettimeofday] is called in the search ([now]) and for the timestamp ([now']). *)
Definition oph_insert_into_job_list (cfg : settings) (now now' : Z) (st : store) (item : loc) :
    C (Z * store) :=
  match jlist st with
  | None => mret (OPH_JOB_LIST_ERROR, st)
  | Some l =>
      let farm := oph_server_farm_size cfg in
      let queue := oph_server_queue_size cfg in
      let full := negb (farm =? 0) && (farm <=? counter l) in
      if full && (negb (queue =? 0) && (wrap_u32 (farm + queue) <=? counter l))
      then mret (OPH_JOB_LIST_FULL, st) else
      let result := if full then OPH_JOB_LIST_FARM_FULL else OPH_JOB_LIST_OK in
      it ← deref (jobs st !! item);
      a ← deref (wf it);
      w ← deref (wfs st !! a);
      '(found, st) ← oph_find_job_in_job_list cfg now st (wf_idjob w);
      match found with
      | Some _ => mret (OPH_JOB_LIST_EXISTING_JOB, st)
      | None => st ← link_last now' st item; mret (result, st)
      end
  end.

Definition oph_drop_from_job_list (st : store) (item : loc) (prev : ptr) : C (Z * store) :=
  match jlist st with
  | None => mret (OPH_JOB_LIST_ERROR, st)
  | Some l =>
      let l := set_counter (wrap_u32 (counter l - 1)) l in
      let l := if bool_decide (tail l = Some item) then set_tail prev l else l in
      if bool_decide (head l = Some item) then
        it ← deref (jobs st !! item);
        mret (OPH_JOB_LIST_OK, set_jlist (set_head (next it) l) st)
      else match prev with
           | None => mret (OPH_JOB_LIST_ERROR, set_jlist l st)
           | Some _ =>
               it ← deref (jobs st !! item);
               st ← write_next prev (next it) st;
               mret (OPH_JOB_LIST_OK, set_jlist l st)
           end
  end.

(** A job is saved only when the status log is on. *)
Definition oph_save_job_in_job_list2 (cfg : settings) (now : Z) (st : store) (item : loc) (remove : bool) :
    C (Z * store) :=
  match jlist st with
  | None => mret (OPH_JOB_LIST_ERROR, st)
  | Some l =>
      it ← deref (jobs st !! item);
      if remove && bool_decide (is_Some (oph_status_log_file_name cfg)) then
        let st := set_jobs (<[item := set_next (saved l) (set_timestamp (wrap_i32 now) it)]> (jobs st)) st in
        mret (OPH_JOB_LIST_OK, set_jlist (set_saved (Some item) l) st)
      else
        st ← (if remove then free_workflow (wf it) st else mret st);
        mret (OPH_JOB_LIST_OK, free_job item st)
  end.

Definition oph_save_job_in_job_list (cfg : settings) (now : Z) (st : store) (item : loc) : C (Z * store) :=
  oph_save_job_in_job_list2 cfg now st item true.

Definition oph_delete_from_job_list2 (cfg : settings) (now : Z) (st : store) (item : loc) (prev : ptr)
    (remove : bool) : C (Z * store) :=
  '(rc, st) ← oph_drop_from_job_list st item prev;
  if negb (rc =? 0) then mret (OPH_JOB_LIST_ERROR, st) else
  oph_save_job_in_job_list2 cfg now st item remove.

Definition oph_delete_from_job_list (cfg : settings) (now : Z) (st : store) (item : loc) (prev : ptr) :
    C (Z * store) :=
  oph_delete_from_job_list2 cfg now st item prev true.

(** The saved jobs older than [hysteresis], or all of them, are released. *)
Fixpoint delete_saved (fuel : nat) (now hysteresis : Z) (st : store) (prev current : ptr) : C store :=
  match current, fuel with
  | None, _ => mret st
  | Some _, 0%nat => out_of_fuel
  | Some p, S fuel' =>
      j ← deref (jobs st !! p);
      if (hysteresis =? 0) || (timestamp j <? now - hysteresis) then
        st ← free_workflow (wf j) st;
        let st := free_job p st in
        st ← (match prev with Some _ => write_next prev (next j) st | None => mret st end);
        delete_saved fuel' now hysteresis st prev (next j)
      else
        l ← deref (jlist st);
        let l := match saved l with None => set_saved (Some p) l | Some _ => l end in
        delete_saved fuel' now hysteresis (set_jlist l st) (Some p) (next j)
  end.

Definition oph_delete_saved_jobs_from_job_list (now hysteresis : Z) (st : store) : C (Z * store) :=
  match jlist st with
  | None => mret (OPH_JOB_LIST_ERROR, st)
  | Some l =>
      st' ← delete_saved (fuel_of st) now hysteresis (set_jlist (set_saved None l) st) None (saved l);
      mret (OPH_JOB_LIST_OK, st')
  end.

Fixpoint free_nodes (fuel : nat) (st : store) (temp : ptr) : C store :=
  match temp, fuel with
  | None, _ => mret st
  | Some _, 0%nat => out_of_fuel
  | Some p, S fuel' =>
      j ← deref (jobs st !! p);
      l ← deref (jlist st);
      let st := set_jlist (set_head (next j) l) st in
      st ← free_workflow (wf j) st;
      free_nodes fuel' (free_job p st) (next j)
  end.

Definition oph_free_job_list (now : Z) (st : store) : C (Z * store) :=
  match jlist st with
  | None => mret (OPH_JOB_LIST_ERROR, st)
  | Some l =>
      st ← free_nodes (fuel_of st) st (head l);
      l ← deref (jlist st);
      '(_, st) ← oph_delete_saved_jobs_from_job_list now 0 (set_jlist (set_counter 0 (set_tail None l)) st);
      mret (OPH_JOB_LIST_OK, st)
  end.

Definition oph_destroy_job_list (now : Z) (st : store) : C (Z * store) :=
  match jlist st with
  | None => mret (OPH_JOB_LIST_ERROR, st)
  | Some _ =>
      '(rc, st) ← oph_free_job_list now st;
      if negb (rc =? 0) then mret (OPH_JOB_LIST_ERROR, st) else
      mret (OPH_JOB_LIST_OK, Store (jobs st) (wfs st) (unused st) None)
  end.

(** The largest identifier plus one. *)
Fixpoint max_jobid (fuel : nat) (st : store) (temp : ptr) (jobid : Z) : C Z :=
  match temp, fuel with
  | None, _ => mret jobid
  | Some _, 0%nat => out_of_fuel
  | Some p, S fuel' =>
      j ← deref (jobs st !! p);
      a ← deref (wf j);
      w ← deref (wfs st !! a);
      max_jobid fuel' st (next j) (if jobid <? wf_idjob w then wf_idjob w else jobid)
  end.

(** The increment of a signed [int] may not overflow. *)
Definition oph_get_new_jobid_from_job_list (st : store) : C (Z * Z) :=
  match jlist st with
  | None => mret (OPH_JOB_LIST_ERROR, 0)
  | Some l =>
      m ← max_jobid (fuel_of st) st (head l) 0;
      assertC (m <? 2 ^ 31 - 1);;
      mret (OPH_JOB_LIST_OK, m + 1)
  end.

(** ** [oph_memory_job.c] *)

(** The nodes of the model carry the fields [malloc] leaves undefined as zero;
    they are written before they are read. *)
Definition oph_wf_list_append (cfg : settings) (now now' : Z) (st : store) (w : ptr) : C (Z * store) :=
  ok ← malloc;
  if negb ok then mret (OPH_SERVER_ERROR, st) else
  let item := unused st in
  let st := Store (<[item := JobInfo 0 w None]> (jobs st)) (wfs st) (S (unused st)) (jlist st) in
  '(k, st) ← oph_insert_into_job_list cfg now now' st item;
  mret (if k =? 0 then (OPH_SERVER_OK, st)
        else if k =? OPH_JOB_LIST_FARM_FULL then (OPH_SERVER_NO_RESPONSE, st)
        else (OPH_SERVER_ERROR, free_job item st)).

Definition oph_wf_list_drop2 (cfg : settings) (now now' : Z) (st : store) (jobid : Z) (remove : bool) :
    C (Z * store) :=
  '(found, st) ← oph_find_job_in_job_list cfg now st jobid;
  match found with
  | None => mret (OPH_SERVER_OK, st)
  | Some (item, prev) =>
      '(rc, st) ← oph_delete_from_job_list2 cfg now' st item prev remove;
      mret (if rc =? 0 then OPH_SERVER_OK else OPH_SERVER_ERROR, st)
  end.

Definition oph_wf_list_drop (cfg : settings) (now now' : Z) (st : store) (jobid : Z) : C (Z * store) :=
  oph_wf_list_drop2 cfg now now' st jobid true.

(** ** The list as a queue of entries *)

(** A job as the list holds it: its node, its time, its workflow. *)
Record entry : Type := Entry {
  e_loc : loc;
  e_time : Z;
  e_wf : loc;
  e_val : oph_workflow;
}.

Definition first (es : list entry) : ptr := e_loc <$> es !! 0%nat.
Definition last_of (es : list entry) : ptr := e_loc <$> last es.

(** The nodes of [es] are linked in order and end with a null pointer. *)
Fixpoint chain (js : gmap loc oph_job_info) (es : list entry) : Prop :=
  match es with
  | [] => True
  | e :: es' => js !! e_loc e = Some (JobInfo (e_time e) (Some (e_wf e)) (first es')) ∧ chain js es'
  end.

Definition saved_of (st : store) : ptr := jlist st ≫= saved.

(** The list in [st] holds the jobs [es]; [tl] is what its tail points to. *)
Record rep (st : store) (es : list entry) (tl : ptr) : Prop := {
  rp_jlist : jlist st = Some (JList (first es) tl (saved_of st) (Z.of_nat (length es)));
  rp_chain : chain (jobs st) es;
  rp_wfs : Forall (λ e, wfs st !! e_wf e = Some (e_val e)) es;
  rp_locs : NoDup (e_loc <$> es);
  rp_wlocs : NoDup (e_wf <$> es);
  rp_size : Z.of_nat (length es) < 2 ^ 32;
  rp_unused : ∀ p, is_Some (jobs st !! p) → (p < unused st)%nat;
}.

(** A list in order: the tail is the last node. *)
Definition holds (st : store) (es : list entry) : Prop := rep st es (last_of es).

Definition is_sync (w : oph_workflow) : bool :=
  from_option (λ md, strncasecmp0 md OPH_ARG_MODE_SYNC OPH_MAX_STRING_SIZE) false (exec_mode w).

(** What an expired workflow becomes. *)
Definition expired_wf (w : oph_workflow) : option oph_workflow :=
  if is_sync w then Some (set_wf_status OPH_ODB_STATUS_EXPIRED w) else (oph_workflow_free (Some w)).2.

(** The nodes of [ex] are freed and their workflows expired. *)
Definition drop_entries (ex : list entry) (st : store) : store :=
  Store (foldl (λ js e, delete (e_loc e) js) (jobs st) ex)
        (foldl (λ ws e, partial_alter (λ _, expired_wf (e_val e)) (e_wf e) ws) (wfs st) ex)
        (unused st) (jlist st).

(** The tail after the jobs [ex] expired in front of [lv]; [pp] is [temp_prev]. *)
Fixpoint tail_after (pp : ptr) (ex lv : list entry) : ptr :=
  match ex with
  | [] => last_of lv
  | e :: ex' => match ex' ++ lv with [] => pp | _ => tail_after (Some (e_loc e)) ex' lv end
  end.

Definition purged (st : store) (pp : ptr) (ex lv : list entry) : store :=
  set_jlist (JList (first lv) (tail_after pp ex lv) (saved_of st) (Z.of_nat (length lv))) (drop_entries ex st).

(** What the visits of the live jobs return. *)
Fixpoint visits {A R} (vf : A → oph_workflow → ctl A R) (pp : ptr) (acc : A) (lv : list entry) :
    ptr * ctl A (option (loc * R)) :=
  match lv with
  | [] => (pp, Next acc)
  | e :: lv' =>
      match vf acc (e_val e) with
      | Next acc' => visits vf (Some (e_loc e)) acc' lv'
      | Break r => (pp, Break (Some (e_loc e, r)))
      end
  end.

Lemma chain_delete js es p : p ∉ e_loc <$> es → chain js es → chain (delete p js) es.
Proof.
  induction es as [|e es IH]; simpl; [done|]. rewrite not_elem_of_cons. intros [Hne Hno] [He Hc].
  split; [by rewrite lookup_delete_ne|by apply IH].
Qed.

Lemma chain_length js es : chain js es → NoDup (e_loc <$> es) → (length es ≤ size js)%nat.
Proof.
  revert js. induction es as [|e es IH]; intros js; simpl; [lia|].
  intros [He Hc] [Hno Hnd]%NoDup_cons.
  assert (chain (delete (e_loc e) js) es) as Hc' by (by apply chain_delete).
  specialize (IH _ Hc' Hnd). rewrite (map_size_delete_Some _ _ (mk_is_Some _ _ He)) in IH.
  assert (size js ≠ 0)%nat; [|lia]. intros Hz%map_size_empty_iff. subst js. by rewrite lookup_empty in He.
Qed.

Lemma last_of_cons e es : last_of (e :: es) = match es with [] => Some (e_loc e) | _ => last_of es end.
Proof. unfold last_of. by destruct es. Qed.

Lemma last_of_None es : last_of es = None → es = [].
Proof. unfold last_of. intros H%fmap_None. by apply last_None. Qed.

Lemma last_of_in es p : last_of es = Some p → p ∈ e_loc <$> es.
Proof.
  unfold last_of. intros (e & He & ->)%fmap_Some. apply list_elem_of_fmap_2.
  rewrite last_lookup in He. by eapply list_elem_of_lookup_2.
Qed.

#[local] Arguments oph_workflow_free : simpl never.

Lemma wp_expire guarded st e rest pp m :
  holds st (e :: rest) →
  wp (expire guarded st pp (e_loc e) (JobInfo (e_time e) (Some (e_wf e)) (first rest)))
    (λ r m', m' = m ∧ r = Some (purged st pp [e] rest)) m.
Proof.
  intros [Hl Hc Hw Hnd Hwnd Hsz Hun]. unfold expire. rewrite Hl. wp_step. apply wp_deref with (1 := eq_refl).
  rewrite (proj2 (Z.eqb_neq _ _)) by (simpl; lia).
  assert (bool_decide (tail (JList (first (e :: rest)) (last_of (e :: rest)) (saved_of st)
     (Z.of_nat (length (e :: rest)))) = Some (e_loc e)) = bool_decide (rest = [])) as ->.
  { apply bool_decide_ext. simpl. rewrite last_of_cons. destruct rest as [|e' rest]; [by split|].
    split; [|done]. intros Hin%last_of_in. simpl in Hnd. apply NoDup_cons in Hnd as [Hno _]. done. }
  cbv zeta.
  replace (head _) with (Some (e_loc e)) by (by case_bool_decide).
  rewrite (bool_decide_true (Some (e_loc e) = Some (e_loc e))) by done. wp_step. wp_step.
  apply Forall_cons in Hw as [Hwe Hw]. simpl next. simpl wf.
  rewrite (bool_decide_false (Some (e_wf e) = None)), andb_false_r by done.
  wp_step. unfold expire_workflow. wp_step. apply wp_deref with (1 := eq_refl).
  wp_step. apply (wp_deref _ _ _ _ Hwe). fold (is_sync (e_val e)).
  assert (wrap_u32 (Z.of_nat (length (e :: rest)) - 1) = Z.of_nat (length rest)) as Hcnt.
  { rewrite wrap_u32_id by (simpl in *; lia). simpl. lia. }
  unfold purged, drop_entries, expired_wf, free_workflow. simpl.
  replace (match rest with [] => pp | _ :: _ => last_of rest end) with
    (if bool_decide (rest = []) then pp else last_of rest) by (by destruct rest).
  destruct (is_sync (e_val e)).
  - wp_steps. split; [done|]. f_equal. unfold free_job, set_jobs, set_wfs, set_jlist. simpl.
    f_equal. f_equal. rewrite last_of_cons. destruct rest; case_bool_decide; try done;
      cbv [set_counter set_head head tail saved counter]; f_equal; exact Hcnt.
  - rewrite Hwe. wp_steps. split; [done|]. f_equal.
    destruct (oph_workflow_free (Some (e_val e))).2; unfold free_job, set_jobs, set_wfs, set_jlist; simpl;
      f_equal; f_equal; rewrite last_of_cons; destruct rest; case_bool_decide; try done;
      cbv [set_counter set_head head tail saved counter]; f_equal; exact Hcnt.
Qed.

Lemma drop_entries_jobs ex st p :
  p ∉ e_loc <$> ex → jobs (drop_entries ex st) !! p = jobs st !! p.
Proof.
  simpl. generalize (jobs st). induction ex as [|e ex IH]; intros js; simpl; [done|].
  rewrite not_elem_of_cons. intros [Hne Hno]. rewrite IH by done. by apply lookup_delete_ne.
Qed.

Lemma drop_entries_gone ex st p : p ∈ e_loc <$> ex → jobs (drop_entries ex st) !! p = None.
Proof.
  simpl. generalize (jobs st). induction ex as [|e ex IH]; intros js; simpl; [by intros ?%elem_of_nil|].
  intros Hin. destruct (decide (p ∈ e_loc <$> ex)) as [Hex|Hno]; [by apply IH|].
  apply elem_of_cons in Hin as [->|]; [|done].
  pose proof (drop_entries_jobs ex (Store (delete (e_loc e) js) ∅ 0%nat None) _ Hno) as H. simpl in H.
  rewrite H. apply lookup_delete_eq.
Qed.

Lemma drop_entries_jobs_sub ex st p : is_Some (jobs (drop_entries ex st) !! p) → is_Some (jobs st !! p).
Proof.
  destruct (decide (p ∈ e_loc <$> ex)); [rewrite drop_entries_gone by done; by intros [? ?]|].
  by rewrite drop_entries_jobs.
Qed.

Lemma drop_entries_wfs ex st a : a ∉ e_wf <$> ex → wfs (drop_entries ex st) !! a = wfs st !! a.
Proof.
  simpl. generalize (wfs st). induction ex as [|e ex IH]; intros ws; simpl; [done|].
  rewrite not_elem_of_cons. intros [Hne Hno]. rewrite IH by done. by apply lookup_partial_alter_ne.
Qed.

Lemma chain_ext js js' es :
  (∀ e, e ∈ es → js' !! e_loc e = js !! e_loc e) → chain js es → chain js' es.
Proof.
  induction es as [|e es IH]; simpl; [done|]. intros Hext [He Hc]. split.
  - rewrite Hext; [done|left].
  - apply IH; [|done]. intros e' ?. apply Hext. by right.
Qed.

Lemma app_fmap_disjoint {B} (f : entry → B) ex lv e :
  NoDup (f <$> ex ++ lv) → e ∈ lv → f e ∉ f <$> ex.
Proof.
  rewrite fmap_app. intros (_ & Hd & _)%NoDup_app He Hin. apply (Hd _ Hin). by apply list_elem_of_fmap_2.
Qed.

Lemma chain_app js es es' : chain js (es ++ es') → chain js es'.
Proof. induction es as [|e es IH]; simpl; [done|]. intros [_ H]. auto. Qed.

(** Purging keeps the order of what is left. *)
Lemma rep_purged st pp ex lv : holds st (ex ++ lv) → rep (purged st pp ex lv) lv (tail_after pp ex lv).
Proof.
  intros [Hl Hc Hw Hnd Hwnd Hsz Hun]. split.
  - done.
  - eapply chain_ext; [|by eapply chain_app]. intros e He.
    change (jobs (purged st pp ex lv)) with (jobs (drop_entries ex st)). apply drop_entries_jobs.
    by eapply (app_fmap_disjoint e_loc).
  - apply Forall_forall. intros e He. change (wfs (purged st pp ex lv)) with (wfs (drop_entries ex st)).
    rewrite drop_entries_wfs by (by eapply (app_fmap_disjoint e_wf)).
    eapply Forall_forall in Hw; [done|set_solver].
  - rewrite fmap_app in Hnd. by apply NoDup_app in Hnd as (_ & _ & ?).
  - rewrite fmap_app in Hwnd. by apply NoDup_app in Hwnd as (_ & _ & ?).
  - rewrite length_app in Hsz. lia.
  - intros p Hp. by apply Hun, (drop_entries_jobs_sub ex).
Qed.

Lemma purged_nil st pp lv : holds st lv → purged st pp [] lv = st.
Proof. intros [Hl _ _ _ _ _ _]. unfold purged, set_jlist, drop_entries. simpl. rewrite <-Hl. by destruct st. Qed.

(** A visit that is a pure function of the workflows of the list. *)
Definition visit_pure {A R} (visit : A → oph_workflow → C (ctl A R)) (vf : A → oph_workflow → ctl A R)
    (es : list entry) : Prop :=
  ∀ e acc m, e ∈ es → wp (visit acc (e_val e)) (λ c m', m' = m ∧ c = vf acc (e_val e)) m.

Definition pp_after (pp : ptr) (ex : list entry) : ptr :=
  match last_of ex with Some p => Some p | None => pp end.

Lemma pp_after_cons pp e es : pp_after (Some (e_loc e)) es = pp_after pp (e :: es).
Proof.
  unfold pp_after. rewrite last_of_cons. destruct es as [|e' es]; [done|].
  by destruct (last_of (e' :: es)) eqn:Hl; [|apply last_of_None in Hl].
Qed.

Section walk.
Context {A R : Type} (guarded : bool) (visit : A → oph_workflow → C (ctl A R)).
Context (vf : A → oph_workflow → ctl A R) (deadline : Z).

Lemma wp_walk_live lv fuel st pp acc m :
  chain (jobs st) lv → Forall (λ e, wfs st !! e_wf e = Some (e_val e)) lv →
  Forall (λ e, deadline ≤ e_time e) lv → visit_pure visit vf lv → (length lv < fuel)%nat →
  wp (walk guarded visit deadline fuel st pp (first lv) acc)
    (λ r m', m' = m ∧ r = (st, (visits vf pp acc lv).1, (visits vf pp acc lv).2)) m.
Proof.
  revert fuel pp acc. induction lv as [|e lv IH]; intros fuel pp acc Hc Hw Ht Hv Hf.
  - destruct fuel; simpl; by wp_step.
  - destruct fuel as [|fuel]; [simpl in Hf; lia|]. destruct Hc as [He Hc].
    apply Forall_cons in Hw as [Hwe Hw]. apply Forall_cons in Ht as [Hte Ht].
    simpl. wp_step. apply (wp_deref _ _ _ _ He). simpl. rewrite (proj2 (Z.ltb_ge _ _)) by done.
    wp_step. apply wp_deref with (1 := eq_refl). wp_step. apply (wp_deref _ _ _ _ Hwe).
    wp_step. eapply wp_mono; [apply Hv; left|]. intros c m1 [-> ->].
    destruct (vf acc (e_val e)) as [acc'|r]; [|by wp_step].
    apply IH; try done; [|simpl in Hf; lia]. intros e' acc1 m1 He'. apply Hv. by right.
Qed.

Lemma wp_walk ex lv fuel st pp acc m :
  holds st (ex ++ lv) → Forall (λ e, e_time e < deadline) ex → Forall (λ e, deadline ≤ e_time e) lv →
  visit_pure visit vf lv → (length (ex ++ lv) < fuel)%nat →
  wp (walk guarded visit deadline fuel st pp (first (ex ++ lv)) acc)
    (λ r m', m' = m ∧ r = (purged st pp ex lv, (visits vf (pp_after pp ex) acc lv).1,
                           (visits vf (pp_after pp ex) acc lv).2)) m.
Proof.
  revert fuel st pp. induction ex as [|e ex IH]; intros fuel st pp Hst Hex Hlv Hv Hf.
  - simpl in Hst |- *. rewrite purged_nil by done. apply wp_walk_live; try done; apply Hst.
  - destruct fuel as [|fuel]; [simpl in Hf; lia|]. apply Forall_cons in Hex as [Hte Hex].
    pose proof (rp_chain _ _ _ Hst) as [He _]. simpl in Hst.
    simpl. wp_step. apply (wp_deref _ _ _ _ He). simpl. rewrite (proj2 (Z.ltb_lt _ _)) by done.
    wp_step. eapply wp_mono; [by apply (wp_expire guarded st e (ex ++ lv) pp)|].
    intros r m1 [-> ->].
    assert (purged (purged st pp [e] (ex ++ lv)) (Some (e_loc e)) ex lv =
      set_jlist (JList (first lv) (tail_after (Some (e_loc e)) ex lv) (saved_of st) (Z.of_nat (length lv)))
        (drop_entries (e :: ex) st)) as Hp by done.
    destruct (ex ++ lv) as [|e' rest] eqn:Hrest.
    + apply app_nil in Hrest as [-> ->]. destruct fuel; simpl; by wp_step.
    + assert (holds (purged st pp [e] (e' :: rest)) (e' :: rest)) as Hst1 by (by apply (rep_purged st pp [e])).
      rewrite <-Hrest in *. eapply wp_mono; [apply IH; try done; simpl in Hf; lia|].
      intros r m1 [-> ->]. split; [done|]. rewrite Hp. unfold purged. simpl. rewrite Hrest.
      replace (pp_after pp (e :: ex)) with (pp_after (Some (e_loc e)) ex); [done|].
      apply pp_after_cons.
Qed.

End walk.

(** ** Lists in order of time *)

(** Jobs are appended with the current time, so the list is in order of time as
    long as the clock does not go back. *)
Definition in_order (es : list entry) : Prop := StronglySorted Z.le (e_time <$> es).

Definition expired (deadline : Z) (es : list entry) : list entry := filter (λ e, e_time e < deadline) es.
Definition live (deadline : Z) (es : list entry) : list entry := filter (λ e, deadline ≤ e_time e) es.

Lemma live_all d es : Forall (λ e, d ≤ e_time e) es → expired d es = [] ∧ live d es = es.
Proof.
  unfold expired, live. induction 1 as [|e es He _ [IH1 IH2]]; [done|].
  rewrite filter_cons_False by lia. rewrite filter_cons_True by done. by rewrite IH1, IH2.
Qed.

Lemma in_order_split d es : in_order es → es = expired d es ++ live d es.
Proof.
  unfold in_order. induction es as [|e es IH]; intros Hs; [done|]. simpl in Hs.
  apply StronglySorted_inv in Hs as [Hs Hle]. destruct (decide (e_time e < d)) as [He|He].
  - unfold expired, live. rewrite filter_cons_True by done. rewrite filter_cons_False by lia.
    simpl. f_equal. by apply IH.
  - destruct (live_all d (e :: es)) as [-> ->]; [|done]. constructor; [lia|].
    rewrite Forall_fmap in Hle. eapply Forall_impl; [done|]. simpl. intros; lia.
Qed.

Lemma expired_Forall d es : Forall (λ e, e_time e < d) (expired d es).
Proof. apply Forall_forall. intros e He. by apply list_elem_of_filter in He as [? _]. Qed.

Lemma live_Forall d es : Forall (λ e, d ≤ e_time e) (live d es).
Proof. apply Forall_forall. intros e He. by apply list_elem_of_filter in He as [? _]. Qed.

Lemma in_order_app es es' : in_order (es ++ es') → in_order es'.
Proof.
  unfold in_order. induction es as [|e es IH]; simpl; [done|].
  intros [Hs _]%StronglySorted_inv. by apply IH.
Qed.

Lemma in_order_live d es : in_order es → in_order (live d es).
Proof. intros Hs. rewrite (in_order_split d es Hs) in Hs. by apply in_order_app in Hs. Qed.

(** The tail is right unless the list lost two or more jobs and all it had. *)
Lemma tail_after_live pp ex lv : lv ≠ [] → tail_after pp ex lv = last_of lv.
Proof.
  intros Hlv. revert pp. induction ex as [|e ex IH]; intros pp; simpl; [done|].
  destruct (ex ++ lv) eqn:Happ; [|by apply IH]. by apply app_nil in Happ as [_ ?].
Qed.

Definition tail_safe (ex lv : list entry) : Prop := lv ≠ [] ∨ (length ex ≤ 1)%nat.

Lemma tail_after_safe ex lv : tail_safe ex lv → tail_after None ex lv = last_of lv.
Proof.
  intros [Hlv|Hex]; [by apply tail_after_live|]. destruct ex as [|e [|e' ex]]; [done| |simpl in Hex; lia].
  by destruct lv.
Qed.

(** A search of a list in order: exactly the expired jobs go, the live ones are
    visited. *)
Lemma wp_search {A R} guarded (visit : A → oph_workflow → C (ctl A R)) vf cfg now st es acc l m :
  let d := remote_deadline cfg now in
  holds st es → in_order es → jlist st = Some l → visit_pure visit vf (live d es) →
  wp (search guarded visit cfg now st l acc)
    (λ r m', m' = m ∧ r = (purged st None (expired d es) (live d es),
       (visits vf (last_of (expired d es)) acc (live d es)).1,
       (visits vf (last_of (expired d es)) acc (live d es)).2)) m.
Proof.
  intros d Hst Ho Hl Hv. pose proof (in_order_split d es Ho) as Hsp. unfold search.
  assert (head l = first (expired d es ++ live d es)) as ->.
  { rewrite <-Hsp. pose proof (rp_jlist _ _ _ Hst) as Hj. rewrite Hl in Hj. by simplify_eq. }
  eapply wp_mono; [apply (wp_walk guarded visit vf d (expired d es) (live d es))|].
  - by rewrite <-Hsp.
  - apply expired_Forall.
  - apply live_Forall.
  - done.
  - rewrite <-Hsp. unfold fuel_of. pose proof (chain_length _ _ (rp_chain _ _ _ Hst) (rp_locs _ _ _ Hst)). lia.
  - intros r m1 [-> ->]. split; [done|]. unfold pp_after. by destruct (last_of (expired d es)).
Qed.

Lemma rep_search st es d : holds st es → in_order es →
  rep (purged st None (expired d es) (live d es)) (live d es) (tail_after None (expired d es) (live d es)).
Proof. intros Hst Ho. apply rep_purged. by rewrite <-(in_order_split d es Ho). Qed.

(** ** Finding a job *)

Definition has_id (id : Z) (e : entry) : Prop := wf_idjob (e_val e) = id.

Lemma visits_is_job id pp lv :
  let vf := λ (_ : ()) w, if wf_idjob w =? id then Break () else Next () in
  (Forall (λ e, ¬ has_id id e) lv ∧ visits vf pp () lv = (pp_after pp lv, Next ())) ∨
  (∃ l1 e l2, lv = l1 ++ e :: l2 ∧ has_id id e ∧ Forall (λ e, ¬ has_id id e) l1 ∧
     visits vf pp () lv = (pp_after pp l1, Break (Some (e_loc e, ())))).
Proof.
  intros vf. revert pp. induction lv as [|e lv IH]; intros pp; simpl; [by left|].
  unfold vf at 1 3, has_id. destruct (Z.eqb_spec (wf_idjob (e_val e)) id) as [He|He].
  - right. exists [], e, lv. by split_and!.
  - pose proof (pp_after_cons pp e) as Hpp.
    destruct (IH (Some (e_loc e))) as [[Hall ->]|(l1 & e' & l2 & -> & He' & Hall & ->)].
    + left. split; [by constructor|]. by rewrite Hpp.
    + right. exists (e :: l1), e', l2. split_and!; [done|done|by constructor|by rewrite Hpp].
Qed.

(** What a search for [id] returns, and the store it leaves. *)
Definition found_job (id : Z) (ex lv : list entry) (r : option (loc * ptr)) : Prop :=
  match r with
  | None => Forall (λ e, ¬ has_id id e) lv
  | Some (p, prev) => ∃ l1 e l2, lv = l1 ++ e :: l2 ∧ has_id id e ∧ Forall (λ e, ¬ has_id id e) l1 ∧
      p = e_loc e ∧ prev = pp_after (last_of ex) l1
  end.

Lemma wp_find_job cfg now st es id m :
  let d := remote_deadline cfg now in
  holds st es → in_order es →
  wp (oph_find_job_in_job_list cfg now st id) (λ r m', m' = m ∧
    r.2 = purged st None (expired d es) (live d es) ∧ found_job id (expired d es) (live d es) r.1) m.
Proof.
  intros d Hst Ho. unfold oph_find_job_in_job_list. rewrite (rp_jlist _ _ _ Hst). wp_step.
  eapply wp_mono; [eapply (wp_search _ _ (λ (_ : ()) w, if wf_idjob w =? id then Break () else Next ()));
    [done|done|by apply Hst|]|].
  { intros e acc m1 _. unfold is_job. by wp_step. }
  intros r m1 [-> ->]. wp_step. split_and!; [done|done|]. simpl. fold d.
  destruct (visits_is_job id (last_of (expired d es)) (live d es))
    as [[Hall ->]|(l1 & e & l2 & Hlv & He & Hall & ->)]; simpl; [done|].
  exists l1, e, l2. done.
Qed.

(** ** Linking and unlinking nodes *)

Lemma last_of_app es e : last_of (es ++ [e]) = Some (e_loc e).
Proof. unfold last_of. by rewrite last_snoc. Qed.

Lemma chain_last js es p : chain js es → last_of es = Some p → ∃ j, js !! p = Some j ∧ next j = None.
Proof.
  induction es as [|e es IH]; [done|]. intros [He Hc]. rewrite last_of_cons.
  destruct es as [|e' es]; [|by apply IH]. intros [= <-]. by eexists.
Qed.

(** A new node behind the last one. *)
Lemma chain_snoc js es p j en :
  chain js es → NoDup (e_loc <$> es) → e_loc en ∉ e_loc <$> es → last_of es = Some p → js !! p = Some j →
  chain (<[e_loc en := JobInfo (e_time en) (Some (e_wf en)) None]> (<[p := set_next (Some (e_loc en)) j]> js))
    (es ++ [en]).
Proof.
  induction es as [|e es IH]; [done|]. intros [He Hc] [Hno Hnd]%NoDup_cons Hen. simpl in Hen.
  apply not_elem_of_cons in Hen as [Hne Hen]. rewrite last_of_cons. simpl.
  destruct es as [|e' es]; intros Hp Hj; simplify_eq/=.
  - rewrite lookup_insert_ne, !lookup_insert_eq by done. done.
  - split; [|by apply IH]. rewrite !lookup_insert_ne; [done| |done].
    intros ->. apply Hno. by apply (last_of_in (e' :: es)).
Qed.

(** The node behind [ks] leaves the list. *)
Lemma chain_unlink js ks e rest p j :
  chain js (ks ++ e :: rest) → NoDup (e_loc <$> ks ++ e :: rest) → last_of ks = Some p → js !! p = Some j →
  chain (<[p := set_next (first rest) j]> js) (ks ++ rest).
Proof.
  induction ks as [|k ks IH]; [done|]. intros [Hk Hc] [Hno Hnd]%NoDup_cons. rewrite last_of_cons. simpl.
  destruct ks as [|k' ks]; intros Hp Hj; simplify_eq/=.
  - rewrite lookup_insert_eq. split; [done|]. destruct Hc as [_ Hc].
    eapply chain_ext; [|done]. intros e' He'. apply lookup_insert_ne. intros Heq. apply Hno. right.
    rewrite Heq. by apply list_elem_of_fmap_2.
  - split; [|by apply IH]. rewrite lookup_insert_ne; [done|]. intros ->. apply Hno.
    apply (last_of_in (k' :: ks)) in Hp. change (e_loc k ∈ e_loc <$> (k' :: ks) ++ e :: rest).
    rewrite fmap_app. apply elem_of_app. by left.
Qed.

Lemma chain_mid js ks e rest :
  chain js (ks ++ e :: rest) → js !! e_loc e = Some (JobInfo (e_time e) (Some (e_wf e)) (first rest)).
Proof. intros Hc%chain_app. apply Hc. Qed.

(** ** Insertion *)

Definition farm_full (cfg : settings) (n : Z) : bool :=
  negb (oph_server_farm_size cfg =? 0) && (oph_server_farm_size cfg <=? n).
Definition queue_full (cfg : settings) (n : Z) : bool :=
  farm_full cfg n && (negb (oph_server_queue_size cfg =? 0) &&
    (wrap_u32 (oph_server_farm_size cfg + oph_server_queue_size cfg) <=? n)).

#[global] Instance has_id_dec id e : Decision (has_id id e).
Proof. unfold has_id. apply _. Defined.

(** Insertion on the queue: the capacity is checked before the expired jobs go. *)
Definition spec_insert (cfg : settings) (now : Z) (es : list entry) (en : entry) : Z * list entry :=
  let n := Z.of_nat (length es) in
  let lv := live (remote_deadline cfg now) es in
  if queue_full cfg n then (OPH_JOB_LIST_FULL, es)
  else if bool_decide (Exists (has_id (wf_idjob (e_val en))) lv) then (OPH_JOB_LIST_EXISTING_JOB, lv)
  else (if farm_full cfg n then OPH_JOB_LIST_FARM_FULL else OPH_JOB_LIST_OK, lv ++ [en]).

Definition allocated (st : store) (es : list entry) (en : entry) : Prop :=
  (∃ t q, jobs st !! e_loc en = Some (JobInfo t (Some (e_wf en)) q)) ∧
  wfs st !! e_wf en = Some (e_val en) ∧ e_loc en ∉ e_loc <$> es ∧ e_wf en ∉ e_wf <$> es.

Lemma first_snoc es en : first (es ++ [en]) = match first es with None => Some (e_loc en) | p => p end.
Proof. by destruct es. Qed.

Lemma wp_link_last now' st es en m :
  holds st es → allocated st es en → Z.of_nat (length es) + 1 < 2 ^ 32 → e_time en = wrap_i32 now' →
  wp (link_last now' st (e_loc en)) (λ st' m', m' = m ∧ holds st' (es ++ [en]) ∧
    (∀ p, p ∉ e_loc <$> es ++ [en] → jobs st' !! p = jobs st !! p) ∧ wfs st' = wfs st ∧
    unused st' = unused st ∧ saved_of st' = saved_of st) m.
Proof.
  intros Hst ((t & q & Hjn) & Hwn & Hln & Han) Hsz Ht.
  assert (∀ js' l', l' = JList (first (es ++ [en])) (Some (e_loc en)) (saved_of st) (Z.of_nat (length es) + 1) →
    chain js' (es ++ [en]) → (∀ p, p ∉ e_loc <$> es ++ [en] → js' !! p = jobs st !! p) →
    let st' := Store js' (wfs st) (unused st) (Some l') in
    holds st' (es ++ [en]) ∧
    (∀ p, p ∉ e_loc <$> es ++ [en] → jobs st' !! p = jobs st !! p) ∧ wfs st' = wfs st ∧
    unused st' = unused st ∧ saved_of st' = saved_of st) as Hfin.
  { intros js' l' -> Hc' Hjs st'. split; [|done]. destruct Hst as [Hl Hc Hw Hnd Hwnd Hs Hun].
    unfold holds. rewrite last_of_app. split; simpl; try done.
    - f_equal. f_equal. rewrite length_app. simpl. lia.
    - apply Forall_app. split; [done|]. by constructor.
    - rewrite fmap_app. apply NoDup_app. split_and!; [done| |apply NoDup_singleton].
      intros x Hx ->%list_elem_of_singleton. done.
    - rewrite fmap_app. apply NoDup_app. split_and!; [done| |apply NoDup_singleton].
      intros x Hx ->%list_elem_of_singleton. done.
    - rewrite length_app. simpl. lia.
    - intros p Hp. destruct (decide (p = e_loc en)) as [->|Hpn]; [apply Hun; eauto|].
      destruct (decide (p ∈ e_loc <$> es)) as [Hin|Hno]; [|apply Hun; rewrite <-Hjs; [done|]].
      + apply list_elem_of_fmap in Hin as (e & -> & (l1 & l2 & ->)%list_elem_of_split).
        apply Hun. eexists. by apply (chain_mid _ l1 e l2).
      + rewrite fmap_app. set_solver. }
  unfold link_last. rewrite (rp_jlist _ _ _ Hst). wp_step. wp_step. wp_step. simpl tail.
  assert (wrap_u32 (Z.of_nat (length es) + 1) = Z.of_nat (length es) + 1) as Hcnt by (apply wrap_u32_id; lia).
  destruct (last_of es) as [p|] eqn:Hp.
  - destruct (chain_last _ _ _ (rp_chain _ _ _ Hst) Hp) as (j & Hj & _).
    assert (e_loc en ≠ p) as Hne by (intros <-; by apply Hln, last_of_in).
    assert (∃ e es', es = e :: es') as (e & es' & ->) by (destruct es; [done|eauto]).
    unfold write_next. wp_step. wp_step. wp_step. apply (wp_deref _ _ _ _ Hj). wp_step. wp_step.
    apply wp_deref with (JobInfo t (Some (e_wf en)) q); [simpl; by rewrite lookup_insert_ne|]. wp_step.
    split; [done|]. simpl. rewrite <-Ht. apply Hfin.
    + unfold set_counter; simpl. f_equal. exact Hcnt.
    + unfold set_timestamp, set_next; simpl. apply (chain_snoc _ (e :: es')); [apply Hst|apply Hst|done..].
    + intros p' Hp'. rewrite fmap_app in Hp'. apply last_of_in in Hp. simpl jobs.
      rewrite !lookup_insert_ne; [done| |]; intros <-; apply Hp', elem_of_app;
        first [by left|right; by left].
  - apply last_of_None in Hp. subst es.
    wp_step. wp_step. apply (wp_deref _ _ _ _ Hjn). wp_step. split; [done|]. rewrite <-Ht. apply Hfin.
    + unfold set_counter; simpl. f_equal.
    + simpl. by rewrite lookup_insert_eq.
    + intros p' Hp'. apply lookup_insert_ne. intros <-. apply Hp'. simpl. left.
Qed.

Lemma filter_locs {B} (f : entry → B) (P : entry → Prop) `{∀ e, Decision (P e)} (es : list entry) (x : B) :
  x ∉ f <$> es → x ∉ f <$> filter P es.
Proof.
  intros Hno (e & -> & [_ He]%list_elem_of_filter)%list_elem_of_fmap. apply Hno. by apply list_elem_of_fmap_2.
Qed.

Lemma allocated_purged st pp d es en :
  allocated st es en → allocated (purged st pp (expired d es) (live d es)) (live d es) en.
Proof.
  intros ((t & q & Hj) & Hw & Hl & Ha). split_and!; [exists t, q| |by apply filter_locs..].
  - change (jobs (drop_entries (expired d es) st) !! e_loc en = Some (JobInfo t (Some (e_wf en)) q)).
    by rewrite drop_entries_jobs by (by apply filter_locs).
  - change (wfs (drop_entries (expired d es) st) !! e_wf en = Some (e_val en)).
    by rewrite drop_entries_wfs by (by apply filter_locs).
Qed.

Lemma found_none id ex lv : found_job id ex lv None ↔ ¬ Exists (has_id id) lv.
Proof. apply Forall_Exists_neg. Qed.

Lemma found_some id ex lv p prev : found_job id ex lv (Some (p, prev)) → Exists (has_id id) lv.
Proof. intros (l1 & e & l2 & -> & He & _). apply Exists_app. right. by left. Qed.

(** The branches of an insertion. *)
Lemma insert_run cfg now now' st es en m :
  let d := remote_deadline cfg now in
  let n := Z.of_nat (length es) in
  let st1 := purged st None (expired d es) (live d es) in
  holds st es → in_order es → allocated st es en →
  oph_insert_into_job_list cfg now now' st (e_loc en) m =
    (if queue_full cfg n then mret (OPH_JOB_LIST_FULL, st)
     else if bool_decide (Exists (has_id (wf_idjob (e_val en))) (live d es))
     then mret (OPH_JOB_LIST_EXISTING_JOB, st1)
     else st' ← link_last now' st1 (e_loc en);
          mret (if farm_full cfg n then OPH_JOB_LIST_FARM_FULL else OPH_JOB_LIST_OK, st')) m.
Proof.
  intros d n st1 Hst Ho ((t & q & Hj) & Hw & Hl & Ha). unfold oph_insert_into_job_list.
  rewrite (rp_jlist _ _ _ Hst). cbv zeta.
  change (negb (oph_server_farm_size cfg =? 0) && _) with (farm_full cfg n).
  change (farm_full cfg n && _) with (queue_full cfg n).
  destruct (queue_full cfg n); [done|]. rewrite Hj. erewrite bind_run by done. simpl wf.
  erewrite bind_run by done. rewrite Hw. erewrite bind_run by done.
  pose proof (wp_find_job cfg now st es (wf_idjob (e_val en)) m Hst Ho) as Hfind.
  apply wp_run in Hfind as ([found st'] & m1 & Hrun & -> & Hst' & Hf). simpl in Hst', Hf. subst st'.
  rewrite (bind_run _ _ _ _ _ Hrun). fold d in Hf |- *. destruct found as [[p prev]|].
  - rewrite bool_decide_true by (by eapply found_some). done.
  - rewrite bool_decide_false by (by apply (found_none _ (expired d es))). done.
Qed.

(** ** Removal *)

Lemma last_of_app_cons ks e rest : last_of (ks ++ e :: rest) = last_of (e :: rest).
Proof. unfold last_of. by rewrite last_app_cons. Qed.

Lemma NoDup_unlink {B} (f : entry → B) ks e rest :
  NoDup (f <$> ks ++ e :: rest) → NoDup (f <$> ks ++ rest) ∧ f e ∉ f <$> ks ++ rest.
Proof.
  rewrite !fmap_app. simpl. rewrite <-Permutation_middle. intros [H1 H2]%NoDup_cons. done.
Qed.

(** The list without one of its jobs. *)
Lemma holds_unlinked st ks e rest js' :
  holds st (ks ++ e :: rest) → chain js' (ks ++ rest) → (∀ p, is_Some (js' !! p) → is_Some (jobs st !! p)) →
  holds (Store js' (wfs st) (unused st) (Some (JList (first (ks ++ rest)) (last_of (ks ++ rest)) (saved_of st)
     (Z.of_nat (length (ks ++ rest)))))) (ks ++ rest).
Proof.
  intros [Hl Hc Hw Hnd Hwnd Hs Hun] Hc' Hsub. split; simpl; try done.
  - apply Forall_app in Hw as [? [_ ?]%Forall_cons]. by apply Forall_app.
  - by eapply NoDup_unlink.
  - by eapply NoDup_unlink.
  - rewrite !length_app in *. simpl in Hs. lia.
  - intros p Hp. by apply Hun, Hsub.
Qed.

(** Removal of a job from a list in order, given its predecessor. *)
Lemma wp_drop st ks e rest prev m :
  holds st (ks ++ e :: rest) → (prev = last_of ks ∨ ks = [] ∧ rest ≠ []) →
  wp (oph_drop_from_job_list st (e_loc e) prev) (λ r m', m' = m ∧ r.1 = OPH_JOB_LIST_OK ∧
    holds r.2 (ks ++ rest) ∧ saved_of r.2 = saved_of st ∧ wfs r.2 = wfs st ∧
    jobs r.2 !! e_loc e = jobs st !! e_loc e) m.
Proof.
  intros Hst Hprev. pose proof (rp_chain _ _ _ Hst) as Hc. pose proof (chain_mid _ _ _ _ Hc) as He.
  pose proof (rp_locs _ _ _ Hst) as Hnd. destruct (NoDup_unlink e_loc _ _ _ Hnd) as [_ Hno].
  assert (wrap_u32 (Z.of_nat (length (ks ++ e :: rest)) - 1) = Z.of_nat (length (ks ++ rest))) as Hcnt.
  { pose proof (rp_size _ _ _ Hst) as Hs. rewrite !length_app in *. simpl in *. rewrite wrap_u32_id; lia. }
  assert (bool_decide (last_of (ks ++ e :: rest) = Some (e_loc e)) = bool_decide (rest = [])) as Htl.
  { apply bool_decide_ext. rewrite last_of_app_cons, last_of_cons. destruct rest as [|e' rest]; [by split|].
    split; [|done]. intros Hin%last_of_in. exfalso. apply Hno. rewrite fmap_app. apply elem_of_app. by right. }
  assert (last_of (ks ++ rest) = if bool_decide (rest = []) then prev else last_of (ks ++ e :: rest)) as Hlast.
  { clear Htl. case_bool_decide as Hr; [rewrite Hr, app_nil_r; by destruct Hprev as [->|[_ ?]]|]. destruct rest as [|e' rest]; [done|].
    by rewrite !last_of_app_cons, (last_of_cons e). }
  assert (∀ js', chain js' (ks ++ rest) → (∀ p, is_Some (js' !! p) → is_Some (jobs st !! p)) →
    js' !! e_loc e = jobs st !! e_loc e →
    let st' := Store js' (wfs st) (unused st) (Some (JList (first (ks ++ rest))
      (if bool_decide (rest = []) then prev else last_of (ks ++ e :: rest)) (saved_of st)
      (Z.of_nat (length (ks ++ rest))))) in
    holds st' (ks ++ rest) ∧ saved_of st' = saved_of st ∧ wfs st' = wfs st ∧
    jobs st' !! e_loc e = jobs st !! e_loc e) as Hfin.
  { intros js' Hc' Hsub Hje st'. split; [|done]. unfold st'. rewrite <-Hlast. by apply (holds_unlinked st ks e). }
  assert (∀ (b : bool) h tl tl' sv c, (if b then JList h tl' sv c else JList h tl sv c) =
    JList h (if b then tl' else tl) sv c) as Hif by (by intros []).
  unfold oph_drop_from_job_list. rewrite (rp_jlist _ _ _ Hst). cbv [set_counter set_tail tail counter head saved].
  rewrite Htl, Hcnt, Hif. destruct ks as [|k ks].
  - simpl head. rewrite (bool_decide_true (Some (e_loc e) = Some (e_loc e))) by done.
    wp_step. apply (wp_deref _ _ _ _ He). wp_step. split; [done|]. split; [done|]. apply Hfin; [|done|done]. apply Hc.
  - simpl head. rewrite (bool_decide_false (Some (e_loc k) = Some (e_loc e))).
    2:{ intros [= Heq]. apply Hno. rewrite <-Heq. simpl. left. }
    destruct Hprev as [->|[? _]]; [|done].
    destruct (last_of (k :: ks)) as [p|] eqn:Hp; [|by apply last_of_None in Hp].
    wp_step. apply (wp_deref _ _ _ _ He). simpl next.
    pose proof (last_of_in _ _ Hp) as Hpin. apply list_elem_of_fmap in Hpin as (ep & Hep & (l1 & l2 & Hl)%list_elem_of_split).
    assert (∃ j, jobs st !! p = Some j) as [j Hj].
    { rewrite Hl, <-app_assoc in Hc. rewrite Hep. eexists. by apply (chain_mid _ l1 ep (l2 ++ e :: rest)). }
    unfold write_next. wp_step. wp_step. wp_step. wp_step. apply (wp_deref _ _ _ _ Hj). wp_step. wp_step.
    split; [done|]. split; [done|]. apply Hfin.
    + by apply (chain_unlink _ (k :: ks) e rest p j).
    + intros q Hq. destruct (decide (q = p)) as [->|Hne]; [eauto|]. simpl in Hq. by rewrite lookup_insert_ne in Hq.
    + simpl. apply lookup_insert_ne. intros ->. apply Hno. rewrite Hep, Hl, !fmap_app. set_solver.
Qed.

(** The live jobs without the first one with the identifier. *)
Fixpoint remove_job (id : Z) (lv : list entry) : list entry :=
  match lv with
  | [] => []
  | e :: lv' => if decide (has_id id e) then lv' else e :: remove_job id lv'
  end.

Lemma remove_job_found id l1 e l2 :
  Forall (λ e, ¬ has_id id e) l1 → has_id id e → remove_job id (l1 ++ e :: l2) = l1 ++ l2.
Proof.
  intros Hl1 He. induction Hl1 as [|x l1 Hx _ IH]; simpl; [by rewrite decide_True|].
  by rewrite decide_False, IH by done.
Qed.

Lemma remove_job_none id lv : Forall (λ e, ¬ has_id id e) lv → remove_job id lv = lv.
Proof. induction 1 as [|x lv Hx _ IH]; simpl; [done|]. by rewrite decide_False, IH by done. Qed.

Lemma first_match_unique id l1 l1' e e' l2 l2' :
  l1 ++ e :: l2 = l1' ++ e' :: l2' → Forall (λ e, ¬ has_id id e) l1 → Forall (λ e, ¬ has_id id e) l1' →
  has_id id e → has_id id e' → e' = e.
Proof.
  revert l1'. induction l1 as [|x l1 IH]; intros [|x' l1'] Heq H1 H1' He He'; simplify_eq/=; [done| | |].
  - by apply Forall_cons in H1' as [? _].
  - by apply Forall_cons in H1 as [? _].
  - apply Forall_cons in H1 as [_ H1]. apply Forall_cons in H1' as [_ H1']. by apply (IH l1').
Qed.

(** A node outside the list can go without the list noticing. *)
Lemma holds_free_job st es p : holds st es → p ∉ e_loc <$> es → holds (free_job p st) es.
Proof.
  intros [Hl Hc Hw Hnd Hwnd Hs Hun] Hp. split; try done; simpl.
  - by apply chain_delete.
  - intros q [j Hq]. apply lookup_delete_Some in Hq as [_ Hq]. eauto.
Qed.

Lemma holds_free_workflow st es a w m :
  holds st es → a ∉ e_wf <$> es → wfs st !! a = Some w →
  wp (free_workflow (Some a) st) (λ st' m', m' = m ∧ holds st' es ∧ jobs st' = jobs st ∧
    jlist st' = jlist st ∧ wfs st' !! a = (oph_workflow_free (Some w)).2) m.
Proof.
  intros [Hl Hc Hw Hnd Hwnd Hs Hun] Ha Hwa. unfold free_workflow. wp_step. apply (wp_deref _ _ _ _ Hwa).
  wp_step. split; [done|].
  assert (∀ ws, (∀ b, b ≠ a → ws !! b = wfs st !! b) → holds (set_wfs ws st) es) as Hset.
  { intros ws Hws. split; try done. simpl. apply Forall_forall. intros e He. rewrite Hws.
    - by eapply Forall_forall in Hw.
    - intros <-. apply Ha. by apply list_elem_of_fmap_2. }
  destruct (oph_workflow_free (Some w)).2; simpl.
  - rewrite lookup_insert_eq. split; [|done]. apply Hset. intros b Hb. by apply lookup_insert_ne.
  - rewrite lookup_delete_eq. split; [|done]. apply Hset. intros b Hb. by apply lookup_delete_ne.
Qed.

(** Where a removed job goes: to the saved jobs when the status log is on, else its
    node is freed and its workflow released. *)
Definition disposed (cfg : settings) (now : Z) (remove : bool) (e : entry) (sv : ptr) (st : store) : Prop :=
  if remove && bool_decide (is_Some (oph_status_log_file_name cfg))
  then saved_of st = Some (e_loc e) ∧
       jobs st !! e_loc e = Some (JobInfo (wrap_i32 now) (Some (e_wf e)) sv) ∧
       wfs st !! e_wf e = Some (e_val e)
  else saved_of st = sv ∧ jobs st !! e_loc e = None ∧
       wfs st !! e_wf e = if remove then (oph_workflow_free (Some (e_val e))).2 else Some (e_val e).

Lemma wp_save cfg now st es e remove m :
  holds st es → e_loc e ∉ e_loc <$> es → e_wf e ∉ e_wf <$> es → wfs st !! e_wf e = Some (e_val e) →
  (∃ t q, jobs st !! e_loc e = Some (JobInfo t (Some (e_wf e)) q)) →
  wp (oph_save_job_in_job_list2 cfg now st (e_loc e) remove) (λ r m', m' = m ∧ r.1 = OPH_JOB_LIST_OK ∧
    holds r.2 es ∧ disposed cfg now remove e (saved_of st) r.2) m.
Proof.
  intros Hst Hl Ha Hw (t & q & Hj). unfold oph_save_job_in_job_list2, disposed.
  rewrite (rp_jlist _ _ _ Hst). wp_step. apply (wp_deref _ _ _ _ Hj).
  destruct (remove && _) eqn:Hrm.
  - wp_step. split; [done|]. split; [done|]. simpl. rewrite lookup_insert_eq. split; [|done].
    destruct Hst as [Hjl Hc Hws Hnd Hwnd Hs Hun]. split; try done; simpl.
    + eapply chain_ext; [|done]. intros e' He'. apply lookup_insert_ne. intros Heq. apply Hl. rewrite Heq.
      by apply list_elem_of_fmap_2.
    + intros p Hp. destruct (decide (p = e_loc e)) as [->|Hne]; [eauto|].
      rewrite lookup_insert_ne in Hp by done. eauto.
  - wp_step. destruct remove; simpl.
    + eapply wp_mono; [by apply (holds_free_workflow st es _ (e_val e))|].
      intros st1 m1 (-> & Hst1 & Hj1 & Hl1 & Hw1). wp_step. split; [done|]. split; [done|].
      split; [by apply holds_free_job|]. split_and!; [|simpl; apply lookup_delete_eq|done].
      unfold saved_of. simpl. by rewrite Hl1.
    + wp_step. wp_step. split; [done|]. split; [done|]. split; [by apply holds_free_job|].
      split_and!; [done|simpl; apply lookup_delete_eq|done].
Qed.

(** ** Properties *)

(** a search of a job list in order of time frees exactly the expired jobs (a
    synchronous one is marked expired and left to its client), keeps the others in
    order, and returns the first live job with the identifier, or nothing when there
    is none; it never follows a pointer to a freed node.  The tail of the list stays
    right unless two or more jobs expired and none is left. *)
Theorem find_job_correct (cfg : settings) (now : Z) (st : store) (es : list entry) (id : Z) (m : mem) :
  let d := remote_deadline cfg now in
  holds st es → in_order es →
  wp (oph_find_job_in_job_list cfg now st id) (λ r _,
    rep r.2 (live d es) (tail_after None (expired d es) (live d es)) ∧
    (tail_safe (expired d es) (live d es) → holds r.2 (live d es)) ∧
    (∀ e, e ∈ expired d es → jobs r.2 !! e_loc e = None) ∧
    found_job id (expired d es) (live d es) r.1) m.
Proof.
  intros d Hst Ho. eapply wp_mono; [by eapply wp_find_job|].
  intros [r st'] m1 (-> & Hst' & Hf). simpl in *. subst st'.
  pose proof (rep_search st es d Hst Ho) as Hrep. split_and!; [done| | |done].
  - intros Hsafe. unfold holds. by rewrite <-(tail_after_safe (expired d es)).
  - intros e He. apply (drop_entries_gone (expired d es) st). by apply list_elem_of_fmap_2.
Qed.

Definition sample_wf (id : Z) (mode : string) : oph_workflow :=
  Workflow id id id 0 0 None None None 0 0 None (Some "wf"%string) None None None (Some "s"%string) (Some mode)
    0 0 0 0 None None None None None [] 0 0 None None None 0 0 [] 0 None [] None None 0 0 None None 0 None None
    None None 0.

(** A synchronous job started at time 0 and an asynchronous one started at time 50. *)
Definition sample_entries : list entry :=
  [Entry 1 0 1 (sample_wf 7 "sync"); Entry 2 50 2 (sample_wf 8 "async")].
Definition sample_store : store :=
  Store (<[1%nat := JobInfo 0 (Some 1%nat) (Some 2%nat)]> {[2%nat := JobInfo 50 (Some 2%nat) None]})
        (<[1%nat := sample_wf 7 "sync"]> {[2%nat := sample_wf 8 "async"]}) 3
        (Some (JList (Some 1%nat) (Some 2%nat) None 2)).
Definition sample_settings : settings := Settings 100 2 1 None.

Lemma sample_holds : holds sample_store sample_entries ∧ in_order sample_entries.
Proof.
  split.
  - split; try (vm_compute; done).
    + vm_compute. repeat constructor; done.
    + apply (bool_decide_unpack _). vm_compute. done.
    + apply (bool_decide_unpack _). vm_compute. done.
    + intros p [j Hp]. simpl in *. destruct (decide (p = 1%nat)) as [->|H1]; [lia|].
      rewrite lookup_insert_ne in Hp by done. apply lookup_singleton_Some in Hp as [<- _]. lia.
  - repeat constructor; simpl; lia.
Qed.

Lemma find_job_correct_witness :
  (live (remote_deadline sample_settings 120) sample_entries = [Entry 2 50 2 (sample_wf 8 "async")]) ∧
  wp (oph_find_job_in_job_list sample_settings 120 sample_store 8) (λ r _,
    rep r.2 (live (remote_deadline sample_settings 120) sample_entries)
      (tail_after None (expired (remote_deadline sample_settings 120) sample_entries)
         (live (remote_deadline sample_settings 120) sample_entries)) ∧
    (tail_safe (expired (remote_deadline sample_settings 120) sample_entries)
       (live (remote_deadline sample_settings 120) sample_entries) →
     holds r.2 (live (remote_deadline sample_settings 120) sample_entries)) ∧
    (∀ e, e ∈ expired (remote_deadline sample_settings 120) sample_entries → jobs r.2 !! e_loc e = None) ∧
    found_job 8 (expired (remote_deadline sample_settings 120) sample_entries)
      (live (remote_deadline sample_settings 120) sample_entries) r.1) [].
Proof.
  split; [vm_compute; reflexivity|].
  apply (find_job_correct sample_settings 120 sample_store sample_entries 8 []); apply sample_holds.
Defined.

(** C15: On a job list that represents a queue in the order of time and of which either a job is live or at most one
    is expired (otherwise the insertion uses a released node), the insertion of an allocated job implements the
    insertion into the queue: it is refused with OPH_JOB_LIST_FULL, without a change, when farm and queue are full,
    counting the expired jobs too; refused when a live job has the identifier; otherwise the job becomes the last one,
    with OPH_JOB_LIST_FARM_FULL when the farm is full, expired jobs counted; in the last two cases the expired jobs
    leave the list. *)
Theorem insert_refines (cfg : settings) (now now' : Z) (st : store) (es : list entry) (en : entry) (m : mem) :
  let d := remote_deadline cfg now in
  holds st es → in_order es → allocated st es en → e_time en = wrap_i32 now' →
  Z.of_nat (length es) + 1 < 2 ^ 32 → tail_safe (expired d es) (live d es) →
  wp (oph_insert_into_job_list cfg now now' st (e_loc en)) (λ r _,
    r.1 = (spec_insert cfg now es en).1 ∧ holds r.2 (spec_insert cfg now es en).2) m.
Proof.
  intros d Hst Ho Hal Ht Hsz Hsafe.
  assert (holds (purged st None (expired d es) (live d es)) (live d es)) as Hst1.
  { unfold holds. rewrite <-(tail_after_safe (expired d es)) by done. by apply rep_search. }
  unfold spec_insert. fold d. eapply wp_eq; [by apply (insert_run cfg now now' st es en)|]. fold d.
  destruct (queue_full _ _); [done|]. case_bool_decide as Hex; [done|]. wp_step. eapply wp_mono.
  - apply (wp_link_last now' _ _ en m Hst1); [by apply allocated_purged| |done].
    pose proof (length_filter (λ e, d ≤ e_time e) es). unfold live. lia.
  - intros st' m1 (_ & Hst' & _). wp_step. by destruct (farm_full _ _).
Qed.

(** A third node, not in the list. *)
Definition sample_new : entry := Entry 3 130 3 (sample_wf 9 "async").
Definition sample_store3 : store :=
  Store (<[3%nat := JobInfo 0 (Some 3%nat) None]> (jobs sample_store))
        (<[3%nat := sample_wf 9 "async"]> (wfs sample_store)) 4 (jlist sample_store).

Lemma sample_allocated : holds sample_store3 sample_entries ∧ allocated sample_store3 sample_entries sample_new.
Proof.
  split.
  - destruct sample_holds as [[Hl Hc Hw Hnd Hwnd Hs Hun] _]. split; try done.
    + vm_compute. repeat constructor; done.
    + intros p Hp. simpl in *. destruct (decide (p = 3%nat)) as [->|H1]; [lia|].
      rewrite lookup_insert_ne in Hp by done. apply Hun in Hp. simpl in Hp. lia.
  - split_and!; [by eexists _, _|done| |]; apply (bool_decide_unpack _); vm_compute; done.
Qed.

Lemma insert_refines_witness :
  spec_insert sample_settings 120 sample_entries sample_new =
    (OPH_JOB_LIST_FARM_FULL, [Entry 2 50 2 (sample_wf 8 "async"); sample_new]) ∧
  wp (oph_insert_into_job_list sample_settings 120 130 sample_store3 3) (λ r _,
    r.1 = (spec_insert sample_settings 120 sample_entries sample_new).1 ∧
    holds r.2 (spec_insert sample_settings 120 sample_entries sample_new).2) [].
Proof.
  split; [vm_compute; reflexivity|].
  apply (insert_refines sample_settings 120 130 sample_store3 sample_entries sample_new []);
    [apply sample_allocated|apply sample_holds|apply sample_allocated|reflexivity|simpl; lia|].
  left. done.
Defined.

Lemma tail_after_dangling pp ex :
  (2 ≤ length ex)%nat → ∃ e, e ∈ ex ∧ tail_after pp ex [] = Some (e_loc e).
Proof.
  revert pp. induction ex as [|e1 ex IH]; intros pp Hlen; [simpl in Hlen; lia|].
  destruct ex as [|e2 [|e3 ex]]; simpl in Hlen; [lia| |].
  - exists e1. split; [left|done].
  - destruct (IH (Some (e_loc e1))) as (e & He & Ht); [simpl; lia|]. exists e. split; [by right|].
    simpl in Ht |- *. done.
Qed.

(** Linking behind a freed tail. *)
Lemma link_last_ub now' st item l p m :
  jlist st = Some l → tail l = Some p → jobs st !! p = None → link_last now' st item m = UB.
Proof.
  intros Hl Hp Hj. unfold link_last. rewrite Hl. erewrite bind_run by done. rewrite Hp. unfold write_next.
  unfold mbind, C_bind. simpl. by rewrite Hj.
Qed.

Lemma all_expired d es : Forall (λ e, e_time e < d) es → expired d es = es ∧ live d es = [].
Proof.
  unfold expired, live. induction 1 as [|e es He _ [IH1 IH2]]; [done|].
  rewrite filter_cons_True by done. rewrite filter_cons_False by lia. by rewrite IH1, IH2.
Qed.

(** C28: when every job of a list with two or more jobs has expired, the search inside
    the insertion leaves the tail on a freed node, and linking the new job writes
    through it. *)
Theorem insert_after_expiry_ub (cfg : settings) (now now' : Z) (st : store) (es : list entry) (en : entry) (m : mem) :
  holds st es → in_order es → allocated st es en → (2 ≤ length es)%nat →
  Forall (λ e, e_time e < remote_deadline cfg now) es → queue_full cfg (Z.of_nat (length es)) = false →
  oph_insert_into_job_list cfg now now' st (e_loc en) m = UB.
Proof.
  intros Hst Ho Hal Hlen Hexp Hq. destruct (all_expired _ _ Hexp) as [Hex Hlv].
  destruct (tail_after_dangling None es Hlen) as (e & He & Htl).
  rewrite (insert_run cfg now now' st es en), Hq, Hlv, Hex by done. rewrite (bool_decide_false (Exists _ [])) by (by intros ?%Exists_nil).
  unfold mbind, C_bind. erewrite (link_last_ub _ (purged _ _ _ _) _ _ (e_loc e)); [done|reflexivity|done|].
  apply (drop_entries_gone es st). by apply list_elem_of_fmap_2.
Qed.

Lemma insert_after_expiry_ub_witness :
  oph_insert_into_job_list (Settings 10 0 0 None) 120 130 sample_store3 3 [] = UB.
Proof.
  apply (insert_after_expiry_ub (Settings 10 0 0 None) 120 130 sample_store3 sample_entries sample_new []);
    [apply sample_allocated|apply sample_holds|apply sample_allocated|simpl; lia| |reflexivity].
  repeat constructor.
Defined.

(** C27: On a job list in the order of time that has no expired job or at least two live ones (otherwise the tail is
    left dangling), dropping a job by its identifier succeeds and leaves exactly the live jobs without the first one
    that has the identifier, in order; all expired jobs leave too; the dropped job is kept among the saved jobs when
    the status log is on and otherwise released; with an unknown identifier only the expired jobs leave. *)
Theorem drop_refines (cfg : settings) (now now' : Z) (st : store) (es : list entry) (id : Z) (remove : bool) (m : mem) :
  let d := remote_deadline cfg now in
  holds st es → in_order es → (expired d es = [] ∨ (2 ≤ length (live d es))%nat) →
  wp (oph_wf_list_drop2 cfg now now' st id remove) (λ r _,
    r.1 = OPH_SERVER_OK ∧ holds r.2 (remove_job id (live d es)) ∧
    (∀ l1 e l2, live d es = l1 ++ e :: l2 → has_id id e → Forall (λ e, ¬ has_id id e) l1 →
       disposed cfg now' remove e (saved_of st) r.2)) m.
Proof.
  intros d Hst Ho Hsafe. unfold oph_wf_list_drop2. wp_step.
  eapply wp_mono; [by eapply (wp_find_job cfg now st es)|].
  intros [found st1] m1 (-> & Hst1 & Hf). simpl in Hst1, Hf. fold d in Hst1, Hf.
  assert (holds st1 (live d es)) as Hh.
  { subst st1. unfold holds. rewrite <-(tail_after_safe (expired d es)); [by apply rep_search|].
    destruct Hsafe as [->|Hl]; [right; simpl; lia|left]. intros Hnil. rewrite Hnil in Hl. simpl in Hl. lia. }
  assert (saved_of st1 = saved_of st) as Hsv by (by subst st1). clear Hst1.
  destruct found as [[p prev]|]; simpl in Hf.
  2:{ wp_step. simpl. rewrite remove_job_none by done. split_and!; [done|done|].
      intros l1 e l2 Hlv He _. rewrite Hlv in Hf. apply Forall_app in Hf as [_ [? _]%Forall_cons]. done. }
  destruct Hf as (l1 & e & l2 & Hlv & He & Hl1 & -> & ->). rewrite Hlv in Hh, Hsafe |- *.
  rewrite remove_job_found by done. unfold oph_delete_from_job_list2. wp_step. wp_step.
  destruct (NoDup_unlink e_loc _ _ _ (rp_locs _ _ _ Hh)) as [_ Hloc].
  destruct (NoDup_unlink e_wf _ _ _ (rp_wlocs _ _ _ Hh)) as [_ Hwl].
  pose proof (chain_mid _ _ _ _ (rp_chain _ _ _ Hh)) as Hje.
  assert (wfs st1 !! e_wf e = Some (e_val e)) as Hwe.
  { pose proof (rp_wfs _ _ _ Hh) as Hw. by apply Forall_app in Hw as [_ [? _]%Forall_cons]. }
  eapply wp_mono; [apply (wp_drop st1 l1 e l2 _ m Hh)|].
  { destruct l1 as [|x l1]; [|left; unfold pp_after; by destruct (last_of (x :: l1)) eqn:Hn; [|apply last_of_None in Hn]].
    destruct Hsafe as [->|Hlen]; [by left|right]. split; [done|]. destruct l2; [simpl in Hlen; lia|done]. }
  intros [rc st2] m1 (-> & Hrc & Hh2 & Hsv2 & Hw2 & Hj2). simpl in *. subst rc. cbv beta iota. simpl negb. cbv iota.
  eapply wp_mono; [apply (wp_save cfg now' st2 (l1 ++ l2) e remove); try done|].
  - by rewrite Hw2.
  - rewrite Hj2. by eexists _, _.
  - intros [rc st3] m1 (-> & Hrc & Hh3 & Hdis). simpl in *. subst rc. wp_step. simpl. split_and!; [done|done|].
    intros l1' e' l2' Heq He' Hl1'. rewrite Hsv2, Hsv in Hdis.
    by rewrite (first_match_unique id _ _ _ _ _ _ Heq Hl1 Hl1' He He').
Qed.

Lemma drop_refines_witness :
  remove_job 7 (live (remote_deadline sample_settings 60) sample_entries) = [Entry 2 50 2 (sample_wf 8 "async")] ∧
  wp (oph_wf_list_drop2 sample_settings 60 60 sample_store 7 true) (λ r _,
    r.1 = OPH_SERVER_OK ∧ holds r.2 (remove_job 7 (live (remote_deadline sample_settings 60) sample_entries)) ∧
    (∀ l1 e l2, live (remote_deadline sample_settings 60) sample_entries = l1 ++ e :: l2 → has_id 7 e →
       Forall (λ e, ¬ has_id 7 e) l1 → disposed sample_settings 60 true e (saved_of sample_store) r.2)) [].
Proof.
  split; [vm_compute; reflexivity|].
  apply (drop_refines sample_settings 60 60 sample_store sample_entries 7 true []); [apply sample_holds..|].
  left. vm_compute. reflexivity.
Defined.

(** when one job expires in front of the only live job and that job is dropped,
    the tail is left on the freed node, and linking another job is undefined. *)
Theorem drop_leaves_dangling_tail (cfg : settings) (now now' : Z) (st : store) (e1 e : entry) (remove : bool) (m : mem) :
  holds st [e1; e] → e_time e1 < remote_deadline cfg now ≤ e_time e →
  wp (oph_wf_list_drop2 cfg now now' st (wf_idjob (e_val e)) remove) (λ r _,
    r.1 = OPH_SERVER_OK ∧
    ∀ now'' item m', link_last now'' r.2 item m' = UB) m.
Proof.
  intros Hst [H1 H2]. set (d := remote_deadline cfg now) in *.
  assert (in_order [e1; e]) as Ho by (repeat constructor; lia).
  assert (expired d [e1; e] = [e1] ∧ live d [e1; e] = [e]) as [Hex Hlv].
  { unfold expired, live. rewrite filter_cons_True, filter_cons_False by lia.
    rewrite filter_cons_False, filter_cons_True by lia. done. }
  unfold oph_wf_list_drop2. wp_step. eapply wp_mono; [by eapply (wp_find_job cfg now st [e1; e])|].
  intros [found st1] m1 (-> & Hst1 & Hf). simpl in Hst1, Hf. fold d in Hst1, Hf. rewrite Hlv, Hex in Hf, Hst1.
  destruct found as [[p prev]|]; simpl in Hf; [|by apply Forall_cons in Hf as [Hf _]; destruct Hf].
  destruct Hf as (l1 & x & l2 & Heq & _ & _ & -> & ->). destruct l1 as [|y [|]]; simplify_eq/=.
  change (pp_after (last_of [e1]) []) with (Some (e_loc e1)).
  pose proof (rep_search st [e1; x] d Hst Ho) as Hh. rewrite Hlv, Hex in Hh.
  unfold oph_delete_from_job_list2. wp_step. wp_step. unfold oph_drop_from_job_list.
  set (st1 := purged st None [e1] [x]) in *.
  assert (jobs st1 !! e_loc e1 = None) as Hgone by (apply (drop_entries_gone [e1] st); left).
  destruct (rp_chain _ _ _ Hh) as [Hjx _]. pose proof (rp_wfs _ _ _ Hh) as [Hwx _]%Forall_cons.
  simpl jlist. cbv [set_counter set_tail tail counter head saved].
  change (last_of [x]) with (Some (e_loc x)). change (first [x]) with (Some (e_loc x)).
  rewrite !(bool_decide_true (Some (e_loc x) = Some (e_loc x))) by done. cbv iota.
  wp_step. apply (wp_deref _ _ _ _ Hjx). wp_step. cbv beta iota. simpl negb. cbv iota.
  assert (e_loc x ≠ e_loc e1) as Hne.
  { intros Heq. pose proof (rp_locs _ _ _ Hst) as Hnd. apply NoDup_cons in Hnd as [Hno _]. apply Hno.
    rewrite <-Heq. left. }
  assert (∀ st2, (∃ l, jlist st2 = Some l ∧ tail l = Some (e_loc e1)) → jobs st2 !! e_loc e1 = None →
    ∀ now'' item m', link_last now'' st2 item m' = UB) as Hub.
  { intros st2 (l & Hl & Ht) Hj now'' item m'. by apply (link_last_ub now'' st2 item l (e_loc e1)). }
  unfold oph_save_job_in_job_list2. simpl jlist. cbv iota beta. wp_step. apply (wp_deref _ _ _ _ Hjx).
  destruct (remove && _); [|wp_step; destruct remove].
  - wp_step. wp_step. split; [done|]. apply Hub; [by eexists|]. simpl. by rewrite lookup_insert_ne.
  - simpl wf. unfold free_workflow. cbv beta iota. wp_step. apply (wp_deref _ _ _ _ Hwx). wp_step. wp_step. wp_step.
    split; [done|]. apply Hub; destruct (oph_workflow_free (Some (e_val x))).2; simpl; eauto;
      by rewrite lookup_delete_ne.
  - wp_step. wp_step. wp_step. split; [done|]. apply Hub; [by eexists|]. simpl. by rewrite lookup_delete_ne.
Qed.

Lemma drop_leaves_dangling_tail_witness :
  wp (oph_wf_list_drop2 sample_settings 120 120 sample_store 8 true) (λ r _,
    r.1 = OPH_SERVER_OK ∧ ∀ now'' item m', link_last now'' r.2 item m' = UB) [].
Proof.
  apply (drop_leaves_dangling_tail sample_settings 120 120 sample_store
    (Entry 1 0 1 (sample_wf 7 "sync")) (Entry 2 50 2 (sample_wf 8 "async")) true []).
  - apply sample_holds.
  - vm_compute. split; [reflexivity|discriminate].
Defined.

(** ** The farm *)

Definition started (e : entry) : Prop := wf_status (e_val e) ≠ 0.
#[global] Instance started_dec e : Decision (started e).
Proof. unfold started. apply _. Defined.

Lemma visits_count_started n pp lv :
  0 ≤ n → n + Z.of_nat (length lv) < 2 ^ 32 →
  (visits (λ n w, @Next Z () (if wf_status w =? 0 then n else wrap_u32 (n + 1))) pp n lv).2 =
    Next (n + Z.of_nat (length (filter started lv))).
Proof.
  revert n pp. induction lv as [|e lv IH]; intros n pp Hn Hlen; simpl; [by rewrite Z.add_0_r|].
  simpl in Hlen. rewrite filter_cons.
  destruct (Z.eqb_spec (wf_status (e_val e)) 0) as [He|He].
  - rewrite decide_False by (unfold started; lia). rewrite IH by lia. done.
  - rewrite decide_True by done. rewrite wrap_u32_id by lia. rewrite IH by lia. f_equal. simpl. lia.
Qed.

Lemma wp_first_unstarted st lv fuel m :
  chain (jobs st) lv → Forall (λ e, wfs st !! e_wf e = Some (e_val e)) lv → (length lv < fuel)%nat →
  wp (first_unstarted fuel st (first lv)) (λ p m', m' = m ∧ match p with
    | None => Forall started lv
    | Some q => ∃ l1 e l2, lv = l1 ++ e :: l2 ∧ q = e_loc e ∧ ¬ started e ∧ Forall started l1
    end) m.
Proof.
  revert fuel. induction lv as [|e lv IH]; intros fuel Hc Hw Hf.
  { destruct fuel; simpl; by wp_step. }
  destruct fuel as [|fuel]; [simpl in Hf; lia|]. destruct Hc as [He Hc]. apply Forall_cons in Hw as [Hwe Hw].
  simpl. wp_step. apply (wp_deref _ _ _ _ He). simpl. wp_step. wp_step. wp_step. apply (wp_deref _ _ _ _ Hwe).
  destruct (Z.eqb_spec (wf_status (e_val e)) 0) as [Hz|Hz].
  - wp_step. split; [done|]. exists [], e, lv. split_and!; [done|done| |done]. unfold started. tauto.
  - eapply wp_mono; [apply IH; [done|done|simpl in Hf; lia]|].
    intros [q|] m1 [-> H]; (split; [done|]).
    + destruct H as (l1 & x & l2 & -> & -> & Hx & Hl1). exists (e :: l1), x, l2. split_and!; try done. by constructor.
    + by constructor.
Qed.

(** [oph_find_unstarted_in_job_list] returns the first queued workflow exactly when
    the farm has a server that runs none of the live workflows and some live workflow
    has not started. *)
Theorem find_unstarted_correct (cfg : settings) (now : Z) (st : store) (es : list entry) (m : mem) :
  let lv := live (remote_deadline cfg now) es in
  let running := Z.of_nat (length (filter started lv)) in
  holds st es → in_order es →
  wp (oph_find_unstarted_in_job_list cfg now st) (λ r _, match r.1 with
    | Some q => oph_server_farm_size cfg ≠ 0 ∧ running < oph_server_farm_size cfg ∧
        ∃ l1 e l2, lv = l1 ++ e :: l2 ∧ q = e_loc e ∧ ¬ started e ∧ Forall started l1
    | None => oph_server_farm_size cfg = 0 ∨ oph_server_farm_size cfg ≤ running ∨ Forall started lv
    end) m.
Proof.
  intros lv running Hst Ho. set (d := remote_deadline cfg now) in *.
  unfold oph_find_unstarted_in_job_list. rewrite (rp_jlist _ _ _ Hst). wp_step.
  eapply wp_mono; [eapply (wp_search _ _ (λ n w, @Next Z () (if wf_status w =? 0 then n else wrap_u32 (n + 1))));
    [done|done|by apply Hst|]|].
  { intros e acc m1 _. unfold count_started. by wp_step. }
  intros r m1 [-> ->]. fold d. fold lv. pose proof (rep_search st es d Hst Ho) as Hrep. fold lv in Hrep.
  rewrite visits_count_started by (pose proof (rp_size _ _ _ Hrep); lia). rewrite Z.add_0_l. fold running.
  cbv beta iota. wp_step. simpl jlist. wp_step. simpl counter.
  destruct (Z.eqb_spec (oph_server_farm_size cfg) 0) as [Hz|Hz]; cbv [negb andb]; [wp_step; by left|].
  destruct (Z.ltb_spec running (oph_server_farm_size cfg)) as [Hr|Hr]; cbv [negb andb]; [|wp_step; by right; left].
  destruct (Z.ltb_spec running (Z.of_nat (length lv))) as [Hc|Hc]; cbv iota.
  - wp_step. eapply wp_mono; [apply (wp_first_unstarted _ lv); [apply Hrep|apply Hrep|]|].
    { unfold fuel_of. pose proof (chain_length _ _ (rp_chain _ _ _ Hrep) (rp_locs _ _ _ Hrep)). lia. }
    intros [q|] m1 [-> H]; wp_step; simpl; [by split_and!|by do 2 right].
  - wp_step. do 2 right. apply Forall_forall. intros e He.
    destruct (decide (started e)) as [|Hno]; [done|].
    pose proof (length_filter_lt started lv e He Hno). unfold running in Hc. lia.
Qed.

Lemma find_unstarted_correct_witness :
  wp (oph_find_unstarted_in_job_list sample_settings 60 sample_store) (λ r _, match r.1 with
    | Some q => 2 ≠ 0 ∧ Z.of_nat (length (filter started (live (remote_deadline sample_settings 60) sample_entries))) < 2 ∧
        ∃ l1 e l2, live (remote_deadline sample_settings 60) sample_entries = l1 ++ e :: l2 ∧ q = e_loc e ∧
          ¬ started e ∧ Forall started l1
    | None => 2 = 0 ∨ 2 ≤ Z.of_nat (length (filter started (live (remote_deadline sample_settings 60) sample_entries))) ∨
        Forall started (live (remote_deadline sample_settings 60) sample_entries)
    end) [].
Proof.
  apply (find_unstarted_correct sample_settings 60 sample_store sample_entries []); apply sample_holds.
Defined.

(** ** Identifiers *)

Lemma wp_max_jobid st lv fuel id m :
  chain (jobs st) lv → Forall (λ e, wfs st !! e_wf e = Some (e_val e)) lv → (length lv < fuel)%nat →
  wp (max_jobid fuel st (first lv) id) (λ r m', m' = m ∧ id ≤ r ∧ Forall (λ e, wf_idjob (e_val e) ≤ r) lv ∧
    (r = id ∨ Exists (λ e, wf_idjob (e_val e) = r) lv)) m.
Proof.
  revert fuel id. induction lv as [|e lv IH]; intros fuel id Hc Hw Hf.
  { destruct fuel; simpl; wp_step; (split_and!; [done|lia|done|by left]). }
  destruct fuel as [|fuel]; [simpl in Hf; lia|]. destruct Hc as [He Hc]. apply Forall_cons in Hw as [Hwe Hw].
  simpl. wp_step. apply (wp_deref _ _ _ _ He). simpl. wp_step. wp_step. wp_step. apply (wp_deref _ _ _ _ Hwe).
  eapply wp_mono; [apply IH; [done|done|simpl in Hf; lia]|].
  intros r m1 (-> & Hle & Hall & Hex). split; [done|].
  destruct (Z.ltb_spec id (wf_idjob (e_val e))); (split_and!; [lia|by constructor; [lia|]|]).
  - right. destruct Hex as [->|Hex]; [by left|by right].
  - destruct Hex as [->|Hex]; [by left|right; by right].
Qed.

(** the identifier [oph_get_new_jobid_from_job_list] hands out is positive and
    larger than that of every job of the list, so that an insertion with it is never
    refused as a duplicate; the increment does not overflow below [INT_MAX]. *)
Theorem new_jobid_fresh (cfg : settings) (now : Z) (st : store) (es : list entry) (m : mem) :
  holds st es → Forall (λ e, wf_idjob (e_val e) < 2 ^ 31 - 1) es →
  wp (oph_get_new_jobid_from_job_list st) (λ r _,
    r.1 = OPH_JOB_LIST_OK ∧ 0 < r.2 ∧ Forall (λ e, wf_idjob (e_val e) < r.2) es ∧
    ∀ en, wf_idjob (e_val en) = r.2 → (spec_insert cfg now es en).1 ≠ OPH_JOB_LIST_EXISTING_JOB) m.
Proof.
  intros Hst Hid. unfold oph_get_new_jobid_from_job_list. rewrite (rp_jlist _ _ _ Hst). wp_step.
  eapply wp_mono; [apply (wp_max_jobid st es); [apply Hst|apply Hst|]|].
  { unfold fuel_of. pose proof (chain_length _ _ (rp_chain _ _ _ Hst) (rp_locs _ _ _ Hst)). lia. }
  intros r m1 (-> & Hle & Hall & Hex).
  assert (r < 2 ^ 31 - 1) as Hr.
  { destruct Hex as [->|(e & He & <-)%Exists_exists]; [lia|]. by eapply Forall_forall in Hid. }
  assert (Forall (λ e, wf_idjob (e_val e) < r + 1) es) as Hlt by (eapply Forall_impl; [done|]; simpl; lia).
  wp_step. apply wp_assert; [lia|]. wp_step. split_and!; [done|simpl; lia|done|].
  intros en Hen. unfold spec_insert. destruct (queue_full _ _); [done|].
  rewrite bool_decide_false; [by destruct (farm_full _ _)|].
  intros (e & [_ He]%list_elem_of_filter & Heq)%Exists_exists. unfold has_id in Heq. rewrite Hen in Heq. simpl in Heq.
  eapply Forall_forall in Hlt; [|done]. simpl in Hlt. lia.
Qed.

Lemma new_jobid_fresh_witness :
  oph_get_new_jobid_from_job_list sample_store [] = Ok (OPH_JOB_LIST_OK, 9) [] ∧
  wp (oph_get_new_jobid_from_job_list sample_store) (λ r _,
    r.1 = OPH_JOB_LIST_OK ∧ 0 < r.2 ∧ Forall (λ e, wf_idjob (e_val e) < r.2) sample_entries ∧
    ∀ en, wf_idjob (e_val en) = r.2 →
      (spec_insert sample_settings 60 sample_entries en).1 ≠ OPH_JOB_LIST_EXISTING_JOB) [].
Proof.
  split; [vm_compute; reflexivity|].
  apply (new_jobid_fresh sample_settings 60 sample_store sample_entries []); [apply sample_holds|].
  repeat constructor.
Defined.

(** ** Saved jobs *)

Definition kept (now hysteresis : Z) (e : entry) : Prop :=
  hysteresis ≠ 0 ∧ now - hysteresis ≤ e_time e.
#[global] Instance kept_dec now h e : Decision (kept now h e).
Proof. unfold kept. apply _. Defined.

(** The saved jobs of a store. *)
Record saved_rep (st : store) (sv : list entry) : Prop := {
  sr_saved : saved_of st = first sv;
  sr_chain : chain (jobs st) sv;
  sr_locs : NoDup (e_loc <$> sv);
  sr_wlocs : NoDup (e_wf <$> sv);
  sr_wfs : Forall (λ e, wfs st !! e_wf e = Some (e_val e)) sv;
}.

Lemma chain_in js ks p : chain js ks → p ∈ e_loc <$> ks → is_Some (js !! p).
Proof.
  intros Hc (e & -> & (l1 & l2 & ->)%list_elem_of_split)%list_elem_of_fmap. eexists. by apply (chain_mid _ l1 e l2).
Qed.

(** One saved job behind [ks] goes. *)
Lemma chain_release js ks e rest :
  chain js (ks ++ e :: rest) → NoDup (e_loc <$> ks ++ e :: rest) →
  match last_of ks with
  | None => chain (delete (e_loc e) js) (ks ++ rest)
  | Some p => ∃ j, delete (e_loc e) js !! p = Some j ∧
      chain (<[p := set_next (first rest) j]> (delete (e_loc e) js)) (ks ++ rest)
  end.
Proof.
  intros Hc Hnd. destruct (NoDup_unlink e_loc _ _ _ Hnd) as [_ Hno]. destruct (last_of ks) as [p|] eqn:Hp.
  - assert (p ∈ e_loc <$> ks) as Hin by (by apply last_of_in).
    assert (p ≠ e_loc e) as Hne by (intros ->; apply Hno; rewrite fmap_app; apply elem_of_app; by left).
    destruct (chain_in js (ks ++ e :: rest) p Hc) as [j Hj]; [rewrite fmap_app; apply elem_of_app; by left|].
    exists j. rewrite lookup_delete_ne by done. split; [done|].
    rewrite <-delete_insert_ne by done. apply chain_delete; [done|]. by eapply chain_unlink.
  - apply last_of_None in Hp. subst ks. apply chain_delete; [done|]. by apply (chain_app _ [e]).
Qed.

Lemma wp_free_workflow st a w m :
  wfs st !! a = Some w →
  wp (free_workflow (Some a) st) (λ st' m', m' = m ∧
    st' = set_wfs (partial_alter (λ _, (oph_workflow_free (Some w)).2) a (wfs st)) st) m.
Proof.
  intros Hw. unfold free_workflow. wp_step. apply (wp_deref _ _ _ _ Hw). wp_step. split; [done|].
  by destruct (oph_workflow_free (Some w)).2.
Qed.

Lemma wp_delete_saved now h ks rest fuel st l m :
  jlist st = Some l → saved l = first ks → chain (jobs st) (ks ++ rest) →
  NoDup (e_loc <$> ks ++ rest) → NoDup (e_wf <$> ks ++ rest) →
  Forall (λ e, wfs st !! e_wf e = Some (e_val e)) (ks ++ rest) → (length rest < fuel)%nat →
  wp (delete_saved fuel now h st (last_of ks) (first rest)) (λ st' m', m' = m ∧
    jlist st' = Some (set_saved (first (ks ++ filter (kept now h) rest)) l) ∧
    saved_rep st' (ks ++ filter (kept now h) rest) ∧
    (∀ p, p ∉ e_loc <$> ks ++ rest → jobs st' !! p = jobs st !! p) ∧
    (∀ a, a ∉ e_wf <$> rest → wfs st' !! a = wfs st !! a) ∧
    (∀ e, e ∈ rest → ¬ kept now h e → jobs st' !! e_loc e = None)) m.
Proof.
  revert ks fuel st l. induction rest as [|e rest IH]; intros ks fuel st l Hl Hsv Hc Hnd Hwnd Hw Hf.
  { destruct fuel; simpl; wp_step; rewrite app_nil_r in *; (split_and!; try done;
      [by rewrite Hl, <-Hsv; destruct l| |by intros e ?%elem_of_nil]);
      (split; try done; unfold saved_of; by rewrite Hl). }
  destruct fuel as [|fuel]; [simpl in Hf; lia|]. simpl in Hf.
  pose proof (chain_mid _ _ _ _ Hc) as He. simpl. wp_step. apply (wp_deref _ _ _ _ He). simpl timestamp.
  replace ((h =? 0) || (e_time e <? now - h)) with (negb (bool_decide (kept now h e))).
  2:{ unfold kept. destruct (Z.eqb_spec h 0), (Z.ltb_spec (e_time e) (now - h)); simpl;
      case_bool_decide; lia || done. }
  rewrite filter_cons. destruct (decide (kept now h e)) as [Hk|Hk].
  - rewrite bool_decide_true by done. simpl negb. cbv iota. wp_step. rewrite Hl. wp_step.
    replace (match saved l with Some _ => l | None => set_saved (Some (e_loc e)) l end)
      with (set_saved (first (ks ++ [e])) l).
    2:{ rewrite Hsv, first_snoc. destruct (first ks) eqn:Hfk; [rewrite <-Hsv; by destruct l|done]. }
    assert (ks ++ e :: rest = (ks ++ [e]) ++ rest) as Eapp by (by rewrite <-app_assoc).
    rewrite Eapp in Hc, Hnd, Hwnd, Hw. simpl next. rewrite <-(last_of_app ks e).
    eapply wp_mono; [apply (IH (ks ++ [e]) fuel (set_jlist (set_saved (first (ks ++ [e])) l) st)
      (set_saved (first (ks ++ [e])) l)); try done; lia|].
    intros st' m1 (-> & Hl' & Hsr & Hj & Hws & Hgone). rewrite <-app_assoc in Hl', Hsr. split_and!; [done|done|done| | |].
    + intros p Hp. apply Hj. by rewrite <-app_assoc.
    + intros a Ha. apply Hws. simpl in Ha. set_solver.
    + intros x [->|Hx]%elem_of_cons Hno; [done|]. by apply Hgone.
  - rewrite bool_decide_false by done. simpl negb. cbv iota. simpl wf. wp_step.
    assert (wfs st !! e_wf e = Some (e_val e)) as Hwe by (by apply Forall_app in Hw as [_ [? _]%Forall_cons]).
    eapply wp_mono; [by apply (wp_free_workflow st (e_wf e) (e_val e))|]. intros st1 m1 [-> ->].
    set (ws := partial_alter _ _ _). simpl next.
    destruct (NoDup_unlink e_loc _ _ _ Hnd) as [Hnd' Hno]. destruct (NoDup_unlink e_wf _ _ _ Hwnd) as [Hwnd' Hwno].
    assert (Forall (λ x, ws !! e_wf x = Some (e_val x)) (ks ++ rest)) as Hw'.
    { apply Forall_app in Hw as [Hw1 [_ Hw2]%Forall_cons]. apply Forall_forall. intros x Hx. unfold ws.
      rewrite lookup_partial_alter_ne.
      - apply elem_of_app in Hx as [Hx|Hx]; [exact (proj1 (Forall_forall _ _) Hw1 x Hx)|].
        exact (proj1 (Forall_forall _ _) Hw2 x Hx).
      - intros Heq. apply Hwno. rewrite Heq. by apply list_elem_of_fmap_2. }
    pose proof (chain_release _ _ _ _ Hc Hnd) as Hrel.
    assert (∃ js', chain js' (ks ++ rest) ∧ js' !! e_loc e = None ∧
      (∀ p, p ∉ e_loc <$> ks ++ e :: rest → js' !! p = jobs st !! p) ∧
      ∀ Q, wp (delete_saved fuel now h (Store js' ws (unused st) (jlist st)) (last_of ks) (first rest)) Q m →
      wp (st0 ← (match last_of ks with
            | Some _ => write_next (last_of ks) (first rest) (free_job (e_loc e) (set_wfs ws st))
            | None => mret (free_job (e_loc e) (set_wfs ws st)) end);
          delete_saved fuel now h st0 (last_of ks) (first rest)) Q m) as (js' & Hc' & Hje & Hjs & Hgo).
    { destruct (last_of ks) as [p|] eqn:Hp.
      - destruct Hrel as (j & Hj & Hc'). eexists. split_and!; [exact Hc'| | |].
        + assert (p ≠ e_loc e) by (intros ->; by rewrite lookup_delete_eq in Hj).
          rewrite lookup_insert_ne by done. apply lookup_delete_eq.
        + apply last_of_in in Hp. intros q Hq. rewrite fmap_app in Hq. rewrite lookup_insert_ne, lookup_delete_ne.
          * done.
          * intros <-. apply Hq, elem_of_app. right. left.
          * intros <-. apply Hq, elem_of_app. by left.
        + intros Q HQ. unfold write_next. wp_step. wp_step. wp_step. wp_step. simpl jobs.
          apply (wp_deref _ _ _ _ Hj). wp_step. exact HQ.
      - eexists. split_and!; [exact Hrel|apply lookup_delete_eq| |].
        + intros q Hq. apply lookup_delete_ne. intros <-. apply Hq. rewrite fmap_app. set_solver.
        + intros Q HQ. wp_step. wp_step. exact HQ. }
    apply Hgo. eapply wp_mono; [apply (IH ks fuel _ l); try done; lia|].
    intros st' m1 (-> & Hl' & Hsr & Hj & Hws & Hgone). split_and!; [done|done|done| | |].
    + intros p Hp. rewrite Hj; [by apply Hjs|]. intros Hin. apply Hp. rewrite fmap_app in Hin |- *. set_solver.
    + intros a Ha. simpl in Ha. rewrite Hws by set_solver. simpl. apply lookup_partial_alter_ne. set_solver.
    + intros x [->|Hx]%elem_of_cons Hnk; [|by apply Hgone]. by rewrite Hj.
Qed.

(** [oph_delete_saved_jobs_from_job_list] releases exactly the saved jobs older
    than the hysteresis (all of them when it is zero), keeps the others linked in
    order, and touches no other node. *)
Theorem delete_saved_correct (now h : Z) (st : store) (sv : list entry) (l : oph_job_list) (m : mem) :
  jlist st = Some l → saved_rep st sv →
  wp (oph_delete_saved_jobs_from_job_list now h st) (λ r _,
    r.1 = OPH_JOB_LIST_OK ∧ saved_rep r.2 (filter (kept now h) sv) ∧
    (∀ e, e ∈ sv → ¬ kept now h e → jobs r.2 !! e_loc e = None) ∧
    (∀ p, p ∉ e_loc <$> sv → jobs r.2 !! p = jobs st !! p) ∧
    ∃ p, jlist r.2 = Some (set_saved p l)) m.
Proof.
  intros Hl [Hs Hc Hnd Hwnd Hw]. unfold oph_delete_saved_jobs_from_job_list. rewrite Hl. wp_step.
  assert (saved l = first sv) as -> by (unfold saved_of in Hs; by rewrite Hl in Hs).
  eapply wp_mono; [apply (wp_delete_saved now h [] sv _ _ (set_saved None l)); try done|].
  { unfold fuel_of. pose proof (chain_length _ _ Hc Hnd). simpl. lia. }
  intros st' m1 (-> & Hl' & Hsr & Hj & _ & Hgone). wp_step. split_and!; try done. by eexists.
Qed.

(** The same two jobs, saved. *)
Definition sample_saved : store :=
  Store (jobs sample_store) (wfs sample_store) 3 (Some (JList None None (Some 1%nat) 0)).

Lemma delete_saved_correct_witness :
  filter (kept 60 20) sample_entries = [Entry 2 50 2 (sample_wf 8 "async")] ∧
  wp (oph_delete_saved_jobs_from_job_list 60 20 sample_saved) (λ r _,
    r.1 = OPH_JOB_LIST_OK ∧ saved_rep r.2 (filter (kept 60 20) sample_entries) ∧
    (∀ e, e ∈ sample_entries → ¬ kept 60 20 e → jobs r.2 !! e_loc e = None) ∧
    (∀ p, p ∉ e_loc <$> sample_entries → jobs r.2 !! p = jobs sample_saved !! p) ∧
    ∃ p, jlist r.2 = Some (set_saved p (JList None None (Some 1%nat) 0))) [].
Proof.
  split; [vm_compute; reflexivity|].
  apply (delete_saved_correct 60 20 sample_saved sample_entries (JList None None (Some 1%nat) 0) []); [done|].
  destruct sample_holds as [Hh _]. split; [done|apply Hh..].
Defined.

End JobList.
