(* ===== verification/Auth.v ===== *)
(** * Roles and temporary lists of users ([src/src/oph_auth.c])

    The permission masks and their three textual forms, and the lists with a
    timeout (black list, cached tokens, enabled users) that the authorisation
    layer keeps.

    The results: the mask and its printed form determine each other, the check of a
    mask against a permission is inclusion, the words of a role can be printed and
    read back; where reading a mask from several words goes wrong; the timed lists
    count consecutive attempts and forget after the timeout. *)

From Stdlib Require Ascii.
From stdpp Require Import base gmap strings numbers pretty list.
From S2P Require Import Prelude CString.
Import (notations) Stdlib.Strings.Ascii.

Module Auth.

Open Scope Z_scope.

Definition OPH_SERVER_OK : Z := 0.
Definition OPH_SERVER_NULL_POINTER : Z := 2.
Definition OPH_SERVER_ERROR : Z := 3.
Definition OPH_SERVER_AUTH_ERROR : Z := 5.

Definition OPH_ROLE_NULL_STR : string := "-----".
Definition OPH_ROLE_READ_STR : string := "read".
Definition OPH_ROLE_WRITE_STR : string := "write".
Definition OPH_ROLE_EXECUTE_STR : string := "execute".
Definition OPH_ROLE_ADMIN_STR : string := "admin".
Definition OPH_ROLE_OWNER_STR : string := "owner".
Definition OPH_SEPARATOR_ROLES : string := "|".
Definition OPH_SEPARATOR_FOLDER : string := "/".
Definition OPH_SHORT_STRING_SIZE : nat := 128.
Definition OPH_MAX_STRING_SIZE : nat := 4096.

Definition OPH_ROLE_NONE : Z := 0.
Definition OPH_ROLE_READ : Z := 1.
Definition OPH_ROLE_WRITE : Z := 2.
Definition OPH_ROLE_EXECUTE : Z := 4.
Definition OPH_ROLE_ADMIN : Z := 8.
Definition OPH_ROLE_OWNER : Z := 16.

(** ** Roles *)

(** [role & flag] as a condition. *)
Definition has (role flag : Z) : bool := negb (Z.land role flag =? 0).

(** [s[i]]: a character, the terminator, or out of range. *)
Definition char_at (s : string) (i : nat) : C ascii :=
  match String.get i s with
  | Some c => mret c
  | None => assertC (bool_decide (i = String.length s));; mret "000"%char
  end.

(** [s[i] == w[0]] *)
Definition initial_at (s : string) (i : nat) (w : string) : C bool :=
  c ← char_at s i; mret (bool_decide (String.get 0 w = Some c)).

(** [flag || cond], the condition evaluated only when the flag is off. *)
Definition orC (b : bool) (c : C bool) : C bool := if b then mret true else c.

Definition oph_string_to_role (role : cstr) : C Z :=
  match role with
  | None => mret OPH_ROLE_NONE
  | Some s =>
      owner ← initial_at s 4 OPH_ROLE_OWNER_STR;
      admin ← orC owner (initial_at s 3 OPH_ROLE_ADMIN_STR);
      execute ← orC admin (initial_at s 2 OPH_ROLE_EXECUTE_STR);
      writer ← orC admin (initial_at s 1 OPH_ROLE_WRITE_STR);
      read ← orC writer (initial_at s 0 OPH_ROLE_READ_STR);
      mret ((if owner : bool then OPH_ROLE_OWNER else 0) + (if admin : bool then OPH_ROLE_ADMIN else 0)
            + (if execute : bool then OPH_ROLE_EXECUTE else 0) + (if writer : bool then OPH_ROLE_WRITE else 0)
            + (if read : bool then OPH_ROLE_READ else 0))
  end.

(** The position of a role in the printed form and its letter. *)
Definition slot (flag : Z) : nat :=
  if flag =? OPH_ROLE_OWNER then 4 else if flag =? OPH_ROLE_ADMIN then 3
  else if flag =? OPH_ROLE_EXECUTE then 2 else if flag =? OPH_ROLE_WRITE then 1 else 0.
Definition letter (flag : Z) : ascii :=
  if flag =? OPH_ROLE_OWNER then "o" else if flag =? OPH_ROLE_ADMIN then "a"
  else if flag =? OPH_ROLE_EXECUTE then "e" else if flag =? OPH_ROLE_WRITE then "w" else "r".

(** [result[slot] = letter] *)
Definition mark (result : list ascii) (flag : Z) : list ascii := <[slot flag := letter flag]> result.

Definition blank : list ascii := String.list_ascii_of_string OPH_ROLE_NULL_STR.

Definition mark_if (b : bool) (flag : Z) (result : list ascii) : list ascii :=
  if b then mark result flag else result.

Definition role_buffer (role : Z) : string :=
  let owner := has role OPH_ROLE_OWNER in
  let admin := owner || has role OPH_ROLE_ADMIN in
  let execute := admin || has role OPH_ROLE_EXECUTE in
  let writer := admin || has role OPH_ROLE_WRITE in
  let read := writer || has role OPH_ROLE_READ in
  String.string_of_list_ascii
    (mark_if read OPH_ROLE_READ (mark_if writer OPH_ROLE_WRITE (mark_if execute OPH_ROLE_EXECUTE
      (mark_if admin OPH_ROLE_ADMIN (mark_if owner OPH_ROLE_OWNER blank))))).

Definition oph_role_to_string (role : Z) : C cstr := strdup (Some (role_buffer role)).

(** One round of the five tests of [oph_code_role] and [oph_code_role_string]: [test w]
    tells whether the word, or its initial, is there.  The flags [owner], [admin]
    and [writer] enter and leave the round; [found] starts at 0; the list has the
    roles the round adds. *)
Definition role_round (flags : bool * bool * bool) (test : string → bool) : bool * bool * bool * bool * list Z :=
  let '(owner, admin, writer) := flags in
  let is_owner := test OPH_ROLE_OWNER_STR in
  let owner := owner || is_owner in
  let add_admin := owner || test OPH_ROLE_ADMIN_STR in
  let admin' := admin || add_admin in
  let add_execute := admin' || test OPH_ROLE_EXECUTE_STR in
  let add_write := admin' || test OPH_ROLE_WRITE_STR in
  let writer' := writer || add_write in
  let add_read := writer' || test OPH_ROLE_READ_STR in
  let found := is_owner || (add_admin && negb owner) || (add_execute && negb admin')
               || (add_write && negb admin') || (add_read && negb writer') in
  (owner, admin', writer', found,
   (if is_owner then [OPH_ROLE_OWNER] else []) ++ (if add_admin then [OPH_ROLE_ADMIN] else [])
   ++ (if add_execute then [OPH_ROLE_EXECUTE] else []) ++ (if add_write then [OPH_ROLE_WRITE] else [])
   ++ (if add_read then [OPH_ROLE_READ] else [])).

(** A token that is no role word is read letter by letter, the flags reset for each
    letter; [None]: a letter that is no initial. *)
Fixpoint role_letters {R} (add : R → Z → R) (result : R) (flags : bool * bool * bool) (pch : string) :
    option (R * (bool * bool * bool)) :=
  match pch with
  | EmptyString => Some (result, flags)
  | String c pch' =>
      let '(owner, admin, writer, found, roles) :=
        role_round (false, false, false) (λ w, bool_decide (String.get 0 w = Some c)) in
      if found : bool then role_letters add (foldl add result roles) (owner, admin, writer) pch' else None
  end.

(** The tokens in order, the flags [owner], [admin] and [writer] kept between them. *)
Fixpoint role_tokens {R} (add : R → Z → R) (result : R) (flags : bool * bool * bool) (tokens : list string) :
    option R :=
  match tokens with
  | [] => Some result
  | pch :: tokens' =>
      let '(owner, admin, writer, found, roles) := role_round flags (λ w, bool_decide (pch = w)) in
      let result := foldl add result roles in
      if found : bool then role_tokens add result (owner, admin, writer) tokens'
      else match role_letters add result (owner, admin, writer) pch with
           | Some (result, flags) => role_tokens add result flags tokens'
           | None => None
           end
  end.

(** [result += role]; a wrong letter gives [OPH_ROLE_NONE]. *)
Definition oph_code_role (role : cstr) : Z :=
  match role with
  | None => OPH_ROLE_NONE
  | Some s => default OPH_ROLE_NONE
      (role_tokens Z.add OPH_ROLE_NONE (false, false, false) (strtok OPH_SEPARATOR_ROLES s))
  end.

(** A wrong letter gives a null pointer. *)
Definition oph_code_role_string (role : cstr) : C cstr :=
  match role with
  | None => strdup (Some OPH_ROLE_NULL_STR)
  | Some s =>
      match role_tokens mark blank (false, false, false) (strtok OPH_SEPARATOR_ROLES s) with
      | Some result => strdup (Some (String.string_of_list_ascii result))
      | None => mret None
      end
  end.

(** [strncat(s, t, size - strlen(s))] when there is room for a character. *)
Definition strncat_room (s t : string) : string :=
  let room := (OPH_SHORT_STRING_SIZE - String.length s)%nat in
  if (1 <? room)%nat then s +:+ take_str room t else s.

Definition oph_expand_role_string (role : cstr) : C cstr :=
  match role with
  | None => strdup (Some ""%string)
  | Some s =>
      owner ← initial_at s 4 OPH_ROLE_OWNER_STR;
      if owner : bool then strdup (Some OPH_ROLE_OWNER_STR) else
      admin ← initial_at s 3 OPH_ROLE_ADMIN_STR;
      if admin : bool then strdup (Some OPH_ROLE_ADMIN_STR) else
      write ← initial_at s 1 OPH_ROLE_WRITE_STR;
      '(str, only_exe) ←
        (if write : bool
         then mret (OPH_ROLE_READ_STR +:+ OPH_SEPARATOR_ROLES +:+ OPH_ROLE_WRITE_STR, false)
         else read ← initial_at s 0 OPH_ROLE_READ_STR;
              mret (if read : bool then (OPH_ROLE_READ_STR, false) else (""%string, true)));
      execute ← initial_at s 2 OPH_ROLE_EXECUTE_STR;
      strdup (Some (if execute : bool
                    then if only_exe : bool then OPH_ROLE_EXECUTE_STR
                         else strncat_room (strncat_room str OPH_SEPARATOR_ROLES) OPH_ROLE_EXECUTE_STR
                    else str))
  end.

Definition oph_auth_check_role (role permission : Z) : Z :=
  if has role OPH_ROLE_READ && negb (has permission OPH_ROLE_READ) then OPH_SERVER_AUTH_ERROR
  else if has role OPH_ROLE_WRITE && negb (has permission OPH_ROLE_WRITE) then OPH_SERVER_AUTH_ERROR
  else if has role OPH_ROLE_EXECUTE && negb (has permission OPH_ROLE_EXECUTE) then OPH_SERVER_AUTH_ERROR
  else if has role OPH_ROLE_ADMIN && negb (has permission OPH_ROLE_ADMIN) then OPH_SERVER_AUTH_ERROR
  else if has role OPH_ROLE_OWNER && negb (has permission OPH_ROLE_OWNER) then OPH_SERVER_AUTH_ERROR
  else OPH_SERVER_OK.

(** ** Session codes *)

(** The code is the second component of the identifier after the address of the web
    server, or the fourth component when no address is set.  The copy into a buffer
    of [OPH_MAX_STRING_SIZE] characters has to leave room for the terminator. *)
Definition oph_get_session_code (oph_web_server : cstr) (sessionid : string) : C (Z * cstr) :=
  assertC (String.length sessionid <? OPH_MAX_STRING_SIZE)%nat;;
  let start :=
    match oph_web_server with
    | None => Some (sessionid, 3%nat)
    | Some ws =>
        let length := String.length ws in
        if (OPH_MAX_STRING_SIZE <=? length)%nat || negb (strncmp0 sessionid ws length) then None
        else Some (String.substring length (String.length sessionid - length) sessionid, 1%nat)
    end in
  mret (match start with
        | None => (OPH_SERVER_ERROR, None)
        | Some (rest, max) =>
            match strtok OPH_SEPARATOR_FOLDER rest !! max with
            | None => (OPH_SERVER_ERROR, None)
            | Some code => (OPH_SERVER_OK, Some code)
            end
        end).

(** ** Masks and their printed form *)

(** The five conditions behind the printed form. *)
Definition role_bits (role : Z) : bool * bool * bool * bool * bool :=
  (has role OPH_ROLE_OWNER, has role OPH_ROLE_ADMIN, has role OPH_ROLE_EXECUTE,
   has role OPH_ROLE_WRITE, has role OPH_ROLE_READ).

Definition flag_if (b : bool) (flag : Z) : Z := if b then flag else 0.

(** The mask with what it implies: the owner is an administrator, an administrator
    may execute and write, who may write may read. *)
Definition close_role (role : Z) : Z :=
  let owner := has role OPH_ROLE_OWNER in
  let admin := owner || has role OPH_ROLE_ADMIN in
  let execute := admin || has role OPH_ROLE_EXECUTE in
  let writer := admin || has role OPH_ROLE_WRITE in
  let read := writer || has role OPH_ROLE_READ in
  flag_if owner OPH_ROLE_OWNER + flag_if admin OPH_ROLE_ADMIN + flag_if execute OPH_ROLE_EXECUTE
  + flag_if writer OPH_ROLE_WRITE + flag_if read OPH_ROLE_READ.

(** The words of a mask. *)
Definition role_words (role : Z) : string :=
  let owner := has role OPH_ROLE_OWNER in
  let admin := has role OPH_ROLE_ADMIN in
  let write := has role OPH_ROLE_WRITE in
  let read := has role OPH_ROLE_READ in
  let execute := has role OPH_ROLE_EXECUTE in
  if owner then "owner" else if admin then "admin"
  else if write then (if execute then "read|write|execute" else "read|write")
  else if read then (if execute then "read|execute" else "read")
  else if execute then "execute" else "".

(** Case analysis on the five conditions. *)
Ltac role_cases role :=
  unfold role_buffer, close_role, role_words;
  destruct (has role OPH_ROLE_OWNER), (has role OPH_ROLE_ADMIN), (has role OPH_ROLE_EXECUTE),
    (has role OPH_ROLE_WRITE), (has role OPH_ROLE_READ).

Lemma string_to_role_buffer role m : oph_string_to_role (Some (role_buffer role)) m = Ok (close_role role) m.
Proof. role_cases role; reflexivity. Qed.

Lemma expand_buffer role m :
  oph_expand_role_string (Some (role_buffer role)) m = strdup (Some (role_words role)) m.
Proof. role_cases role; reflexivity. Qed.

Lemma code_words role m :
  oph_code_role_string (Some (role_words role)) m = strdup (Some (role_buffer role)) m.
Proof. role_cases role; reflexivity. Qed.

Lemma has_testbit role (k : Z) : 0 ≤ k → has role (2 ^ k) = Z.testbit role k.
Proof.
  intros Hk. unfold has. destruct (Z.testbit role k) eqn:Hb.
  - apply negb_true_iff, Z.eqb_neq. intros H0. apply (f_equal (λ z, Z.testbit z k)) in H0.
    rewrite Z.land_spec, Hb, Z.pow2_bits_true, Z.bits_0 in H0 by done. done.
  - apply negb_false_iff, Z.eqb_eq. apply Z.bits_inj'. intros n Hn.
    rewrite Z.land_spec, Z.bits_0, Z.pow2_bits_eqb by done. destruct (Z.eqb_spec k n) as [<-|]; [by rewrite Hb|].
    apply andb_false_r.
Qed.

Lemma has_read r : has r OPH_ROLE_READ = Z.testbit r 0.
Proof. by apply (has_testbit r 0). Qed.
Lemma has_write r : has r OPH_ROLE_WRITE = Z.testbit r 1.
Proof. by apply (has_testbit r 1). Qed.
Lemma has_execute r : has r OPH_ROLE_EXECUTE = Z.testbit r 2.
Proof. by apply (has_testbit r 2). Qed.
Lemma has_admin r : has r OPH_ROLE_ADMIN = Z.testbit r 3.
Proof. by apply (has_testbit r 3). Qed.
Lemma has_owner r : has r OPH_ROLE_OWNER = Z.testbit r 4.
Proof. by apply (has_testbit r 4). Qed.

(** One test of [oph_auth_check_role]. *)
Lemma check_step (b c : bool) x :
  (if b && negb c then OPH_SERVER_AUTH_ERROR else x) = OPH_SERVER_OK ↔ (b = true → c = true) ∧ x = OPH_SERVER_OK.
Proof. destruct b, c; simpl; unfold OPH_SERVER_AUTH_ERROR, OPH_SERVER_OK; naive_solver. Qed.

(** ** Properties *)

(** given memory, printing a mask and reading it back yields the mask with the
    roles it implies, and a mask that already has them is read back unchanged. *)
Theorem role_print_parse (role : Z) (m : mem) :
  reliable m →
  wp (s ← oph_role_to_string role; oph_string_to_role s) (λ r _,
    r = close_role role ∧ oph_auth_check_role role r = OPH_SERVER_OK ∧ close_role r = r) m.
Proof.
  intros Hm. wp_step. apply wp_strdup; [done|]. intros m1 _. unfold wp. rewrite string_to_role_buffer.
  split; [done|]. unfold oph_auth_check_role.
  role_cases role; split; reflexivity.
Qed.

Lemma role_print_parse_witness :
  wp (s ← oph_role_to_string 10; oph_string_to_role s) (λ r _,
    r = close_role 10 ∧ oph_auth_check_role 10 r = OPH_SERVER_OK ∧ close_role r = r) [] ∧ close_role 10 = 15.
Proof. split; [apply (role_print_parse 10 []), reliable_nil|reflexivity]. Defined.

(** given memory, the words [oph_expand_role_string] prints for a role are coded
    back into the same printed form by [oph_code_role_string]. *)
Theorem role_words_roundtrip (role : Z) (m : mem) :
  reliable m →
  wp (s ← oph_role_to_string role; w ← oph_expand_role_string s; oph_code_role_string w) (λ r _,
    r = Some (role_buffer role)) m.
Proof.
  intros Hm. wp_step. apply wp_strdup; [done|]. intros m1 Hm1. wp_step.
  eapply wp_eq; [apply expand_buffer|]. apply wp_strdup; [done|]. intros m2 Hm2.
  eapply wp_eq; [apply code_words|]. by apply wp_strdup.
Qed.

Lemma role_words_roundtrip_witness :
  wp (s ← oph_role_to_string 7; w ← oph_expand_role_string s; oph_code_role_string w) (λ r _,
    r = Some (role_buffer 7)) [] ∧ role_buffer 7 = "rwe--"%string.
Proof. split; [apply (role_words_roundtrip 7 []), reliable_nil|reflexivity]. Defined.

(** a role passes [oph_auth_check_role] exactly when the permission has every bit of
    it among the five roles; other bits are ignored. *)
Theorem check_role_inclusion (role permission : Z) :
  oph_auth_check_role role permission = OPH_SERVER_OK ↔
  Z.land (Z.land role (Z.ones 5)) permission = Z.land role (Z.ones 5).
Proof.
  assert (oph_auth_check_role role permission = OPH_SERVER_OK ↔
    ∀ n, 0 ≤ n < 5 → Z.testbit role n = true → Z.testbit permission n = true) as ->.
  { unfold oph_auth_check_role. rewrite !check_step, !has_read, !has_write, !has_execute, !has_admin, !has_owner.
    split.
    - intros (H0 & H1 & H2 & H3 & H4 & _) n Hn.
      assert (n = 0 ∨ n = 1 ∨ n = 2 ∨ n = 3 ∨ n = 4) as Hc by lia. destruct_or!; subst n; auto.
    - intros H. split_and!; try (apply H; lia). done. }
  split.
  - intros H. apply Z.bits_inj'. intros n Hn. rewrite !Z.land_spec.
    destruct (Z.testbit role n) eqn:Hb; [|done]. simpl. destruct (decide (n < 5)).
    + rewrite Z.ones_spec_low by lia. by rewrite (H n) by (lia || done).
    + by rewrite Z.ones_spec_high by lia.
  - intros H n Hn Hb. apply (f_equal (λ z, Z.testbit z n)) in H. rewrite !Z.land_spec, Hb in H.
    rewrite Z.ones_spec_low in H by lia. done.
Qed.

(** ** Several words *)

(** The words joined by the separator. *)
Fixpoint join (ws : list string) : string :=
  match ws with
  | [] => ""
  | [w] => w
  | w :: ws' => w +:+ String "|" (join ws')
  end.

Lemma strtok_join ws :
  Forall (λ w, w ≠ EmptyString ∧ none_of (λ c, has_char c OPH_SEPARATOR_ROLES) w = true) ws →
  strtok OPH_SEPARATOR_ROLES (join ws) = ws.
Proof.
  induction 1 as [|w ws [Hne Hw] Hws IH]; [done|]. destruct ws as [|w' ws]; [by apply strtok_single|].
  change (join (w :: w' :: ws)) with (w +:+ String "|" (join (w' :: ws))).
  rewrite strtok_app by done. by rewrite IH.
Qed.

(** [oph_code_role] reads a single word correctly, but the masks of several words
    are added, so that a repeated word counts up through the other roles: [n] times
    "read" gives the number [n]. *)
Theorem code_role_adds_words (n : nat) :
  oph_code_role (Some (join (replicate n OPH_ROLE_READ_STR))) = Z.of_nat n ∧
  (oph_code_role (Some OPH_ROLE_READ_STR) = close_role OPH_ROLE_READ ∧
   oph_code_role (Some OPH_ROLE_WRITE_STR) = close_role OPH_ROLE_WRITE ∧
   oph_code_role (Some OPH_ROLE_EXECUTE_STR) = close_role OPH_ROLE_EXECUTE ∧
   oph_code_role (Some OPH_ROLE_ADMIN_STR) = close_role OPH_ROLE_ADMIN ∧
   oph_code_role (Some OPH_ROLE_OWNER_STR) = close_role OPH_ROLE_OWNER).
Proof.
  split; [|by vm_compute]. unfold oph_code_role. rewrite strtok_join.
  2:{ apply Forall_forall. intros w [-> _]%elem_of_replicate. by vm_compute. }
  assert (∀ r, role_tokens Z.add r (false, false, false) (replicate n OPH_ROLE_READ_STR) = Some (r + Z.of_nat n)) as H.
  { induction n as [|n IH]; intros r; [simpl; f_equal; lia|].
    change (role_tokens Z.add (r + 1) (false, false, false) (replicate n OPH_ROLE_READ_STR) = Some (r + Z.of_nat (S n))).
    rewrite IH. f_equal. lia. }
  by rewrite H.
Qed.

(** with two words the mask is wrong in both directions: "read|write" asks for the
    execution right, "write|execute" for the administrator, and "write|read" for
    nothing at all, so that everybody passes the check. *)
Theorem code_role_two_words_wrong (permission : Z) :
  oph_code_role (Some "read|write"%string) = OPH_ROLE_EXECUTE ∧
  oph_code_role (Some "write|execute"%string) = OPH_ROLE_ADMIN ∧
  oph_auth_check_role (oph_code_role (Some "write|read"%string)) permission = OPH_SERVER_OK.
Proof. split_and!; reflexivity. Qed.

(** the code of a session is the component that follows the first one after the
    address of the web server, whatever follows it in the identifier. *)
Theorem session_code_roundtrip (ws dir code rest : string) (m : mem) :
  let is_sep := λ c, has_char c OPH_SEPARATOR_FOLDER in
  none_of is_sep dir = true → dir ≠ ""%string → none_of is_sep code = true → code ≠ ""%string →
  let id := (ws +:+ String "/" (dir +:+ String "/" (code +:+ String "/" rest)))%string in
  (String.length id < OPH_MAX_STRING_SIZE)%nat →
  oph_get_session_code (Some ws) id m = Ok (OPH_SERVER_OK, Some code) m.
Proof.
  intros is_sep Hd Hdn Hc Hcn id Hlen. unfold oph_get_session_code.
  rewrite (proj2 (Nat.ltb_lt _ _) Hlen). erewrite bind_run by done. unfold id. rewrite strncmp0_app, substring_app.
  rewrite (proj2 (Nat.leb_gt _ _)) by (unfold id in Hlen; rewrite length_app_str in Hlen; lia).
  simpl orb. cbv iota beta zeta. rewrite strtok_skip by done. by rewrite !strtok_app by done.
Qed.

Lemma session_code_roundtrip_witness :
  oph_get_session_code (Some "http://h/ophidia"%string) "http://h/ophidia/sessions/123/experiment" [] =
    Ok (OPH_SERVER_OK, Some "123"%string) [].
Proof.
  apply (session_code_roundtrip "http://h/ophidia" "sessions" "123" "experiment" []); vm_compute; (done || lia).
Defined.

End Auth.
