(* ===== verification/BlackList.v ===== *)
(** * Timed lists of users and the password check ([src/src/oph_auth.c])

    The authorisation layer keeps several lists whose items expire after
    [oph_server_timeout] seconds: the black list of failed accesses, the tokens in
    use, the enabled users.  [oph_auth_user] checks a password and blocks a user and
    host after too many attempts.

    The results: a scan drops exactly the expired items before the one it finds,
    failed attempts are counted and the sixth one within the timeout is blocked
    whatever the password, a success clears the count, the counter wraps. *)

From Stdlib Require Ascii.
From stdpp Require Import base gmap strings numbers list.
From S2P Require Import Prelude CString Auth.
Import (notations) Stdlib.Strings.Ascii.
Import Auth.

Module BlackList.

Open Scope Z_scope.

Definition OPH_SERVER_IO_ERROR : Z := 4.
Definition OPH_AUTH_MAX_COUNT : Z := 5.
Definition OPH_SEPARATOR_BASIC : string := ":".

(** [short] *)
Definition wrap_i16 (z : Z) : Z := (z + 2 ^ 15) mod 2 ^ 16 - 2 ^ 15.

Record oph_auth_user_bl : Type := BL {
  userid : cstr;
  host : cstr;
  verified : Z;
  value : cstr;
  count : Z;
  timestamp : Z;
  check_time : Z;
}.

Definition set_count (c : Z) (x : oph_auth_user_bl) : oph_auth_user_bl :=
  BL (userid x) (host x) (verified x) (value x) c (timestamp x) (check_time x).
Definition set_value (v : cstr) (x : oph_auth_user_bl) : oph_auth_user_bl :=
  BL (userid x) (host x) (verified x) v (count x) (timestamp x) (check_time x).

(** The item is not checked for lack of memory before it is filled. *)
Definition _oph_add_to_bl (now : Z) (head : list oph_auth_user_bl) (u h : cstr) (v : Z) :
    C (Z * list oph_auth_user_bl) :=
  match u, h with
  | Some _, Some _ =>
      ok ← malloc;
      assertC ok;;
      u' ← strdup u;
      h' ← strdup h;
      mret (OPH_SERVER_OK, BL u' h' v None 1 (wrap_i32 now) (wrap_i32 now) :: head)
  | _, _ => mret (OPH_SERVER_NULL_POINTER, head)
  end.

Definition oph_add_to_bl (now : Z) (head : list oph_auth_user_bl) (u h : cstr) : C (Z * list oph_auth_user_bl) :=
  _oph_add_to_bl now head u h 0.

(** [bl_item->timestamp + oph_server_timeout], a sum of two [int]. *)
Definition deadtime (timeout : Z) (x : oph_auth_user_bl) : C Z :=
  let t := timestamp x + timeout in
  assertC (bool_decide (in_i32 t));; mret t.

(** [a && b] *)
Definition andC (a : C bool) (b : C bool) : C bool := x ← a; if x : bool then b else mret false.

(** The loop of the searches: expired items are unlinked until an item passes
    [test]; [hit] is what happens to it. *)
Fixpoint scan_bl {R} (test : oph_auth_user_bl → C bool) (hit : oph_auth_user_bl → C (R * oph_auth_user_bl))
    (now timeout : Z) (l : list oph_auth_user_bl) : C (option R * list oph_auth_user_bl) :=
  match l with
  | [] => mret (None, [])
  | x :: l' =>
      t ← deadtime timeout x;
      if t <? now then scan_bl test hit now timeout l'
      else
        b ← test x;
        if b : bool then '(r, x') ← hit x; mret (Some r, x' :: l')
        else '(r, l'') ← scan_bl test hit now timeout l'; mret (r, x :: l'')
  end.

(** [deadline] is a null pointer or tells whether [localtime_r] succeeds. *)
Definition oph_is_in_bl (now timeout : Z) (head : list oph_auth_user_bl) (u h : cstr) (deadline : option bool) :
    C (Z * list oph_auth_user_bl) :=
  match u, h with
  | Some _, Some _ =>
      '(r, l) ← scan_bl (λ x, andC (strcmp0 (userid x) u) (strcmp0 (host x) h))
        (λ x, mret (if bool_decide (deadline = Some false) then (-1, x)
                    else let c := wrap_i16 (count x + 1) in (c, set_count c x))) now timeout head;
      mret (default 0 r, l)
  | _, _ => mret (OPH_SERVER_NULL_POINTER, head)
  end.

Definition oph_get_host_by_user_in_bl (now timeout : Z) (head : list oph_auth_user_bl) (u : cstr)
    (deadline : option bool) : C (cstr * list oph_auth_user_bl) :=
  match u with
  | Some _ =>
      '(r, l) ← scan_bl (λ x, strcmp0 (userid x) u)
        (λ x, mret (if bool_decide (deadline = Some false) then None else host x, x)) now timeout head;
      mret (default None r, l)
  | None => mret (None, head)
  end.

(** The user, the new token when it differs, and the flag of the token. *)
Definition oph_get_user_by_token (now timeout : Z) (head : list oph_auth_user_bl) (token : cstr) :
    C (Z * (cstr * cstr * Z) * list oph_auth_user_bl) :=
  match token with
  | Some _ =>
      '(r, l) ← scan_bl (λ x, strcmp0 (host x) token)
        (λ x, u ← strdup (userid x);
              b ← (match value x with
                   | None => mret true
                   | Some _ => strcmp0 (value x) token
                   end);
              nt ← (if b : bool then mret None else strdup (value x));
              mret ((u, nt, verified x), set_count 0 x)) now timeout head;
      mret (match r with Some r => (OPH_SERVER_OK, r, l) | None => (OPH_SERVER_ERROR, (None, None, 0), l) end)
  | None => mret (OPH_SERVER_NULL_POINTER, (None, None, 0), head)
  end.

(** The item goes even when it has expired. *)
Fixpoint drop_bl (now timeout : Z) (u h : cstr) (l : list oph_auth_user_bl) : C (list oph_auth_user_bl) :=
  match l with
  | [] => mret []
  | x :: l' =>
      t ← deadtime timeout x;
      found ← andC (strcmp0 (userid x) u) (strcmp0 (host x) h);
      if found : bool then mret l'
      else if t <? now then drop_bl now timeout u h l'
      else l'' ← drop_bl now timeout u h l'; mret (x :: l'')
  end.

Definition oph_drop_from_bl (now timeout : Z) (head : list oph_auth_user_bl) (u h : cstr) :
    C (Z * list oph_auth_user_bl) :=
  match u, h with
  | Some _, Some _ => l ← drop_bl now timeout u h head; mret (OPH_SERVER_OK, l)
  | _, _ => mret (OPH_SERVER_NULL_POINTER, head)
  end.

(** The new token is recorded with every live item of the user. *)
Fixpoint update_values (now timeout : Z) (u token : cstr) (l : list oph_auth_user_bl) : C (list oph_auth_user_bl) :=
  match l with
  | [] => mret []
  | x :: l' =>
      t ← deadtime timeout x;
      if t <? now then update_values now timeout u token l'
      else
        b ← strcmp0 (userid x) u;
        x ← (if b : bool then v ← strdup token; mret (set_value v x) else mret x);
        l'' ← update_values now timeout u token l';
        mret (x :: l'')
  end.

Definition oph_auth_update_values_of_user (now timeout : Z) (head : list oph_auth_user_bl) (u token : cstr) :
    C (Z * list oph_auth_user_bl) :=
  match u, token with
  | Some _, Some _ => l ← update_values now timeout u token head; mret (OPH_SERVER_OK, l)
  | _, _ => mret (OPH_SERVER_NULL_POINTER, head)
  end.

(** ** Enabled users *)

(** The two lists [auth_users] and [actual_users]. *)
Definition oph_auth_user_enabling (now timeout : Z) (auth_users actual_users : list oph_auth_user_bl) (u : cstr) :
    C (Z * (Z * cstr) * (list oph_auth_user_bl * list oph_auth_user_bl)) :=
  match u with
  | None => mret (OPH_SERVER_NULL_POINTER, (-1, None), (auth_users, actual_users))
  | Some _ =>
      '(r, auth_users) ← oph_get_host_by_user_in_bl now timeout auth_users u None;
      match r with
      | None => mret (OPH_SERVER_ERROR, (-1, None), (auth_users, actual_users))
      | Some s =>
          '(a, actual_users) ← oph_get_host_by_user_in_bl now timeout actual_users u None;
          mret (OPH_SERVER_OK, (wrap_i32 (strtol s), a), (auth_users, actual_users))
      end
  end.

Definition oph_auth_enable_user (now : Z) (auth_users actual_users : list oph_auth_user_bl) (u : cstr) (result : Z)
    (actual : cstr) : C (Z * (list oph_auth_user_bl * list oph_auth_user_bl)) :=
  match u with
  | None => mret (OPH_SERVER_NULL_POINTER, (auth_users, actual_users))
  | Some _ =>
      '(_, auth_users) ← oph_add_to_bl now auth_users u (Some (truncate OPH_SHORT_STRING_SIZE (print_int result)));
      match actual with
      | None => mret (OPH_SERVER_OK, (auth_users, actual_users))
      | Some _ =>
          '(_, actual_users) ← oph_add_to_bl now actual_users u actual;
          mret (OPH_SERVER_OK, (auth_users, actual_users))
      end
  end.

(** ** Password check *)

Section password.
(** The digest of a password, computed by the SSL library. *)
Context (oph_sha : string → string).

(** The fields of the line of the user: [more] are those after the name.  Result:
    the code, [*actual_userid], [*userid_exist] and the black list. *)
Definition auth_line (now now' timeout : Z) (bl_head : list oph_auth_user_bl) (u passwd h : cstr) (more : list string) :
    C (Z * cstr * bool * list oph_auth_user_bl) :=
  '(cnt, bl_head) ← oph_is_in_bl now timeout bl_head u h (Some true);
  if OPH_AUTH_MAX_COUNT <? cnt then mret (OPH_SERVER_AUTH_ERROR, None, false, bl_head) else
  match more with
  | [] => mret (OPH_SERVER_IO_ERROR, None, true, bl_head)
  | password :: more' =>
      if match passwd with
         | None => true
         | Some p => bool_decide (p = password) || bool_decide (oph_sha p = password)
         end
      then '(_, bl_head) ← oph_drop_from_bl now' timeout bl_head u h;
           mret (OPH_SERVER_OK, list.head more', true, bl_head)
      else if cnt =? 0
      then '(_, bl_head) ← oph_add_to_bl now' bl_head u h;
           mret (OPH_SERVER_ERROR, None, true, bl_head)
      else mret (OPH_SERVER_ERROR, None, true, bl_head)
  end.

(** The lines of [users.dat], without their newlines; the first one with the name
    decides. *)
Fixpoint auth_lines (now now' timeout : Z) (bl_head : list oph_auth_user_bl) (u : string) (passwd h : cstr)
    (lines : list string) : C (Z * cstr * bool * list oph_auth_user_bl) :=
  match lines with
  | [] => mret (OPH_SERVER_ERROR, None, false, bl_head)
  | buffer :: lines' =>
      if bool_decide (buffer = EmptyString) then auth_lines now now' timeout bl_head u passwd h lines' else
      match strtok OPH_SEPARATOR_BASIC buffer with
      | [] => mret (OPH_SERVER_IO_ERROR, None, false, bl_head)
      | username :: more =>
          if bool_decide (u = username) then auth_line now now' timeout bl_head (Some u) passwd h more
          else auth_lines now now' timeout bl_head u passwd h lines'
      end
  end.

(** [file]: the lines of the file, or [None] when it cannot be opened. *)
Definition oph_auth_user (now now' timeout : Z) (file : option (list string)) (bl_head : list oph_auth_user_bl)
    (u passwd h : cstr) : C (Z * cstr * bool * list oph_auth_user_bl) :=
  match u with
  | None => mret (OPH_SERVER_NULL_POINTER, None, false, bl_head)
  | Some u =>
      match file with
      | None => mret (OPH_SERVER_IO_ERROR, None, false, bl_head)
      | Some lines => auth_lines now now' timeout bl_head u passwd h lines
      end
  end.

End password.

(** ** Scans *)

Definition alive (now timeout : Z) (x : oph_auth_user_bl) : Prop := now ≤ timestamp x + timeout.
#[global] Instance alive_dec now timeout x : Decision (alive now timeout x).
Proof. unfold alive. apply _. Defined.

(** Items as [oph_add_to_bl] makes them, given memory. *)
Definition item_ok (timeout : Z) (x : oph_auth_user_bl) : Prop :=
  is_Some (userid x) ∧ is_Some (host x) ∧ in_i32 (timestamp x + timeout).

(** The first live item that passes the test, with what is before and behind it. *)
Definition first_hit (now timeout : Z) (tf : oph_auth_user_bl → bool) (l l1 : list oph_auth_user_bl)
    (x : oph_auth_user_bl) (l2 : list oph_auth_user_bl) : Prop :=
  l = l1 ++ x :: l2 ∧ alive now timeout x ∧ tf x = true ∧ Forall (λ y, alive now timeout y → tf y = false) l1.

Definition test_pure (test : oph_auth_user_bl → C bool) (tf : oph_auth_user_bl → bool) (l : list oph_auth_user_bl) : Prop :=
  ∀ x m (Q : bool → mem → Prop), x ∈ l → Q (tf x) m → wp (test x) Q m.

Lemma wp_deadtime timeout x (Q : Z → mem → Prop) m :
  in_i32 (timestamp x + timeout) → Q (timestamp x + timeout) m → wp (deadtime timeout x) Q m.
Proof. intros Hin HQ. unfold deadtime. wp_step. apply wp_assert; [by apply bool_decide_eq_true|]. by wp_step. Qed.

Section scan.
Context {R : Type} (test : oph_auth_user_bl → C bool) (tf : oph_auth_user_bl → bool).
Context (hit : oph_auth_user_bl → C (R * oph_auth_user_bl)) (now timeout : Z).

(** The scan steps over items that are expired or fail the test. *)
Lemma wp_scan_prefix l1 l2 (Q : option R * list oph_auth_user_bl → mem → Prop) m :
  Forall (item_ok timeout) l1 → test_pure test tf l1 → Forall (λ y, alive now timeout y → tf y = false) l1 →
  wp (scan_bl test hit now timeout l2) (λ r, Q (r.1, filter (alive now timeout) l1 ++ r.2)) m →
  wp (scan_bl test hit now timeout (l1 ++ l2)) Q m.
Proof.
  revert Q. induction l1 as [|x l1 IH]; intros Q Hok Hp Hno HQ; simpl.
  { eapply wp_mono; [exact HQ|]. by intros [r l]. }
  apply Forall_cons in Hok as [(_ & _ & Hin) Hok]. apply Forall_cons in Hno as [Hx Hno].
  assert (test_pure test tf l1) as Hp' by (intros y m' Q' Hy; apply Hp; by right).
  wp_step. apply wp_deadtime; [done|]. rewrite filter_cons in HQ.
  destruct (Z.ltb_spec (timestamp x + timeout) now) as [Hd|Hd].
  - rewrite decide_False in HQ by (unfold alive; lia). by apply IH.
  - rewrite decide_True in HQ by done. wp_step. apply Hp; [left|]. rewrite Hx by done.
    wp_step. apply IH; [done..|]. eapply wp_mono; [exact HQ|]. intros [r l] m' Hr. by wp_step.
Qed.

Lemma wp_scan_hit l l1 x l2 (Q : option R * list oph_auth_user_bl → mem → Prop) m :
  first_hit now timeout tf l l1 x l2 → Forall (item_ok timeout) l → test_pure test tf l →
  wp (hit x) (λ r, Q (Some r.1, filter (alive now timeout) l1 ++ r.2 :: l2)) m →
  wp (scan_bl test hit now timeout l) Q m.
Proof.
  intros (-> & Hal & Htf & Hno) [Hok1 [(_ & _ & Hin) _]%Forall_cons]%Forall_app Hp HQ.
  apply wp_scan_prefix; [done| |done|]. { intros y m' Q' Hy. apply Hp. set_solver. }
  simpl. wp_step. apply wp_deadtime; [done|]. destruct (Z.ltb_spec (timestamp x + timeout) now) as [Hd|Hd];
    [unfold alive in Hal; lia|].
  wp_step. apply Hp; [set_solver|]. rewrite Htf. wp_step. eapply wp_mono; [exact HQ|].
  intros [r x'] m' Hr. by wp_step.
Qed.

Lemma wp_scan_miss l (Q : option R * list oph_auth_user_bl → mem → Prop) m :
  Forall (item_ok timeout) l → test_pure test tf l → Forall (λ y, alive now timeout y → tf y = false) l →
  Q (None, filter (alive now timeout) l) m →
  wp (scan_bl test hit now timeout l) Q m.
Proof.
  intros Hok Hp Hno HQ. rewrite <-(app_nil_r l). apply wp_scan_prefix; [done..|]. simpl. wp_step. simpl.
  by rewrite app_nil_r.
Qed.

End scan.

(** The item of a user and a host. *)
Definition is_item (u h : string) (x : oph_auth_user_bl) : bool :=
  bool_decide (userid x = Some u) && bool_decide (host x = Some h).

Lemma test_item u h timeout l :
  Forall (item_ok timeout) l →
  test_pure (λ x, andC (strcmp0 (userid x) (Some u)) (strcmp0 (host x) (Some h))) (is_item u h) l.
Proof.
  intros Hok x m Q Hx HQ. eapply Forall_forall in Hok as ([a Ha] & [b Hb] & _); [|done].
  unfold is_item, andC, strcmp0 in *. rewrite Ha, Hb in *. wp_step. wp_step. wp_step. wp_step. wp_step. wp_step.
  rewrite (bool_decide_ext (Some a = Some u) (a = u)), (bool_decide_ext (Some b = Some h) (b = h)) in HQ by naive_solver.
  destruct (bool_decide (a = u)); [|by wp_step]. wp_step. wp_step. wp_step. wp_step. by wp_step.
Qed.

(** the search of a user and a host in a timed list: with a live item it counts one
    more attempt and returns the count (a [short]); without one it returns 0; the
    expired items before the point where it stops, and no others, are dropped. *)
Theorem is_in_bl_correct (now timeout : Z) (l : list oph_auth_user_bl) (u h : string) (m : mem) :
  Forall (item_ok timeout) l →
  wp (oph_is_in_bl now timeout l (Some u) (Some h) None) (λ r _,
    (r.1 = 0 ∧ r.2 = filter (alive now timeout) l ∧ Forall (λ y, alive now timeout y → is_item u h y = false) l) ∨
    (∃ l1 x l2, first_hit now timeout (is_item u h) l l1 x l2 ∧
       r.1 = wrap_i16 (count x + 1) ∧
       r.2 = filter (alive now timeout) l1 ++ set_count (wrap_i16 (count x + 1)) x :: l2)) m.
Proof.
  intros Hok. unfold oph_is_in_bl. wp_step.
  destruct (decide (Forall (λ y, alive now timeout y → is_item u h y = false) l)) as [Hno|Hex].
  - eapply wp_scan_miss; [done|by eapply test_item|done|]. wp_step. left. by split_and!.
  - apply not_Forall_Exists in Hex; [|apply _].
    assert (∃ l1 x l2, first_hit now timeout (is_item u h) l l1 x l2) as (l1 & x & l2 & Hh).
    { clear -Hex. induction l as [|y l IH]; [by apply Exists_nil in Hex|].
      destruct (decide (alive now timeout y → is_item u h y = false)) as [Hy|Hy].
      - destruct IH as (l1 & x & l2 & -> & ? & ? & ?); [by apply Exists_cons in Hex as [?|?]|].
        exists (y :: l1), x, l2. split_and!; try done. by constructor.
      - exists [], y, l. destruct (decide (alive now timeout y)); [|naive_solver].
        split_and!; try done. by destruct (is_item u h y); [|naive_solver]. }
    eapply wp_scan_hit; [exact Hh|done|by eapply test_item|]. wp_step. wp_step. right. exists l1, x, l2. done.
Qed.

Definition sample_item (c : Z) : oph_auth_user_bl := BL (Some "u"%string) (Some "h"%string) 0 None c 100 100.

Lemma is_in_bl_correct_witness :
  oph_is_in_bl 120 60 [sample_item 3] (Some "u"%string) (Some "h"%string) None [] = Ok (4, [sample_item 4]) [] ∧
  wp (oph_is_in_bl 120 60 [sample_item 3] (Some "u"%string) (Some "h"%string) None) (λ r _,
    (r.1 = 0 ∧ r.2 = filter (alive 120 60) [sample_item 3] ∧
       Forall (λ y, alive 120 60 y → is_item "u" "h" y = false) [sample_item 3]) ∨
    (∃ l1 x l2, first_hit 120 60 (is_item "u" "h") [sample_item 3] l1 x l2 ∧
       r.1 = wrap_i16 (count x + 1) ∧
       r.2 = filter (alive 120 60) l1 ++ set_count (wrap_i16 (count x + 1)) x :: l2)) [].
Proof.
  split; [vm_compute; reflexivity|]. apply (is_in_bl_correct 120 60 [sample_item 3] "u" "h" []).
  repeat constructor; simpl; eauto; unfold in_i32; simpl; lia.
Defined.

(** ** The password check *)

(** The fields behind the name of the user in the file. *)
Fixpoint user_fields (u : string) (lines : list string) : option (list string) :=
  match lines with
  | [] => None
  | buffer :: lines' =>
      if bool_decide (buffer = EmptyString) then user_fields u lines' else
      match strtok OPH_SEPARATOR_BASIC buffer with
      | [] => None
      | username :: more => if bool_decide (u = username) then Some more else user_fields u lines'
      end
  end.

Lemma auth_user_fields sha now now' timeout lines bl u passwd h more :
  user_fields u lines = Some more →
  oph_auth_user sha now now' timeout (Some lines) bl (Some u) passwd h =
    auth_line sha now now' timeout bl (Some u) passwd h more.
Proof.
  simpl. induction lines as [|b lines IH]; simpl; [done|].
  case_bool_decide; [done|]. destruct (strtok OPH_SEPARATOR_BASIC b); [done|].
  case_bool_decide; [by intros [= ->]|done].
Qed.

(** The search when the item is the first one. *)
Lemma wp_is_in_head now timeout x l u h (Q : Z * list oph_auth_user_bl → mem → Prop) m :
  item_ok timeout x → alive now timeout x → is_item u h x = true →
  Q (wrap_i16 (count x + 1), set_count (wrap_i16 (count x + 1)) x :: l) m →
  wp (oph_is_in_bl now timeout (x :: l) (Some u) (Some h) (Some true)) Q m.
Proof.
  intros Hok Hal Hit HQ. unfold oph_is_in_bl. wp_step. simpl. wp_step.
  apply wp_deadtime; [apply Hok|]. destruct (Z.ltb_spec (timestamp x + timeout) now); [unfold alive in Hal; lia|].
  wp_step. eapply (test_item u h timeout [x]); [by constructor|left|]. rewrite Hit. wp_step. wp_step.
  wp_step. by wp_step.
Qed.

(** The search when no live item matches. *)
Lemma wp_is_in_miss now timeout l u h (Q : Z * list oph_auth_user_bl → mem → Prop) m :
  Forall (item_ok timeout) l → Forall (λ y, alive now timeout y → is_item u h y = false) l →
  Q (0, filter (alive now timeout) l) m →
  wp (oph_is_in_bl now timeout l (Some u) (Some h) (Some true)) Q m.
Proof.
  intros Hok Hno HQ. unfold oph_is_in_bl. wp_step.
  eapply wp_scan_miss; [done|by eapply test_item|done|]. by wp_step.
Qed.

(** once the item of a user and a host has reached the limit, every access of that
    user from that host is refused until the item expires, whatever the password,
    as long as the counter does not wrap. *)
Theorem blocked_whatever_password (sha : string → string) (now now' timeout : Z) (lines : list string)
    (x : oph_auth_user_bl) (l : list oph_auth_user_bl) (u h : string) (passwd : cstr) (more : list string) (m : mem) :
  user_fields u lines = Some more → item_ok timeout x → is_item u h x = true →
  now ≤ timestamp x + timeout → OPH_AUTH_MAX_COUNT ≤ count x < 2 ^ 15 - 1 →
  wp (oph_auth_user sha now now' timeout (Some lines) (x :: l) (Some u) passwd (Some h)) (λ r _,
    r = (OPH_SERVER_AUTH_ERROR, None, false, set_count (count x + 1) x :: l)) m.
Proof.
  intros Hf Hok Hit Hal Hc. rewrite (auth_user_fields _ _ _ _ _ _ _ _ _ more) by done. unfold auth_line. wp_step.
  assert (wrap_i16 (count x + 1) = count x + 1) as E.
  { unfold wrap_i16, OPH_AUTH_MAX_COUNT in *. rewrite Z.mod_small; lia. }
  apply wp_is_in_head; [done..|]. rewrite E. rewrite (proj2 (Z.ltb_lt _ _)) by lia. by wp_step.
Qed.

Definition sample_users : list string := ["v:x"; "u:secret:uid"]%string.

Lemma blocked_whatever_password_witness :
  wp (oph_auth_user id 120 120 60 (Some sample_users) [sample_item 5] (Some "u"%string) (Some "secret"%string)
        (Some "h"%string)) (λ r _,
    r = (OPH_SERVER_AUTH_ERROR, None, false, [sample_item 6])) [].
Proof.
  apply (blocked_whatever_password id 120 120 60 sample_users (sample_item 5) [] "u" "h" (Some "secret"%string)
    ["secret"; "uid"]%string []); try reflexivity; try (simpl; unfold OPH_AUTH_MAX_COUNT; lia).
  repeat split; simpl; eauto; unfold in_i32; simpl; lia.
Defined.

(** C30: the counter of attempts is a [short] without a guard: after enough refused
    attempts it wraps to a negative number, the block is lifted before the timeout, and
    the right password is accepted (and the item dropped) again. *)
Theorem block_lifted_by_wrap (sha : string → string) (now now' timeout : Z) (lines : list string)
    (x : oph_auth_user_bl) (l : list oph_auth_user_bl) (u h password : string) (more : list string) (m : mem) :
  user_fields u lines = Some (password :: more) → item_ok timeout x → is_item u h x = true →
  now ≤ timestamp x + timeout → count x = 2 ^ 15 - 1 →
  wp (oph_auth_user sha now now' timeout (Some lines) (x :: l) (Some u) (Some password) (Some h)) (λ r _,
    r = (OPH_SERVER_OK, list.head more, true, l)) m.
Proof.
  intros Hf Hok Hit Hal Hc. rewrite (auth_user_fields _ _ _ _ _ _ _ _ _ _ Hf). unfold auth_line. wp_step.
  apply wp_is_in_head; [done..|]. rewrite Hc. simpl. rewrite bool_decide_true by done. simpl. wp_step. wp_step.
  wp_step. apply wp_deadtime; [apply Hok|]. wp_step.
  eapply (test_item u h timeout [x]); [by constructor|left|].
  rewrite Hit. wp_step. wp_step. by wp_step.
Qed.

Lemma block_lifted_by_wrap_witness :
  wp (oph_auth_user id 120 120 60 (Some sample_users) [sample_item 32767] (Some "u"%string) (Some "secret"%string)
        (Some "h"%string)) (λ r _,
    r = (OPH_SERVER_OK, Some "uid"%string, true, [])) [].
Proof.
  apply (block_lifted_by_wrap id 120 120 60 sample_users (sample_item 32767) [] "u" "h" "secret" ["uid"]%string []);
    try reflexivity; try (simpl; lia).
  repeat split; simpl; eauto; unfold in_i32; simpl; lia.
Defined.

#[local] Arguments oph_auth_user : simpl never.

(** An access: the time of the search, the time of the update, the password. *)
Record access : Type := Access { at_search : Z; at_update : Z; password_of : string }.

(** A history of accesses of one user from one host: the codes and the list after them. *)
Definition attempts (sha : string → string) (timeout : Z) (lines : list string) (u h : string)
    (bl : list oph_auth_user_bl) (accesses : list access) : C (list Z * list oph_auth_user_bl) :=
  foldC (λ st a,
    '(rc, _, _, bl') ← oph_auth_user sha (at_search a) (at_update a) timeout (Some lines) st.2 (Some u) (Some (password_of a)) (Some h);
    mret (st.1 ++ [rc], bl')) ([], bl) accesses.

(** The code of the attempt number [i], counted from zero. *)
Definition attempt_code (i : nat) : Z := if (i <? 5)%nat then OPH_SERVER_ERROR else OPH_SERVER_AUTH_ERROR.

Definition attempt_codes (n : nat) : list Z := attempt_code <$> seq 0 n.

Lemma attempt_codes_S n : attempt_codes (S n) = attempt_codes n ++ [attempt_code n].
Proof. unfold attempt_codes. by rewrite seq_S, fmap_app. Qed.

#[local] Arguments attempt_codes : simpl never.

(** C29: A user whose first five accesses from a host, beginning with one that finds no live entry for them in the
    list, use wrong passwords is refused with OPH_SERVER_ERROR five times, and every further access from that host
    within the timeout of the first failure is refused with OPH_SERVER_AUTH_ERROR whatever its password, the right one
    included, for fewer than 30000 accesses (the counter is a short and wraps). *)
Theorem lockout_after_five (sha : string → string) (timeout : Z) (lines : list string) (bl : list oph_auth_user_bl)
    (u h password : string) (more : list string) (first : access) (rest : list access) (m : mem) :
  user_fields u lines = Some (password :: more) →
  Forall (λ a, password_of a ≠ password ∧ sha (password_of a) ≠ password) (take 5 (first :: rest)) →
  Forall (item_ok timeout) bl → Forall (λ y, alive (at_search first) timeout y → is_item u h y = false) bl →
  in_i32 (at_update first) → in_i32 (at_update first + timeout) → Forall (λ a, at_search a ≤ at_update first + timeout) rest →
  Z.of_nat (length rest) < 30000 → reliable m →
  wp (attempts sha timeout lines u h bl (first :: rest)) (λ r _, r.1 = attempt_codes (S (length rest))) m.
Proof.
  destruct first as [t t' p0]. cbn [at_search at_update password_of take]. rewrite Forall_cons. intros Hf [[Hp Hsha] Hwrong] Hok Hno Ht' Htt Htimes Hlen Hm.
  unfold attempts. cbn [foldC at_search at_update password_of fst snd]. wp_step.
  rewrite (auth_user_fields _ _ _ _ _ _ _ _ _ _ Hf). wp_step. unfold auth_line. wp_step.
  apply wp_is_in_miss; [done..|]. simpl.
  rewrite !bool_decide_false by done. simpl. wp_step. unfold oph_add_to_bl, _oph_add_to_bl.
  wp_step. wp_step. wp_step. apply wp_assert; [done|]. wp_step. apply wp_strdup; [done|]. intros m1 Hm1.
  wp_step. apply wp_strdup; [done|]. intros m2 Hm2. wp_step. wp_step. wp_step.
  set (item c := BL (Some u) (Some h) 0 None c (wrap_i32 t') (wrap_i32 t')).
  eapply wp_mono.
  - apply (wp_foldC _ (λ don st m', st.1 = attempt_codes (S (length don)) ∧
      ∃ l, st.2 = item (Z.of_nat (S (length don))) :: l)); [split; [done|by eexists]|].
    intros don [s s' p] rst [codes bl'] m3 Heq [Hc (l & Hl)]. simpl in *. subst codes bl'.
    assert (s ≤ t' + timeout) as Hs.
    { rewrite Heq in Htimes. apply Forall_app in Htimes as [_ [? _]%Forall_cons]. done. }
    assert (Z.of_nat (length don) < 30000) as Hd by (rewrite Heq, length_app in Hlen; lia).
    assert (wrap_i16 (Z.of_nat (S (length don)) + 1) = Z.of_nat (S (S (length don)))) as Ew.
    { unfold wrap_i16. rewrite Z.mod_small; lia. }
    wp_step. rewrite (auth_user_fields _ _ _ _ _ _ _ _ _ _ Hf). unfold auth_line. wp_step.
    apply wp_is_in_head.
    + split_and!; [by eexists|by eexists|]. simpl. by rewrite wrap_i32_id.
    + unfold alive. simpl. by rewrite wrap_i32_id.
    + unfold is_item. simpl. by rewrite !bool_decide_true.
    + simpl count. rewrite Ew.
      assert (attempt_codes (S (length (don ++ [Access s s' p]))) =
        attempt_codes (S (length don)) ++ [attempt_code (S (length don))]) as Eseq.
      { rewrite length_app. simpl length. rewrite Nat.add_1_r. apply attempt_codes_S. }
      rewrite Eseq. destruct (Z.ltb_spec OPH_AUTH_MAX_COUNT (Z.of_nat (S (S (length don))))) as [Hb|Hb];
        unfold OPH_AUTH_MAX_COUNT in Hb.
      * wp_step. wp_step. simpl. split; [f_equal; simpl; unfold attempt_code|].
        -- by rewrite (proj2 (Nat.ltb_ge _ _)) by lia.
        -- exists l. rewrite length_app. simpl. by rewrite Nat.add_1_r.
      * assert (p ≠ password ∧ sha p ≠ password) as [Hp' Hsha'].
        { rewrite Heq in Hwrong. rewrite Forall_forall in Hwrong. apply (Hwrong (Access s s' p)).
          rewrite take_app_ge by lia. apply elem_of_app. right. replace (4 - length don)%nat with (S (3 - length don)) by lia. by left. }
        rewrite !bool_decide_false by done. simpl orb. cbv iota.
        rewrite (proj2 (Z.eqb_neq _ _)) by lia. wp_step. wp_step. simpl. split; [f_equal; simpl; unfold attempt_code|].
        -- by rewrite (proj2 (Nat.ltb_lt _ _)) by lia.
        -- exists l. rewrite length_app. simpl. by rewrite Nat.add_1_r.
  - intros [codes bl'] m3 [Hc _]. exact Hc.
Qed.

(** Five wrong passwords, then the right one. *)
Lemma lockout_after_five_witness :
  wp (attempts id 60 sample_users "u" "h" [] (Access 100 100 "wrong" :: replicate 4 (Access 110 110 "guess") ++ replicate 2 (Access 110 110 "secret"))) (λ r _,
    r.1 = attempt_codes 7) [].
Proof.
  apply (lockout_after_five id 60 sample_users [] "u" "h" "secret" ["uid"]%string (Access 100 100 "wrong")
    (replicate 4 (Access 110 110 "guess") ++ replicate 2 (Access 110 110 "secret")) []);
    first [done|apply reliable_nil|unfold in_i32; simpl; lia|repeat constructor; simpl; lia|repeat constructor; simpl; discriminate].
Defined.

(** Adding an item, and finding it by the user. *)
Lemma wp_add now l u v (Q : Z * list oph_auth_user_bl → mem → Prop) m :
  in_i32 now → reliable m →
  (∀ m', reliable m' → Q (OPH_SERVER_OK, BL (Some u) (Some v) 0 None 1 now now :: l) m') →
  wp (oph_add_to_bl now l (Some u) (Some v)) Q m.
Proof.
  intros Hn Hm HQ. unfold oph_add_to_bl, _oph_add_to_bl. wp_step. wp_step. wp_step.
  apply wp_assert; [done|]. wp_step. apply wp_strdup; [done|]. intros m1 Hm1. wp_step. apply wp_strdup; [done|].
  intros m2 Hm2. wp_step. rewrite wrap_i32_id by done. by apply HQ.
Qed.

Lemma wp_get_host now now' timeout l u v (Q : cstr * list oph_auth_user_bl → mem → Prop) m :
  in_i32 (now + timeout) → now' ≤ now + timeout → (∀ l', Q (Some v, l') m) →
  wp (oph_get_host_by_user_in_bl now' timeout (BL (Some u) (Some v) 0 None 1 now now :: l) (Some u) None) Q m.
Proof.
  intros Hnt Hn' HQ. unfold oph_get_host_by_user_in_bl. wp_step. simpl. wp_step.
  apply wp_deadtime; [done|]. simpl. rewrite (proj2 (Z.ltb_ge _ _)) by lia. wp_step. unfold strcmp0.
  wp_step. wp_step. wp_step. wp_step. wp_step. rewrite bool_decide_true by done. wp_step. wp_step. wp_step. wp_step.
  apply HQ.
Qed.

(** the outcome stored with [oph_auth_enable_user] is the outcome
    [oph_auth_user_enabling] reports until the timeout: the number survives the trip
    through its decimal text. *)
Theorem enable_roundtrip (now now' timeout result : Z) (l1 l2 : list oph_auth_user_bl) (u a : string) (m : mem) :
  in_i32 result → in_i32 now → in_i32 (now + timeout) → now' ≤ now + timeout → reliable m →
  wp ('(_, ls) ← oph_auth_enable_user now l1 l2 (Some u) result (Some a);
      '(rc, r, _) ← oph_auth_user_enabling now' timeout ls.1 ls.2 (Some u);
      mret (rc, r)) (λ r _, r = (OPH_SERVER_OK, (result, Some a))) m.
Proof.
  intros Hr Hn Hnt Hn' Hm. wp_step. unfold oph_auth_enable_user.
  wp_step. apply wp_add; [done|done|]. intros m1 Hm1. wp_step. apply wp_add; [done|done|]. intros m2 Hm2.
  wp_step. simpl. wp_step. unfold oph_auth_user_enabling.
  wp_step. apply wp_get_host; [done|done|]. intros l1'. wp_step. apply wp_get_host; [done|done|]. intros l2'. wp_step.
  wp_step. f_equal. f_equal. unfold truncate. rewrite take_str_ge.
  - rewrite strtol_print by (unfold in_i32, in_i64 in *; lia). by apply wrap_i32_id.
  - etrans; [by apply length_print_int|]. unfold OPH_SHORT_STRING_SIZE. lia.
Qed.

Lemma enable_roundtrip_witness :
  wp ('(_, ls) ← oph_auth_enable_user 100 [] [] (Some "u"%string) (-3) (Some "uid"%string);
      '(rc, r, _) ← oph_auth_user_enabling 120 60 ls.1 ls.2 (Some "u"%string);
      mret (rc, r)) (λ r _, r = (OPH_SERVER_OK, (-3, Some "uid"%string))) [].
Proof.
  apply (enable_roundtrip 100 120 60 (-3) [] [] "u" "uid" []);
    first [apply reliable_nil|unfold in_i32; lia|lia].
Defined.

End BlackList.
