(* ===== verification/ArgParser.v ===== *)
(** * Argument lists and the submission parser

    [src/oph_parser.c]: a submission is a program of one query per line, a query a
    sequence of [key=value;] pairs.  [oph_parse_program] cuts the program into numbered
    queries, [oph_parse_query] a query into pairs, [oph_get_arg] and [oph_set_arg] use
    the list of pairs as a map whose keys are compared up to case,
    [oph_arg_to_string] prints it, and [oph_order_args_list] sorts the argument lists of
    several tasks by identifier.

    A list of [oph_argument] is the Rocq list of its nodes; the pointer to the next node
    is the tail.  Several of these functions do not test the result of [malloc]: writing
    through it is then undefined behaviour ([UB]), while a failed [strndup] leaves a null
    string in the node.  Log messages are left out. *)

From Stdlib Require Ascii.
From stdpp Require Import base gmap strings numbers pretty sorting list.
From S2P Require Import Prelude.
From S2P Require Import CString.
Import (notations) Stdlib.Strings.Ascii.

Module ArgParser.

#[local] Open Scope Z_scope.

Definition OPH_SERVER_OK : Z := 0.
Definition OPH_SERVER_UNKNOWN : Z := 1.
Definition OPH_SERVER_NULL_POINTER : Z := 2.
Definition OPH_SERVER_ERROR : Z := 3.
Definition OPH_SERVER_SYSTEM_ERROR : Z := 6.

Definition OPH_MAX_STRING_SIZE : nat := 4096.
Definition OPH_SHORT_STRING_SIZE : nat := 128.
Definition OPH_MAX_PROGRAM_SIZE : Z := 1048576.

Definition OPH_SEPARATOR_KV : ascii := "=".
Definition OPH_SEPARATOR_PARAM : ascii := ";".
Definition OPH_SEPARATOR_SUBPARAM_OPEN : ascii := "[".
Definition OPH_SEPARATOR_SUBPARAM_CLOSE : ascii := "]".
Definition OPH_SEPARATOR_BRACKET_OPEN : ascii := "{".
Definition OPH_SEPARATOR_BRACKET_CLOSE : ascii := "}".
Definition OPH_SEPARATOR_QUERY : ascii := "010".

Definition OPH_ARG_NCORES : string := "ncores".
Definition OPH_ARG_NHOSTS : string := "nhost".
Definition OPH_ARG_MODE : string := "exec_mode".
Definition OPH_ARG_CUBE : string := "cube".
Definition OPH_ARG_SRC_PATH : string := "src_path".
Definition OPH_ARG_MEASURE : string := "measure".
Definition OPH_ARG_CALLBACK_URL : string := "callback_url".

(** ** Data *)

Record oph_argument : Type := Arg { key : cstr; value : cstr }.

Record oph_arguments : Type := Args { id : Z; item : list oph_argument }.

(** ** Lists of argument lists *)

Definition oph_append_args_list (l : list oph_arguments) (it : option (list oph_argument)) (i : Z) :
    C (Z * list oph_arguments) :=
  match it with
  | None => mret (OPH_SERVER_NULL_POINTER, l)
  | Some it =>
      ok ← malloc;
      mret (if ok : bool then (OPH_SERVER_OK, Args i it :: l) else (OPH_SERVER_SYSTEM_ERROR, l))
  end.

(** The [for] loop: [it] is the current node, [rest] the nodes after it, [count] the
    exchanges made; an exchange relinks [it] behind its successor and keeps it current. *)
Fixpoint args_pass (it : oph_arguments) (rest : list oph_arguments) (count : Z) : list oph_arguments * Z :=
  match rest with
  | [] => ([it], count)
  | nxt :: rest' =>
      if id nxt <? id it
      then let r := args_pass it rest' (count + 1) in (nxt :: r.1, r.2)
      else let r := args_pass nxt rest' count in (it :: r.1, r.2)
  end.

(** The [do]-[while] loop. *)
Fixpoint order_loop (fuel : nat) (l : list oph_arguments) : C (list oph_arguments) :=
  match fuel, l with
  | S fuel', it :: rest =>
      let '(l', count) := args_pass it rest 0 in
      if count =? 0 then mret l' else order_loop fuel' l'
  | _, _ => out_of_fuel
  end.

Definition oph_order_args_list (fuel : nat) (l : list oph_arguments) : C (Z * list oph_arguments) :=
  match l with
  | [] | [_] => mret (OPH_SERVER_OK, l)
  | _ => l' ← order_loop fuel l; mret (OPH_SERVER_OK, l')
  end.

(** ** Parsing *)

(** [strndup(s, n)]. *)
Definition strndup (s : string) (n : nat) : C cstr :=
  ok ← malloc; mret (if ok : bool then Some (take_str n s) else None).

(** [malloc] of a node whose fields are written at once. *)
Definition new_argument : C unit := ok ← malloc; assertC ok.

(** [ptr = strchr(s, c); if (ptr) ptr++;] *)
Definition after_char (s : string) (c : ascii) : cstr :=
  match strchr s c with Some (String _ s') => Some s' | _ => None end.

(** The [while] loop of [oph_parse_program] at [ptr0]; [args] are the queries so far. *)
Fixpoint program_loop (fuel : nat) (ptr0 : string) (args : list oph_argument) (counter : Z) :
    C (Z * list oph_argument * Z) :=
  match fuel with
  | O => out_of_fuel
  | S fuel' =>
      match ptr0, after_char ptr0 OPH_SEPARATOR_QUERY with
      | EmptyString, _ | _, None =>
          mret (if counter =? 0 then OPH_SERVER_ERROR else OPH_SERVER_OK, args, counter)
      | _, Some ptr1 =>
          let counter := wrap_u32 (counter + 1) in
          if (OPH_MAX_STRING_SIZE <? String.length ptr0 - String.length ptr1)%nat
          then mret (OPH_SERVER_ERROR, [], counter)
          else
            new_argument;;
            k ← strdup (Some (truncate OPH_SHORT_STRING_SIZE (print_int (wrap_i32 counter))));
            v ← strndup ptr0 (String.length ptr0 - String.length ptr1 - 1);
            program_loop fuel' ptr1 (args ++ [Arg k v]) counter
      end
  end.

Definition oph_parse_program (task_string : cstr) : C (Z * list oph_argument * Z) :=
  match task_string with
  | None => mret (OPH_SERVER_NULL_POINTER, [], 0)
  | Some s =>
      let program := truncate (Z.to_nat OPH_MAX_PROGRAM_SIZE) (s +:+ String OPH_SEPARATOR_QUERY EmptyString) in
      program_loop (S (String.length program)) program [] 0
  end.

(** From the start of a value to what follows its [;]: [None] is the early return with
    [OPH_SERVER_ERROR] (an open bracket is not closed), [Some None] no [;]. *)
Definition value_end (ptr1 : string) : option cstr :=
  let from c := match strchr ptr1 c with
                | None => None
                | Some ptr3 => Some (after_char ptr3 OPH_SEPARATOR_PARAM)
                end in
  match ptr1 with
  | String c _ =>
      if Ascii.eqb c OPH_SEPARATOR_SUBPARAM_OPEN then from OPH_SEPARATOR_SUBPARAM_CLOSE
      else if Ascii.eqb c OPH_SEPARATOR_BRACKET_OPEN then from OPH_SEPARATOR_BRACKET_CLOSE
      else Some (after_char ptr1 OPH_SEPARATOR_PARAM)
  | EmptyString => Some None
  end.

(** [oph_parse_query] from [ptr0]; the code computes [ptr1] and [ptr2] before the loop
    and at the end of its body. *)
Fixpoint query_loop (fuel : nat) (ptr0 : string) (args : list oph_argument) (counter : Z) :
    C (Z * list oph_argument * Z) :=
  match fuel with
  | O => out_of_fuel
  | S fuel' =>
      let finish := mret (if counter =? 0 then OPH_SERVER_ERROR else OPH_SERVER_OK, args, counter) in
      match after_char ptr0 OPH_SEPARATOR_KV with
      | None => finish
      | Some ptr1 =>
          match value_end ptr1 with
          | None => mret (OPH_SERVER_ERROR, args, counter)
          | Some None => finish
          | Some (Some ptr2) =>
              new_argument;;
              k ← strndup ptr0 (String.length ptr0 - String.length ptr1 - 1);
              v ← strndup ptr1 (String.length ptr1 - String.length ptr2 - 1);
              query_loop fuel' ptr2 (args ++ [Arg k v]) (wrap_u32 (counter + 1))
          end
      end
  end.

Definition oph_parse_query (task_string : cstr) : C (Z * list oph_argument * Z) :=
  match task_string with
  | None => mret (OPH_SERVER_NULL_POINTER, [], 0)
  | Some s => query_loop (S (String.length s)) s [] 0
  end.

(** ** Using the list as a map *)

(** [!strncasecmp(tmp->key, key, OPH_MAX_STRING_SIZE)] *)
Definition key_is (a : oph_argument) (k : string) : C bool :=
  x ← deref (key a); mret (strncasecmp0 x k OPH_MAX_STRING_SIZE).

(** The value is what [strncpy] writes into the buffer before a terminator; a value of
    [OPH_MAX_STRING_SIZE] characters or more fills the buffer without one. *)
Fixpoint get_loop (l : list oph_argument) (k : string) : C (Z * cstr) :=
  match l with
  | [] => mret (OPH_SERVER_UNKNOWN, None)
  | a :: l' =>
      b ← key_is a k;
      if b : bool then v ← deref (value a); mret (OPH_SERVER_OK, Some (take_str OPH_MAX_STRING_SIZE v))
      else get_loop l' k
  end.

Definition oph_get_arg (args : list oph_argument) (k : cstr) : C (Z * cstr) :=
  match args, k with
  | _ :: _, Some k => get_loop args k
  | _, _ => mret (OPH_SERVER_NULL_POINTER, None)
  end.

(** The search and, at its end, the node to fill: a fresh one at the end of the list, or
    the one found. *)
Fixpoint set_loop (l : list oph_argument) (k v : string) : C (list oph_argument) :=
  let fill := k' ← strndup k OPH_MAX_STRING_SIZE; v' ← strndup v OPH_MAX_STRING_SIZE; mret (Arg k' v') in
  match l with
  | [] => new_argument;; a ← fill; mret [a]
  | a :: l' =>
      b ← key_is a k;
      if b : bool then a' ← fill; mret (a' :: l')
      else l'' ← set_loop l' k v; mret (a :: l'')
  end.

Definition oph_set_arg (args : list oph_argument) (k v : cstr) : C (Z * list oph_argument) :=
  match k, v with
  | Some k, Some v => l ← set_loop args k v; mret (OPH_SERVER_OK, l)
  | _, _ => mret (OPH_SERVER_NULL_POINTER, args)
  end.

(** ** Printing *)

(** The keys [oph_arg_to_string] skips. *)
Definition skipped (add_datacube_input : bool) (k : string) : bool :=
  let is_key w := strncasecmp0 w k OPH_MAX_STRING_SIZE in
  is_key OPH_ARG_NCORES || is_key OPH_ARG_NHOSTS || is_key OPH_ARG_MODE
  || (is_key OPH_ARG_CUBE && negb add_datacube_input)
  || is_key OPH_ARG_SRC_PATH || is_key OPH_ARG_MEASURE || is_key OPH_ARG_CALLBACK_URL.

Fixpoint to_string_loop (l : list oph_argument) (add_datacube_input : bool) (s : string) : C string :=
  match l with
  | [] => mret s
  | a :: l' =>
      k ← deref (key a);
      if skipped add_datacube_input k then to_string_loop l' add_datacube_input s
      else
        v ← deref (value a);
        to_string_loop l' add_datacube_input
          (s +:+ take_str OPH_MAX_STRING_SIZE k +:+ String OPH_SEPARATOR_KV
            (take_str OPH_MAX_STRING_SIZE v +:+ String OPH_SEPARATOR_PARAM EmptyString))
  end.

Definition oph_arg_to_string (args : list oph_argument) (add_datacube_input : bool) : C (Z * string) :=
  s ← to_string_loop args add_datacube_input EmptyString; mret (OPH_SERVER_OK, s).

(** ** The list as a map *)

(** Keys are equal up to case in their first [OPH_MAX_STRING_SIZE] characters. *)
Definition same_key : string → string → Prop := same_case OPH_MAX_STRING_SIZE.

(** The nodes the parser and [oph_set_arg] leave when memory suffices. *)
Definition complete (l : list oph_argument) : Prop := Forall (λ a, is_Some (key a) ∧ is_Some (value a)) l.

(** The abstract map: the value of the first key equal to [k] up to case. *)
Fixpoint lookup_arg (l : list oph_argument) (k : string) : option string :=
  match l with
  | [] => None
  | a :: l' => if strncasecmp0 (default "" (key a)) k OPH_MAX_STRING_SIZE then value a else lookup_arg l' k
  end%string.

(** What [oph_get_arg] reports of a looked up value. *)
Definition get_result (o : option string) : Z * cstr :=
  match o with
  | Some v => (OPH_SERVER_OK, Some (take_str OPH_MAX_STRING_SIZE v))
  | None => (OPH_SERVER_UNKNOWN, None)
  end.

#[global] Instance lookup_arg_proper l : Proper (same_key ==> eq) (lookup_arg l).
Proof.
  intros k k' Hk. induction l as [|a l IH]; simpl; [done|].
  by rewrite (strncasecmp0_proper _ _ _ (reflexivity _) _ _ Hk), IH.
Qed.

Lemma wp_key_is a k s (Q : bool → mem → Prop) m :
  key a = Some s → Q (strncasecmp0 s k OPH_MAX_STRING_SIZE) m → wp (key_is a k) Q m.
Proof. intros Hs HQ. unfold key_is. rewrite Hs. by wp_steps. Qed.

Lemma get_loop_lookup l k m : complete l → get_loop l k m = Ok (get_result (lookup_arg l k)) m.
Proof.
  induction 1 as [|[ko vo] l [[s Hk] [v Hv]] _ IH]; simplify_eq/=; [done|].
  unfold key_is. simpl. unfold mbind, C_bind, mret, C_ret. simpl.
  by destruct (strncasecmp0 s k OPH_MAX_STRING_SIZE).
Qed.

Lemma wp_get_arg l k (Q : Z * cstr → mem → Prop) m :
  complete l → l ≠ [] → Q (get_result (lookup_arg l k)) m → wp (oph_get_arg l (Some k)) Q m.
Proof.
  intros Hl Hne HQ. destruct l as [|a l]; [done|]. unfold wp, oph_get_arg. by rewrite get_loop_lookup.
Qed.

Lemma wp_strndup s n (Q : cstr → mem → Prop) m :
  reliable m → (∀ m', reliable m' → Q (Some (take_str n s)) m') → wp (strndup s n) Q m.
Proof. intros Hm HQ. unfold strndup. wp_steps. by apply HQ. Qed.

Lemma wp_new_argument (Q : unit → mem → Prop) m :
  reliable m → (∀ m', reliable m' → Q () m') → wp new_argument Q m.
Proof. intros Hm HQ. unfold new_argument. wp_steps. by apply HQ. Qed.

(** The map after setting [k] to [v]. *)
Definition updates (l l' : list oph_argument) (k v : string) : Prop :=
  complete l' ∧
  ∀ k', lookup_arg l' k' =
    if strncasecmp0 k k' OPH_MAX_STRING_SIZE then Some (take_str OPH_MAX_STRING_SIZE v) else lookup_arg l k'.

#[local] Opaque OPH_MAX_STRING_SIZE.

Lemma take_key k k' :
  strncasecmp0 (take_str OPH_MAX_STRING_SIZE k) k' OPH_MAX_STRING_SIZE = strncasecmp0 k k' OPH_MAX_STRING_SIZE.
Proof. apply strncasecmp0_proper; [apply same_case_take|reflexivity]. Qed.

Lemma set_loop_updates l k v m :
  reliable m → complete l → wp (set_loop l k v) (λ l' m', reliable m' ∧ updates l l' k v) m.
Proof.
  intros Hm Hl. revert m Hm. induction Hl as [|a l [[s Hs] [w Hw]] Hl IH]; intros m Hm; simpl.
  - wp_step. apply wp_new_argument; [done|]. intros m1 Hm1. do 2 wp_step.
    apply wp_strndup; [done|]. intros m2 Hm2. wp_step. apply wp_strndup; [done|]. intros m3 Hm3. do 2 wp_step.
    split; [done|]. split; [by repeat constructor|]. intros k'. simpl. by rewrite take_key.
  - wp_step. apply (wp_key_is _ _ s); [done|]. destruct (strncasecmp0 s k OPH_MAX_STRING_SIZE) eqn:Hk.
    + do 2 wp_step. apply wp_strndup; [done|]. intros m2 Hm2. wp_step. apply wp_strndup; [done|].
      intros m3 Hm3. do 2 wp_step. split; [done|]. split; [by repeat constructor|]. intros k'. simpl.
      rewrite take_key, Hs. simpl.
      rewrite (strncasecmp0_proper _ _ _ Hk _ _ (reflexivity k')).
      by destruct (strncasecmp0 k k' OPH_MAX_STRING_SIZE).
    + wp_step. eapply wp_mono; [by apply IH|]. intros l' m' (Hm' & Hc & Hl'). wp_steps.
      split; [done|]. split; [by repeat constructor|]. intros k'. simpl. rewrite Hl', Hs. simpl.
      destruct (strncasecmp0 s k' OPH_MAX_STRING_SIZE) eqn:H1; [|done].
      destruct (strncasecmp0 k k' OPH_MAX_STRING_SIZE) eqn:H2; [|done].
      exfalso. assert (same_key s k) as H by (transitivity k'; [exact H1|symmetry; exact H2]).
      unfold same_key, same_case in H. congruence.
Qed.

Lemma set_loop_nonempty l k v m :
  reliable m → complete l → wp (set_loop l k v) (λ l' _, l' ≠ []) m.
Proof.
  intros Hm Hl. destruct Hl as [|a l [[s Hs] _] Hl]; simpl.
  - wp_step. apply wp_new_argument; [done|]. intros m1 Hm1. do 2 wp_step.
    apply wp_strndup; [done|]. intros m2 Hm2. wp_step. apply wp_strndup; [done|]. intros m3 Hm3. by wp_steps.
  - wp_step. apply (wp_key_is _ _ s); [done|]. case_match; wp_step.
    + wp_step. apply wp_strndup; [done|]. intros m2 Hm2. wp_step. apply wp_strndup; [done|]. intros m3 Hm3. by wp_steps.
    + eapply wp_mono; [by apply set_loop_updates|]. intros. by wp_steps.
Qed.

(** an argument list is a map whose keys are equal up to case: after
    [oph_set_arg] of a key, [oph_get_arg] of every spelling of it returns the new value
    (cut at [OPH_MAX_STRING_SIZE]) and of every other key what it returned before. *)
Theorem set_get_arg (l : list oph_argument) (k v k' : string) (m : mem) :
  reliable m → complete l →
  wp ('(rc, l') ← oph_set_arg l (Some k) (Some v); r ← oph_get_arg l' (Some k'); mret (rc, r)) (λ r _,
    r = (OPH_SERVER_OK,
         get_result (if strncasecmp0 k k' OPH_MAX_STRING_SIZE then Some (take_str OPH_MAX_STRING_SIZE v)
                     else lookup_arg l k'))) m.
Proof.
  intros Hm Hl. wp_step. unfold oph_set_arg. wp_step.
  eapply wp_mono; [apply wp_conj; [by apply set_loop_updates|by apply set_loop_nonempty]|].
  intros l' m' ((Hm' & Hc & Hl') & Hne). do 2 wp_step. apply wp_get_arg; [done..|]. wp_step.
  by rewrite Hl'.
Qed.

Lemma set_get_arg_witness :
  wp ('(rc, l') ← oph_set_arg [Arg (Some "Cube") (Some "1"); Arg (Some "cwd") (Some "/")] (Some "CUBE") (Some "2");
      r ← oph_get_arg l' (Some "cube"); mret (rc, r)) (λ r _, r = (OPH_SERVER_OK, (OPH_SERVER_OK, Some "2"))) [].
Proof.
  eapply wp_mono; [apply set_get_arg; [apply reliable_nil|by repeat constructor; eexists]|].
  intros r m ->. reflexivity.
Defined.

(** ** Ordering *)

Lemma args_pass_perm it l c : (args_pass it l c).1 ≡ₚ it :: l.
Proof.
  revert it c. induction l as [|y l IH]; intros it c; simpl; [done|].
  destruct (id y <? id it); simpl; rewrite IH; [constructor|done].
Qed.

(** Nodes with the same identifier keep their order. *)
Lemma args_pass_stable i it l c :
  filter (λ a, id a = i) (args_pass it l c).1 = filter (λ a, id a = i) (it :: l).
Proof.
  revert it c. induction l as [|y l IH]; intros it c; simpl; [done|].
  destruct (Z.ltb_spec (id y) (id it)) as [Hlt|_]; simpl.
  - rewrite (filter_cons _ y), IH, !(filter_cons _ it), (filter_cons _ y).
    destruct (decide (id y = i)), (decide (id it = i)); try done. lia.
  - rewrite !(filter_cons _ it), IH. done.
Qed.

Lemma args_pass_count it l c : c ≤ (args_pass it l c).2.
Proof.
  revert it c. induction l as [|y l IH]; intros it c; simpl; [lia|].
  destruct (id y <? id it); simpl; [|apply IH]. pose proof (IH it (c + 1)). lia.
Qed.

Definition by_id (a b : oph_arguments) : Prop := id a ≤ id b.

(** A pass without an exchange finds the list sorted. *)
Lemma args_pass_zero it l c :
  (args_pass it l c).2 = c → Sorted by_id (it :: l) ∧ (args_pass it l c).1 = it :: l.
Proof.
  revert it c. induction l as [|y l IH]; intros it c; simpl.
  - intros _. by repeat constructor.
  - destruct (Z.ltb_spec (id y) (id it)) as [Hlt|Hle]; simpl.
    + pose proof (args_pass_count it l (c + 1)). lia.
    + intros [Hs ->]%IH. split; [|done]. constructor; [done|]. by constructor.
Qed.

(** A pass moves a largest node to the end. *)
Lemma args_pass_max it l c :
  ∃ l' mx, (args_pass it l c).1 = l' ++ [mx] ∧ Forall (λ y, by_id y mx) (it :: l).
Proof.
  unfold by_id. revert it c. induction l as [|y l IH]; intros it c; simpl.
  - exists [], it. split; [done|]. by repeat constructor.
  - destruct (Z.ltb_spec (id y) (id it)) as [Hlt|Hle].
    + destruct (IH it (c + 1)) as (l' & mx & -> & [Hx Hl]%Forall_cons).
      exists (y :: l'), mx. split; [done|]. repeat constructor; [done|lia|done].
    + destruct (IH y c) as (l' & mx & -> & [Hy Hl]%Forall_cons).
      exists (it :: l'), mx. split; [done|]. repeat constructor; [lia|done|done].
Qed.

Lemma args_pass_snoc it l mx c :
  Forall (λ y, by_id y mx) (it :: l) →
  args_pass it (l ++ [mx]) c = ((args_pass it l c).1 ++ [mx], (args_pass it l c).2).
Proof.
  unfold by_id. revert it c. induction l as [|y l IH]; intros it c [Hx Hl]%Forall_cons; simpl.
  - destruct (Z.ltb_spec (id mx) (id it)); [lia|done].
  - apply Forall_cons in Hl as [Hy Hl]. destruct (id y <? id it); rewrite IH by (by constructor); done.
Qed.

Lemma order_loop_S fuel it l m :
  order_loop (S fuel) (it :: l) m =
  if (args_pass it l 0).2 =? 0 then Ok (args_pass it l 0).1 m else order_loop fuel (args_pass it l 0).1 m.
Proof. simpl. destruct (args_pass it l 0) as [l' c]. simpl. by destruct (c =? 0). Qed.

Lemma order_loop_snoc fuel l mx l' m :
  Forall (λ y, by_id y mx) l → order_loop fuel l m = Ok l' m → order_loop fuel (l ++ [mx]) m = Ok (l' ++ [mx]) m.
Proof.
  revert l. induction fuel as [|fuel IH]; intros [|it l] Hmx; [done..|].
  change ((it :: l) ++ [mx]) with (it :: (l ++ [mx])). rewrite !order_loop_S, args_pass_snoc by done. simpl.
  destruct (_ =? 0); [by intros [= <-]|]. apply IH. by rewrite args_pass_perm.
Qed.

Lemma Sorted_snoc_last (l : list oph_arguments) mx :
  Sorted by_id l → Forall (λ y, by_id y mx) l → Sorted by_id (l ++ [mx]).
Proof.
  induction 1 as [|x l Hs IH Hd]; intros Hmx; simpl; [by repeat constructor|].
  apply Forall_cons in Hmx as [Hx Hmx]. constructor; [by apply IH|].
  destruct l; simpl; constructor; [done|]. by inversion Hd.
Qed.

(** One pass per node is enough. *)
Lemma order_loop_sorts n l m :
  (length l ≤ S n)%nat → l ≠ [] →
  ∃ l', order_loop (S n) l m = Ok l' m ∧ l' ≡ₚ l ∧ Sorted by_id l' ∧
        ∀ i, filter (λ a, id a = i) l' = filter (λ a, id a = i) l.
Proof.
  revert l. induction n as [|n IH]; intros [|it l] Hlen Hne; try done.
  { destruct l; [|simpl in Hlen; lia]. exists [it]. by repeat constructor. }
  rewrite order_loop_S. destruct (Z.eqb_spec (args_pass it l 0).2 0) as [Hs|Hs].
  { apply args_pass_zero in Hs as [Hs ->]. exists (it :: l). by split_and!. }
  destruct (args_pass_max it l 0) as (l1 & mx & He & Hmx).
  pose proof (args_pass_perm it l 0) as Hp. rewrite He in Hp.
  rewrite <-Hp in Hmx. apply Forall_app in Hmx as [Hmx _].
  assert (length l1 = length l) as Hl1.
  { apply Permutation_length in Hp. rewrite length_app in Hp. simpl in *. lia. }
  destruct l1 as [|x1 l1]; [destruct l; [simpl in Hs; lia|done]|].
  destruct (IH (x1 :: l1)) as (l' & Hr & Hp' & Hs' & Hf); [simpl in *; lia|done|].
  exists (l' ++ [mx]). rewrite He. split_and!.
  - by apply order_loop_snoc.
  - by rewrite Hp', Hp.
  - apply Sorted_snoc_last; [done|]. by rewrite Hp'.
  - intros i. by rewrite <-(args_pass_stable i it l 0), He, !filter_app, Hf.
Qed.

(** C31: [oph_order_args_list] terminates (one pass per node is enough) and sorts the
    argument lists by identifier; it keeps every node, and the order of nodes with the
    same identifier. *)
Theorem order_args_list_sorts (fuel : nat) (l : list oph_arguments) (m : mem) :
  (length l < fuel)%nat →
  wp (oph_order_args_list fuel l) (λ r _,
    r.1 = OPH_SERVER_OK ∧ r.2 ≡ₚ l ∧ Sorted by_id r.2 ∧
    ∀ i, filter (λ a, id a = i) r.2 = filter (λ a, id a = i) l) m.
Proof.
  intros Hf. destruct l as [|a [|b l]]; [by wp_steps; repeat constructor..|].
  unfold oph_order_args_list. wp_step. destruct fuel as [|n]; [simpl in Hf; lia|].
  destruct (order_loop_sorts n (a :: b :: l) m) as (l' & Hr & ?); [lia|done|].
  unfold wp at 1. rewrite Hr. by wp_steps.
Qed.

Definition sample_lists : list oph_arguments := [Args 3 []; Args 1 [Arg None None]; Args 1 []].

Lemma order_args_list_sorts_witness :
  wp (oph_order_args_list 4 sample_lists) (λ r _, r.2 ≡ₚ sample_lists ∧ Sorted by_id r.2) [] ∧
  oph_order_args_list 4 sample_lists [] = Ok (OPH_SERVER_OK, [Args 1 [Arg None None]; Args 1 []; Args 3 []]) [].
Proof.
  split; [|reflexivity]. eapply wp_mono; [apply order_args_list_sorts; simpl; lia|].
  intros r m (_ & Hp & Hs & _). done.
Defined.

(** ** Queries *)

Lemma after_char_app c s t : has_char c s = false → after_char (s +:+ String c t) c = Some t.
Proof. intros Hs. unfold after_char. by rewrite strchr_app. Qed.

Lemma after_char_some s c t : after_char s c = Some t → ∃ p, s = p +:+ String c t ∧ has_char c p = false.
Proof.
  unfold after_char. destruct (strchr s c) as [r|] eqn:Hr; [|done].
  apply strchr_suffix in Hr as (p & -> & Hp & t' & ->). intros [= ->]. eauto.
Qed.

(** [strndup(p, strlen(p) - strlen(q) - 1)] where [q] follows the first separator. *)
Lemma take_before p c t :
  take_str (String.length (p +:+ String c t) - String.length t - 1) (p +:+ String c t) = p.
Proof.
  rewrite length_app_str. simpl.
  replace (String.length p + S (String.length t) - String.length t - 1)%nat with (String.length p) by lia.
  apply take_str_app.
Qed.

Lemma value_end_some ptr1 ptr2 :
  value_end ptr1 = Some (Some ptr2) → ∃ v, ptr1 = v +:+ String OPH_SEPARATOR_PARAM ptr2.
Proof.
  assert (∀ c, match strchr ptr1 c with
    | None => None
    | Some ptr3 => Some (after_char ptr3 OPH_SEPARATOR_PARAM)
    end = Some (Some ptr2) → ∃ v, ptr1 = v +:+ String OPH_SEPARATOR_PARAM ptr2) as Hfrom.
  { intros c. destruct (strchr ptr1 c) as [ptr3|] eqn:Hc; [|done]. intros [= Ha].
    apply strchr_suffix in Hc as (p & -> & _). apply after_char_some in Ha as (q & -> & _).
    exists (p +:+ q). by rewrite app_str_assoc. }
  unfold value_end. destruct ptr1 as [|c ptr1]; [done|].
  destruct (Ascii.eqb c _); [apply Hfrom|]. destruct (Ascii.eqb c _); [apply Hfrom|].
  intros [= Ha]. apply after_char_some in Ha as (q & Hq & _). eauto.
Qed.

(** The text of the pairs. *)
Definition print_pair (k v : string) : string :=
  k +:+ String OPH_SEPARATOR_KV (v +:+ String OPH_SEPARATOR_PARAM EmptyString).

Fixpoint print_args (l : list (string * string)) : string :=
  match l with
  | [] => EmptyString
  | (k, v) :: l' => print_pair k v +:+ print_args l'
  end.

Definition arg_of (kv : string * string) : oph_argument := Arg (Some kv.1) (Some kv.2).

Lemma print_pair_app k v s :
  print_pair k v +:+ s = k +:+ String OPH_SEPARATOR_KV (v +:+ String OPH_SEPARATOR_PARAM s).
Proof. unfold print_pair. by rewrite app_str_assoc, app_str_cons, app_str_assoc. Qed.

Lemma print_args_length l : (2 * length l ≤ String.length (print_args l))%nat.
Proof.
  induction l as [|[k v] l IH]; simpl; [lia|]. unfold print_pair.
  rewrite !length_app_str. simpl. rewrite length_app_str. simpl. lia.
Qed.

(** Where the parser stops: the code it returns there ([found]: there were pairs). *)
Definition stop_code (found : bool) (rest : string) : option Z :=
  let finish := Some (if found then OPH_SERVER_OK else OPH_SERVER_ERROR) in
  match after_char rest OPH_SEPARATOR_KV with
  | None => finish
  | Some ptr1 =>
      match value_end ptr1 with
      | None => Some OPH_SERVER_ERROR
      | Some None => finish
      | Some (Some _) => None
      end
  end.

Lemma wrap_u32_succ (n : nat) : Z.of_nat n + 1 < 2 ^ 32 → wrap_u32 (Z.of_nat n + 1) = Z.of_nat (S n).
Proof. intros Hn. rewrite wrap_u32_id; lia. Qed.

Lemma query_loop_pairs fuel s (don : list (string * string)) m :
  (String.length s < fuel)%nat → Z.of_nat (length don + String.length s) < 2 ^ 32 → reliable m →
  wp (query_loop fuel s (arg_of <$> don) (Z.of_nat (length don))) (λ r _, ∃ l rest,
    s = print_args l +:+ rest ∧ r.1.2 = arg_of <$> (don ++ l) ∧ r.2 = Z.of_nat (length (don ++ l)) ∧
    stop_code (bool_decide (don ++ l ≠ [])) rest = Some r.1.1) m.
Proof.
  revert s don m. induction fuel as [|fuel IH]; intros s don m Hf Hn Hm; [lia|]. simpl.
  assert (∀ c, stop_code (bool_decide (don ≠ [])) s = Some c →
    ∃ l rest, s = print_args l +:+ rest ∧ arg_of <$> don = arg_of <$> (don ++ l) ∧
      Z.of_nat (length don) = Z.of_nat (length (don ++ l)) ∧ stop_code (bool_decide (don ++ l ≠ [])) rest = Some c) as Hstop.
  { intros c Hc. exists [], s. by rewrite app_nil_r. }
  assert ((if Z.of_nat (length don) =? 0 then OPH_SERVER_ERROR else OPH_SERVER_OK) =
    if bool_decide (don ≠ []) then OPH_SERVER_OK else OPH_SERVER_ERROR) as Hcode by (by destruct don).
  unfold stop_code in Hstop.
  destruct (after_char s OPH_SEPARATOR_KV) as [ptr1|] eqn:Hkv.
  2:{ wp_steps. apply Hstop. by rewrite Hcode. }
  destruct (value_end ptr1) as [[ptr2|]|] eqn:Hv; [|wp_steps; apply Hstop; by rewrite ?Hcode..].
  apply after_char_some in Hkv as (k & -> & _). apply value_end_some in Hv as (v & ->).
  rewrite length_app_str in Hf, Hn. simpl in Hf, Hn. rewrite length_app_str in Hf, Hn. simpl in Hf, Hn.
  wp_step. apply wp_new_argument; [done|]. intros m1 Hm1.
  wp_step. apply wp_strndup; [done|]. intros m2 Hm2. rewrite take_before.
  wp_step. apply wp_strndup; [done|]. intros m3 Hm3. rewrite take_before.
  rewrite wrap_u32_succ by lia.
  specialize (IH ptr2 (don ++ [(k, v)]) m3). rewrite fmap_app, length_app, Nat.add_1_r in IH.
  eapply wp_mono; [apply IH; [lia|simpl; lia|done]|].
  intros r m' (l & rest & -> & Hl). exists ((k, v) :: l), rest. rewrite <-app_assoc in Hl.
  split; [|done]. simpl. by rewrite app_str_assoc, print_pair_app.
Qed.

(** given memory, [oph_parse_query] terminates on every query; the pairs it returns
    are the text of the query up to where it stops, which is where no further
    [key=value;] is found (an error if there is no pair) or a bracket is not closed (an
    error). *)
Theorem parse_query_splits (s : string) (m : mem) :
  Z.of_nat (String.length s) < 2 ^ 32 → reliable m →
  wp (oph_parse_query (Some s)) (λ r _, ∃ l rest,
    s = print_args l +:+ rest ∧ r.1.2 = arg_of <$> l ∧ r.2 = Z.of_nat (length l) ∧
    stop_code (bool_decide (l ≠ [])) rest = Some r.1.1) m.
Proof. intros Hs Hm. apply (query_loop_pairs _ s [] m); [lia|done|done]. Qed.

Lemma parse_query_splits_witness :
  wp (oph_parse_query (Some "a=1;b=[x;y];c=2")) (λ r _, ∃ l rest,
    "a=1;b=[x;y];c=2"%string = print_args l +:+ rest ∧ r.1.2 = arg_of <$> l ∧ r.2 = Z.of_nat (length l) ∧
    stop_code (bool_decide (l ≠ [])) rest = Some r.1.1) [].
Proof. apply parse_query_splits; [reflexivity|apply reliable_nil]. Defined.

(** A value the parser reads back: the first separator after it (after its bracket) is
    the one the printer adds. *)
Definition value_ok (v : string) : bool :=
  let from c := match strchr v c with
                | None => false
                | Some r => negb (has_char OPH_SEPARATOR_PARAM r)
                end in
  match v with
  | String c _ =>
      if Ascii.eqb c OPH_SEPARATOR_SUBPARAM_OPEN then from OPH_SEPARATOR_SUBPARAM_CLOSE
      else if Ascii.eqb c OPH_SEPARATOR_BRACKET_OPEN then from OPH_SEPARATOR_BRACKET_CLOSE
      else negb (has_char OPH_SEPARATOR_PARAM v)
  | EmptyString => true
  end.

Definition pair_ok (kv : string * string) : Prop :=
  has_char OPH_SEPARATOR_KV kv.1 = false ∧ value_ok kv.2 = true ∧ skipped true kv.1 = false ∧
  (String.length kv.1 ≤ OPH_MAX_STRING_SIZE)%nat ∧ (String.length kv.2 ≤ OPH_MAX_STRING_SIZE)%nat.

Lemma value_end_ok v s : value_ok v = true → value_end (v +:+ String OPH_SEPARATOR_PARAM s) = Some (Some s).
Proof.
  assert (∀ c w, match strchr w c with
    | None => false
    | Some r => negb (has_char OPH_SEPARATOR_PARAM r)
    end = true → match strchr (w +:+ String OPH_SEPARATOR_PARAM s) c with
    | None => None
    | Some ptr3 => Some (after_char ptr3 OPH_SEPARATOR_PARAM)
    end = Some (Some s)) as Hfrom.
  { intros c w. destruct (strchr w c) as [r|] eqn:Hr; [|done]. intros Hn%negb_true_iff.
    rewrite (strchr_app_some _ _ _ _ Hr). by rewrite after_char_app. }
  unfold value_ok. destruct v as [|c v]; [done|]. rewrite app_str_cons. unfold value_end.
  destruct (Ascii.eqb c OPH_SEPARATOR_SUBPARAM_OPEN); [apply Hfrom|].
  destruct (Ascii.eqb c OPH_SEPARATOR_BRACKET_OPEN); [apply Hfrom|].
  intros Hn%negb_true_iff. by rewrite <-app_str_cons, after_char_app.
Qed.

Lemma to_string_print l s m :
  Forall pair_ok l → to_string_loop (arg_of <$> l) true s m = Ok (s +:+ print_args l) m.
Proof.
  intros Hl. revert s. induction Hl as [|[k v] l (_ & _ & Hk & Hlk & Hlv) _ IH]; intros s.
  - simpl. by rewrite app_str_nil_r.
  - simpl in *. unfold mbind, C_bind, mret, C_ret. simpl. rewrite Hk, IH, !take_str_ge by done. f_equal.
    by rewrite app_str_assoc.
Qed.

Lemma query_loop_print fuel l (don : list (string * string)) m :
  (length l < fuel)%nat → Z.of_nat (length don + length l) < 2 ^ 32 → reliable m → Forall pair_ok l →
  don ++ l ≠ [] →
  wp (query_loop fuel (print_args l) (arg_of <$> don) (Z.of_nat (length don))) (λ r m',
    reliable m' ∧ r = (OPH_SERVER_OK, arg_of <$> (don ++ l), Z.of_nat (length don + length l))) m.
Proof.
  revert l don m. induction fuel as [|fuel IH]; intros l don m Hf Hn Hm Hl Hne; [lia|].
  destruct Hl as [|[k v] l (Hk & Hv & _) Hl].
  { simpl. wp_steps. rewrite app_nil_r, Nat.add_0_r in *. by destruct don. }
  simpl in *. rewrite print_pair_app, after_char_app, value_end_ok by done.
  wp_step. apply wp_new_argument; [done|]. intros m1 Hm1.
  wp_step. apply wp_strndup; [done|]. intros m2 Hm2. rewrite take_before.
  wp_step. apply wp_strndup; [done|]. intros m3 Hm3. rewrite take_before.
  rewrite wrap_u32_succ by lia.
  specialize (IH l (don ++ [(k, v)]) m3). rewrite fmap_app, length_app, Nat.add_1_r in IH.
  eapply wp_mono; [apply IH; [lia|lia|done|done|by destruct don]|].
  intros r m' [? ->]. split; [done|]. rewrite <-app_assoc. simpl. do 2 f_equal; lia.
Qed.

(** parsing the text [oph_arg_to_string] prints gives the argument list back,
    for keys without [=], values whose separators are within brackets, no longer than
    [OPH_MAX_STRING_SIZE], and none of the keys the printer leaves out. *)
Theorem query_print_parse (l : list (string * string)) (m : mem) :
  l ≠ [] → Forall pair_ok l → Z.of_nat (length l) < 2 ^ 32 → reliable m →
  wp ('(_, s) ← oph_arg_to_string (arg_of <$> l) true; oph_parse_query (Some s)) (λ r _,
    r = (OPH_SERVER_OK, arg_of <$> l, Z.of_nat (length l))) m.
Proof.
  intros Hne Hl Hn Hm. unfold oph_arg_to_string. do 2 wp_step. unfold wp at 1. rewrite to_string_print by done.
  wp_step. rewrite app_str_nil. eapply wp_mono; [apply (query_loop_print _ l [] m); try done; pose proof (print_args_length l); lia|by intros r m' [_ ?]].
Qed.

Definition sample_pairs : list (string * string) := [("operator", "oph_if"); ("query", "[a=1;b]"); ("cube", "")]%string.

Lemma query_print_parse_witness :
  wp ('(_, s) ← oph_arg_to_string (arg_of <$> sample_pairs) true; oph_parse_query (Some s)) (λ r _,
    r = (OPH_SERVER_OK, arg_of <$> sample_pairs, 3)) [].
Proof.
  apply query_print_parse; [done| |reflexivity|apply reliable_nil].
  repeat constructor; try reflexivity; apply Nat.leb_le; reflexivity.
Defined.

(** ** Programs *)

Definition nl (s : string) : string := s +:+ String OPH_SEPARATOR_QUERY EmptyString.

(** The text of the queries, the last one without its newline. *)
Fixpoint program_text (first : string) (more : list string) : string :=
  match more with
  | [] => first
  | l :: more' => first +:+ String OPH_SEPARATOR_QUERY (program_text l more')
  end.

Fixpoint program_lines (ls : list string) : string :=
  match ls with
  | [] => EmptyString
  | l :: ls' => l +:+ String OPH_SEPARATOR_QUERY (program_lines ls')
  end.

Lemma program_text_lines first more : nl (program_text first more) = program_lines (first :: more).
Proof.
  revert first. induction more as [|l more IH]; intros first; [done|].
  unfold nl in *. simpl. rewrite app_str_assoc, app_str_cons. by rewrite IH.
Qed.

Definition line_ok (l : string) : Prop :=
  has_char OPH_SEPARATOR_QUERY l = false ∧ (String.length l < OPH_MAX_STRING_SIZE)%nat.

(** The queries numbered from [n + 1]. *)
Definition numbered (n : nat) (ls : list string) : list oph_argument :=
  imap (λ i l, Arg (Some (print_int (Z.of_nat (S (n + i))))) (Some l)) ls.

Lemma numbered_cons n l ls :
  numbered n (l :: ls) = Arg (Some (print_int (Z.of_nat (S n)))) (Some l) :: numbered (S n) ls.
Proof.
  unfold numbered. simpl. rewrite Nat.add_0_r. f_equal. apply imap_ext. intros i x _. simpl.
  by rewrite Nat.add_succ_r.
Qed.

Lemma truncate_number n : Z.of_nat n < 2 ^ 31 →
  truncate OPH_SHORT_STRING_SIZE (print_int (wrap_i32 (Z.of_nat n))) = print_int (Z.of_nat n).
Proof.
  intros Hn. rewrite wrap_i32_id by (unfold in_i32; lia). unfold truncate.
  apply take_str_ge. etrans; [apply length_print_int; unfold in_i32; lia|].
  apply Nat.leb_le. reflexivity.
Qed.

Lemma program_loop_step fuel l s args (n : nat) m Q :
  line_ok l → Z.of_nat (S n) < 2 ^ 31 → reliable m →
  (∀ m', reliable m' → wp (program_loop fuel s (args ++ [Arg (Some (print_int (Z.of_nat (S n)))) (Some l)]) (Z.of_nat (S n))) Q m') →
  wp (program_loop (S fuel) (l +:+ String OPH_SEPARATOR_QUERY s) args (Z.of_nat n)) Q m.
Proof.
  intros [Hl Hlen] Hn Hm HQ.
  pose proof (after_char_app _ _ s Hl) as Ha. pose proof (take_before l OPH_SEPARATOR_QUERY s) as Ht.
  assert ((OPH_MAX_STRING_SIZE <? String.length (l +:+ String OPH_SEPARATOR_QUERY s) - String.length s)%nat = false) as Hs.
  { apply Nat.ltb_ge. rewrite length_app_str. simpl. lia. }
  destruct (l +:+ String OPH_SEPARATOR_QUERY s) as [|c t]; [done|].
  cbn [program_loop]. rewrite Ha, wrap_u32_succ, Hs, truncate_number by lia.
  wp_step. apply wp_new_argument; [done|]. intros m1 Hm1.
  wp_step. apply wp_strdup; [done|]. intros m2 Hm2.
  wp_step. apply wp_strndup; [done|]. intros m3 Hm3. rewrite Ht. by apply HQ.
Qed.

Lemma program_loop_lines fuel ls args (n : nat) m :
  (length ls < fuel)%nat → Forall line_ok ls → Z.of_nat (n + length ls) < 2 ^ 31 → reliable m → (n + length ls ≠ 0)%nat →
  wp (program_loop fuel (program_lines ls) args (Z.of_nat n)) (λ r _,
    r = (OPH_SERVER_OK, args ++ numbered n ls, Z.of_nat (n + length ls))) m.
Proof.
  intros Hf Hls. revert fuel args n m Hf. induction Hls as [|l ls Hl Hls IH]; intros fuel args n m Hf Hn Hm Hne;
    (destruct fuel as [|fuel]; [simpl in Hf; lia|]).
  - simpl. wp_steps. rewrite app_nil_r, Nat.add_0_r in *. by destruct n.
  - cbn [program_lines]. simpl in Hf, Hn. apply program_loop_step; [done|lia|done|]. intros m' Hm'.
    eapply wp_mono; [apply IH; [lia|lia|done|lia]|].
    intros r m'' ->. rewrite numbered_cons, <-app_assoc. simpl. do 2 f_equal. lia.
Qed.

(** A query that is too long ends the parsing; what was parsed is released. *)
Lemma program_loop_long fuel ls l s args (n : nat) m :
  (length ls < fuel)%nat → Forall line_ok ls → Z.of_nat (n + length ls) < 2 ^ 31 → reliable m →
  has_char OPH_SEPARATOR_QUERY l = false → (OPH_MAX_STRING_SIZE ≤ String.length l)%nat →
  wp (program_loop fuel (program_lines ls +:+ l +:+ String OPH_SEPARATOR_QUERY s) args (Z.of_nat n)) (λ r _,
    r.1 = (OPH_SERVER_ERROR, [])) m.
Proof.
  intros Hf Hls. revert fuel args n m Hf. induction Hls as [|l0 ls Hl0 Hls IH]; intros fuel args n m Hf Hn Hm Hl Hlen;
    (destruct fuel as [|fuel]; [simpl in Hf; lia|]).
  - rewrite app_str_nil. pose proof (after_char_app _ _ s Hl) as Ha.
    assert ((OPH_MAX_STRING_SIZE <? String.length (l +:+ String OPH_SEPARATOR_QUERY s) - String.length s)%nat = true) as Hs.
    { apply Nat.ltb_lt. rewrite length_app_str. simpl. lia. }
    destruct (l +:+ String OPH_SEPARATOR_QUERY s) as [|c t]; [done|].
    cbn [program_loop]. rewrite Ha, Hs. by wp_step.
  - cbn [program_lines]. rewrite app_str_assoc, app_str_cons. simpl in Hf, Hn.
    apply program_loop_step; [done|lia|done|]. intros m' Hm'. apply IH; [lia|lia|done|done|done].
Qed.

Lemma program_lines_length ls : (length ls ≤ String.length (program_lines ls))%nat.
Proof. induction ls as [|l ls IH]; simpl; [lia|]. rewrite length_app_str. simpl. lia. Qed.

Lemma truncate_id n s : Z.of_nat (String.length s) < n → truncate (Z.to_nat n) s = s.
Proof. intros Hs. apply take_str_ge. lia. Qed.

#[local] Opaque OPH_MAX_PROGRAM_SIZE.

Lemma program_lines_app ls l ls' :
  program_lines (ls ++ l :: ls') = program_lines ls +:+ l +:+ String OPH_SEPARATOR_QUERY (program_lines ls').
Proof.
  induction ls as [|x ls IH]; [done|]. simpl. by rewrite IH, app_str_assoc, app_str_cons.
Qed.

Lemma first_long (ls : list string) :
  ¬ Forall (λ l, (String.length l < OPH_MAX_STRING_SIZE)%nat) ls →
  ∃ ls1 l ls2, ls = ls1 ++ l :: ls2 ∧ Forall (λ l, (String.length l < OPH_MAX_STRING_SIZE)%nat) ls1 ∧
    (OPH_MAX_STRING_SIZE ≤ String.length l)%nat.
Proof.
  induction ls as [|x ls IH]; intros Hn; [by destruct Hn|].
  destruct (decide (String.length x < OPH_MAX_STRING_SIZE)%nat) as [Hx|Hx].
  - destruct IH as (ls1 & l & ls2 & -> & H1 & H2); [by intros ?; apply Hn; constructor|].
    exists (x :: ls1), l, ls2. split_and!; [done|by constructor|done].
  - exists [], x, ls. split_and!; [done..|lia].
Qed.

(** given memory, a program that fits the buffer is cut into its lines,
    numbered from 1, when every line is shorter than [OPH_MAX_STRING_SIZE]; the first
    longer line makes the whole program fail with no query left. *)
Theorem parse_program_lines (first : string) (more : list string) (m : mem) :
  Z.of_nat (String.length (program_text first more)) < OPH_MAX_PROGRAM_SIZE - 1 →
  Forall (λ l, has_char OPH_SEPARATOR_QUERY l = false) (first :: more) → reliable m →
  wp (oph_parse_program (Some (program_text first more))) (λ r _,
    if decide (Forall (λ l, (String.length l < OPH_MAX_STRING_SIZE)%nat) (first :: more))
    then r = (OPH_SERVER_OK, numbered 0 (first :: more), Z.of_nat (S (length more)))
    else r.1 = (OPH_SERVER_ERROR, [])) m.
Proof.
  intros Hlen Hnl Hm. unfold oph_parse_program. fold (nl (program_text first more)).
  assert (Z.of_nat (String.length (program_lines (first :: more))) < OPH_MAX_PROGRAM_SIZE) as Hl.
  { rewrite <-program_text_lines. unfold nl. rewrite length_app_str. simpl. lia. }
  rewrite program_text_lines, truncate_id by done. pose proof (program_lines_length (first :: more)) as Hls.
  assert (OPH_MAX_PROGRAM_SIZE < 2 ^ 31) as Hmax by done. case_decide as Hd.
  - apply (program_loop_lines _ (first :: more) [] 0); [lia| |lia|done|done].
    apply Forall_and. done.
  - destruct (first_long (first :: more)) as (ls1 & l & ls2 & He & Hls1 & Hl2); [done|]. rewrite He in *.
    apply Forall_app in Hnl as [Hnl1 [Hnl2 _]%Forall_cons].
    rewrite length_app in Hls. rewrite program_lines_app in Hls, Hl |- *.
    apply (program_loop_long _ ls1 l _ [] 0); [lia|by apply Forall_and|lia|done|done|done].
Qed.

Lemma parse_program_lines_witness :
  wp (oph_parse_program (Some (program_text "a=1;" ["b=2;"]))) (λ r _,
    r = (OPH_SERVER_OK, [Arg (Some "1") (Some "a=1;"); Arg (Some "2") (Some "b=2;")], 2)) [].
Proof.
  eapply wp_mono; [apply parse_program_lines; [reflexivity|by repeat constructor|apply reliable_nil]|].
  intros r m. cbv beta. rewrite decide_True by (repeat constructor; apply Nat.ltb_lt; reflexivity). intros ->. reflexivity.
Defined.
End ArgParser.
