(* ===== verification/TaskParser.v ===== *)
(** * The task parser ([src/src/oph_task_parser_library.c])

    A task string is a sequence [key=value;...].  [oph_tp_validate_task_string] checks its
    form, [oph_tp_find_param_in_task_string] looks a key up, and
    [oph_tp_validate_task_string_param] checks the value against the XML description of the
    operator: a mandatory argument, the bounds of a number, the set of values.
    [oph_tp_task_params_parser] does this for every argument of the description and fills a hash
    table; [oph_check_operator] of [src/src/oph_execute_main.c] uses the checker of one argument
    for the resources and the permission of an operator.

    The library libxml2 is a parameter: what a file contains is the root element of its valid
    document, or nothing.  A folder is the list of its entries. *)

From Stdlib Require Ascii.
From stdpp Require Import base gmap strings numbers pretty list.
From S2P Require Import Prelude CString CDouble HashTbl Auth ArgParser.
Import (notations) Stdlib.Strings.Ascii.
Import HashTbl.

Module TaskParser.

#[local] Open Scope Z_scope.
#[local] Open Scope cstr_scope.

Definition OPH_TP_TASK_PARSER_SUCCESS : Z := 0.
Definition OPH_TP_TASK_PARSER_ERROR : Z := 1.
Definition OPH_TP_TASK_SYSTEM_ERROR : Z := 2.
Definition OPH_TP_BUFLEN : nat := 4096.
Definition OPH_TP_TASKLEN : nat := 4096.
Definition OPH_TP_PARAM_VALUE_SEPARATOR : ascii := "=".
Definition OPH_TP_PARAM_PARAM_SEPARATOR : ascii := ";".
Definition OPH_TP_MULTI_VALUE_SEPARATOR : ascii := "|".
Definition OPH_TP_SKIP_SEPARATOR : ascii := "000".

(** ** The form of a task string *)

Record tp_state : Type := State {
  last_char : ascii;
  previous_char : ascii;
  first_flag : bool;
  skip_flag : bool;
  skip_check : bool;
}.

(** [previous_char] is one of the separators. *)
Definition after_separator (c : ascii) : bool :=
  (c =c OPH_TP_PARAM_VALUE_SEPARATOR) || (c =c OPH_TP_MULTI_VALUE_SEPARATOR) || (c =c OPH_TP_PARAM_PARAM_SEPARATOR).

(** The [switch]: the new [last_char], [first_flag] and [skip_flag], or an error. *)
Definition switch_char (st : tp_state) (c : ascii) : option (ascii * bool * bool) :=
  if c =c OPH_TP_SKIP_SEPARATOR then
    if negb (previous_char st =c OPH_TP_PARAM_VALUE_SEPARATOR) then None else Some (last_char st, first_flag st, true)
  else if c =c OPH_TP_PARAM_VALUE_SEPARATOR then
    if (negb (last_char st =c OPH_TP_PARAM_PARAM_SEPARATOR) && negb (last_char st =c OPH_TP_PARAM_VALUE_SEPARATOR))
       || after_separator (previous_char st) then None
    else Some (OPH_TP_PARAM_VALUE_SEPARATOR, false, false)
  else if (c =c OPH_TP_PARAM_PARAM_SEPARATOR) || (c =c OPH_TP_MULTI_VALUE_SEPARATOR) then
    if first_flag st then None
    else if (last_char st =c OPH_TP_PARAM_PARAM_SEPARATOR) || after_separator (previous_char st) then None
    else Some (c, first_flag st, false)
  else Some (last_char st, first_flag st, false).

Definition tp_step (st : tp_state) (c : ascii) : option tp_state :=
  if skip_flag st then
    if c =c OPH_TP_SKIP_SEPARATOR then Some (State (last_char st) (previous_char st) (first_flag st) false true) else Some st
  else if skip_check st && negb (c =c OPH_TP_PARAM_PARAM_SEPARATOR) then None
  else
    '(last, first, skip) ← switch_char st c;
    Some (State last c first skip false).

Fixpoint tp_steps (st : tp_state) (s : string) : option tp_state :=
  match s with
  | EmptyString => Some st
  | String c s' => st' ← tp_step st c; tp_steps st' s'
  end.

Definition initial : tp_state := State OPH_TP_PARAM_PARAM_SEPARATOR "000" true false false.

Definition oph_tp_validate_task_string (task_string : cstr) : Z :=
  match task_string with
  | None => OPH_TP_TASK_SYSTEM_ERROR
  | Some s =>
      match tp_steps initial s with
      | None => OPH_TP_TASK_PARSER_ERROR
      | Some st => if skip_flag st || skip_check st then OPH_TP_TASK_PARSER_ERROR else OPH_TP_TASK_PARSER_SUCCESS
      end
  end.

(** ** Looking a key up *)

(** [strncpy(value, start, n); value[n] = 0] in a buffer of [cap] characters, where [n] is the
    distance of two pointers. *)
Definition copy_between (cap : nat) (start stop : string) : C string :=
  assertC (bool_decide (String.length stop ≤ String.length start)%nat);;
  let n := (String.length start - String.length stop)%nat in
  assertC (bool_decide (n < cap)%nat);;
  mret (take_str n start).

(** The pointers behind the first [=] and at the next [;]; the pointer behind an empty value is
    moved behind the terminator. *)
Definition copy_value (cap : nat) (ptr_equal ptr_end : string) : C string :=
  match ptr_equal with
  | String _ EmptyString => undef
  | String _ start_char => copy_between cap start_char ptr_end
  | EmptyString => undef
  end.

(** The loop; [begin] is [ptr_begin]. *)
Fixpoint find_loop (fuel : nat) (cap : nat) (param begin : string) : C (Z * cstr) :=
  match fuel with
  | O => out_of_fuel
  | S fuel =>
      match strchr begin OPH_TP_PARAM_PARAM_SEPARATOR with
      | None => mret (OPH_TP_TASK_PARSER_ERROR, None)
      | Some ptr_end =>
          match strchr begin OPH_TP_PARAM_VALUE_SEPARATOR with
          | None => mret (OPH_TP_TASK_SYSTEM_ERROR, None)
          | Some ptr_equal =>
              if strncmp0 begin param (String.length begin - String.length ptr_equal) && strncmp0 begin param (String.length param)
              then v ← copy_value cap ptr_equal ptr_end; mret (OPH_TP_TASK_PARSER_SUCCESS, Some v)
              else match ptr_end with
                   | String _ rest => find_loop fuel cap param rest
                   | EmptyString => undef
                   end
          end
      end
  end.

(** [cap] is the size of the buffer [value]. *)
Definition oph_tp_find_param_in_task_string (cap : nat) (task_string param : cstr) : C (Z * cstr) :=
  match task_string, param with
  | Some s, Some p => find_loop (S (String.length s)) cap p s
  | _, _ => mret (OPH_TP_TASK_SYSTEM_ERROR, None)
  end.

(** ** A value in the list of the description *)

Fixpoint match_loop (fuel : nat) (value begin : string) : C Z :=
  match fuel with
  | O => out_of_fuel
  | S fuel =>
      match strchr begin OPH_TP_MULTI_VALUE_SEPARATOR with
      | Some ptr_end =>
          if strncmp0 begin value (String.length begin - String.length ptr_end) && strncmp0 begin value (String.length value)
          then mret OPH_TP_TASK_PARSER_SUCCESS
          else match ptr_end with
               | String _ rest => match_loop fuel value rest
               | EmptyString => undef
               end
      | None =>
          mret (if strncmp0 begin value (String.length begin) && strncmp0 begin value (String.length value)
                then OPH_TP_TASK_PARSER_SUCCESS else OPH_TP_TASK_PARSER_ERROR)
      end
  end.

Definition oph_tp_match_value_in_xml_value_list (value values : cstr) : C Z :=
  match value, values with
  | Some v, Some vs => match_loop (S (String.length vs)) v vs
  | _, _ => mret OPH_TP_TASK_SYSTEM_ERROR
  end.

(** ** Multiple values *)

Definition value_separator (c : ascii) : bool := (c =c OPH_TP_PARAM_VALUE_SEPARATOR) || (c =c OPH_TP_PARAM_PARAM_SEPARATOR).

(** The number of values and the longest one with its separator. *)
Fixpoint count_params (s : string) (param_num msize csize : nat) : nat * nat :=
  match s with
  | EmptyString => (param_num, if (msize <? csize)%nat then csize else msize)
  | String c s' =>
      if c =c OPH_TP_MULTI_VALUE_SEPARATOR
      then count_params s' (S param_num) (if (msize <? S csize)%nat then S csize else msize) 0
      else count_params s' param_num msize (S csize)
  end.

(** The loop over the values: [oks] are the buffers that were allocated, [1 + msize]
    characters each. *)
Fixpoint split_values (fuel : nat) (msize : nat) (oks : list bool) (begin : string) (acc : list string) : C (list string) :=
  match fuel with
  | O => out_of_fuel
  | S fuel =>
      ok ← deref (oks !! length acc);
      assertC ok;;
      match strchr begin OPH_TP_MULTI_VALUE_SEPARATOR with
      | Some ptr_end =>
          v ← copy_between (1 + msize) begin ptr_end;
          match ptr_end with
          | String _ rest => split_values fuel msize oks rest (acc ++ [v])
          | EmptyString => undef
          end
      | None => v ← copy_between (1 + msize) begin EmptyString; mret (acc ++ [v])
      end
  end.

Definition oph_tp_parse_multiple_value_param (values : cstr) : C (Z * option (list string) * nat) :=
  match values with
  | None => mret (OPH_TP_TASK_SYSTEM_ERROR, None, 0%nat)
  | Some EmptyString => mret (OPH_TP_TASK_PARSER_SUCCESS, None, 0%nat)
  | Some s =>
      if negb (none_of value_separator s) then mret (OPH_TP_TASK_PARSER_ERROR, None, 0%nat) else
      let '(param_num, msize) := count_params s 1 0 0 in
      ok ← malloc;
      if negb ok then mret (OPH_TP_TASK_SYSTEM_ERROR, None, 0%nat) else
      oks ← mapC (λ _, malloc) (seq 0 param_num);
      l ← split_values (S (String.length s)) msize oks s [];
      mret (OPH_TP_TASK_PARSER_SUCCESS, Some l, param_num)
  end.

(** ** The XML description *)

(** An element: its name, the content of its first child, its attributes, its children; text nodes
    are no elements. *)
Inductive xml_node : Type := Xml {
  element : bool;
  node_name : string;
  content : cstr;
  attributes : list (string * string);
  children : list xml_node;
}.

(** [xmlGetProp] *)
Fixpoint property (l : list (string * string)) (key : string) : cstr :=
  match l with
  | [] => None
  | (k, v) :: l' => if bool_decide (k = key) then Some v else property l' key
  end.
Definition xmlGetProp (n : xml_node) (key : string) : cstr := property (attributes n) key.

(** ** Checking a value *)

(** [sprintf] or [strncpy] with a terminator in a buffer of [cap] characters. *)
Definition write_text (cap : nat) (s : string) : C string :=
  assertC (bool_decide (String.length s < cap)%nat);; mret s.

Definition to_int (s : string) : Z := wrap_i32 (strtol s).

(** The bounds of an integer: an error, or the text, replaced if there is only one value. *)
Definition check_int (cap : nat) (n : xml_node) (v : string) : C (option string) :=
  match xmlGetProp n "minvalue", xmlGetProp n "maxvalue" with
  | Some lo, Some hi =>
      if to_int lo =? to_int hi then Some <$> write_text cap (print_int (to_int lo))
      else mret (if (to_int v <? to_int lo) || (to_int hi <? to_int v) then None else Some v)
  | Some lo, None => mret (if to_int v <? to_int lo then None else Some v)
  | None, Some hi => mret (if to_int hi <? to_int v then None else Some v)
  | None, None => mret (Some v)
  end.

(** The bounds of a real number, of which only the integral part is compared. *)
Definition check_double (cap : nat) (n : xml_node) (v : string) : C (option string) :=
  z ← CDouble.int_of_double (CDouble.strtod v);
  let d := CDouble.double_of_int z in
  match xmlGetProp n "minvalue", xmlGetProp n "maxvalue" with
  | Some lo, Some hi =>
      let lo := CDouble.strtod lo in
      let hi := CDouble.strtod hi in
      if SpecFloat.SFeqb lo hi then Some <$> write_text cap (CDouble.print_f lo)
      else mret (if SpecFloat.SFltb d lo || SpecFloat.SFltb hi d then None else Some v)
  | Some lo, None => mret (if SpecFloat.SFltb d (CDouble.strtod lo) then None else Some v)
  | None, Some hi => mret (if SpecFloat.SFltb (CDouble.strtod hi) d then None else Some v)
  | None, None => mret (Some v)
  end.

Definition check_bounds (cap : nat) (n : xml_node) (ty v : string) : C (option string) :=
  if bool_decide (ty = "int"%string) then check_int cap n v
  else if bool_decide (ty = "double"%string) then check_double cap n v
  else mret (Some v).

Definition check_values (n : xml_node) (v : string) : C bool :=
  match xmlGetProp n "values" with
  | None => mret true
  | Some vs => rc ← oph_tp_match_value_in_xml_value_list (Some v) (Some vs); mret (rc =? 0)
  end.

(** A parameter that is not in the string. *)
Definition default_value (cap : nat) (n : xml_node) (value : cstr) : C (Z * cstr) :=
  match xmlGetProp n "mandatory" with
  | Some mandatory =>
      if negb (bool_decide (mandatory = "no"%string)) then mret (OPH_TP_TASK_PARSER_ERROR, value) else
      match xmlGetProp n "default" with
      | Some d => v ← write_text cap d; mret (OPH_TP_TASK_PARSER_SUCCESS, Some v)
      | None => mret (OPH_TP_TASK_PARSER_ERROR, value)
      end
  | None => mret (OPH_TP_TASK_PARSER_ERROR, value)
  end.

(** [value] is what the buffer of [cap] characters holds, nothing if it was not written yet; the
    copy of the task string is the buffer for the value. *)
Definition oph_tp_validate_task_string_param (task_string : string) (n : xml_node) (param : string) (cap : nat) (value : cstr) :
    C (Z * cstr) :=
  ok ← malloc;
  if negb ok then mret (OPH_TP_TASK_PARSER_ERROR, value) else
  let tmp_cap := S (String.length task_string) in
  '(rc, tmp) ← oph_tp_find_param_in_task_string tmp_cap (Some task_string) (Some param);
  match (if rc =? 0 then tmp else None) with
  | None => default_value cap n value
  | Some tmp =>
      match xmlGetProp n "type" with
      | None => mret (OPH_TP_TASK_PARSER_SUCCESS, value)
      | Some ty =>
          r ← check_bounds tmp_cap n ty tmp;
          match r with
          | None => mret (OPH_TP_TASK_PARSER_ERROR, value)
          | Some tmp =>
              found ← check_values n tmp;
              if negb found then mret (OPH_TP_TASK_PARSER_ERROR, value) else
              v ← write_text cap tmp;
              mret (OPH_TP_TASK_PARSER_SUCCESS, Some v)
          end
      end
  end.

(** ** The file of an operator *)

(** An entry of a folder; [regular] tells whether it is a file or a link. *)
Record dirent : Type := Entry {
  d_name : string;
  regular : bool;
}.

(** [strcasestr(s, pat) != NULL] *)
Fixpoint contains_nocase (pat s : string) : bool :=
  strncasecmp0 s pat (String.length pat) || match s with String _ s' => contains_nocase pat s' | EmptyString => false end.

Definition skip_one (s : string) : string := match s with String _ s' => s' | EmptyString => EmptyString end.

(** The fields of a version: the texts between the last underscore and the last dot [ptr2]; one
    round moves [ptr1] and [ptr3] to the next dots.  Pointers into the name are compared by what
    follows them. *)
Fixpoint version_fields (fuel : nat) (ptr1 ptr3 ptr2 : string) (acc : list string) : C (option (list string)) :=
  match fuel with
  | O => out_of_fuel
  | S fuel =>
      let acc := acc ++ [take_str (String.length ptr1 - String.length ptr3 - 1) (skip_one ptr1)] in
      if bool_decide (ptr2 = ptr3) then mret (Some acc) else
      ptr1 ← deref (strchr (skip_one ptr1) ".");
      match strchr (skip_one ptr1) "." with
      | None => mret None
      | Some ptr3 => version_fields fuel ptr1 ptr3 ptr2 acc
      end
  end.

(** What a name that matches the pattern gives: nothing if it is another operator, its fields
    and its extension otherwise; an error ends the search. *)
Definition candidate (pattern nm : string) : C (option (option (list string * string))) :=
  match strrchr nm "_", strrchr nm "." with
  | Some ptr1, Some ptr2 =>
      if negb (strcasecmp0 pattern (take_str (String.length nm - String.length ptr1 + 1) nm)) then mret (Some None) else
      ptr3 ← deref (strchr (skip_one ptr1) ".");
      fs ← version_fields (S (String.length nm)) ptr1 ptr3 ptr2 [];
      mret (match fs with None => None | Some fs => Some (Some (fs, skip_one ptr2)) end)
  | _, _ => mret None
  end.

Definition longest (fs : list string) : nat := foldr (λ f n, (String.length f `max` n)%nat) 0%nat fs.

(** [count], [maxlen] and [maxversionlen] of the candidates up to the first one that is an XML
    file. *)
Record survey : Type := Survey {
  s_count : nat;
  s_maxlen : nat;
  s_maxversionlen : nat;
}.

Definition is_xml (ext : string) : bool := strncasecmp0 ext "xml" 3 && strncasecmp0 ext "xml" (String.length ext).

Definition survey_entry (pattern : string) (sv : survey) (e : dirent) : C (ctl survey (option survey)) :=
  if negb (regular e) || negb (contains_nocase pattern (d_name e)) then mret (Next sv) else
  c ← candidate pattern (d_name e);
  match c with
  | None => mret (Break None)
  | Some None => mret (Next sv)
  | Some (Some (fs, ext)) =>
      let sv := Survey (S (s_count sv)) (s_maxlen sv `max` longest fs) (s_maxversionlen sv `max` length fs) in
      mret (if is_xml ext then Break (Some sv) else Next sv)
  end.

(** A field as ["%0<maxlen>d"] prints it, cut at [maxlen] characters. *)
Definition pad (maxlen : nat) (z : Z) : string :=
  let s := print_int (Z.abs z) in
  let sign := if z <? 0 then "-"%string else EmptyString in
  take_str maxlen (sign +:+ CDouble.zeros (maxlen - String.length sign - String.length s) +:+ s).

Definition field_text (sv : survey) (f : string) : C string :=
  assertC (bool_decide (String.length f ≤ s_maxlen sv)%nat);; mret (pad (s_maxlen sv) (to_int f)).

(** A version as a text that can be compared: missing fields count as 0. *)
Definition version_text (sv : survey) (fs : list string) : C string :=
  ts ← mapC (field_text sv) (take (s_maxversionlen sv) fs);
  let ts := ts ++ replicate (s_maxversionlen sv - length ts) (pad (s_maxlen sv) 0) in
  mret (foldr String.append EmptyString ts).

(** The second pass, over as many candidates as were counted. *)
Definition collect_entry (pattern : string) (sv : survey) (vs : list (string * string)) (e : dirent) :
    C (ctl (list (string * string)) (option (list (string * string)))) :=
  if negb (regular e) || negb (contains_nocase pattern (d_name e)) then mret (Next vs) else
  c ← candidate pattern (d_name e);
  match c with
  | None => mret (Break None)
  | Some None => mret (Next vs)
  | Some (Some (fs, _)) =>
      v ← version_text sv fs;
      let vs := vs ++ [(v, d_name e)] in
      mret (if (length vs =? s_count sv)%nat then Break (Some vs) else Next vs)
  end.

(** [strcmp(a, b) > 0] *)
Fixpoint str_gt (a b : string) : bool :=
  match a, b with
  | EmptyString, _ => false
  | String _ _, EmptyString => true
  | String x a', String y b' =>
      (Ascii.N_of_ascii y <? Ascii.N_of_ascii x)%N || ((x =c y) && str_gt a' b')
  end.

Definition latest (best v : string * string) : string * string := if str_gt v.1 best.1 then v else best.

(** Buffers, with their checks. *)
Fixpoint allocate (n : nat) : C bool :=
  match n with
  | O => mret true
  | S n => ok ← malloc; if ok : bool then allocate n else mret false
  end.

Definition oph_tp_retrieve_function_xml_file (function_name : string) (function_version : cstr) (folder : option (list dirent)) :
    C (Z * cstr) :=
  match folder, function_version with
  | None, _ => mret (OPH_TP_TASK_SYSTEM_ERROR, None)
  | Some dir, Some version =>
      let nm := truncate OPH_TP_BUFLEN (function_name +:+ "_operator_" +:+ version +:+ ".xml") in
      mret (match List.find (λ e, regular e && strcasecmp0 nm (d_name e)) dir with
            | Some e => (OPH_TP_TASK_PARSER_SUCCESS, Some (truncate OPH_TP_BUFLEN (d_name e)))
            | None => (OPH_TP_TASK_SYSTEM_ERROR, None)
            end)
  | Some dir, None =>
      let pattern := truncate OPH_TP_BUFLEN (function_name +:+ "_operator_") in
      r ← loopC (survey_entry pattern) (Survey 0 0 0) dir;
      match r with
      | Next _ | Break None => mret (OPH_TP_TASK_SYSTEM_ERROR, None)
      | Break (Some sv) =>
          ok ← malloc;
          if negb ok then mret (OPH_TP_TASK_SYSTEM_ERROR, None) else
          ok ← allocate (S (s_count sv));
          if negb ok then mret (OPH_TP_TASK_SYSTEM_ERROR, None) else
          ok ← allocate (S (s_count sv));
          if negb ok then mret (OPH_TP_TASK_SYSTEM_ERROR, None) else
          r ← loopC (collect_entry pattern sv) [] dir;
          match r with
          | Break (Some (v :: vs)) => mret (OPH_TP_TASK_PARSER_SUCCESS, Some (truncate OPH_TP_BUFLEN (foldl latest v vs).2))
          | Break None => mret (OPH_TP_TASK_SYSTEM_ERROR, None)
          | _ => undef
          end
      end
  end.

(** ** All arguments of an operator *)

Section description.
Context (read_root : string → option xml_node).
Context (folder : string → option (list dirent)) (oph_server_location oph_xml_operator_dir : string).

(** The name in upper case; a longer one has no terminator. *)
Definition upper_name (operator : string) : C string :=
  assertC (bool_decide (String.length operator < OPH_TP_TASKLEN)%nat);; mret (string_map toupper operator).

(** The root element of the description in [dir]; each failure is a system error. *)
Definition description (dir operator : string) (path_of : string → string) : C (option xml_node) :=
  nm ← upper_name operator;
  '(rc, filename) ← oph_tp_retrieve_function_xml_file nm None (folder dir);
  match (if rc =? 0 then filename else None) with
  | None => mret None
  | Some filename => mret (read_root (truncate OPH_TP_BUFLEN (path_of filename)))
  end.

Definition child_named (nm : string) (n : xml_node) : option xml_node :=
  List.find (λ c, bool_decide (node_name c = nm)) (children n).

(** One argument: the value, and with [allownot] the value of the negated key. *)
Definition parse_argument (task_string : string) (tbl : HASHTBL string) (n : xml_node) : C (ctl (HASHTBL string) (HASHTBL string)) :=
  if negb (bool_decide (node_name n = "argument"%string)) then mret (Next tbl) else
  match content n with
  | None => mret (Next tbl)
  | Some key =>
      let cap := (String.length task_string + 10)%nat in
      ok ← malloc;
      if negb ok then mret (Break tbl) else
      '(rc, value) ← oph_tp_validate_task_string_param task_string n key cap None;
      if negb (rc =? 0) then mret (Break tbl) else
      v ← deref value;
      '(_, tbl) ← hashtbl_insert tbl key v;
      if negb (bool_decide (xmlGetProp n "allownot" = Some "yes"%string)) then mret (Next tbl) else
      let key1 := truncate OPH_TP_TASKLEN (key +:+ "!") in
      '(rc, value) ← oph_tp_validate_task_string_param task_string n key1 cap value;
      if negb (rc =? 0) then mret (Break tbl) else
      v ← deref value;
      '(_, tbl) ← hashtbl_insert tbl key1 v;
      mret (Next tbl)
  end.

(** The section of the arguments; the result has the table also in case of error. *)
Definition parse_arguments (task_string : string) (args : xml_node) : C (Z * option (HASHTBL string)) :=
  tbl ← hashtbl_create (S (length (List.filter element (children args)))) None;
  match tbl with
  | None => mret (OPH_TP_TASK_SYSTEM_ERROR, None)
  | Some tbl =>
      r ← loopC (parse_argument task_string) tbl (children args);
      mret (match r with
            | Next tbl => (OPH_TP_TASK_PARSER_SUCCESS, Some tbl)
            | Break tbl => (OPH_TP_TASK_PARSER_ERROR, Some tbl)
            end)
  end.

Definition oph_tp_task_params_parser (operator task_string : cstr) (hashtbl : option (HASHTBL string)) :
    C (Z * option (HASHTBL string)) :=
  match operator, task_string with
  | None, _ => mret (OPH_TP_TASK_SYSTEM_ERROR, hashtbl)
  | Some _, None | Some _, Some EmptyString => mret (OPH_TP_TASK_PARSER_SUCCESS, hashtbl)
  | Some operator, Some s =>
      if negb (oph_tp_validate_task_string (Some s) =? 0) then mret (OPH_TP_TASK_PARSER_ERROR, hashtbl) else
      let dir := truncate OPH_TP_BUFLEN (oph_server_location +:+ "/etc/operators_xml") in
      root ← description dir operator (λ f, oph_server_location +:+ "/etc/operators_xml/" +:+ f);
      match root with
      | None => mret (OPH_TP_TASK_SYSTEM_ERROR, hashtbl)
      | Some root =>
          match child_named "args" root with
          | None => mret (OPH_TP_TASK_PARSER_SUCCESS, hashtbl)
          | Some args => parse_arguments s args
          end
      end
  end.

(** ** One argument and the permission *)

(** The argument with the key; its value starts as a copy of the whole task string. *)
Definition check_named_argument (task_string key : string) (n : xml_node) : C (ctl unit (option string)) :=
  if negb (bool_decide (node_name n = "argument"%string)) then mret (Next ()) else
  match content n with
  | None => mret (Next ())
  | Some c =>
      if negb (strncmp0 c key OPH_TP_TASKLEN) then mret (Next ()) else
      ok ← malloc;
      if negb ok then mret (Break None) else
      '(rc, value1) ← oph_tp_validate_task_string_param task_string n c (S (String.length task_string)) (Some task_string);
      mret (Break (if rc =? 0 then value1 else None))
  end.

(** The content of the permission; [role] stays if there is none. *)
Definition permission (root : xml_node) (role : string) : string :=
  match child_named "info" root ≫= child_named "permission" with
  | Some n => default role (content n)
  | None => role
  end.

(** The buffers [value] and [role] of the caller have [size] characters. *)
Definition oph_tp_task_param_checker_and_role (size : nat) (operator task_string key : cstr) (value : string) (role : cstr) :
    C (Z * string * cstr) :=
  match operator, task_string, key with
  | Some operator, Some s, Some key =>
      if negb (oph_tp_validate_task_string (Some s) =? 0) then mret (OPH_TP_TASK_PARSER_ERROR, value, role) else
      root ← description oph_xml_operator_dir operator (λ f, oph_xml_operator_dir +:+ "/" +:+ f);
      match root with
      | None => mret (OPH_TP_TASK_SYSTEM_ERROR, value, role)
      | Some root =>
          r ← (match child_named "args" root with
               | None => mret (Next ())
               | Some args => loopC (λ _, check_named_argument s key) () (children args)
               end);
          match r with
          | Break None => mret (OPH_TP_TASK_PARSER_ERROR, value, role)
          | Next _ | Break (Some _) =>
              value ← (match r with Break (Some v) => write_text size v | _ => mret value end);
              role ← (match role with
                      | None => mret None
                      | Some role => Some <$> write_text size (permission root role)
                      end);
              mret (OPH_TP_TASK_PARSER_SUCCESS, value, role)
          end
      end
  | _, _, _ => mret (OPH_TP_TASK_SYSTEM_ERROR, value, role)
  end.

Definition oph_tp_task_param_checker (size : nat) (operator task_string key : cstr) (value : string) : C (Z * string) :=
  '(rc, value, _) ← oph_tp_task_param_checker_and_role size operator task_string key value None;
  mret (rc, value).

(** *** Resources and permission of an operator ([oph_execute_main.c]) *)

Definition OPH_MAX_STRING_SIZE : nat := 4096.
Definition OPH_SERVER_OK : Z := 0.
Definition OPH_SERVER_WRONG_PARAMETER_ERROR : Z := 7.
Definition OPH_DEFAULT_CORES : Z := 1.
Definition OPH_DEFAULT_HOSTS : Z := 0.

(** The value the description leaves of a number. *)
Definition effective (key : string) (operator : cstr) (z dflt : Z) (role : string) : C (option (Z * string)) :=
  let task_string := truncate OPH_MAX_STRING_SIZE (key +:+ "=" +:+ print_int z +:+ ";") in
  '(rc, value, role) ← oph_tp_task_param_checker_and_role OPH_MAX_STRING_SIZE operator (Some task_string) (Some key) EmptyString (Some role);
  role ← deref role;
  mret (if rc =? OPH_TP_TASK_SYSTEM_ERROR then None
        else Some (if bool_decide (value = EmptyString) then dflt else to_int value, role)).

(** The result code, the numbers of cores and hosts, and the role. *)
Definition oph_check_operator (operator : cstr) (ncores nhosts role : Z) : C (Z * Z * Z * Z) :=
  r ← effective "ncores" operator ncores OPH_DEFAULT_CORES EmptyString;
  match r with
  | None => mret (OPH_SERVER_WRONG_PARAMETER_ERROR, ncores, nhosts, role)
  | Some (ncores, op_role) =>
      r ← effective "nhost" operator nhosts OPH_DEFAULT_HOSTS op_role;
      match r with
      | None => mret (OPH_SERVER_WRONG_PARAMETER_ERROR, ncores, nhosts, role)
      | Some (nhosts, op_role) =>
          let code := Auth.oph_code_role (Some op_role) in
          mret (OPH_SERVER_OK, ncores, nhosts, if code =? 0 then Auth.OPH_ROLE_READ else code)
      end
  end.
End description.

(** ** Task strings: theorems *)

Definition terminator (c : ascii) : bool := c =c "000".
Definition semicolon (c : ascii) : bool := c =c OPH_TP_PARAM_PARAM_SEPARATOR.
Definition equals (c : ascii) : bool := c =c OPH_TP_PARAM_VALUE_SEPARATOR.

(** The state at the beginning of a pair. *)
Definition at_pair (st : tp_state) : Prop :=
  last_char st = OPH_TP_PARAM_PARAM_SEPARATOR ∧ skip_flag st = false ∧ skip_check st = false.

Lemma tp_steps_app st s t : tp_steps st (s +:+ t) = st' ← tp_steps st s; tp_steps st' t.
Proof. revert st. induction s as [|c s IH]; intros st; [done|]. rewrite app_str_cons. cbn [tp_steps]. destruct (tp_step st c); [apply IH|done]. Qed.

Lemma tp_step_inv st c st' :
  skip_flag st = false → terminator c = false → tp_step st c = Some st' →
  previous_char st' = c ∧ skip_flag st' = false ∧ skip_check st' = false ∧
  ∃ first skip, switch_char st c = Some (last_char st', first, skip).
Proof.
  intros Hs Hc. unfold tp_step. rewrite Hs. destruct (_ && _); [done|]. destruct (switch_char st c) as [[[l f] sk]|] eqn:E; [|done].
  intros [= <-]. simpl. split_and!; [done| |done|by eauto]. unfold switch_char in E. unfold terminator in Hc. change OPH_TP_SKIP_SEPARATOR with ("000"%char) in E. rewrite Hc in E.
  by repeat case_match; simplify_eq.
Qed.

Lemma tp_steps_flags st s st' :
  skip_flag st = false → skip_check st = false → none_of terminator s = true → tp_steps st s = Some st' → skip_flag st' = false ∧ skip_check st' = false.
Proof.
  revert st. induction s as [|c s IH]; intros st H1 H2 Hs; cbn [tp_steps]; [by intros [= <-]|]. simpl in Hs. apply andb_true_iff in Hs as [Hc Hs].
  destruct (tp_step st c) as [st1|] eqn:E; [|done]. destruct (tp_step_inv _ _ _ H1 (proj1 (negb_true_iff _) Hc) E) as (_ & ? & ? & _). by apply IH.
Qed.

(** Inside a key: the text before the first [=], or the whole text. *)
Lemma tp_steps_key st p st' :
  at_pair st → none_of semicolon p = true → none_of terminator p = true → tp_steps st p = Some st' →
  last_char st' = OPH_TP_PARAM_PARAM_SEPARATOR ∨
  ∃ k v, p = k +:+ String OPH_TP_PARAM_VALUE_SEPARATOR v ∧ none_of after_separator k = true ∧
         (v = EmptyString → previous_char st' = OPH_TP_PARAM_VALUE_SEPARATOR).
Proof.
  revert st. induction p as [|c p IH]; intros st (Hl & Hf & Hk) Hp Ht; cbn [tp_steps]; [intros [= <-]; by left|].
  simpl in Hp, Ht. apply andb_true_iff in Hp as [Hc Hp], Ht as [Hn Ht]. apply negb_true_iff in Hc, Hn.
  destruct (tp_step st c) as [st1|] eqn:E; [|done]. intros Hst. destruct (tp_step_inv _ _ _ Hf Hn E) as (Hprev & Hf1 & Hk1 & f & sk & Hsw).
  unfold switch_char in Hsw. change OPH_TP_SKIP_SEPARATOR with ("000"%char) in Hsw. unfold terminator in Hn. rewrite Hn in Hsw.
  unfold semicolon in Hc. rewrite Hc in Hsw. destruct (c =c OPH_TP_PARAM_VALUE_SEPARATOR) eqn:Heq.
  { apply Ascii.eqb_eq in Heq as ->. right. exists EmptyString, p. split; [done|]. split; [done|]. intros ->. cbn in Hst. by injection Hst as <-. }
  destruct (c =c OPH_TP_MULTI_VALUE_SEPARATOR) eqn:Hbar; simpl in Hsw.
  { rewrite Hl in Hsw. by destruct (first_flag st). }
  destruct (IH st1) as [Hlast|(k & v & -> & Hkn & Hv)]; [split_and!; [congruence|done|done]|done..|by left|].
  right. exists (String c k), v. split; [done|]. split; [|done]. cbn [none_of]. rewrite Hkn. unfold after_separator. by rewrite Heq, Hbar, Hc.
Qed.

(** At a semicolon: there is a key, and a value that is not empty. *)
Lemma tp_steps_pair st p rest st' :
  at_pair st → none_of semicolon p = true → none_of terminator p = true →
  tp_steps st (p +:+ String OPH_TP_PARAM_PARAM_SEPARATOR rest) = Some st' →
  ∃ k v st1, p = k +:+ String OPH_TP_PARAM_VALUE_SEPARATOR v ∧ none_of after_separator k = true ∧ v ≠ EmptyString ∧
    at_pair st1 ∧ tp_steps st1 rest = Some st'.
Proof.
  intros Hst Hp Ht. rewrite tp_steps_app. destruct (tp_steps st p) as [st0|] eqn:E0; [|done]. cbn [mbind option_bind tp_steps].
  destruct (tp_step st0 _) as [st1|] eqn:E1; [|done]. intros Hr. destruct Hst as (Hl & Hf & Hk).
  destruct (tp_steps_flags st p st0 Hf Hk Ht E0) as [Hf0 Hk0].
  destruct (tp_step_inv st0 OPH_TP_PARAM_PARAM_SEPARATOR st1 Hf0 eq_refl E1) as (Hprev & Hf1 & Hk1 & f & sk & Hsw).
  unfold switch_char in Hsw. cbn in Hsw. destruct (first_flag st0); [done|].
  destruct (last_char st0 =c OPH_TP_PARAM_PARAM_SEPARATOR) eqn:Hlast; [done|]. cbn in Hsw. destruct (after_separator (previous_char st0)) eqn:Hsep; [done|].
  destruct (tp_steps_key st p st0) as [Hbad|(k & v & -> & Hkn & Hv)]; [by split_and!|done..|by rewrite Hbad in Hlast|].
  exists k, v, st1. split; [done|]. split; [done|]. split; [intros Hv0; by rewrite (Hv Hv0) in Hsep|].
  split; [|exact Hr]. injection Hsw as Hl1 _ _. by split_and!.
Qed.

(** Cutting at the first semicolon. *)
Lemma span_char (p : ascii → bool) s : none_of p s = true ∨ ∃ a c b, s = a +:+ String c b ∧ none_of p a = true ∧ p c = true.
Proof.
  induction s as [|c s IH]; [by left|]. destruct (p c) eqn:Hc; [right; by exists EmptyString, c, s|]. cbn [none_of]. rewrite Hc. simpl.
  destruct IH as [H|(a & d & b & -> & Ha & Hd)]; [by left|]. right. exists (String c a), d, b. split_and!; [done| |done]. cbn [none_of]. by rewrite Hc.
Qed.

Definition good_pair (kv : string * string) : Prop :=
  none_of after_separator kv.1 = true ∧ none_of semicolon kv.2 = true ∧ kv.2 ≠ EmptyString.

Lemma none_of_split p a c b : none_of p (a +:+ String c b) = true → none_of p a = true ∧ p c = false ∧ none_of p b = true.
Proof. rewrite none_of_app. cbn [none_of]. by rewrite !andb_true_iff, negb_true_iff. Qed.

Lemma validated_pairs n s st st' :
  (String.length s ≤ n)%nat → at_pair st → none_of terminator s = true → tp_steps st s = Some st' →
  ∃ l rest, s = ArgParser.print_args l +:+ rest ∧ none_of semicolon rest = true ∧ Forall good_pair l.
Proof.
  revert s st. induction n as [|n IH]; intros s st Hn Hat Ht Hst.
  { destruct s; [|simpl in Hn; lia]. exists [], EmptyString. by split_and!. }
  destruct (span_char semicolon s) as [Hno|(p & c & rest & -> & Hp & Hc)]; [by exists [], s|].
  apply Ascii.eqb_eq in Hc as ->. destruct (none_of_split _ _ _ _ Ht) as (Htp & _ & Htr).
  destruct (tp_steps_pair st p rest st') as (k & v & st1 & -> & Hk & Hv & Hat1 & Hst1); [done..|].
  destruct (none_of_split _ _ _ _ Hp) as (_ & _ & Hvs).
  rewrite length_app_str in Hn. simpl in Hn. destruct (IH rest st1) as (l & rest' & -> & Hr & Hl); [lia|done..|].
  exists ((k, v) :: l), rest'. split_and!; [|done|by constructor]. cbn [ArgParser.print_args].
  rewrite (app_str_assoc (ArgParser.print_pair k v)), ArgParser.print_pair_app. by rewrite app_str_assoc, app_str_cons.
Qed.

(** *** The lookup *)

Lemma strchr_at c a b : none_of (λ x, x =c c) a = true → strchr (a +:+ String c b) c = Some (String c b).
Proof.
  induction a as [|x a IH]; [intros _; rewrite app_str_nil; cbn [strchr]; by rewrite Ascii.eqb_refl|]. rewrite app_str_cons. cbn [none_of strchr].
  intros [Hx Ha]%andb_true_iff. apply negb_true_iff in Hx. rewrite Hx. auto.
Qed.
Lemma strchr_none c a : none_of (λ x, x =c c) a = true → strchr a c = None.
Proof. induction a as [|x a IH]; [done|]. cbn [none_of strchr]. intros [Hx Ha]%andb_true_iff. apply negb_true_iff in Hx. rewrite Hx. auto. Qed.

(** Comparing a key up to its length and up to the length of the text it is compared with. *)
Lemma same_key k c t p :
  none_of (λ x, x =c c) p = true →
  strncmp0 (k +:+ String c t) p (String.length k) && strncmp0 (k +:+ String c t) p (String.length p) = bool_decide (k = p).
Proof.
  unfold strncmp0. revert p. induction k as [|x k IH]; intros p Hp.
  - destruct p as [|y p]; [done|]. cbn [none_of] in Hp. apply andb_true_iff in Hp as [Hy _]. apply negb_true_iff in Hy. rewrite app_str_nil.
    cbn [String.length eqn]. by rewrite Ascii.eqb_sym, Hy.
  - rewrite app_str_cons. destruct p as [|y p]; [by rewrite bool_decide_eq_false_2|]. cbn [none_of] in Hp. apply andb_true_iff in Hp as [_ Hp].
    cbn [String.length eqn]. destruct (x =c y) eqn:Hxy; cbn [andb].
    + apply Ascii.eqb_eq in Hxy as ->. rewrite (IH p Hp). apply bool_decide_ext. split; [by intros ->|by intros [= ->]].
    + rewrite bool_decide_eq_false_2; [done|]. intros [= -> _]. by rewrite Ascii.eqb_refl in Hxy.
Qed.

Lemma copy_between_app cap a b m : (String.length a < cap)%nat → copy_between cap (a +:+ b) b m = Ok a m.
Proof.
  intros Ha. unfold copy_between. cbv zeta. rewrite length_app_str, Nat.add_sub, take_str_app.
  rewrite (bool_decide_eq_true_2 (String.length b ≤ _)%nat), (bool_decide_eq_true_2 (String.length a < cap)%nat) by lia. done.
Qed.

Definition lookup_result (v : cstr) : Z * cstr :=
  match v with
  | Some v => (OPH_TP_TASK_PARSER_SUCCESS, Some v)
  | None => (OPH_TP_TASK_PARSER_ERROR, None)
  end.

Lemma find_loop_pairs fuel cap p l rest m :
  none_of equals p = true → Forall good_pair l → none_of semicolon rest = true →
  (length l < fuel)%nat → (String.length (ArgParser.print_args l) < cap)%nat →
  find_loop fuel cap p (ArgParser.print_args l +:+ rest) m = Ok (lookup_result (property l p)) m.
Proof.
  intros Hp Hl Hr. revert l Hl. induction fuel as [|fuel IH]; intros l Hl Hf Hc; [lia|].
  destruct l as [|[k v] l]; [rewrite app_str_nil; cbn [find_loop]; by rewrite (strchr_none _ _ Hr)|].
  apply Forall_cons in Hl as [(Hk & Hv & Hne) Hl]. simpl in Hk, Hv, Hne, Hf. cbn [ArgParser.print_args] in *.
  rewrite length_app_str in Hc. unfold ArgParser.print_pair in Hc. rewrite length_app_str in Hc. cbn [String.length] in Hc. rewrite length_app_str in Hc. cbn [String.length] in Hc.
  rewrite (app_str_assoc (ArgParser.print_pair k v)), ArgParser.print_pair_app. set (t := ArgParser.print_args l +:+ rest). cbn [find_loop property].
  assert (none_of (λ x, x =c OPH_TP_PARAM_PARAM_SEPARATOR) k = true ∧ none_of equals k = true) as [Hk1 Hk2].
  { clear -Hk. induction k as [|c k IH]; [done|]. cbn [none_of] in *. apply andb_true_iff in Hk as [Hc Hk]. apply negb_true_iff in Hc. unfold after_separator, equals in *.
    apply orb_false_iff in Hc as [[Hc1 Hc2]%orb_false_iff Hc3]. rewrite Hc1, Hc3. auto. }
  assert (strchr (k +:+ String ArgParser.OPH_SEPARATOR_KV (v +:+ String ArgParser.OPH_SEPARATOR_PARAM t)) OPH_TP_PARAM_PARAM_SEPARATOR = Some (String OPH_TP_PARAM_PARAM_SEPARATOR t)) as ->.
  { rewrite <-app_str_cons, <-app_str_assoc. apply strchr_at. rewrite none_of_app. cbn [none_of]. rewrite Hk1. exact Hv. }
  rewrite (strchr_at OPH_TP_PARAM_VALUE_SEPARATOR k) by exact Hk2.
  rewrite length_app_str, Nat.add_sub, same_key by exact Hp. case_bool_decide as Hkp.
  - unfold copy_value. destruct (v +:+ String ArgParser.OPH_SEPARATOR_PARAM t) as [|c u] eqn:Hu.
    { destruct v; [done|]. by rewrite app_str_cons in Hu. }
    rewrite <-Hu. by rewrite (bind_run _ _ _ _ _ (copy_between_app cap v (String ArgParser.OPH_SEPARATOR_PARAM t) m ltac:(lia))).
  - apply IH; [done|lia|lia].
Qed.

(** C37: A task string that passes the check is a sequence of pairs [key=value;] with values that are
    not empty, followed by a text without a semicolon; looking a key up never fails otherwise
    than by not finding it, and gives the value of the first pair with the key (a last pair
    without its semicolon is not seen). *)
Theorem validated_lookup s cap m :
  none_of terminator s = true → oph_tp_validate_task_string (Some s) = OPH_TP_TASK_PARSER_SUCCESS → (String.length s < cap)%nat →
  ∃ l rest, s = ArgParser.print_args l +:+ rest ∧ none_of semicolon rest = true ∧ Forall good_pair l ∧
    ∀ p, none_of equals p = true →
      oph_tp_find_param_in_task_string cap (Some s) (Some p) m = Ok (lookup_result (property l p)) m.
Proof.
  intros Ht Hv Hc. unfold oph_tp_validate_task_string in Hv. destruct (tp_steps initial s) as [st|] eqn:E; [|done].
  destruct (validated_pairs (String.length s) s initial st) as (l & rest & -> & Hr & Hl); [lia|done..|].
  exists l, rest. split; [done|]. split; [done|]. split; [done|]. intros p Hp. rewrite length_app_str in Hc.
  pose proof (ArgParser.print_args_length l). apply find_loop_pairs; [done..| |lia]. rewrite length_app_str. lia.
Qed.

Lemma validated_lookup_witness :
  ∃ l rest, "a=1|2;b=x=y;c=3"%string = ArgParser.print_args l +:+ rest ∧ none_of semicolon rest = true ∧ Forall good_pair l ∧
    ∀ p, none_of equals p = true →
      oph_tp_find_param_in_task_string 20 (Some "a=1|2;b=x=y;c=3"%string) (Some p) [] = Ok (lookup_result (property l p)) [].
Proof. apply validated_lookup; [reflexivity|reflexivity|simpl; lia]. Defined.

(** *** Values in a list *)

Definition bar (c : ascii) : bool := c =c OPH_TP_MULTI_VALUE_SEPARATOR.

Lemma strncmp0_refl a : strncmp0 a a (String.length a) = true.
Proof. unfold strncmp0. induction a as [|c a IH]; [done|]. cbn [String.length eqn]. by rewrite Ascii.eqb_refl, IH. Qed.
Lemma strncmp0_whole a b : strncmp0 a b (String.length a) && strncmp0 a b (String.length b) = bool_decide (a = b).
Proof.
  unfold strncmp0. revert b. induction a as [|x a IH]; intros [|y b]; [done..|]. cbn [String.length eqn]. destruct (x =c y) eqn:Hxy; cbn [andb].
  - apply Ascii.eqb_eq in Hxy as ->. rewrite IH. apply bool_decide_ext. split; [by intros ->|by intros [= ->]].
  - rewrite bool_decide_eq_false_2; [done|]. intros [= -> _]. by rewrite Ascii.eqb_refl in Hxy.
Qed.

Lemma match_loop_spec fuel v vs m :
  none_of bar v = true → (String.length vs < fuel)%nat →
  match_loop fuel v vs m = Ok (if bool_decide (v ∈ split_on bar vs) then OPH_TP_TASK_PARSER_SUCCESS else OPH_TP_TASK_PARSER_ERROR) m.
Proof.
  intros Hv. revert vs. induction fuel as [|fuel IH]; intros vs Hf; [lia|]. cbn [match_loop].
  destruct (span_char bar vs) as [Hno|(a & c & b & -> & Ha & Hc)].
  - rewrite (strchr_none _ _ Hno), strncmp0_whole, (split_on_none _ _ Hno). unfold mret, C_ret. f_equal.
    rewrite (bool_decide_ext (vs = v) (v ∈ [vs])) by (rewrite list_elem_of_singleton; naive_solver). done.
  - apply Ascii.eqb_eq in Hc as ->. rewrite (strchr_at OPH_TP_MULTI_VALUE_SEPARATOR a) by exact Ha. rewrite length_app_str, Nat.add_sub, same_key by exact Hv.
    rewrite (split_on_app bar a OPH_TP_MULTI_VALUE_SEPARATOR b Ha eq_refl). case_bool_decide as Hav.
    + subst. rewrite bool_decide_eq_true_2; [done|left].
    + rewrite length_app_str in Hf. simpl in Hf. rewrite IH by lia. f_equal. apply (f_equal (λ x : bool, if x then _ else _)), bool_decide_ext.
      rewrite elem_of_cons. naive_solver.
Qed.

(** *** Multiple values *)

Lemma split_on_cons_no p c s : p c = false → ∃ w ws, split_on p s = w :: ws ∧ split_on p (String c s) = String c w :: ws.
Proof. intros Hc. pose proof (split_on_nonempty p s). cbn. rewrite Hc. destruct (split_on p s) as [|w ws]; [done|]. by exists w, ws. Qed.

Lemma count_params_spec s n msize csize :
  ∃ w ws, split_on bar s = w :: ws ∧ (count_params s n msize csize).1 = (n + length ws)%nat ∧
    let mx := (count_params s n msize csize).2 in (msize ≤ mx ∧ csize + String.length w ≤ mx ∧ Forall (λ u, String.length u ≤ mx) ws)%nat.
Proof.
  revert n msize csize. induction s as [|c s IH]; intros n msize csize.
  { exists EmptyString, []. cbn [split_on count_params fst snd length String.length]. destruct (Nat.ltb_spec msize csize); (split_and!; [done|lia|lia|lia|by apply Forall_nil]). }
  cbn [count_params]. change (c =c OPH_TP_MULTI_VALUE_SEPARATOR) with (bar c). destruct (bar c) eqn:Hc.
  - set (msize' := if (msize <? S csize)%nat then S csize else msize). destruct (IH (S n) msize' 0%nat) as (w & ws & Hs & Hn & Hm & Hw & Hws).
    exists EmptyString, (w :: ws). split_and!; [cbn; by rewrite Hc, Hs|rewrite Hn; simpl; lia|..].
    + subst msize'. destruct (Nat.ltb_spec msize (S csize)); simpl in *; lia.
    + subst msize'. destruct (Nat.ltb_spec msize (S csize)); simpl in *; lia.
    + constructor; [simpl in *; lia|done].
  - destruct (split_on_cons_no bar c s Hc) as (w & ws & Hs & ->). destruct (IH n msize (S csize)) as (w' & ws' & Hs' & Hn & Hm & Hw & Hws).
    rewrite Hs in Hs'. injection Hs' as <- <-. exists (String c w), ws. split_and!; [done|done|done|simpl in *; lia|done].
Qed.

Lemma split_values_spec fuel msize oks s acc m :
  (String.length s < fuel)%nat → Forall (λ w, (String.length w ≤ msize)%nat) (split_on bar s) →
  Forall (λ b, b = true) oks → (length acc + length (split_on bar s) ≤ length oks)%nat →
  split_values fuel msize oks s acc m = Ok (acc ++ split_on bar s) m.
Proof.
  intros Hf Hs Hoks. revert s acc Hf Hs. induction fuel as [|fuel IH]; intros s acc Hf Hs Hl; [lia|]. cbn [split_values].
  destruct (lookup_lt_is_Some_2 oks (length acc)) as [b Hb].
  { pose proof (split_on_nonempty bar s). destruct (split_on bar s); [done|]. simpl in Hl. lia. }
  rewrite Forall_lookup in Hoks. rewrite Hb, (Hoks _ _ Hb). cbn [deref]. rewrite (bind_run _ _ _ true m), (bind_run _ _ _ () m) by done.
  destruct (span_char bar s) as [Hno|(a & c & b' & -> & Ha & Hc)].
  - rewrite (strchr_none _ _ Hno). rewrite (split_on_none _ _ Hno) in *. apply Forall_cons in Hs as [Hs _].
    pose proof (copy_between_app (1 + msize) s EmptyString m ltac:(lia)) as Hcp. rewrite app_str_nil_r in Hcp. by rewrite (bind_run _ _ _ _ _ Hcp).
  - apply Ascii.eqb_eq in Hc as ->. rewrite (strchr_at OPH_TP_MULTI_VALUE_SEPARATOR a) by exact Ha.
    rewrite (split_on_app bar a OPH_TP_MULTI_VALUE_SEPARATOR b' Ha eq_refl) in *. apply Forall_cons in Hs as [Hs Hs'].
    rewrite (bind_run _ _ _ _ _ (copy_between_app (1 + msize) a (String OPH_TP_MULTI_VALUE_SEPARATOR b') m ltac:(lia))).
    rewrite length_app_str in Hf. simpl in Hf, Hl. rewrite IH; [by rewrite <-app_assoc|lia|done|rewrite length_app; simpl; lia].
Qed.

(** Given memory, a list of values separated by bars is split into exactly these values, each of
    which fits its buffer, and a list with another separator is refused. *)
Theorem multiple_values_split s m :
  s ≠ EmptyString → reliable m →
  wp (oph_tp_parse_multiple_value_param (Some s)) (λ r _,
    if none_of value_separator s then r = (OPH_TP_TASK_PARSER_SUCCESS, Some (split_on bar s), length (split_on bar s))
    else r = (OPH_TP_TASK_PARSER_ERROR, None, 0%nat)) m.
Proof.
  intros Hne Hm. unfold oph_tp_parse_multiple_value_param. destruct s as [|c s]; [done|]. set (t := String c s).
  destruct (none_of value_separator t); [|by apply wp_ret]. cbn [negb]. destruct (count_params_spec t 1 0 0) as (w & ws & Hs & Hn & _ & Hw & Hws).
  destruct (count_params t 1 0 0) as [pn mx]. simpl in Hn, Hw, Hws. wp_step. wp_step. cbn [negb]. wp_step.
  apply (wp_mapC _ (λ _, true)); [done|intros x m2 R _ Hm2 HR; by apply wp_malloc_reliable|]. intros m2 Hm2. wp_step.
  apply (wp_eq _ (mret (split_on bar t))).
  - unfold mret, C_ret. rewrite (split_values_spec _ mx _ t [] m2); [done|lia|rewrite Hs; by constructor| |rewrite Hs, length_fmap, length_seq; simpl; lia].
    apply Forall_fmap, Forall_true. done.
  - do 2 wp_step. rewrite Hs, Hn. done.
Qed.

Lemma multiple_values_split_witness :
  wp (oph_tp_parse_multiple_value_param (Some "a||bc"%string)) (λ r _,
    if none_of value_separator "a||bc" then r = (OPH_TP_TASK_PARSER_SUCCESS, Some (split_on bar "a||bc"), length (split_on bar "a||bc"))
    else r = (OPH_TP_TASK_PARSER_ERROR, None, 0%nat)) [].
Proof. apply multiple_values_split; [done|apply reliable_nil]. Defined.

(** ** Arguments of an operator: theorems *)

Lemma match_loop_total fuel v vs m :
  (String.length vs < fuel)%nat →
  match_loop fuel v vs m = Ok OPH_TP_TASK_PARSER_SUCCESS m ∨ match_loop fuel v vs m = Ok OPH_TP_TASK_PARSER_ERROR m.
Proof.
  revert vs. induction fuel as [|fuel IH]; intros vs Hf; [lia|]. cbn [match_loop]. destruct (strchr vs _) as [t|] eqn:E; [|destruct (_ && _); auto].
  destruct (_ && _); [by left|]. destruct (strchr_suffix _ _ _ E) as (a & -> & _ & u & ->). apply IH. rewrite length_app_str in Hf. simpl in Hf. lia.
Qed.

(** The description of an argument that is not a real number; its default and its only value fit the
    buffers, and a value that is compared with a list is a single one. *)
Record describable (l : list (string * string)) (s key : string) (n : xml_node) : Prop := {
  de_key : none_of equals key = true;
  de_type : ∃ ty, xmlGetProp n "type" = Some ty ∧ ty ≠ "double"%string;
  de_default : ∀ d, xmlGetProp n "default" = Some d → (String.length d < String.length s + 10)%nat;
  de_only : ∀ lo hi, xmlGetProp n "minvalue" = Some lo → xmlGetProp n "maxvalue" = Some hi → to_int lo = to_int hi →
    (String.length (print_int (to_int lo)) ≤ String.length s)%nat;
  de_single : ∀ vs v, xmlGetProp n "values" = Some vs → property l key = Some v → none_of bar v = true;
}.

Definition within_bounds (n : xml_node) (z : Z) : Prop :=
  (∀ lo, xmlGetProp n "minvalue" = Some lo → to_int lo ≤ z) ∧ (∀ hi, xmlGetProp n "maxvalue" = Some hi → z ≤ to_int hi).

(** The bounds of an integer argument admit one value only. *)
Definition only_value (n : xml_node) (v : string) : Prop :=
  xmlGetProp n "type" = Some "int"%string ∧
  ∃ lo hi, xmlGetProp n "minvalue" = Some lo ∧ xmlGetProp n "maxvalue" = Some hi ∧ to_int lo = to_int hi ∧ v = print_int (to_int lo).

(** The value that is checked: the given one, or the only one. *)
Definition checked_value (n : xml_node) (v0 v : string) : Prop := only_value n v ∨ ((∀ u, ¬ only_value n u) ∧ v = v0).

(** A value the description admits. *)
Definition admitted (n : xml_node) (v : string) : Prop :=
  (xmlGetProp n "type" = Some "int"%string → only_value n v ∨ within_bounds n (to_int v)) ∧
  (∀ vs, xmlGetProp n "values" = Some vs → v ∈ split_on bar vs).

(** What is stored for a key: the default of an optional argument, or the value that is checked. *)
Definition stored_value (l : list (string * string)) (n : xml_node) (key v : string) : Prop :=
  match property l key with
  | None => xmlGetProp n "mandatory" = Some "no"%string ∧ xmlGetProp n "default" = Some v
  | Some v0 => checked_value n v0 v ∧ admitted n v
  end.

Lemma wp_check_int l s key n v (Q : option string → mem → Prop) m :
  describable l s key n → xmlGetProp n "type" = Some "int"%string →
  ((∀ u, ¬ only_value n u) → ¬ within_bounds n (to_int v) → Q None m) →
  (∀ v', checked_value n v v' → only_value n v' ∨ within_bounds n (to_int v') → (String.length v' ≤ String.length v `max` String.length s)%nat → Q (Some v') m) →
  wp (check_int (S (String.length s)) n v) Q m.
Proof.
  intros [_ _ _ Honly _] Hty HN HS. unfold check_int, wp.
  assert ((∀ lo hi, xmlGetProp n "minvalue" = Some lo → xmlGetProp n "maxvalue" = Some hi → to_int lo ≠ to_int hi) → ∀ u, ¬ only_value n u) as Hnot.
  { intros Hne u (_ & lo & hi & E1 & E2 & E & _). by eapply Hne. }
  destruct (xmlGetProp n "minvalue") as [lo|] eqn:Elo, (xmlGetProp n "maxvalue") as [hi|] eqn:Ehi.
  - destruct (Z.eqb_spec (to_int lo) (to_int hi)) as [E|E].
    + pose proof (Honly lo hi eq_refl eq_refl E) as Hl. unfold write_text. rewrite bool_decide_eq_true_2 by lia. cbn.
      assert (only_value n (print_int (to_int lo))) as Ho by (split; [done|]; exists lo, hi; done). apply HS; [by left|by left|lia].
    + assert (∀ u, ¬ only_value n u) as Hno by (apply Hnot; congruence).
      destruct (Z.ltb_spec (to_int v) (to_int lo)) as [H1|H1], (Z.ltb_spec (to_int hi) (to_int v)) as [H2|H2]; cbn.
      1-3: apply HN; [done|]; intros [B1 B2]; specialize (B1 lo Elo); specialize (B2 hi Ehi); lia.
      apply HS; [by right| |lia]. right. split; intros ?; rewrite ?Elo, ?Ehi; intros [= <-]; lia.
  - assert (∀ u, ¬ only_value n u) as Hno by (apply Hnot; congruence).
    destruct (Z.ltb_spec (to_int v) (to_int lo)); cbn; [apply HN; [done|]; intros [B1 _]; specialize (B1 lo Elo); lia|].
    apply HS; [by right| |lia]. right. split; intros ?; rewrite ?Elo, ?Ehi; [intros [= <-]; lia|done].
  - assert (∀ u, ¬ only_value n u) as Hno by (apply Hnot; congruence).
    destruct (Z.ltb_spec (to_int hi) (to_int v)); cbn; [apply HN; [done|]; intros [_ B2]; specialize (B2 hi Ehi); lia|].
    apply HS; [by right| |lia]. right. split; intros ?; rewrite ?Elo, ?Ehi; [done|intros [= <-]; lia].
  - assert (∀ u, ¬ only_value n u) as Hno by (apply Hnot; congruence).
    cbn. apply HS; [by right| |lia]. right. split; intros ?; rewrite ?Elo, ?Ehi; done.
Qed.

Lemma property_length l k v : property l k = Some v → (String.length v < String.length (ArgParser.print_args l))%nat.
Proof.
  induction l as [|[k' v'] l IH]; [done|]. cbn [property ArgParser.print_args]. unfold ArgParser.print_pair. rewrite !length_app_str. cbn [String.length]. rewrite length_app_str. cbn [String.length].
  case_bool_decide; [intros [= ->]; lia|]. intros ?%IH. lia.
Qed.

Lemma wp_write_text cap s (Q : string → mem → Prop) m : (String.length s < cap)%nat → Q s m → wp (write_text cap s) Q m.
Proof. intros Hs HQ. unfold write_text, wp. by rewrite bool_decide_eq_true_2. Qed.

Lemma wp_check_values n v (Q : bool → mem → Prop) m :
  (∀ vs, xmlGetProp n "values" = Some vs → none_of bar v = true) →
  (¬ (∀ vs, xmlGetProp n "values" = Some vs → v ∈ split_on bar vs) → Q false m) →
  ((∀ vs, xmlGetProp n "values" = Some vs → v ∈ split_on bar vs) → Q true m) → wp (check_values n v) Q m.
Proof.
  intros Hb HN HS. unfold check_values. destruct (xmlGetProp n "values") as [vs|]; [|by apply wp_ret, HS].
  apply wp_bind. unfold wp at 1. cbn [oph_tp_match_value_in_xml_value_list].
  rewrite match_loop_spec by (eauto || lia). apply wp_ret. case_bool_decide as Hin; [apply HS; by intros ? [= <-]|]. apply HN. intros Hall. by apply Hin, Hall.
Qed.

Lemma only_value_bar n v : only_value n v → none_of bar v = true.
Proof. intros (_ & lo & hi & _ & _ & _ & ->). apply print_int_none. intros c [Hc| ->]; [|done]. unfold bar. destruct (c =c _) eqn:E; [|done]. by apply Ascii.eqb_eq in E as ->. Qed.

Lemma wp_validate_param l rest n key value (Q : Z * cstr → mem → Prop) m :
  let s := ArgParser.print_args l +:+ rest in
  Forall good_pair l → none_of semicolon rest = true → describable l s key n → reliable m →
  ((∀ v, ¬ stored_value l n key v) → ∀ m', reliable m' → Q (OPH_TP_TASK_PARSER_ERROR, value) m') →
  (∀ v m', reliable m' → stored_value l n key v → Q (OPH_TP_TASK_PARSER_SUCCESS, Some v) m') →
  wp (oph_tp_validate_task_string_param s n key (String.length s + 10) value) Q m.
Proof.
  intros s Hl Hr Hd Hm HN HS. unfold oph_tp_validate_task_string_param. wp_step. wp_step. cbn [negb]. rename m' into m1. rename H into Hm1.
  apply wp_bind. apply (wp_eq _ (mret (lookup_result (property l key)))).
  { pose proof (ArgParser.print_args_length l). apply find_loop_pairs; [apply Hd|done..| |]; subst s; rewrite length_app_str; lia. }
  wp_step. unfold stored_value in HN, HS. destruct (property l key) as [v0|] eqn:Hv0; cbn [lookup_result]; cbv iota.
  - change (OPH_TP_TASK_PARSER_SUCCESS =? 0) with true. cbv iota beta. destruct (de_type _ _ _ _ Hd) as (ty & Hty & Hnd). rewrite Hty.
    pose proof (property_length _ _ _ Hv0) as Hlen. assert (String.length v0 < String.length s)%nat as Hlen' by (subst s; rewrite length_app_str; lia).
    assert (∀ v' : string, checked_value n v0 v' → (ty = "int"%string → only_value n v' ∨ within_bounds n (to_int v')) → (String.length v' ≤ String.length s)%nat →
      wp (found ← check_values n v'; if negb found then mret (OPH_TP_TASK_PARSER_ERROR, value) else v ← write_text (String.length s + 10) v'; mret (OPH_TP_TASK_PARSER_SUCCESS, Some v)) Q m1) as Hend.
    { intros v' Hv' Hi Hvl. wp_step. apply wp_check_values.
      - intros vs Hvs. destruct Hv' as [Ho|[_ ->]]; [by eapply only_value_bar|]. by eapply (de_single _ _ _ _ Hd).
      - intros Hnl. cbn [negb]. wp_step. apply HN; [|done]. intros v [Hc [_ Hlist]]. apply Hnl.
        destruct Hv' as [Ho|[Hno ->]], Hc as [Ho'|[Hno' ->]]; [|by destruct (Hno' _ Ho)|by destruct (Hno _ Ho')|done].
        destruct Ho as (_ & lo & hi & E1 & E2 & _ & ->), Ho' as (_ & lo' & hi' & E1' & E2' & _ & ->). assert (lo' = lo) as -> by congruence. done.
      - intros Hvs. cbn [negb]. wp_step. apply wp_write_text; [lia|]. wp_step. apply HS; [done|]. split; [done|]. split; [|done]. rewrite Hty. intros [= ->]. auto. }
    apply wp_bind. unfold check_bounds. case_bool_decide as Hint; [|case_bool_decide; [done|]].
    + subst ty. apply (wp_check_int l s key); [done|done| |].
      * intros Hno Hnb. wp_step. apply HN; [|done]. intros v [[Ho|[_ ->]] [Hi _]]; [by destruct (Hno _ Ho)|]. destruct (Hi Hty) as [Ho|Hb]; [by destruct (Hno _ Ho)|done].
      * intros v' H1 H2 H3. apply Hend; [done|done|lia].
    + apply wp_ret. apply Hend; [|done|lia]. right. split; [|done]. intros u (Hu & _). congruence.
  - change (OPH_TP_TASK_PARSER_ERROR =? 0) with false. cbv iota beta. unfold default_value. destruct (xmlGetProp n "mandatory") as [md|] eqn:Emd; [|wp_step; apply HN; [|done]; by intros v [? _]].
    case_bool_decide as Hno; cbn [negb]; [|wp_step; apply HN; [|done]; intros v [? _]; congruence].
    destruct (xmlGetProp n "default") as [d|] eqn:Ed; [|wp_step; apply HN; [|done]; by intros v [_ ?]].
    wp_step. apply wp_write_text; [by apply (de_default _ _ _ _ Hd)|]. wp_step. apply HS; [done|]. by subst.
Qed.

(** The keys an element of the description stands for. *)
Definition argument_keys (n : xml_node) : list string :=
  if negb (bool_decide (node_name n = "argument"%string)) then [] else
  match content n with
  | None => []
  | Some key => key :: (if bool_decide (xmlGetProp n "allownot" = Some "yes"%string) then [truncate OPH_TP_TASKLEN (key +:+ "!")] else [])
  end.
Definition described (l : list xml_node) : list (string * xml_node) := n ← l; (λ k, (k, n)) <$> argument_keys n.

(** The table holds exactly the keys, each with a value that the description admits. *)
Definition filled (l : list (string * string)) (ds : list (string * xml_node)) (tbl : HASHTBL string) : Prop :=
  hash_wf tbl ∧ (∀ k n, (k, n) ∈ ds → ∃ v, abs tbl !! k = Some v ∧ stored_value l n k v) ∧ (∀ k, is_Some (abs tbl !! k) → k ∈ ds.*1).

Lemma filled_insert l ds tbl k n v (Q : Z * HASHTBL string → mem → Prop) m :
  filled l ds tbl → k ∉ ds.*1 → stored_value l n k v → reliable m →
  (∀ r m', reliable m' → filled l (ds ++ [(k, n)]) r.2 → Q r m') → wp (hashtbl_insert tbl k v) Q m.
Proof.
  intros (Hwf & Hall & Honly) Hk Hv Hm HQ. eapply wp_mono; [by apply insert_spec|]. intros r m' (Hm' & Hwf' & _ & _ & Hr).
  destruct (abs tbl !! k) as [d|] eqn:Hd; [destruct Hk; apply Honly; by eexists|]. destruct Hr as (_ & _ & Habs). apply HQ; [done|]. split; [done|]. split.
  - intros k' n' Hin. rewrite Habs. apply elem_of_app in Hin as [Hin|Hin].
    + destruct (Hall _ _ Hin) as (v' & Hv' & Hs). exists v'. split; [|done]. rewrite lookup_insert_ne; [done|]. intros ->. apply Hk. by apply (list_elem_of_fmap_2 fst _ _ Hin).
    + apply list_elem_of_singleton in Hin as [= -> ->]. exists v. by rewrite lookup_insert_eq.
  - intros k' [v' Hv']. rewrite Habs in Hv'. rewrite fmap_app. apply elem_of_app. destruct (decide (k' = k)) as [->|Hne]; [right; left|].
    left. apply Honly. rewrite lookup_insert_ne in Hv' by done. by eexists.
Qed.

(** The outcome of one element. *)
Definition argument_done (l : list (string * string)) (ds : list (string * xml_node)) (n : xml_node) (c : ctl (HASHTBL string) (HASHTBL string)) (m : mem) : Prop :=
  match c with
  | Next tbl => filled l (ds ++ described [n]) tbl ∧ reliable m
  | Break _ => ∃ k, k ∈ argument_keys n ∧ ∀ v, ¬ stored_value l n k v
  end.

Lemma wp_parse_argument l rest ds tbl n m :
  let s := ArgParser.print_args l +:+ rest in
  Forall good_pair l → none_of semicolon rest = true → (∀ k, k ∈ argument_keys n → describable l s k n) →
  NoDup (ds.*1 ++ argument_keys n) → filled l ds tbl → reliable m →
  wp (parse_argument s tbl n) (argument_done l ds n) m.
Proof.
  intros s Hl Hr Hd Hnd Hf Hm. unfold parse_argument.
  assert (described [n] = (λ k, (k, n)) <$> argument_keys n) as Hds by (unfold described; cbn; by rewrite app_nil_r).
  unfold argument_done. rewrite Hds. clear Hds. unfold argument_keys in *. case_bool_decide as Hname; cbn [negb] in *; [|wp_step; by rewrite app_nil_r].
  destruct (content n) as [key|]; [|wp_step; by rewrite app_nil_r]. revert Hd Hnd.
  destruct (bool_decide (xmlGetProp n "allownot" = Some "yes"%string)); cbn [negb]; intros Hd Hnd.
  all: wp_step; wp_step; cbn [negb]; rename m' into m1; rename H into Hm1; wp_step.
  all: apply wp_validate_param; [done|done|apply Hd; left|done|intros Hbad m2 Hm2|intros v m2 Hm2 Hv].
  1,3: cbn; unfold wp, mret, C_ret; exists key; (split; [left|done]).
  all: cbv beta iota; change (OPH_TP_TASK_PARSER_SUCCESS =? 0) with true; cbn [negb deref]; wp_step; wp_step; wp_step.
  all: eapply filled_insert; [done| |done|done|intros r m3 Hm3 Hf3; destruct r as [rc tbl3]; cbn [snd] in Hf3].
  1,3: intros Hin; apply NoDup_app in Hnd as (_ & Hnd & _); apply (Hnd key Hin); left.
  - wp_step. apply wp_validate_param; [done|done|apply Hd; right; left|done|intros Hbad m4 Hm4|intros v' m4 Hm4 Hv'].
    { cbn. unfold wp, mret, C_ret. eexists. split; [right; left|done]. }
    cbv beta iota. change (OPH_TP_TASK_PARSER_SUCCESS =? 0) with true. cbn [negb deref]. wp_step. wp_step. wp_step.
    eapply filled_insert; [done| |done|done|intros r m5 Hm5 Hf5; destruct r as [rc5 tbl5]; cbn [snd] in Hf5].
    + rewrite fmap_app. intros Hin. apply NoDup_app in Hnd as (_ & Hnd & Hnd2). apply elem_of_app in Hin as [Hin|Hin]; [apply (Hnd _ Hin); right; left|].
      apply list_elem_of_singleton in Hin. simpl in Hin. rewrite Hin in Hnd2. apply NoDup_cons in Hnd2 as [Hnd2 _]. apply Hnd2. left.
    + wp_step. split; [|done]. rewrite <-app_assoc in Hf5. exact Hf5.
  - wp_step. done.
Qed.

Lemma described_app l1 l2 : described (l1 ++ l2) = described l1 ++ described l2.
Proof. unfold described. apply bind_app. Qed.
Lemma described_keys n : (described [n]).*1 = argument_keys n.
Proof. unfold described. cbn. rewrite app_nil_r, <-list_fmap_compose. apply list_fmap_id. Qed.

(** All arguments have a value, or one of them has none. *)
Definition parsed (l : list (string * string)) (ds : list (string * xml_node)) (r : Z * option (HASHTBL string)) : Prop :=
  (r.1 = OPH_TP_TASK_PARSER_SUCCESS ∧ ∃ tbl, r.2 = Some tbl ∧ filled l ds tbl) ∨
  (r.1 = OPH_TP_TASK_PARSER_ERROR ∧ ∃ k n, (k, n) ∈ ds ∧ ∀ v, ¬ stored_value l n k v).

Lemma wp_parse_arguments l rest args (Q : Z * option (HASHTBL string) → mem → Prop) m :
  let s := ArgParser.print_args l +:+ rest in
  Forall good_pair l → none_of semicolon rest = true → NoDup (described (children args)).*1 →
  (∀ k n, (k, n) ∈ described (children args) → describable l s k n) → reliable m →
  (∀ r m', parsed l (described (children args)) r → Q r m') →
  wp (parse_arguments s args) Q m.
Proof.
  intros s Hl Hr Hnd Hd Hm HQ. unfold parse_arguments. wp_step. unfold hashtbl_create. do 2 (wp_step; wp_step; cbn [negb]). wp_step. wp_step.
  eapply wp_mono; [apply (wp_loopC _ (λ don tbl m, filled l (described don) tbl ∧ reliable m) (λ _ _, ∃ k n, (k, n) ∈ described (children args) ∧ ∀ v, ¬ stored_value l n k v))|].
  - split; [|done]. change (Tbl _ _ _) with (empty_table (D := string) (S (length (List.filter element (children args)))) (from_option id def_hashfunc None)).
    destruct (empty_table_spec (D := string) (S (length (List.filter element (children args)))) (from_option id def_hashfunc None)) as [Hwf He]; [lia|].
    split; [done|]. split; [by intros k n ?%elem_of_nil|]. intros k [v Hv]. apply abs_lookup in Hv; [|done]. rewrite He in Hv. by apply elem_of_nil in Hv.
  - intros don n post tbl m1 Hch [Hf Hm1]. assert (∀ k, k ∈ argument_keys n → (k, n) ∈ described (children args)) as Hin.
    { intros k Hk. rewrite Hch, described_app. apply elem_of_app. right. unfold described. cbn. apply elem_of_app. left. apply list_elem_of_fmap. by exists k. }
    eapply wp_mono; [apply (wp_parse_argument l rest (described don)); [done|done|by intros k Hk; apply Hd, Hin| |done|done]|].
    + rewrite Hch in Hnd. change (n :: post) with ([n] ++ post) in Hnd. rewrite !described_app, !fmap_app, described_keys, app_assoc in Hnd. by apply NoDup_app in Hnd as (Hnd & _ & _).
    + intros [tbl'|tbl'] m2; cbn; [by rewrite described_app|]. intros (k & Hk & Hv). exists k, n. split; [by apply Hin|done].
  - intros [tbl|tbl] m1; [intros [Hf _]|intros Hbad]; wp_step; apply HQ; [left; split; [done|by eexists]|by right].
Qed.

Section parser.
Context (read_root : string → option xml_node).
Context (folder : string → option (list dirent)) (oph_server_location : string).

(** C20: For a description of an operator without arguments of type double (no shipped description has one), whose
    keys are distinct and whose defaults and only values fit the buffers, and a valid task string in which a value
    that is compared with a list is a single one (no bar in it): the parser succeeds exactly when every argument of
    the description has a value, and then the table holds exactly these arguments with these values. The value is the
    first one the task string gives for the key, or the default of an optional argument that is not given; an int must
    lie within its bounds (or is replaced by the only value they admit) and any value must be in the list of the
    description if there is one. Arguments of other types, real among them, are not checked against bounds, although
    shipped descriptions give bounds to real arguments. *)
Theorem params_parser_correct op l rest root args m :
  let s := ArgParser.print_args l +:+ rest in
  s ≠ EmptyString → Forall good_pair l → none_of semicolon rest = true →
  oph_tp_validate_task_string (Some s) = OPH_TP_TASK_PARSER_SUCCESS →
  wp (description read_root folder (truncate OPH_TP_BUFLEN (oph_server_location +:+ "/etc/operators_xml")) op
        (λ f, oph_server_location +:+ "/etc/operators_xml/" +:+ f)) (λ r m', r = Some root ∧ reliable m') m →
  child_named "args" root = Some args → NoDup (described (children args)).*1 →
  (∀ k n, (k, n) ∈ described (children args) → describable l s k n) →
  wp (oph_tp_task_params_parser read_root folder oph_server_location (Some op) (Some s) None) (λ r _, parsed l (described (children args)) r) m.
Proof.
  intros s Hne Hl Hr Hv Hroot Hargs Hnd Hd. unfold oph_tp_task_params_parser. destruct s as [|c s'] eqn:Es; [done|]. rewrite <-Es in *. rewrite Hv. cbn [negb].
  change (OPH_TP_TASK_PARSER_SUCCESS =? 0) with true. cbn [negb]. wp_step. eapply wp_mono; [apply Hroot|]. intros r m' [-> Hm']. rewrite Hargs.
  subst s. by eapply wp_parse_arguments.
Qed.
End parser.

Lemma ub_bind {A B} (c : C A) (f : A → C B) m : c m = UB → (c ≫= f) m = UB.
Proof. unfold mbind, C_bind. by intros ->. Qed.

(** A default that does not fit the buffer, which is ten characters longer than the task string, is
    written behind it. *)
Theorem long_default_ub l rest tbl n key d m :
  let s := ArgParser.print_args l +:+ rest in
  Forall good_pair l → none_of semicolon rest = true → none_of equals key = true → property l key = None →
  node_name n = "argument"%string → content n = Some key → xmlGetProp n "mandatory" = Some "no"%string → xmlGetProp n "default" = Some d →
  (String.length s + 10 ≤ String.length d)%nat → reliable m →
  parse_argument s tbl n m = UB.
Proof.
  intros s Hl Hr Hk Hp Hn Hc Hm Hd Hlen Hrel. unfold parse_argument. rewrite Hn, Hc. rewrite bool_decide_eq_true_2 by done. cbn [negb].
  apply bind_ub, wp_malloc_reliable; [done|]. intros m1 Hm1. cbn [negb]. apply ub_bind. unfold oph_tp_validate_task_string_param.
  apply bind_ub, wp_malloc_reliable; [done|]. intros m2 Hm2. cbn [negb].
  rewrite (bind_run _ _ m2 (lookup_result (property l key)) m2).
  - rewrite Hp. cbn [lookup_result]. change (OPH_TP_TASK_PARSER_ERROR =? 0) with false. cbv iota beta. unfold default_value. rewrite Hm, Hd.
    rewrite bool_decide_eq_true_2 by done. cbn [negb]. unfold write_text. rewrite bool_decide_eq_false_2 by lia. done.
  - pose proof (ArgParser.print_args_length l). apply find_loop_pairs; [done..| |]; subst s; rewrite length_app_str; lia.
Qed.

(** ** The file of an operator: theorem *)

Lemma wp_allocate n (Q : bool → mem → Prop) m : reliable m → (∀ m', reliable m' → Q true m') → wp (allocate n) Q m.
Proof. revert m. induction n as [|n IH]; intros m Hm HQ; cbn [allocate]; [by apply wp_ret, HQ|]. wp_step. wp_step. by apply IH. Qed.

Lemma loopC_skip {S X R} (f : S → X → C (ctl S R)) s pre post m :
  Forall (λ x, ∀ m, f s x m = Ok (Next s) m) pre → loopC f s (pre ++ post) m = loopC f s post m.
Proof. induction 1 as [|x pre Hx Hpre IH]; [done|]. cbn [app loopC]. by rewrite (bind_run _ _ _ _ _ (Hx m)). Qed.

Lemma longest_le fs : Forall (λ f, (String.length f ≤ longest fs)%nat) fs.
Proof.
  induction fs as [|f fs IH]; [constructor|]. constructor; [simpl; lia|]. eapply Forall_impl; [exact IH|]. intros g Hg. simpl in *. lia.
Qed.

Lemma mapC_fields sv fs m :
  Forall (λ f, (String.length f ≤ s_maxlen sv)%nat) fs → mapC (field_text sv) fs m = Ok ((λ f, pad (s_maxlen sv) (to_int f)) <$> fs) m.
Proof.
  induction 1 as [|f fs Hf Hfs IH]; [done|]. cbn [mapC]. rewrite (bind_run _ _ _ (pad (s_maxlen sv) (to_int f)) m); [by rewrite (bind_run _ _ _ _ _ IH)|].
  unfold field_text. by rewrite bool_decide_eq_true_2.
Qed.

(** The search for the latest version of the description of an operator ends at the first XML file
    in the folder: whatever versions follow, this file is taken. *)
Theorem first_file_wins fn pre e post fs ext m :
  let pattern := truncate OPH_TP_BUFLEN (fn +:+ "_operator_") in
  Forall (λ x, negb (regular x) || negb (contains_nocase pattern (d_name x)) = true) pre →
  regular e = true → contains_nocase pattern (d_name e) = true → (∀ m, candidate pattern (d_name e) m = Ok (Some (Some (fs, ext))) m) →
  is_xml ext = true → (String.length (d_name e) < OPH_TP_BUFLEN)%nat → reliable m →
  wp (oph_tp_retrieve_function_xml_file fn None (Some (pre ++ e :: post))) (λ r _, r = (OPH_TP_TASK_PARSER_SUCCESS, Some (d_name e))) m.
Proof.
  intros pattern Hpre Hreg Hcont Hcand Hxml Hlen Hm. unfold oph_tp_retrieve_function_xml_file. fold pattern.
  set (sv := Survey 1 (longest fs) (length fs)). apply wp_bind, (wp_eq _ (mret (Break (Some sv)))).
  { rewrite loopC_skip.
    - assert (survey_entry pattern (Survey 0 0 0) e m = Ok (Break (Some sv)) m) as E.
      { unfold survey_entry. rewrite Hreg, Hcont. cbn [negb orb]. rewrite (bind_run _ _ _ _ _ (Hcand m)). cbv iota beta. by rewrite Hxml. }
      cbn [loopC]. by rewrite (bind_run _ _ _ _ _ E).
    - eapply Forall_impl; [exact Hpre|]. intros x Hx m'. unfold survey_entry. by rewrite Hx. }
  wp_step. wp_step. wp_step. cbn [negb]. wp_step. apply wp_allocate; [done|]. intros m2 Hm2. cbn [negb]. wp_step. apply wp_allocate; [done|]. intros m3 Hm3. cbn [negb].
  assert (∃ v, ∀ m, version_text sv fs m = Ok v m) as [v Hv].
  { unfold version_text. eexists. intros m4. cbn [s_maxversionlen sv]. rewrite firstn_all, (bind_run _ _ _ _ _ (mapC_fields sv fs m4 (longest_le fs))). done. }
  apply wp_bind, (wp_eq _ (mret (Break (Some [(v, d_name e)])))).
  { rewrite loopC_skip.
    - assert (collect_entry pattern sv [] e m3 = Ok (Break (Some [(v, d_name e)])) m3) as E.
      { unfold collect_entry. rewrite Hreg, Hcont. cbn [negb orb]. rewrite (bind_run _ _ _ _ _ (Hcand m3)). cbv iota beta. by rewrite (bind_run _ _ _ _ _ (Hv m3)). }
      cbn [loopC]. by rewrite (bind_run _ _ _ _ _ E).
    - eapply Forall_impl; [exact Hpre|]. intros x Hx m4. unfold collect_entry. by rewrite Hx. }
  wp_step. wp_step. cbn [foldl snd]. unfold truncate. rewrite take_str_ge by lia. done.
Qed.

(** ** Witnesses *)

Definition sample_argument (nm : string) (attrs : list (string * string)) : xml_node := Xml true "argument" (Some nm) attrs [].
Definition sample_args : xml_node :=
  Xml true "args" None []
    [sample_argument "level" [("type", "int"); ("mandatory", "yes"); ("minvalue", "1"); ("maxvalue", "3")];
     Xml false "text" (Some " ") [] [];
     sample_argument "cwd" [("type", "string"); ("mandatory", "no"); ("default", "/")];
     sample_argument "mode" [("type", "string"); ("mandatory", "yes"); ("values", "a|b"); ("allownot", "yes")]]%string.
Definition sample_root : xml_node := Xml true "operator" None [] [sample_args].
Definition sample_folder : list dirent := [Entry "." false; Entry "OPH_LIST_operator_1.0.xml" true; Entry "OPH_LIST_operator_2.0.xml" true].
Definition sample_given : list (string * string) := [("level", "2"); ("mode", "b"); ("mode!", "a")]%string.
Lemma sample_given_good : Forall good_pair sample_given.
Proof. repeat (apply Forall_cons; split; [split_and!; done|]). by apply Forall_nil. Qed.

Lemma params_parser_correct_witness :
  ArgParser.print_args sample_given = "level=2;mode=b;mode!=a;"%string ∧
  wp (oph_tp_task_params_parser (λ _, Some sample_root) (λ _, Some sample_folder) "" (Some "oph_list"%string) (Some "level=2;mode=b;mode!=a;"%string) None)
     (λ r _, parsed sample_given (described (children sample_args)) r) [].
Proof.
  split; [done|].
  apply (params_parser_correct (λ _, Some sample_root) (λ _, Some sample_folder) "" "oph_list" sample_given EmptyString sample_root sample_args []).
  - done.
  - exact sample_given_good.
  - done.
  - done.
  - vm_compute. split; [reflexivity|constructor].
  - done.
  - apply (bool_decide_unpack _). vm_compute. reflexivity.
  - assert (∀ nm attrs, none_of equals nm = true → property attrs "type" = Some "string"%string → property attrs "minvalue" = None →
      (property attrs "default" = Some "/" ∨ property attrs "default" = None)%string →
      match property sample_given nm with Some v => none_of bar v = true | None => True end →
      describable sample_given "level=2;mode=b;mode!=a;" nm (sample_argument (if bool_decide (nm = "cwd"%string) then "cwd" else "mode") attrs)) as Ht.
    { intros nm attrs Hnm Hty Hmin Hdef Hb. split; unfold xmlGetProp; cbn [attributes sample_argument]; [done|by eexists| | |].
      - intros d Hd. destruct Hdef as [E|E]; rewrite E in Hd; [|done]. injection Hd as <-. cbn. lia.
      - intros lo hi Hlo. congruence.
      - intros vs v _ Hv. by rewrite Hv in Hb. }
    intros k n Hin. vm_compute in Hin. repeat (apply elem_of_cons in Hin as [[= -> ->]|Hin]); [..|by apply elem_of_nil in Hin].
    + split; [done|by eexists|done| |done]. intros lo hi [= <-] [= <-] E. vm_compute in E. done.
    + apply (Ht "cwd" [("type", "string"); ("mandatory", "no"); ("default", "/")])%string; [done|done|done|first [by left|by right]|first [exact I|reflexivity]].
    + apply (Ht "mode" [("type", "string"); ("mandatory", "yes"); ("values", "a|b"); ("allownot", "yes")])%string; [done|done|done|first [by left|by right]|first [exact I|reflexivity]].
    + apply (Ht "mode!" [("type", "string"); ("mandatory", "yes"); ("values", "a|b"); ("allownot", "yes")])%string; [done|done|done|first [by left|by right]|first [exact I|reflexivity]].
Defined.

(** The bounds of an argument of type [real], as the shipped descriptions have it, are not looked at: the code compares the type with [double]. *)
Definition wavelet_ratio : xml_node :=
  sample_argument "wavelet_ratio" [("type", "real"); ("mandatory", "no"); ("default", "0"); ("minvalue", "0"); ("maxvalue", "100")]%string.
Example real_bounds_unchecked :
  oph_tp_validate_task_string_param "wavelet_ratio=250;" wavelet_ratio "wavelet_ratio" 28 None [] = Ok (OPH_TP_TASK_PARSER_SUCCESS, Some "250"%string) [].
Proof. vm_compute. reflexivity. Qed.

Lemma first_file_wins_witness :
  wp (oph_tp_retrieve_function_xml_file "OPH_LIST" None (Some sample_folder)) (λ r _, r = (OPH_TP_TASK_PARSER_SUCCESS, Some "OPH_LIST_operator_1.0.xml"%string)) [].
Proof.
  apply (first_file_wins "OPH_LIST" [Entry "." false] (Entry "OPH_LIST_operator_1.0.xml" true) [Entry "OPH_LIST_operator_2.0.xml" true] ["1"; "0"]%string "xml" []).
  - by repeat constructor.
  - done.
  - vm_compute. reflexivity.
  - intros m. vm_compute. reflexivity.
  - done.
  - apply (bool_decide_unpack _). vm_compute. reflexivity.
  - apply reliable_nil.
Defined.

Lemma long_default_ub_witness :
  parse_argument "a=1;" (empty_table 2 def_hashfunc) (sample_argument "cwd" [("type", "string"); ("mandatory", "no"); ("default", "/home/ophidia/data")])%string [] = UB.
Proof.
  apply (long_default_ub [("a", "1")]%string EmptyString _ _ "cwd" "/home/ophidia/data"); try done.
  - apply Forall_cons; split; [split_and!; done|by apply Forall_nil].
  - apply (bool_decide_unpack _). vm_compute. reflexivity.
  - apply reliable_nil.
Defined.
End TaskParser.
