(* ===== verification/WfVars.v ===== *)
(** * Workflow variables ([src/src/oph_workflow/oph_workflow_utils.c], [oph_workflow_setup.c])

    A workflow and each of its tasks own an environment, a hash table of variables.
    [oph_workflow_set_basic_var] fills the environment of a workflow with the variables
    every workflow has; [oph_workflow_var_substitute] rewrites a submission string,
    replacing [@name] and [@{name}] by the text of a variable (or of an argument of the
    task) and [&name] by its index.

    [VarStore] is what an environment promises to this code; the hash table discharges
    it.  Pointers into the submission string are offsets.  The results: the contents of
    the environment after [oph_workflow_set_basic_var]; the text a template expands to;
    a prefix without a name dereferences a null pointer; and a variable that contains
    itself makes the expansion run forever. *)

From Stdlib Require Ascii.
From stdpp Require Import base gmap strings numbers relations pretty list.
From S2P Require Import Prelude CString HashTbl Trash WfStructs WfSetup WfDag WfFlow Auth.
Import (notations) Stdlib.Strings.Ascii.
Import HashTbl WfStructs.

Module WfVars.

#[local] Open Scope Z_scope.
#[local] Open Scope cstr_scope.

Definition OPH_WORKFLOW_MAX_STRING : nat := 2048.
Definition OPH_WORKFLOW_MIN_STRING : nat := 24.
Definition OPH_WORKFLOW_VARIABLE_PREFIX : ascii := "@".
Definition OPH_WORKFLOW_INDEX_PREFIX : ascii := "&".
Definition OPH_WORKFLOW_BRACKET_OPEN : ascii := "{".
Definition OPH_WORKFLOW_BRACKET_CLOSE : ascii := "}".
Definition OPH_WORKFLOW_SEPARATORS : string := ";=|,:@&{}".
Definition OPH_WORKFLOW_KV_SEPARATOR : ascii := ";".
Definition OPH_WORKFLOW_VALUE_SEPARATOR : ascii := "=".
Definition OPH_WORKFLOW_BVAR_KEYS : list string :=
  ["OPH_SESSION_ID"; "OPH_SESSION_CODE"; "OPH_WORKFLOW_ID"; "OPH_SERVER_HOST"; "OPH_SERVER_PORT";
   "OPH_USER"; "OPH_PASSWD"; "OPH_OS_USER"]%string.
Definition OPH_WORKFLOW_BVAR_KEYS_SIZE : nat := 8.
Definition OPH_WORKFLOW_BVAR_KEY_MARKERID : string := "OPH_MARKER_ID".
Definition OPH_WORKFLOW_BVAR_KEY_NCORES : string := "NCORES".
Definition OPH_WORKFLOW_BVAR_KEY_NHOSTS : string := "NHOST".

(** ** Environments *)

(** What the code relies on: a store of data by name, refining a finite map. *)
Class VarStore (T D : Type) : Type := {
  vs_wf : T → Prop;
  vs_abs : T → gmap string D;
  vs_get : T → string → C (option D);
  vs_insert : T → string → D → nat → C (Z * T);
  vs_get_spec t k m : vs_wf t → wp (vs_get t k) (λ r m', m' = m ∧ r = vs_abs t !! k) m;
  vs_insert_spec t k d sz m : vs_wf t → reliable m →
    wp (vs_insert t k d sz) (λ r m',
      reliable m' ∧ vs_wf r.2 ∧ vs_abs r.2 = <[k := default d (vs_abs t !! k)]> (vs_abs t)) m;
}.

#[global] Instance hashtbl_store D : VarStore (HASHTBL D) D.
Proof.
  refine {| vs_wf := hash_wf; vs_abs := abs; vs_get := hashtbl_get; vs_insert := hashtbl_insert_with_size |}.
  - intros t k m Hwf. by apply get_spec.
  - intros t k d sz m Hwf Hm. eapply wp_mono; [by apply insert_spec|].
    intros [rc t'] m' (? & ? & _ & _ & H). split_and!; [done..|]. destruct (abs t !! k) eqn:Hk.
    + injection H as -> ->. simpl. by rewrite insert_id.
    + apply H.
Defined.

Section store.
Context `{VarStore T D}.

(** [tbl && hashtbl_get(tbl, key)] *)
Definition env_get (e : option T) (k : string) : C (option D) :=
  match e with None => mret None | Some t => vs_get t k end.

Definition env_wf (e : option T) : Prop := match e with None => True | Some t => vs_wf t end.
Definition env_abs (e : option T) : gmap string D := match e with None => ∅ | Some t => vs_abs t end.

Lemma wp_env_get e k (Q : option D → mem → Prop) m :
  env_wf e → Q (env_abs e !! k) m → wp (env_get e k) Q m.
Proof.
  intros Hwf HQ. destruct e as [t|]; simpl in *; [|by wp_step].
  eapply wp_mono; [by apply vs_get_spec|]. by intros r m' [-> ->].
Qed.
End store.

(** ** Basic variables *)

(** [x ? x : "none"], duplicated. *)
Definition dup_or_none (x : cstr) : C cstr := strdup (Some (default "none"%string x)).

Section globals.
(** The globals [oph_server_host], [oph_server_port] and [oph_web_server]; [ivalue0] is
    the field [ivalue] of the local variable, which is not initialised. *)
Context (oph_server_host oph_server_port oph_web_server : cstr) (ivalue0 : Z).

(** The [switch]: the text of the variable number [i]. *)
Definition basic_var (wf : oph_workflow) (i : nat) : C cstr :=
  match i with
  | 0%nat => dup_or_none (sessionid wf)
  | 1%nat =>
      match sessionid wf with
      | None => mret None
      | Some s =>
          '(rc, code) ← Auth.oph_get_session_code oph_web_server s;
          if rc =? 0 then
            session_code ← deref code;
            assertC (String.length session_code <? OPH_WORKFLOW_MAX_STRING)%nat;;
            strdup (Some session_code)
          else mret None
      end
  | 2%nat =>
      match sessionid wf with
      | None => mret None
      | Some _ =>
          ok ← malloc;
          mret (if ok : bool then Some (truncate OPH_WORKFLOW_MIN_STRING (print_int (workflowid wf))) else None)
      end
  | 3%nat => dup_or_none oph_server_host
  | 4%nat => dup_or_none oph_server_port
  | 5%nat => dup_or_none (username wf)
  | 6%nat => dup_or_none (password wf)
  | 7%nat => dup_or_none (os_username wf)
  | _ => strdup (Some EmptyString)
  end.

Definition sizeof_var : nat := 24.

(** One round of the loop; [Break] is an early return.  The result of the insertion only
    selects a log message. *)
Definition set_basic (wf : oph_workflow) (i : nat) : C (ctl oph_workflow (Z * oph_workflow)) :=
  v ← basic_var wf i;
  match v with
  | None => mret (Break (OPH_WORKFLOW_EXIT_MEMORY_ERROR, wf))
  | Some svalue =>
      ok ← malloc;
      if negb ok then mret (Break (OPH_WORKFLOW_EXIT_MEMORY_ERROR, wf)) else
      k ← deref (OPH_WORKFLOW_BVAR_KEYS !! i);
      tbl ← deref (wf_vars wf);
      '(_, tbl') ← vs_insert tbl k (Var (-1) svalue ivalue0) (sizeof_var + (String.length svalue + 1));
      mret (Next (set_wf_vars (Some tbl') wf))
  end.

Definition oph_workflow_set_basic_var (workflow : option oph_workflow) : C (Z * option oph_workflow) :=
  match workflow with
  | None => mret (OPH_WORKFLOW_EXIT_BAD_PARAM_ERROR, None)
  | Some wf =>
      r ← loopC set_basic wf (seq 0 OPH_WORKFLOW_BVAR_KEYS_SIZE);
      mret (match r with
            | Next wf' => (OPH_WORKFLOW_EXIT_SUCCESS, Some wf')
            | Break (rc, wf') => (rc, Some wf')
            end)
  end.
End globals.

(** ** Arguments of a task *)

Definition oph_workflow_get_argument_size (wf : option oph_workflow) (ti : nat) (max : Z) : C (Z * Z) :=
  match wf with
  | None => mret (OPH_WORKFLOW_EXIT_GENERIC_ERROR, max)
  | Some wf =>
      t ← deref (tasks wf !! ti);
      max' ← foldC (λ max a,
        k ← deref (arg_key a); v ← deref (arg_value a);
        let current := 3 + Z.of_nat (String.length k) + Z.of_nat (String.length v) in
        mret (if max <? current then current else max)) (if max <? 1 then 1 else max) (arguments t);
      mret (OPH_WORKFLOW_EXIT_SUCCESS, max')
  end.

(** The loop on the arguments from number [i]. *)
Fixpoint check_loop (args : list (cstr * cstr)) (i : Z) (key : string) (current_arg : cstr) : C (Z * cstr * Z) :=
  match args with
  | [] => mret (OPH_WORKFLOW_EXIT_BAD_PARAM_ERROR, None, -1)
  | (k, v) :: args' =>
      k ← deref k;
      let arg := truncate OPH_WORKFLOW_MAX_STRING k in
      if bool_decide (current_arg = Some arg) then check_loop args' (i + 1) key current_arg else
      assertC (String.length k <? OPH_WORKFLOW_MAX_STRING)%nat;;
      if bool_decide (key = string_map toupper arg) then
        v' ← strdup v;
        mret (match v' with
              | None => (OPH_WORKFLOW_EXIT_MEMORY_ERROR, None, -1)
              | Some _ => (OPH_WORKFLOW_EXIT_SUCCESS, v', i)
              end)
      else check_loop args' (i + 1) key current_arg
  end.

(** [asprintf(value, "%d", n)] *)
Definition check_number (n : Z) : C (Z * cstr * Z) :=
  ok ← malloc;
  mret (if ok : bool then (OPH_WORKFLOW_EXIT_SUCCESS, Some (print_int n), -1)
        else (OPH_WORKFLOW_EXIT_MEMORY_ERROR, None, -1)).

(** Result, [*value] and [*index]. *)
Definition oph_workflow_check_args (wf : oph_workflow) (ti : nat) (li : Z) (key : string) (current_arg : cstr) :
    C (Z * cstr * Z) :=
  t ← deref (tasks wf !! ti);
  '(args, marker, cores, hosts) ←
    (if li <? 0 then mret ((λ a, (arg_key a, arg_value a)) <$> arguments t, markerid t, ncores t, nhosts t)
     else l ← deref (light_tasks t !! Z.to_nat li); mret (lt_arguments l, lt_markerid l, lt_ncores l, lt_nhosts l));
  if bool_decide (key = OPH_WORKFLOW_BVAR_KEY_MARKERID) then check_number marker else
  if bool_decide (key = OPH_WORKFLOW_BVAR_KEY_NCORES) then check_number cores else
  if bool_decide (key = OPH_WORKFLOW_BVAR_KEY_NHOSTS) then check_number hosts else
  check_loop args 0 key current_arg.

(** ** Substitution *)

(** The suffix at offset [n]. *)
Fixpoint drop_str (n : nat) (s : string) : string :=
  match n, s with
  | O, _ => s
  | S n', String _ s' => drop_str n' s'
  | S _, EmptyString => EmptyString
  end.

(** The offset of the first [c]. *)
Fixpoint index_of_char (c : ascii) (s : string) : option nat :=
  match s with
  | EmptyString => None
  | String a s' => if a =c c then Some O else S <$> index_of_char c s'
  end.

Definition char_at (s : string) (i : nat) : option ascii := String.get i s.

Definition is_prefix (c : ascii) : bool := (c =c OPH_WORKFLOW_VARIABLE_PREFIX) || (c =c OPH_WORKFLOW_INDEX_PREFIX).

(** [_], a letter, or a digit after the first character of the name. *)
Definition name_char (rest : bool) (c : ascii) : bool :=
  (c =c "_") || in_range 65 90 c || in_range 97 122 c || (rest && in_range 48 57 c).

(** The inner loops: [t] is the text from the offset [ep]; [p] is the prefix being
    parsed.  A prefix within the name restarts the loop there (embedded variable).
    Result: [p], [ep], [lastc] (an open bracket) and [lastcc] (a closed one). *)
Fixpoint scan (t : string) (p ep : nat) (firstc lastc : bool) : nat * nat * bool * bool :=
  match t with
  | EmptyString => (p, ep, lastc, false)
  | String c t' =>
      if firstc && (c =c OPH_WORKFLOW_BRACKET_OPEN) then scan t' p (S ep) false true
      else if lastc && (c =c OPH_WORKFLOW_BRACKET_CLOSE) then (p, ep, lastc, true)
      else if has_char c OPH_WORKFLOW_SEPARATORS then
        if is_prefix c then scan t' ep (S ep) true false else (p, ep, lastc, false)
      else if lastc || name_char (1 <? ep - p)%nat c then scan t' p (S ep) false lastc
      else (p, ep, lastc, false)
  end.

(** The [while] condition: the offset of the prefix to expand.  [skip_until] may not
    point behind the terminator. *)
Definition next_prefix (s : string) (skip_until : nat) : C (option nat) :=
  assertC (skip_until <=? String.length s)%nat;;
  mret (match index_of_char OPH_WORKFLOW_VARIABLE_PREFIX (drop_str skip_until s) with
        | Some i => Some (skip_until + i)%nat
        | None => index_of_char OPH_WORKFLOW_INDEX_PREFIX s
        end).

(** [ck]: the start of the [key=value;] pair that contains the offset. *)
Fixpoint pair_start (s : string) (ck : nat) : nat :=
  if bool_decide (char_at s ck = Some OPH_WORKFLOW_KV_SEPARATOR) then S ck
  else match ck with O => O | S ck' => pair_start s ck' end.

(** [current_arg]: the key of that pair. *)
Definition current_key (s : string) (p : nat) : C cstr :=
  let ck := pair_start s p in
  match index_of_char OPH_WORKFLOW_VALUE_SEPARATOR (drop_str ck s) with
  | None => mret None
  | Some key_size => strdup (Some (take_str key_size (drop_str ck s)))
  end.

(** What a name stands for: [return_error] is positive for an unknown name, 0 for a
    variable, negative for an argument (or an empty name, with [value] null and [index]
    as it was). *)
Inductive target : Type :=
| TUnknown (value : cstr) (index : Z)
| TVariable (var : oph_workflow_var)
| TArgument (value : cstr) (index : Z).

(** The environment of the task, then the one of the workflow where the variable is
    visible. *)
Definition find_var (wf : oph_workflow) (ti : nat) (key : string) : C (option oph_workflow_var) :=
  t ← deref (tasks wf !! ti);
  v ← env_get (vars t) key;
  match v with
  | Some var => mret (Some var)
  | None =>
      v ← env_get (wf_vars wf) key;
      match v with
      | None => mret None
      | Some var =>
          visible ← (if caller var <? 0 then mret true
                     else WfFlow.oph_workflow_is_child_of (Some wf) (caller var) (Z.of_nat ti));
          mret (if visible : bool then Some var else None)
      end
  end.

Definition resolve (wf : oph_workflow) (ti : nat) (li : Z) (s : string) (p : nat) (lastc lastcc : bool)
    (key : string) (index : Z) (skip_arg : cstr) : C target :=
  if negb (eqb lastc lastcc) then mret (TUnknown None index)
  else if bool_decide (key = EmptyString) then mret (TArgument None index)
  else
    v ← find_var wf ti key;
    match v with
    | Some var => mret (TVariable var)
    | None =>
        current_arg ← match skip_arg with Some _ => mret skip_arg | None => current_key s p end;
        '(rc, value, index) ← oph_workflow_check_args wf ti li key current_arg;
        mret (if rc =? 0 then TArgument value index else TUnknown value index)
    end.

(** The text of the replacement; the length of a null value is not defined. *)
Definition replacement (prefix : bool) (tg : target) : C string :=
  match tg with
  | TVariable var => mret (if prefix then print_int (ivalue var) else svalue var)
  | TArgument value index => if prefix then mret (print_int index) else deref value
  | TUnknown value _ => deref value
  end.

(** One round of the outer loop from the prefix at [p0]: the state is the string,
    [skip_until] and [index]. *)
Definition substitute_step (wf : oph_workflow) (ti : nat) (li : Z) (skip_arg : cstr) (s : string)
    (skip_until : nat) (index : Z) (p0 : nat) : C (ctl (string * nat * Z) Z) :=
  let '(p, ep, lastc, lastcc) := scan (drop_str (S p0) s) p0 (S p0) true false in
  if (ep <? p)%nat then mret (Break OPH_WORKFLOW_EXIT_GENERIC_ERROR) else
  ok ← malloc;
  if negb ok then mret (Break OPH_WORKFLOW_EXIT_MEMORY_ERROR) else
  let target_value := take_str (ep - p) (drop_str p s) in
  let ep := if lastcc : bool then S ep else ep in
  let key := drop_str (if lastc : bool then 2 else 1) target_value in
  tg ← resolve wf ti li s p lastc lastcc key index skip_arg;
  let index := match tg with TUnknown _ i | TArgument _ i => i | TVariable _ => index end in
  let prefix := bool_decide (char_at s p = Some OPH_WORKFLOW_INDEX_PREFIX) in
  match tg with
  | TUnknown _ _ =>
      if prefix then mret (Break OPH_WORKFLOW_EXIT_BAD_PARAM_ERROR)
      else mret (Next (s, Nat.max skip_until (S p), index))
  | _ =>
      if prefix && (match tg with TArgument _ i => i <? 0 | _ => false end)
      then mret (Break OPH_WORKFLOW_EXIT_BAD_PARAM_ERROR)
      else
        text ← replacement prefix tg;
        ok ← malloc;
        if negb ok then mret (Break OPH_WORKFLOW_EXIT_MEMORY_ERROR)
        else mret (Next (take_str p s +:+ text +:+ drop_str ep s, skip_until, index))
  end.

Fixpoint substitute (fuel : nat) (wf : oph_workflow) (ti : nat) (li : Z) (skip_arg : cstr) (s : string)
    (skip_until : nat) (index : Z) : C (Z * string) :=
  match fuel with
  | O => out_of_fuel
  | S fuel' =>
      p ← next_prefix s skip_until;
      match p with
      | None => mret (OPH_WORKFLOW_EXIT_SUCCESS, s)
      | Some p0 =>
          r ← substitute_step wf ti li skip_arg s skip_until index p0;
          match r with
          | Break rc => mret (rc, s)
          | Next (s', skip_until', index') => substitute fuel' wf ti li skip_arg s' skip_until' index'
          end
      end
  end.

(** [index0] is the value of the uninitialised [index]; the message in [*error] is left
    out. *)
Definition oph_workflow_var_substitute (fuel : nat) (index0 : Z) (wf : option oph_workflow) (ti : nat) (li : Z)
    (submit_string skip_arg : cstr) : C (Z * cstr) :=
  match wf, submit_string with
  | Some wf, Some s => '(rc, s') ← substitute fuel wf ti li skip_arg s 0 index0; mret (rc, Some s')
  | _, _ => mret (OPH_WORKFLOW_EXIT_BAD_PARAM_ERROR, submit_string)
  end.

(** [base] grown by [extension]. *)
Definition oph_workflow_strcat (base extension : cstr) : C (Z * cstr) :=
  match extension with
  | None => mret (OPH_WORKFLOW_EXIT_SUCCESS, base)
  | Some e =>
      ok ← malloc;
      mret (if ok : bool then (OPH_WORKFLOW_EXIT_SUCCESS, Some (default EmptyString base +:+ e))
            else (OPH_WORKFLOW_EXIT_MEMORY_ERROR, base))
  end.

(** ** Basic variables: contents *)

Section basic.
Context (oph_server_host oph_server_port oph_web_server : cstr) (ivalue0 : Z).

(** The texts of the basic variables of a workflow with a session. *)
Definition basic_values (wf : oph_workflow) (s code : string) : list string :=
  [s; code; print_int (workflowid wf); default "none" oph_server_host; default "none" oph_server_port;
   default "none" (username wf); default "none" (password wf); default "none" (os_username wf)]%string.

Definition env_of (kvs : list (string * string)) : gmap string oph_workflow_var :=
  list_to_map ((λ kv, (kv.1, Var (-1) kv.2 ivalue0)) <$> kvs).

Definition basic_env (wf : oph_workflow) (s code : string) : gmap string oph_workflow_var :=
  env_of (zip OPH_WORKFLOW_BVAR_KEYS (basic_values wf s code)).

Lemma insert_default_union {D} (A B : gmap string D) k d :
  B !! k = None → <[k := default d ((A ∪ B) !! k)]> (A ∪ B) = A ∪ <[k := d]> B.
Proof.
  intros HB. apply map_eq. intros k'. destruct (decide (k = k')) as [<-|Hne].
  - rewrite lookup_insert_eq, !lookup_union, HB, lookup_insert_eq. by destruct (A !! k).
  - by rewrite lookup_insert_ne, !lookup_union, lookup_insert_ne.
Qed.

Lemma env_of_snoc kvs k v :
  k ∉ kvs.*1 → env_of (kvs ++ [(k, v)]) = <[k := Var (-1) v ivalue0]> (env_of kvs) ∧ env_of kvs !! k = None.
Proof.
  intros Hk. unfold env_of. rewrite fmap_app. split.
  - simpl. rewrite list_to_map_snoc; [done|]. rewrite <-list_fmap_compose. by intros ?.
  - apply not_elem_of_list_to_map_1. rewrite <-list_fmap_compose. by intros ?.
Qed.

Lemma print_number_fits z : in_i32 z → truncate OPH_WORKFLOW_MIN_STRING (print_int z) = print_int z.
Proof.
  intros Hz. apply take_str_ge. etrans; [by apply length_print_int|]. apply Nat.leb_le. reflexivity.
Qed.

#[local] Opaque OPH_WORKFLOW_MAX_STRING.

(** The text of every basic variable. *)
Lemma wp_basic_var wf s code i v (Q : cstr → mem → Prop) m :
  sessionid wf = Some s → in_i32 (workflowid wf) →
  Auth.oph_get_session_code oph_web_server s m = Ok (Auth.OPH_SERVER_OK, Some code) m →
  (String.length code < OPH_WORKFLOW_MAX_STRING)%nat →
  basic_values wf s code !! i = Some v → reliable m → (∀ m', reliable m' → Q (Some v) m') →
  wp (basic_var oph_server_host oph_server_port oph_web_server wf i) Q m.
Proof.
  intros Hs Hid Hcode Hlen Hv Hm HQ.
  destruct i as [|[|[|[|[|[|[|[|i]]]]]]]]; simpl in Hv; simplify_eq; simpl; rewrite ?Hs; unfold dup_or_none;
    try (by apply wp_strdup).
  - wp_step. unfold wp at 1. rewrite Hcode. cbn -[Nat.ltb]. wp_step. wp_step. wp_step. apply wp_assert; [by apply Nat.ltb_lt|]. by apply wp_strdup.
  - wp_steps. rewrite print_number_fits by done. by apply HQ.
Qed.

(** Where the loop stands: the environment has the first variables. *)
Definition stored (wf : oph_workflow) (A : gmap string oph_workflow_var) (kvs : list (string * string))
    (wf' : oph_workflow) : Prop :=
  ∃ t, wf' = set_wf_vars (Some t) wf ∧ vs_wf t ∧ vs_abs t = A ∪ env_of kvs.

Lemma wp_set_basic wf s code A kvs k v i wf' m :
  sessionid wf = Some s → in_i32 (workflowid wf) →
  (∀ m, Auth.oph_get_session_code oph_web_server s m = Ok (Auth.OPH_SERVER_OK, Some code) m) →
  (String.length code < OPH_WORKFLOW_MAX_STRING)%nat →
  OPH_WORKFLOW_BVAR_KEYS !! i = Some k → basic_values wf s code !! i = Some v → k ∉ kvs.*1 →
  reliable m → stored wf A kvs wf' →
  wp (set_basic oph_server_host oph_server_port oph_web_server ivalue0 wf' i) (λ c m',
    match c with
    | Next wf'' => reliable m' ∧ stored wf A (kvs ++ [(k, v)]) wf''
    | Break _ => False
    end) m.
Proof.
  intros Hs Hid Hcode Hlen Hk Hv Hnew Hm (t & -> & Ht & HA). unfold set_basic. wp_step.
  apply (wp_basic_var (set_wf_vars (Some t) wf) s code i v); [done..|]. intros m1 Hm1. wp_step. wp_step. simpl negb. cbv iota.
  wp_step. apply (wp_deref _ _ _ _ Hk). wp_step. apply (wp_deref _ _ _ t eq_refl). wp_step.
  eapply wp_mono; [by apply vs_insert_spec|]. intros [rc t'] m2 (Hm2 & Ht' & HA'). wp_step.
  split; [done|]. exists t'. split_and!; [done..|]. cbn [snd] in HA'.
  destruct (env_of_snoc kvs k v Hnew) as [-> Hn]. rewrite HA'. rewrite HA. by apply insert_default_union.
Qed.

(** given memory, [oph_workflow_set_basic_var] of a workflow whose session has a code
    adds the eight basic variables to the environment, changes no variable that was
    there, and nothing else of the workflow. *)
Theorem set_basic_var_stores (wf : oph_workflow) (t : HASHTBL oph_workflow_var) (s code : string) (m : mem) :
  wf_vars wf = Some t → hash_wf t → sessionid wf = Some s → in_i32 (workflowid wf) →
  (∀ m, Auth.oph_get_session_code oph_web_server s m = Ok (Auth.OPH_SERVER_OK, Some code) m) →
  (String.length code < OPH_WORKFLOW_MAX_STRING)%nat → reliable m →
  wp (oph_workflow_set_basic_var oph_server_host oph_server_port oph_web_server ivalue0 (Some wf)) (λ r _,
    ∃ t', r = (OPH_WORKFLOW_EXIT_SUCCESS, Some (set_wf_vars (Some t') wf)) ∧ hash_wf t' ∧
      abs t' = abs t ∪ basic_env wf s code) m.
Proof.
  intros Hvars Ht Hs Hid Hcode Hlen Hm. unfold oph_workflow_set_basic_var. wp_step.
  set (kvs := zip OPH_WORKFLOW_BVAR_KEYS (basic_values wf s code)).
  eapply wp_mono; [apply (wp_loopC _ (λ don wf' m', reliable m' ∧ stored wf (abs t) (take (length don) kvs) wf')
    (λ _ _, False))|].
  - split; [done|]. exists t. split_and!; [by destruct wf; simpl in *; subst| done|].
    change (abs t = abs t ∪ ∅). by rewrite map_union_empty.
  - intros don i rest wf' m' Hseq [Hm' Hst]. apply seq_app_cons_inv in Hseq as (-> & _ & Hi).
    assert (is_Some (OPH_WORKFLOW_BVAR_KEYS !! length don)) as [k Hk] by (by apply lookup_lt_is_Some).
    assert (is_Some (basic_values wf s code !! length don)) as [v Hv] by (by apply lookup_lt_is_Some).
    assert (kvs !! length don = Some (k, v)) as Hkv by (apply lookup_zip_with_Some; eauto).
    eapply wp_mono; [apply (wp_set_basic wf s code (abs t) (take (length don) kvs) k v); try done|].
    + intros Hin. apply list_elem_of_fmap in Hin as ([k' v'] & -> & Hin).
      apply list_elem_of_lookup in Hin as (j & Hj). apply lookup_take_Some in Hj as [Hj Hlt].
      apply lookup_zip_with_Some in Hj as (? & ? & [= <- <-] & Hj & _). simpl in Hk.
      assert (NoDup OPH_WORKFLOW_BVAR_KEYS) as Hnd by (by apply (bool_decide_unpack _)).
      pose proof (NoDup_lookup _ _ _ _ Hnd Hj Hk). lia.
    + intros [wf''|r] m'' Hc; [|done]. rewrite length_app, Nat.add_1_r. by erewrite take_S_r.
  - intros [wf'|r] m' Hc; [|done]. destruct Hc as (_ & t' & -> & Ht' & HA). wp_step. eauto.
Qed.
End basic.

Definition sample_env : HASHTBL oph_workflow_var := Tbl 1 [[Node "OPH_USER" (Var 0 "me" 7) 30]] def_hashfunc.

Lemma sample_env_wf : hash_wf sample_env.
Proof.
  constructor; [simpl; lia|done|by apply NoDup_singleton|].
  intros [|[|i]] c n Hi Hn; simplify_eq/=. by apply list_elem_of_singleton in Hn as ->.
Qed.

Definition sample_session : oph_workflow :=
  set_wf_vars (Some sample_env) (set_sessionid (Some "http://s/1/sessions/42/experiment") zero_workflow).

Lemma set_basic_var_stores_witness :
  wp (oph_workflow_set_basic_var (Some "h"%string) None (Some "http://s/1"%string) 0 (Some sample_session)) (λ r _,
    ∃ t', r = (OPH_WORKFLOW_EXIT_SUCCESS, Some (set_wf_vars (Some t') sample_session)) ∧ hash_wf t' ∧
      abs t' !! "OPH_USER"%string = Some (Var 0 "me" 7) ∧ abs t' !! "OPH_SESSION_CODE"%string = Some (Var (-1) "42" 0)) [].
Proof.
  eapply wp_mono.
  - apply (set_basic_var_stores (Some "h"%string) None (Some "http://s/1"%string) 0 sample_session sample_env
      "http://s/1/sessions/42/experiment" "42"); try reflexivity; [apply sample_env_wf|done| |apply reliable_nil].
    apply Nat.ltb_lt. reflexivity.
  - intros r m (t' & -> & Ht' & HA). exists t'. rewrite HA. split_and!; [done..| |]; by vm_compute.
Defined.

(** Without a session the loop stops at the second variable with a memory error, after
    storing the text ["none"] that the first one has for this case. *)
Theorem set_basic_var_no_session host port web (ivalue0 : Z) (wf : oph_workflow) (t : HASHTBL oph_workflow_var) (m : mem) :
  wf_vars wf = Some t → hash_wf t → sessionid wf = None → reliable m →
  wp (oph_workflow_set_basic_var host port web ivalue0 (Some wf)) (λ r _,
    ∃ t', r = (OPH_WORKFLOW_EXIT_MEMORY_ERROR, Some (set_wf_vars (Some t') wf)) ∧
      abs t' = <["OPH_SESSION_ID" := default (Var (-1) "none" ivalue0) (abs t !! "OPH_SESSION_ID")]> (abs t))%string m.
Proof.
  intros Hvars Ht Hs Hm. unfold oph_workflow_set_basic_var. wp_step.
  change (seq 0 OPH_WORKFLOW_BVAR_KEYS_SIZE) with (0%nat :: 1%nat :: seq 2 6). cbn [loopC]. wp_step.
  unfold set_basic at 1. wp_step. cbn [basic_var]. unfold dup_or_none. rewrite Hs. apply wp_strdup; [done|].
  intros m1 Hm1. wp_step. wp_step. simpl negb. cbv iota. wp_step. apply (wp_deref _ _ _ _ eq_refl).
  wp_step. apply (wp_deref _ _ _ t Hvars). wp_step. eapply wp_mono; [by apply vs_insert_spec|].
  intros [rc t'] m2 (Hm2 & Ht' & HA'). wp_step. cbv beta iota. wp_step. unfold set_basic at 1. wp_step.
  cbn [basic_var]. change (sessionid (set_wf_vars (Some t') wf)) with (sessionid wf). rewrite Hs. do 4 wp_step.
  exists t'. split; [done|exact HA'].
Qed.

(** ** Templates *)

(** Literal text, [@name] and [@{name}]. *)
Inductive segment : Type :=
| Lit (s : string)
| Plain (key : string)
| Braced (key : string).

Definition segment_text (g : segment) : string :=
  match g with
  | Lit s => s
  | Plain k => String OPH_WORKFLOW_VARIABLE_PREFIX k
  | Braced k =>
      String OPH_WORKFLOW_VARIABLE_PREFIX (String OPH_WORKFLOW_BRACKET_OPEN (k +:+ String OPH_WORKFLOW_BRACKET_CLOSE ""))
  end%string.

Fixpoint template (l : list segment) : string :=
  match l with [] => EmptyString | g :: l' => segment_text g +:+ template l' end.

Fixpoint render (val : string → string) (l : list segment) : string :=
  match l with
  | [] => EmptyString
  | Lit s :: l' => s +:+ render val l'
  | Plain k :: l' | Braced k :: l' => val k +:+ render val l'
  end.

Definition keys_of (l : list segment) : list string :=
  omap (λ g, match g with Lit _ => None | Plain k | Braced k => Some k end) l.

(** Text without a prefix. *)
Definition literal (s : string) : bool := none_of is_prefix s.

Definition identifier (k : string) : bool :=
  match k with
  | EmptyString => false
  | String c k' => name_char false c && none_of (λ c, negb (name_char true c)) k'
  end.

(** A name in brackets may have any character but the separators. *)
Definition bracket_name (k : string) : bool :=
  negb (bool_decide (k = EmptyString)) && none_of (λ c, has_char c OPH_WORKFLOW_SEPARATORS) k.

(** The text ends a name. *)
Definition ends_name (t : string) : bool :=
  match t with EmptyString => true | String c _ => negb (name_char true c) && negb (is_prefix c) end.

Fixpoint template_ok (l : list segment) : bool :=
  match l with
  | [] => true
  | Lit s :: l' => literal s && template_ok l'
  | Plain k :: l' => identifier k && ends_name (template l') && template_ok l'
  | Braced k :: l' => bracket_name k && template_ok l'
  end.

Lemma name_char_weaken c : name_char false c = true → name_char true c = true.
Proof. destruct c as [[] [] [] [] [] [] [] []]; vm_compute; done. Qed.

Lemma name_char_plain c : name_char true c = true → has_char c OPH_WORKFLOW_SEPARATORS = false.
Proof. destruct c as [[] [] [] [] [] [] [] []]; vm_compute; done. Qed.

Lemma name_char_open c : name_char true c = true → (c =c OPH_WORKFLOW_BRACKET_OPEN) = false.
Proof. destruct c as [[] [] [] [] [] [] [] []]; vm_compute; done. Qed.

Lemma scan_name k t p ep :
  none_of (λ c, negb (name_char true c)) k = true → (1 < ep - p)%nat →
  scan (k +:+ t) p ep false false = scan t p (ep + String.length k) false false.
Proof.
  revert ep. induction k as [|c k IH]; intros ep Hk Hep; [by rewrite app_str_nil, Nat.add_0_r|].
  simpl in Hk. apply andb_true_iff in Hk as [Hc Hk]. rewrite negb_involutive in Hc.
  rewrite app_str_cons. cbn [scan andb orb]. rewrite (name_char_plain c Hc).
  rewrite (proj2 (Nat.ltb_lt 1 (ep - p)) Hep), Hc, IH by (done || lia). simpl. f_equal. lia.
Qed.

Lemma scan_end t p ep : ends_name t = true → scan t p ep false false = (p, ep, false, false).
Proof.
  destruct t as [|c t]; [done|]. cbn [ends_name scan andb orb]. intros [Hn Hp]%andb_true_iff.
  rewrite (proj1 (negb_true_iff _) Hp). destruct (has_char c OPH_WORKFLOW_SEPARATORS); [done|].
  assert (name_char (1 <? ep - p)%nat c = false) as ->; [|done].
  apply negb_true_iff in Hn. destruct (1 <? ep - p)%nat; [done|].
  apply not_true_iff_false. intros H%name_char_weaken. congruence.
Qed.

Lemma scan_plain k t p :
  identifier k = true → ends_name t = true →
  scan (k +:+ t) p (S p) true false = (p, (S p + String.length k)%nat, false, false).
Proof.
  destruct k as [|c k]; [done|]. simpl identifier. intros [Hc Hk]%andb_true_iff Ht.
  rewrite app_str_cons. cbn [scan andb orb]. pose proof (name_char_weaken _ Hc) as Hc'.
  rewrite (name_char_open c Hc'), (name_char_plain c Hc').
  replace (1 <? S p - p)%nat with false by (symmetry; apply Nat.ltb_ge; lia). rewrite Hc.
  rewrite scan_name, scan_end by (done || lia). simpl. do 3 f_equal. lia.
Qed.

Lemma scan_bracket k t p ep :
  none_of (λ c, has_char c OPH_WORKFLOW_SEPARATORS) k = true →
  scan (k +:+ String OPH_WORKFLOW_BRACKET_CLOSE t) p ep false true = (p, (ep + String.length k)%nat, true, true).
Proof.
  revert ep. induction k as [|c k IH]; intros ep Hk; [by rewrite app_str_nil, Nat.add_0_r|].
  simpl in Hk. apply andb_true_iff in Hk as [Hc%negb_true_iff Hk]. rewrite app_str_cons. cbn [scan andb orb].
  rewrite Hc. assert ((c =c OPH_WORKFLOW_BRACKET_CLOSE) = false) as ->.
  { apply not_true_iff_false. intros ->%Ascii.eqb_eq. done. }
  rewrite IH by done. simpl. do 3 f_equal. lia.
Qed.

Lemma scan_braced k t p :
  none_of (λ c, has_char c OPH_WORKFLOW_SEPARATORS) k = true →
  scan (String OPH_WORKFLOW_BRACKET_OPEN (k +:+ String OPH_WORKFLOW_BRACKET_CLOSE t)) p (S p) true false =
  (p, (S (S p) + String.length k)%nat, true, true).
Proof. intros Hk. cbn [scan andb orb]. rewrite Ascii.eqb_refl. by apply scan_bracket. Qed.

(** ** Offsets *)

Lemma drop_str_app s t : drop_str (String.length s) (s +:+ t) = t.
Proof. induction s as [|c s IH]; [done|]. by rewrite app_str_cons. Qed.

Lemma drop_str_S s c t : drop_str (S (String.length s)) (s +:+ String c t) = t.
Proof. induction s as [|a s IH]; [done|]. rewrite app_str_cons. apply IH. Qed.

Lemma drop_str_app_add s t n : drop_str (String.length s + n) (s +:+ t) = drop_str n t.
Proof. induction s as [|a s IH]; [done|]. rewrite app_str_cons. apply IH. Qed.

Lemma get_app s c t : char_at (s +:+ String c t) (String.length s) = Some c.
Proof. induction s as [|a s IH]; [done|]. rewrite app_str_cons. apply IH. Qed.

Lemma index_of_char_app c s t : none_of (Ascii.eqb c) s = true →
  index_of_char c (s +:+ t) = (λ n, (String.length s + n)%nat) <$> index_of_char c t.
Proof.
  induction s as [|a s IH]; simpl none_of.
  - intros _. rewrite app_str_nil. simpl. by destruct (index_of_char c t).
  - intros [Ha Hs]%andb_true_iff. apply negb_true_iff in Ha. rewrite app_str_cons. simpl.
    rewrite Ascii.eqb_sym, Ha, IH by done. by destruct (index_of_char c t).
Qed.

Lemma none_of_weaken (f g : ascii → bool) s :
  (∀ c, g c = true → f c = true) → none_of f s = true → none_of g s = true.
Proof.
  intros Hfg. induction s as [|c s IH]; simpl; [done|]. intros [Hc Hs]%andb_true_iff.
  apply andb_true_iff. split; [|by apply IH]. apply negb_true_iff in Hc. apply negb_true_iff, not_true_iff_false.
  intros H%Hfg. congruence.
Qed.

Lemma literal_no c s : is_prefix c = true → literal s = true → none_of (Ascii.eqb c) s = true.
Proof. intros Hc. apply none_of_weaken. by intros d ->%Ascii.eqb_eq. Qed.

Lemma next_prefix_at s t m : none_of (Ascii.eqb OPH_WORKFLOW_VARIABLE_PREFIX) s = true →
  next_prefix (s +:+ String OPH_WORKFLOW_VARIABLE_PREFIX t) 0 m = Ok (Some (String.length s)) m.
Proof.
  intros Hs. unfold next_prefix. cbn [drop_str]. rewrite index_of_char_app by done. simpl.
  unfold mbind, C_bind, mret, C_ret. simpl. by rewrite Nat.add_0_r.
Qed.

Lemma index_of_char_none c s : none_of (Ascii.eqb c) s = true → index_of_char c s = None.
Proof. intros Hs. rewrite <-(app_str_nil_r s), index_of_char_app by done. done. Qed.

Lemma next_prefix_none s m : literal s = true → next_prefix s 0 m = Ok None m.
Proof.
  intros Hs. unfold next_prefix. cbn [drop_str]. rewrite !index_of_char_none by (by apply literal_no). done.
Qed.

(** ** Visible variables *)

(** The variable a name stands for in a task: one of the task itself, or one of the
    workflow set for everybody or by a task this one depends on. *)
Definition visible_var (wf : oph_workflow) (ti : nat) (key : string) (v : oph_workflow_var) : Prop :=
  ∃ t, tasks wf !! ti = Some t ∧ env_wf (vars t) ∧ env_wf (wf_vars wf) ∧
    (env_abs (vars t) !! key = Some v ∨
     env_abs (vars t) !! key = None ∧ env_abs (wf_vars wf) !! key = Some v ∧
       (caller v < 0 ∨
        ∃ q : nat, caller v = Z.of_nat q ∧ WfSetup.indexed (tasks wf) (tasks_num wf) ∧
          WfDag.acyclic (tasks wf) (tasks_num wf) ∧ (q < tasks_num wf)%nat ∧ (ti < tasks_num wf)%nat ∧
          rtc (WfDag.depends (tasks wf) (tasks_num wf)) q ti)).

Lemma wp_find_var wf ti key v (Q : option oph_workflow_var → mem → Prop) m :
  visible_var wf ti key v → Q (Some v) m → wp (find_var wf ti key) Q m.
Proof.
  intros (t & Ht & Hwf1 & Hwf2 & Hv) HQ. unfold find_var. wp_step. apply (wp_deref _ _ _ _ Ht).
  wp_step. apply wp_env_get; [done|]. destruct Hv as [->|(-> & Hv & Hc)]; [by wp_step|].
  wp_step. apply wp_env_get; [done|]. rewrite Hv. wp_step.
  destruct (Z.ltb_spec (caller v) 0) as [Hneg|Hpos]; [by wp_steps|].
  destruct Hc as [Hc|(q & Hq & Hix & Hac & Hlt & Hti & Hr)]; [lia|]. rewrite Hq.
  eapply wp_mono; [by apply WfFlow.wp_workflow_is_child|]. intros b m' [-> Hb]. wp_step.
  by rewrite (proj2 Hb Hr).
Qed.

(** A name between the prefix at [p] and [ep], in brackets or not, that stands for a
    variable is replaced by its text. *)
Lemma step_variable wf ti li skip s index p ep b key v m :
  scan (drop_str (S p) s) p (S p) true false = (p, ep, b, b) → (p ≤ ep)%nat →
  char_at s p = Some OPH_WORKFLOW_VARIABLE_PREFIX →
  drop_str (if b : bool then 2 else 1) (take_str (ep - p) (drop_str p s)) = key → key ≠ EmptyString →
  visible_var wf ti key v → reliable m →
  wp (substitute_step wf ti li skip s 0 index p) (λ r m', reliable m' ∧
    r = Next (take_str p s +:+ svalue v +:+ drop_str (if b then S ep else ep) s, 0%nat, index)) m.
Proof.
  intros Hscan Hep Hp Hkey Hne Hv Hm. unfold substitute_step. rewrite Hscan.
  rewrite (proj2 (Nat.ltb_ge _ _)) by done. wp_step. wp_step. simpl negb. cbv iota. rewrite Hkey.
  wp_step. unfold resolve. rewrite eqb_reflx. simpl negb. cbv iota. rewrite bool_decide_false by done.
  wp_step. apply (wp_find_var _ _ _ v); [done|]. wp_step. rewrite Hp, bool_decide_false by done.
  simpl andb. cbv iota. unfold replacement. do 4 wp_step. simpl negb. cbv iota. by wp_step.
Qed.

Lemma take_drop_plain pre k rest :
  let s := pre +:+ String OPH_WORKFLOW_VARIABLE_PREFIX (k +:+ rest) in
  drop_str 1 (take_str (S (String.length pre) + String.length k - String.length pre) (drop_str (String.length pre) s)) = k.
Proof.
  intros s. unfold s. rewrite drop_str_app.
  replace (S (String.length pre) + String.length k - String.length pre)%nat with (S (String.length k)) by lia.
  cbn [take_str drop_str]. apply take_str_app.
Qed.

Lemma step_plain wf ti li skip pre k rest index v m :
  identifier k = true → ends_name rest = true → visible_var wf ti k v → reliable m →
  wp (substitute_step wf ti li skip (pre +:+ String OPH_WORKFLOW_VARIABLE_PREFIX (k +:+ rest)) 0 index (String.length pre))
    (λ r m', reliable m' ∧ r = Next (pre +:+ svalue v +:+ rest, 0%nat, index)) m.
Proof.
  intros Hk Hrest Hv Hm. eapply wp_mono.
  - apply (step_variable wf ti li skip _ index (String.length pre) (S (String.length pre) + String.length k) false k v m);
      [rewrite drop_str_S; by apply scan_plain|lia|apply get_app|apply take_drop_plain|by destruct k|done|done].
  - intros r m' [Hm' ->]. split; [done|]. rewrite take_str_app.
    replace (S (String.length pre) + String.length k)%nat with (String.length pre + S (String.length k))%nat by lia.
    rewrite drop_str_app_add. cbn [drop_str]. by rewrite drop_str_app.
Qed.

Lemma step_braced wf ti li skip pre k rest index v m :
  bracket_name k = true → visible_var wf ti k v → reliable m →
  wp (substitute_step wf ti li skip (pre +:+ segment_text (Braced k) +:+ rest) 0 index (String.length pre))
    (λ r m', reliable m' ∧ r = Next (pre +:+ svalue v +:+ rest, 0%nat, index)) m.
Proof.
  intros [Hne Hk]%andb_true_iff Hv Hm. apply negb_true_iff, bool_decide_eq_false in Hne.
  cbn [segment_text]. rewrite !app_str_cons, app_str_assoc, app_str_cons, app_str_nil. eapply wp_mono.
  - apply (step_variable wf ti li skip _ index (String.length pre) (S (S (String.length pre)) + String.length k) true k v m);
      [rewrite drop_str_S; by apply scan_braced|lia|apply get_app| |done|done|done].
    rewrite drop_str_app.
    replace (S (S (String.length pre)) + String.length k - String.length pre)%nat with (S (S (String.length k))) by lia.
    cbn [take_str drop_str]. apply take_str_app.
  - intros r m' [Hm' ->]. split; [done|]. rewrite take_str_app.
    replace (S (S (S (String.length pre)) + String.length k))%nat with (String.length pre + S (S (S (String.length k))))%nat by lia.
    rewrite drop_str_app_add. do 5 f_equal. apply (drop_str_S k).
Qed.

(** One round of the outer loop. *)
Lemma substitute_round fuel wf ti li skip pre t index s' (Q : Z * string → mem → Prop) m :
  literal pre = true →
  let s := pre +:+ String OPH_WORKFLOW_VARIABLE_PREFIX t in
  wp (substitute_step wf ti li skip s 0 index (String.length pre))
    (λ r m', reliable m' ∧ r = Next (s', 0%nat, index)) m →
  (∀ m', reliable m' → wp (substitute fuel wf ti li skip s' 0 index) Q m') →
  wp (substitute (S fuel) wf ti li skip s 0 index) Q m.
Proof.
  intros Hpre s Hstep HQ. cbn [substitute]. wp_step. unfold wp at 1.
  unfold s at 1. rewrite next_prefix_at by (by apply literal_no).
  wp_step. eapply wp_mono; [exact Hstep|]. intros r m' [Hm' ->]. by apply HQ.
Qed.

Section template.
Context (wf : oph_workflow) (ti : nat) (val : string → string).

(** Every name of the template stands for a variable with the given, literal text. *)
Definition bound (k : string) : Prop :=
  ∃ v, visible_var wf ti k v ∧ svalue v = val k ∧ literal (val k) = true.

Lemma substitute_template_from fuel li skip l don index m :
  literal don = true → template_ok l = true → Forall bound (keys_of l) → (length (keys_of l) < fuel)%nat → reliable m →
  wp (substitute fuel wf ti li skip (don +:+ template l) 0 index) (λ r _,
    r = (OPH_WORKFLOW_EXIT_SUCCESS, don +:+ render val l)) m.
Proof.
  revert fuel don m. induction l as [|[s|k|k] l IH]; intros fuel don m Hdon Hok Hb Hf Hm.
  - simpl. rewrite app_str_nil_r. destruct fuel as [|fuel]; [simpl in Hf; lia|]. cbn [substitute].
    wp_step. unfold wp at 1. rewrite next_prefix_none by done. by wp_step.
  - cbn [template_ok] in Hok. apply andb_true_iff in Hok as [Hs Hok]. cbn [template segment_text render].
    rewrite <-!app_str_assoc. apply IH; try done. unfold literal in *. by rewrite none_of_app, Hdon, Hs.
  - cbn [template_ok] in Hok. apply andb_true_iff in Hok as [[Hk He]%andb_true_iff Hok].
    apply Forall_cons in Hb as [(v & Hv & Hval & Hlit) Hb]. destruct fuel as [|fuel]; [simpl in Hf; lia|].
    cbn [template segment_text render]. rewrite app_str_cons.
    eapply substitute_round; [done|by apply step_plain|]. intros m' Hm'. rewrite Hval, <-!app_str_assoc.
    apply IH; try done; [|simpl in Hf; lia]. unfold literal in *. by rewrite none_of_app, Hdon, Hlit.
  - cbn [template_ok] in Hok. apply andb_true_iff in Hok as [Hk Hok].
    apply Forall_cons in Hb as [(v & Hv & Hval & Hlit) Hb]. destruct fuel as [|fuel]; [simpl in Hf; lia|].
    cbn [template render]. eapply (substitute_round _ _ _ _ _ don); [done|by apply (step_braced _ _ _ _ don k)|].
    intros m' Hm'. rewrite Hval, <-!app_str_assoc.
    apply IH; try done; [|simpl in Hf; lia]. unfold literal in *. by rewrite none_of_app, Hdon, Hlit.
Qed.
End template.

(** C24: A text made of literal text and of references to variables (@name, @{name}) that are visible in the task, and
    whose own texts hold no '@' or '&' (otherwise they are expanded further, perhaps for ever), is rewritten with
    every reference replaced by the text of its variable, given memory and one round per reference and one more. *)
Theorem substitute_expands_template (fuel : nat) (index0 : Z) (wf : oph_workflow) (ti : nat) (li : Z) (skip_arg : cstr)
    (val : string → string) (l : list segment) (m : mem) :
  template_ok l = true → Forall (bound wf ti val) (keys_of l) → (length (keys_of l) < fuel)%nat → reliable m →
  wp (oph_workflow_var_substitute fuel index0 (Some wf) ti li (Some (template l)) skip_arg) (λ r _,
    r = (OPH_WORKFLOW_EXIT_SUCCESS, Some (render val l))) m.
Proof.
  intros Hok Hb Hf Hm. unfold oph_workflow_var_substitute. wp_step.
  eapply wp_mono; [by apply (substitute_template_from wf ti val fuel li skip_arg l "" index0)|].
  intros r m' ->. by wp_step.
Qed.

Definition sample_task : oph_workflow_task := set_vars (Some sample_env) zero_task.
Definition sample_wf : oph_workflow := set_tasks [sample_task] (set_tasks_num 1 zero_workflow).
Definition sample_template : list segment := [Lit "a="; Braced "OPH_USER"; Plain "OPH_USER"; Lit ";"].

Lemma sample_bound : bound sample_wf 0 (λ _, "me"%string) "OPH_USER".
Proof.
  exists (Var 0 "me" 7). split_and!; [|done..]. exists sample_task.
  split_and!; [done|apply sample_env_wf|done|]. left. reflexivity.
Defined.

Lemma substitute_expands_template_witness :
  template sample_template = "a=@{OPH_USER}@OPH_USER;"%string ∧
  wp (oph_workflow_var_substitute 3 0 (Some sample_wf) 0 (-1) (Some (template sample_template)) None) (λ r _,
    r = (OPH_WORKFLOW_EXIT_SUCCESS, Some "a=meme;"%string)) [].
Proof.
  split; [reflexivity|].
  apply (substitute_expands_template 3 0 sample_wf 0 (-1) None (λ _, "me"%string) sample_template);
    [reflexivity| |simpl; lia|apply reliable_nil]. repeat constructor; apply sample_bound.
Defined.

(** A prefix is bare when no name follows: the end of the text, a character that
    cannot start a name, or empty brackets. *)
Definition bare (t : string) : bool :=
  match t with
  | EmptyString => true
  | String c t' =>
      if c =c OPH_WORKFLOW_BRACKET_OPEN
      then match t' with String d _ => d =c OPH_WORKFLOW_BRACKET_CLOSE | EmptyString => false end
      else negb (name_char false c) && negb (is_prefix c)
  end.

Lemma scan_bare t p : bare t = true →
  ∃ b, scan t p (S p) true false = (p, if b : bool then S (S p) else S p, b, b).
Proof.
  destruct t as [|c t]; [by exists false|]. cbn [bare scan andb orb].
  destruct (c =c OPH_WORKFLOW_BRACKET_OPEN) eqn:Hc.
  - destruct t as [|d t]; [done|]. intros Hd. exists true. cbn [scan andb orb]. by rewrite Hd.
  - intros [Hn%negb_true_iff Hp%negb_true_iff]%andb_true_iff. exists false.
    replace (1 <? S p - p)%nat with false by (symmetry; apply Nat.ltb_ge; lia).
    rewrite Hp, Hn. by destruct (has_char c OPH_WORKFLOW_SEPARATORS).
Qed.

(** The first prefix decides the first round. *)
Lemma substitute_first fuel wf ti li skip pre t index m :
  none_of (Ascii.eqb OPH_WORKFLOW_VARIABLE_PREFIX) pre = true →
  let s := pre +:+ String OPH_WORKFLOW_VARIABLE_PREFIX t in
  substitute_step wf ti li skip s 0 index (String.length pre) m = UB →
  substitute (S fuel) wf ti li skip s 0 index m = UB.
Proof.
  intros Hpre s Hub. cbn [substitute]. erewrite bind_run by (by apply next_prefix_at).
  cbv iota. unfold mbind at 1, C_bind at 1. by rewrite Hub.
Qed.

(** a [@] that is not followed by a name (an address such as [me@1.2.3.4], a [@] at
    the end of a value) makes [oph_workflow_var_substitute] take the length of a null
    string, whatever the environments hold. *)
Theorem bare_prefix_ub (fuel : nat) (index0 : Z) (wf : oph_workflow) (ti : nat) (li : Z) (skip_arg : cstr)
    (pre t : string) (m : mem) :
  none_of (Ascii.eqb OPH_WORKFLOW_VARIABLE_PREFIX) pre = true → bare t = true → reliable m →
  oph_workflow_var_substitute (S fuel) index0 (Some wf) ti li
    (Some (pre +:+ String OPH_WORKFLOW_VARIABLE_PREFIX t)) skip_arg m = UB.
Proof.
  intros Hpre Hbare Hm. unfold oph_workflow_var_substitute, mbind at 1, C_bind at 1.
  rewrite substitute_first; [done|done|]. unfold substitute_step. rewrite drop_str_S.
  destruct (scan_bare t (String.length pre) Hbare) as [b ->].
  rewrite (proj2 (Nat.ltb_ge _ _)) by (destruct b; lia). apply bind_ub. wp_step. simpl negb. cbv iota.
  assert (drop_str (if b then 2 else 1)
    (take_str ((if b : bool then S (S (String.length pre)) else S (String.length pre)) - String.length pre)
      (drop_str (String.length pre) (pre +:+ String OPH_WORKFLOW_VARIABLE_PREFIX t))) = EmptyString) as ->.
  { rewrite drop_str_app. destruct b.
    - replace (S (S (String.length pre)) - String.length pre)%nat with 2%nat by lia. by destruct t.
    - replace (S (String.length pre) - String.length pre)%nat with 1%nat by lia. done. }
  unfold resolve. rewrite eqb_reflx. simpl negb. cbv iota. rewrite (bool_decide_true (EmptyString = EmptyString)) by done. change (negb true) with false. cbv iota.
  erewrite bind_run by done. cbv beta iota. rewrite get_app, bool_decide_false by done. reflexivity.
Qed.

Lemma bare_prefix_ub_witness :
  oph_workflow_var_substitute 1 0 (Some sample_wf) 0 (-1) (Some "mail=me@1.2.3.4;"%string) None [] = UB.
Proof. apply (bare_prefix_ub 0 0 sample_wf 0 (-1) None "mail=me" "1.2.3.4;"); [reflexivity..|apply reliable_nil]. Defined.

(** C32: a variable whose text refers to the variable itself makes
    [oph_workflow_var_substitute] run forever: no number of rounds is enough, and the
    string never gets rid of the reference. *)
Theorem self_reference_diverges (fuel : nat) (index0 : Z) (wf : oph_workflow) (ti : nat) (li : Z) (skip_arg : cstr)
    (k pre before after rest : string) (v : oph_workflow_var) (m : mem) :
  identifier k = true → visible_var wf ti k v →
  svalue v = before +:+ String OPH_WORKFLOW_VARIABLE_PREFIX (k +:+ after) →
  literal pre = true → literal before = true → ends_name after = true → ends_name rest = true → reliable m →
  oph_workflow_var_substitute fuel index0 (Some wf) ti li
    (Some (pre +:+ String OPH_WORKFLOW_VARIABLE_PREFIX (k +:+ rest))) skip_arg m = OutOfFuel.
Proof.
  intros Hk Hv Hval Hpre Hbefore Hafter Hrest Hm.
  unfold oph_workflow_var_substitute, mbind at 1, C_bind at 1.
  enough (substitute fuel wf ti li skip_arg (pre +:+ String OPH_WORKFLOW_VARIABLE_PREFIX (k +:+ rest)) 0 index0 m
    = OutOfFuel) as -> by done.
  revert pre rest m Hpre Hrest Hm. induction fuel as [|fuel IH]; intros pre rest m Hpre Hrest Hm; [done|].
  cbn [substitute]. erewrite bind_run by (by apply next_prefix_at, literal_no). cbv iota.
  destruct (wp_run _ _ _ (step_plain wf ti li skip_arg pre k rest index0 v m Hk Hrest Hv Hm)) as (r & m' & Hr & Hm' & ->).
  erewrite bind_run by exact Hr. cbv beta iota. rewrite Hval, app_str_assoc, app_str_cons, app_str_assoc.
  rewrite <-(app_str_assoc pre). apply IH; [| |done].
  - unfold literal in *. by rewrite none_of_app, Hpre, Hbefore.
  - by destruct after.
Qed.

Definition loop_env : HASHTBL oph_workflow_var := Tbl 1 [[Node "A" (Var 0 "x@A" 0) 30]] def_hashfunc.
Definition loop_wf : oph_workflow :=
  set_tasks [set_vars (Some loop_env) zero_task] (set_tasks_num 1 zero_workflow).

Lemma loop_env_wf : hash_wf loop_env.
Proof.
  constructor; [simpl; lia|done|by apply NoDup_singleton|].
  intros [|[|i]] c n Hi Hn; simplify_eq/=. by apply list_elem_of_singleton in Hn as ->.
Qed.

Lemma self_reference_diverges_witness :
  oph_workflow_var_substitute 1000 0 (Some loop_wf) 0 (-1) (Some "v=@A;"%string) None [] = OutOfFuel.
Proof.
  apply (self_reference_diverges 1000 0 loop_wf 0 (-1) None "A" "v=" "x" "" ";" (Var 0 "x@A" 0));
    try reflexivity; [|apply reliable_nil].
  exists (set_vars (Some loop_env) zero_task). split_and!; [done|apply loop_env_wf|done|]. left. reflexivity.
Defined.
End WfVars.
