(* ===== verification/WfSubmit.v ===== *)
(** * Submission strings ([src/src/oph_workflow/oph_workflow_utils.c])

    [oph_workflow_get_submission_string] builds the text with which a task is submitted: the fields of the
    workflow and the arguments of the task (or of one of its light tasks) as pairs
    [key=value;], with the paths below the folder of the session and the variables replaced;
    [oph_workflow_get_submitted_string] builds the text that is shown.  The texts are read by the task
    parser ([TaskParser]): an argument of a task is found there with its value. *)

From Stdlib Require Ascii.
From stdpp Require Import base gmap strings numbers pretty list.
From S2P Require Import Prelude CString CDouble HashTbl WfStructs WfSetup WfFlow Auth ArgParser WfVars TaskParser.
Import (notations) Stdlib.Strings.Ascii.
Import HashTbl WfStructs WfSetup WfVars.

Module WfSubmit.

#[local] Open Scope Z_scope.
#[local] Open Scope cstr_scope.

Definition OPH_WORKFLOW_FINAL_TASK : string := "Final task".
Definition OPH_WORKFLOW_ROOT_FOLDER : string := "/".
Definition OPH_WORKFLOW_PATH_SET : list string := ["cwd"; "path"]%string.
Definition OPH_WORKFLOW_KEY_HOST_PARTITION : string := "host_partition".
Definition OPH_WORKFLOW_KEY_NHOSTS : string := "nhost".

(** ["%s=%s;"]; the format for values with an equals sign is the same. *)
Definition pair_text (k v : string) : string := k +:+ "=" +:+ v +:+ ";".

(** The checks of the indexes; the task after the last one is the final one. *)
Definition bad_task_index (wf : oph_workflow) (ti : Z) : C bool :=
  if (ti <? 0) || (Z.of_nat (tasks_num wf) <? ti) then mret true
  else if ti =? Z.of_nat (tasks_num wf) then
    t ← deref (tasks wf !! Z.to_nat ti); b ← strcmp0 (name t) (Some OPH_WORKFLOW_FINAL_TASK); mret (negb b)
  else mret false.

(** The arguments and the marker of the task or of its light task. *)
Definition own_arguments (t : oph_workflow_task) (li : Z) : option (list (cstr * cstr) * Z) :=
  if li <? 0 then Some ((λ a, (arg_key a, arg_value a)) <$> arguments t, markerid t)
  else l ← light_tasks t !! Z.to_nat li; Some (lt_arguments l, lt_markerid l).

(** The loop that looks for a key. *)
Fixpoint has_key (key : string) (args : list (cstr * cstr)) : C bool :=
  match args with
  | [] => mret false
  | (k, _) :: args' => b ← strcmp0 k (Some key); if b : bool then mret true else has_key key args'
  end.

(** A computation that ends early with a code. *)
Definition orelse {A B} (c : C (Z * A)) (f : A → C (Z * B)) (stop : B) : C (Z * B) :=
  '(rc, a) ← c; if rc =? 0 then f a else mret (rc, stop).

Section submission.
Context (oph_web_server : cstr) (fuel : nat) (index0 : Z).

(** The fields of the workflow. *)
Definition header (wf : oph_workflow) (t : oph_workflow_task) (ti li marker : Z) : C string :=
  op ← deref (operator t); sid ← deref (sessionid wf); u ← deref (username wf); em ← deref (exec_mode wf);
  mret ("operator=" +:+ op +:+ ";sessionid=" +:+ sid +:+ ";workflowid=" +:+ print_int (workflowid wf)
    +:+ ";markerid=" +:+ print_int marker +:+ ";username=" +:+ u +:+ ";userid=" +:+ print_int (iduser wf)
    +:+ ";userrole=" +:+ print_int (userrole wf) +:+ ";parentid=" +:+ print_int (wf_idjob wf) +:+ ";taskindex=" +:+ print_int ti
    +:+ ";lighttaskindex=" +:+ print_int li +:+ ";exec_mode=" +:+ em +:+ ";")%string.

(** A pair that is added if the key is not among the arguments. *)
Definition add_missing (key : string) (value : cstr) (args : list (cstr * cstr)) (s : cstr) : C (Z * cstr) :=
  match value with
  | None => mret (OPH_WORKFLOW_EXIT_SUCCESS, s)
  | Some v =>
      found ← has_key key args;
      if found : bool then mret (OPH_WORKFLOW_EXIT_SUCCESS, s)
      else oph_workflow_strcat s (Some (truncate OPH_WORKFLOW_MAX_STRING (pair_text key v)))
  end.

(** A path starts at the folder of the session. *)
Definition correct_path (code k v : string) : string :=
  match v with
  | String "/" rest =>
      if existsb (λ p, bool_decide (k = p)) OPH_WORKFLOW_PATH_SET
      then truncate OPH_WORKFLOW_MAX_STRING (OPH_WORKFLOW_ROOT_FOLDER +:+ code +:+ (if bool_decide (rest = EmptyString) then EmptyString else v))
      else v
  | _ => v
  end.

(** One round of the loop over the arguments, on the long text and on the short one if it is wanted. *)
Definition submit_argument (max_size : Z) (code : string) (st : cstr * cstr) (a : cstr * cstr) : C (ctl (cstr * cstr) Z) :=
  let '(long, short) := st in
  match a with
  | (Some (String _ _ as k), Some (String _ _ as v)) =>
      '(rc, long) ← oph_workflow_strcat long (Some (truncate (Z.to_nat max_size) (pair_text k (correct_path code k v))));
      if negb (rc =? 0) then mret (Break OPH_WORKFLOW_EXIT_MEMORY_ERROR) else
      match short with
      | None => mret (Next (long, None))
      | Some _ =>
          '(rc, short) ← oph_workflow_strcat short (Some (truncate (Z.to_nat max_size) (pair_text k v)));
          mret (if negb (rc =? 0) then Break OPH_WORKFLOW_EXIT_MEMORY_ERROR else Next (long, short))
      end
  | _ => mret (Next st)
  end.

(** The texts before the variables are replaced. *)
Definition build_strings (wf : oph_workflow) (t : oph_workflow_task) (ti li marker : Z) (args : list (cstr * cstr)) (code : string)
    (want_short : bool) (max_size : Z) : C (Z * (cstr * cstr)) :=
  h ← header wf t ti li marker;
  ok ← malloc;
  if negb ok then mret (OPH_WORKFLOW_EXIT_MEMORY_ERROR, (None, None)) else
  orelse (add_missing OPH_WORKFLOW_KEY_HOST_PARTITION (host_partition wf) args (Some h)) (λ s,
  orelse (add_missing OPH_WORKFLOW_KEY_NHOSTS (if wf_nhosts wf =? 0 then None else Some (print_int (wf_nhosts wf))) args s) (λ long,
    o ← deref (operator t);
    ok ← (if want_short then malloc else mret true);
    if negb ok then mret (OPH_WORKFLOW_EXIT_MEMORY_ERROR, (None, None)) else
    r ← loopC (submit_argument max_size code) (long, if want_short then Some (o +:+ " ") else None) args;
    mret (match r with
          | Next st => (OPH_WORKFLOW_EXIT_SUCCESS, st)
          | Break rc => (rc, (None, None))
          end)) (None, None)) (None, None).

(** The replacement of the variables in a text that is wanted. *)
Definition replace (wf : oph_workflow) (ti li : Z) (s : cstr) : C (Z * cstr) :=
  match s with
  | None => mret (OPH_WORKFLOW_EXIT_SUCCESS, None)
  | Some _ =>
      '(rc, s) ← oph_workflow_var_substitute fuel index0 (Some wf) (Z.to_nat ti) li s None;
      mret (if rc =? 0 then (OPH_WORKFLOW_EXIT_SUCCESS, s) else (OPH_WORKFLOW_EXIT_BAD_PARAM_ERROR, None))
  end.

(** The code, the long text and the short one. *)
Definition oph_workflow_get_submission_string (workflow : option oph_workflow) (ti li : Z) (want_short : bool) : C (Z * (cstr * cstr)) :=
  match workflow with
  | None => mret (OPH_WORKFLOW_EXIT_BAD_PARAM_ERROR, (None, None))
  | Some wf =>
      bad ← bad_task_index wf ti;
      if bad : bool then mret (OPH_WORKFLOW_EXIT_BAD_PARAM_ERROR, (None, None)) else
      t ← deref (tasks wf !! Z.to_nat ti);
      match own_arguments t li with
      | None => mret (OPH_WORKFLOW_EXIT_BAD_PARAM_ERROR, (None, None))
      | Some (args, marker) =>
          '(_, max_size) ← oph_workflow_get_argument_size workflow (Z.to_nat ti) (Z.of_nat OPH_WORKFLOW_MAX_STRING);
          sid ← deref (sessionid wf);
          '(rc, code) ← Auth.oph_get_session_code oph_web_server sid;
          match (if rc =? 0 then code else None) with
          | None => mret (OPH_WORKFLOW_EXIT_BAD_PARAM_ERROR, (None, None))
          | Some code =>
              assertC (bool_decide (String.length code < OPH_WORKFLOW_MAX_STRING)%nat);;
              orelse (build_strings wf t ti li marker args code want_short max_size) (λ st,
              orelse (replace wf ti li st.1) (λ long,
              orelse (replace wf ti li st.2) (λ short, mret (OPH_WORKFLOW_EXIT_SUCCESS, (long, short))) (None, None)) (None, None)) (None, None)
          end
      end
  end.

(** ** The text that is shown *)

(** A pair of the workflow; an empty value is left out. *)
Definition show_pair (key : string) (value : cstr) (s : cstr) : C (Z * cstr) :=
  match value with
  | Some (String _ _ as v) => oph_workflow_strcat s (Some (truncate OPH_WORKFLOW_MAX_STRING (pair_text key v)))
  | _ => mret (OPH_WORKFLOW_EXIT_SUCCESS, s)
  end.

Definition show_argument (max_size : Z) (s : cstr) (a : cstr * cstr) : C (ctl cstr Z) :=
  match a with
  | (Some (String _ _ as k), Some (String _ _ as v)) =>
      '(rc, s) ← oph_workflow_strcat s (Some (truncate (Z.to_nat max_size) (pair_text k v)));
      mret (if negb (rc =? 0) then Break OPH_WORKFLOW_EXIT_MEMORY_ERROR else Next s)
  | _ => mret (Next s)
  end.

Definition oph_workflow_get_submitted_string (workflow : option oph_workflow) (ti li : Z) (show_callback : bool) : C (Z * cstr) :=
  match workflow with
  | None => mret (OPH_WORKFLOW_EXIT_BAD_PARAM_ERROR, None)
  | Some wf =>
      bad ← bad_task_index wf ti;
      if bad : bool then mret (OPH_WORKFLOW_EXIT_BAD_PARAM_ERROR, None) else
      t ← deref (tasks wf !! Z.to_nat ti);
      match own_arguments t li with
      | None => mret (OPH_WORKFLOW_EXIT_BAD_PARAM_ERROR, None)
      | Some (args, _) =>
          '(_, max_size) ← oph_workflow_get_argument_size workflow (Z.to_nat ti) (Z.of_nat OPH_WORKFLOW_MAX_STRING);
          o ← deref (operator t);
          ok ← malloc;
          if negb ok then mret (OPH_WORKFLOW_EXIT_MEMORY_ERROR, None) else
          orelse (show_pair "exec_mode" (exec_mode wf) (Some (o +:+ " "))) (λ s,
          orelse (show_pair "callback_url" (if show_callback then callback_url wf else None) s) (λ s,
            r ← loopC (show_argument max_size) s args;
            mret (match r with Next s => (OPH_WORKFLOW_EXIT_SUCCESS, s) | Break rc => (rc, None) end)) None) None
      end
  end.
End submission.

(** ** A submitted argument is found *)

(** A key and a value that are submitted as they are: no separator, no variable, and a pair that fits the
    buffer. *)
Definition submittable (kv : string * string) : Prop :=
  kv.1 ≠ EmptyString ∧ TaskParser.good_pair kv ∧ literal kv.1 = true ∧ literal kv.2 = true ∧
  (String.length (pair_text kv.1 kv.2) < OPH_WORKFLOW_MAX_STRING)%nat.

Definition header_pairs (wf : oph_workflow) (ti li marker : Z) (op sid u em : string) : list (string * string) :=
  [("operator", op); ("sessionid", sid); ("workflowid", print_int (workflowid wf)); ("markerid", print_int marker);
   ("username", u); ("userid", print_int (iduser wf)); ("userrole", print_int (userrole wf)); ("parentid", print_int (wf_idjob wf));
   ("taskindex", print_int ti); ("lighttaskindex", print_int li); ("exec_mode", em)]%string.

Definition missing_pair (key : string) (value : cstr) (kvs : list (string * string)) : list (string * string) :=
  match value with
  | Some v => if bool_decide (key ∈ kvs.*1) then [] else [(key, v)]
  | None => []
  end.
Definition hosts_value (wf : oph_workflow) : cstr := if wf_nhosts wf =? 0 then None else Some (print_int (wf_nhosts wf)).
Definition corrected (code : string) (kvs : list (string * string)) : list (string * string) :=
  (λ kv, (kv.1, correct_path code kv.1 kv.2)) <$> kvs.

(** The pairs of a submission string. *)
Definition submitted (wf : oph_workflow) (ti li marker : Z) (op sid u em code : string) (kvs : list (string * string)) : list (string * string) :=
  header_pairs wf ti li marker op sid u em ++
  missing_pair OPH_WORKFLOW_KEY_HOST_PARTITION (host_partition wf) kvs ++
  missing_pair OPH_WORKFLOW_KEY_NHOSTS (hosts_value wf) kvs ++ corrected code kvs.

Definition given (kvs : list (string * string)) : list (cstr * cstr) := (λ kv, (Some kv.1, Some kv.2)) <$> kvs.

Lemma pair_text_print k v : pair_text k v = ArgParser.print_pair k v.
Proof. done. Qed.

Lemma print_args_app l1 l2 : ArgParser.print_args (l1 ++ l2) = ArgParser.print_args l1 +:+ ArgParser.print_args l2.
Proof. induction l1 as [|[k v] l1 IH]; [done|]. cbn [app ArgParser.print_args]. by rewrite IH, app_str_assoc. Qed.

Lemma truncate_fits n s : (String.length s < n)%nat → truncate n s = s.
Proof. intros Hs. apply take_str_ge. lia. Qed.

Lemma header_print wf t ti li marker op sid u em m :
  operator t = Some op → sessionid wf = Some sid → username wf = Some u → exec_mode wf = Some em →
  header wf t ti li marker m = Ok (ArgParser.print_args (header_pairs wf ti li marker op sid u em)) m.
Proof.
  intros Ho Hs Hu He. unfold header. rewrite Ho, Hs, Hu, He. cbn [deref]. rewrite (bind_run _ _ m op m), (bind_run _ _ m sid m), (bind_run _ _ m u m), (bind_run _ _ m em m) by done.
  unfold mret, C_ret. f_equal. unfold header_pairs. cbn [ArgParser.print_args]. unfold ArgParser.print_pair.
  by repeat first [rewrite app_str_assoc|rewrite app_str_cons|rewrite app_str_nil].
Qed.

Lemma has_key_spec key kvs m : has_key key (given kvs) m = Ok (bool_decide (key ∈ kvs.*1)) m.
Proof.
  induction kvs as [|[k v] kvs IH]; [done|]. cbn [given fmap list_fmap has_key fst snd]. rewrite (bind_run _ _ m (bool_decide (k = key)) m) by done.
  assert (bool_decide (key ∈ k :: kvs.*1) = bool_decide (k = key) || bool_decide (key ∈ kvs.*1)) as ->.
  { rewrite (bool_decide_ext (key ∈ k :: kvs.*1) (k = key ∨ key ∈ kvs.*1)); [apply bool_decide_or|]. rewrite elem_of_cons. naive_solver. }
  destruct (bool_decide (k = key)); [done|exact IH].
Qed.

Lemma wp_strcat s e (Q : Z * cstr → mem → Prop) m :
  reliable m → (∀ m', reliable m' → Q (OPH_WORKFLOW_EXIT_SUCCESS, Some (s +:+ e)) m') → wp (oph_workflow_strcat (Some s) (Some e)) Q m.
Proof. intros Hm HQ. unfold oph_workflow_strcat. wp_step. wp_step. wp_step. by apply HQ. Qed.

Lemma wp_add_missing key value kvs s (Q : Z * cstr → mem → Prop) m :
  reliable m → Forall (λ kv, (String.length (pair_text kv.1 kv.2) < OPH_WORKFLOW_MAX_STRING)%nat) (missing_pair key value kvs) →
  (∀ m', reliable m' → Q (OPH_WORKFLOW_EXIT_SUCCESS, Some (s +:+ ArgParser.print_args (missing_pair key value kvs))) m') →
  wp (add_missing key value (given kvs) (Some s)) Q m.
Proof.
  intros Hm Hf HQ. unfold add_missing, missing_pair in *. destruct value as [v|]; [|wp_step; rewrite app_str_nil_r in HQ; auto].
  apply wp_bind, (wp_eq _ (mret (bool_decide (key ∈ kvs.*1)))); [apply has_key_spec|]. wp_step.
  case_bool_decide; [wp_step; rewrite app_str_nil_r in HQ; auto|]. apply Forall_cons in Hf as [Hf _]. simpl in Hf. rewrite truncate_fits by done.
  apply wp_strcat; [done|]. intros m' Hm'. cbn [ArgParser.print_args] in HQ. rewrite app_str_nil_r in HQ. by apply HQ.
Qed.

Lemma wp_submit_arguments max_size code kvs s short (Q : ctl (cstr * cstr) Z → mem → Prop) m :
  reliable m → Z.of_nat OPH_WORKFLOW_MAX_STRING ≤ max_size → Forall (λ kv, kv.1 ≠ EmptyString ∧ kv.2 ≠ EmptyString) kvs →
  Forall (λ kv, (String.length (pair_text kv.1 kv.2) < OPH_WORKFLOW_MAX_STRING)%nat) (corrected code kvs) →
  (∀ short' m', (short = None → short' = None) → reliable m' → Q (Next (Some (s +:+ ArgParser.print_args (corrected code kvs)), short')) m') →
  wp (loopC (submit_argument max_size code) (Some s, short) (given kvs)) Q m.
Proof.
  intros Hm Hmax Hne. revert s short m Hm. induction kvs as [|[k v] kvs IH]; intros s short m Hm Hf HQ; cbn [given corrected fmap list_fmap loopC] in *.
  { wp_step. rewrite app_str_nil_r in HQ. auto. }
  apply Forall_cons in Hne as [[Hk Hv] Hne], Hf as [Hf1 Hf]. cbn [fst snd] in Hk, Hv, Hf1. wp_step. unfold submit_argument at 1. cbn [fst snd].
  destruct k as [|kc k]; [done|]. destruct v as [|vc v]; [done|]. rewrite (truncate_fits (Z.to_nat max_size) (pair_text (String kc k) (correct_path code (String kc k) (String vc v)))) by lia. wp_step. apply wp_strcat; [done|]. intros m1 Hm1. cbv beta iota.
  change (OPH_WORKFLOW_EXIT_SUCCESS =? 0) with true. cbn [negb]. cbn [ArgParser.print_args fst snd] in HQ. rewrite <-pair_text_print in HQ.
  destruct short as [sh|].
  - wp_step. apply wp_strcat; [done|]. intros m2 Hm2. cbv beta iota. change (OPH_WORKFLOW_EXIT_SUCCESS =? 0) with true. cbn [negb]. wp_step.
    apply IH; [done..|]. intros sh' m3 Hsh Hm3. rewrite app_str_assoc. by apply HQ.
  - wp_step. apply IH; [done..|]. intros sh' m3 Hsh Hm3. rewrite app_str_assoc. by apply HQ.
Qed.

Lemma literal_print l : Forall (λ kv, literal kv.1 = true ∧ literal kv.2 = true) l → literal (ArgParser.print_args l) = true.
Proof.
  induction 1 as [|[k v] l [Hk Hv] Hl IH]; [done|]. cbn [ArgParser.print_args]. unfold literal, ArgParser.print_pair in *. simpl in Hk, Hv.
  rewrite !none_of_app. cbn [none_of]. rewrite none_of_app. cbn [none_of]. by rewrite Hk, Hv, IH.
Qed.

Section found.
Context (oph_web_server : cstr) (fuel : nat) (index0 : Z).

Lemma wp_replace wf ti li s (Q : Z * cstr → mem → Prop) m :
  literal s = true → (0 < fuel)%nat → reliable m → (∀ m', Q (OPH_WORKFLOW_EXIT_SUCCESS, Some s) m') → wp (replace fuel index0 wf ti li (Some s)) Q m.
Proof.
  intros Hs Hf Hm HQ. unfold replace, oph_workflow_var_substitute. wp_step. wp_step.
  pose proof (substitute_template_from wf (Z.to_nat ti) (λ _, EmptyString) fuel li None [] s index0 m Hs eq_refl (Forall_nil_2 _) Hf Hm) as Hw.
  cbn [template render] in Hw. rewrite app_str_nil_r in Hw. eapply wp_mono; [exact Hw|]. intros r m' ->. wp_step. wp_step. apply HQ.
Qed.

(** What a task needs to be submitted. *)
Record ready (wf : oph_workflow) (ti : Z) (t : oph_workflow_task) (op sid u em code : string) (kvs : list (string * string)) : Prop := {
  rd_task : 0 ≤ ti < Z.of_nat (tasks_num wf) ∧ tasks wf !! Z.to_nat ti = Some t;
  rd_fields : operator t = Some op ∧ sessionid wf = Some sid ∧ username wf = Some u ∧ exec_mode wf = Some em;
  rd_code : (∀ m, Auth.oph_get_session_code oph_web_server sid m = Ok (0, Some code) m) ∧ (String.length code < OPH_WORKFLOW_MAX_STRING)%nat;
  rd_arguments : (λ a, (arg_key a, arg_value a)) <$> arguments t = given kvs;
  rd_values : Forall (λ kv, kv.2 ≠ EmptyString) kvs;
  rd_header : Forall (λ kv, TaskParser.good_pair kv ∧ literal kv.2 = true) (header_pairs wf ti (-1) (markerid t) op sid u em);
  rd_pairs : Forall submittable (missing_pair OPH_WORKFLOW_KEY_HOST_PARTITION (host_partition wf) kvs ++ missing_pair OPH_WORKFLOW_KEY_NHOSTS (hosts_value wf) kvs ++ corrected code kvs);
}.

Lemma wp_argument_size wf ti t kvs (Q : Z * Z → mem → Prop) m :
  tasks wf !! Z.to_nat ti = Some t → (λ a, (arg_key a, arg_value a)) <$> arguments t = given kvs →
  (∀ z, Z.of_nat OPH_WORKFLOW_MAX_STRING ≤ z → Q (OPH_WORKFLOW_EXIT_SUCCESS, z) m) →
  wp (oph_workflow_get_argument_size (Some wf) (Z.to_nat ti) (Z.of_nat OPH_WORKFLOW_MAX_STRING)) Q m.
Proof.
  intros Ht Ha HQ. unfold oph_workflow_get_argument_size. rewrite Ht. cbn [deref]. wp_step. wp_step. change (if Z.of_nat OPH_WORKFLOW_MAX_STRING <? 1 then _ else _) with (Z.of_nat OPH_WORKFLOW_MAX_STRING).
  assert (∀ z, Z.of_nat OPH_WORKFLOW_MAX_STRING ≤ z → Q (OPH_WORKFLOW_EXIT_SUCCESS, z) m) as HQ' by done. wp_step. clear HQ.
  assert (∀ l z, (λ a, (arg_key a, arg_value a)) <$> l = given kvs → Z.of_nat OPH_WORKFLOW_MAX_STRING ≤ z → wp (foldC (λ max a, k ← deref (arg_key a); v ← deref (arg_value a);
    let current := 3 + Z.of_nat (String.length k) + Z.of_nat (String.length v) in mret (if max <? current then current else max)) z l) (λ z' m', m' = m ∧ Z.of_nat OPH_WORKFLOW_MAX_STRING ≤ z') m) as Hloop.
  { clear -kvs. revert kvs. intros kvs l. revert kvs. induction l as [|a l IH]; intros kvs z Hl Hz; cbn [foldC]; [by wp_step|].
    destruct kvs as [|[k v] kvs]; [done|]. cbn in Hl. injection Hl as Hk Hv Hl. wp_step. rewrite Hk, Hv. cbn [deref]. do 5 wp_step. cbv zeta. apply (IH kvs); [exact Hl|].
    destruct (Z.ltb_spec z (3 + Z.of_nat (String.length k) + Z.of_nat (String.length v))); lia. }
  eapply wp_mono; [apply (Hloop _ _ Ha); lia|]. intros z m' [-> Hz]. wp_step. by apply HQ'.
Qed.

Lemma ready_pairs wf ti t op sid u em code kvs :
  ready wf ti t op sid u em code kvs →
  let l := submitted wf ti (-1) (markerid t) op sid u em code kvs in
  Forall TaskParser.good_pair l ∧ literal (ArgParser.print_args l) = true.
Proof.
  intros [_ _ _ _ _ Hh Hp] l. split.
  - apply Forall_app. split; [eapply Forall_impl; [exact Hh|]; by intros ? [? _]|]. eapply Forall_impl; [exact Hp|]. by intros ? (_ & ? & _).
  - apply literal_print, Forall_app. split; [|eapply Forall_impl; [exact Hp|]; by intros ? (_ & _ & ? & ? & _)].
    assert (Forall (λ kv, literal kv.1 = true) (header_pairs wf ti (-1) (markerid t) op sid u em)) as Hk by (repeat (apply Forall_cons; split; [done|]); by apply Forall_nil).
    rewrite Forall_forall in *. intros kv Hin. split; [by apply Hk|by apply Hh].
Qed.

Lemma wp_build wf ti t op sid u em code kvs max_size (Q : Z * (cstr * cstr) → mem → Prop) m :
  ready wf ti t op sid u em code kvs → Z.of_nat OPH_WORKFLOW_MAX_STRING ≤ max_size → reliable m →
  (∀ m', reliable m' → Q (OPH_WORKFLOW_EXIT_SUCCESS, (Some (ArgParser.print_args (submitted wf ti (-1) (markerid t) op sid u em code kvs)), None)) m') →
  wp (build_strings wf t ti (-1) (markerid t) (given kvs) code false max_size) Q m.
Proof.
  intros [_ (Ho & Hs & Hu & He) _ _ Hv _ Hp] Hmax Hm HQ. unfold build_strings. apply wp_bind, (wp_eq _ (mret _) _ _ (header_print _ _ _ _ _ _ _ _ _ _ Ho Hs Hu He)).
  wp_step. wp_step. wp_step. cbn [negb]. apply Forall_app in Hp as [Hp1 [Hp2 Hp3]%Forall_app].
  assert (∀ l, Forall submittable l → Forall (λ kv, (String.length (pair_text kv.1 kv.2) < OPH_WORKFLOW_MAX_STRING)%nat) l) as Hlen.
  { intros l Hl. eapply Forall_impl; [exact Hl|]. by intros ? (_ & _ & _ & _ & ?). }
  unfold orelse at 1. wp_step. apply wp_add_missing; [done|by apply Hlen|]. intros m2 Hm2. cbv beta iota. change (OPH_WORKFLOW_EXIT_SUCCESS =? 0) with true. cbv iota.
  unfold orelse at 1. wp_step. fold (hosts_value wf). apply wp_add_missing; [done|by apply Hlen|]. intros m3 Hm3. cbv beta iota. change (OPH_WORKFLOW_EXIT_SUCCESS =? 0) with true. cbv iota.
  rewrite Ho. cbn [deref]. wp_step. wp_step. wp_step. wp_step. cbn [negb]. wp_step. apply wp_submit_arguments; [done|done| |by apply Hlen|].
  - rewrite Forall_forall. intros kv Hin. split; [|rewrite Forall_forall in Hv; by apply Hv]. rewrite Forall_forall in Hp3.
    specialize (Hp3 (kv.1, correct_path code kv.1 kv.2)). destruct Hp3 as [? _]; [|done]. apply list_elem_of_fmap. by exists kv.
  - intros short' m4 Hsh Hm4. wp_step. rewrite (Hsh eq_refl), !app_str_assoc. unfold submitted in HQ. rewrite !print_args_app in HQ. by apply HQ.
Qed.

Lemma wp_submission wf ti t op sid u em code kvs (Q : Z * (cstr * cstr) → mem → Prop) m :
  ready wf ti t op sid u em code kvs → (0 < fuel)%nat → reliable m →
  (∀ m', Q (OPH_WORKFLOW_EXIT_SUCCESS, (Some (ArgParser.print_args (submitted wf ti (-1) (markerid t) op sid u em code kvs)), None)) m') →
  wp (oph_workflow_get_submission_string oph_web_server fuel index0 (Some wf) ti (-1) false) Q m.
Proof.
  intros Hrd Hf Hm HQ. pose proof Hrd as [[Hti Ht] (_ & Hs & _ & _) [Hcode Hcl] Ha _ _ _]. destruct (ready_pairs _ _ _ _ _ _ _ _ _ Hrd) as [_ Hlit].
  unfold oph_workflow_get_submission_string, bad_task_index. rewrite (proj2 (Z.ltb_ge ti 0)), (proj2 (Z.ltb_ge _ ti)), (proj2 (Z.eqb_neq ti _)) by lia. cbn [orb].
  wp_step. wp_step. wp_step. rewrite Ht. cbn [deref]. wp_step. unfold own_arguments. change (-1 <? 0) with true. cbv iota. rewrite Ha. wp_step.
  apply (wp_argument_size wf ti t kvs); [done..|]. intros max_size Hmax. cbv beta iota. rewrite Hs. cbn [deref]. wp_step. wp_step.
  apply wp_bind, (wp_eq _ (mret (0, Some code)) _ _ (Hcode m)). wp_step. cbv beta iota. change (0 =? 0) with true. cbv iota. wp_step. apply wp_assert; [by apply bool_decide_eq_true_2|].
  unfold orelse at 1. wp_step. eapply wp_build; [done|done|done|]. intros m1 Hm1. cbv beta iota. change (OPH_WORKFLOW_EXIT_SUCCESS =? 0) with true. cbv iota. cbn [fst snd].
  unfold orelse at 1. wp_step. apply wp_replace; [done..|]. intros m2. cbv beta iota. change (OPH_WORKFLOW_EXIT_SUCCESS =? 0) with true. cbv iota.
  unfold orelse. wp_step. cbn [replace]. wp_step. change (OPH_WORKFLOW_EXIT_SUCCESS =? 0) with true. cbv iota. wp_step. apply HQ.
Qed.

(** C19: In the submission string of a task whose pairs (fields of the workflow, arguments, none empty) are short and
    hold no separator and no variable reference, and whose session has a code, the lookup of a key by the task parser
    gives the first value among: the header fields of the workflow and the task, which therefore shadow arguments of
    the same name, the host partition and the number of hosts of the workflow unless the task has its own, and the
    arguments of the task, of which the path arguments come back with the folder of the session in front. *)
Theorem submitted_argument_found wf ti t op sid u em code kvs p m :
  ready wf ti t op sid u em code kvs → (0 < fuel)%nat → none_of TaskParser.equals p = true → reliable m →
  wp ('(_, st) ← oph_workflow_get_submission_string oph_web_server fuel index0 (Some wf) ti (-1) false;
      s ← deref st.1;
      TaskParser.oph_tp_find_param_in_task_string (S (String.length s)) (Some s) (Some p))
    (λ r _, r = TaskParser.lookup_result (TaskParser.property (submitted wf ti (-1) (markerid t) op sid u em code kvs) p)) m.
Proof.
  intros Hrd Hf Hp Hm. wp_step. eapply wp_submission; [done..|]. intros m1. cbv beta iota. cbn [fst deref]. wp_step. wp_step.
  destruct (ready_pairs _ _ _ _ _ _ _ _ _ Hrd) as [Hgood _]. set (l := submitted _ _ _ _ _ _ _ _ _ _) in *.
  apply (wp_eq _ (mret (TaskParser.lookup_result (TaskParser.property l p)))); [|by wp_step].
  pose proof (ArgParser.print_args_length l). pose proof (TaskParser.find_loop_pairs (S (String.length (ArgParser.print_args l))) (S (String.length (ArgParser.print_args l))) p l EmptyString m1 Hp Hgood eq_refl) as Hfind.
  rewrite app_str_nil_r in Hfind. apply Hfind; lia.
Qed.
End found.

Definition sample_task : oph_workflow_task :=
  set_operator (Some "oph_list"%string) (set_arguments [Arg (Some "level") (Some "2") []; Arg (Some "cwd") (Some "/a") []]%string zero_task).
Definition sample_wf : oph_workflow :=
  set_tasks [sample_task; zero_task] (set_tasks_num 1 (set_sessionid (Some "http://h/ophidia/sessions/123/experiment")
    (set_username (Some "me") (set_exec_mode (Some "async") (set_wf_nhosts 2 zero_workflow)))))%string.
Definition sample_kvs : list (string * string) := [("level", "2"); ("cwd", "/a")]%string.

Lemma sample_ready :
  ready (Some "http://h/ophidia"%string) sample_wf 0 sample_task "oph_list" "http://h/ophidia/sessions/123/experiment" "me" "async" "123" sample_kvs.
Proof.
  split.
  - split; [simpl; lia|done].
  - done.
  - split; [intros m; vm_compute; reflexivity|]. apply (bool_decide_unpack _). vm_compute. reflexivity.
  - done.
  - repeat (apply Forall_cons; split; [done|]). by apply Forall_nil.
  - repeat (apply Forall_cons; split; [split; [split_and!; done|done]|]). by apply Forall_nil.
  - repeat (apply Forall_cons; split; [split_and!; [done|split_and!; done|done|done|apply (bool_decide_unpack _); vm_compute; reflexivity]|]). by apply Forall_nil.
Qed.

Lemma submitted_argument_found_witness :
  TaskParser.property (submitted sample_wf 0 (-1) 0 "oph_list" "http://h/ophidia/sessions/123/experiment" "me" "async" "123" sample_kvs) "cwd" = Some "/123/a"%string ∧
  wp ('(_, st) ← oph_workflow_get_submission_string (Some "http://h/ophidia"%string) 1 0 (Some sample_wf) 0 (-1) false;
      s ← deref st.1;
      TaskParser.oph_tp_find_param_in_task_string (S (String.length s)) (Some s) (Some "cwd"%string))
    (λ r _, r = TaskParser.lookup_result (TaskParser.property (submitted sample_wf 0 (-1) 0 "oph_list" "http://h/ophidia/sessions/123/experiment" "me" "async" "123" sample_kvs) "cwd")) [].
Proof.
  split; [vm_compute; reflexivity|].
  apply (submitted_argument_found (Some "http://h/ophidia"%string) 1 0 sample_wf 0 sample_task); [exact sample_ready|lia|done|apply reliable_nil].
Defined.
End WfSubmit.
