(* ===== verification/WfEngine.v ===== *)
(** * Steps of the workflow engine ([src/src/oph_workflow_engine.c])

    The functions with which the engine updates the dependents of a task:
    [oph_workflow_set_status] aborts everything that depends on a failed task,
    [oph_workflow_reset_task] and [oph_workflow_disable_deps] prepare the body of a loop
    for its next iteration from the frame on the stack, [oph_workflow_mark_children_of]
    marks the tasks between the ends of a parallel block; and the ordered lists in which
    it collects the objects of an argument.

    The results: the abort reaches exactly the transitive dependents and keeps the
    number of residual tasks in step with the statuses; the reset terminates, resets
    every task at most once, reports how many, and what it resets is closed under
    dependents; the marks are exactly the tasks strictly between the two ends;
    the lists stay sorted; and a completed dependency is discounted once per path, so
    that a task may start too early.

    The recursions take fuel for their depth: on an acyclic workflow the number of tasks
    is enough, for the reset the number of tasks with a status. *)

From Stdlib Require Ascii.
From stdpp Require Import base gmap strings numbers relations functions sorting list.
From S2P Require Import Prelude CString HashTbl Trash WfStructs WfSetup WfDag WfFlow.
Import (notations) Stdlib.Strings.Ascii.
Import WfStructs WfSetup WfDag WfFlow.

Module WfEngine.

#[local] Open Scope Z_scope.

(** ** Aborting the dependents *)

Definition update_task (j : Z) (t : oph_workflow_task) (wf : oph_workflow) : oph_workflow :=
  set_tasks (set_cell (tasks wf) j t) wf.

(** The tests and updates of one dependent; [None]: return with an error. *)
Definition abort_one (wf : oph_workflow) (i st : Z) : C (option oph_workflow) :=
  t ← deref (cell (tasks wf) i);
  if negb (status t =? 0) && (status t <? st) then mret None
  else if status t <? OPH_ODB_STATUS_COMPLETED then
    if residual_tasks_num wf =? 0 then mret None
    else mret (Some (update_task i (set_status st t) (set_residual_tasks_num (residual_tasks_num wf - 1) wf)))
  else mret (Some (update_task i (set_status st t) wf)).

Fixpoint oph_workflow_set_status (fuel : nat) (wf : oph_workflow) (dependents : list Z) (st : Z) :
    C (Z * oph_workflow) :=
  match fuel with
  | O => out_of_fuel
  | S fuel' =>
      r ← loopC (λ wf i,
        o ← abort_one wf i st;
        match o with
        | None => mret (Break (OPH_WORKFLOW_EXIT_BAD_PARAM_ERROR, wf))
        | Some wf =>
            t ← deref (cell (tasks wf) i);
            '(rc, wf) ← oph_workflow_set_status fuel' wf (dependents_indexes t) st;
            mret (if rc =? 0 then Next wf else Break (rc, wf))
        end) wf dependents;
      mret (match r with Next wf => (OPH_WORKFLOW_EXIT_SUCCESS, wf) | Break r => r end)
  end.

(** ** Resetting the body of a loop *)

(** The arguments copied from the frame.  [None]: an allocation failed; the number of
    arguments is set by then, so that the cells are null. *)
Definition restore_arguments (saved : list argument) : C (option (list argument)) :=
  if bool_decide (saved = []) then mret (Some []) else
  ok ← malloc; if negb ok then mret None else
  ok ← malloc; if negb ok then mret None else
  ok ← malloc; if negb ok then mret None else
  args ← mapC push_argument saved;
  mret (Some args).

(** The fields set before the allocations. *)
Definition reset_fields_of (t : oph_workflow_task) (args : list argument) : oph_workflow_task :=
  set_arguments args
    (set_forward 0 (set_is_marked_to_be_aborted 0 (set_is_marked_for_auto_retry 0 (set_residual_auto_retry_num 0
      (set_residual_retry_num (retry_num t) (set_is_skipped 0 (set_status OPH_ODB_STATUS_UNKNOWN
        (set_markerid 0 (set_idjob 0 t))))))))).

(** [deps[j].task_index = saved[j]]: the indexes are read for every dependency. *)
Definition restore_deps (ds : list oph_workflow_dep) (saved : list Z) : list oph_workflow_dep :=
  zip_with (λ d k, set_task_index k d) ds saved.

(** The fields set after them. *)
Definition restore_links (t : oph_workflow_task) (st : oph_workflow_stack_task) : oph_workflow_task :=
  set_response None (set_residual_light_tasks_num 0 (set_light_tasks [] (set_outputs []
    (set_dependents_indexes (take (length (dependents_indexes t)) (stt_dependents_indexes st))
      (set_residual_deps_num (stt_residual_deps_num st)
        (set_deps (restore_deps (deps t) (stt_deps_task_index st)) t)))))).

(** The reset of one task. *)
Definition reset_one (t : oph_workflow_task) (st : oph_workflow_stack_task) : C (bool * oph_workflow_task) :=
  args ← restore_arguments (stt_arguments st);
  match args with
  | None => mret (false, reset_fields_of t (replicate (length (stt_arguments st)) (Arg None None [])))
  | Some args =>
      assertC (length (deps t) <=? length (stt_deps_task_index st))%nat;;
      assertC (length (dependents_indexes t) <=? length (stt_dependents_indexes st))%nat;;
      mret (true, restore_links (reset_fields_of t args) st)
  end.

(** The state is the workflow and [*tasks_num]. *)
Fixpoint oph_workflow_reset_task (fuel : nat) (wf : oph_workflow) (dependents : list Z) (last_task : Z)
    (frame : oph_workflow_stack) (num : Z) : C (Z * oph_workflow * Z) :=
  match fuel with
  | O => out_of_fuel
  | S fuel' =>
      r ← loopC (λ '(wf, num) i,
        t ← deref (cell (tasks wf) i);
        if status t =? 0 then mret (Next (wf, num)) else
        st ← deref (cell (stk_tasks frame) i);
        '(ok, t') ← reset_one t st;
        let wf := update_task i t' wf in
        if negb ok then mret (Break (OPH_WORKFLOW_EXIT_MEMORY_ERROR, wf, num)) else
        let num := num + 1 in
        if i =? last_task then mret (Next (wf, num)) else
        '(rc, wf, num) ← oph_workflow_reset_task fuel' wf (dependents_indexes t') last_task frame num;
        mret (if rc =? 0 then Next (wf, num) else Break (rc, wf, num))) (wf, num) dependents;
      mret (match r with Next (wf, num) => (OPH_WORKFLOW_EXIT_SUCCESS, wf, num) | Break r => r end)
  end.

(** ** Discounting satisfied dependencies *)

(** The dependencies of a task on completed tasks other than [first_task]. *)
Definition satisfied (wf : oph_workflow) (first_task : Z) (t : oph_workflow_task) : C Z :=
  foldC (λ num d,
    let h := task_index d in
    if (0 <=? h) && negb (h =? first_task) then
      th ← deref (cell (tasks wf) h);
      mret (if OPH_ODB_STATUS_COMPLETED <=? status th then num + 1 else num)
    else mret num) 0 (deps t).

Fixpoint oph_workflow_disable_deps (fuel : nat) (wf : oph_workflow) (dependents : list Z) (first_task last_task : Z) :
    C (Z * oph_workflow) :=
  match fuel with
  | O => out_of_fuel
  | S fuel' =>
      r ← loopC (λ wf i,
        t ← deref (cell (tasks wf) i);
        if negb (status t =? 0) then mret (Next wf) else
        num ← satisfied wf first_task t;
        let wf := update_task i (set_residual_deps_num (residual_deps_num t - num) t) wf in
        if i =? last_task then mret (Next wf) else
        '(rc, wf) ← oph_workflow_disable_deps fuel' wf (dependents_indexes t) first_task last_task;
        mret (if rc =? 0 then Next wf else Break (rc, wf))) wf dependents;
      mret (match r with Next wf => (OPH_WORKFLOW_EXIT_SUCCESS, wf) | Break r => r end)
  end.

(** ** Marking a parallel block *)

Fixpoint mark_children_of (fuel : nat) (wf : oph_workflow) (k p : Z) : C (Z * oph_workflow) :=
  match fuel with
  | O => out_of_fuel
  | S fuel' =>
      let n := Z.of_nat (tasks_num wf) in
      if (k <? 0) || (n <=? k) || (p <? 0) || (n <=? p) then mret (OPH_WORKFLOW_EXIT_BAD_PARAM_ERROR, wf) else
      tk ← deref (cell (tasks wf) k);
      r ← loopC (λ wf j,
        tp ← deref (cell (tasks wf) p);
        if j =? child tp then mret (Next wf) else
        b ← oph_workflow_is_child_of (Some wf) j (child tp);
        if b : bool then
          t ← deref (cell (tasks wf) j);
          '(rc, wf) ← mark_children_of fuel' (update_task j (set_is_marked 1 t) wf) j p;
          mret (if rc =? 0 then Next wf else Break (OPH_WORKFLOW_EXIT_BAD_PARAM_ERROR, wf))
        else mret (Next wf)) wf (dependents_indexes tk);
      mret (match r with Next wf => (OPH_WORKFLOW_EXIT_SUCCESS, wf) | Break r => r end)
  end.

(** [wf->tasks] is the empty list when it is null. *)
Definition oph_workflow_mark_children_of (fuel : nat) (workflow : option oph_workflow) (k p : Z) :
    C (Z * option oph_workflow) :=
  match workflow with
  | None => mret (OPH_WORKFLOW_EXIT_BAD_PARAM_ERROR, None)
  | Some wf =>
      if bool_decide (tasks wf = []) then mret (OPH_WORKFLOW_EXIT_BAD_PARAM_ERROR, Some wf) else
      '(rc, wf) ← mark_children_of fuel wf k p; mret (rc, Some wf)
  end.

(** ** Ordered lists *)

Definition OPH_SEPARATOR_SUBPARAM_STR : string := "|".

(** [strcmp(a, b) > 0] *)
Definition str_gt (a b : string) : bool := bool_decide (String.compare a b = Gt).

(** The node [t] goes before the first node without a key or with a larger one. *)
Fixpoint insert_sorted (t : cstr * cstr) (k : string) (l : oph_workflow_ordered_list) : oph_workflow_ordered_list :=
  match l with
  | [] => [t]
  | c :: l' =>
      if match c.1 with None => true | Some ck => str_gt ck k end then t :: c :: l'
      else c :: insert_sorted t k l'
  end.

Definition oph_workflow_add_to_list (key object : cstr) (l : oph_workflow_ordered_list) :
    C (Z * oph_workflow_ordered_list) :=
  match key, object with
  | Some k, Some _ =>
      ok ← malloc; assertC ok;;
      k' ← strdup key;
      o' ← strdup object;
      mret (OPH_WORKFLOW_EXIT_SUCCESS, insert_sorted (k', o') k l)
  | _, _ => mret (OPH_WORKFLOW_EXIT_BAD_PARAM_ERROR, l)
  end.

(** The loop; [string] is [*string]. *)
Fixpoint print_object_nodes (l : oph_workflow_ordered_list) (str : cstr) : C (Z * cstr) :=
  match l with
  | [] => mret (OPH_WORKFLOW_EXIT_SUCCESS, str)
  | c :: l' =>
      o ← deref c.2;
      ok ← malloc;
      if negb ok then mret (OPH_WORKFLOW_EXIT_MEMORY_ERROR, None) else
      print_object_nodes l' (Some (match str with
                            | Some s => s +:+ OPH_SEPARATOR_SUBPARAM_STR +:+ o
                            | None => o
                            end))
  end.

Definition oph_workflow_print_list (l : oph_workflow_ordered_list) (str : cstr) : C (Z * cstr) :=
  match l with
  | [] => mret (OPH_WORKFLOW_EXIT_BAD_PARAM_ERROR, str)
  | _ => print_object_nodes l str
  end.

(** ** Painting tasks *)

(** The tasks with numbers in [X] changed by [f]. *)
Definition paint (f : nat → oph_workflow_task → oph_workflow_task) (X : gset nat) (ts : list oph_workflow_task) :
    list oph_workflow_task :=
  imap (λ i t, if decide (i ∈ X) then f i t else t) ts.

Lemma paint_lookup f X ts i : paint f X ts !! i = (λ t, if decide (i ∈ X) then f i t else t) <$> ts !! i.
Proof. apply list_lookup_imap. Qed.

Lemma paint_empty f ts : paint f ∅ ts = ts.
Proof.
  apply list_eq. intros i. rewrite paint_lookup. destruct (ts !! i); simpl; [|done].
  by rewrite decide_False by set_solver.
Qed.

Lemma paint_insert f X ts i t :
  ts !! i = Some t → <[i := f i t]> (paint f X ts) = paint f ({[i]} ∪ X) ts.
Proof.
  intros Hi. apply list_eq. intros j. rewrite paint_lookup. destruct (decide (i = j)) as [<-|Hne].
  - rewrite list_lookup_insert_eq by (unfold paint; rewrite length_imap; by eapply lookup_lt_Some).
    rewrite Hi. simpl. by rewrite decide_True by set_solver.
  - rewrite list_lookup_insert_ne, paint_lookup by done. destruct (ts !! j); simpl; [|done].
    f_equal. destruct (decide (j ∈ X)); [rewrite decide_True|rewrite decide_False]; set_solver.
Qed.

(** A change that keeps the edges of the graph. *)
Definition keeps_edges (f : nat → oph_workflow_task → oph_workflow_task) : Prop :=
  ∀ i t, deps (f i t) = deps t ∧ dependents_indexes (f i t) = dependents_indexes t.

Lemma paint_edges f X ts i : keeps_edges f → ins (paint f X ts) i = ins ts i ∧ outs (paint f X ts) i = outs ts i.
Proof.
  intros Hf. unfold ins, outs. rewrite paint_lookup. destruct (ts !! i) as [t|]; simpl; [|done].
  destruct (decide (i ∈ X)); [|done]. by destruct (Hf i t) as [-> ->].
Qed.

Lemma paint_indexed f X ts n : keeps_edges f → indexed ts n → indexed (paint f X ts) n.
Proof.
  intros Hf [H1 H2 H3 H4]. split.
  - unfold paint. by rewrite length_imap.
  - intros i. rewrite (proj1 (paint_edges f X ts i Hf)). apply H2.
  - intros i. rewrite (proj2 (paint_edges f X ts i Hf)). apply H3.
  - intros i k. rewrite (proj1 (paint_edges f X ts i Hf)), (proj2 (paint_edges f X ts k Hf)). apply H4.
Qed.

Lemma paint_depends f X ts n k i : keeps_edges f → depends (paint f X ts) n k i ↔ depends ts n k i.
Proof. intros Hf. unfold depends. by rewrite (proj1 (paint_edges f X ts i Hf)). Qed.

Lemma paint_acyclic f X ts n : keeps_edges f → acyclic ts n → acyclic (paint f X ts) n.
Proof.
  intros Hf Hac i Hi. apply (Hac i). revert Hi. generalize i at 2 4. intros j.
  induction 1 as [a b Hd|a b c Hd _ IH]; [apply tc_once|eapply tc_l; [|done]]; by apply (paint_depends f X).
Qed.

Lemma rtc_paint f X ts n a b : keeps_edges f → rtc (depends (paint f X ts) n) a b ↔ rtc (depends ts n) a b.
Proof.
  intros Hf. split; induction 1 as [|a b c Hd _ IH]; try done;
    (eapply rtc_l; [|done]); by apply (paint_depends f X).
Qed.

Lemma tc_first {A} (R : relation A) x y : tc R x y ↔ ∃ z, R x z ∧ rtc R z y.
Proof.
  split.
  - destruct 1 as [x y H|x y z H Ht]; [by exists y|]. exists y. split; [done|by apply tc_rtc].
  - intros (z & H & Hr). by eapply tc_rtc_r; [apply tc_once|].
Qed.

(** A chain of distinct numbers below [n] is no longer than [n]. *)
Lemma path_bound (path : list nat) n : NoDup path → (∀ q, q ∈ path → (q < n)%nat) → (length path ≤ n)%nat.
Proof.
  intros Hnd Hb. rewrite <-(length_seq n 0). apply submseteq_length, NoDup_submseteq; [done|].
  intros q Hq. apply elem_of_seq. apply Hb in Hq. lia.
Qed.

(** ** Aborting *)

Definition unfinished_at (ts : list oph_workflow_task) (i : nat) : bool :=
  from_option (λ t, status t <? OPH_ODB_STATUS_COMPLETED) false (ts !! i).

(** The unfinished tasks of a set. *)
Definition pending (ts : list oph_workflow_task) (X : gset nat) : gset nat :=
  filter (λ i, unfinished_at ts i = true) X.

(** The workflow after the tasks in [X] got the status. *)
Definition aborted (wf : oph_workflow) (st : Z) (X : gset nat) : oph_workflow :=
  set_residual_tasks_num (residual_tasks_num wf - Z.of_nat (size (pending (tasks wf) X)))
    (set_tasks (paint (λ _, set_status st) X (tasks wf)) wf).

Lemma set_status_edges st : keeps_edges (λ _, set_status st).
Proof. by intros i []. Qed.

Lemma set_status_twice st t : set_status st (set_status st t) = set_status st t.
Proof. by destruct t. Qed.

Lemma pending_add ts X i :
  size (pending ts ({[i]} ∪ X)) =
  (size (pending ts X) + (if decide (i ∉ X ∧ unfinished_at ts i = true) then 1 else 0))%nat.
Proof.
  unfold pending. destruct (decide (i ∈ X)) as [Hin|Hin].
  - rewrite decide_False by tauto. replace ({[i]} ∪ X) with X by set_solver. lia.
  - destruct (unfinished_at ts i) eqn:Hu.
    + rewrite decide_True by done. replace (filter _ ({[i]} ∪ X)) with
        ({[i]} ∪ filter (λ i, unfinished_at ts i = true) X) by set_solver.
      rewrite size_union, size_singleton by set_solver. lia.
    + rewrite decide_False by (intros [_ ?]; congruence). rewrite Nat.add_0_r. f_equal. apply set_eq. intros j.
      rewrite !elem_of_filter, elem_of_union, elem_of_singleton. split; [|tauto].
      intros [Hj [->|Hx]]; [congruence|done].
Qed.

Section abort.
Context (wf : oph_workflow) (st : Z).
Notation ts := (tasks wf).
Notation n := (tasks_num wf).
Context (Hix : indexed ts n) (Hac : acyclic ts n).
Context (Hst : OPH_ODB_STATUS_COMPLETED ≤ st).
Context (Hres : Z.of_nat (size (pending ts (set_seq 0 n))) ≤ residual_tasks_num wf).

(** A dependent that may be aborted: not started, or over with a status that may be
    overwritten. *)
Definition abortable (i : nat) : Prop := ∀ t, ts !! i = Some t → status t = 0 ∨ st ≤ status t.

Lemma pending_below X i :
  X ⊆ set_seq 0 n → i ∉ X → (i < n)%nat → unfinished_at ts i = true →
  Z.of_nat (size (pending ts X)) < residual_tasks_num wf.
Proof.
  intros HX Hi Hlt Hu. eapply Z.lt_le_trans; [|exact Hres]. apply inj_lt, subset_size.
  unfold pending. split; [set_solver|]. intros Hsub.
  assert (i ∈ filter (λ i, unfinished_at ts i = true) X) as Hin; [|set_solver].
  apply Hsub, elem_of_filter. split; [done|]. apply elem_of_set_seq. lia.
Qed.

Lemma wp_abort_one X i m :
  X ⊆ set_seq 0 n → (i < n)%nat → abortable i →
  wp (abort_one (aborted wf st X) (Z.of_nat i) st) (λ r m', m' = m ∧ r = Some (aborted wf st ({[i]} ∪ X))) m.
Proof.
  intros HX Hi Hok. destruct (lookup_lt_is_Some_2 ts i) as [t Ht]; [pose proof (ix_length _ _ Hix); lia|].
  unfold abort_one. wp_step. rewrite cell_nat. change (tasks (aborted wf st X)) with (paint (λ _, set_status st) X ts).
  eapply wp_deref; [by rewrite paint_lookup, Ht|].
  assert (∀ r, r = residual_tasks_num wf - Z.of_nat (size (pending ts ({[i]} ∪ X))) → ∀ t', set_status st t' = set_status st t →
    update_task (Z.of_nat i) (set_status st t') (set_residual_tasks_num r (aborted wf st X)) =
    aborted wf st ({[i]} ∪ X)) as Hupd.
  { intros r -> t' ->. unfold aborted at 2. rewrite <-(paint_insert (λ _, set_status st) X ts i t Ht), <-set_cell_nat.
    reflexivity. }
  pose proof (pending_add ts X i) as Hadd. specialize (Hok t Ht).
  destruct (decide (i ∈ X)) as [Hin|Hin].
  - rewrite decide_False in Hadd by tauto. destruct t; cbn -[Z.ltb Z.eqb].
    unfold OPH_ODB_STATUS_COMPLETED in *. rewrite (proj2 (Z.ltb_ge st st)), andb_false_r, (proj2 (Z.ltb_ge st 12)) by lia.
    wp_step. split; [done|]. f_equal. rewrite <-(Hupd _ eq_refl (set_status st _) (set_status_twice _ _)).
    f_equal. rewrite Hadd, Nat.add_0_r. reflexivity.
  - destruct (Z.ltb_spec (status t) OPH_ODB_STATUS_COMPLETED) as [Hlt|Hge].
    + assert (status t = 0) as Hz by lia. rewrite Hz. simpl andb. cbv iota.
      assert (unfinished_at ts i = true) as Hu by (unfold unfinished_at; rewrite Ht; by apply Z.ltb_lt).
      rewrite decide_True in Hadd by done. pose proof (pending_below X i HX Hin Hi Hu).
      cbn [residual_tasks_num aborted]. change (residual_tasks_num (aborted wf st X)) with
        (residual_tasks_num wf - Z.of_nat (size (pending ts X))).
      rewrite (proj2 (Z.eqb_neq _ _)) by lia. wp_step. split; [done|]. f_equal. apply Hupd; [lia|done].
    + assert (negb (status t =? 0) && (status t <? st) = false) as ->.
      { destruct (Z.ltb_spec (status t) st); [|by rewrite andb_false_r]. unfold OPH_ODB_STATUS_COMPLETED in *. lia. }
      assert (unfinished_at ts i = false) as Hu by (unfold unfinished_at; rewrite Ht; by apply Z.ltb_ge).
      rewrite decide_False in Hadd by (intros [_ ?]; congruence).
      wp_step. split; [done|]. f_equal. rewrite <-(Hupd _ eq_refl t eq_refl).
      f_equal. rewrite Hadd, Nat.add_0_r. reflexivity.
Qed.

(** The tasks that depend on one of the list. *)
Definition reached (ds : list Z) (Y : gset nat) : Prop :=
  ∀ i, i ∈ Y ↔ ∃ d : nat, Z.of_nat d ∈ ds ∧ rtc (depends ts n) d i.

Lemma reached_snoc don d Y Y' :
  (d < n)%nat → reached don Y → reached (outs ts d) Y' → reached (don ++ [Z.of_nat d]) ({[d]} ∪ Y ∪ Y').
Proof.
  intros Hd HY HY' i. rewrite !elem_of_union, elem_of_singleton, (HY i), (HY' i). split.
  - intros [[->|(e & He & Hr)]|(j & Hj & Hr)]; [exists d; set_solver|exists e; set_solver|].
    exists d. split; [set_solver|]. destruct (outs_depends ts n Hix d _ Hd Hj) as (j' & <-%Nat2Z.inj & _ & Hdep).
    by eapply rtc_l.
  - intros (e & [He|He%list_elem_of_singleton]%elem_of_app & Hr); [left; right; eauto|].
    apply Nat2Z.inj in He as ->. inversion Hr as [|? j ? Hdep Hr']; subst; [by left; left|].
    right. exists j. split; [|done]. by apply (depends_outs ts n Hix).
Qed.

Lemma wp_set_status fuel path ds X m :
  X ⊆ set_seq 0 n → NoDup path → (∀ q, q ∈ path → (q < n)%nat) → (n < fuel + length path)%nat →
  (∀ z, z ∈ ds → ∃ d, z = Z.of_nat d ∧ (d < n)%nat ∧ ∀ q, q ∈ path → tc (depends ts n) q d) →
  (∀ d i, Z.of_nat d ∈ ds → rtc (depends ts n) d i → abortable i) →
  wp (oph_workflow_set_status fuel (aborted wf st X) ds st) (λ r m', m' = m ∧
    ∃ Y, reached ds Y ∧ Y ⊆ set_seq 0 n ∧ r = (OPH_WORKFLOW_EXIT_SUCCESS, aborted wf st (X ∪ Y))) m.
Proof.
  revert path ds X. induction fuel as [|fuel IH]; intros path ds X HX Hnd Hb Hf Hds Hok.
  { pose proof (path_bound path n Hnd Hb). lia. }
  cbn [oph_workflow_set_status]. wp_step. eapply wp_mono.
  - apply (wp_loopC _ (λ don wf' m', m' = m ∧ ∃ Y, reached don Y ∧ Y ⊆ set_seq 0 n ∧ wf' = aborted wf st (X ∪ Y)) (λ _ _, False)).
    + split; [done|]. exists ∅. split_and!; [|apply empty_subseteq|by rewrite union_empty_r_L].
      intros i. split; [by intros ?%elem_of_empty|]. intros (d & Hd & _). by apply elem_of_nil in Hd.
    + intros don z rest wf' m1 -> [-> (Y & HY & HYn & ->)].
      destruct (Hds z) as (d & -> & Hd & Hpath); [apply elem_of_mid|].
      assert (abortable d) as Hdok by (apply (Hok d); [apply elem_of_mid|done]).
      wp_step. eapply wp_mono; [apply wp_abort_one; [by apply union_least|done|done]|]. intros r m2 [-> ->].
      destruct (lookup_lt_is_Some_2 ts d) as [t Ht]; [pose proof (ix_length _ _ Hix); lia|].
      wp_step. rewrite cell_nat.
      eapply wp_deref; [cbn [tasks aborted]; change (tasks (aborted wf st ({[d]} ∪ (X ∪ Y)))) with
        (paint (λ _, set_status st) ({[d]} ∪ (X ∪ Y)) ts); by rewrite paint_lookup, Ht|].
      rewrite decide_True by (by apply elem_of_union_l, elem_of_singleton). change (dependents_indexes (set_status st t)) with (dependents_indexes t).
      assert (dependents_indexes t = outs ts d) as -> by (unfold outs; by rewrite Ht).
      destruct (fuel_left n (tc (depends ts n)) path d (S fuel)) as (f' & [= <-] & Hnd' & Hf'); [done..|].
      wp_step. eapply wp_mono; [apply (IH (path ++ [d]) (outs ts d) ({[d]} ∪ (X ∪ Y)))|].
      * set_unfold. intros ? [->|[?|?]]; [lia|by auto..].
      * done.
      * intros q [Hq| ->%list_elem_of_singleton]%elem_of_app; [by apply Hb|done].
      * done.
      * intros z Hz. destruct (outs_depends ts n Hix d z Hd Hz) as (j & -> & Hj & Hdep).
        exists j. split_and!; [done|done|]. by apply (path_extend ts n path d j).
      * intros j i Hj Hr. apply (Hok d); [apply elem_of_mid|].
        destruct (outs_depends ts n Hix d _ Hd Hj) as (j' & <-%Nat2Z.inj & _ & Hdep). by eapply rtc_l.
      * intros [rc wf''] m3 [-> (Y' & HY' & HYn' & [= -> ->])]. wp_step. split; [done|].
        exists ({[d]} ∪ Y ∪ Y'). split_and!; [by apply reached_snoc|set_unfold; intros ? [[->|?]|?]; [lia|by auto..]|f_equal; clear; set_solver].
  - intros [wf'|r] m1 Hr; [|done]. destruct Hr as [-> (Y & HY & HYn & ->)]. wp_step. split; [done|]. by exists Y.
Qed.
End abort.

Lemma aborted_empty wf st : aborted wf st ∅ = wf.
Proof.
  unfold aborted. rewrite paint_empty. replace (pending (tasks wf) ∅) with (∅ : gset nat) by set_solver.
  rewrite size_empty, Z.sub_0_r. by destruct wf.
Qed.

(** Painting with a final status leaves the unfinished tasks outside the set. *)
Lemma pending_paint ts st X Z : OPH_ODB_STATUS_COMPLETED ≤ st →
  pending (paint (λ _, set_status st) X ts) Z = pending ts (Z ∖ X).
Proof.
  intros Hst. apply set_eq. intros i. unfold pending. rewrite !elem_of_filter, elem_of_difference.
  unfold unfinished_at. rewrite paint_lookup. destruct (ts !! i) as [t|]; simpl; [|naive_solver].
  destruct (decide (i ∈ X)); [|naive_solver]. change (status (set_status st t)) with st.
  rewrite (proj2 (Z.ltb_ge _ _)) by done. naive_solver.
Qed.

Lemma pending_split ts X Z : X ⊆ Z → (size (pending ts Z) = size (pending ts X) + size (pending ts (Z ∖ X)))%nat.
Proof.
  intros HX. rewrite <-size_union by (unfold pending; set_solver). f_equal. unfold pending.
  apply set_eq. intros i. rewrite elem_of_union, !elem_of_filter, elem_of_difference.
  destruct (decide (i ∈ X)); set_solver.
Qed.

(** C25: on an acyclic workflow, when task [k] fails [oph_workflow_set_status] terminates
    and gives the status to exactly the tasks that depend on [k], directly or not, if
    none of them is in progress; the number of residual tasks drops by the unfinished
    ones among them, so that it stays the number of unfinished tasks. *)
Theorem abort_dependents (fuel : nat) (wf : oph_workflow) (k : nat) (st : Z) (m : mem) :
  let ts := tasks wf in let n := tasks_num wf in
  indexed ts n → acyclic ts n → (k < n)%nat → (n < fuel)%nat → OPH_ODB_STATUS_COMPLETED ≤ st →
  residual_tasks_num wf = Z.of_nat (size (pending ts (set_seq 0 n))) →
  (∀ i, tc (depends ts n) k i → abortable wf st i) →
  wp (oph_workflow_set_status fuel wf (outs ts k) st) (λ r _, ∃ Y,
    (∀ i, i ∈ Y ↔ tc (depends ts n) k i) ∧ r = (OPH_WORKFLOW_EXIT_SUCCESS, aborted wf st Y) ∧
    residual_tasks_num r.2 = Z.of_nat (size (pending (tasks r.2) (set_seq 0 n)))) m.
Proof.
  intros ts n Hix Hac Hk Hf Hst Hres Hok.
  assert (∀ d i, Z.of_nat d ∈ outs ts k → rtc (depends ts n) d i → tc (depends ts n) k i) as Htc.
  { intros d i Hd Hr. destruct (outs_depends ts n Hix k _ Hk Hd) as (d' & <-%Nat2Z.inj & _ & Hdep).
    by eapply tc_rtc_r; [apply tc_once|]. }
  eapply wp_mono.
  - rewrite <-(aborted_empty wf st) at 1.
    apply (wp_set_status wf st Hix Hac Hst (Z.eq_le_incl _ _ (eq_sym Hres)) fuel []); try done; [constructor|by intros q ?%elem_of_nil|simpl; lia| |].
    + intros z Hz. destruct (outs_depends ts n Hix k z Hk Hz) as (d & -> & Hd & _). exists d. by split_and!; [..|intros q ?%elem_of_nil].
    + intros d i Hd Hr. by eapply Hok, Htc.
  - intros r m' [_ (Y & HY & HYn & ->)]. rewrite union_empty_l_L. exists Y. split_and!; [|done|].
    + intros i. rewrite (HY i). split; [intros (d & Hd & Hr); by eapply Htc|].
      intros Hr. apply tc_first in Hr as (d & Hdep & Hr). exists d. split; [by apply (depends_outs ts n Hix)|done].
    + cbn [snd]. change (residual_tasks_num (aborted wf st Y)) with (residual_tasks_num wf - Z.of_nat (size (pending ts Y))).
      change (tasks (aborted wf st Y)) with (paint (λ _, set_status st) Y ts).
      rewrite pending_paint by done. rewrite Hres, (pending_split ts Y (set_seq 0 n)) by done. lia.
Qed.

(** The sample: task 1 depends on task 0. *)
Lemma abort_dependents_witness :
  let wf := set_residual_tasks_num 2 sample_workflow in
  wp (oph_workflow_set_status 3 wf (outs (tasks wf) 0) OPH_ODB_STATUS_ABORTED) (λ r _, ∃ Y,
    (∀ i, i ∈ Y ↔ tc (depends (tasks wf) 2) 0%nat i) ∧ r = (OPH_WORKFLOW_EXIT_SUCCESS, aborted wf OPH_ODB_STATUS_ABORTED Y)) [].
Proof.
  intros wf. eapply wp_mono.
  - apply (abort_dependents 3 wf 0 OPH_ODB_STATUS_ABORTED []); [apply sample_indexed_ok|apply sample_acyclic|simpl; lia|simpl; lia|done|reflexivity|].
    intros [|[|[|i]]] _ t Ht; vm_compute in Ht; simplify_eq; by left.
  - intros r m (Y & HY & Hr & _). by exists Y.
Defined.

(** ** Marking *)

Section mark.
Context (wf : oph_workflow) (p c : nat) (tp : oph_workflow_task).
Notation ts := (tasks wf).
Notation n := (tasks_num wf).
Notation mk := (λ _ : nat, set_is_marked 1).
Context (Hix : indexed ts n) (Hac : acyclic ts n).
Context (Hp : (p < n)%nat) (Htp : ts !! p = Some tp) (Hc : child tp = Z.of_nat c) (Hcn : (c < n)%nat).

Definition marked (X : gset nat) : oph_workflow := set_tasks (paint mk X ts) wf.

Lemma mark_edges : keeps_edges mk.
Proof. by intros i []. Qed.

Lemma marked_lookup X i t :
  ts !! i = Some t → tasks (marked X) !! i = Some (if decide (i ∈ X) then set_is_marked 1 t else t).
Proof. intros Hi. change (tasks (marked X)) with (paint mk X ts). by rewrite paint_lookup, Hi. Qed.

Lemma marked_update X d td :
  ts !! d = Some td →
  update_task (Z.of_nat d) (set_is_marked 1 (if decide (d ∈ X) then set_is_marked 1 td else td)) (marked X) =
  marked ({[d]} ∪ X).
Proof.
  intros Hd. assert (set_is_marked 1 (if decide (d ∈ X) then set_is_marked 1 td else td) = set_is_marked 1 td) as ->.
  { by destruct (decide (d ∈ X)). }
  unfold marked at 2. rewrite <-(paint_insert mk X ts d td Hd), <-set_cell_nat. reflexivity.
Qed.

(** The tasks strictly between [k] and the end. *)
Definition between_ends (k : nat) (Y : gset nat) : Prop :=
  ∀ j, j ∈ Y ↔ tc (depends ts n) k j ∧ rtc (depends ts n) j c ∧ j ≠ c.

Lemma child_of_marked X j (Q : bool → mem → Prop) m :
  (j < n)%nat → (∀ b, (b = true ↔ rtc (depends ts n) j c) → Q b m) →
  wp (oph_workflow_is_child_of (Some (marked X)) (Z.of_nat j) (Z.of_nat c)) Q m.
Proof.
  intros Hj HQ. eapply wp_mono.
  - apply (wp_workflow_is_child (marked X) j c); [apply paint_indexed, Hix; apply mark_edges|
      apply paint_acyclic, Hac; apply mark_edges|done|done].
  - intros b m' [-> Hb]. apply HQ. rewrite Hb. apply rtc_paint, mark_edges.
Qed.

(** What the loop over the first dependents has marked. *)
Definition marked_by (ds : list Z) (Y : gset nat) : Prop :=
  ∀ j, j ∈ Y ↔ ∃ d : nat, Z.of_nat d ∈ ds ∧ rtc (depends ts n) d j ∧ rtc (depends ts n) j c ∧ j ≠ c.

Lemma marked_by_outs k Y : (k < n)%nat → marked_by (outs ts k) Y → between_ends k Y.
Proof.
  intros Hk HY j. rewrite (HY j). split.
  - intros (d & Hd & Hr & ?). split; [|done]. apply tc_first. exists d. split; [|done].
    by destruct (outs_depends ts n Hix k _ Hk Hd) as (d' & <-%Nat2Z.inj & _ & Hdep).
  - intros ((d & Hd & Hr)%tc_first & ?). exists d. split; [by apply (depends_outs ts n Hix)|done].
Qed.

(** Behind the end nothing leads back to it. *)
Lemma behind_end j : rtc (depends ts n) c j → rtc (depends ts n) j c → j = c.
Proof.
  intros H1 H2. inversion H1 as [|? z ? Hd Hr]; [done|subst]. exfalso. apply (Hac c), tc_first.
  exists z. split; [done|]. by etrans.
Qed.

Lemma marked_by_skip don d Y :
  marked_by don Y → (d = c ∨ ¬ rtc (depends ts n) d c) → marked_by (don ++ [Z.of_nat d]) Y.
Proof.
  intros HY Hd j. rewrite (HY j). split; [intros (e & ? & ?); exists e; set_solver|].
  intros (e & [He|He%list_elem_of_singleton]%elem_of_app & Hr & Hj & Hne); [by exists e|].
  apply Nat2Z.inj in He as ->. exfalso. destruct Hd as [->|Hd]; [by apply Hne, behind_end|]. apply Hd. by etrans.
Qed.

Lemma marked_by_add don d Y Y' :
  (d < n)%nat → marked_by don Y → rtc (depends ts n) d c → d ≠ c → between_ends d Y' →
  marked_by (don ++ [Z.of_nat d]) ({[d]} ∪ Y ∪ Y').
Proof.
  intros Hd HY Hr Hne HY' j. rewrite !elem_of_union, elem_of_singleton, (HY j), (HY' j). split.
  - intros [[->|(e & ? & ?)]|(Ht & ?)]; [exists d; set_solver|exists e; set_solver|].
    exists d. split; [set_solver|]. split; [by apply tc_rtc|done].
  - intros (e & [He|He%list_elem_of_singleton]%elem_of_app & Hrj & Hj); [left; right; eauto|].
    apply Nat2Z.inj in He as ->. inversion Hrj as [|? z ? Hdep Hr']; subst; [by left; left|].
    right. split; [|done]. apply tc_first. eauto.
Qed.

Lemma wp_mark fuel path k X m :
  NoDup path → (∀ q, q ∈ path → (q < n)%nat) → (k < n)%nat → (n < fuel + length path)%nat →
  (∀ q, q ∈ path → tc (depends ts n) q k) →
  wp (mark_children_of fuel (marked X) (Z.of_nat k) (Z.of_nat p)) (λ r m', m' = m ∧
    ∃ Y, between_ends k Y ∧ r = (OPH_WORKFLOW_EXIT_SUCCESS, marked (X ∪ Y))) m.
Proof.
  revert path k X. induction fuel as [|fuel IH]; intros path k X Hnd Hb Hk Hf Hpath.
  { pose proof (path_bound path n Hnd Hb). lia. }
  destruct (fuel_left n (tc (depends ts n)) path k (S fuel)) as (f' & [= <-] & Hnd' & Hf'); [done..|].
  cbn [mark_children_of]. change (tasks_num (marked X)) with n.
  rewrite !(proj2 (Z.ltb_ge _ _)), !(proj2 (Z.leb_gt _ _)) by lia. simpl orb. cbv iota.
  destruct (lookup_lt_is_Some_2 ts k) as [tk Htk]; [pose proof (ix_length _ _ Hix); lia|].
  wp_step. rewrite cell_nat. eapply wp_deref; [by apply marked_lookup|].
  assert (dependents_indexes (if decide (k ∈ X) then set_is_marked 1 tk else tk) = outs ts k) as ->.
  { unfold outs. rewrite Htk. by destruct (decide (k ∈ X)). }
  wp_step. eapply wp_mono.
  - apply (wp_loopC _ (λ don wf' m', m' = m ∧ ∃ Y, marked_by don Y ∧ wf' = marked (X ∪ Y)) (λ _ _, False)).
    + split; [done|]. exists ∅. split; [|by rewrite union_empty_r_L]. intros j. split; [set_solver|].
      intros (d & Hd & _). by apply elem_of_nil in Hd.
    + intros don z rest wf' m1 Houts [-> (Y & HY & ->)].
      destruct (outs_depends ts n Hix k z Hk) as (d & -> & Hd & Hdep); [rewrite Houts; set_solver|].
      wp_step. rewrite cell_nat. eapply wp_deref; [by apply marked_lookup|].
      assert (child (if decide (p ∈ X ∪ Y) then set_is_marked 1 tp else tp) = Z.of_nat c) as ->.
      { by destruct (decide (p ∈ X ∪ Y)). }
      destruct (Z.eqb_spec (Z.of_nat d) (Z.of_nat c)) as [Heq|Hne].
      { wp_step. split; [done|]. exists Y. split; [|done]. apply marked_by_skip; [done|left; lia]. }
      wp_step. apply child_of_marked; [done|]. intros b Hb2. destruct b.
      2:{ wp_step. split; [done|]. exists Y. split; [|done]. apply marked_by_skip; [done|right]. intros H%Hb2. done. }
      destruct (lookup_lt_is_Some_2 ts d) as [td Htd]; [pose proof (ix_length _ _ Hix); lia|].
      wp_step. rewrite cell_nat. eapply wp_deref; [by apply marked_lookup|].
      rewrite (marked_update _ _ _ Htd).
      wp_step. eapply wp_mono; [apply (IH (path ++ [k]) d)|]; try done.
      * by apply (path_extend ts n path k d).
      * by apply (path_extend ts n path k d).
      * intros [rc wf''] m2 [-> (Y' & HY' & [= -> ->])]. wp_step. split; [done|].
        exists ({[d]} ∪ Y ∪ Y'). split; [apply marked_by_add; [done..|by apply Hb2|lia|done]|f_equal; set_solver].
  - intros [wf'|r] m1 Hr; [|done]. destruct Hr as [-> (Y & HY & ->)]. wp_step. split; [done|].
    exists Y. split; [by apply marked_by_outs|done].
Qed.
End mark.

(** on an acyclic workflow [oph_workflow_mark_children_of] terminates and marks
    exactly the tasks strictly between task [k] and the end of the block that [p]
    opens. *)
Theorem mark_children_between (fuel : nat) (wf : oph_workflow) (k p c : nat) (tp : oph_workflow_task) (m : mem) :
  let ts := tasks wf in let n := tasks_num wf in
  indexed ts n → acyclic ts n → (k < n)%nat → (p < n)%nat → (c < n)%nat → ts !! p = Some tp → child tp = Z.of_nat c →
  (n < fuel)%nat →
  wp (oph_workflow_mark_children_of fuel (Some wf) (Z.of_nat k) (Z.of_nat p)) (λ r _, ∃ Y,
    (∀ j, j ∈ Y ↔ tc (depends ts n) k j ∧ rtc (depends ts n) j c ∧ j ≠ c) ∧
    r = (OPH_WORKFLOW_EXIT_SUCCESS, Some (set_tasks (paint (λ _, set_is_marked 1) Y ts) wf))) m.
Proof.
  intros ts n Hix Hac Hk Hp Hc Htp Hch Hf. unfold oph_workflow_mark_children_of.
  rewrite bool_decide_false by (intros H; unfold ts in Htp; by rewrite H in Htp).
  wp_step. eapply wp_mono.
  - replace wf with (marked wf ∅) at 1 by (unfold marked; rewrite paint_empty; by destruct wf).
    apply (wp_mark wf p c tp Hix Hac Hp Htp Hch Hc fuel [] k ∅); try done;
      [constructor|by intros q ?%elem_of_nil|simpl; lia|by intros q ?%elem_of_nil].
  - intros r m' [_ (Y & HY & ->)]. wp_step. exists Y. split; [exact HY|]. by rewrite union_empty_l_L.
Qed.

(** The sample block: 0 is [p], 1 its end. *)
Definition sample_block : oph_workflow :=
  set_tasks (alter (set_child 1) 0%nat sample_indexed) sample_workflow.

Lemma mark_children_between_witness :
  wp (oph_workflow_mark_children_of 3 (Some sample_block) (Z.of_nat 0) (Z.of_nat 0)) (λ r _, r.1 = OPH_WORKFLOW_EXIT_SUCCESS) [].
Proof.
  eapply wp_mono.
  - apply (mark_children_between 3 sample_block 0 0 1 (set_child 1 (default zero_task (sample_indexed !! 0%nat))) []);
      [..|reflexivity|reflexivity|simpl; lia]; [|  |simpl; lia..].
    + apply (same_indexed sample_indexed); [reflexivity|apply sample_indexed_ok].
    + intros i Hi. apply (sample_acyclic i). revert Hi. generalize i at 2 4. intros j.
      induction 1 as [a b Hd|a b c' Hd _ IH]; [apply tc_once|eapply tc_l; [|done]];
        by apply (same_depends sample_indexed (tasks sample_block)).
  - intros r m (Y & _ & ->). done.
Defined.

(** ** Resetting *)

(** What the reset makes of a task, given memory. *)
Definition restored (t : oph_workflow_task) (st : oph_workflow_stack_task) : oph_workflow_task :=
  restore_links (reset_fields_of t (stt_arguments st)) st.

(** The saved cells of the task [t]: named arguments and an index for every edge. *)
Definition saved_for (t : oph_workflow_task) (st : oph_workflow_stack_task) : Prop :=
  Forall (λ a, is_Some (arg_key a)) (stt_arguments st) ∧
  length (stt_deps_task_index st) = length (deps t) ∧
  length (stt_dependents_indexes st) = length (dependents_indexes t).

Lemma wp_reset_one t st (Q : bool * oph_workflow_task → mem → Prop) m :
  saved_for t st → reliable m → (∀ m', reliable m' → Q (true, restored t st) m') → wp (reset_one t st) Q m.
Proof.
  intros (Ha & Hd & Ho) Hm HQ. unfold reset_one, restore_arguments.
  rewrite Hd, Ho, !Nat.leb_refl. wp_step. case_bool_decide as Hnil.
  - wp_steps. unfold restored in HQ. rewrite Hnil in HQ. by apply HQ.
  - wp_steps. apply (wp_mapC _ id); [done| |].
    + intros a m1 R Ha' Hm1 HR. apply wp_push_argument; [|done|done].
      by eapply Forall_forall in Ha.
    + rewrite list_fmap_id. intros m1 Hm1. wp_steps. by apply HQ.
Qed.

Section reset.
Context (wf : oph_workflow) (frame : oph_workflow_stack) (last : Z).
Notation ts := (tasks wf).
Notation n := (tasks_num wf).

(** The frame has the tasks of the workflow, and its indexes are in range. *)
Record frame_ok : Prop := {
  fr_length : (n ≤ length ts)%nat;
  fr_saved : ∀ i t, (i < n)%nat → ts !! i = Some t → ∃ st, stk_tasks frame !! i = Some st ∧ saved_for t st;
  fr_outs : ∀ i st, (i < n)%nat → stk_tasks frame !! i = Some st →
    Forall (λ j, 0 ≤ j < Z.of_nat n) (stt_dependents_indexes st);
}.
Context (Hfr : frame_ok).

(** The dependents that the frame restores. *)
Definition fouts (i : nat) : list Z := from_option stt_dependents_indexes [] (stk_tasks frame !! i).

Definition restore_at (i : nat) (t : oph_workflow_task) : oph_workflow_task :=
  from_option (restored t) t (stk_tasks frame !! i).

(** The workflow after the tasks in [X] were reset. *)
Definition after_reset (X : gset nat) : oph_workflow := set_tasks (paint restore_at X ts) wf.

(** The tasks with a status. *)
Definition live : gset nat :=
  filter (λ i, from_option (λ t, negb (status t =? 0)) false (ts !! i) = true) (set_seq 0 n).

Lemma elem_of_live i : i ∈ live ↔ (i < n)%nat ∧ ∃ t, ts !! i = Some t ∧ status t ≠ 0.
Proof.
  unfold live. rewrite elem_of_filter, elem_of_set_seq. destruct (ts !! i) as [t|]; simpl.
  - destruct (Z.eqb_spec (status t) 0); simpl; naive_solver lia.
  - naive_solver.
Qed.

Lemma after_reset_lookup X i t :
  ts !! i = Some t → tasks (after_reset X) !! i = Some (if decide (i ∈ X) then restore_at i t else t).
Proof. intros Hi. change (tasks (after_reset X)) with (paint restore_at X ts). by rewrite paint_lookup, Hi. Qed.

Lemma after_reset_update X i t st :
  ts !! i = Some t → stk_tasks frame !! i = Some st →
  update_task (Z.of_nat i) (restored t st) (after_reset X) = after_reset ({[i]} ∪ X).
Proof.
  intros Hi Hst. replace (restored t st) with (restore_at i t) by (unfold restore_at; by rewrite Hst).
  unfold after_reset at 2. rewrite <-(paint_insert restore_at X ts i t Hi), <-set_cell_nat. reflexivity.
Qed.

(** A step of the search: from a task that is not the last one to a dependent with a
    status. *)
Definition step (i j : nat) : Prop := Z.of_nat i ≠ last ∧ Z.of_nat j ∈ fouts i ∧ j ∈ live.

(** What a call with the dependents [ds] adds to the reset tasks [X]. *)
Record searched (X : gset nat) (ds : list Z) (Y : gset nat) : Prop := {
  se_live : Y ⊆ live ∖ X;
  se_start : ∀ d : nat, Z.of_nat d ∈ ds → d ∈ live → d ∈ X ∪ Y;
  se_closed : ∀ i j, i ∈ Y → step i j → j ∈ X ∪ Y;
  se_reached : ∀ i, i ∈ Y → ∃ d : nat, Z.of_nat d ∈ ds ∧ d ∈ live ∧ rtc step d i;
}.

Lemma searched_nil X : searched X [] ∅.
Proof. split; [set_solver|by intros d ?%elem_of_nil|set_solver|set_solver]. Qed.

(** A dependent without a status, or reset before, adds nothing. *)
Lemma searched_skip X don d Y :
  searched X don Y → (d ∈ live → d ∈ X ∪ Y) → searched X (don ++ [Z.of_nat d]) Y.
Proof.
  intros [H1 H2 H3 H4] Hd. split; [done| |done|].
  - intros e [He|He%list_elem_of_singleton]%elem_of_app Hl; [by apply H2|]. apply Nat2Z.inj in He as ->. by apply Hd.
  - intros i (e & ? & ?)%H4. exists e. set_solver.
Qed.

(** The last task is reset without going on. *)
Lemma searched_last X don d Y :
  searched X don Y → d ∈ live → d ∉ X ∪ Y → Z.of_nat d = last →
  searched X (don ++ [Z.of_nat d]) ({[d]} ∪ Y).
Proof.
  intros [H1 H2 H3 H4] Hl Hn Hlast. split.
  - set_solver.
  - intros e [He|He%list_elem_of_singleton]%elem_of_app He2; [apply H2 in He; set_solver|].
    apply Nat2Z.inj in He as ->. set_solver.
  - intros i j [->%elem_of_singleton|Hi]%elem_of_union Hs; [by destruct Hs|]. apply (H3 i) in Hs; set_solver.
  - intros i [->%elem_of_singleton|Hi]%elem_of_union; [exists d; set_solver|]. apply H4 in Hi as (e & ? & ?). exists e. set_solver.
Qed.

(** The others are reset and searched. *)
Lemma searched_sub X don d Y Y' :
  searched X don Y → d ∈ live → d ∉ X ∪ Y → Z.of_nat d ≠ last → searched ({[d]} ∪ (X ∪ Y)) (fouts d) Y' →
  searched X (don ++ [Z.of_nat d]) ({[d]} ∪ Y ∪ Y').
Proof.
  intros [H1 H2 H3 H4] Hl Hn Hlast [K1 K2 K3 K4]. split.
  - set_solver.
  - intros e [He|He%list_elem_of_singleton]%elem_of_app He2; [apply H2 in He; set_solver|].
    apply Nat2Z.inj in He as ->. set_solver.
  - intros i j [[->%elem_of_singleton|Hi]%elem_of_union|Hi]%elem_of_union Hs.
    + destruct Hs as (_ & Hj & Hjl). specialize (K2 j Hj Hjl). set_solver.
    + apply (H3 i) in Hs; set_solver.
    + apply (K3 i) in Hs; set_solver.
  - intros i [[->%elem_of_singleton|Hi]%elem_of_union|Hi]%elem_of_union.
    + exists d. split_and!; [set_solver|done|done].
    + apply H4 in Hi as (e & ? & ?). exists e. set_solver.
    + apply K4 in Hi as (e & He & Hel & Hr). exists d. split_and!; [set_solver|done|]. eapply rtc_l; [|exact Hr].
      by split_and!.
Qed.

(** A whole search is the set of the tasks reached through tasks with a status. *)
Lemma searched_exact ds Y :
  searched ∅ ds Y → ∀ i, i ∈ Y ↔ ∃ d : nat, Z.of_nat d ∈ ds ∧ d ∈ live ∧ rtc step d i.
Proof.
  intros [H1 H2 H3 H4] i. split; [apply H4|]. intros (d & Hd & Hl & Hr).
  assert (d ∈ Y) as Hdy by (specialize (H2 d Hd Hl); set_solver). clear Hd Hl.
  induction Hr as [|a b c Hs _ IH]; [done|]. apply IH. specialize (H3 a b Hdy Hs). set_solver.
Qed.

Lemma restored_fields i t st :
  stk_tasks frame !! i = Some st → saved_for t st →
  status (restored t st) = 0 ∧ dependents_indexes (restored t st) = fouts i.
Proof.
  intros Hst (_ & _ & Ho). split; [done|]. unfold fouts. rewrite Hst. cbn [from_option].
  change (dependents_indexes (restored t st)) with (take (length (dependents_indexes t)) (stt_dependents_indexes st)).
  by rewrite <-Ho, take_ge.
Qed.

(** One dependent of the loop, given what the recursive calls do. *)
Lemma wp_reset_dependent fuel X don d Y num m :
  (∀ X ds num m, (size (live ∖ X) < fuel)%nat →
    (∀ z, z ∈ ds → ∃ d, z = Z.of_nat d ∧ (d < n)%nat) → reliable m →
    wp (oph_workflow_reset_task fuel (after_reset X) ds last frame num) (λ r m', reliable m' ∧
      ∃ Y, searched X ds Y ∧ r = (OPH_WORKFLOW_EXIT_SUCCESS, after_reset (X ∪ Y), num + Z.of_nat (size Y))) m) →
  (size (live ∖ X) < S fuel)%nat → (d < n)%nat → searched X don Y → reliable m →
  wp (t ← deref (cell (tasks (after_reset (X ∪ Y))) (Z.of_nat d));
      if status t =? 0 then mret (Next (after_reset (X ∪ Y), num)) else
      st ← deref (cell (stk_tasks frame) (Z.of_nat d));
      '(ok, t') ← reset_one t st;
      let wf := update_task (Z.of_nat d) t' (after_reset (X ∪ Y)) in
      if negb ok then mret (Break (OPH_WORKFLOW_EXIT_MEMORY_ERROR, wf, num)) else
      let num := num + 1 in
      if Z.of_nat d =? last then mret (Next (wf, num)) else
      '(rc, wf, num) ← oph_workflow_reset_task fuel wf (dependents_indexes t') last frame num;
      mret (if rc =? 0 then Next (wf, num) else Break (rc, wf, num)))
    (λ c m', match c with
             | Next (wf', num') => reliable m' ∧ ∃ Y', searched X (don ++ [Z.of_nat d]) Y' ∧
                 wf' = after_reset (X ∪ Y') ∧ num' = num - Z.of_nat (size Y) + Z.of_nat (size Y')
             | Break _ => False
             end) m.
Proof.
  intros IH Hf Hd HY Hm. destruct (lookup_lt_is_Some_2 ts d) as [t Ht]; [pose proof (fr_length Hfr); lia|].
  destruct (fr_saved Hfr d t Hd Ht) as (st & Hst & Hsv). destruct (restored_fields d t st Hst Hsv) as [Hz Ho].
  wp_step. rewrite cell_nat. eapply wp_deref; [by apply after_reset_lookup|].
  assert ((d ∈ live → d ∈ X ∪ Y) →
    reliable m ∧ ∃ Y', searched X (don ++ [Z.of_nat d]) Y' ∧ after_reset (X ∪ Y) = after_reset (X ∪ Y') ∧
      num = num - Z.of_nat (size Y) + Z.of_nat (size Y')) as Hskip.
  { intros Hl. split; [done|]. exists Y. split_and!; [by apply searched_skip|done|lia]. }
  destruct (decide (d ∈ X ∪ Y)) as [Hin|Hin].
  { unfold restore_at. rewrite Hst. cbn [from_option]. rewrite Hz. simpl. wp_step. by apply Hskip. }
  destruct (Z.eqb_spec (status t) 0) as [H0|H0].
  { wp_step. apply Hskip. intros (_ & t' & Ht' & ?)%elem_of_live. congruence. }
  assert (d ∈ live) as Hl by (apply elem_of_live; eauto).
  wp_step. rewrite cell_nat. apply (wp_deref _ _ _ _ Hst). wp_step. apply wp_reset_one; [done..|]. intros m1 Hm1.
  cbv beta iota zeta. change (negb true) with false. cbv iota.
  rewrite (after_reset_update (X ∪ Y) d t st Ht Hst), Ho.
  destruct (Z.eqb_spec (Z.of_nat d) last) as [He|He].
  - wp_step. split; [done|]. exists ({[d]} ∪ Y). split_and!; [by apply searched_last|f_equal; set_solver|].
    rewrite size_union, size_singleton by set_solver. lia.
  - wp_step. eapply wp_mono; [apply (IH ({[d]} ∪ (X ∪ Y)))|].
    + enough (size (live ∖ ({[d]} ∪ (X ∪ Y))) < size (live ∖ X))%nat by lia.
      apply subset_size. split; [set_solver|]. intros Hsub. specialize (Hsub d). set_solver.
    + intros z Hz'. unfold fouts in Hz'. rewrite Hst in Hz'. cbn [from_option] in Hz'.
      pose proof (proj1 (Forall_forall _ _) (fr_outs Hfr d st Hd Hst) z Hz') as Hb. simpl in Hb.
      exists (Z.to_nat z). lia.
    + done.
    + intros [[rc wf'] num'] m2 [Hm2 (Y' & HY' & [= -> -> ->])]. wp_step. split; [done|].
      exists ({[d]} ∪ Y ∪ Y'). split_and!; [by apply searched_sub|f_equal; set_solver|].
      pose proof (se_live _ _ _ HY'). rewrite !size_union, size_singleton by set_solver. lia.
Qed.

Lemma wp_reset_walk fuel X ds num m :
  (size (live ∖ X) < fuel)%nat → (∀ z, z ∈ ds → ∃ d, z = Z.of_nat d ∧ (d < n)%nat) → reliable m →
  wp (oph_workflow_reset_task fuel (after_reset X) ds last frame num) (λ r m', reliable m' ∧
    ∃ Y, searched X ds Y ∧ r = (OPH_WORKFLOW_EXIT_SUCCESS, after_reset (X ∪ Y), num + Z.of_nat (size Y))) m.
Proof.
  revert X ds num m. induction fuel as [|fuel IH]; intros X ds num m Hf Hds Hm; [lia|].
  cbn [oph_workflow_reset_task]. wp_step. eapply wp_mono.
  - apply (wp_loopC _ (λ don s m', reliable m' ∧ ∃ Y, searched X don Y ∧ s.1 = after_reset (X ∪ Y) ∧
      s.2 = num + Z.of_nat (size Y)) (λ _ _, False)).
    + split; [done|]. exists ∅. split_and!; [apply searched_nil|cbn [fst]; by rewrite union_empty_r_L|cbn [snd]; rewrite size_empty; lia].
    + intros don z rest [wf' num'] m1 -> [Hm1 (Y & HY & Hw & Hn)]. cbn [fst snd] in Hw, Hn. subst wf' num'.
      destruct (Hds z) as (d & -> & Hd); [set_solver|].
      eapply wp_mono; [by apply (wp_reset_dependent fuel X don d Y)|].
      intros [[wf' num']|r] m2 Hc; [|done]. destruct Hc as (Hm2 & Y' & HY' & -> & ->). split; [done|].
      exists Y'. split_and!; [done|done|cbn [snd]; lia].
  - intros [[wf' num']|r] m1 Hc; [|done]. destruct Hc as (Hm1 & Y & HY & Hw & Hn). cbn [fst snd] in Hw, Hn. subst.
    wp_step. split; [done|]. by exists Y.
Qed.
End reset.

Lemma wp_reset_body fuel wf frame last ds num (Q : Z * oph_workflow * Z → mem → Prop) m :
  frame_ok wf frame → (size (live wf) < fuel)%nat → Forall (λ z, 0 ≤ z < Z.of_nat (tasks_num wf)) ds → reliable m →
  (∀ Y m', searched wf frame last ∅ ds Y → reliable m' → Q (OPH_WORKFLOW_EXIT_SUCCESS, after_reset wf frame Y, num + Z.of_nat (size Y)) m') →
  wp (oph_workflow_reset_task fuel wf ds last frame num) Q m.
Proof.
  intros Hfr Hf Hds Hm HQ. eapply wp_mono.
  - replace wf with (after_reset wf frame ∅) at 1 by (unfold after_reset; rewrite paint_empty; by destruct wf).
    apply (wp_reset_walk wf frame last Hfr fuel ∅); [|intros z Hz|done].
    + by replace (live wf ∖ ∅) with (live wf) by set_solver.
    + rewrite Forall_forall in Hds. specialize (Hds z Hz). simpl in Hds. exists (Z.to_nat z). lia.
  - intros r m' [Hm' (Y & HY & ->)]. rewrite union_empty_l_L. by apply HQ.
Qed.

(** given memory, [oph_workflow_reset_task] terminates on any workflow, cyclic ones
    included; with a frame of the workflow it resets exactly the tasks that are reached
    from the given dependents through tasks with a status, without going beyond the last
    task of the loop; each of them once, which is what [tasks_num] counts; and each gets
    the arguments and the links of the frame. *)
Theorem reset_task_exact (fuel : nat) (wf : oph_workflow) (ds : list Z) (last : Z) (frame : oph_workflow_stack)
    (num : Z) (m : mem) :
  frame_ok wf frame → (size (live wf) < fuel)%nat →
  Forall (λ z, 0 ≤ z < Z.of_nat (tasks_num wf)) ds → reliable m →
  wp (oph_workflow_reset_task fuel wf ds last frame num) (λ r _, ∃ Y : gset nat,
    (∀ i, i ∈ Y ↔ ∃ d : nat, Z.of_nat d ∈ ds ∧ d ∈ live wf ∧ rtc (step wf frame last) d i) ∧
    r = (OPH_WORKFLOW_EXIT_SUCCESS, set_tasks (paint (restore_at frame) Y (tasks wf)) wf, num + Z.of_nat (size Y))) m.
Proof.
  intros Hfr Hf Hds Hm. apply wp_reset_body; [done..|]. intros Y m' HY _. exists Y. split; [by apply searched_exact|done].
Qed.

(** ** A loop on the stack *)

(** The frame that [oph_workflow_push] puts on the stack is a frame of the workflow,
    and stays one while the statuses change. *)
Lemma pushed_frame_ok wf c nm sv iv num st0 (X : gset nat) :
  indexed (tasks wf) (tasks_num wf) → tasks_ok wf →
  frame_ok (set_tasks (paint (λ _, set_status st0) X (tasks wf)) wf)
    (Stack c 0 (snapshot <$> take (tasks_num wf) (tasks wf)) nm sv iv num).
Proof.
  intros Hix [Hlen Hkeys]. set (n := tasks_num wf) in *. set (ts := tasks wf) in *.
  assert (∀ i st, (snapshot <$> take n ts) !! i = Some st ↔ ∃ t, (i < n)%nat ∧ ts !! i = Some t ∧ st = snapshot t) as Hfr.
  { intros i st. rewrite list_lookup_fmap_Some. setoid_rewrite lookup_take_Some. naive_solver. }
  split.
  - change (n ≤ length (paint (λ _, set_status st0) X ts))%nat. unfold paint. rewrite length_imap. lia.
  - intros i t' Hi Ht'. change (paint (λ _, set_status st0) X ts !! i = Some t') in Ht'.
    rewrite paint_lookup in Ht'. destruct (ts !! i) as [t|] eqn:Ht; [|done]. simpl in Ht'.
    exists (snapshot t). split.
    + cbn [stk_tasks]. apply Hfr. by exists t.
    + assert (arguments t' = arguments t ∧ deps t' = deps t ∧ dependents_indexes t' = dependents_indexes t) as (_ & Hd & Ho).
      { injection Ht' as <-. by destruct (decide (i ∈ X)). }
      split_and!; [|by rewrite Hd; simpl; rewrite length_fmap|by rewrite Ho].
      exact (Forall_lookup_1 _ _ _ _ Hkeys Ht).
  - intros i st Hi Hst. apply Hfr in Hst as (t & _ & Ht & ->). cbn [stt_dependents_indexes snapshot].
    pose proof (ix_outs _ _ Hix i Hi) as Ho. unfold outs in Ho. fold ts in Ho. by rewrite Ht in Ho.
Qed.

Lemma sample_tasks_ok : tasks_ok sample_workflow.
Proof. split; [simpl; lia|]. repeat constructor. Qed.

(** The body of a loop from task 0 to task 1, completed. *)
Lemma reset_task_exact_witness :
  let wf := set_tasks (paint (λ _, set_status OPH_ODB_STATUS_COMPLETED) {[1%nat]} sample_indexed) sample_workflow in
  let frame := Stack 0 0 (snapshot <$> take 2 sample_indexed) None None None 1 in
  wp (oph_workflow_reset_task 5 wf [1] 1 frame 0) (λ r _, ∃ Y : gset nat,
    (∀ i, i ∈ Y ↔ ∃ d : nat, Z.of_nat d ∈ [1] ∧ d ∈ live wf ∧ rtc (step wf frame 1) d i) ∧
    r = (OPH_WORKFLOW_EXIT_SUCCESS, set_tasks (paint (restore_at frame) Y (tasks wf)) wf, 0 + Z.of_nat (size Y))) [].
Proof.
  intros wf frame. apply reset_task_exact; [| | |apply reliable_nil].
  - apply (pushed_frame_ok sample_workflow); [apply sample_indexed_ok|apply sample_tasks_ok].
  - apply Nat.ltb_lt. vm_compute. reflexivity.
  - repeat constructor; simpl; lia.
Defined.

(** ** Dependencies discounted too often *)

(** Tasks 2 and 3 are the body of a loop opened by task 1 and closed by task 5; task 4
    joins them and also depends on task 0, which completed before the loop. *)
Definition indexed_task (ds : list Z) (outs : list Z) (residual st : Z) : oph_workflow_task :=
  set_status st (set_residual_deps_num residual (set_dependents_indexes outs
    (set_deps ((λ k, set_task_index k (dep_on "")) <$> ds) zero_task))).

Definition diamond : oph_workflow :=
  set_tasks_num 6 (set_tasks
    [indexed_task [] [4] 0 OPH_ODB_STATUS_COMPLETED;
     indexed_task [] [2; 3] 0 OPH_ODB_STATUS_RUNNING;
     indexed_task [1] [4] 1 0;
     indexed_task [1] [4] 1 0;
     indexed_task [0; 2; 3] [5] 3 0;
     indexed_task [4] [] 1 0; zero_task] zero_workflow).

(** [oph_workflow_disable_deps] visits a task once for every path from the start of
    the loop, and discounts its completed dependencies at every visit: in the diamond
    the joining task, which waits for two tasks of the body, is left with one residual
    dependency, so that the first of the two starts it. *)
Theorem disable_deps_counts_paths (m : mem) :
  ∃ wf', oph_workflow_disable_deps 7 diamond [2; 3] 1 5 m = Ok (OPH_WORKFLOW_EXIT_SUCCESS, wf') m ∧
    (residual_deps_num <$> tasks diamond !! 4%nat) = Some 3 ∧
    (residual_deps_num <$> tasks wf' !! 4%nat) = Some 1.
Proof. eexists. split; [vm_compute; reflexivity|]. split; reflexivity. Qed.

(** ** Ordered lists *)

(** Keys in the order of [strcmp], nodes without a key last. *)
Definition node_le (a b : cstr * cstr) : Prop :=
  match a.1, b.1 with
  | Some x, Some y => str_gt x y = false
  | None, Some _ => False
  | _, None => True
  end.

Lemma str_gt_asym x y : str_gt x y = true → str_gt y x = false.
Proof.
  unfold str_gt. rewrite bool_decide_eq_true, bool_decide_eq_false. intros H. rewrite String.compare_antisym, H. done.
Qed.

Lemma insert_sorted_sorted k o l : Sorted node_le l → Sorted node_le (insert_sorted (Some k, o) k l).
Proof.
  induction 1 as [|c l Hs IH Hd]; simpl; [by repeat constructor|].
  destruct c as [[ck|] co]; simpl; [destruct (str_gt ck k) eqn:Hgt|].
  - repeat constructor; [done|done|]. by apply str_gt_asym.
  - constructor; [done|]. destruct l as [|[[dk|] do] l]; simpl; [by constructor| |by constructor].
    destruct (str_gt dk k); constructor; [done|]. by inversion Hd.
  - by repeat constructor.
Qed.

Lemma insert_sorted_perm t k l : insert_sorted t k l ≡ₚ t :: l.
Proof.
  induction l as [|c l IH]; simpl; [done|]. case_match; [done|]. rewrite IH. constructor.
Qed.

(** Collecting the objects of an argument in the order of their arrival. *)
Definition add_all (l : oph_workflow_ordered_list) (kos : list (string * string)) : C oph_workflow_ordered_list :=
  foldC (λ l ko, '(_, l') ← oph_workflow_add_to_list (Some ko.1) (Some ko.2) l; mret l') l kos.

Fixpoint join_objects (l : list string) : string :=
  match l with
  | [] => ""
  | [o] => o
  | o :: l' => o +:+ OPH_SEPARATOR_SUBPARAM_STR +:+ join_objects l'
  end%string.

Lemma print_nodes_join os l s m :
  snd <$> l = Some <$> os → reliable m →
  wp (print_object_nodes l (Some s)) (λ r _, r = (OPH_WORKFLOW_EXIT_SUCCESS, Some (join_objects (s :: os)))) m.
Proof.
  revert l s m. induction os as [|o os IH]; intros [|[k o'] l] s m Hl Hm; simplify_eq/=; [by wp_step|].
  do 3 wp_step. apply wp_malloc_reliable; [done|]. intros m1 Hm1. simpl negb. cbv iota.
  eapply wp_mono; [by apply IH|]. intros r m' ->.
  destruct os as [|o2 os]; [done|]. simpl. by rewrite !app_str_assoc.
Qed.

(** given memory, adding objects in any order keeps the list sorted by key and loses
    none, and [oph_workflow_print_list] prints the objects of the list separated by
    bars. *)
Theorem ordered_list_prints_sorted (kos : list (string * string)) (m : mem) :
  kos ≠ [] → reliable m →
  wp (l ← add_all [] kos; r ← oph_workflow_print_list l None; mret (l, r)) (λ r _, ∃ kos',
    kos' ≡ₚ kos ∧ r.1 = (λ ko, (Some ko.1, Some ko.2)) <$> kos' ∧ Sorted node_le r.1 ∧
    r.2 = (OPH_WORKFLOW_EXIT_SUCCESS, Some (join_objects (snd <$> kos')))) m.
Proof.
  intros Hne Hm. wp_step. set (node := λ ko : string * string, (Some ko.1, Some ko.2) : cstr * cstr).
  eapply wp_mono; [apply (wp_foldC _ (λ don l m', reliable m' ∧ Sorted node_le l ∧ l ≡ₚ node <$> don)); [by repeat constructor|]|].
  - intros don [k o] rest l m1 _ (Hm1 & Hs & Hp). wp_step. unfold oph_workflow_add_to_list.
    wp_step. apply wp_malloc_reliable; [done|]. intros m2 Hm2. wp_step. apply wp_assert; [done|]. wp_step.
    apply wp_strdup; [done|]. intros m3 Hm3. wp_step. apply wp_strdup; [done|]. intros m4 Hm4. do 2 wp_step. split_and!; [done|by apply insert_sorted_sorted|].
    rewrite insert_sorted_perm, Hp, fmap_app. apply Permutation_cons_append.
  - intros l m1 (Hm1 & Hs & Hp). apply Permutation_map_inv in Hp as (kos' & -> & Hp).
    destruct kos' as [|[k o] kos']; [by apply Permutation_nil_r in Hp|].
    wp_step. cbn [oph_workflow_print_list map print_object_nodes]. wp_step.
    apply (wp_deref _ _ _ o eq_refl). wp_step. apply wp_malloc_reliable; [done|]. intros m2 Hm2. simpl negb. cbv iota.
    eapply wp_mono; [apply (print_nodes_join (snd <$> kos')); [|done]|].
    + change (snd <$> (node <$> kos') = Some <$> (snd <$> kos')). by rewrite <-!list_fmap_compose.
    + intros r m3 ->. wp_step. exists ((k, o) :: kos'). split_and!; [by symmetry|done|done|done].
Qed.

Lemma ordered_list_prints_sorted_witness :
  add_all [] [("b", "2"); ("a", "1")]%string [] = Ok [(Some "a", Some "1"); (Some "b", Some "2")]%string [] ∧
  wp (l ← add_all [] [("b", "2"); ("a", "1")]%string; r ← oph_workflow_print_list l None; mret (l, r)) (λ r _, ∃ kos',
    kos' ≡ₚ [("b", "2"); ("a", "1")]%string ∧ r.1 = (λ ko, (Some ko.1, Some ko.2)) <$> kos' ∧ Sorted node_le r.1 ∧
    r.2 = (OPH_WORKFLOW_EXIT_SUCCESS, Some (join_objects (snd <$> kos')))) [].
Proof. split; [reflexivity|]. apply ordered_list_prints_sorted; [done|apply reliable_nil]. Defined.
(** ** Discounting touches only the counters *)

Definition recount (g : nat → Z) (wf : oph_workflow) : oph_workflow :=
  set_tasks (imap (λ i t, set_residual_deps_num (g i) t) (tasks wf)) wf.

Lemma recount_lookup g wf i : tasks (recount g wf) !! i = (λ t, set_residual_deps_num (g i) t) <$> tasks wf !! i.
Proof. change (imap (λ i t, set_residual_deps_num (g i) t) (tasks wf) !! i = (λ t, set_residual_deps_num (g i) t) <$> tasks wf !! i). by rewrite list_lookup_imap. Qed.

Lemma recount_id wf : ∃ g, wf = recount g wf.
Proof.
  exists (λ i, from_option residual_deps_num 0 (tasks wf !! i)). unfold recount.
  assert (imap (λ i t, set_residual_deps_num (from_option residual_deps_num 0 (tasks wf !! i)) t) (tasks wf) = tasks wf) as ->.
  { apply list_eq. intros i. rewrite list_lookup_imap. destruct (tasks wf !! i) as [t|] eqn:Ht; simpl; [|done]. by destruct t. }
  by destruct wf.
Qed.

Lemma recount_update g wf i t v :
  tasks wf !! i = Some t →
  update_task (Z.of_nat i) (set_residual_deps_num v (set_residual_deps_num (g i) t)) (recount g wf) =
  recount (λ j, if decide (j = i) then v else g j) wf.
Proof.
  intros Ht. unfold update_task, recount. rewrite set_cell_nat.
  match goal with |- set_tasks ?a _ = set_tasks ?b _ => replace b with a; [reflexivity|] end.
  apply list_eq. intros j. rewrite list_lookup_imap. destruct (decide (j = i)) as [->|Hne].
  - rewrite list_lookup_insert_eq; [|change (i < length (imap (λ i t, set_residual_deps_num (g i) t) (tasks wf)))%nat;
      rewrite length_imap; by apply lookup_lt_is_Some_1; eexists]. by rewrite Ht.
  - rewrite list_lookup_insert_ne by done. apply recount_lookup.
Qed.

Lemma wp_satisfied wf first t (Q : Z → mem → Prop) m :
  Forall (λ d, task_index d < Z.of_nat (length (tasks wf))) (deps t) → (∀ v, Q v m) → wp (satisfied wf first t) Q m.
Proof.
  intros Hd HQ. eapply wp_mono; [apply (wp_foldC _ (λ _ _ m', m' = m)); [done|]|by intros v m' ->].
  intros don d rest num m' Heq ->. rewrite Forall_forall in Hd. specialize (Hd d). rewrite Heq in Hd. specialize (Hd (elem_of_mid _ _ _)).
  cbv zeta. destruct (Z.leb_spec 0 (task_index d)) as [H0|]; cbn [andb]; [|by wp_step].
  destruct (task_index d =? first); cbn [negb]; [by wp_step|].
  wp_step. destruct (lookup_lt_is_Some_2 (tasks wf) (Z.to_nat (task_index d))) as [th Hth]; [lia|].
  eapply wp_deref; [|by wp_step]. unfold cell. by rewrite (proj2 (Z.ltb_ge _ _)) by done.
Qed.

(** The graph of a workflow, from the dependents [outs_of], is ranked below [B]. *)
Definition ranked (rank : nat → nat) (B n : nat) (i : nat) (ds : list Z) : Prop :=
  Forall (λ z, ∃ j : nat, z = Z.of_nat j ∧ (j < n)%nat ∧ (rank i < rank j)%nat) ds.

Lemma wp_disable_walk rank B wf first last :
  (tasks_num wf ≤ length (tasks wf))%nat →
  (∀ i t, (i < tasks_num wf)%nat → tasks wf !! i = Some t → ranked rank B (tasks_num wf) i (dependents_indexes t) ∧
     Forall (λ d, task_index d < Z.of_nat (tasks_num wf)) (deps t)) →
  (∀ i, (i < tasks_num wf)%nat → (rank i < B)%nat) →
  ∀ fuel g ds m, (0 < fuel)%nat → Forall (λ z, ∃ j : nat, z = Z.of_nat j ∧ (j < tasks_num wf)%nat ∧ (B < rank j + fuel)%nat) ds →
  wp (oph_workflow_disable_deps fuel (recount g wf) ds first last)
    (λ r m', m' = m ∧ ∃ g', r = (OPH_WORKFLOW_EXIT_SUCCESS, recount g' wf)) m.
Proof.
  intros Hlen Hg HB. induction fuel as [|fuel IH]; intros g ds m H0 Hds; [lia|]. cbn [oph_workflow_disable_deps]. apply wp_bind.
  eapply wp_mono; [apply (wp_loopC _ (λ _ w m', m' = m ∧ ∃ g', w = recount g' wf) (λ _ _, False)); [by split; [|eexists]|]|].
  - intros don z rest w m' Heq [-> (g' & ->)]. rewrite Forall_forall in Hds. destruct (Hds z) as (j & -> & Hj & Hr); [rewrite Heq; apply elem_of_mid|].
    destruct (lookup_lt_is_Some_2 (tasks wf) j) as [t Ht]; [lia|]. destruct (Hg j t Hj Ht) as [Hout Hdep].
    wp_step. eapply wp_deref; [unfold cell; rewrite (proj2 (Z.ltb_ge _ _)), Nat2Z.id, recount_lookup, Ht by lia; reflexivity|]. cbn [status set_residual_deps_num].
    destruct (status t =? 0); cbn [negb]; [|by wp_step; split; [|eexists]]. wp_step. apply wp_satisfied.
    { cbn [deps set_residual_deps_num]. eapply Forall_impl; [exact Hdep|]. intros d Hd. simpl in Hd. change (tasks (recount g' wf)) with (imap (λ i t, set_residual_deps_num (g' i) t) (tasks wf)). rewrite length_imap. lia. }
    intros v. rewrite (recount_update g' wf j t) by done. destruct (_ =? last); [by wp_step; split; [|eexists]|]. wp_step.
    eapply wp_mono; [apply IH; [specialize (HB j Hj); lia|]|].
    + eapply Forall_impl; [exact Hout|]. intros z (j' & -> & Hj' & Hr'). exists j'. split_and!; [done..|lia].
    + intros r m'' [-> (g'' & ->)]. wp_step. simpl. by split; [|eexists].
  - intros [w|] m'; [|done]. intros [-> (g' & ->)]. wp_step. by split; [|eexists].
Qed.
End WfEngine.
