(* ===== verification/Notify.v ===== *)
(** * Notifications ([oph_workflow_notify] of [src/src/oph_workflow_engine.c])

    Every change of a running task reaches the server as a text
    [parentid=..;taskindex=..;status=..;...].  [oph_workflow_notify] parses it, updates the task
    (or the light task of a massive operation), and when the task is over hands its outputs to
    the tasks that depend on it, discharges their dependencies, counts the residual tasks,
    repeats a failed task or gives it up, collects the objects to be deleted at the end, and
    decides what is executed next.

    The passages of the function are definitions of their own, [process_notification] composes them up
    to the point where the database is told; an early return is [Break] with the code for the
    caller and the workflow as it is then.  The JSON documents that the function writes on the way
    are parameters: whether they could be saved and the text that was made. *)

From Stdlib Require Ascii.
From stdpp Require Import base gmap strings numbers pretty list.
From S2P Require Import Prelude CString HashTbl Trash WfStructs WfSetup WfDag WfFlow ArgParser WfEngine.
Import (notations) Stdlib.Strings.Ascii.
Import WfStructs WfSetup WfDag WfFlow WfEngine.

Module Notify.

#[local] Open Scope Z_scope.

Definition OPH_SERVER_OK : Z := 0.
Definition OPH_SERVER_IO_ERROR : Z := 4.
Definition OPH_SERVER_SYSTEM_ERROR : Z := 6.
Definition OPH_SERVER_WRONG_PARAMETER_ERROR : Z := 7.
Definition OPH_MAX_STRING_SIZE : nat := 4096.

Definition set_query (v : cstr) (r : oph_workflow_task) : oph_workflow_task := ltac:(set_field eta_task query v r).
Definition set_exit_cubes (v : option oph_trash) (r : oph_workflow) : oph_workflow := ltac:(set_field eta_workflow exit_cubes v r).
Definition set_exit_containers (v : option oph_trash) (r : oph_workflow) : oph_workflow :=
  ltac:(set_field eta_workflow exit_containers v r).
Definition set_output (v : list oph_workflow_task_out) (r : oph_workflow) : oph_workflow := ltac:(set_field eta_workflow output v r).
Definition set_lt_status (v : Z) (l : oph_workflow_light_task) : oph_workflow_light_task :=
  LightTask (lt_idjob l) (lt_markerid l) v (lt_ncores l) (lt_nhosts l) (lt_nthreads l) (lt_arguments l) (lt_response l)
    (lt_is_marked_to_be_aborted l).

(** A step that may return early with a code and the workflow. *)
Definition stop : Type := Z * oph_workflow.
Definition andthen {A B} (c : C (ctl A stop)) (f : A → C (ctl B stop)) : C (ctl B stop) :=
  r ← c; match r with Next a => f a | Break s => mret (Break s) end.
Notation "'let*' x := c 'in' f" := (andthen c (λ x, f)) (at level 200, x pattern, c at level 100, f at level 200, right associativity).
Definition ok {A} (a : A) : C (ctl A stop) := mret (Next a).
Definition fail {A} (code : Z) (wf : oph_workflow) : C (ctl A stop) := mret (Break (code, wf)).

(** ** Parsing *)

Record notification : Type := Notification {
  n_jobid : Z;
  n_status : Z;
  n_parentid : Z;
  n_task : Z;
  n_light : Z;
  n_marker : Z;
  n_sessionid : cstr;
  n_query : cstr;
  n_outputs : list (cstr * cstr);
}.
Definition empty_notification : notification := Notification (-1) (-1) (-1) (-1) (-1) (-1) None None [].

Definition key_is (k : string) (name : string) : bool := strncmp0 k name OPH_MAX_STRING_SIZE.
Definition read_int (s : string) : Z := wrap_i32 (strtol s).

(** One argument; [Break] at the key [info], which ends the parsing. *)
Definition read_argument (n : notification) (a : ArgParser.oph_argument) : C (ctl notification ()) :=
  let '(Notification j st p t l mk sid q o) := n in
  k ← deref (ArgParser.key a);
  let number (f : Z → notification) := v ← deref (ArgParser.value a); mret (Next (f (read_int v))) in
  if key_is k "jobid" then number (λ x, Notification x st p t l mk sid q o)
  else if key_is k "status" then number (λ x, Notification j x p t l mk sid q o)
  else if key_is k "parentid" then number (λ x, Notification j st x t l mk sid q o)
  else if key_is k "taskindex" then number (λ x, Notification j st p x l mk sid q o)
  else if key_is k "lighttaskindex" then number (λ x, Notification j st p t x mk sid q o)
  else if key_is k "sessionid" then s ← strdup (ArgParser.value a); mret (Next (Notification j st p t l mk s q o))
  else if key_is k "markerid" then number (λ x, Notification j st p t l x sid q o)
  else if key_is k "info" then mret (Break ())
  else if key_is k "query" then s ← strdup (ArgParser.value a); mret (Next (Notification j st p t l mk sid s o))
  else mret (Next (Notification j st p t l mk sid q (o ++ [(ArgParser.key a, ArgParser.value a)]))).

(** The outputs are copied to two arrays, of which only the first allocation is tested. *)
Definition copy_outputs (o : list (cstr * cstr)) : C (option (list (cstr * cstr))) :=
  if bool_decide (o = []) then mret (Some []) else
  got ← malloc; if negb got then mret None else
  got ← malloc; assertC got;;
  o ← mapC (λ kv : cstr * cstr, k ← strdup kv.1; v ← strdup kv.2; mret (k, v)) o;
  mret (Some o).

(** The code and the notification; [OPH_SERVER_OK] without one: a message that needs no action. *)
Definition parse_notification (data : cstr) : C (Z * option notification) :=
  '(rc, args, counter) ← ArgParser.oph_parse_query data;
  if negb (rc =? 0) then mret (OPH_SERVER_SYSTEM_ERROR, None) else
  r ← loopC read_argument empty_notification (take (Z.to_nat counter) args);
  match r with
  | Break _ => mret (OPH_SERVER_OK, None)
  | Next n =>
      if (n_jobid n <? 0) || (n_status n <? 0) || (n_parentid n <? 0) || (n_task n <? 0) || (n_marker n <? 0)
         || bool_decide (n_sessionid n = None)
      then mret (OPH_SERVER_WRONG_PARAMETER_ERROR, None) else
      o ← copy_outputs (n_outputs n);
      match o with
      | None => mret (OPH_SERVER_SYSTEM_ERROR, None)
      | Some o => mret (OPH_SERVER_OK, Some (Notification (n_jobid n) (n_status n) (n_parentid n) (n_task n) (n_light n)
                                                (n_marker n) (n_sessionid n) (n_query n) o))
      end
  end.

(** ** Statuses *)

(** The [switch]: pending, running, completed, error, or a wrong code. *)
Definition canonical_status (st : Z) : option Z :=
  if (st =? OPH_ODB_STATUS_PENDING) || (st =? OPH_ODB_STATUS_RUNNING) || (st =? OPH_ODB_STATUS_COMPLETED) || (st =? OPH_ODB_STATUS_ERROR)
  then Some st
  else if (st =? OPH_ODB_STATUS_WAIT) || ((OPH_ODB_STATUS_START <=? st) && (st <=? OPH_ODB_STATUS_UNSET_ENV)) then Some OPH_ODB_STATUS_RUNNING
  else if st =? OPH_ODB_STATUS_UNSELECTED then Some OPH_ODB_STATUS_COMPLETED
  else if ((OPH_ODB_STATUS_PENDING_ERROR <=? st) && (st <=? OPH_ODB_STATUS_ABORTED)) || (st =? OPH_ODB_STATUS_EXPIRED)
  then Some OPH_ODB_STATUS_ERROR
  else None.

(** ** The response of an internal operation *)

Definition waits_for_response (n : notification) (t : oph_workflow_task) : bool :=
  (n_jobid n =? 0) && (idjob t =? 0) && (status t <? OPH_ODB_STATUS_ERROR).

Definition internal_response (n : notification) (st : Z) (output_json : cstr) (t : oph_workflow_task) : C oph_workflow_task :=
  if st =? OPH_ODB_STATUS_COMPLETED then
    r ← strdup output_json;
    match n_query n with
    | None => mret (set_response r t)
    | Some _ => q ← strdup (n_query n); mret (set_query q (set_response r t))
    end
  else if st =? OPH_ODB_STATUS_ERROR then r ← strdup (Some EmptyString); mret (set_response r t)
  else mret (set_response None t).

(** An error for a task (or a light task) that was not started or is over is neglected. *)
Definition neglected (n : notification) (st : Z) (t : oph_workflow_task) : C bool :=
  if negb (st =? OPH_ODB_STATUS_ERROR) then mret false else
  s ← (if 0 <=? n_light n then l ← deref (cell (light_tasks t) (n_light n)); mret (lt_status l) else mret (status t));
  mret ((s =? 0) || (OPH_ODB_STATUS_COMPLETED <=? s)).

(** ** Flags *)

(** What the passages leave for the end of the function. *)
Record flags : Type := Flags {
  update_wf_data : Z;
  update_task_data : Z;
  update_light_task_data : bool;
  task_completed : bool;
  final : bool;
  retry_task_execution : bool;
  check_for_constraint : bool;
  failed_task : cstr;
}.
Definition no_flags : flags := Flags 0 0 false false false false false None.
Definition eta_flags (r : flags) : flags :=
  Flags (update_wf_data r) (update_task_data r) (update_light_task_data r) (task_completed r) (final r) (retry_task_execution r)
    (check_for_constraint r) (failed_task r).
Definition set_update_wf (v : Z) (r : flags) : flags := ltac:(set_field eta_flags update_wf_data v r).
Definition set_update_task (v : Z) (r : flags) : flags := ltac:(set_field eta_flags update_task_data v r).
Definition set_update_light (v : bool) (r : flags) : flags := ltac:(set_field eta_flags update_light_task_data v r).
Definition set_task_completed (v : bool) (r : flags) : flags := ltac:(set_field eta_flags task_completed v r).
Definition set_final (v : bool) (r : flags) : flags := ltac:(set_field eta_flags final v r).
Definition set_retry (v : bool) (r : flags) : flags := ltac:(set_field eta_flags retry_task_execution v r).
Definition set_constraint (nm : cstr) (r : flags) : flags :=
  Flags (update_wf_data r) (update_task_data r) (update_light_task_data r) (task_completed r) (final r) (retry_task_execution r) true nm.

(** ** The task of the notification *)

Section notify.
(** The number of automatic retries; whether the JSON file of the task is missing, and whether the basic
    one could be saved; [fuel] for the walk over the dependents. *)
Context (oph_auto_retry : Z) (json_missing json_saved : bool) (fuel : nat).

Definition at_least (st : Z) (wf : oph_workflow) (f : flags) : oph_workflow * flags :=
  if wf_status wf <? st then (set_wf_status st wf, set_update_wf 1 f) else (wf, f).

(** A single task. *)
Definition update_single (n : notification) (wf : oph_workflow) (t : oph_workflow_task) (f : flags) :
    C (ctl (oph_workflow * flags) stop) :=
  let set_update_task_data := (status t <=? OPH_ODB_STATUS_PENDING) || (status t <? n_status n) in
  let mark f := if set_update_task_data then set_update_task 1 f else f in
  let t := set_status (n_status n) t in
  if negb (is_marked_for_auto_retry t =? 0) || (n_status n =? OPH_ODB_STATUS_START_ERROR) then
    if negb (oph_auto_retry =? 0) && (retry_num t =? 1) && (residual_auto_retry_num t =? 0) then
      ok (update_task (n_task n) (set_is_marked_for_auto_retry 1 (set_residual_auto_retry_num (1 + oph_auto_retry) t)) wf, f)
    else if negb (oph_auto_retry =? 0) && (retry_num t =? 1) && (1 <? residual_auto_retry_num t) then
      ok (update_task (n_task n) (set_residual_auto_retry_num (residual_auto_retry_num t - 1) t) wf, f)
    else
      let wf := update_task (n_task n) t wf in
      if (n_task n <? Z.of_nat (tasks_num wf)) && json_missing then
        if json_saved then ok (wf, mark (set_update_task 1 f)) else fail OPH_SERVER_IO_ERROR wf
      else ok (wf, mark f)
  else ok (update_task (n_task n) (set_residual_auto_retry_num 0 t) wf, mark f).

(** The well-known outputs. *)
Definition known_output (wf : oph_workflow) (kv : cstr * cstr) : C oph_workflow :=
  k ← deref kv.1;
  if key_is k "cube" then v ← deref kv.2; s ← ArgParser.strndup v OPH_MAX_STRING_SIZE; mret (set_cube s wf)
  else if key_is k "cdd" then v ← deref kv.2; s ← ArgParser.strndup v OPH_MAX_STRING_SIZE; mret (set_cdd s wf)
  else if key_is k "cwd" then v ← deref kv.2; s ← ArgParser.strndup v OPH_MAX_STRING_SIZE; mret (set_cwd s wf)
  else mret wf.
Definition known_outputs (outs : list (cstr * cstr)) (wf : oph_workflow) : C oph_workflow := foldC known_output wf outs.

(** The first number from [i] whose key is [name], other than [but]. *)
Fixpoint find_output (name : string) (but : option nat) (i : nat) (outs : list (cstr * cstr)) : C (option nat) :=
  match outs with
  | [] => mret None
  | (k, _) :: outs' =>
      if bool_decide (but = Some i) then find_output name but (S i) outs' else
      k ← deref k;
      if key_is k name then mret (Some i) else find_output name but (S i) outs'
  end.

(** The value of [file] becomes the one of [cube], which is added if there is none; an array that cannot
    grow is used beyond its end. *)
Definition file_output (outs : list (cstr * cstr)) : C (list (cstr * cstr) * Z) :=
  i ← find_output "file" None 0 outs;
  match i with
  | None => mret (outs, -1)
  | Some i =>
      kv ← deref (outs !! i);
      j ← find_output "cube" (Some i) 0 outs;
      match j with
      | Some j => v ← strdup kv.2; mret (alter (λ o : cstr * cstr, (o.1, v)) j outs, Z.of_nat j)
      | None =>
          got ← malloc; assertC got;;
          k ← strdup (Some "cube"%string);
          got ← malloc; assertC got;;
          v ← strdup kv.2;
          mret (outs ++ [(k, v)], Z.of_nat (length outs))
      end
  end.

(** The outputs of a further light task are appended to those of the task. *)
Definition join_outputs (old new : list (cstr * cstr)) : C (list (cstr * cstr)) :=
  if negb (length old =? length new)%nat then mret old else
  mapC (λ p : (cstr * cstr) * (cstr * cstr),
    k ← deref p.2.1; k' ← deref p.1.1;
    if key_is k k' then
      v' ← deref p.1.2; v ← deref p.2.2;
      s ← strdup (Some (truncate OPH_MAX_STRING_SIZE (v' +:+ OPH_SEPARATOR_SUBPARAM_STR +:+ v)));
      mret (p.1.1, s)
    else mret p.1) (zip old new).

(** The outputs of a light task that is completed; the rest of the function sees none. *)
Definition light_outputs (n : notification) (wf : oph_workflow) : C oph_workflow :=
  if bool_decide (n_outputs n = []) then mret wf else
  wf ← known_outputs (n_outputs n) wf;
  '(outs, file) ← file_output (n_outputs n);
  t ← deref (cell (tasks wf) (n_task n));
  if bool_decide (outputs t = []) then mret (update_task (n_task n) (set_outputs_file file (set_outputs outs t)) wf)
  else o ← join_outputs (outputs t) outs; mret (update_task (n_task n) (set_outputs o t) wf).

(** The end of a massive operation. *)
Definition massive_status (t : oph_workflow_task) : Z :=
  if existsb (λ l, OPH_ODB_STATUS_COMPLETED <? lt_status l) (light_tasks t) then OPH_ODB_STATUS_ERROR else OPH_ODB_STATUS_COMPLETED.

(** A light task that could not be started. *)
Definition light_start_error (n : notification) (wf : oph_workflow) (t : oph_workflow_task) (f : flags) :
    C (ctl (oph_workflow * flags) stop) :=
  let t := if negb (oph_auto_retry =? 0) && (retry_num t =? 1) && negb (residual_auto_retry_num t =? 1)
           then set_is_marked_for_auto_retry 1 t else t in
  let '(t, f) := if status t <? OPH_ODB_STATUS_RUNNING then (set_status OPH_ODB_STATUS_RUNNING t, set_update_task 1 f) else (t, f) in
  let '(wf, f) := at_least OPH_ODB_STATUS_RUNNING (update_task (n_task n) t wf) f in
  if (n_task n <? Z.of_nat (tasks_num wf)) && json_missing then
    if json_saved then ok (wf, set_update_light true f) else fail OPH_SERVER_SYSTEM_ERROR wf
  else ok (wf, f).

(** A light task: the new status, the flags, the status of the notification and whether the
    operation is ended. *)
Definition update_light (n : notification) (st : Z) (wf : oph_workflow) (t : oph_workflow_task) (f : flags) :
    C (ctl (oph_workflow * flags * Z * bool) stop) :=
  l ← deref (cell (light_tasks t) (n_light n));
  let f := if lt_status l <? n_status n then set_update_light true f else f in
  let t := set_light_tasks (set_cell (light_tasks t) (n_light n) (set_lt_status (n_status n) l)) t in
  let wf := update_task (n_task n) t wf in
  let* (wf, f) := if n_status n =? OPH_ODB_STATUS_START_ERROR then light_start_error n wf t f else ok (wf, f) in
  t ← deref (cell (tasks wf) (n_task n));
  if (st =? OPH_ODB_STATUS_COMPLETED) || (st =? OPH_ODB_STATUS_ERROR) then
    let f := set_update_task 1 f in
    if residual_light_tasks_num t =? 0 then fail OPH_SERVER_SYSTEM_ERROR wf else
    let wf := update_task (n_task n) (set_residual_light_tasks_num (residual_light_tasks_num t - 1) t) wf in
    wf ← (if st =? OPH_ODB_STATUS_COMPLETED then light_outputs n wf else mret wf);
    t ← deref (cell (tasks wf) (n_task n));
    if residual_light_tasks_num t =? 0 then
      ok (update_task (n_task n) (set_status (massive_status t) t) wf, f, massive_status t, true)
    else ok (wf, if status t =? OPH_ODB_STATUS_RUNNING then set_update_task 2 f else f, st, false)
  else if st =? OPH_ODB_STATUS_RUNNING then
    let '(t, f) := if status t <? st then (set_status st t, set_update_task 1 f) else (t, f) in
    let '(wf, f) := at_least st (update_task (n_task n) t wf) f in
    ok (wf, f, st, false)
  else ok (wf, f, st, false).

(** ** A completed task *)

(** The response is kept if a dependent is a loop or an assignment. *)
Definition keep_response (text : string) (k : Z) (wf : oph_workflow) : C oph_workflow :=
  t ← deref (cell (tasks wf) k);
  foldC (λ wf i,
    d ← deref (cell (tasks wf) i);
    o ← deref (operator d);
    if strncasecmp0 o "oph_for" OPH_MAX_STRING_SIZE || strncasecmp0 o "oph_set" OPH_MAX_STRING_SIZE then
      r ← strdup (Some text);
      t ← deref (cell (tasks wf) k);
      mret (update_task k (set_response r t) wf)
    else mret wf) wf (dependents_indexes t).

(** The outputs become those of the task. *)
Definition store_outputs (outs : list (cstr * cstr)) (file : Z) (k : Z) (wf : oph_workflow) : C (ctl oph_workflow stop) :=
  t ← deref (cell (tasks wf) k);
  if bool_decide (outputs t = []) then ok (update_task k (set_outputs_file file (set_outputs outs t)) wf)
  else if (parallel_mode t =? 0) && (bool_decide (light_tasks t = []) || negb (residual_light_tasks_num t =? 0))
  then fail OPH_SERVER_SYSTEM_ERROR wf else ok wf.

(** The number of the argument with the key. *)
Fixpoint find_argument (key : cstr) (i : nat) (args : list argument) : C (option nat) :=
  match args with
  | [] => mret None
  | a :: args' => b ← strcmp0 (arg_key a) key; if b : bool then mret (Some i) else find_argument key (S i) args'
  end.

(** A new argument; null arrays are refused ([oph_realloc_vector]). *)
Definition new_argument (key : cstr) (args : list argument) : C (option (list argument)) :=
  if bool_decide (args = []) then mret None else
  got ← malloc; if negb got then mret None else
  got ← malloc; if negb got then mret None else
  got ← malloc; if negb got then mret None else
  k ← strdup key;
  mret (Some (args ++ [Arg k None []])).

(** The value of an output is added to the list of the argument of the dependency. *)
Definition give_value (dep : oph_workflow_dep) (value : cstr) (d : Z) (wf : oph_workflow) : C (ctl oph_workflow stop) :=
  t ← deref (cell (tasks wf) d);
  kk ← find_argument (dep_argument dep) 0 (arguments t);
  r ← (match kk with
       | Some kk => mret (Some (arguments t, kk))
       | None =>
           args ← new_argument (dep_argument dep) (arguments t);
           mret ((λ args, (args, length (arguments t))) <$> args)
       end);
  match r with
  | None => fail OPH_SERVER_SYSTEM_ERROR wf
  | Some (args, kk) =>
      a ← deref (args !! kk);
      '(rc, l) ← oph_workflow_add_to_list (dep_order dep) value (arg_list a);
      if negb (rc =? 0) then fail OPH_SERVER_SYSTEM_ERROR (update_task d (set_arguments args t) wf)
      else ok (update_task d (set_arguments (<[kk := Arg (arg_key a) (arg_value a) l]> args) t) wf)
  end.

Definition type_is (dep : oph_workflow_dep) (ty : string) : C bool :=
  s ← deref (dep_type dep); mret (strncasecmp0 s ty OPH_MAX_STRING_SIZE).

(** A task with more than one output for a dependency on a single one: the dependent is aborted. *)
Definition violate_constraint (d : Z) (wf : oph_workflow) (f : flags) : C (ctl (oph_workflow * flags) stop) :=
  t ← deref (cell (tasks wf) d);
  '(rc, wf) ← oph_workflow_set_status fuel (update_task d (set_status OPH_ODB_STATUS_ABORTED t) wf) (dependents_indexes t) OPH_ODB_STATUS_ABORTED;
  if negb (rc =? 0) then fail OPH_SERVER_SYSTEM_ERROR wf
  else ok (set_wf_status OPH_ODB_STATUS_ERROR wf, set_constraint (name t) f).

(** The output that a dependency asks for. *)
Fixpoint wanted_output (dep : oph_workflow_dep) (outs : list (cstr * cstr)) : C (option cstr) :=
  match outs with
  | [] => mret None
  | (k, v) :: outs' =>
      k ← deref k; o ← deref (output_argument dep);
      if key_is k o then mret (Some v) else wanted_output dep outs'
  end.

Definition pass_output (k d : Z) (dep : oph_workflow_dep) (wf : oph_workflow) (f : flags) : C (ctl (oph_workflow * flags) stop) :=
  t ← deref (cell (tasks wf) k);
  v ← wanted_output dep (outputs t);
  match v with
  | None => ok (wf, f)
  | Some v =>
      single ← (if (1 <? length (light_tasks t))%nat then type_is dep "single" else mret false);
      td ← deref (cell (tasks wf) d);
      if single && negb (retry_num td <? 0) then violate_constraint d wf f
      else let* wf := give_value dep v d wf in ok (wf, f)
  end.

(** One dependency [j] of the dependent [d]; the boolean is the end of the loop over [j]. *)
Definition discharge (k d : Z) (j : nat) (wf : oph_workflow) (f : flags) : C (ctl (oph_workflow * flags * bool) stop) :=
  t ← deref (cell (tasks wf) d);
  dep ← deref (deps t !! j);
  if negb (task_index dep =? k) then ok (wf, f, false) else
  embedded ← type_is dep "embedded";
  let* (wf, f) := if embedded : bool then ok (wf, f) else pass_output k d dep wf f in
  if negb embedded && check_for_constraint f then ok (wf, f, true) else
  t ← deref (cell (tasks wf) d);
  if residual_deps_num t =? 0 then fail OPH_SERVER_SYSTEM_ERROR wf else
  let t := set_deps (alter (set_task_index (-1)) j (deps t)) (set_residual_deps_num (residual_deps_num t - 1) t) in
  ok (update_task d t wf, f, false).

(** The loop over the dependencies of [d]. *)
Fixpoint discharge_all (k d : Z) (js : list nat) (wf : oph_workflow) (f : flags) : C (ctl (oph_workflow * flags) stop) :=
  match js with
  | [] => ok (wf, f)
  | j :: js' => let* (wf, f, quit) := discharge k d j wf f in if quit : bool then ok (wf, f) else discharge_all k d js' wf f
  end.

(** The loop over the dependents; indexes out of range are passed over. *)
Fixpoint notify_dependents (k : Z) (ds : list Z) (wf : oph_workflow) (f : flags) : C (ctl (oph_workflow * flags) stop) :=
  match ds with
  | [] => ok (wf, f)
  | d :: ds' =>
      if (d <? 0) || (Z.of_nat (tasks_num wf) <=? d) then notify_dependents k ds' wf f else
      t ← deref (cell (tasks wf) d);
      let* (wf, f) := discharge_all k d (seq 0 (length (deps t))) wf f in notify_dependents k ds' wf f
  end.

(** ** Objects to be deleted at the end *)

Definition OPH_WORKFLOW_EXIT_ACTION_DELETE : Z := 1.
Definition OPH_WORKFLOW_EXIT_ACTION_DELETECONTAINER : Z := 2.

(** [strstr] *)
Fixpoint strstr (s pat : string) : cstr :=
  if strncmp0 s pat (String.length pat) then Some s
  else match s with EmptyString => None | String _ s' => strstr s' pat end.

Fixpoint drop_str (n : nat) (s : string) : string :=
  match n, s with S n, String _ s' => drop_str n s' | _, _ => s end.

(** An occurrence of the object that ends at a separator or at the end. *)
Fixpoint occurs_in (fuel : nat) (value object : string) : bool :=
  match fuel with
  | O => false
  | S fuel =>
      match strstr value object with
      | None => false
      | Some p =>
          match drop_str (String.length object) p with
          | EmptyString => true
          | String c _ as p' => Ascii.eqb c "|" || occurs_in fuel p' object
          end
      end
  end.

(** The light task whose argument [i] is the object. *)
Fixpoint light_value (i : nat) (object : string) (ls : list oph_workflow_light_task) : C cstr :=
  match ls with
  | [] => mret None
  | l :: ls' =>
      kv ← deref (lt_arguments l !! i);
      v ← deref kv.2;
      if bool_decide (object = v) then mret (Some v) else light_value i object ls'
  end.

Fixpoint find_target (target : string) (i : nat) (args : list argument) : C (option nat) :=
  match args with
  | [] => mret None
  | a :: args' => k ← deref (arg_key a); if key_is k target then mret (Some i) else find_target target (S i) args'
  end.

(** An object that the task was given is not deleted. *)
Definition is_input (t : oph_workflow_task) (target object : string) : C bool :=
  i ← find_target target 0 (arguments t);
  match i with
  | None => mret false
  | Some i =>
      v ← (if bool_decide (light_tasks t = []) then a ← deref (arguments t !! i); mret (arg_value a)
           else light_value i object (light_tasks t));
      mret (match v with None => false | Some v => occurs_in (S (String.length v)) v object end)
  end.

(** The objects that were created, joined; the text is cut at the size of the buffer. *)
Definition collect_object (t : oph_workflow_task) (target : string) (acc : cstr) (object : string) : C cstr :=
  b ← is_input t target object;
  if b : bool then mret acc else
  match acc with
  | Some s => strdup (Some (truncate OPH_MAX_STRING_SIZE (s +:+ OPH_SEPARATOR_SUBPARAM_STR +:+ object)))
  | None => strdup (Some object)
  end.

(** The number behind the last slash enters the trash, then the text ends at its last separator. *)
Fixpoint trash_objects (fuel : nat) (objects : string) (trash : option oph_trash) : C (Z * option oph_trash) :=
  match fuel with
  | O => out_of_fuel
  | S fuel =>
      match strrchr objects "/" with
      | Some (String _ object) =>
          '(rc, trash) ← (match trash with None => Trash.oph_trash_create | Some _ => mret (0, trash) end);
          if negb (rc =? 0) then mret (OPH_SERVER_SYSTEM_ERROR, trash) else
          '(_, trash) ← Trash.oph_trash_append trash None (read_int object);
          match strrchr objects "|" with
          | None => mret (OPH_SERVER_OK, trash)
          | Some p => trash_objects fuel (take_str (String.length objects - String.length p) objects) trash
          end
      | _ => mret (OPH_SERVER_OK, trash)
      end
  end.

(** The exit action of the task. *)
Definition exit_operation (k : Z) (wf : oph_workflow) : C (ctl oph_workflow stop) :=
  t ← deref (cell (tasks wf) k);
  let target := if exit_action t =? OPH_WORKFLOW_EXIT_ACTION_DELETE then "cube"%string
                else if exit_action t =? OPH_WORKFLOW_EXIT_ACTION_DELETECONTAINER then "container_pid"%string else EmptyString in
  if bool_decide (target = EmptyString) then ok wf else
  i ← find_output target None 0 (outputs t);
  match i with
  | None => ok wf
  | Some i =>
      if Z.of_nat i =? outputs_file t then ok wf else
      kv ← deref (outputs t !! i);
      v ← deref kv.2;
      objects ← foldC (collect_object t target) None (strtok OPH_SEPARATOR_SUBPARAM_STR (truncate OPH_MAX_STRING_SIZE v));
      match objects with
      | None => ok wf
      | Some o =>
          let cubes := exit_action t =? OPH_WORKFLOW_EXIT_ACTION_DELETE in
          '(rc, trash) ← trash_objects (S (String.length o)) o (if cubes then exit_cubes wf else exit_containers wf);
          let wf := if cubes then set_exit_cubes trash wf else set_exit_containers trash wf in
          if negb (rc =? 0) then fail rc wf else ok wf
      end
  end.

(** ** The end of a workflow and of a task *)

Definition running (t : oph_workflow_task) : bool := (OPH_ODB_STATUS_UNKNOWN <? status t) && (status t <? OPH_ODB_STATUS_COMPLETED).
Definition none_running (wf : oph_workflow) : bool := negb (existsb running (take (tasks_num wf) (tasks wf))).

(** After a completed task. *)
Definition finish_completed (st : Z) (wf : oph_workflow) (f : flags) : oph_workflow * flags :=
  if wf_status wf =? OPH_ODB_STATUS_ERROR then
    (wf, if (residual_tasks_num wf =? 0) || none_running wf then set_final true f else f)
  else if residual_tasks_num wf =? 0 then
    (if wf_status wf <? st then set_wf_status st wf else wf, set_final true f)
  else (wf, set_update_wf 2 f).

(** The passage for a completed task. *)
Definition complete_task (n : notification) (outs : list (cstr * cstr)) (st : Z) (wf : oph_workflow) (f : flags) :
    C (ctl (oph_workflow * flags) stop) :=
  let k := n_task n in
  t ← deref (cell (tasks wf) k);
  let t := if negb (is_skipped t =? 0) && (status t <=? OPH_ODB_STATUS_COMPLETED) then set_status OPH_ODB_STATUS_UNSELECTED t else t in
  let wf := set_residual_tasks_num (residual_tasks_num wf - 1) (update_task k t wf) in
  let f := set_task_completed true f in
  wf ← known_outputs outs wf;
  '(outs, file) ← file_output outs;
  let* wf := store_outputs outs file k wf in
  t ← deref (cell (tasks wf) k);
  let* (wf, f) := notify_dependents k (dependents_indexes t) wf f in
  let* wf := exit_operation k wf in
  ok (finish_completed st wf f).

(** The passage for a failed task that is skipped: its dependents are aborted. *)
Definition skip_task (k st : Z) (wf : oph_workflow) (f : flags) : C (ctl (oph_workflow * flags * Z) stop) :=
  t ← deref (cell (tasks wf) k);
  '(rc, wf) ← oph_workflow_set_status fuel (set_residual_tasks_num (residual_tasks_num wf - 1) wf) (dependents_indexes t) OPH_ODB_STATUS_ABORTED;
  if negb (rc =? 0) then fail OPH_SERVER_SYSTEM_ERROR wf else
  if residual_tasks_num wf =? 0 then
    ok (if wf_status wf <? OPH_ODB_STATUS_COMPLETED then set_wf_status OPH_ODB_STATUS_COMPLETED wf else wf, set_final true f, OPH_ODB_STATUS_COMPLETED)
  else ok (wf, if (wf_status wf =? OPH_ODB_STATUS_ERROR) && none_running wf then set_final true f else f, st).

(** The automatic retry of a marked task: a new number of retries, or none left. *)
Definition auto_retry (t : oph_workflow_task) : option oph_workflow_task :=
  if negb (oph_auto_retry =? 0) && negb (is_marked_for_auto_retry t =? 0) && (retry_num t =? 1) then
    if residual_auto_retry_num t =? 0 then Some (set_residual_auto_retry_num (1 + oph_auto_retry) t)
    else if 1 <? residual_auto_retry_num t then Some (set_residual_auto_retry_num (residual_auto_retry_num t - 1) t)
    else None
  else None.

(** The passage for a failed task that is repeated, or given up after the last attempt. *)
Definition retry_task (k st : Z) (wf : oph_workflow) (f : flags) : C (ctl (oph_workflow * flags * Z) stop) :=
  t ← deref (cell (tasks wf) k);
  let again t := ok (update_task k (set_status OPH_ODB_STATUS_UNKNOWN t) wf, set_retry true (set_update_wf 0 f), OPH_ODB_STATUS_RUNNING) in
  if residual_retry_num t =? 0 then fail OPH_SERVER_SYSTEM_ERROR wf else
  match auto_retry t with
  | Some t => again t
  | None =>
      let t := set_residual_retry_num (residual_retry_num t - 1) t in
      if negb (residual_retry_num t =? 0) then again t else
      let wf := set_wf_status st (set_residual_tasks_num (residual_tasks_num wf - 1) (update_task k t wf)) in
      ok (wf, if none_running wf then set_final true f else f, st)
  end.

(** The output of a task is traced in the order of the markers. *)
Fixpoint insert_trace (o : oph_workflow_task_out) (l : list oph_workflow_task_out) : list oph_workflow_task_out :=
  match l with
  | [] => [o]
  | x :: l' => if to_markerid x <? to_markerid o then x :: insert_trace o l' else o :: l
  end.

(** The first node that is not before the marker has it. *)
Fixpoint traced (marker : Z) (l : list oph_workflow_task_out) : bool :=
  match l with
  | [] => false
  | x :: l' => if to_markerid x <? marker then traced marker l' else to_markerid x =? marker
  end.

Definition trace_output (k st : Z) (wf : oph_workflow) : C oph_workflow :=
  if negb ((st =? OPH_ODB_STATUS_COMPLETED) || (st =? OPH_ODB_STATUS_ERROR)) then mret wf else
  t ← deref (cell (tasks wf) k);
  if traced (markerid t) (output wf) then mret wf else
  '(rc, t, o) ← oph_workflow_save_task_output t;
  let wf := update_task k t wf in
  mret (match o with Some o => if rc =? 0 then set_output (insert_trace o (output wf)) wf else wf | None => wf end).

(** ** The whole *)

(** A task that ended: [st] is its status, [outs] its outputs, [text] its response. *)
Definition end_of_task (n : notification) (outs : list (cstr * cstr)) (st : Z) (text : string) (wf : oph_workflow) (f : flags) :
    C (ctl (oph_workflow * flags) stop) :=
  let k := n_task n in
  if residual_tasks_num wf =? 0 then fail OPH_SERVER_SYSTEM_ERROR wf else
  wf ← keep_response text k wf;
  t ← deref (cell (tasks wf) k);
  let '(st, t) := if retry_num t <? 0 then
                    (OPH_ODB_STATUS_COMPLETED,
                     if (OPH_ODB_STATUS_COMPLETED <? status t) && (status t <? OPH_ODB_STATUS_SKIPPED) then set_status OPH_ODB_STATUS_SKIPPED t else t)
                  else (st, t) in
  let wf := update_task k t wf in
  let* (wf, f, st) := if st =? OPH_ODB_STATUS_COMPLETED then let* (wf, f) := complete_task n outs st wf f in ok (wf, f, st)
                      else if retry_num t =? 0 then skip_task k st wf f
                      else retry_task k st wf f in
  wf ← trace_output k st wf;
  ok (wf, f).

(** From the update of the task to the database; [made_json] is the JSON text the server itself
    made for the task. *)
Definition process_notification (n : notification) (st : Z) (output_json made_json : cstr) (wf : oph_workflow) :
    C (ctl (oph_workflow * flags) stop) :=
  t ← deref (cell (tasks wf) (n_task n));
  let light := 0 <=? n_light n in
  let* (wf, f, st', ended) := if light then update_light n st wf t no_flags
                              else let* (wf, f) := update_single n wf t no_flags in ok (wf, f, st, true) in
  let outs := if light && (st =? OPH_ODB_STATUS_COMPLETED) then [] else n_outputs n in
  if negb ended then ok (wf, f)
  else if (st' =? OPH_ODB_STATUS_COMPLETED) || (st' =? OPH_ODB_STATUS_ERROR) then
    last ← deref (tasks wf !! tasks_num wf);
    match name last with
    | Some _ => ok (wf, set_final true (set_update_wf 1 f))
    | None =>
        let text := default EmptyString (match made_json with Some s => Some s | None => if light then None else output_json end) in
        end_of_task n outs st' text wf (set_update_wf 1 f)
    end
  else if st' =? OPH_ODB_STATUS_RUNNING then ok (at_least st' wf f)
  else ok (wf, f).

(** ** The final task *)

Definition OPH_WORKFLOW_FINAL_TASK : string := "Final task".
Definition OPH_WORKFLOW_DELETE : string := "oph_delete".
Definition OPH_WORKFLOW_DELETECONTAINER : string := "oph_deletecontainer".

(** A number joins the last range of the text or starts a new one. *)
Definition add_cube (s : string) (cubeid : Z) : C string :=
  let text := print_int cubeid in
  let append sep := truncate OPH_MAX_STRING_SIZE (s +:+ truncate OPH_MAX_STRING_SIZE (sep +:+ text)) in
  if bool_decide (s = EmptyString) then mret (truncate OPH_MAX_STRING_SIZE text) else
  let last_block := match strrchr s "," with Some (String _ b) => b | _ => s end in
  match strchr last_block ":" with
  | Some (String _ last_index) =>
      if strtol last_index =? cubeid - 1 then
        assertC (bool_decide (String.length s - String.length last_index + String.length text < OPH_MAX_STRING_SIZE)%nat);;
        mret (take_str (String.length s - String.length last_index) s +:+ text)
      else mret (append ","%string)
  | _ => mret (append (if strtol last_block =? cubeid - 1 then ":"%string else ","%string))
  end.

(** The loop that empties the trash. *)
Fixpoint cube_ranges (fuel : nat) (trash : option oph_trash) (s : string) : C (string * option oph_trash) :=
  match fuel with
  | O => out_of_fuel
  | S fuel =>
      '(rc, cubeid, trash) ← Trash.oph_trash_extract trash None;
      if negb (rc =? 0) then mret (s, trash) else s ← add_cube s cubeid; cube_ranges fuel trash s
  end.

Definition no_argument : argument := Arg None None [].

(** The arrays of the arguments get [incr] cells more; null arrays are refused. *)
Definition more_arguments (incr : nat) (t : oph_workflow_task) : C (option oph_workflow_task) :=
  if bool_decide (arguments t = []) then mret None else
  got ← malloc; if negb got then mret None else
  got ← malloc; if negb got then mret None else
  got ← malloc; if negb got then mret None else
  mret (Some (set_arguments (arguments t ++ replicate incr no_argument) t)).

Definition begin_final (op : string) (t : oph_workflow_task) : C oph_workflow_task :=
  nm ← strdup (Some OPH_WORKFLOW_FINAL_TASK);
  o ← strdup (Some op);
  mret (set_ncores 1 (set_operator o (set_name nm t))).

Definition fill_argument (kk : nat) (k v : string) (t : oph_workflow_task) : C oph_workflow_task :=
  k ← strdup (Some k); v ← strdup (Some v); mret (set_arguments (<[kk := Arg k v []]> (arguments t)) t).

(** The task that deletes cubes. *)
Definition delete_cubes (sort_fuel : nat) (trash : oph_trash) (wf : oph_workflow) : C (bool * oph_workflow) :=
  t ← deref (tasks wf !! tasks_num wf);
  t ← begin_final OPH_WORKFLOW_DELETE t;
  let kk := length (arguments t) in
  r ← more_arguments 1 t;
  match r with
  | None => mret (false, update_task (Z.of_nat (tasks_num wf)) t (set_exit_cubes None wf))
  | Some t =>
      '(_, trash) ← Trash.oph_trash_order sort_fuel (Some trash) None;
      '(s, _) ← cube_ranges sort_fuel trash EmptyString;
      t ← fill_argument kk "cube" (truncate OPH_MAX_STRING_SIZE ("[cube_filter=" +:+ s +:+ ";path=/;recursive=yes]")) t;
      mret (true, update_task (Z.of_nat (tasks_num wf)) t (set_exit_cubes None wf))
  end.

(** The task that deletes a container, the first one. *)
Definition delete_container (oph_web_server : string) (trash : oph_trash) (wf : oph_workflow) : C (ctl bool bool * oph_workflow) :=
  '(_, size) ← Trash.oph_trash_size (Some trash) None;
  if size =? 0 then mret (Next false, set_exit_containers None wf) else
  t ← deref (tasks wf !! tasks_num wf);
  t ← begin_final OPH_WORKFLOW_DELETECONTAINER t;
  let kk := length (arguments t) in
  let finish r t := mret (r, update_task (Z.of_nat (tasks_num wf)) t (set_exit_containers None wf)) in
  r ← more_arguments 3 t;
  match r with
  | None => finish (Break false) t
  | Some t =>
      '(_, containerid, _) ← Trash.oph_trash_extract (Some trash) None;
      if containerid =? 0 then finish (Break false) t else
      t ← fill_argument kk "container_pid" (truncate OPH_MAX_STRING_SIZE (oph_web_server +:+ "/" +:+ print_int containerid)) t;
      t ← fill_argument (S kk) "container" "-" t;
      t ← fill_argument (S (S kk)) "force" "yes" t;
      finish (Next true) t
  end.

(** What follows the last task: a final task to execute, the end ([final]), or an error. *)
Inductive ending : Type := Final_task | The_end | Final_error.

Definition finalize (sort_fuel : nat) (oph_web_server : string) (wf : oph_workflow) : C (ending * oph_workflow) :=
  match exit_cubes wf, exit_containers wf with
  | Some trash, _ => '(b, wf) ← delete_cubes sort_fuel trash wf; mret (if b : bool then Final_task else Final_error, wf)
  | None, Some trash =>
      '(r, wf) ← delete_container oph_web_server trash wf;
      mret (match r with Next true => Final_task | Next false => The_end | Break _ => Final_error end, wf)
  | None, None => mret (The_end, wf)
  end.

(** The tasks that [oph_workflow_execute] is asked for when the workflow goes on. *)
Definition next_tasks (k : Z) (wf : oph_workflow) (f : flags) : C (list Z) :=
  if retry_task_execution f then mret [k]
  else if negb (update_wf_data f =? 0) && task_completed f && negb (final f)
  then t ← deref (cell (tasks wf) k); mret (dependents_indexes t)
  else mret [].

(** ** Execution *)

(** The arguments that were collected in lists get their texts; the boolean tells whether all did. *)
Fixpoint fill_arguments (args : list argument) : C (bool * list argument) :=
  match args with
  | [] => mret (true, [])
  | a :: args' =>
      if bool_decide (arg_list a = []) then '(b, r) ← fill_arguments args'; mret (b, a :: r) else
      '(rc, v) ← oph_workflow_print_list (arg_list a) (arg_value a);
      if negb (rc =? 0) then mret (false, Arg (arg_key a) v (arg_list a) :: args') else
      '(b, r) ← fill_arguments args'; mret (b, Arg (arg_key a) v [] :: r)
  end.

(** The delay before a task is repeated; [rand] is the next random number. *)
Definition backoff_delay (rand : Z) (t : oph_workflow_task) : C Z :=
  if negb (0 <? backoff_time t) then mret 0 else
  let attempt := if retry_num t =? 0 then 0 else retry_num t - residual_retry_num t in
  let attempt := if negb (oph_auto_retry =? 0) && negb (residual_auto_retry_num t =? 0)
                 then Z.max attempt (1 + oph_auto_retry - residual_auto_retry_num t) else attempt in
  if negb (0 <? attempt) then mret 0 else
  if backoff_type t =? 101 then
    let backoff := backoff_time t * 2 ^ (attempt - 1) in
    assertC (backoff <? 2 ^ 31);; mret (rand mod backoff)
  else if backoff_type t =? 114 then mret (rand mod backoff_time t)
  else mret (backoff_time t).

(** What is handed to the resource manager: a text to submit with its delay, or only a
    notification of the failure. *)
Record request : Type := Request {
  rq_serve : bool;
  rq_jobid : Z;
  rq_submission : cstr;
  rq_delay : Z;
  rq_notification : string;
}.

Definition yes_no (z : Z) : string := if z =? 0 then "no" else "yes".

(** [OPH_WORKFLOW_BASE_NOTIFICATION] *)
Definition base_notification (wf : oph_workflow) (i li jobid st marker : Z) (t : oph_workflow_task) (sid : string) : string :=
  ("parentid=" +:+ print_int (wf_idjob wf) +:+ ";taskindex=" +:+ print_int i +:+ ";lighttaskindex=" +:+ print_int li
   +:+ ";jobid=" +:+ print_int jobid +:+ ";status=" +:+ print_int st +:+ ";sessionid=" +:+ sid +:+ ";markerid=" +:+ print_int marker
   +:+ ";save=" +:+ yes_no (save t) +:+ ";")%string.
End notify.

End Notify.
