(* ===== verification/Execute.v ===== *)
(** * Execution of ready tasks ([oph_workflow_execute] of [src/src/oph_workflow_engine.c])

    The first half of the function, under the lock: of the tasks it is given it takes those
    without residual dependencies that were not started, completes their arguments, builds the submission
    strings ([WfSubmit]), registers them and prepares the requests for the resource manager; a
    task for which this fails becomes an error and its dependents are aborted.  The second half sends the
    requests; [oph_remake_notification] builds the notification of a task that ended at once.

    The session files that give markers, the database that gives job identifiers, the random numbers
    and the expansion of massive operations are parameters. *)

From Stdlib Require Ascii.
From stdpp Require Import base gmap strings numbers pretty list.
From S2P Require Import Prelude CString HashTbl Trash WfStructs WfSetup WfDag WfFlow Auth ArgParser WfVars WfSubmit WfEngine Notify.
Import (notations) Stdlib.Strings.Ascii.
Import WfStructs WfSetup WfDag WfFlow WfEngine Notify.

Module Execute.

#[local] Open Scope Z_scope.

Definition OPH_SERVER_NO_RESPONSE : Z := 8.

Section execute.
Context (oph_auto_retry : Z) (new_marker new_job : Z → Z → option Z) (rand : Z → Z) (oph_web_server : cstr).
Context (fuel vfuel : nat) (index0 : Z).
(** The expansion of a massive operation: the code, the workflow with the light tasks, whether the
    submission string has to be built again. *)
Context (check_massive : Z → oph_workflow → Z * oph_workflow * bool).

Definition submission (wf : oph_workflow) (i li : Z) : C (Z * (cstr * cstr)) :=
  WfSubmit.oph_workflow_get_submission_string oph_web_server vfuel index0 (Some wf) i li true.

(** A task that cannot be submitted. *)
Definition reject (i : Z) (wf : oph_workflow) : C (oph_workflow * list request) :=
  t ← deref (cell (tasks wf) i);
  sid ← deref (sessionid wf);
  '(_, wf) ← oph_workflow_set_status fuel (update_task i (set_status OPH_ODB_STATUS_ERROR t) wf) (dependents_indexes t) OPH_ODB_STATUS_ABORTED;
  t ← deref (cell (tasks wf) i);
  got ← malloc; assertC got;;
  got ← malloc; assertC got;;
  mret (wf, [Request false (idjob t) None 0 (base_notification wf i (-1) (idjob t) (status t) (markerid t) t sid)]).

(** A light task: rejected ones only become errors. *)
Definition set_light (i j : Z) (l : oph_workflow_light_task) (wf : oph_workflow) : C oph_workflow :=
  t ← deref (cell (tasks wf) i);
  mret (update_task i (set_light_tasks (set_cell (light_tasks t) j l) t) wf).

Definition reject_light (i j : Z) (l : oph_workflow_light_task) (wf : oph_workflow) : C (oph_workflow * request) :=
  t ← deref (cell (tasks wf) i);
  sid ← deref (sessionid wf);
  wf ← set_light i j l wf;
  got ← malloc; assertC got;;
  mret (wf, Request false (lt_idjob l) None 0 (base_notification wf i j (lt_idjob l) (lt_status l) (lt_markerid l) t sid)).

Definition with_job (s : string) (jobid : Z) : string := s +:+ "jobid=" +:+ print_int jobid +:+ ";".

Definition set_lt_ids (marker jobid st : Z) (l : oph_workflow_light_task) : oph_workflow_light_task :=
  LightTask jobid marker st (lt_ncores l) (lt_nhosts l) (lt_nthreads l) (lt_arguments l) (lt_response l) (lt_is_marked_to_be_aborted l).

Definition prepare_light (retry : bool) (i j : Z) (wf : oph_workflow) : C (oph_workflow * request) :=
  t ← deref (cell (tasks wf) i);
  l ← deref (cell (light_tasks t) j);
  if negb (lt_status l =? 0) then
    reject_light i j (if retry then l else set_lt_status OPH_ODB_STATUS_ERROR l) wf
  else
    match new_marker i j with
    | None => reject_light i j (set_lt_status OPH_ODB_STATUS_ERROR l) wf
    | Some mk =>
        let l := set_lt_ids mk (lt_idjob l) (lt_status l) l in
        wf ← set_light i j l wf;
        '(rc, (long, _)) ← submission wf i j;
        if negb (rc =? 0) then reject_light i j (set_lt_status OPH_ODB_STATUS_ERROR l) wf else
        match new_job i j with
        | None => reject_light i j (set_lt_status OPH_ODB_STATUS_ERROR l) wf
        | Some jobid =>
            s ← deref long;
            sid ← deref (sessionid wf);
            got ← malloc; assertC got;;
            wf ← set_light i j (set_lt_ids mk jobid OPH_ODB_STATUS_PENDING l) wf;
            mret (wf, Request true jobid (Some (with_job s jobid)) 0
                        (base_notification wf i j jobid OPH_ODB_STATUS_START_ERROR mk t sid))
        end
    end.

(** The light tasks of a massive operation. *)
Definition prepare_massive (i : Z) (wf : oph_workflow) : C (oph_workflow * list request) :=
  t ← deref (cell (tasks wf) i);
  let retry := (negb (oph_auto_retry =? 0) && negb (residual_auto_retry_num t =? 0) && (retry_num t =? 1))
               || (negb (residual_retry_num t =? 0) && (1 <? retry_num t)) in
  got ← malloc; assertC got;;
  '(wf, rqs) ← foldC (λ '(wf, rqs) j, '(wf, rq) ← prepare_light retry i (Z.of_nat j) wf; mret (wf, rqs ++ [rq]))
                (wf, []) (seq 0 (length (light_tasks t)));
  t ← deref (cell (tasks wf) i);
  mret (update_task i (set_status (if retry then OPH_ODB_STATUS_RUNNING else OPH_ODB_STATUS_PENDING) t) wf, rqs).

(** A single operation. *)
Definition prepare_single (i jobid : Z) (s : string) (wf : oph_workflow) : C (oph_workflow * list request) :=
  t ← deref (cell (tasks wf) i);
  sid ← deref (sessionid wf);
  got ← malloc; assertC got;;
  got ← malloc; assertC got;;
  delay ← backoff_delay oph_auto_retry (rand i) t;
  got ← malloc; assertC got;;
  mret (update_task i (set_status OPH_ODB_STATUS_PENDING t) wf,
        [Request true jobid (Some (with_job s jobid)) delay
           (base_notification wf i (-1) jobid OPH_ODB_STATUS_START_ERROR (markerid t) t sid)]).

(** A massive operation that is over at once, or could not be expanded. *)
Definition massive_over (res i : Z) (s : string) (wf : oph_workflow) : C (oph_workflow * list request) :=
  t ← deref (cell (tasks wf) i);
  sid ← deref (sessionid wf);
  let jobid := default 0 (new_job i (-1)) in
  let t := match new_job i (-1) with Some j => set_idjob j t | None => t end in
  let t := set_status (if res =? OPH_SERVER_NO_RESPONSE then OPH_ODB_STATUS_COMPLETED else OPH_ODB_STATUS_ERROR) t in
  got ← malloc; assertC got;;
  got ← malloc; assertC got;;
  mret (update_task i t wf, [Request false jobid (Some (with_job s jobid)) 0
                               (base_notification wf i (-1) jobid (status t) (markerid t) t sid)]).

(** A new marker for a task without one. *)
Definition mark_task (i mk : Z) (wf : oph_workflow) : C oph_workflow :=
  t ← deref (cell (tasks wf) i);
  mret (if markerid t =? 0 then update_task i (set_markerid mk t) wf else wf).

Definition register (i : Z) (long : cstr) (remake : bool) (wf : oph_workflow) : C (oph_workflow * list request) :=
  match new_job i (-1) with
  | None => reject i wf
  | Some jobid =>
      t ← deref (cell (tasks wf) i);
      let wf := update_task i (set_idjob jobid t) wf in
      '(rc, (long, _)) ← (if remake then submission wf i (-1) else mret (0, (long, None)));
      if negb (rc =? 0) then reject i wf else
      s ← deref long;
      if bool_decide (light_tasks t = []) then prepare_single i jobid s wf else prepare_massive i wf
  end.

Definition submit_task (i : Z) (wf : oph_workflow) : C (oph_workflow * list request) :=
  '(rc, (long, _)) ← submission wf i (-1);
  if negb (rc =? 0) then reject i wf else
  t ← deref (cell (tasks wf) i);
  if parent t <? 0 then
    let '(res, wf, remake) := check_massive i wf in
    if negb (res =? 0) then s ← deref long; massive_over res i s wf else register i long remake wf
  else register i long false wf.

(** One task of the list; [Break]: the arguments could not be completed. *)
Definition prepare_task (st : oph_workflow * list request) (i : Z) : C (ctl (oph_workflow * list request) stop) :=
  let '(wf, rqs) := st in
  bad ← WfSubmit.bad_task_index wf i;
  if bad : bool then ok (wf, rqs) else
  t ← deref (cell (tasks wf) i);
  if negb (residual_deps_num t =? 0) || negb (status t =? 0) then ok (wf, rqs) else
  '(b, args) ← fill_arguments (arguments t);
  let wf := update_task i (set_arguments args t) wf in
  if negb b then fail OPH_WORKFLOW_EXIT_MEMORY_ERROR wf else
  '(wf, new) ← (if idjob t =? 0 then
                  match new_marker i (-1) with
                  | None => reject i wf
                  | Some mk => wf ← mark_task i mk wf; submit_task i wf
                  end
                else submit_task i wf);
  ok (wf, rqs ++ new).

(** The tasks to execute: the workflow and the requests. *)
Definition oph_workflow_execute (wf : oph_workflow) (indexes : list Z) : C (ctl (oph_workflow * list request) stop) :=
  match indexes with
  | [] => ok (wf, [])
  | i0 :: _ =>
      if (wf_status wf <? OPH_ODB_STATUS_COMPLETED) || (i0 =? Z.of_nat (tasks_num wf))
      then loopC prepare_task (wf, []) indexes
      else ok (wf, [])
  end.

(** ** The notification of a task that ended at once *)

Definition starts (s key : string) : bool := strncasecmp0 s key (String.length key).

(** The number of a field is replaced. *)
Definition remade_field (task_index light_task_index odb_jobid new_status : Z) (pch : string) : string :=
  let number k z := truncate OPH_MAX_STRING_SIZE (k +:+ "=" +:+ print_int z) in
  if starts pch "jobid" then number "jobid"%string odb_jobid
  else if starts pch "taskindex" then number "taskindex"%string task_index
  else if starts pch "lighttaskindex" then number "lighttaskindex"%string light_task_index
  else if starts pch "status" then number "status"%string new_status
  else pch.

(** Which of the outputs a notification has. *)
Record kept : Type := Kept { has_cwd : bool; has_cube : bool; has_output : bool }.
Definition keep (s : kept) (pch : string) : kept :=
  if starts pch "jobid" || starts pch "taskindex" || starts pch "lighttaskindex" || starts pch "status" then s
  else if starts pch "cwd" then Kept true (has_cube s) (has_output s)
  else if starts pch "cube" then Kept (has_cwd s) true (has_output s)
  else if starts pch "output" then Kept (has_cwd s) (has_cube s) true
  else s.

(** A field of the submission string that enters the notification. *)
Definition submitted_field (had : kept) (sid pch : string) : C string :=
  if negb (has_cwd had) && starts pch "cwd" then
    assertC (bool_decide (4 <= String.length pch)%nat);;
    match drop_str 4 pch with
    | String "/" _ as path =>
        '(rc, code) ← Auth.oph_get_session_code oph_web_server sid;
        code ← deref (if rc =? 0 then code else Some EmptyString);
        mret (if negb (rc =? 0) then EmptyString else
              match strstr path code with
              | Some p =>
                  if (String.length p + 1 =? String.length path)%nat then
                    "cwd="%string +:+ (match strchr p "/" with Some (String _ (String _ _) as q) => q | _ => "/"%string end) +:+ ";"%string
                  else EmptyString
              | None => EmptyString
              end)
    | _ => mret (pch +:+ ";")%string
    end
  else if negb (has_cube had) && starts pch "cube" then mret (pch +:+ ";")%string
  else if negb (has_output had) && starts pch "input" then mret ("file" +:+ drop_str 5 pch +:+ ";")%string
  else mret EmptyString.

Definition oph_remake_notification (error_notification : cstr) (task_index light_task_index odb_jobid new_status : Z)
    (submit_string : cstr) (sid : string) : C cstr :=
  match error_notification with
  | None => mret None
  | Some e =>
      got ← malloc; if negb got then mret None else
      got ← malloc; if negb got then mret None else
      let tokens := strtok ";" e in
      let had := foldl keep (Kept false false false) tokens in
      let text := foldr (λ pch acc, remade_field task_index light_task_index odb_jobid new_status pch +:+ ";" +:+ acc)%string EmptyString tokens in
      text ← (match submit_string with
              | None => mret text
              | Some s =>
                  got ← malloc; assertC got;;
                  more ← mapC (submitted_field had sid) (strtok ";" s);
                  mret (text +:+ foldr String.append EmptyString more)
              end);
      assertC (bool_decide (String.length text < OPH_MAX_STRING_SIZE + String.length (default EmptyString submit_string))%nat);;
      mret (Some text)
  end.
End execute.
End Execute.
