(* ===== verification/Runs.v ===== *)
(** * Runs of a workflow

    A workflow runs by turns of [Notify.process_notification] and [Execute.oph_workflow_execute]: a
    finished task is reported, the tasks that depend on it and have no other dependency left are
    executed.  This file follows a workflow through such runs as far as
    they succeed ([successful_run]): failing tasks are the subject of [Retry], refused ones of
    [Messages], loops and branches of [FlowControl]. *)

From Stdlib Require Ascii.
From stdpp Require Import base gmap strings numbers pretty functions list.
From S2P Require Import Prelude CString HashTbl Trash WfStructs WfSetup WfDag WfFlow Auth ArgParser WfVars WfSubmit WfEngine Notify Execute.
Import (notations) Stdlib.Strings.Ascii.
Import WfStructs WfSetup WfDag WfFlow WfEngine Notify Execute.

Module Runs.

#[local] Open Scope Z_scope.

(** ** Early returns *)

Lemma wp_andthen {A B} (c : C (ctl A stop)) (f : A → C (ctl B stop)) (Q : ctl B stop → mem → Prop) m :
  wp c (λ r m', match r with Next a => wp (f a) Q m' | Break s => Q (Break s) m' end) m → wp (andthen c f) Q m.
Proof. intros H. unfold andthen. apply wp_bind. eapply wp_mono; [exact H|]. by intros [a|s] m' H'. Qed.

Lemma wp_ok {A} (a : A) (Q : ctl A stop → mem → Prop) m : Q (Next a) m → wp (ok a) Q m.
Proof. done. Qed.

(** Given memory the computation returns, with a value in [P]. *)
Definition gives {A} (c : C (ctl A stop)) (P : A → Prop) (m : mem) : Prop :=
  wp c (λ r m', reliable m' ∧ ∃ a, r = Next a ∧ P a) m.

Lemma gives_ok {A} (a : A) (P : A → Prop) m : reliable m → P a → gives (ok a) P m.
Proof. intros Hm HP. apply wp_ok. split; [done|]. by exists a. Qed.

Lemma gives_andthen {A B} (c : C (ctl A stop)) (f : A → C (ctl B stop)) (P : A → Prop) (R : B → Prop) m :
  gives c P m → (∀ a m', reliable m' → P a → gives (f a) R m') → gives (andthen c f) R m.
Proof. intros Hc Hf. apply wp_andthen. eapply wp_mono; [exact Hc|]. intros r m' (Hm' & a & -> & HP). by apply Hf. Qed.

Lemma gives_mono {A} (c : C (ctl A stop)) (P R : A → Prop) m : gives c P m → (∀ a, P a → R a) → gives c R m.
Proof. intros Hc HR. eapply wp_mono; [exact Hc|]. intros r m' (Hm' & a & -> & HP). split; [done|]. exists a. split; [done|by apply HR]. Qed.

(** The same for plain computations. *)
Definition yields {A} (c : C A) (P : A → Prop) (m : mem) : Prop := wp c (λ a m', reliable m' ∧ P a) m.

Lemma yields_ret {A} (a : A) (P : A → Prop) m : reliable m → P a → yields (mret a) P m.
Proof. done. Qed.
Lemma yields_then {A B} (c : C A) (f : A → C B) (P : A → Prop) (R : B → Prop) m :
  yields c P m → (∀ a m', reliable m' → P a → yields (f a) R m') → yields (c ≫= f) R m.
Proof. intros Hc Hf. apply wp_bind. eapply wp_mono; [exact Hc|]. intros a m' [Hm' HP]. by apply Hf. Qed.
Lemma gives_bind {A B} (c : C A) (f : A → C (ctl B stop)) (P : A → Prop) (R : B → Prop) m :
  yields c P m → (∀ a m', reliable m' → P a → gives (f a) R m') → gives (c ≫= f) R m.
Proof. intros Hc Hf. apply wp_bind. eapply wp_mono; [exact Hc|]. intros a m' [Hm' HP]. by apply Hf. Qed.
Lemma yields_deref {A} (o : option A) a m : o = Some a → reliable m → yields (deref o) (λ x, x = a) m.
Proof. by intros ->. Qed.
Lemma yields_strdup s m : reliable m → yields (strdup (Some s)) (λ x, x = Some s) m.
Proof. intros Hm. by apply wp_strdup. Qed.
Lemma yields_malloc m : reliable m → yields malloc (λ b, b = true) m.
Proof. intros Hm. by apply wp_malloc_reliable. Qed.
Lemma yields_mono {A} (c : C A) (P R : A → Prop) m : yields c P m → (∀ a, P a → R a) → yields c R m.
Proof. intros Hc HR. eapply wp_mono; [exact Hc|]. intros a m' [? ?]. auto. Qed.
Lemma yields_foldC {S X} (f : S → X → C S) (l : list X) (P : S → Prop) s m :
  reliable m → P s → (∀ x s m, x ∈ l → reliable m → P s → yields (f s x) P m) → yields (foldC f s l) P m.
Proof.
  revert s m. induction l as [|x l IH]; intros s m Hm HP Hf; [by apply yields_ret|]. cbn [foldC].
  eapply yields_then; [apply Hf; [left|done|done]|]. intros s' m' Hm' HP'. apply IH; [done|done|]. intros y s2 m2 Hy. apply Hf. by right.
Qed.

Lemma gives_ret {A B} (a : A) (f : A → C (ctl B stop)) R m : gives (f a) R m → gives (mret a ≫= f) R m.
Proof. done. Qed.
Lemma yields_ret_bind {A B} (a : A) (f : A → C B) R m : yields (f a) R m → yields (mret a ≫= f) R m.
Proof. done. Qed.

(** One step through a goal of either kind. *)
Ltac go :=
  lazymatch goal with
  | |- gives (deref _ ≫= _) _ _ => eapply gives_bind; [eapply yields_deref; [eassumption||reflexivity|assumption]|intros ? ? ? ->]
  | |- yields (deref _ ≫= _) _ _ => eapply yields_then; [eapply yields_deref; [eassumption||reflexivity|assumption]|intros ? ? ? ->]
  | |- gives (malloc ≫= _) _ _ => eapply gives_bind; [by apply yields_malloc|intros ? ? ? ->; cbn [negb]]
  | |- yields (malloc ≫= _) _ _ => eapply yields_then; [by apply yields_malloc|intros ? ? ? ->; cbn [negb]]
  | |- gives (strdup (Some _) ≫= _) _ _ => eapply gives_bind; [by apply yields_strdup|intros ? ? ? ->]
  | |- yields (strdup (Some _) ≫= _) _ _ => eapply yields_then; [by apply yields_strdup|intros ? ? ? ->]
  | |- gives (assertC true ≫= _) _ _ => eapply (gives_bind _ _ (λ _, True)); [by split|intros _ ? ? _]
  | |- yields (assertC true ≫= _) _ _ => eapply (yields_then _ _ (λ _, True)); [by split|intros _ ? ? _]
  | |- gives (mret _ ≫= _) _ _ => apply gives_ret
  | |- yields (mret _ ≫= _) _ _ => apply yields_ret_bind
  | |- gives (ok _) _ _ => apply gives_ok; [assumption|]
  | |- yields (mret _) _ _ => apply yields_ret; [assumption|]
  end.

Lemma yields_strcmp0 a b m : reliable m → yields (strcmp0 (Some a) (Some b)) (λ r, r = bool_decide (a = b)) m.
Proof. done. Qed.

(** ** Updates of tasks *)

Lemma update_nat (i : nat) t wf : update_task (Z.of_nat i) t wf = set_tasks (<[i := t]> (tasks wf)) wf.
Proof. unfold update_task, set_cell. rewrite (proj2 (Z.ltb_ge _ _)) by lia. by rewrite Nat2Z.id. Qed.

Lemma set_tasks_twice ts ts' wf : set_tasks ts (set_tasks ts' wf) = set_tasks ts wf.
Proof. by destruct wf. Qed.

(** ** A workflow on its way *)

Definition pair_ok (kv : cstr * cstr) : Prop := is_Some kv.1 ∧ is_Some kv.2.
Definition args_ok (args : list argument) : Prop := args ≠ [] ∧ Forall (λ a, is_Some (arg_key a)) args.

(** What a dependency needs. *)
Definition dep_ok (d : oph_workflow_dep) : Prop :=
  is_Some (dep_argument d) ∧ is_Some (dep_order d) ∧ is_Some (dep_type d) ∧ is_Some (output_argument d).

(** The dependencies that are not discharged. *)
Definition open_deps (ds : list oph_workflow_dep) : nat := WfSetup.live (task_index <$> ds).

(** What a task keeps of its beginning; it is neither skipped nor massive. *)
Record follows (t0 t : oph_workflow_task) : Prop := {
  fo_name : name t = name t0;
  fo_operator : operator t = operator t0;
  fo_dependents : dependents_indexes t = dependents_indexes t0;
  fo_retry : retry_num t = retry_num t0;
  fo_exit : exit_action t = exit_action t0;
  fo_parent : parent t = parent t0;
  fo_plain : is_skipped t = 0 ∧ light_tasks t = [] ∧ is_marked_for_auto_retry t = 0;
  fo_args : args_ok (arguments t);
}.

Section view.
Context (ts0 : list oph_workflow_task) (n : nat).

(** The workflow [wf1] with tasks whose dependencies, statuses and outputs are [ds], [s] and [o]. *)
Record view (wf1 : oph_workflow) (ds : nat → list oph_workflow_dep) (s : nat → Z) (o : nat → list (cstr * cstr)) (wf : oph_workflow) :
    Prop := {
  v_frame : wf = set_tasks (tasks wf) wf1;
  v_len : length (tasks wf) = S n;
  v_last : ∃ t, tasks wf !! n = Some t ∧ name t = None;
  v_task : ∀ i, (i < n)%nat → ∃ t0 t, ts0 !! i = Some t0 ∧ tasks wf !! i = Some t ∧ follows t0 t ∧ deps t = ds i ∧
    residual_deps_num t = Z.of_nat (open_deps (ds i)) ∧ status t = s i ∧ outputs t = o i;
}.

Lemma view_ext wf1 ds s o ds' s' o' wf :
  view wf1 ds s o wf → (∀ i, (i < n)%nat → ds' i = ds i ∧ s' i = s i ∧ o' i = o i) → view wf1 ds' s' o' wf.
Proof.
  intros [Hf Hl Hla Ht] He. split; [done..|]. intros i Hi. destruct (Ht i Hi) as (t0 & t & ?). destruct (He i Hi) as (-> & -> & ->). eauto.
Qed.

Lemma view_update wf1 ds s o ds' s' o' wf i t0 t :
  view wf1 ds s o wf → (i < n)%nat → ts0 !! i = Some t0 → follows t0 t → deps t = ds' i →
  residual_deps_num t = Z.of_nat (open_deps (ds' i)) → status t = s' i → outputs t = o' i →
  (∀ j, j ≠ i → ds' j = ds j ∧ s' j = s j ∧ o' j = o j) → view wf1 ds' s' o' (update_task (Z.of_nat i) t wf).
Proof.
  intros [Hf Hl Hla Ht] Hi Ht0 Hfo Hd Hr Hs Ho Hrest. rewrite update_nat. split.
  - rewrite Hf. simpl. by rewrite !set_tasks_twice.
  - simpl. by rewrite length_insert.
  - simpl. rewrite list_lookup_insert_ne by lia. done.
  - intros j Hj. simpl. destruct (decide (j = i)) as [-> |Hne].
    + exists t0, t. rewrite list_lookup_insert_eq by lia. done.
    + rewrite list_lookup_insert_ne by done. destruct (Hrest j Hne) as (-> & -> & ->). by apply Ht.
Qed.

Lemma view_frame wf1 wf1' ds s o wf :
  view wf1 ds s o wf → view wf1' ds s o (set_tasks (tasks wf) wf1').
Proof. intros [Hf Hl Hla Ht]. by split. Qed.

(** *** Passing an output *)

Lemma yields_find_argument key i args m :
  reliable m → Forall (λ a, is_Some (arg_key a)) args →
  yields (find_argument (Some key) i args) (λ r, match r with Some j => ∃ a, args !! (j - i)%nat = Some a ∧ (i ≤ j)%nat | None => True end) m.
Proof.
  intros Hm Ha. revert i m Hm. induction Ha as [|a args [k Hk] Ha IH]; intros i m Hm; cbn [find_argument]; [by go|].
  rewrite Hk. eapply yields_then; [by apply yields_strcmp0|]. intros b m' Hm' ->.
  destruct (bool_decide (k = key)); [go; exists a; rewrite Nat.sub_diag; split; [done|lia]|].
  eapply wp_mono; [by apply (IH (S i))|]. intros [j|] m2 [? Hj]; (split; [done|]); [|done].
  destruct Hj as (a' & Hj & Hle). exists a'. split; [|lia]. replace (j - i)%nat with (S (j - S i)) by lia. done.
Qed.

Lemma yields_new_argument key args m :
  reliable m → args ≠ [] → yields (new_argument (Some key) args) (λ r, r = Some (args ++ [Arg (Some key) None []])) m.
Proof. intros Hm Hne. unfold new_argument. rewrite bool_decide_eq_false_2 by done. do 4 go. by go. Qed.

Lemma yields_add_to_list k v l m : reliable m → yields (oph_workflow_add_to_list (Some k) (Some v) l) (λ r, r.1 = OPH_WORKFLOW_EXIT_SUCCESS) m.
Proof. intros Hm. unfold oph_workflow_add_to_list. do 4 go. by go. Qed.

Lemma gives_give_value wf1 ds s o wf (d : nat) dep v m :
  view wf1 ds s o wf → (d < n)%nat → dep_ok dep → reliable m →
  gives (give_value dep (Some v) (Z.of_nat d) wf) (view wf1 ds s o) m.
Proof.
  intros Hv Hd ([key Hk] & [ord Ho] & _) Hm. destruct (v_task _ _ _ _ _ Hv d Hd) as (t0 & t & Ht0 & Ht & Hfo & Hds & Hr & Hs & Hout).
  unfold give_value. rewrite cell_nat, Hk, Ho. go. destruct (fo_args _ _ Hfo) as [Hne Hkeys].
  eapply gives_bind; [by apply yields_find_argument|]. intros kk m1 Hm1 Hkk.
  eapply (gives_bind _ _ (λ r, ∃ args kk a, r = Some (args, kk) ∧ args !! kk = Some a ∧ is_Some (arg_key a) ∧ args_ok args)).
  { destruct kk as [kk|].
    - go. destruct Hkk as (a & Ha & _). rewrite Nat.sub_0_r in Ha. exists (arguments t), kk, a. split_and!; [done..| |done].
      rewrite Forall_lookup in Hkeys. by eapply Hkeys.
    - eapply yields_then; [by apply yields_new_argument|]. intros args m2 Hm2 ->. go. eexists _, _, _. split; [done|].
      split; [by rewrite lookup_app_r, Nat.sub_diag by lia|]. split; [by eexists|]. split; [by destruct (arguments t)|].
      apply Forall_app. split; [done|]. apply Forall_singleton. by eexists. }
  intros r m2 Hm2 (args & kk' & a & -> & Ha & Hka & Hargs). go.
  eapply gives_bind; [by apply yields_add_to_list|]. intros [rc l] m3 Hm3 Hrc. simpl in Hrc. subst rc.
  change (OPH_WORKFLOW_EXIT_SUCCESS =? 0) with true. cbn [negb]. go.
  eapply view_update; [done..| |done|done|done|done|done].
  destruct Hfo. split; try done. simpl. split.
  - intros E. apply (f_equal length) in E. rewrite length_insert in E. apply lookup_lt_Some in Ha. simpl in E. lia.
  - apply Forall_insert; [apply Hargs|done].
Qed.

Lemma yields_wanted dep outs m :
  reliable m → dep_ok dep → Forall pair_ok outs → yields (wanted_output dep outs) (λ r, match r with Some v => is_Some v | None => True end) m.
Proof.
  intros Hm (_ & _ & _ & [oa Hoa]) Ho. revert m Hm. induction Ho as [|[k v] outs [[k' Hk] [v' Hv]] Ho IH]; intros m Hm; cbn [wanted_output]; [by go|].
  simpl in Hk, Hv. subst k v. go. rewrite Hoa. go. destruct (key_is k' oa); [go; by eexists|by apply IH].
Qed.

Lemma gives_pass_output fuel wf1 ds s o wf (k d : nat) dep f m :
  view wf1 ds s o wf → (k < n)%nat → (d < n)%nat → dep_ok dep → Forall pair_ok (o k) → reliable m →
  gives (pass_output fuel (Z.of_nat k) (Z.of_nat d) dep wf f) (λ r, view wf1 ds s o r.1 ∧ r.2 = f) m.
Proof.
  intros Hv Hk Hd Hdep Ho Hm. destruct (v_task _ _ _ _ _ Hv k Hk) as (t0 & t & Ht0 & Ht & Hfo & _ & _ & _ & Hout).
  destruct (v_task _ _ _ _ _ Hv d Hd) as (t0d & td & _ & Htd & _). unfold pass_output. rewrite !cell_nat. go. rewrite Hout.
  eapply gives_bind; [by apply yields_wanted|]. intros r m1 Hm1 Hr. destruct r as [v|]; [|by go].
  destruct Hr as [v' ->]. destruct (fo_plain _ _ Hfo) as (_ & -> & _). cbn [length Nat.ltb Nat.leb]. go. go. cbn [andb].
  eapply gives_andthen; [by apply gives_give_value|]. intros wf' m2 Hm2 Hv'. by go.
Qed.

(** *** Discharging dependencies *)

Lemma open_alter ds j dep :
  ds !! j = Some dep → task_index dep ≠ -1 → open_deps ds = S (open_deps (alter (set_task_index (-1)) j ds)).
Proof.
  unfold open_deps. revert j. induction ds as [|d ds IH]; intros [|j] Hj Hne; simplify_eq/=.
  - repeat case_decide; done.
  - rewrite (IH j) by done. case_decide; lia.
Qed.

Lemma gives_discharge fuel wf1 ds s o wf (k d j : nat) dep f m :
  view wf1 ds s o wf → (k < n)%nat → (d < n)%nat → ds d !! j = Some dep → dep_ok dep → Forall pair_ok (o k) →
  check_for_constraint f = false → reliable m →
  gives (discharge fuel (Z.of_nat k) (Z.of_nat d) j wf f)
    (λ r, r.1.2 = f ∧ r.2 = false ∧
       view wf1 (if task_index dep =? Z.of_nat k then <[d := alter (set_task_index (-1)) j (ds d)]> ds else ds) s o r.1.1) m.
Proof.
  intros Hv Hk Hd Hj Hdep Ho Hf Hm. destruct (v_task _ _ _ _ _ Hv d Hd) as (t0 & t & Ht0 & Ht & Hfo & Hds & Hr & Hs & Hout).
  unfold discharge. rewrite cell_nat. go. rewrite Hds. go. destruct (Z.eqb_spec (task_index dep) (Z.of_nat k)) as [Hti|Hti]; cbn [negb]; [|by go].
  destruct Hdep as (Ha & Hor & [ty Hty] & Hoa). unfold type_is. rewrite Hty.
  eapply (gives_bind _ _ (λ _, True)); [go; by go|]. intros emb m1 Hm1 _.
  eapply (gives_andthen _ _ (λ r, view wf1 ds s o r.1 ∧ r.2 = f)).
  { destruct emb; [by go|]. apply gives_pass_output; [done..|by split_and!|done|done]. }
  intros [wf' f'] m2 Hm2 [Hv' Hf']. simpl in Hv', Hf'. subst f'. rewrite Hf, andb_false_r. rewrite cell_nat.
  destruct (v_task _ _ _ _ _ Hv' d Hd) as (t0' & t' & Ht0' & Ht' & Hfo' & Hds' & Hr' & Hs' & Hout'). go.
  assert (open_deps (ds d) = S (open_deps (alter (set_task_index (-1)) j (ds d)))) as Hopen by (eapply open_alter; [done|lia]).
  destruct (Z.eqb_spec (residual_deps_num t') 0); [lia|]. go. split; [done|]. split; [done|].
  eapply view_update; [exact Hv'|done|done| | | | | |].
  - destruct Hfo'. by split.
  - simpl. by rewrite fn_lookup_insert, Hds'.
  - simpl. rewrite fn_lookup_insert. lia.
  - done.
  - done.
  - intros i Hi. by rewrite fn_lookup_insert_ne.
Qed.

(** The dependencies with those on [k] discharged. *)
Definition clear_on (k : nat) (d : oph_workflow_dep) : oph_workflow_dep :=
  if task_index d =? Z.of_nat k then set_task_index (-1) d else d.

Lemma clear_on_twice k d : clear_on k (clear_on k d) = clear_on k d.
Proof.
  unfold clear_on. destruct (Z.eqb_spec (task_index d) (Z.of_nat k)) as [E|E].
  - destruct (Z.eqb_spec (task_index (set_task_index (-1) d)) (Z.of_nat k)) as [E'|]; [simpl in E'; lia|done].
  - by rewrite (proj2 (Z.eqb_neq _ _) E).
Qed.

Lemma clear_on_ok k d : dep_ok d → dep_ok (clear_on k d).
Proof. intros H. unfold clear_on. by case_match. Qed.

Lemma gives_discharge_all fuel wf1 ds s o wf (k d j : nat) f m :
  view wf1 ds s o wf → (k < n)%nat → (d < n)%nat → (j ≤ length (ds d))%nat → Forall dep_ok (ds d) → Forall pair_ok (o k) →
  check_for_constraint f = false → reliable m →
  gives (discharge_all fuel (Z.of_nat k) (Z.of_nat d) (seq j (length (ds d) - j)) wf f)
    (λ r, r.2 = f ∧ view wf1 (<[d := take j (ds d) ++ (clear_on k <$> drop j (ds d))]> ds) s o r.1) m.
Proof.
  intros Hv Hk Hd Hj Hok Ho Hf Hm. remember (length (ds d) - j)%nat as x eqn:Hx. revert ds j wf m Hv Hj Hok Hx Hm.
  induction x as [|x IH]; intros ds j wf m Hv Hj Hok Hx Hm; cbn [seq discharge_all].
  - go. split; [done|]. eapply view_ext; [exact Hv|]. intros i _. split; [|done].
    destruct (decide (i = d)) as [-> |]; [rewrite fn_lookup_insert|by rewrite fn_lookup_insert_ne].
    rewrite drop_ge by lia. rewrite take_ge by lia. by rewrite app_nil_r.
  - assert (is_Some (ds d !! j)) as [dep Hdep] by (apply lookup_lt_is_Some; lia). rewrite Forall_lookup in Hok.
    eapply gives_andthen; [by eapply gives_discharge; eauto|]. intros [[wf' f'] quit] m1 Hm1 (Hf' & Hq & Hv'). simpl in Hf', Hq, Hv'. subst f' quit.
    set (ds' := if task_index dep =? Z.of_nat k then <[d := alter (set_task_index (-1)) j (ds d)]> ds else ds) in *.
    assert (ds' d = <[j := clear_on k dep]> (ds d)) as Eds.
    { unfold ds', clear_on. case_match.
      - rewrite fn_lookup_insert. apply list_eq. intros i. destruct (decide (i = j)) as [-> |Hne].
        + rewrite list_lookup_insert_eq, list_lookup_alter_eq, Hdep by lia. done.
        + by rewrite list_lookup_insert_ne, list_lookup_alter_ne.
      - by rewrite list_insert_id. }
    assert (∀ i, i ≠ d → ds' i = ds i) as Ene by (intros i Hi; unfold ds'; case_match; [by rewrite fn_lookup_insert_ne|done]).
    eapply gives_mono; [apply (IH ds' (S j)); [done|..]|].
    + rewrite Eds, length_insert. lia.
    + rewrite Eds. apply Forall_insert; [by apply Forall_lookup|by apply clear_on_ok, (Hok j)].
    + rewrite Eds, length_insert. lia.
    + done.
    + intros [wf2 f2] [? Hv2]. split; [done|]. eapply view_ext; [exact Hv2|]. intros i _. split; [|done].
      destruct (decide (i = d)) as [-> |Hne]; [|by rewrite !fn_lookup_insert_ne, Ene].
      rewrite !fn_lookup_insert, Eds. rewrite drop_insert_lt, (take_S_r _ _ (clear_on k dep)), take_insert_ge by (rewrite ?list_lookup_insert_eq by lia; done || lia).
      rewrite (drop_S _ dep) by done. rewrite fmap_cons, <-app_assoc. done.
Qed.

Lemma gives_notify_dependents fuel wf1 ds s o wf (k : nat) (l : list nat) f m :
  view wf1 ds s o wf → tasks_num wf1 = n → (k < n)%nat → Forall (λ d, (d < n)%nat) l → (∀ i, (i < n)%nat → Forall dep_ok (ds i)) →
  Forall pair_ok (o k) → check_for_constraint f = false → reliable m →
  gives (notify_dependents fuel (Z.of_nat k) (Z.of_nat <$> l) wf f)
    (λ r, r.2 = f ∧ view wf1 (λ i, if decide (i ∈ l) then clear_on k <$> ds i else ds i) s o r.1) m.
Proof.
  intros Hv Hnum Hk Hl. revert ds wf m Hv. induction Hl as [|d l Hd Hl IH]; intros ds wf m Hv Hok Ho Hf Hm; cbn [fmap list_fmap notify_dependents].
  - go. split; [done|]. eapply view_ext; [exact Hv|]. intros i _. by rewrite decide_False by apply not_elem_of_nil.
  - assert (tasks_num wf = n) as Hn by (rewrite (v_frame _ _ _ _ _ Hv); by destruct wf1).
    rewrite (proj2 (Z.ltb_ge _ _)), (proj2 (Z.leb_gt _ _)) by lia. cbn [orb].
    destruct (v_task _ _ _ _ _ Hv d Hd) as (t0 & t & Ht0 & Ht & Hfo & Hds & _). rewrite cell_nat. go. rewrite Hds.
    pose proof (gives_discharge_all fuel wf1 ds s o wf k d 0 f) as Hall. rewrite Nat.sub_0_r in Hall.
    eapply gives_andthen; [apply Hall; first [done|lia|by apply Hok]|].
    intros [wf' f'] m1 Hm1 [Hf' Hv']. simpl in Hf', Hv'. subst f'.
    eapply gives_mono; [apply (IH (<[d := clear_on k <$> ds d]> ds)); [done| |done|done|done]|].
    + intros i Hi. destruct (decide (i = d)) as [-> |]; [rewrite fn_lookup_insert|rewrite fn_lookup_insert_ne by done; by apply Hok].
      apply Forall_fmap. eapply Forall_impl; [by apply Hok|]. intros x Hx. by apply clear_on_ok.
    + intros [wf2 f2] [? Hv2]. split; [done|]. eapply view_ext; [exact Hv2|]. intros i _. split; [|done].
      destruct (decide (i = d)) as [-> |Hne].
      * rewrite fn_lookup_insert. rewrite (decide_True (P := d ∈ d :: l)) by left. case_decide; [|done].
        rewrite <-list_fmap_compose. apply list_fmap_ext. intros ? x _. simpl. by rewrite clear_on_twice.
      * rewrite fn_lookup_insert_ne by done. destruct (decide (i ∈ l)); [rewrite decide_True by (by right); done|].
        rewrite decide_False; [done|]. rewrite elem_of_cons. tauto.
Qed.

(** *** The other passages *)

(** What the passages count with. *)
Definition core (wf : oph_workflow) : nat * Z * Z := (tasks_num wf, residual_tasks_num wf, wf_status wf).
Definition keeps (wf wf' : oph_workflow) : Prop := tasks wf' = tasks wf ∧ core wf' = core wf.

Lemma view_self wf1 ds s o wf wf' : view wf1 ds s o wf → tasks wf' = tasks wf → view wf' ds s o wf'.
Proof. intros [Hf Hl Hla Ht] E. split; rewrite ?E; [|done..]. rewrite <-E. by destruct wf'. Qed.

Lemma yields_strndup v l m : reliable m → yields (ArgParser.strndup v l) (λ x, is_Some x) m.
Proof. intros Hm. unfold ArgParser.strndup. go. go. by eexists. Qed.

Lemma yields_known_output wf kv m : reliable m → pair_ok kv → yields (known_output wf kv) (keeps wf) m.
Proof.
  intros Hm [[k Hk] [v Hv]]. unfold known_output. rewrite Hk, Hv. go.
  repeat (case_match; [go; eapply yields_then; [by apply yields_strndup|]; intros ? ? ? ?; by go|]). by go.
Qed.

Lemma yields_known_outputs wf outs m : reliable m → Forall pair_ok outs → yields (known_outputs outs wf) (keeps wf) m.
Proof.
  intros Hm Ho. apply yields_foldC; [done|done|]. intros kv wf' m' Hin Hm' [Ht Hc]. rewrite Forall_forall in Ho.
  eapply yields_mono; [by apply yields_known_output, Ho|]. intros wf2 [Ht2 Hc2]. split; congruence.
Qed.

Lemma yields_find_output nm but i outs m :
  reliable m → Forall pair_ok outs →
  yields (find_output nm but i outs) (λ r, match r with Some j => ∃ kv, outs !! (j - i)%nat = Some kv ∧ pair_ok kv ∧ (i ≤ j)%nat | None => True end) m.
Proof.
  intros Hm Ho. revert i m Hm. induction Ho as [|[k v] outs [[k' Hk] Hv] Ho IH]; intros i m Hm; cbn [find_output]; [by go|].
  assert (∀ m, reliable m → yields (find_output nm but (S i) outs)
    (λ r, match r with Some j => ∃ kv, ((k, v) :: outs) !! (j - i)%nat = Some kv ∧ pair_ok kv ∧ (i ≤ j)%nat | None => True end) m) as Hrest.
  { intros m1 Hm1. eapply yields_mono; [by apply IH|]. intros [j|] Hj; [|done]. destruct Hj as (kv & Hj & ? & ?). exists kv.
    split; [|split; [done|lia]]. by replace (j - i)%nat with (S (j - S i)) by lia. }
  case_match; [by apply Hrest|]. simpl in Hk. subst k. go. case_match; [|by apply Hrest]. go. exists (Some k', v). rewrite Nat.sub_diag.
  split; [done|]. split; [by split; [eexists|]|lia].
Qed.

Lemma yields_file_output outs m : reliable m → Forall pair_ok outs → yields (file_output outs) (λ r, Forall pair_ok r.1) m.
Proof.
  intros Hm Ho. unfold file_output. eapply yields_then; [by apply yields_find_output|]. intros [i|] m1 Hm1 Hi; [|by go].
  destruct Hi as ([k v] & Hi & [_ [v' Hv]] & _). rewrite Nat.sub_0_r in Hi. simpl in Hv. subst v. go. eapply yields_then; [by apply yields_find_output|]. intros [j|] m2 Hm2 Hj.
  - cbn [snd]. go. go. simpl. apply Forall_alter; [done|]. intros x Hx [Hk _]. rewrite Forall_lookup in Ho. split; [apply (Ho _ _ Hx)|by eexists].
  - cbn [snd]. do 6 go. go. simpl. apply Forall_app. split; [done|]. apply Forall_singleton. by split; eexists.
Qed.

Lemma gives_store_outputs wf1 ds s o wf (k : nat) outs file m :
  view wf1 ds s o wf → (k < n)%nat → o k = [] → reliable m →
  gives (store_outputs outs file (Z.of_nat k) wf) (view wf1 ds s (<[k := outs]> o)) m.
Proof.
  intros Hv Hk Ho Hm. destruct (v_task _ _ _ _ _ Hv k Hk) as (t0 & t & Ht0 & Ht & Hfo & Hds & Hr & Hs & Hout).
  unfold store_outputs. rewrite cell_nat. go. rewrite Hout, Ho. rewrite bool_decide_eq_true_2 by done. go.
  eapply view_update; [done|done|done|by destruct Hfo; split|done|done|done|by rewrite fn_lookup_insert|].
  intros j Hj. by rewrite fn_lookup_insert_ne.
Qed.

Lemma yields_keep_response wf1 ds s o wf text (k : nat) t0 m :
  view wf1 ds s o wf → (k < n)%nat → ts0 !! k = Some t0 → (∀ i t, (i < n)%nat → ts0 !! i = Some t → is_Some (operator t)) →
  Forall (λ d, 0 ≤ d < Z.of_nat n) (dependents_indexes t0) → reliable m →
  yields (keep_response text (Z.of_nat k) wf) (view wf1 ds s o) m.
Proof.
  intros Hv Hk Ht0 Hop Hd Hm. destruct (v_task _ _ _ _ _ Hv k Hk) as (t0' & t & Ht0' & Ht & Hfo & _). simplify_eq.
  unfold keep_response. rewrite cell_nat. go. rewrite (fo_dependents _ _ Hfo). rewrite Forall_forall in Hd.
  apply yields_foldC; [done|done|]. intros d wf' m1 Hin Hm1 Hv'. apply Hd in Hin. rewrite <-(Z2Nat.id d) by lia. rewrite !cell_nat.
  assert (Z.to_nat d < n)%nat as Hdn by lia.
  destruct (v_task _ _ _ _ _ Hv' (Z.to_nat d) Hdn) as (td0 & td & Htd0 & Htd & Hfod & _). go. rewrite (fo_operator _ _ Hfod).
  destruct (Hop _ _ Hdn Htd0) as [op Eop]. rewrite Eop. go. case_match; [|by go]. go.
  destruct (v_task _ _ _ _ _ Hv' k Hk) as (tk0 & tk & Htk0 & Htk & Hfok & Hds & Hr & Hs & Hout). go. go.
  eapply view_update; [done|done|done|by destruct Hfok; split|done..].
Qed.

(** *** Exit operations *)

Lemma strrchr_length c x p : strrchr x c = Some p → (0 < String.length p ≤ String.length x)%nat.
Proof. revert p. induction x as [|a x IH]; intros p; cbn [strrchr]; [done|]. repeat case_match; intros; simplify_eq/=; try lia. specialize (IH _ eq_refl). lia. Qed.

Lemma yields_trash_objects fuel x trash m :
  reliable m → (String.length x < fuel)%nat → yields (trash_objects fuel x trash) (λ r, r.1 = OPH_SERVER_OK) m.
Proof.
  revert x trash m. induction fuel as [|fuel IH]; intros x trash m Hm Hlen; [lia|]. cbn [trash_objects].
  destruct (strrchr x "/") as [[|c obj]|]; [by go| |by go].
  eapply (yields_then _ _ (λ r, r.1 = 0 ∧ is_Some r.2)).
  { destruct trash; [by go; split; [|eexists]|]. unfold Trash.oph_trash_create. go. by go; split; [|eexists]. }
  intros [rc tr] m1 Hm1 [Hrc [tr' Htr]]. simpl in Hrc, Htr. subst rc tr. cbn [Z.eqb negb].
  eapply (yields_then _ _ (λ _, True)).
  { unfold Trash.oph_trash_append. go. destruct tr' as [|nd tr'].
    - change (Trash.find_node None [] []) with (mret (M := C) (@None (oph_trash * Trash.oph_trash_node * oph_trash))). go. go. cbn [negb].
      eapply (yields_then _ _ (λ b, b = true)); [by go|]. intros ? ? ? ->. cbn [negb]. by go.
    - change (Trash.find_node None [] (nd :: tr')) with (mret (M := C) (Some (@nil Trash.oph_trash_node, nd, tr'))). go. cbv beta iota. by go. }
  intros [rc2 tr2] m2 Hm2 _. destruct (strrchr x "|") as [p|] eqn:Ep; [|by go]. apply strrchr_length in Ep.
  apply IH; [done|]. rewrite length_take_str. lia.
Qed.

Lemma yields_find_target tg i args m :
  reliable m → Forall (λ a, is_Some (arg_key a)) args →
  yields (find_target tg i args) (λ r, match r with Some j => is_Some (args !! (j - i)%nat) ∧ (i ≤ j)%nat | None => True end) m.
Proof.
  intros Hm Ha. revert i m Hm. induction Ha as [|a args [k Hk] Ha IH]; intros i m Hm; cbn [find_target]; [by go|].
  rewrite Hk. go. case_match; [go; rewrite Nat.sub_diag; split; [by eexists|lia]|].
  eapply yields_mono; [by apply IH|]. intros [j|] Hj; [|done]. destruct Hj as [Hj ?]. split; [|lia]. by replace (j - i)%nat with (S (j - S i)) by lia.
Qed.

Lemma yields_collect t tg acc obj m :
  reliable m → light_tasks t = [] → args_ok (arguments t) → yields (collect_object t tg acc obj) (λ _, True) m.
Proof.
  intros Hm Hl [_ Ha]. unfold collect_object, is_input. rewrite Hl. rewrite bool_decide_eq_true_2 by done.
  eapply (yields_then _ _ (λ _, True)).
  { eapply yields_then; [by apply yields_find_target|]. intros [i|] m1 Hm1 Hi; [|by go]. destruct Hi as [[a Hi] _]. rewrite Nat.sub_0_r in Hi.
    eapply (yields_then _ _ (λ _, True)); [go; by go|]. intros v m2 Hm2 _. by go. }
  intros b m1 Hm1 _. destruct b; [by go|]. destruct acc; (eapply yields_mono; [by apply yields_strdup|done]).
Qed.

Lemma gives_exit_operation wf1 ds s o wf (k : nat) m :
  view wf1 ds s o wf → (k < n)%nat → Forall pair_ok (o k) → reliable m →
  gives (exit_operation (Z.of_nat k) wf) (keeps wf) m.
Proof.
  intros Hv Hk Ho Hm. destruct (v_task _ _ _ _ _ Hv k Hk) as (t0 & t & Ht0 & Ht & Hfo & Hds & Hr & Hs & Hout).
  unfold exit_operation. rewrite cell_nat. go. destruct (bool_decide _); [by go|]. rewrite Hout.
  eapply gives_bind; [by apply yields_find_output|]. intros [i|] m1 Hm1 Hi; [|by go]. destruct (_ =? _); [by go|].
  destruct Hi as (kv & Hi & [_ [v Hv']] & _). rewrite Nat.sub_0_r in Hi. go. go. destruct (fo_plain _ _ Hfo) as (_ & Hl & _).
  eapply gives_bind; [apply (yields_foldC _ _ (λ _, True)); [done|done|]|].
  { intros x acc m2 _ Hm2 _. apply yields_collect; [done|done|apply Hfo]. }
  intros [obj|] m2 Hm2 _; [|by go]. eapply gives_bind; [apply yields_trash_objects; [done|lia]|]. intros [rc tr] m3 Hm3 Hrc. simpl in Hrc. subst rc.
  change (OPH_SERVER_OK =? 0) with true. cbn [negb]. go. by destruct (exit_action t =? _), wf.
Qed.

(** *** Tracing *)

Lemma yields_trace wf1 ds s o wf (k : nat) st t0 m :
  view wf1 ds s o wf → (k < n)%nat → ts0 !! k = Some t0 → is_Some (name t0) → reliable m →
  yields (trace_output (Z.of_nat k) st wf) (λ wf', ∃ wf1', view wf1' ds s o wf' ∧ core wf1' = core wf) m.
Proof.
  intros Hv Hk Ht0 [nm Hnm] Hm. destruct (v_task _ _ _ _ _ Hv k Hk) as (t0' & t & Ht0' & Ht & Hfo & Hds & Hr & Hs & Hout). simplify_eq.
  assert (view wf ds s o wf) as Hself by (by eapply view_self).
  unfold trace_output. destruct (negb _); [go; by exists wf|]. rewrite cell_nat. go. destruct (traced _ _); [go; by exists wf|].
  unfold oph_workflow_save_task_output. eapply (yields_then _ _ (λ r, r.1.2 = t)).
  { go. replace (name t) with (Some nm) by (rewrite (fo_name _ _ Hfo); done). go. eapply (yields_then _ _ (λ _, True)).
    { unfold strdup_opt. destruct (response t); [|by go]. eapply yields_mono; [by apply yields_strdup|done]. }
    intros r m3 Hm3 _. destruct (fo_plain _ _ Hfo) as (_ & -> & _). rewrite bool_decide_eq_true_2 by done. by go. }
  intros [[rc t'] out] m4 Hm4 Et. simpl in Et. subst t'. go.
  assert (view wf ds s o (update_task (Z.of_nat k) t wf)) as Hu by (eapply view_update; [done..|by intros]).
  assert (core (update_task (Z.of_nat k) t wf) = core wf) as Hc by (by rewrite update_nat; destruct wf).
  repeat case_match; eexists; (split; [eapply view_self; [exact Hu|]; by destruct wf|]); by destruct wf.
Qed.

(** *** A completed task *)

Context (Hops : ∀ i t, (i < n)%nat → ts0 !! i = Some t → is_Some (operator t) ∧ is_Some (name t) ∧ Forall (λ d, 0 ≤ d < Z.of_nat n) (dependents_indexes t)).

(** The dependencies once [k] is over. *)
Definition discharged (k : nat) (ds : nat → list oph_workflow_dep) (i : nat) : list oph_workflow_dep :=
  match ts0 !! k with
  | Some t => if decide (Z.of_nat i ∈ dependents_indexes t) then clear_on k <$> ds i else ds i
  | None => ds i
  end.

Definition fresh (f : flags) : Prop := check_for_constraint f = false ∧ final f = false ∧ retry_task_execution f = false.

Lemma gives_update_single auto missing saved nt wf ds s o (k : nat) t f m :
  view wf ds s o wf → (k < n)%nat → tasks wf !! k = Some t → n_task nt = Z.of_nat k → n_status nt = OPH_ODB_STATUS_COMPLETED → reliable m →
  gives (update_single auto missing saved nt wf t f)
    (λ r, view wf ds (<[k := OPH_ODB_STATUS_COMPLETED]> s) o r.1 ∧ (fresh f → fresh r.2)) m.
Proof.
  intros Hv Hk Ht Hnt Hst Hm. destruct (v_task _ _ _ _ _ Hv k Hk) as (t0 & t' & Ht0 & Ht' & Hfo & Hds & Hr & Hs & Hout). simplify_eq.
  unfold update_single. rewrite Hst, Hnt. cbn [is_marked_for_auto_retry set_status]. destruct (fo_plain _ _ Hfo) as (_ & _ & ->).
  change (negb (0 =? 0) || (OPH_ODB_STATUS_COMPLETED =? OPH_ODB_STATUS_START_ERROR)) with false. cbv iota. go. split; [|by destruct (_ || _)].
  eapply view_update; [done|done|done|by destruct Hfo; split|done|done|by rewrite fn_lookup_insert|done|].
  intros j Hj. by rewrite fn_lookup_insert_ne.
Qed.

Lemma core_tasks ts wf : core (set_tasks ts wf) = core wf.
Proof. by destruct wf. Qed.
Lemma view_core wf1 ds s o wf : view wf1 ds s o wf → core wf = core wf1.
Proof. intros Hv. rewrite (v_frame _ _ _ _ _ Hv). apply core_tasks. Qed.
Lemma view_core_self wf1 ds s o wf : view wf1 ds s o wf → view wf ds s o wf.
Proof. intros Hv. by eapply view_self. Qed.

(** The end of a workflow: [r] tasks are left. *)
Definition ended (r : nat) (wf0 wf : oph_workflow) (f : flags) : Prop :=
  core wf = (n, Z.of_nat r, if decide (r = 0%nat) then OPH_ODB_STATUS_COMPLETED else wf_status wf0) ∧
  final f = bool_decide (r = 0%nat) ∧ task_completed f = true ∧ update_wf_data f ≠ 0 ∧ retry_task_execution f = false.

Lemma finish_ended r wf f :
  tasks_num wf = n → residual_tasks_num wf = Z.of_nat r → wf_status wf < OPH_ODB_STATUS_COMPLETED → final f = false → task_completed f = true →
  update_wf_data f ≠ 0 → retry_task_execution f = false →
  ∃ wf' f', finish_completed OPH_ODB_STATUS_COMPLETED wf f = (wf', f') ∧ tasks wf' = tasks wf ∧ ended r wf wf' f'.
Proof.
  intros Hn Hr Hs Hf Hc Hu Hrt. unfold finish_completed. unfold OPH_ODB_STATUS_COMPLETED, OPH_ODB_STATUS_ERROR in *.
  rewrite (proj2 (Z.eqb_neq (wf_status wf) 13)) by lia. rewrite Hr. unfold ended, core. destruct (Z.eqb_spec (Z.of_nat r) 0).
  - assert (r = 0)%nat as -> by lia. rewrite (proj2 (Z.ltb_lt (wf_status wf) 12)) by lia. eexists _, _. split; [done|]. split; [done|]. simpl. rewrite Hn, Hr. by split_and!.
  - rewrite decide_False by lia. rewrite bool_decide_eq_false_2 by lia. eexists _, _. split; [done|]. split; [done|]. simpl. rewrite Hn, Hr. split_and!; try done.
Qed.

Lemma dependents_nat (k : nat) t : (k < n)%nat → ts0 !! k = Some t → ∃ l, dependents_indexes t = Z.of_nat <$> l ∧ Forall (λ d, (d < n)%nat) l.
Proof.
  intros Hk Ht. destruct (Hops k t Hk Ht) as (_ & _ & Hd). exists (Z.to_nat <$> dependents_indexes t). split.
  - rewrite <-list_fmap_compose. rewrite <-(list_fmap_id (dependents_indexes t)) at 1. apply Forall_fmap_ext_1. eapply Forall_impl; [exact Hd|]. intros d Hb. unfold compose, id. simpl in Hb. lia.
  - apply Forall_fmap. eapply Forall_impl; [exact Hd|]. intros d Hb. simpl in *. lia.
Qed.

Lemma gives_complete_task fuel nt outs wf ds s o (k r : nat) f m :
  view wf ds s o wf → (k < n)%nat → n_task nt = Z.of_nat k → core wf = (n, Z.of_nat (S r), wf_status wf) →
  wf_status wf < OPH_ODB_STATUS_COMPLETED → o k = [] → Forall pair_ok outs → (∀ i, (i < n)%nat → Forall dep_ok (ds i)) →
  fresh f → update_wf_data f ≠ 0 → reliable m →
  gives (complete_task fuel nt outs OPH_ODB_STATUS_COMPLETED wf f)
    (λ x, (∃ outs', Forall pair_ok outs' ∧ view x.1 (discharged k ds) s (<[k := outs']> o) x.1) ∧ ended r wf x.1 x.2) m.
Proof.
  intros Hv Hk Hnt Hcore Hst Ho Houts Hdeps (Hf & Hfi & Hre) Hup Hm.
  destruct (v_task _ _ _ _ _ Hv k Hk) as (t0 & t & Ht0 & Ht & Hfo & Hds & Hr & Hs & Hout).
  unfold complete_task. rewrite Hnt, cell_nat. go. rewrite (proj1 (fo_plain _ _ Hfo)). cbn [Z.eqb negb andb].
  set (wf1 := set_residual_tasks_num _ _).
  assert (view wf1 ds s o wf1) as Hv1.
  { eapply view_self; [eapply (view_update wf ds s o ds s o wf k t0 t); [done..|by intros]|]. done. }
  assert (core wf1 = (n, Z.of_nat r, wf_status wf)) as Hc1.
  { unfold wf1. rewrite update_nat. unfold core in *. injection Hcore as ? ?. simpl. f_equal; [f_equal; [done|lia]]. }
  assert (wf_status wf1 = wf_status wf) as Hs1 by (unfold core in Hc1; by injection Hc1).
  clearbody wf1. eapply gives_bind; [by apply yields_known_outputs|]. intros wf2 m2 Hm2 [Ht2 Hc2].
  assert (view wf2 ds s o wf2) as Hv2 by (eapply view_self; [exact Hv1|done]).
  eapply gives_bind; [by apply yields_file_output|]. intros [outs' file] m3 Hm3 Ho'. simpl in Ho'.
  eapply gives_andthen; [by apply (gives_store_outputs wf2 ds s o)|]. intros wf3 m4 Hm4 Hv3.
  destruct (v_task _ _ _ _ _ Hv3 k Hk) as (t0' & t3 & Ht0' & Ht3 & Hfo3 & _). rewrite Ht0 in Ht0'. injection Ht0' as <-. rewrite cell_nat. go.
  rewrite (fo_dependents _ _ Hfo3). destruct (dependents_nat k t0 Hk Ht0) as (l & Hl & Hln). rewrite Hl.
  eapply gives_andthen.
  { apply (gives_notify_dependents fuel wf2 ds s (<[k := outs']> o) wf3 k l); [done| |done|done|done| |exact Hf|done].
    - unfold core in *. congruence.
    - by rewrite fn_lookup_insert. }
  intros [wf4 f4] m5 Hm5 [Hf4 Hv4]. simpl in Hf4, Hv4. subst f4.
  eapply gives_andthen; [eapply gives_exit_operation; [exact Hv4|done|by rewrite fn_lookup_insert|done]|]. intros wf5 m6 Hm6 [Ht5 Hc5].
  apply view_core in Hv4 as Hc4. assert (core wf5 = (n, Z.of_nat r, wf_status wf)) as Hc by congruence. injection Hc as Hc51 Hc52 Hc53.
  go. destruct (finish_ended r wf5 (set_task_completed true f)) as (wf' & f' & -> & Ht' & He); [done|done|by rewrite Hc53|done..|].
  split.
  - exists outs'. split; [done|]. simpl. eapply view_ext; [eapply view_self; [exact Hv4|congruence]|]. intros i _. split; [|done].
    unfold discharged. rewrite Ht0, Hl. destruct (decide (i ∈ l)); [rewrite decide_True by (by apply list_elem_of_fmap_2)|rewrite decide_False]; try done.
    rewrite list_elem_of_fmap. intros (i' & ? & ?). by assert (i = i') as -> by lia.
  - unfold ended in *. by rewrite <-Hc53.
Qed.

(** A task that is completed: its dependents are discharged and one task less is left. *)
Lemma gives_completed auto missing saved fuel nt oj mj wf ds s o (k r : nat) m :
  view wf ds s o wf → (k < n)%nat → n_task nt = Z.of_nat k → n_light nt < 0 → n_status nt = OPH_ODB_STATUS_COMPLETED →
  core wf = (n, Z.of_nat (S r), wf_status wf) → wf_status wf < OPH_ODB_STATUS_COMPLETED →
  o k = [] → Forall pair_ok (n_outputs nt) → (∀ i, (i < n)%nat → Forall dep_ok (ds i)) → reliable m →
  gives (process_notification auto missing saved fuel nt OPH_ODB_STATUS_COMPLETED oj mj wf)
    (λ x, (∃ outs', Forall pair_ok outs' ∧
            view x.1 (discharged k ds) (<[k := OPH_ODB_STATUS_COMPLETED]> s) (<[k := outs']> o) x.1) ∧ ended r wf x.1 x.2) m.
Proof.
  intros Hv Hk Hnt Hli Hst Hcore Hws Ho Houts Hdeps Hm.
  destruct (v_task _ _ _ _ _ Hv k Hk) as (t0 & t & Ht0 & Ht & Hfo & Hds & Hr & Hs & Hout). destruct (Hops k t0 Hk Ht0) as (Hop & Hnm & Hdn).
  unfold process_notification. rewrite Hnt, cell_nat. go. rewrite (proj2 (Z.leb_gt _ _) Hli). cbv iota.
  eapply (gives_andthen _ _ (λ x, x.1.2 = OPH_ODB_STATUS_COMPLETED ∧ x.2 = true ∧
     view wf ds (<[k := OPH_ODB_STATUS_COMPLETED]> s) o x.1.1.1 ∧ fresh x.1.1.2)).
  { eapply gives_andthen; [by eapply gives_update_single|]. intros [wf' f'] m1 Hm1 [Hv' Hf']. go. split_and!; [done..|by apply Hf']. }
  intros [[[wf1 f1] st1] b1] m1 Hm1 (Hst1 & Hb1 & Hv1 & Hf1). simpl in Hst1, Hb1, Hv1, Hf1. subst st1 b1. cbn [negb andb].
  change ((OPH_ODB_STATUS_COMPLETED =? OPH_ODB_STATUS_COMPLETED) || (OPH_ODB_STATUS_COMPLETED =? OPH_ODB_STATUS_ERROR)) with true. cbv iota.
  apply view_core in Hv1 as Hc1. rewrite Hcore in Hc1. injection Hc1 as Hn1 Hr1 Hs1. rewrite Hn1.
  destruct (v_last _ _ _ _ _ Hv1) as (tl & Htl & Hnl). go. rewrite Hnl.
  apply view_core_self in Hv1. unfold end_of_task. rewrite Hnt, Hr1. destruct (Z.eqb_spec (Z.of_nat (S r)) 0); [lia|].
  eapply gives_bind; [eapply yields_keep_response; [exact Hv1|done|done| |done|done]|].
  { intros i ti Hi Hti. by apply (Hops i ti). }
  intros wf2 m2 Hm2 Hv2. apply view_core in Hv2 as Hc2. apply view_core_self in Hv2. rewrite cell_nat.
  destruct (v_task _ _ _ _ _ Hv2 k Hk) as (t0' & t2 & Ht0' & Ht2 & Hfo2 & Hds2 & Hr2 & Hs2 & Hout2).
  rewrite Ht0 in Ht0'. injection Ht0' as <-. go.
  rewrite fn_lookup_insert in Hs2. rewrite Hs2.
  change ((OPH_ODB_STATUS_COMPLETED <? OPH_ODB_STATUS_COMPLETED) && (OPH_ODB_STATUS_COMPLETED <? OPH_ODB_STATUS_SKIPPED)) with false.
  cbv iota. assert ((if retry_num t2 <? 0 then (OPH_ODB_STATUS_COMPLETED, t2) else (OPH_ODB_STATUS_COMPLETED, t2)) = (OPH_ODB_STATUS_COMPLETED, t2)) as ->
    by (by case_match).
  cbv iota. change (OPH_ODB_STATUS_COMPLETED =? OPH_ODB_STATUS_COMPLETED) with true. cbv iota.
  set (wf3 := update_task (Z.of_nat k) t2 wf2).
  assert (view wf3 ds (<[k := OPH_ODB_STATUS_COMPLETED]> s) o wf3) as Hv3.
  { eapply view_core_self. eapply (view_update _ _ _ _ _ _ _ wf2 k t0 t2); [exact Hv2|done|done|done|done|done| |done|done]. by rewrite fn_lookup_insert. }
  assert (core wf3 = (n, Z.of_nat (S r), wf_status wf)) as Hc3.
  { unfold wf3. rewrite update_nat, core_tasks, Hc2. unfold core. by rewrite Hn1, Hr1, Hs1. }
  clearbody wf3. assert (wf_status wf3 = wf_status wf) as Hs3 by (unfold core in Hc3; by injection Hc3).
  eapply (gives_andthen _ _ (λ x, x.2 = OPH_ODB_STATUS_COMPLETED ∧ ended r wf x.1.1 x.1.2 ∧ ∃ outs', Forall pair_ok outs' ∧
    view x.1.1 (discharged k ds) (<[k := OPH_ODB_STATUS_COMPLETED]> s) (<[k := outs']> o) x.1.1)).
  { eapply gives_andthen; [eapply (gives_complete_task _ _ _ _ _ _ _ k r); [exact Hv3|done|done|by rewrite Hs3|by rewrite Hs3|done|done|done|done|done|done]|].
    intros [wf4 f4] m4 Hm4 [(outs' & Ho' & Hv4) He]. simpl in Hv4, He. go. split; [done|]. split; [|by exists outs']. unfold ended in *. by rewrite <-Hs3. }
  intros [[wf4 f4] st4] m4 Hm4 (Hst4 & He & outs' & Ho' & Hv4). simpl in Hst4, He, Hv4. subst st4.
  eapply gives_bind; [by eapply yields_trace|]. intros wf5 m5 Hm5 (wf1' & Hv5 & Hc5). go. apply view_core in Hv5 as Hc6. apply view_core_self in Hv5.
  split; [by exists outs'|]. unfold ended in *. simpl. by rewrite Hc6, Hc5.
Qed.

(** *** A task that goes on *)

Lemma gives_running auto missing saved fuel nt oj mj wf ds s o (k : nat) m :
  view wf ds s o wf → (k < n)%nat → n_task nt = Z.of_nat k → n_light nt < 0 → canonical_status (n_status nt) = Some OPH_ODB_STATUS_RUNNING → reliable m →
  gives (process_notification auto missing saved fuel nt OPH_ODB_STATUS_RUNNING oj mj wf)
    (λ x, view x.1 ds (<[k := n_status nt]> s) o x.1 ∧ tasks_num x.1 = tasks_num wf ∧ residual_tasks_num x.1 = residual_tasks_num wf ∧
      wf_status x.1 = Z.max (wf_status wf) OPH_ODB_STATUS_RUNNING ∧ final x.2 = false ∧ task_completed x.2 = false ∧ retry_task_execution x.2 = false) m.
Proof.
  intros Hv Hk Hnt Hli Hst Hm. destruct (v_task _ _ _ _ _ Hv k Hk) as (t0 & t & Ht0 & Ht & Hfo & Hds & Hr & Hs & Hout).
  unfold process_notification. rewrite Hnt, cell_nat. go. rewrite (proj2 (Z.leb_gt _ _) Hli). cbv iota.
  unfold update_single. cbn [is_marked_for_auto_retry set_status]. destruct (fo_plain _ _ Hfo) as (_ & _ & ->). rewrite Hnt.
  assert (n_status nt =? OPH_ODB_STATUS_START_ERROR = false) as ->.
  { destruct (Z.eqb_spec (n_status nt) OPH_ODB_STATUS_START_ERROR) as [E|]; [|done]. by rewrite E in Hst. }
  cbn [Z.eqb negb orb]. set (wf' := update_task _ _ wf). set (f' := if _ || _ then _ else _).
  eapply (gives_andthen _ _ (λ x, x = (wf', f', OPH_ODB_STATUS_RUNNING, true))).
  { eapply (gives_andthen _ _ (λ x, x = (wf', f'))); [by go|]. intros ? ? ? ->. by go. }
  intros ? m1 Hm1 ->. cbv iota. cbn [negb andb].
  change ((OPH_ODB_STATUS_RUNNING =? OPH_ODB_STATUS_COMPLETED) || (OPH_ODB_STATUS_RUNNING =? OPH_ODB_STATUS_ERROR)) with false. cbv iota.
  change (OPH_ODB_STATUS_RUNNING =? OPH_ODB_STATUS_RUNNING) with true. cbv iota. go.
  assert (view wf ds (<[k := n_status nt]> s) o wf') as Hv'.
  { eapply view_update; [done|done|done|by destruct Hfo; split|done|done|by rewrite fn_lookup_insert|done|]. intros j Hj. by rewrite fn_lookup_insert_ne. }
  assert (tasks_num wf' = tasks_num wf ∧ residual_tasks_num wf' = residual_tasks_num wf ∧ wf_status wf' = wf_status wf) as (Hc1 & Hc2 & Hc3) by done.
  clearbody wf'. assert (final f' = false ∧ task_completed f' = false ∧ retry_task_execution f' = false) as Hf' by (unfold f'; by destruct (_ || _)).
  unfold at_least. destruct (Z.ltb_spec (wf_status wf') OPH_ODB_STATUS_RUNNING); simpl; (split; [by eapply view_self|]); (split; [done|]); (split; [done|]); (split; [lia|]); done.
Qed.

(** *** Execution *)

(** What holds of the value whenever there is one. *)
Definition partly {A} (c : C A) (P : A → Prop) : Prop := ∀ m a m', c m = Ok a m' → P a.
Definition always {A} (_ : A) : Prop := True.

Lemma partly_always {A} (c : C A) : partly c always.
Proof. done. Qed.
Lemma partly_ret {A} (a : A) (P : A → Prop) : P a → partly (mret a) P.
Proof. by intros H m ? m' [= <- _]. Qed.
Lemma partly_bind {A B} (c : C A) (f : A → C B) (P : A → Prop) (R : B → Prop) :
  partly c P → (∀ a, P a → partly (f a) R) → partly (c ≫= f) R.
Proof. intros Hc Hf m b m' H. unfold mbind, C_bind in H. destruct (c m) as [a m1| |] eqn:E; try done. by eapply Hf; [eapply Hc|]. Qed.
Lemma partly_skip {A B} (c : C A) (f : A → C B) (R : B → Prop) : (∀ a, partly (f a) R) → partly (c ≫= f) R.
Proof. intros Hf. by apply (partly_bind _ _ always). Qed.
Lemma partly_ret_bind {A B} (a : A) (f : A → C B) R : partly (f a) R → partly (mret a ≫= f) R.
Proof. done. Qed.
Lemma partly_deref {A} (x : option A) : partly (deref x) (λ a, x = Some a).
Proof. intros m a m'. unfold deref. destruct x; [by intros [= <- _]|done]. Qed.
Lemma partly_loopC {S X R} (f : S → X → C (ctl S R)) (l : list X) (P : list X → S → Prop) s :
  P [] s → (∀ l1 x l2 s, l = l1 ++ x :: l2 → P l1 s → partly (f s x) (λ c, match c with Next s' => P (l1 ++ [x]) s' | Break _ => True end)) →
  partly (loopC f s l) (λ c, match c with Next s' => P l s' | Break _ => True end).
Proof.
  intros H0 Hf. assert (∀ l2 l1 s, l = l1 ++ l2 → P l1 s → partly (loopC f s l2) (λ c, match c with Next s' => P l s' | Break _ => True end)) as H; [|by eapply (H l [])].
  induction l2 as [|x l2 IH]; intros l1 s1 E Hs; cbn [loopC].
  - rewrite app_nil_r in E. subst l1. by apply partly_ret.
  - eapply partly_bind; [by eapply Hf|]. intros [s'|r] Hc; [|by apply partly_ret]. apply (IH (l1 ++ [x])); [by rewrite <-app_assoc|done].
Qed.

Lemma partly_fill args : partly (fill_arguments args) (λ r, r.1 = true → arg_key <$> r.2 = arg_key <$> args).
Proof.
  induction args as [|a args IH]; cbn [fill_arguments]; [by apply partly_ret|].
  destruct (bool_decide _).
  - eapply partly_bind; [exact IH|]. intros [b r] Hr. apply partly_ret. cbn [fst snd] in *. intros Hb. by rewrite !fmap_cons, Hr.
  - apply partly_skip. intros [rc v]. destruct (negb _); [by apply partly_ret|].
    eapply partly_bind; [exact IH|]. intros [b r] Hr. apply partly_ret. cbn [fst snd] in *. intros Hb. by rewrite !fmap_cons, Hr.
Qed.

Lemma args_ok_keys args args' : arg_key <$> args' = arg_key <$> args → args_ok args → args_ok args'.
Proof.
  intros E [Hne Hk]. split.
  - intros ->. by destruct args.
  - assert (∀ l, Forall (λ a : argument, is_Some (arg_key a)) l ↔ Forall (λ k : cstr, is_Some k) (arg_key <$> l)) as H by (intros l; by rewrite Forall_fmap).
    apply H. rewrite E. by apply H.
Qed.

Section execute.
Context (auto : Z) (new_marker new_job : Z → Z → option Z) (rand : Z → Z) (server : cstr) (fuel vfuel : nat) (index0 : Z).
Context (check_massive : Z → oph_workflow → Z * oph_workflow * bool).
(** No operation is massive. *)
Context (Hmassive : ∀ i wf, check_massive i wf = (0, wf, false)).

Definition served (rqs : list request) : Prop := Forall (λ rq, rq_serve rq = true) rqs.

(** A ready task is pending afterwards. *)
Definition started (i : nat) (ds : nat → list oph_workflow_dep) (s : nat → Z) : nat → Z :=
  if decide (open_deps (ds i) = 0%nat ∧ s i = 0) then <[i := OPH_ODB_STATUS_PENDING]> s else s.

Lemma partly_reject i wf P : partly (reject fuel i wf) (λ r, served r.2 → P r).
Proof. unfold reject. do 2 (apply partly_skip; intros ?). apply partly_skip. intros [rc wf']. do 5 (apply partly_skip; intros ?). apply partly_ret. intros H. by inversion H. Qed.

Lemma partly_register wf1 ds s o wf (i : nat) long :
  view wf1 ds s o wf → (i < n)%nat →
  partly (register auto new_marker new_job rand server fuel vfuel index0 (Z.of_nat i) long false wf)
    (λ r, served r.2 → view wf1 ds (<[i := OPH_ODB_STATUS_PENDING]> s) o r.1).
Proof.
  intros Hv Hi. unfold register. destruct (new_job _ _) as [jobid|]; [|by apply partly_reject].
  destruct (v_task _ _ _ _ _ Hv i Hi) as (t0 & t & Ht0 & Ht & Hfo & Hds & Hr & Hs & Hout). rewrite cell_nat.
  eapply partly_bind; [apply partly_deref|]. intros t1 Ht1. rewrite Ht in Ht1. injection Ht1 as <-. apply partly_ret_bind. cbn [Z.eqb negb].
  destruct (fo_plain _ _ Hfo) as (_ & Hl & _). rewrite Hl. rewrite bool_decide_eq_true_2 by done.
  apply partly_skip. intros x. unfold prepare_single. rewrite cell_nat, update_nat. cbn [tasks set_tasks].
  rewrite list_lookup_insert_eq by (by eapply lookup_lt_Some). apply partly_ret_bind. do 8 (apply partly_skip; intros ?).
  apply partly_ret. intros _. simpl. rewrite <-update_nat.
  eapply view_update; [eapply (view_update _ _ _ _ _ _ _ _ i t0); [exact Hv|..]|..]; try done; try (by destruct Hfo; split).
  - by rewrite fn_lookup_insert.
  - intros j Hj. by rewrite fn_lookup_insert_ne.
Qed.

Lemma partly_submit wf1 ds s o wf (i : nat) :
  view wf1 ds s o wf → (i < n)%nat →
  partly (submit_task auto new_marker new_job rand server fuel vfuel index0 check_massive (Z.of_nat i) wf)
    (λ r, served r.2 → view wf1 ds (<[i := OPH_ODB_STATUS_PENDING]> s) o r.1).
Proof.
  intros Hv Hi. unfold submit_task. apply partly_skip. intros [rc [long short]]. destruct (negb _); [by apply partly_reject|].
  apply partly_skip. intros t. rewrite Hmassive. cbn [Z.eqb negb]. destruct (_ <? _); by apply partly_register.
Qed.

Lemma partly_prepare wf1 ds s o wf rqs (i : nat) :
  view wf1 ds s o wf → tasks_num wf1 = n → (i < n)%nat →
  partly (prepare_task auto new_marker new_job rand server fuel vfuel index0 check_massive (wf, rqs) (Z.of_nat i))
    (λ c, match c with Next r => ∃ new, r.2 = rqs ++ new ∧ (served new → view wf1 ds (started i ds s) o r.1) | Break _ => True end).
Proof.
  intros Hv Hn Hi. unfold prepare_task. destruct (v_task _ _ _ _ _ Hv i Hi) as (t0 & t & Ht0 & Ht & Hfo & Hds & Hr & Hs & Hout).
  eapply partly_bind. { instantiate (1 := λ b, b = false). unfold WfSubmit.bad_task_index.
    assert (tasks_num wf = n) as -> by (rewrite (v_frame _ _ _ _ _ Hv); by destruct wf1).
    rewrite (proj2 (Z.ltb_ge _ _)), (proj2 (Z.ltb_ge _ _)), (proj2 (Z.eqb_neq _ _)) by lia. by apply partly_ret. }
  intros bad ->. rewrite cell_nat, Ht. apply partly_ret_bind. rewrite Hr, Hs. unfold started.
  destruct (Z.eqb_spec (Z.of_nat (open_deps (ds i))) 0); cbn [negb orb];
    [|apply partly_ret; exists []; rewrite app_nil_r; split; [done|]; rewrite decide_False by lia; done].
  destruct (Z.eqb_spec (s i) 0) as [Hsi|]; cbn [negb];
    [|apply partly_ret; exists []; rewrite app_nil_r; split; [done|]; rewrite decide_False by lia; done].
  rewrite decide_True by (split; [lia|done]). eapply partly_bind; [apply partly_fill|]. intros [b args] Hargs. simpl in Hargs.
  destruct b; cbn [negb]; [|by apply partly_ret]. specialize (Hargs eq_refl).
  set (wf2 := update_task _ _ wf). assert (view wf1 ds s o wf2) as Hv2.
  { eapply (view_update _ _ _ _ _ _ _ _ i t0); try done. destruct Hfo. split; try done. by eapply args_ok_keys. }
  clearbody wf2. eapply (partly_bind _ _ (λ r, served r.2 → view wf1 ds (<[i := OPH_ODB_STATUS_PENDING]> s) o r.1)).
  { destruct (_ =? _); [|by apply partly_submit]. destruct (new_marker _ _) as [mk|]; [|by apply partly_reject].
    unfold mark_task. destruct (v_task _ _ _ _ _ Hv2 i Hi) as (t0' & t' & Ht0' & Ht' & Hfo' & Hds' & Hr' & Hs' & Hout').
    rewrite cell_nat, Ht'. apply partly_ret_bind. apply partly_submit; [|done]. destruct (_ =? _); [|done].
    eapply (view_update _ _ _ _ _ _ _ _ i t0'); try done. by destruct Hfo'; split. }
  intros [wf3 new] H3. apply partly_ret. by exists new.
Qed.
Lemma partly_extends wf rqs i :
  partly (prepare_task auto new_marker new_job rand server fuel vfuel index0 check_massive (wf, rqs) i)
    (λ c, match c with Next r => ∃ new, r.2 = rqs ++ new | Break _ => True end).
Proof.
  unfold prepare_task. apply partly_skip. intros bad. destruct bad; [apply partly_ret; exists []; by rewrite app_nil_r|].
  apply partly_skip. intros t. destruct (_ || _); [apply partly_ret; exists []; by rewrite app_nil_r|].
  apply partly_skip. intros [b args]. destruct (negb b); [by apply partly_ret|]. apply partly_skip. intros [wf' new]. apply partly_ret. by exists new.
Qed.

(** The tasks of [l] that are ready become pending. *)
Definition starts (l : list nat) (ds : nat → list oph_workflow_dep) (s : nat → Z) (i : nat) : Z :=
  if decide (i ∈ l ∧ open_deps (ds i) = 0%nat ∧ s i = 0) then OPH_ODB_STATUS_PENDING else s i.

Lemma starts_snoc l i ds s j : starts (l ++ [i]) ds s j = started i ds (starts l ds s) j.
Proof.
  assert (∀ x, starts l ds s x = 0 ↔ s x = 0 ∧ ¬ (x ∈ l ∧ open_deps (ds x) = 0%nat)) as H0.
  { intros x. unfold starts, OPH_ODB_STATUS_PENDING. case_decide; [split; [done|tauto]|tauto]. }
  unfold started. destruct (decide (j = i)) as [-> |Hne].
  - destruct (decide (open_deps (ds i) = 0%nat ∧ s i = 0)) as [[Ho Hs]|Hn].
    + unfold starts at 1. rewrite decide_True by set_solver. case_decide as Hd; [by rewrite fn_lookup_insert|]. unfold starts. case_decide; [done|].
      exfalso. apply Hd. split; [done|]. apply H0. tauto.
    + unfold starts at 1. rewrite decide_False by tauto. rewrite decide_False by (rewrite H0; tauto). unfold starts. rewrite decide_False by tauto. done.
  - assert (starts (l ++ [i]) ds s j = starts l ds s j) as ->.
    { unfold starts. destruct (decide (j ∈ l)); repeat case_decide; set_solver. }
    case_decide; [by rewrite fn_lookup_insert_ne|done].
Qed.

Lemma partly_execute wf1 ds s o wf (l : list nat) :
  view wf1 ds s o wf → tasks_num wf1 = n → Forall (λ i, (i < n)%nat) l → wf_status wf1 < OPH_ODB_STATUS_COMPLETED →
  partly (oph_workflow_execute auto new_marker new_job rand server fuel vfuel index0 check_massive wf (Z.of_nat <$> l))
    (λ c, match c with Next r => served r.2 → view wf1 ds (starts l ds s) o r.1 | Break _ => True end).
Proof.
  intros Hv Hn Hl Hws. destruct l as [|i0 l]; [|set (l0 := i0 :: l) in *]; cbn [fmap list_fmap oph_workflow_execute].
  { apply partly_ret. intros _. simpl. eapply view_ext; [exact Hv|]. intros i _. unfold starts. rewrite decide_False by set_solver. done. }
  unfold oph_workflow_execute. change (Z.of_nat <$> l0) with (Z.of_nat i0 :: (Z.of_nat <$> l)). cbv iota.
  assert (wf_status wf = wf_status wf1) as -> by (rewrite (v_frame _ _ _ _ _ Hv); by destruct wf1).
  rewrite (proj2 (Z.ltb_lt _ _)) by lia. cbn [orb]. change (Z.of_nat i0 :: (Z.of_nat <$> l)) with (Z.of_nat <$> l0). clearbody l0.
  pose (P := λ (l1 : list Z) (st : oph_workflow * list request), served st.2 → ∃ k, l1 = Z.of_nat <$> k ∧ view wf1 ds (starts k ds s) o st.1).
  assert (partly (loopC (prepare_task auto new_marker new_job rand server fuel vfuel index0 check_massive) (wf, []) (Z.of_nat <$> l0))
    (λ c, match c with Next r => P (Z.of_nat <$> l0) r | Break _ => True end)) as H.
  { apply partly_loopC.
    - intros _. exists []. split; [done|]. eapply view_ext; [exact Hv|]. intros i _. unfold starts. rewrite decide_False by set_solver. done.
    - intros l1 x l2 [wf' rqs] E HP. apply fmap_app_inv in E as (k1 & k2 & -> & E2 & ->).
      symmetry in E2. apply fmap_cons_inv in E2 as (i & k3 & -> & Ek3 & ->). rewrite Forall_app, Forall_cons in Hl. destruct Hl as (_ & Hi & _).
      intros m c m' Hc. destruct (decide (served rqs)) as [Hs|Hs].
      + destruct (HP Hs) as (k & Hk & Hv'). apply list_fmap_eq_inj in Hk; [|apply _]. subst k.
        eapply (partly_prepare _ _ _ _ _ _ i) in Hc; [|done..]. destruct c as [[wf2 rqs2]|]; [|done]. simpl in Hc. destruct Hc as (new & -> & Hv2).
        intros Hs2. simpl in Hs2. apply Forall_app in Hs2 as [_ Hs2]. exists (k1 ++ [i]). rewrite fmap_app. split; [done|].
        eapply view_ext; [by apply Hv2|]. intros j _. by rewrite starts_snoc.
      + apply partly_extends in Hc. destruct c as [[wf2 rqs2]|]; [|done]. destruct Hc as [new Hnew]. simpl in Hnew. subst rqs2.
        intros Hs2. by apply Forall_app in Hs2 as [? _]. }
  intros m c m' Hc. apply H in Hc. destruct c as [r|]; [|done]. intros Hs. destruct (Hc Hs) as (k & Hk & Hv'). apply list_fmap_eq_inj in Hk; [by subst k|apply _].
Qed.
End execute.
End view.

(** ** Runs *)

(** A task that was not started. *)
Record waiting (t : oph_workflow_task) : Prop := {
  wa_named : is_Some (name t) ∧ is_Some (operator t);
  wa_args : args_ok (arguments t);
  wa_deps : Forall dep_ok (deps t) ∧ residual_deps_num t = Z.of_nat (length (deps t));
  wa_status : status t = OPH_ODB_STATUS_UNKNOWN ∧ outputs t = [];
  wa_plain : is_skipped t = 0 ∧ light_tasks t = [] ∧ is_marked_for_auto_retry t = 0;
}.

(** A workflow that was set up and not started. *)
Record set_up (wf : oph_workflow) : Prop := {
  su_num : tasks_num wf ≠ 0%nat;
  su_final : ∃ t, tasks wf !! tasks_num wf = Some t ∧ name t = None;
  su_length : length (tasks wf) = S (tasks_num wf);
  su_indexed : indexed (tasks wf) (tasks_num wf);
  su_acyclic : acyclic (tasks wf) (tasks_num wf);
  su_residual : residual_tasks_num wf = Z.of_nat (tasks_num wf);
  su_status : wf_status wf < OPH_ODB_STATUS_COMPLETED;
  su_task : ∀ i t, (i < tasks_num wf)%nat → tasks wf !! i = Some t → waiting t;
}.

Section run.
Context (auto : Z) (new_marker new_job : Z → Z → option Z) (rand : Z → Z) (server : cstr) (fuel vfuel : nat) (index0 : Z).
Context (check_massive : Z → oph_workflow → Z * oph_workflow * bool).
Context (wf0 : oph_workflow).

Notation n := (tasks_num wf0).
Notation ts0 := (tasks wf0).
Notation execute := (oph_workflow_execute auto new_marker new_job rand server fuel vfuel index0 check_massive).

(** A submitted task that is not over. *)
Definition active (wf : oph_workflow) (k : nat) : Prop :=
  ∃ t, (k < n)%nat ∧ tasks wf !! k = Some t ∧ OPH_ODB_STATUS_UNKNOWN < status t < OPH_ODB_STATUS_COMPLETED.

(** A notification on task [k] as a whole, with its status as the [switch] sees it. *)
Definition on_task (k : nat) (st : Z) (nt : notification) : Prop :=
  n_task nt = Z.of_nat k ∧ n_light nt < 0 ∧ canonical_status (n_status nt) = Some st ∧ Forall pair_ok (n_outputs nt).

(** Successful runs: the completed tasks in their order, the workflow, and whether it is over.  The
    resource manager takes every request, and each task goes on for a while and is completed.  There is no
    step for a task that fails or is refused, and a flow control operator is a task like the others:
    the steps do not select branches and do not start the tasks of a loop again ([FlowControl]). *)
Inductive successful_run : list nat → oph_workflow → bool → Prop :=
  | run_start m l m1 wf rqs m2 :
      initial_indexes ts0 n m = Ok l m1 → execute wf0 l m1 = Ok (Next (wf, rqs)) m2 → served rqs → successful_run [] wf false
  | run_on dn wf k nt missing saved oj mj m wf' f m' :
      successful_run dn wf false → active wf k → on_task k OPH_ODB_STATUS_RUNNING nt → reliable m →
      process_notification auto missing saved fuel nt OPH_ODB_STATUS_RUNNING oj mj wf m = Ok (Next (wf', f)) m' → successful_run dn wf' false
  | run_completed dn wf k nt missing saved oj mj m wf1 f m1 l m2 wf2 rqs m3 :
      successful_run dn wf false → active wf k → on_task k OPH_ODB_STATUS_COMPLETED nt → n_status nt = OPH_ODB_STATUS_COMPLETED → reliable m →
      process_notification auto missing saved fuel nt OPH_ODB_STATUS_COMPLETED oj mj wf m = Ok (Next (wf1, f)) m1 → final f = false →
      next_tasks (Z.of_nat k) wf1 f m1 = Ok l m2 → execute wf1 l m2 = Ok (Next (wf2, rqs)) m3 → served rqs →
      successful_run (dn ++ [k]) wf2 false
  | run_final dn wf k nt missing saved oj mj m wf1 f m1 :
      successful_run dn wf false → active wf k → on_task k OPH_ODB_STATUS_COMPLETED nt → n_status nt = OPH_ODB_STATUS_COMPLETED → reliable m →
      process_notification auto missing saved fuel nt OPH_ODB_STATUS_COMPLETED oj mj wf m = Ok (Next (wf1, f)) m1 → final f = true →
      successful_run (dn ++ [k]) wf1 true.

Context (Hmassive : ∀ i wf, check_massive i wf = (0, wf, false)) (Hsetup : set_up wf0).

(** Every completed task comes after the tasks it depends on. *)
Definition ordered (dn : list nat) : Prop := ∀ l1 k l2 j, dn = l1 ++ k :: l2 → depends ts0 n j k → j ∈ l1.

Definition mask (dn : list nat) (x : Z) : Z := if decide (x ∈ Z.of_nat <$> dn) then -1 else x.

(** The status of a task, given the tasks that are completed. *)
Definition status_ok (dn : list nat) (i : nat) (st : Z) : Prop :=
  if decide (i ∈ dn) then st = OPH_ODB_STATUS_COMPLETED
  else if decide (Forall (λ x, x ∈ Z.of_nat <$> dn) (ins ts0 i)) then OPH_ODB_STATUS_UNKNOWN < st < OPH_ODB_STATUS_COMPLETED
  else st = OPH_ODB_STATUS_UNKNOWN.

Record inv (dn : list nat) (wf : oph_workflow) (fin : bool) ds s o : Prop := {
  in_view : view ts0 n wf ds s o wf;
  in_core : core wf = (n, Z.of_nat (n - length dn), wf_status wf);
  in_done : NoDup dn ∧ Forall (λ i, (i < n)%nat) dn ∧ ordered dn;
  in_fin : fin = bool_decide (length dn = n);
  in_end : if fin then wf_status wf = OPH_ODB_STATUS_COMPLETED else wf_status wf < OPH_ODB_STATUS_COMPLETED;
  in_deps : ∀ i, (i < n)%nat → (task_index <$> ds i) = (mask dn <$> ins ts0 i) ∧ Forall dep_ok (ds i);
  in_status : ∀ i, (i < n)%nat → status_ok dn i (s i);
  in_outputs : ∀ i, (i < n)%nat → i ∉ dn → o i = [];
}.

Lemma run_hops : ∀ i t, (i < n)%nat → ts0 !! i = Some t →
  is_Some (operator t) ∧ is_Some (name t) ∧ Forall (λ d, 0 ≤ d < Z.of_nat n) (dependents_indexes t).
Proof.
  intros i t Hi Ht. destruct (wa_named _ (su_task _ Hsetup i t Hi Ht)) as [? ?]. split_and!; [done..|].
  pose proof (ix_outs _ _ (su_indexed _ Hsetup) i Hi) as Ho. by rewrite (proj2 (ins_outs_task _ _ _ Ht)) in Ho.
Qed.

Lemma ins_range i x : (i < n)%nat → x ∈ ins ts0 i → ∃ k, x = Z.of_nat k ∧ (k < n)%nat.
Proof.
  intros Hi Hx. pose proof (ix_ins _ _ (su_indexed _ Hsetup) i Hi) as H. rewrite Forall_forall in H. apply H in Hx. exists (Z.to_nat x). lia.
Qed.

Lemma open_mask dn i ds :
  (i < n)%nat → (task_index <$> ds) = (mask dn <$> ins ts0 i) → open_deps ds = 0%nat ↔ Forall (λ x, x ∈ Z.of_nat <$> dn) (ins ts0 i).
Proof.
  intros Hi E. unfold open_deps. rewrite E. pose proof (ins_range i) as Hr. generalize dependent (ins ts0 i). intros l _ Hr.
  assert (∀ x, x ∈ l → x ≠ -1) as Hl by (intros x Hx; destruct (Hr x Hi Hx) as (k & -> & _); lia). clear Hr.
  induction l as [|x l IH]; [done|]. rewrite fmap_cons, Forall_cons. cbn [WfSetup.live].
  rewrite <-IH by (intros; apply Hl; by right). specialize (Hl x ltac:(left)). destruct (decide (x ∈ Z.of_nat <$> dn)).
  - assert (mask dn x = -1) as -> by (unfold mask; by rewrite decide_True). rewrite decide_True by done. cbn [Nat.add]. tauto.
  - assert (mask dn x = x) as -> by (unfold mask; by rewrite decide_False). rewrite decide_False by done. split; [lia|tauto].
Qed.

Lemma mask_snoc dn k x : mask (dn ++ [k]) x = if decide (mask dn x = Z.of_nat k) then -1 else mask dn x.
Proof.
  unfold mask. destruct (decide (x ∈ Z.of_nat <$> dn)) as [H|H].
  - rewrite decide_True by (rewrite fmap_app; set_solver). by rewrite decide_False by lia.
  - destruct (decide (x = Z.of_nat k)) as [-> |Hne]; [by rewrite decide_True by (rewrite fmap_app; set_solver)|].
    rewrite decide_False; [done|]. rewrite fmap_app. set_solver.
Qed.
(** *** The steps of a run *)

Lemma independent_done i : (i < n)%nat → Forall (λ x, x ∈ Z.of_nat <$> []) (ins ts0 i) ↔ i ∈ independent ts0 n.
Proof.
  intros Hi. unfold independent. rewrite list_elem_of_filter, elem_of_seq. destruct (ins ts0 i); [split; [split; [done|lia]|done]|].
  rewrite Forall_cons. split; [intros [H _]; by apply elem_of_nil in H|by intros [? _]].
Qed.

Lemma view_start : view ts0 n wf0 (λ i, from_option deps [] (ts0 !! i)) (λ _, OPH_ODB_STATUS_UNKNOWN) (λ _, []) wf0.
Proof.
  split; [by destruct wf0|apply Hsetup|apply Hsetup|]. intros i Hi. pose proof (su_length _ Hsetup).
  destruct (lookup_lt_is_Some_2 ts0 i) as [t Ht]; [lia|]. destruct (su_task _ Hsetup i t Hi Ht) as [Hn Ha [Hd Hr] [Hs Ho] Hp].
  exists t, t. rewrite Ht. simpl. split_and!; try done. rewrite Hr. f_equal. unfold open_deps.
  pose proof (ins_range i) as Hin. rewrite (proj1 (ins_outs_task _ _ _ Ht)) in Hin. assert (∀ x, x ∈ task_index <$> deps t → x ≠ -1) as Hl.
  { intros x Hx. destruct (Hin x Hi Hx) as (k & -> & _). lia. }
  clear -Hl. induction (deps t) as [|d l IH]; [done|]. rewrite fmap_cons in *. cbn [WfSetup.live length]. rewrite decide_False by (apply Hl; left).
  rewrite <-IH; [done|]. intros x Hx. apply Hl. by right.
Qed.

Lemma inv_start m l m1 wf rqs m2 :
  initial_indexes ts0 n m = Ok l m1 → execute wf0 l m1 = Ok (Next (wf, rqs)) m2 → served rqs → ∃ ds s o, inv [] wf false ds s o.
Proof.
  intros Hl He Hs. pose proof (ix_length _ _ (su_indexed _ Hsetup)) as Hlen.
  pose proof (initial_indexes_spec ts0 n m Hlen) as Hspec. unfold wp in Hspec. rewrite Hl in Hspec. destruct Hspec as [_ ->].
  eapply (partly_execute ts0 n run_hops _ _ _ _ _ _ _ _ _ Hmassive _ _ _ _ _ _ view_start eq_refl) in He; [| |apply Hsetup].
  2: { apply Forall_forall. intros i Hi. apply list_elem_of_filter in Hi as [_ Hi]. apply elem_of_seq in Hi. lia. }
  specialize (He Hs). simpl in He. apply view_core in He as Hc. apply view_core_self in He.
  set (ds := λ i, from_option deps [] (ts0 !! i)) in *.
  assert (∀ i, (i < n)%nat → (task_index <$> ds i) = (mask [] <$> ins ts0 i) ∧ Forall dep_ok (ds i)) as Hds.
  { intros i Hi. unfold ds. destruct (lookup_lt_is_Some_2 ts0 i) as [t Ht]; [lia|]. rewrite Ht. simpl. split; [|by apply (wa_deps _ (su_task _ Hsetup i t Hi Ht))].
    rewrite (proj1 (ins_outs_task _ _ _ Ht)). rewrite <-(list_fmap_id (task_index <$> deps t)) at 1. apply list_fmap_ext. intros ? x _. done. }
  assert (wf_status wf = wf_status wf0) as Hws by (unfold core in Hc; congruence).
  eexists _, _, _. split; [exact He|..].
  - rewrite Hc, Hws. unfold core. rewrite (su_residual _ Hsetup). simpl. by rewrite Nat.sub_0_r.
  - split_and!; [constructor|constructor|]. by intros [] ? ? ?.
  - rewrite bool_decide_eq_false_2; [done|]. pose proof (su_num _ Hsetup). simpl. lia.
  - rewrite Hws. apply Hsetup.
  - exact Hds.
  - intros i Hi. unfold status_ok, starts. rewrite decide_False by apply not_elem_of_nil. pose proof (open_mask [] i (ds i) Hi (proj1 (Hds i Hi))) as Hom.
    destruct (decide (Forall _ _)) as [Hf|Hf].
    + rewrite decide_True; [done|]. split_and!; [by apply independent_done|by apply Hom|done].
    + by rewrite decide_False by tauto.
  - done.
Qed.
Lemma gives_elim {A} (c : C (ctl A stop)) P m x m' : gives c P m → c m = Ok (Next x) m' → P x ∧ reliable m'.
Proof. unfold gives, wp. intros H E. rewrite E in H. destruct H as (? & a & [= <-] & ?). done. Qed.

Lemma active_status dn wf ds s o k : inv dn wf false ds s o → active wf k → (k < n)%nat ∧ OPH_ODB_STATUS_UNKNOWN < s k < OPH_ODB_STATUS_COMPLETED.
Proof.
  intros Hi (t & Hk & Ht & Hs). split; [done|]. destruct (v_task _ _ _ _ _ _ _ (in_view _ _ _ _ _ _ Hi) k Hk) as (t0 & t' & _ & Ht' & _ & _ & _ & Hs' & _).
  rewrite Ht in Ht'. injection Ht' as <-. by rewrite <-Hs'.
Qed.

(** The tasks an active task depends on are completed, and it is not. *)
Lemma active_ready dn k st :
  status_ok dn k st → OPH_ODB_STATUS_UNKNOWN < st < OPH_ODB_STATUS_COMPLETED → k ∉ dn ∧ Forall (λ x, x ∈ Z.of_nat <$> dn) (ins ts0 k).
Proof. unfold status_ok. repeat case_decide; intros; [lia|done|lia]. Qed.

Lemma inv_on dn wf ds s o k nt missing saved oj mj m wf' f m' :
  inv dn wf false ds s o → active wf k → on_task k OPH_ODB_STATUS_RUNNING nt → reliable m →
  process_notification auto missing saved fuel nt OPH_ODB_STATUS_RUNNING oj mj wf m = Ok (Next (wf', f)) m' →
  inv dn wf' false ds (<[k := n_status nt]> s) o.
Proof.
  intros Hi Ha (Hnt & Hli & Hst & _) Hm Hp. destruct (active_status _ _ _ _ _ _ Hi Ha) as [Hk Hsk].
  eapply gives_elim in Hp; [|by eapply gives_running; [apply Hi|..]]. destruct Hp as [(Hv & Hn & Hr & Hws & _) _]. simpl in *.
  destruct Hi as [Hv0 Hc Hd Hfi He Hds Hs Ho]. injection Hc as Hc1 Hc2.
  assert (OPH_ODB_STATUS_UNKNOWN < n_status nt < OPH_ODB_STATUS_COMPLETED) as Hnew.
  { clear -Hst. unfold canonical_status in Hst. unfold OPH_ODB_STATUS_PENDING, OPH_ODB_STATUS_RUNNING, OPH_ODB_STATUS_COMPLETED, OPH_ODB_STATUS_ERROR,
      OPH_ODB_STATUS_WAIT, OPH_ODB_STATUS_START, OPH_ODB_STATUS_UNSET_ENV, OPH_ODB_STATUS_UNKNOWN in *.
    destruct ((_ =? _) || _ || _ || _) eqn:E1; [injection Hst as ->; lia|]. destruct ((_ =? 2) || _) eqn:E2; [lia|].
    repeat case_match; discriminate. }
  split; [exact Hv| |done|done| |done| |done].
  - unfold core. by rewrite Hn, Hr, Hc1, Hc2.
  - rewrite Hws. unfold OPH_ODB_STATUS_RUNNING, OPH_ODB_STATUS_COMPLETED in *. lia.
  - intros i Hin. destruct (decide (i = k)) as [-> |Hne]; [|rewrite fn_lookup_insert_ne by done; by apply Hs]. rewrite fn_lookup_insert.
    destruct (active_ready _ _ _ (Hs k Hk) Hsk) as [Hnd Hall]. unfold status_ok. by rewrite decide_False, decide_True.
Qed.
(** *** Completions *)

Lemma done_submseteq dn : NoDup dn → Forall (λ i, (i < n)%nat) dn → dn ⊆+ seq 0 n.
Proof. intros Hnd Hall. apply NoDup_submseteq; [done|]. intros x Hx. rewrite Forall_forall in Hall. apply elem_of_seq. specialize (Hall x Hx). lia. Qed.

Lemma done_all dn i : NoDup dn → Forall (λ i, (i < n)%nat) dn → length dn = n → (i < n)%nat → i ∈ dn.
Proof.
  intros Hnd Hall Hlen Hi. rewrite (submseteq_length_Permutation dn (seq 0 n)).
  - apply elem_of_seq. lia.
  - by apply done_submseteq.
  - rewrite length_seq. lia.
Qed.

(** What holds between the notification of a completed task and the execution of its dependents. *)
Record mid (dn : list nat) (k : nat) (s : nat → Z) (wf : oph_workflow) (f : flags) ds o : Prop := {
  mi_view : view ts0 n wf ds (<[k := OPH_ODB_STATUS_COMPLETED]> s) o wf;
  mi_core : core wf = (n, Z.of_nat (n - length (dn ++ [k])), wf_status wf);
  mi_done : NoDup (dn ++ [k]) ∧ Forall (λ i, (i < n)%nat) (dn ++ [k]) ∧ ordered (dn ++ [k]);
  mi_flags : final f = bool_decide (length (dn ++ [k]) = n) ∧ task_completed f = true ∧ update_wf_data f ≠ 0 ∧ retry_task_execution f = false;
  mi_end : if final f then wf_status wf = OPH_ODB_STATUS_COMPLETED else wf_status wf < OPH_ODB_STATUS_COMPLETED;
  mi_deps : ∀ i, (i < n)%nat → (task_index <$> ds i) = (mask (dn ++ [k]) <$> ins ts0 i) ∧ Forall dep_ok (ds i);
  mi_outputs : ∀ i, (i < n)%nat → i ∉ dn ++ [k] → o i = [];
}.

Lemma done_snoc dn wf ds s o k :
  inv dn wf false ds s o → active wf k → NoDup (dn ++ [k]) ∧ Forall (λ i, (i < n)%nat) (dn ++ [k]) ∧ ordered (dn ++ [k]) ∧ (length dn < n)%nat.
Proof.
  intros Hi Ha. destruct (active_status _ _ _ _ _ _ Hi Ha) as [Hk Hsk]. destruct (in_done _ _ _ _ _ _ Hi) as (Hnd & Hall & Hord).
  destruct (active_ready _ _ _ (in_status _ _ _ _ _ _ Hi k Hk) Hsk) as [Hkd Hins].
  assert (NoDup (dn ++ [k])) as Hnd' by (apply NoDup_app; split; [done|]; split; [set_solver|apply NoDup_singleton]).
  assert (Forall (λ i, (i < n)%nat) (dn ++ [k])) as Hall' by (apply Forall_app; split; [done|by apply Forall_singleton]).
  split_and!; [done|done| |].
  - intros l1 x l2 j E Hdep. destruct l2 as [|y l2 _] using rev_ind.
    + apply app_inj_tail in E as [-> ->]. destruct Hdep as (_ & _ & Hin). rewrite Forall_forall in Hins. apply Hins in Hin.
      apply list_elem_of_fmap in Hin as (j' & Hj & ?). by assert (j = j') as -> by lia.
    + rewrite app_comm_cons, app_assoc in E. apply app_inj_tail in E as [-> _]. by eapply Hord.
  - apply done_submseteq, submseteq_length in Hnd'; [|done]. rewrite length_seq, length_app in Hnd'. simpl in Hnd'. lia.
Qed.

Lemma deps_snoc dn k i ds :
  (i < n)%nat → (k < n)%nat → (∀ i, (i < n)%nat → (task_index <$> ds i) = (mask dn <$> ins ts0 i) ∧ Forall dep_ok (ds i)) →
  (task_index <$> discharged ts0 k ds i) = (mask (dn ++ [k]) <$> ins ts0 i) ∧ Forall dep_ok (discharged ts0 k ds i).
Proof.
  intros Hi Hk Hds. destruct (Hds i Hi) as [E Hok]. pose proof (ix_length _ _ (su_indexed _ Hsetup)).
  destruct (lookup_lt_is_Some_2 ts0 k) as [t Ht]; [lia|]. unfold discharged. rewrite Ht.
  assert ((mask (dn ++ [k]) <$> ins ts0 i) = (task_index ∘ clear_on k <$> ds i)) as ->.
  { transitivity ((λ x, if decide (x = Z.of_nat k) then -1 else x) <$> (mask dn <$> ins ts0 i)).
    - rewrite <-list_fmap_compose. apply list_fmap_ext. intros ? x _. simpl. apply mask_snoc.
    - rewrite <-E, <-list_fmap_compose. apply list_fmap_ext. intros ? d _. unfold compose, clear_on. destruct (Z.eqb_spec (task_index d) (Z.of_nat k)); case_decide; done. }
  case_decide as Hin; [split; [by rewrite <-list_fmap_compose|apply Forall_fmap; eapply Forall_impl; [exact Hok|]; intros; by apply clear_on_ok]|].
  split; [|done]. apply list_fmap_ext. intros j d Hd. unfold compose, clear_on. destruct (Z.eqb_spec (task_index d) (Z.of_nat k)) as [Ek|]; [|done].
  exfalso. apply Hin. rewrite <-(proj2 (ins_outs_task _ _ _ Ht)). apply cnt_pos. rewrite <-(ix_dual _ _ (su_indexed _ Hsetup)) by done. apply cnt_pos.
  assert (task_index d ∈ mask dn <$> ins ts0 i) as Hm by (rewrite <-E; apply list_elem_of_fmap_2; by eapply list_elem_of_lookup_2).
  apply list_elem_of_fmap in Hm as (x & Hx & Hxin). unfold mask in Hx. case_decide; [lia|]. congruence.
Qed.

Lemma gives_mid dn wf ds s o k nt missing saved oj mj m :
  inv dn wf false ds s o → active wf k → on_task k OPH_ODB_STATUS_COMPLETED nt → n_status nt = OPH_ODB_STATUS_COMPLETED → reliable m →
  gives (process_notification auto missing saved fuel nt OPH_ODB_STATUS_COMPLETED oj mj wf) (λ x, ∃ ds' o', mid dn k s x.1 x.2 ds' o') m.
Proof.
  intros Hi Ha (Hnt & Hli & _ & Hout) Hst Hm. destruct (active_status _ _ _ _ _ _ Hi Ha) as [Hk Hsk].
  destruct (done_snoc _ _ _ _ _ _ Hi Ha) as (Hnd' & Hall' & Hord' & Hlen). destruct (active_ready _ _ _ (in_status _ _ _ _ _ _ Hi k Hk) Hsk) as [Hkd _].
  pose proof Hi as [Hv Hc Hd Hfi He Hds Hs Ho]. set (r := (n - length (dn ++ [k]))%nat). assert (length (dn ++ [k]) = S (length dn)) as Hl by (rewrite length_app; simpl; lia).
  eapply gives_mono.
  { eapply (gives_completed ts0 n run_hops auto missing saved fuel nt oj mj wf ds s o k r); try done; [| |].
    - rewrite Hc. repeat f_equal. lia.
    - by apply Ho.
    - intros i Hin. by apply Hds. }
  intros [wf1 f] [(outs' & Hok & Hv1) (Hc1 & Hf & Htc & Hup & Hre)]. simpl in *. exists (discharged ts0 k ds), (<[k := outs']> o).
  assert (bool_decide (r = 0%nat) = bool_decide (length (dn ++ [k]) = n)) as Eb by (apply bool_decide_ext; lia).
  assert (wf_status wf1 = if decide (r = 0%nat) then OPH_ODB_STATUS_COMPLETED else wf_status wf) as Hws by (unfold core in Hc1; congruence).
  split; [done| |done| | | |].
  - by rewrite Hws.
  - split_and!; [congruence|done..].
  - rewrite Hf, Hws. case_bool_decide; [by rewrite decide_True|by rewrite decide_False].
  - intros i Hin. by apply deps_snoc.
  - intros i Hin Hnin. rewrite fn_lookup_insert_ne by set_solver. apply Ho; [done|set_solver].
Qed.
(** The statuses after a completion: those of the completed tasks, of the tasks it made ready and of the others. *)
Lemma status_starts dn k s ds l i :
  (∀ i, (i < n)%nat → (task_index <$> ds i) = (mask (dn ++ [k]) <$> ins ts0 i) ∧ Forall dep_ok (ds i)) →
  (∀ i, (i < n)%nat → status_ok dn i (s i)) → (i < n)%nat → (∀ i, (i < n)%nat → Z.of_nat k ∈ ins ts0 i → i ∈ l) →
  status_ok (dn ++ [k]) i (starts l ds (<[k := OPH_ODB_STATUS_COMPLETED]> s) i).
Proof.
  intros Hds Hs Hi Hl. pose proof (open_mask (dn ++ [k]) i (ds i) Hi (proj1 (Hds i Hi))) as Hom. unfold starts.
  destruct (decide (i = k)) as [-> |Hne].
  { unfold status_ok. rewrite decide_True by set_solver. rewrite fn_lookup_insert. by rewrite decide_False by (intros (_ & _ & ?); done). }
  rewrite fn_lookup_insert_ne by done. specialize (Hs i Hi). unfold status_ok in *. destruct (decide (i ∈ dn)) as [Hd|Hd].
  { rewrite decide_True by set_solver. rewrite decide_False; [done|]. rewrite Hs. by intros (_ & _ & ?). }
  rewrite (decide_False (P := i ∈ dn ++ [k])) by set_solver.
  destruct (decide (Forall (λ x, x ∈ Z.of_nat <$> dn) (ins ts0 i))) as [Hf|Hf].
  - rewrite (decide_True (P := Forall _ _)); [|eapply Forall_impl; [exact Hf|]; intros x Hx; rewrite fmap_app; set_solver].
    rewrite decide_False; [done|]. unfold OPH_ODB_STATUS_UNKNOWN in *. lia.
  - destruct (decide (Forall (λ x, x ∈ Z.of_nat <$> dn ++ [k]) (ins ts0 i))) as [Hf'|Hf'].
    + rewrite decide_True; [done|]. split_and!; [|by apply Hom|done]. apply Hl; [done|].
      apply not_Forall_Exists, Exists_exists in Hf; [|apply _]. destruct Hf as (x & Hx & Hxn). rewrite Forall_forall in Hf'. specialize (Hf' x Hx).
      rewrite fmap_app in Hf'. assert (x = Z.of_nat k) as <- by set_solver. done.
    + rewrite decide_False by tauto. done.
Qed.

Lemma mid_inv dn k s wf f ds o wf' l :
  mid dn k s wf f ds o → (∀ i, (i < n)%nat → status_ok dn i (s i)) → (∀ i, (i < n)%nat → Z.of_nat k ∈ ins ts0 i → i ∈ l) →
  view ts0 n wf ds (starts l ds (<[k := OPH_ODB_STATUS_COMPLETED]> s)) o wf' →
  inv (dn ++ [k]) wf' (final f) ds (starts l ds (<[k := OPH_ODB_STATUS_COMPLETED]> s)) o.
Proof.
  intros [Hv Hc Hd (Hf & _) He Hds Ho] Hs Hl Hv'. apply view_core in Hv' as Hc'. apply view_core_self in Hv'.
  assert (wf_status wf' = wf_status wf) as Hws by (unfold core in Hc'; congruence).
  split; [done| |done|done| |done| |done].
  - by rewrite Hc', Hc, Hws.
  - by rewrite Hws.
  - intros i Hi. by apply status_starts.
Qed.

(** Once all tasks are completed none is left to be started. *)
Lemma mid_final dn k s wf f ds o :
  mid dn k s wf f ds o → (∀ i, (i < n)%nat → status_ok dn i (s i)) → final f = true →
  inv (dn ++ [k]) wf true ds (<[k := OPH_ODB_STATUS_COMPLETED]> s) o.
Proof.
  intros Hm Hs Hf. pose proof Hm as [Hv Hc (Hnd & Hall & Hord) (Ef & _) He Hds Ho]. rewrite Hf in *. symmetry in Ef. apply bool_decide_eq_true in Ef.
  split; [done|done|done| |done|done| |done].
  - by rewrite bool_decide_eq_true_2.
  - intros i Hi. assert (i ∈ dn ++ [k]) as Hin by (by apply done_all). unfold status_ok. rewrite decide_True by done.
    destruct (decide (i = k)) as [-> |]; [by rewrite fn_lookup_insert|]. rewrite fn_lookup_insert_ne by done. specialize (Hs i Hi). unfold status_ok in Hs.
    by rewrite decide_True in Hs by set_solver.
Qed.

Lemma run_inv dn wf fin : successful_run dn wf fin → ∃ ds s o, inv dn wf fin ds s o.
Proof.
  induction 1 as [m l m1 wf rqs m2 Hl He Hs
    |dn wf k nt missing saved oj mj m wf' f m' Hrun (ds & s & o & IH) Ha Hon Hm Hp
    |dn wf k nt missing saved oj mj m wf1 f m1 l m2 wf2 rqs m3 Hrun (ds & s & o & IH) Ha Hon Hst Hm Hp Hf Hl He Hs
    |dn wf k nt missing saved oj mj m wf1 f m1 Hrun (ds & s & o & IH) Ha Hon Hst Hm Hp Hf].
  - by eapply inv_start.
  - eexists _, _, _. by eapply inv_on.
  - eapply gives_elim in Hp; [|by eapply gives_mid]. destruct Hp as [(ds' & o' & Hmid) _]. simpl in Hmid.
    destruct (active_status _ _ _ _ _ _ IH Ha) as [Hk _]. pose proof Hmid as [Hv Hc _ (_ & Htc & Hup & Hre) Hend _ _]. rewrite Hf in Hend.
    destruct (v_task _ _ _ _ _ _ _ Hv k Hk) as (t0 & t & Ht0 & Ht & Hfo & _). unfold next_tasks in Hl. rewrite Hre, Hf, Htc in Hl.
    rewrite (proj2 (Z.eqb_neq _ _) Hup), cell_nat, Ht in Hl. injection Hl as <- <-. rewrite (fo_dependents _ _ Hfo) in He.
    destruct (dependents_nat ts0 n run_hops k t0 Hk Ht0) as (l & El & Hln). rewrite El in He.
    eapply (partly_execute ts0 n run_hops _ _ _ _ _ _ _ _ _ Hmassive _ _ _ _ _ _ Hv) in He; [|unfold core in Hc; congruence|done|done].
    eexists _, _, _. rewrite <-Hf. eapply mid_inv; [exact Hmid|apply IH| |by apply He].
    intros i Hi Hin. apply cnt_pos in Hin. rewrite (ix_dual _ _ (su_indexed _ Hsetup)) in Hin by done. apply cnt_pos in Hin.
    rewrite (proj2 (ins_outs_task _ _ _ Ht0)), El in Hin. apply list_elem_of_fmap in Hin as (i' & ? & ?). by assert (i = i') as -> by lia.
  - eapply gives_elim in Hp; [|by eapply gives_mid]. destruct Hp as [(ds' & o' & Hmid) _]. simpl in Hmid.
    eexists _, _, _. eapply mid_final; [exact Hmid|apply IH|done].
Qed.
Lemma ready_depends (dn : list nat) i : (i < n)%nat → Forall (λ x, x ∈ Z.of_nat <$> dn) (ins ts0 i) ↔ ∀ j, depends ts0 n j i → j ∈ dn.
Proof.
  intros Hi. rewrite Forall_forall. split.
  - intros H j (_ & _ & Hj). apply H, list_elem_of_fmap in Hj as (j' & ? & ?). by assert (j = j') as -> by lia.
  - intros H x Hx. destruct (ins_range i x Hi Hx) as (k & -> & Hk). apply list_elem_of_fmap_2. by apply H.
Qed.

(** Some task that is not completed depends on completed tasks only. *)
Lemma active_exists dn wf ds s o : inv dn wf false ds s o → length dn ≠ n → ∃ k, active wf k.
Proof.
  intros Hi Hlen. destruct (in_done _ _ _ _ _ _ Hi) as (Hnd & Hall & _).
  assert (∃ i, (i < n)%nat ∧ i ∉ dn) as (i & Hin & Hid).
  { destruct (decide (Forall (λ i, i ∈ dn) (seq 0 n))) as [Ha|Ha].
    - exfalso. apply Hlen. apply Nat.le_antisymm; [apply done_submseteq, submseteq_length in Hnd; [by rewrite length_seq in Hnd|done]|].
      rewrite <-(length_seq n 0) at 1. apply submseteq_length, NoDup_submseteq; [apply NoDup_seq|]. intros x Hx. rewrite Forall_forall in Ha. by apply Ha.
    - apply not_Forall_Exists, Exists_exists in Ha as (i & Hx & Hn); [|apply _]. exists i. apply elem_of_seq in Hx. split; [lia|done]. }
  induction (acyclic_sn ts0 n (su_acyclic _ Hsetup) i) as [i _ IH].
  destruct (decide (Forall (λ x, x ∈ Z.of_nat <$> dn) (ins ts0 i))) as [Hf|Hf].
  - exists i. destruct (v_task _ _ _ _ _ _ _ (in_view _ _ _ _ _ _ Hi) i Hin) as (t0 & t & _ & Ht & _ & _ & _ & Hs & _). exists t. split_and!; [done|done|..];
      rewrite Hs; pose proof (in_status _ _ _ _ _ _ Hi i Hin) as Hok; unfold status_ok in Hok; rewrite decide_False, decide_True in Hok by done; apply Hok.
  - apply not_Forall_Exists, Exists_exists in Hf as (x & Hx & Hn); [|apply _]. destruct (ins_range i x Hin Hx) as (k & -> & Hk).
    apply (IH k); [by split_and!|done|]. intros Hkd. by apply Hn, list_elem_of_fmap_2.
Qed.

(** C2: Invariant of successful runs, in which every request is taken by the resource manager, every task is reported
    completed (perhaps running before), no operation is massive and no flow control operator acts on the workflow
    between two reports (no branch is unselected, no loop body started again), of a workflow that was set up: the
    tasks are completed once each, after the tasks they depend on; a task is submitted and not over exactly when all
    the tasks it depends on are completed and it is not; its status is COMPLETED exactly when it was reported; and
    residual_tasks_num is the number of tasks left. *)
Theorem run_order dn wf fin :
  successful_run dn wf fin →
  NoDup dn ∧ ordered dn ∧ residual_tasks_num wf = Z.of_nat (n - length dn) ∧
  ∀ i t, (i < n)%nat → tasks wf !! i = Some t →
    (status t = OPH_ODB_STATUS_COMPLETED ↔ i ∈ dn) ∧ (active wf i ↔ i ∉ dn ∧ ∀ j, depends ts0 n j i → j ∈ dn).
Proof.
  intros (ds & s & o & Hi)%run_inv. destruct (in_done _ _ _ _ _ _ Hi) as (Hnd & Hall & Hord). split; [done|]. split; [done|].
  pose proof (in_core _ _ _ _ _ _ Hi) as Hc. unfold core in Hc. split; [congruence|]. intros i t Hin Ht.
  destruct (v_task _ _ _ _ _ _ _ (in_view _ _ _ _ _ _ Hi) i Hin) as (t0 & t' & _ & Ht' & _ & _ & _ & Hs & _). rewrite Ht in Ht'. injection Ht' as <-.
  pose proof (in_status _ _ _ _ _ _ Hi i Hin) as Hok. rewrite <-Hs in Hok. rewrite <-(ready_depends dn i Hin). unfold status_ok in Hok.
  assert (active wf i ↔ OPH_ODB_STATUS_UNKNOWN < status t < OPH_ODB_STATUS_COMPLETED) as -> by (unfold active; naive_solver).
  unfold OPH_ODB_STATUS_UNKNOWN, OPH_ODB_STATUS_COMPLETED in *. repeat case_decide; split; split; try tauto; try lia.
Qed.

(** The tasks that a completion hands to the execution and that the execution takes, being without residual dependencies
    and not started, are the tasks it made ready. *)
Lemma mid_next dn k s wf f ds o m :
  (∀ i, (i < n)%nat → status_ok dn i (s i)) → OPH_ODB_STATUS_UNKNOWN < s k < OPH_ODB_STATUS_COMPLETED → (k < n)%nat →
  NoDup dn ∧ Forall (λ i, (i < n)%nat) dn ∧ ordered dn → mid dn k s wf f ds o → final f = false →
  ∃ l, next_tasks (Z.of_nat k) wf f m = Ok (Z.of_nat <$> l) m ∧ ∀ i t, (i < n)%nat → tasks wf !! i = Some t →
    (i ∈ l ∧ residual_deps_num t = 0 ∧ status t = OPH_ODB_STATUS_UNKNOWN) ↔
    ¬ (∀ j, depends ts0 n j i → j ∈ dn) ∧ (∀ j, depends ts0 n j i → j ∈ dn ++ [k]).
Proof.
  intros Hs Hsk Hk (_ & _ & Hord) [Hv _ _ (_ & Htc & Hup & Hre) _ Hds _] Hf. destruct (v_task _ _ _ _ _ _ _ Hv k Hk) as (t0 & t & Ht0 & Ht & Hfo & _).
  destruct (dependents_nat ts0 n run_hops k t0 Hk Ht0) as (l & El & Hln). exists l. unfold next_tasks.
  rewrite Hre, Hf, Htc, (proj2 (Z.eqb_neq _ _) Hup), cell_nat, Ht. split; [rewrite <-El, <-(fo_dependents _ _ Hfo); done|]. intros i ti Hi Hti.
  destruct (v_task _ _ _ _ _ _ _ Hv i Hi) as (t1 & t2 & _ & Ht2 & _ & _ & Hr & Hst & _). rewrite Hti in Ht2. injection Ht2 as <-.
  assert (i ∈ l ↔ Z.of_nat k ∈ ins ts0 i) as ->.
  { rewrite <-cnt_pos, (ix_dual _ _ (su_indexed _ Hsetup)), cnt_pos, (proj2 (ins_outs_task _ _ _ Ht0)), El by done.
    rewrite list_elem_of_fmap. split; [by exists i|]. intros (i' & ? & ?). by assert (i = i') as -> by lia. }
  rewrite Hr, Hst, <-!ready_depends by done.
  assert (Z.of_nat (open_deps (ds i)) = 0 ↔ Forall (λ x, x ∈ Z.of_nat <$> dn ++ [k]) (ins ts0 i)) as ->
    by (rewrite <-(open_mask (dn ++ [k]) i (ds i) Hi (proj1 (Hds i Hi))); lia).
  destruct (active_ready _ _ _ (Hs k Hk) Hsk) as [_ Hready]. specialize (Hs i Hi). unfold status_ok in Hs.
  destruct (decide (i = k)) as [-> |Hne]; [rewrite fn_lookup_insert; split; [by intros (_ & _ & ?)|tauto]|]. rewrite fn_lookup_insert_ne by done. split.
  - intros (_ & Ha & E). split; [|done]. intros Hb. rewrite E in Hs. rewrite (decide_True (P := Forall _ _)) in Hs by done. case_decide; unfold OPH_ODB_STATUS_UNKNOWN in *; [done|lia].
  - intros [Hb Ha]. rewrite (decide_False (P := Forall _ _)) in Hs by done. split_and!; [|done|].
    + apply not_Forall_Exists, Exists_exists in Hb as (x & Hx & Hxn); [|apply _]. rewrite Forall_forall in Ha. specialize (Ha x Hx).
      rewrite fmap_app in Ha. by assert (x = Z.of_nat k) as <- by set_solver.
    + case_decide as Hd; [|done]. exfalso. apply Hb, ready_depends; [done|]. intros j Hj. apply list_elem_of_split in Hd as (l1 & l2 & ->). apply elem_of_app. left. by eapply Hord.
Qed.

Lemma run_takes_completed dn wf k nt missing saved oj mj m :
  successful_run dn wf false → active wf k → on_task k OPH_ODB_STATUS_COMPLETED nt → n_status nt = OPH_ODB_STATUS_COMPLETED → reliable m →
  ∃ wf' f m', process_notification auto missing saved fuel nt OPH_ODB_STATUS_COMPLETED oj mj wf m = Ok (Next (wf', f)) m' ∧
    final f = bool_decide (S (length dn) = n) ∧
    (final f = false → ∃ l, next_tasks (Z.of_nat k) wf' f m' = Ok (Z.of_nat <$> l) m' ∧ ∀ i t, (i < n)%nat → tasks wf' !! i = Some t →
      (i ∈ l ∧ residual_deps_num t = 0 ∧ status t = OPH_ODB_STATUS_UNKNOWN) ↔
      ¬ (∀ j, depends ts0 n j i → j ∈ dn) ∧ (∀ j, depends ts0 n j i → j ∈ dn ++ [k])).
Proof.
  intros (ds & s & o & Hi)%run_inv Ha Hon Hst Hm. pose proof (gives_mid _ _ _ _ _ _ _ missing saved oj mj _ Hi Ha Hon Hst Hm) as Hg.
  unfold gives, wp in Hg. destruct (process_notification _ _ _ _ _ _ _ _ _ m) as [r m'| |]; try done. destruct Hg as (_ & [wf' f] & -> & ds' & o' & Hmid).
  simpl in Hmid. exists wf', f, m'. split; [done|]. split.
  - destruct (mi_flags _ _ _ _ _ _ _ Hmid) as [-> _]. apply bool_decide_ext. rewrite length_app. simpl. lia.
  - destruct (active_status _ _ _ _ _ _ Hi Ha) as [Hk Hsk]. intros Hf. eapply mid_next; [exact (in_status _ _ _ _ _ _ Hi)|exact Hsk|exact Hk|exact (in_done _ _ _ _ _ _ Hi)|exact Hmid|exact Hf].
Qed.

(** C4: In all successful runs, in which every request is taken by the resource manager, every task is reported
    completed (perhaps running before), no operation is massive and no flow control operator acts on the workflow
    between two reports (no branch is unselected, no loop body started again), as long as the run is not over some
    task is submitted, and the report that a submitted task is completed is processed without an error or undefined
    behaviour; it ends the workflow exactly when it is the last one, and otherwise hands the dependents of the task to
    the execution, of which those the execution will take (no residual dependency, not started) are exactly the tasks
    that this completion made ready. That their submission strings can be built and their requests are taken is not
    part of the statement. *)
Theorem run_progress dn wf :
  successful_run dn wf false →
  (∃ k, active wf k) ∧
  ∀ k nt missing saved oj mj m, active wf k → on_task k OPH_ODB_STATUS_COMPLETED nt → n_status nt = OPH_ODB_STATUS_COMPLETED → reliable m →
    ∃ wf' f m', process_notification auto missing saved fuel nt OPH_ODB_STATUS_COMPLETED oj mj wf m = Ok (Next (wf', f)) m' ∧
      final f = bool_decide (S (length dn) = n) ∧
      (final f = false → ∃ l, next_tasks (Z.of_nat k) wf' f m' = Ok (Z.of_nat <$> l) m' ∧ ∀ i t, (i < n)%nat → tasks wf' !! i = Some t →
        (i ∈ l ∧ residual_deps_num t = 0 ∧ status t = OPH_ODB_STATUS_UNKNOWN) ↔
        ¬ (∀ j, depends ts0 n j i → j ∈ dn) ∧ (∀ j, depends ts0 n j i → j ∈ dn ++ [k])).
Proof.
  intros Hrun. split; [|intros; by eapply run_takes_completed]. destruct (run_inv _ _ _ Hrun) as (ds & s & o & Hi).
  pose proof (in_fin _ _ _ _ _ _ Hi) as Hf. symmetry in Hf. apply bool_decide_eq_false in Hf. by eapply active_exists.
Qed.

(** A run that is over completed every task: the completed tasks are all the tasks, none is left, and
    the status of the workflow is COMPLETED. *)
Theorem run_ends dn wf :
  successful_run dn wf true →
  dn ≡ₚ seq 0 n ∧ residual_tasks_num wf = 0 ∧ wf_status wf = OPH_ODB_STATUS_COMPLETED ∧
  ∀ i t, (i < n)%nat → tasks wf !! i = Some t → status t = OPH_ODB_STATUS_COMPLETED ∧ residual_deps_num t = 0.
Proof.
  intros (ds & s & o & Hi)%run_inv. pose proof Hi as [Hv Hc (Hnd & Hall & Hord) Hf He Hds Hs Ho]. symmetry in Hf. apply bool_decide_eq_true in Hf.
  split; [apply submseteq_length_Permutation; [by apply done_submseteq|rewrite length_seq; lia]|]. unfold core in Hc.
  split; [assert (residual_tasks_num wf = Z.of_nat (n - length dn)) as -> by congruence; lia|]. split; [done|]. intros i t Hin Ht.
  destruct (v_task _ _ _ _ _ _ _ Hv i Hin) as (t0 & t' & _ & Ht' & _ & _ & Hr & Hst & _). rewrite Ht in Ht'. injection Ht' as <-. split.
  - rewrite Hst. specialize (Hs i Hin). unfold status_ok in Hs. by rewrite decide_True in Hs by (by apply done_all).
  - rewrite Hr. assert (open_deps (ds i) = 0%nat) as ->; [|done]. apply (open_mask dn i (ds i) Hin (proj1 (Hds i Hin))).
    apply Forall_forall. intros x Hx. destruct (ins_range i x Hin Hx) as (k & -> & Hk). apply list_elem_of_fmap_2. by apply done_all.
Qed.
(** C38: A second report of a completed task that had no outputs counts like the report of another task: one task less is left, and the
    workflow ends when its last but one task was completed. *)
Theorem completed_twice dn wf k t nt missing saved oj mj m :
  successful_run dn wf false → k ∈ dn → tasks wf !! k = Some t → outputs t = [] → on_task k OPH_ODB_STATUS_COMPLETED nt → n_status nt = OPH_ODB_STATUS_COMPLETED → reliable m →
  ∃ wf' f m', process_notification auto missing saved fuel nt OPH_ODB_STATUS_COMPLETED oj mj wf m = Ok (Next (wf', f)) m' ∧
    residual_tasks_num wf' = residual_tasks_num wf - 1 ∧ final f = bool_decide (S (length dn) = n).
Proof.
  intros (ds & s & o & Hi)%run_inv Hkd Ht Hout (Hnt & Hli & _ & Hp) Hst Hm. pose proof Hi as [Hv Hc (Hnd & Hall & _) Hfi He Hds Hs Ho].
  symmetry in Hfi. apply bool_decide_eq_false in Hfi. assert (k < n)%nat as Hk by (by rewrite Forall_forall in Hall; apply Hall).
  assert (length dn ≤ n)%nat as Hle by (apply done_submseteq, submseteq_length in Hnd; [by rewrite length_seq in Hnd|done]).
  destruct (v_task _ _ _ _ _ _ _ Hv k Hk) as (t0 & t' & _ & Ht' & _ & _ & _ & _ & Hok). rewrite Ht in Ht'. injection Ht' as <-. rewrite Hout in Hok.
  pose proof (gives_completed ts0 n run_hops auto missing saved fuel nt oj mj wf ds s o k (n - S (length dn)) m Hv Hk Hnt Hli Hst) as Hg.
  unfold gives, wp in Hg. destruct (process_notification _ _ _ _ _ _ _ _ _ m) as [x m'| |].
  - destruct Hg as (_ & [wf' f] & -> & _ & Hc' & Hf & _); [rewrite Hc; repeat f_equal; lia|done|done|done|intros i Hin; by apply Hds|done|].
    exists wf', f, m'. simpl in *. unfold core in *. split; [done|]. split; [assert (residual_tasks_num wf = Z.of_nat (n - length dn)) as -> by congruence;
      assert (residual_tasks_num wf' = Z.of_nat (n - S (length dn))) as -> by congruence; lia|]. rewrite Hf. apply bool_decide_ext. lia.
  - destruct Hg; [rewrite Hc; repeat f_equal; lia|done|done|done|intros i Hin; by apply Hds|done].
  - destruct Hg; [rewrite Hc; repeat f_equal; lia|done|done|done|intros i Hin; by apply Hds|done].
Qed.
End run.

(** ** A sample *)

(** Two tasks in a chain; the second one takes the output [cube] of the first one. *)
Definition chain_arguments : list argument := [Arg (Some "level") (Some "2") []; Arg (Some "cwd") (Some "/a") []]%string.
Definition chain_dep : oph_workflow_dep := Dep (Some "cube") (Some "0") (Some "A") 0 (Some "all") None (Some "cube") (Some "0").
Definition chain_tasks : list oph_workflow_task :=
  [set_name (Some "A") (set_operator (Some "oph_list") (set_arguments chain_arguments (set_dependents_indexes [1] zero_task)));
   set_name (Some "B") (set_operator (Some "oph_list") (set_arguments chain_arguments (set_residual_deps_num 1 (set_deps [chain_dep] zero_task))));
   zero_task]%string.
Definition chain : oph_workflow :=
  set_tasks chain_tasks (set_residual_tasks_num 2 (set_tasks_num 2 (set_sessionid (Some "http://h/ophidia/sessions/123/experiment")
    (set_username (Some "me") (set_exec_mode (Some "async") zero_workflow)))))%string.

(** An environment that numbers markers and jobs and expands nothing. *)
Definition marker_of (i j : Z) : option Z := Some (i + 10).
Definition job_of (i j : Z) : option Z := Some (i + 100).
Definition not_massive (i : Z) (wf : oph_workflow) : Z * oph_workflow * bool := (0, wf, false).
Notation chain_run := (successful_run 0 marker_of job_of (λ _, 0) (Some "http://h/ophidia"%string) 10 10 0 not_massive chain).

Definition silent (k st : Z) : notification :=
  Notification (k + 100) st 1 k (-1) (k + 10) (Some "http://h/ophidia/sessions/123/experiment") None []%string.
Definition on_chain (k st : Z) : notification :=
  Notification (k + 100) st 1 k (-1) (k + 10) (Some "http://h/ophidia/sessions/123/experiment") None [(Some "cube", Some "http://h/1/5")]%string.

Lemma chain_waiting i t : (i < 2)%nat → chain_tasks !! i = Some t → waiting t.
Proof.
  intros Hi Ht. destruct i as [|[|]]; [| |lia]; simpl in Ht; injection Ht as <-.
  all: split; [split; by eexists|split; [done|repeat (apply Forall_cons; split; [by eexists|]); by apply Forall_nil]| |done|done].
  all: split; [|done]; repeat (apply Forall_cons; split; [split_and!; by eexists|]); by apply Forall_nil.
Qed.

Lemma chain_set_up : set_up chain.
Proof.
  split; [done|by eexists|done| | |done|done|intros i t Hi; by apply (chain_waiting i t Hi)].
  - split; simpl; [lia| | |].
    + intros [|[|]]; try lia; intros _; apply (bool_decide_unpack _); vm_compute; reflexivity.
    + intros [|[|]]; try lia; intros _; apply (bool_decide_unpack _); vm_compute; reflexivity.
    + intros [|[|]] [|[|]]; try lia; intros; by vm_compute.
  - assert (∀ a b, depends chain_tasks 2 a b → (a < b)%nat) as Hlt.
    { intros a [|[|]] (Ha & Hb & Hin); [|simpl in Hin; set_solver by lia|simpl in Hb; lia]. simpl in Hin. by apply elem_of_nil in Hin. }
    intros i Hi. assert (∀ a b, tc (depends chain_tasks 2) a b → (a < b)%nat) as Htc; [|apply Htc in Hi; lia].
    induction 1 as [a b H|a b c H _ IH]; [by apply Hlt|]. apply Hlt in H. lia.
Qed.

(** Evaluates the left-hand side. *)
Ltac evaluate := lazymatch goal with |- ?c = _ => let v := eval vm_compute in c in transitivity v; [vm_compute; reflexivity|reflexivity] end.

Ltac chain_step nt :=
  eexists; split; [|split];
  [eapply (run_completed _ _ _ _ _ _ _ _ _ _ [] _ 0 nt false false None None []);
    [eapply run_start with (m := []); [evaluate|evaluate|repeat constructor]|eexists; split; [simpl; lia|by split]|eassumption|done|apply reliable_nil
    |evaluate|done|evaluate|evaluate|repeat constructor]|done|].

Lemma chain_middle : ∃ wf, chain_run [0%nat] wf false ∧ status <$> tasks wf = [12; 1; 0] ∧ active chain wf 1.
Proof.
  assert (on_task 0 OPH_ODB_STATUS_COMPLETED (on_chain 0 12)) as Hon by (split_and!; [done..|apply Forall_singleton; split; by eexists]).
  chain_step (on_chain 0 12). eexists. split; [simpl; lia|]. by split.
Qed.

Lemma chain_silent : ∃ wf, chain_run [0%nat] wf false ∧ status <$> tasks wf = [12; 1; 0] ∧ ∃ t, tasks wf !! 0%nat = Some t ∧ outputs t = [].
Proof.
  assert (on_task 0 OPH_ODB_STATUS_COMPLETED (silent 0 12)) as Hon by (split_and!; [done..|by apply Forall_nil]).
  chain_step (silent 0 12). by eexists.
Qed.

(** The workflow is over although its second task is still pending. *)
Lemma completed_twice_witness : ∃ wf wf' f m', chain_run [0%nat] wf false ∧ status <$> tasks wf = [12; 1; 0] ∧
  process_notification 0 false false 10 (silent 0 12) OPH_ODB_STATUS_COMPLETED None None wf [] = Ok (Next (wf', f)) m' ∧ final f = true.
Proof.
  assert (on_task 0 OPH_ODB_STATUS_COMPLETED (silent 0 12)) as Hon by (split_and!; [done..|by apply Forall_nil]).
  destruct chain_silent as (wf & Hrun & Hst & t & Ht & Hout).
  destruct (completed_twice _ _ _ _ _ _ _ _ _ _ (λ _ _, eq_refl) chain_set_up [0%nat] wf 0 t (silent 0 12) false false None None [] Hrun
    (proj2 (list_elem_of_singleton _ _) eq_refl) Ht Hout Hon eq_refl reliable_nil) as (wf' & f & m' & E & _ & Hf).
  exists wf, wf', f, m'. split; [exact Hrun|]. split; [exact Hst|]. split; [exact E|]. rewrite Hf. reflexivity.
Defined.

Lemma chain_whole : ∃ wf, chain_run [0%nat; 1%nat] wf true.
Proof.
  assert (on_task 1 OPH_ODB_STATUS_COMPLETED (on_chain 1 12)) as Hon by (split_and!; [done..|apply Forall_singleton; split; by eexists]).
  destruct chain_middle as (wf & Hrun & Hst & Ha).
  destruct (run_takes_completed _ _ _ _ _ _ _ _ _ _ (λ _ _, eq_refl) chain_set_up _ _ 1%nat (on_chain 1 12) false false None None [] Hrun Ha Hon eq_refl reliable_nil)
    as (wf' & f & m' & E & Hf & _).
  exists wf'. by eapply (run_final _ _ _ _ _ _ _ _ _ _ [0%nat]); [exact Hrun|exact Ha|exact Hon|done|apply reliable_nil|exact E|rewrite Hf].
Qed.

Lemma run_order_witness : ∃ wf, chain_run [0%nat; 1%nat] wf true ∧ ordered chain [0%nat; 1%nat] ∧ residual_tasks_num wf = 0.
Proof.
  destruct chain_whole as [wf H]. exists wf. split; [exact H|].
  destruct (run_order _ _ _ _ _ _ _ _ _ _ (λ _ _, eq_refl) chain_set_up _ _ _ H) as (_ & Ho & Hr & _). split; [exact Ho|]. rewrite Hr. reflexivity.
Defined.

Lemma run_progress_witness : ∃ wf, chain_run [0%nat] wf false ∧ ∃ k, active chain wf k.
Proof.
  destruct chain_middle as (wf & H & _). exists wf. split; [exact H|].
  exact (proj1 (run_progress _ _ _ _ _ _ _ _ _ _ (λ _ _, eq_refl) chain_set_up _ _ H)).
Defined.

Lemma run_ends_witness : ∃ wf, chain_run [0%nat; 1%nat] wf true ∧ wf_status wf = OPH_ODB_STATUS_COMPLETED.
Proof.
  destruct chain_whole as [wf H]. exists wf. split; [exact H|].
  destruct (run_ends _ _ _ _ _ _ _ _ _ _ (λ _ _, eq_refl) chain_set_up _ _ H) as (_ & _ & He & _). exact He.
Defined.
End Runs.
