(* ===== verification/Messages.v ===== *)
(** * Messages between the execution and the notifications

    [Execute.oph_workflow_execute] prepares for every task the text that [Notify.parse_notification]
    will read, and [Execute.oph_remake_notification] changes it when the task ended at once.  This file
    shows that what is written is what is read, and what becomes of the message of a task that could
    not be submitted. *)

From Stdlib Require Ascii.
From stdpp Require Import base gmap strings numbers pretty list.
From S2P Require Import Prelude CString HashTbl Trash WfStructs WfSetup WfDag WfFlow Auth ArgParser WfVars WfSubmit WfEngine Notify Execute Runs.
Import (notations) Stdlib.Strings.Ascii.
Import WfStructs WfSetup WfDag WfFlow WfEngine Notify Execute.

Module Messages.

#[local] Open Scope Z_scope.

(** The pairs of a notification. *)
Definition fields (p i li jobid st mk : Z) (sid sv : string) : list (string * string) :=
  [("parentid", print_int p); ("taskindex", print_int i); ("lighttaskindex", print_int li); ("jobid", print_int jobid); ("status", print_int st);
   ("sessionid", sid); ("markerid", print_int mk); ("save", sv)]%string.

Lemma base_fields wf i li jobid st mk t sid :
  base_notification wf i li jobid st mk t sid = ArgParser.print_args (fields (wf_idjob wf) i li jobid st mk sid (yes_no (save t))).
Proof.
  unfold base_notification, fields. cbn [ArgParser.print_args]. unfold ArgParser.print_pair.
  rewrite ?app_str_assoc. repeat (rewrite ?app_str_cons, ?app_str_assoc, ?app_str_nil). done.
Qed.

(** A session that can be part of a message. *)
Definition session_ok (sid : string) : Prop :=
  none_of (λ c, has_char c ";") sid = true ∧ ArgParser.value_ok sid = true ∧ (String.length sid ≤ 3000)%nat.

Definition numbers_ok (l : list Z) : Prop := Forall in_i32 l.

Lemma to_int_print z : in_i32 z → read_int (print_int z) = z.
Proof. intros Hz. unfold read_int. rewrite strtol_print by (unfold in_i32, in_i64 in *; lia). by apply wrap_i32_id. Qed.
Definition token (kv : string * string) : string := kv.1 +:+ String "=" kv.2.
Definition semicolon_free (kv : string * string) : Prop := none_of (λ c, has_char c ";") (token kv) = true.

Lemma print_args_tokens l : ArgParser.print_args l = foldr (λ kv acc, token kv +:+ ";" +:+ acc)%string EmptyString l.
Proof. induction l as [|[k v] l IH]; [done|]. cbn [ArgParser.print_args foldr]. rewrite ArgParser.print_pair_app, IH. unfold token. simpl. by rewrite app_str_assoc, app_str_cons. Qed.

Lemma strtok_tokens l : Forall semicolon_free l → strtok ";" (ArgParser.print_args l) = token <$> l.
Proof.
  rewrite print_args_tokens. induction 1 as [|[k v] l Hkv _ IH]; [done|]. cbn [foldr]. rewrite fmap_cons, <-IH. apply strtok_app; [done|done|].
  unfold token. simpl. by destruct k.
Qed.

Lemma semicolon_number k z : none_of (λ c, has_char c ";") k = true → semicolon_free (k, print_int z).
Proof.
  intros Hk. unfold semicolon_free, token. simpl. rewrite none_of_app, Hk. simpl. apply print_int_none.
  intros c Hc. rewrite has_char_cons. change (has_char c "") with false. destruct (Ascii.eqb_spec ";" c) as [<-|]; [|done]. by destruct Hc.
Qed.

Lemma fields_semicolon p i li jobid st mk sid t :
  session_ok sid → Forall semicolon_free (fields p i li jobid st mk sid (yes_no t)).
Proof.
  intros (Hs & _). unfold fields. repeat (apply Forall_cons; split; [try by apply semicolon_number|]); [| |by apply Forall_nil].
  - unfold semicolon_free, token. simpl. done.
  - unfold yes_no. by case_match.
Qed.

Lemma number_fits k z : in_i32 z → (String.length k ≤ 20)%nat → truncate OPH_MAX_STRING_SIZE (k +:+ "=" +:+ print_int z)%string = token (k, print_int z).
Proof.
  intros Hz Hk. unfold truncate. rewrite take_str_ge; [by unfold token|]. rewrite !length_app_str. pose proof (length_print_int z Hz). simpl. unfold OPH_MAX_STRING_SIZE. lia.
Qed.

Lemma remade_number i li jobid st k z x :
  in_i32 z → (String.length k ≤ 20)%nat →
  remade_field i li jobid st (token (k, x)) = truncate OPH_MAX_STRING_SIZE (k +:+ "=" +:+ print_int z)%string →
  remade_field i li jobid st (token (k, x)) = token (k, print_int z).
Proof. intros Hz Hk ->. by apply number_fits. Qed.

Lemma remade_fields p i li jobid st mk sid sv li0 job0 st0 :
  numbers_ok [i; li; jobid; st] →
  foldr (λ pch acc, remade_field i li jobid st pch +:+ ";" +:+ acc)%string EmptyString (token <$> fields p i li0 job0 st0 mk sid sv)
  = ArgParser.print_args (fields p i li jobid st mk sid sv).
Proof.
  unfold numbers_ok. rewrite !Forall_cons. intros (? & ? & ? & ? & _). rewrite print_args_tokens. unfold fields. cbn [fmap list_fmap foldr].
  rewrite (remade_number _ _ _ _ "taskindex" i), (remade_number _ _ _ _ "lighttaskindex" li), (remade_number _ _ _ _ "jobid" jobid),
    (remade_number _ _ _ _ "status" st) by (done || (simpl; lia)).
  done.
Qed.
(** *** Reading *)

Lemma value_ok_plain v :
  has_char ArgParser.OPH_SEPARATOR_SUBPARAM_OPEN v = false → has_char ArgParser.OPH_SEPARATOR_BRACKET_OPEN v = false →
  has_char ArgParser.OPH_SEPARATOR_PARAM v = false → ArgParser.value_ok v = true.
Proof.
  destruct v as [|c v]; [done|]. intros H1 H2 H3. unfold ArgParser.value_ok. rewrite H3. rewrite has_char_cons in H1, H2.
  apply orb_false_iff in H1 as [-> _]. by apply orb_false_iff in H2 as [-> _].
Qed.

Lemma number_pair_ok k z :
  in_i32 z → has_char "=" k = false → ArgParser.skipped true k = false → (String.length k ≤ 20)%nat → ArgParser.pair_ok (k, print_int z).
Proof.
  intros Hz Hk Hs Hlk. pose proof (length_print_int z Hz). unfold ArgParser.pair_ok, ArgParser.OPH_MAX_STRING_SIZE. simpl.
  split_and!; [done| |done|lia|lia]. apply value_ok_plain; by apply digit_none.
Qed.

Lemma fields_pair_ok p i li jobid st mk sid t :
  numbers_ok [p; i; li; jobid; st; mk] → session_ok sid → Forall ArgParser.pair_ok (fields p i li jobid st mk sid (yes_no t)).
Proof.
  unfold numbers_ok. rewrite !Forall_cons. intros (? & ? & ? & ? & ? & ? & _) (_ & Hv & Hl). unfold fields.
  repeat (apply Forall_cons; split; [try (by apply number_pair_ok; try done; simpl; lia)|]); [| |by apply Forall_nil].
  - split_and!; [done|done|done|simpl; unfold ArgParser.OPH_MAX_STRING_SIZE; lia..].
  - unfold yes_no. case_match; (split_and!; [done|done|done|unfold ArgParser.OPH_MAX_STRING_SIZE; simpl; lia..]).
Qed.
(** The arguments are read one by one. *)
Lemma wp_read_number n k z f (Q : ctl notification () → mem → Prop) m :
  in_i32 z → (∀ s m, read_argument n (ArgParser.arg_of (k, s)) m = Ok (Next (f (read_int s))) m) → Q (Next (f z)) m →
  wp (read_argument n (ArgParser.arg_of (k, print_int z))) Q m.
Proof. intros Hz H HQ. unfold wp. rewrite H. by rewrite to_int_print. Qed.

Lemma read_fields p i li jobid st mk sid sv m :
  numbers_ok [p; i; li; jobid; st; mk] → reliable m →
  wp (loopC read_argument empty_notification (ArgParser.arg_of <$> fields p i li jobid st mk sid sv))
    (λ r m', reliable m' ∧ r = Next (Notification jobid st p i li mk (Some sid) None [(Some "save", Some sv)]%string)) m.
Proof.
  unfold numbers_ok. rewrite !Forall_cons. intros (? & ? & ? & ? & ? & ? & _) Hm. unfold fields. cbn [fmap list_fmap loopC].
  wp_step. apply (wp_read_number _ _ _ (λ x, Notification (-1) (-1) x (-1) (-1) (-1) None None [])); [done|done|].
  wp_step. apply (wp_read_number _ _ _ (λ x, Notification (-1) (-1) p x (-1) (-1) None None [])); [done|done|].
  wp_step. apply (wp_read_number _ _ _ (λ x, Notification (-1) (-1) p i x (-1) None None [])); [done|done|].
  wp_step. apply (wp_read_number _ _ _ (λ x, Notification x (-1) p i li (-1) None None [])); [done|done|].
  wp_step. apply (wp_read_number _ _ _ (λ x, Notification jobid x p i li (-1) None None [])); [done|done|].
  wp_step. change (read_argument _ (ArgParser.arg_of ("sessionid"%string, sid)))
    with (s ← strdup (Some sid); mret (Next (R := ()) (Notification jobid st p i li (-1) s None []))).
  wp_step. apply wp_strdup; [done|]. intros m1 Hm1. wp_step.
  wp_step. apply (wp_read_number _ _ _ (λ x, Notification jobid st p i li x (Some sid) None [])); [done|done|].
  wp_step. done.
Qed.
(** *** Outputs behind the fields *)

(** A key that is none of those [read_argument] knows. *)
Definition output_key (k : string) : bool :=
  negb (existsb (key_is k) ["jobid"; "status"; "parentid"; "taskindex"; "lighttaskindex"; "sessionid"; "markerid"; "info"; "query"]%string).

Definition output_of (kv : string * string) : cstr * cstr := (Some kv.1, Some kv.2).

Lemma read_output n kv m :
  output_key kv.1 = true → read_argument n (ArgParser.arg_of kv) m =
  Ok (Next (Notification (n_jobid n) (n_status n) (n_parentid n) (n_task n) (n_light n) (n_marker n) (n_sessionid n) (n_query n) (n_outputs n ++ [output_of kv]))) m.
Proof.
  destruct n as [j st p t l mk sid q o]. unfold output_key. rewrite negb_true_iff. cbn [existsb]. rewrite !orb_false_iff. intros (H1 & H2 & H3 & H4 & H5 & H6 & H7 & H8 & H9 & _).
  unfold read_argument. cbn [ArgParser.key ArgParser.arg_of]. change (deref (Some kv.1)) with (mret (M := C) kv.1).
  change ((mret (M := C) kv.1 ≫= ?f) m) with (f kv.1 m). cbv beta. by rewrite H1, H2, H3, H4, H5, H6, H7, H8, H9.
Qed.

Lemma read_outputs l n m :
  Forall (λ kv, output_key kv.1 = true) l →
  loopC read_argument n (ArgParser.arg_of <$> l) m =
  Ok (Next (Notification (n_jobid n) (n_status n) (n_parentid n) (n_task n) (n_light n) (n_marker n) (n_sessionid n) (n_query n) (n_outputs n ++ (output_of <$> l)))) m.
Proof.
  intros Hl. revert n. induction Hl as [|kv l Hkv _ IH]; intros n; [by destruct n; simpl; rewrite app_nil_r|]. rewrite fmap_cons. cbn [loopC].
  erewrite bind_run by (by apply read_output). cbv beta iota. rewrite IH. simpl. by rewrite <-app_assoc.
Qed.

Lemma loopC_app_next {S X R} (f : S → X → C (ctl S R)) (l1 l2 : list X) s m s' m' :
  loopC f s l1 m = Ok (Next s') m' → loopC f s (l1 ++ l2) m = loopC f s' l2 m'.
Proof. intros H. rewrite loopC_app. unfold mbind, C_bind. by rewrite H. Qed.

Definition sane (p i jobid st mk : Z) : Prop := 0 ≤ p ∧ 0 ≤ i ∧ 0 ≤ jobid ∧ 0 ≤ st ∧ 0 ≤ mk.

(** The fields, and outputs behind them. *)
Lemma wp_parse_outputs p i li jobid st mk sid t l m :
  numbers_ok [p; i; li; jobid; st; mk] → sane p i jobid st mk → session_ok sid → reliable m →
  Forall (λ kv, ArgParser.pair_ok kv ∧ output_key kv.1 = true) l → Z.of_nat (8 + length l) < 2 ^ 32 →
  wp (parse_notification (Some (ArgParser.print_args (fields p i li jobid st mk sid (yes_no t) ++ l))))
    (λ r _, r = (OPH_SERVER_OK, Some (Notification jobid st p i li mk (Some sid) None ((Some "save", Some (yes_no t)) :: (output_of <$> l))%string))) m.
Proof.
  intros Hn Hs Hsid Hm Hl Hlen. pose proof (fields_pair_ok _ _ _ _ _ _ _ t Hn Hsid) as Hok. set (l0 := fields p i li jobid st mk sid (yes_no t)) in *.
  assert (length l0 = 8%nat) as Hl0 by done. assert (Forall ArgParser.pair_ok (l0 ++ l)) as Hall by (apply Forall_app; split; [done|]; eapply Forall_impl; [exact Hl|]; by intros kv []).
  unfold parse_notification, ArgParser.oph_parse_query. wp_step. eapply wp_mono.
  { apply (ArgParser.query_loop_print _ (l0 ++ l) [] m); [pose proof (ArgParser.print_args_length (l0 ++ l)); lia|rewrite length_app, Hl0; cbn [length Nat.add]; lia|done|done|].
    by intros E%(f_equal length). }
  intros r m1 [Hm1 ->]. cbn [app]. change (ArgParser.OPH_SERVER_OK =? 0) with true. cbn [negb]. rewrite Nat2Z.id.
  change (length [] + length (l0 ++ l))%nat with (length (l0 ++ l)). rewrite <-(length_fmap ArgParser.arg_of (l0 ++ l)), firstn_all. wp_step.
  rewrite fmap_app. pose proof (read_fields p i li jobid st mk sid (yes_no t) m1 Hn Hm1) as Hr. fold l0 in Hr. unfold wp in Hr.
  destruct (loopC read_argument empty_notification (ArgParser.arg_of <$> l0) m1) as [r m2| |] eqn:E; try done. destruct Hr as [Hm2 ->].
  unfold wp at 1. rewrite (loopC_app_next _ _ _ _ _ _ _ E), read_outputs by (eapply Forall_impl; [exact Hl|]; by intros kv []).
  cbn [n_jobid n_status n_parentid n_task n_light n_marker n_sessionid n_query n_outputs].
  destruct Hs as (? & ? & ? & ? & ?). rewrite !(proj2 (Z.ltb_ge _ _)) by lia. rewrite bool_decide_eq_false_2 by done. cbn [orb].
  unfold copy_outputs. rewrite bool_decide_eq_false_2 by done. wp_step. wp_step. apply wp_malloc_reliable; [done|]. intros m3 Hm3. cbn [negb].
  wp_step. apply wp_malloc_reliable; [done|]. intros m4 Hm4. cbn [negb assertC]. wp_step. wp_step.
  wp_step. apply (wp_mapC _ id); [done| |].
  - intros kv m5 R Hkv Hm5 HR. assert (∃ a b, kv = (Some a, Some b)) as (a & b & ->).
    { apply elem_of_cons in Hkv as [-> |Hkv]; [by eexists _, _|]. apply list_elem_of_fmap in Hkv as (x & -> & _). by eexists _, _. }
    wp_step. apply wp_strdup; [done|]. intros m6 Hm6. wp_step. apply wp_strdup; [done|]. intros m7 Hm7. wp_step. by apply HR.
  - intros m5 Hm5. rewrite list_fmap_id. by repeat wp_step.
Qed.

Lemma wp_parse_fields p i li jobid st mk sid t m :
  numbers_ok [p; i; li; jobid; st; mk] → sane p i jobid st mk → session_ok sid → reliable m →
  wp (parse_notification (Some (ArgParser.print_args (fields p i li jobid st mk sid (yes_no t)))))
    (λ r _, r = (OPH_SERVER_OK, Some (Notification jobid st p i li mk (Some sid) None [(Some "save", Some (yes_no t))]%string))) m.
Proof.
  intros Hn Hs Hsid Hm. rewrite <-(app_nil_r (fields _ _ _ _ _ _ _ _)). by apply (wp_parse_outputs _ _ _ _ _ _ _ _ [] m Hn Hs Hsid Hm (Forall_nil_2 _)).
Qed.

(** *** The submission string *)

(** A pair of a submission string; no key merely begins with [cwd]. *)
Definition plain_pair (kv : string * string) : Prop :=
  semicolon_free kv ∧ has_char "=" kv.1 = false ∧ ArgParser.value_ok kv.2 = true ∧ (starts kv.1 "cwd" = true → String.length kv.1 = 3%nat) ∧
  (String.length kv.1 ≤ 4000)%nat ∧ (String.length kv.2 ≤ 4000)%nat.

(** The code of a session, if it has one. *)
Definition session_code (server : cstr) (sid : string) : cstr :=
  match Auth.oph_get_session_code server sid [] with Ok (rc, code) _ => if rc =? 0 then code else None | _ => None end.

(** A folder of the session as its user sees it. *)
Definition in_session_path (code : cstr) (path : string) : cstr :=
  c ← code; p ← strstr path c;
  if (String.length p + 1 =? String.length path)%nat
  then Some (match strchr p "/" with Some (String _ (String _ _) as q) => q | _ => "/"%string end) else None.

(** What a pair of the submission string adds to the notification: the folder, the cubes, the inputs as files. *)
Definition carried (code : cstr) (kv : string * string) : list (string * string) :=
  if starts kv.1 "cwd" then
    match kv.2 with
    | String "/" _ => match in_session_path code kv.2 with Some v => [("cwd"%string, v)] | None => [] end
    | _ => [kv]
    end
  else if starts kv.1 "cube" then [kv]
  else if starts kv.1 "input" then [("file" +:+ drop_str 5 kv.1, kv.2)%string]
  else [].

Lemma get_session_code_pure server sid m :
  session_ok sid → ∃ rc code, Auth.oph_get_session_code server sid m = Ok (rc, code) m ∧ session_code server sid = (if rc =? 0 then code else None) ∧
    (rc = 0 → is_Some code).
Proof.
  intros (_ & _ & Hl). unfold session_code, Auth.oph_get_session_code. rewrite (proj2 (Nat.ltb_lt _ _)) by (unfold Auth.OPH_MAX_STRING_SIZE; lia).
  erewrite !bind_run by done. cbv beta zeta. destruct (match server with Some _ => _ | None => _ end) as [[rest mx]|]; [destruct (strtok _ _ !! mx) as [c|]|];
    eexists _, _; (split; [done|]); (split; [done|]); try done; intros _; by eexists.
Qed.

Lemma starts_token k v K : has_char "=" (string_map tolower K) = false → starts (token (k, v)) K = starts k K.
Proof.
  unfold starts, token, strncasecmp0. cbn [fst snd]. revert k. induction K as [|c K IH]; intros k HK; [done|]. cbn [string_map] in HK. rewrite has_char_cons in HK.
  apply orb_false_iff in HK as [Hc HK]. cbn [String.length]. destruct k as [|d k]; cbn [eqn].
  - rewrite app_str_nil. change (tolower "=") with "="%char. rewrite Ascii.eqb_sym in Hc. by rewrite Hc.
  - rewrite app_str_cons. by rewrite IH.
Qed.

Lemma drop_key k v n : (n ≤ String.length k)%nat → drop_str n (token (k, v)) = token (drop_str n k, v).
Proof.
  unfold token. cbn [fst snd]. revert n. induction k as [|c k IH]; intros [|n] Hn; try done; [simpl in Hn; lia|]. rewrite app_str_cons. cbn [drop_str]. apply IH. simpl in Hn. lia.
Qed.

Lemma starts_length k K : starts k K = true → (String.length K ≤ String.length k)%nat.
Proof.
  unfold starts, strncasecmp0. revert k. induction K as [|c K IH]; intros k; simpl; [lia|]. destruct k as [|d k]; [done|]. intros [_ H]%andb_prop. apply IH in H. simpl. lia.
Qed.

Lemma submitted_token server sid kv m :
  session_ok sid → plain_pair kv →
  submitted_field server (Kept false false false) sid (token kv) m = Ok (ArgParser.print_args (carried (session_code server sid) kv)) m.
Proof.
  destruct kv as [k v]. intros Hsid (_ & _ & _ & Hcwd & _). unfold submitted_field, carried. cbn [has_cwd has_cube has_output negb andb fst snd] in *. rewrite !starts_token by done.
  destruct (starts k "cwd") eqn:E1.
  - specialize (Hcwd eq_refl). assert (String.length (token (k, v)) = 4 + String.length v)%nat as Hl by (unfold token; rewrite length_app_str; simpl; lia).
    assert (drop_str 4 (token (k, v)) = v) as -> by (unfold token; destruct k as [|? [|? [|? [|]]]]; try done; simpl in Hcwd; lia).
    rewrite bool_decide_eq_true_2 by lia. erewrite bind_run by done.
    assert (ArgParser.print_args [(k, v)] = (token (k, v) +:+ ";")%string) as Hpr by (by rewrite print_args_tokens).
    destruct v as [|c v]; [by rewrite Hpr|]. destruct (Ascii.eqb_spec c "/") as [-> |Hc].
    + destruct (get_session_code_pure server sid m Hsid) as (rc & code & Hg & Hcode & Hsome). erewrite bind_run by exact Hg. cbv beta iota zeta. rewrite Hcode.
      destruct (Z.eqb_spec rc 0) as [Hrc|Hrc]; cbn [negb]; [|done]. destruct (Hsome Hrc) as [c ->]. change (deref (Some c)) with (mret (M := C) c).
      erewrite bind_run by done. unfold in_session_path. cbn [mbind option_bind]. destruct (strstr _ c) as [q|]; [|done]. cbn [option_bind]. 
      simpl. destruct (_ =? _)%nat; [by rewrite print_args_tokens|done].
    + rewrite <-Hpr. destruct c as [[] [] [] [] [] [] [] []]; done.
  - destruct (starts k "cube") eqn:E2; [by rewrite print_args_tokens|]. destruct (starts k "input") eqn:E3; [|done].
    apply starts_length in E3. rewrite drop_key by (simpl in E3; lia). rewrite print_args_tokens. cbn [foldr]. rewrite app_str_nil_r. unfold token. cbn [fst snd]. by rewrite !app_str_assoc.
Qed.
(** A key that begins with [K] is not a word that does not. *)
Lemma starts_differs w k K N :
  (String.length K ≤ N)%nat → starts k K = true → strncasecmp0 w K (String.length K) = false → strncasecmp0 w k N = false.
Proof.
  intros HN Hk Hw. destruct (strncasecmp0 w k N) eqn:E; [|done]. exfalso.
  assert (∀ (f : ascii → ascii → bool) n n' a b, (n ≤ n')%nat → eqn f n' a b = true → eqn f n a b = true) as Hmono.
  { intros f. induction n as [|n IH]; intros n' a b Hn; [done|]. destruct n' as [|n']; [lia|]. destruct a, b; simpl; try done. intros [-> H]%andb_prop. apply (IH n'); [lia|done]. }
  apply (Hmono _ (String.length K) N) in E; [|done]. assert (same_case (String.length K) w K) as H; [|unfold same_case in H; congruence].
  transitivity k; [exact E|exact Hk].
Qed.

Lemma key_is_case k w : key_is k w = true → strncasecmp0 w k OPH_MAX_STRING_SIZE = true.
Proof.
  unfold key_is, strncmp0, strncasecmp0. generalize OPH_MAX_STRING_SIZE. intros n. revert k w. induction n as [|n IH]; intros [|c k] [|d w]; simpl; try done.
  intros [->%Ascii.eqb_eq H]%andb_prop. by rewrite Ascii.eqb_refl, IH.
Qed.

Definition output_words : list string := ["cwd"; "cube"; "file"]%string.

Lemma output_word_key k K : K ∈ output_words → starts k K = true → output_key k = true ∧ ArgParser.skipped true k = false.
Proof.
  intros HK Hk. assert (∀ w, strncasecmp0 w K (String.length K) = false → strncasecmp0 w k OPH_MAX_STRING_SIZE = false) as H.
  { intros w. apply starts_differs; [|done]. unfold OPH_MAX_STRING_SIZE. unfold output_words in HK. rewrite !elem_of_cons in HK. destruct HK as [-> |[-> |[-> |HK]]]; simpl; [lia..|by apply elem_of_nil in HK]. }
  split.
  - unfold output_key. rewrite negb_true_iff. apply not_true_iff_false. rewrite existsb_exists. intros (w & Hw & Hk'%key_is_case). rewrite H in Hk'; [done|].
    unfold output_words in HK. rewrite !elem_of_cons, elem_of_nil in HK. simpl in Hw. destruct HK as [-> |[-> |[-> |[]]]]; repeat destruct Hw as [<-|Hw]; try done.
  - unfold ArgParser.skipped. rewrite andb_false_r. change ArgParser.OPH_MAX_STRING_SIZE with OPH_MAX_STRING_SIZE.
    unfold output_words in HK. rewrite !elem_of_cons, elem_of_nil in HK. destruct HK as [-> |[-> |[-> |[]]]]; by rewrite !H.
Qed.

Lemma strstr_suffix s pat q : strstr s pat = Some q → ∃ p, s = p +:+ q.
Proof.
  induction s as [|c s IH]; cbn [strstr].
  - destruct (strncmp0 _ _ _); [|done]. intros [= <-]. by exists EmptyString.
  - destruct (strncmp0 _ _ _); [intros [= <-]; by exists EmptyString|]. intros [p ->]%IH. by exists (String c p).
Qed.

Lemma in_session_path_ok code path v :
  in_session_path code path = Some v → has_char ";" path = false → (∃ v', v = String "/" v') ∧ has_char ";" v = false ∧ (String.length v ≤ String.length path)%nat.
Proof.
  unfold in_session_path. destruct code as [c|]; [|done]. cbn [mbind option_bind]. destruct (strstr path c) as [q|] eqn:E; [|done]. simpl.
  destruct (Nat.eqb_spec (String.length q + 1) (String.length path)) as [El|]; [|done]. intros [= <-] Hp. apply strstr_suffix in E as [p ->].
  destruct (strchr q "/") as [[|a [|b r]]|] eqn:Eq; try (split; [by eexists|]; split; [done|]; simpl; lia).
  apply strchr_suffix in Eq as (p' & -> & _ & t & [= -> <-]). split; [by eexists|]. rewrite length_app_str in *. rewrite !length_app_str in *. split; [|simpl in *; lia].
  apply none_of_has_char in Hp. rewrite !none_of_app in Hp. apply none_of_has_char. by apply andb_prop in Hp as [_ [_ Hp]%andb_prop].
Qed.

Lemma plain_value v k : semicolon_free (k, v) → has_char ";" v = false.
Proof. unfold semicolon_free, token. cbn [fst snd]. rewrite none_of_app. intros [_ H]%andb_prop. simpl in H. by apply none_of_has_char. Qed.

(** What is carried over can be read, and is not longer than the pair. *)
Lemma carried_ok code kv :
  plain_pair kv → Forall (λ x, ArgParser.pair_ok x ∧ output_key x.1 = true) (carried code kv) ∧
  (String.length (ArgParser.print_args (carried code kv)) ≤ String.length (ArgParser.print_args [kv]))%nat ∧ (length (carried code kv) ≤ 1)%nat.
Proof.
  destruct kv as [k v]. intros (Hs & Hk & Hv & Hcwd & Hlk & Hlv). apply plain_value in Hs. cbn [fst snd] in *. unfold carried. cbn [fst snd].
  assert (∀ K, K ∈ output_words → starts k K = true → ArgParser.pair_ok (k, v) ∧ output_key k = true) as Hsame.
  { intros K HK HkK. destruct (output_word_key k K HK HkK) as [? ?]. split; [|done]. unfold ArgParser.pair_ok, ArgParser.OPH_MAX_STRING_SIZE. cbn [fst snd]. split_and!; [done..|lia|lia]. }
  destruct (starts k "cwd") eqn:E1.
  - assert (ArgParser.pair_ok (k, v) ∧ output_key k = true) as Hkv by (apply (Hsame "cwd"%string); [by left|done]).
    destruct v as [|c v]; [split; [by apply Forall_singleton|split; [done|simpl; lia]]|].
    destruct (Ascii.eqb_spec c "/") as [-> |Hc]; [|destruct c as [[] [] [] [] [] [] [] []]; try (split; [by apply Forall_singleton|split; [done|simpl; lia]]); done].
    destruct (in_session_path _ _) as [p|] eqn:Ep; [|split; [by apply Forall_nil|simpl; lia]].
    apply in_session_path_ok in Ep as ((p' & ->) & Hp & Hl); [|done]. split; [|split; [|simpl; lia]].
    + apply Forall_singleton. split; [|done]. unfold ArgParser.pair_ok, ArgParser.OPH_MAX_STRING_SIZE. cbn [fst snd]. split_and!; [done| |done|simpl; lia|lia].
      unfold ArgParser.value_ok. change ArgParser.OPH_SEPARATOR_PARAM with ";"%char. by rewrite Hp.
    + cbn [ArgParser.print_args]. unfold ArgParser.print_pair. specialize (Hcwd eq_refl). repeat (rewrite ?length_app_str; cbn [String.length]). simpl in Hl. lia.
  - destruct (starts k "cube") eqn:E2; [split; [apply Forall_singleton, (Hsame "cube"%string); [by right; left|done]|split; [done|simpl; lia]]|].
    destruct (starts k "input") eqn:E3; [|split; [by apply Forall_nil|simpl; lia]].
    destruct (output_word_key ("file" +:+ drop_str 5 k) "file") as [Ho Hsk]; [by right; right; left|done|].
    assert (String.length (drop_str 5 k) + 5 = String.length k)%nat as Hd.
    { apply starts_length in E3. clear -E3. destruct k as [|? [|? [|? [|? [|? k]]]]]; simpl in *; lia. }
    assert (has_char "=" (drop_str 5 k) = false) as Hdk.
    { clear -Hk. revert Hk. generalize 5%nat. intros n. revert k. induction n as [|n IH]; intros [|c k]; try done. rewrite has_char_cons. intros [_ H]%orb_false_iff. by apply IH. }
    split; [|split; [|simpl; lia]].
    + apply Forall_singleton. split; [|done]. unfold ArgParser.pair_ok, ArgParser.OPH_MAX_STRING_SIZE. cbn [fst snd]. split_and!; [|done|done|rewrite length_app_str; cbn [String.length]; lia|lia].
      assert (∀ d, has_char "=" ("file" +:+ d) = has_char "=" d) as -> by (intros d; unfold has_char; done). done.
    + cbn [ArgParser.print_args]. unfold ArgParser.print_pair. repeat (rewrite ?length_app_str; cbn [String.length]). lia.
Qed.

Lemma fields_length p i li jobid st mk sid t :
  numbers_ok [p; i; li; jobid; st; mk] → session_ok sid →
  (String.length (ArgParser.print_args (fields p i li jobid st mk sid (yes_no t))) < OPH_MAX_STRING_SIZE)%nat.
Proof.
  unfold numbers_ok. rewrite !Forall_cons. intros (H1 & H2 & H3 & H4 & H5 & H6 & _) (_ & _ & Hl).
  apply length_print_int in H1, H2, H3, H4, H5, H6. unfold fields. cbn [ArgParser.print_args]. unfold ArgParser.print_pair.
  assert (String.length (yes_no t) ≤ 3)%nat by (unfold yes_no; case_match; simpl; lia).
  repeat (rewrite ?length_app_str; cbn [String.length]). unfold OPH_MAX_STRING_SIZE. simpl. lia.
Qed.


(** The pairs of a submission string that enter the notification. *)
Definition carried_all (code : cstr) (l : list (string * string)) : list (string * string) := l ≫= carried code.

Lemma carried_all_print code l :
  foldr String.append EmptyString ((λ kv, ArgParser.print_args (carried code kv)) <$> l) = ArgParser.print_args (carried_all code l).
Proof. induction l as [|kv l IH]; [done|]. rewrite fmap_cons. cbn [foldr]. rewrite IH. unfold carried_all. by rewrite bind_cons, WfSubmit.print_args_app. Qed.

Lemma carried_all_ok code l :
  Forall plain_pair l → Forall (λ x, ArgParser.pair_ok x ∧ output_key x.1 = true) (carried_all code l) ∧
  (String.length (ArgParser.print_args (carried_all code l)) ≤ String.length (ArgParser.print_args l))%nat ∧ (length (carried_all code l) ≤ length l)%nat.
Proof.
  unfold carried_all. induction 1 as [|kv l Hkv _ (IH1 & IH2 & IH3)]; [simpl; split; [by apply Forall_nil|lia]|]. rewrite bind_cons, WfSubmit.print_args_app, length_app_str, length_app.
  change (kv :: l) with ([kv] ++ l). rewrite WfSubmit.print_args_app, length_app_str, length_app. destruct (carried_ok code kv Hkv) as (H1 & H2 & H3).
  split; [by apply Forall_app|]. cbn [length]. lia.
Qed.

Lemma map_submitted server sid l m :
  session_ok sid → Forall plain_pair l →
  mapC (submitted_field server (Kept false false false) sid) (token <$> l) m = Ok ((λ kv, ArgParser.print_args (carried (session_code server sid) kv)) <$> l) m.
Proof.
  intros Hsid. induction 1 as [|kv l Hkv _ IH]; [done|]. rewrite !fmap_cons. cbn [mapC]. erewrite bind_run by (by apply submitted_token). cbv beta.
  by erewrite bind_run by exact IH.
Qed.

(** What the notification made again has to say: the new job, light task and status, the other fields, and the outputs
    that the submission string gives. *)
Definition remade (p i li jobid st mk : Z) (sid sv : string) (l : list (string * string)) : notification :=
  Notification jobid st p i li mk (Some sid) None ((Some "save"%string, Some sv) :: (output_of <$> l)).

(** C6: The notification that the server makes for a task that ended at once is parsed to what was written: the new
    job, status and light task, the parent, the task, the marker, the session and the save flag; and, when a
    submission string is given (pairs without semicolons in keys or values, of at most 4000 characters, no key that
    merely begins with cwd), as outputs the folder as the user of the session sees it, the cubes, and the inputs under
    the key file. Numbers are 32-bit and not negative (the light task may be), the session text is at most 3000
    characters without a separator. *)
Theorem remade_notification_parsed server wf t p i li li0 jobid job0 st st0 mk sid (l : option (list (string * string))) m :
  p = wf_idjob wf → numbers_ok [p; i; li; jobid; st; mk] → sane p i jobid st mk → session_ok sid → reliable m →
  Forall plain_pair (default [] l) → Z.of_nat (length (default [] l)) < 2 ^ 31 →
  wp (r ← oph_remake_notification server (Some (base_notification wf i li0 job0 st0 mk t sid)) i li jobid st (ArgParser.print_args <$> l) sid; parse_notification r)
    (λ r _, r = (OPH_SERVER_OK, Some (remade p i li jobid st mk sid (yes_no (save t)) (carried_all (session_code server sid) (default [] l))))) m.
Proof.
  intros Hp Hn Hs Hsid Hm Hl Hlen. wp_step. unfold oph_remake_notification. wp_step. apply wp_malloc_reliable; [done|]. intros m1 Hm1. cbn [negb].
  wp_step. apply wp_malloc_reliable; [done|]. intros m2 Hm2. cbn [negb]. rewrite base_fields, strtok_tokens by (by apply fields_semicolon).
  rewrite remade_fields by (unfold numbers_ok in *; rewrite !Forall_cons in *; tauto). rewrite <-Hp. set (l0 := fields p i li jobid st mk sid (yes_no (save t))).
  set (l1 := carried_all (session_code server sid) (default [] l)). destruct (carried_all_ok (session_code server sid) _ Hl) as (Hok & Hle & Hcount). fold l1 in Hok, Hle, Hcount.
  change (foldl keep _ _) with (Kept false false false). wp_step.
  eapply (wp_mono _ (λ text m', reliable m' ∧ text = ArgParser.print_args (l0 ++ l1))).
  - destruct l as [l|]; cbn [fmap option_fmap option_map default from_option id] in *; [|apply wp_ret; split; [done|]; by rewrite app_nil_r].
    wp_step. apply wp_malloc_reliable; [done|]. intros m3 Hm3. wp_step. apply wp_assert; [done|]. wp_step. rewrite strtok_tokens by (eapply Forall_impl; [exact Hl|]; by intros kv []).
    unfold wp at 1. rewrite map_submitted by done. apply wp_ret. split; [done|]. by rewrite carried_all_print, WfSubmit.print_args_app.
  - intros text m3 [Hm3 ->]. wp_step. apply wp_assert.
    { apply bool_decide_eq_true. rewrite WfSubmit.print_args_app, length_app_str. pose proof (fields_length p i li jobid st mk sid (save t) Hn Hsid) as Hf. fold l0 in Hf.
      assert (String.length (default EmptyString (ArgParser.print_args <$> l)) = String.length (ArgParser.print_args (default [] l))) as -> by (by destruct l). lia. }
    wp_step. apply wp_parse_outputs; try done. lia.
Qed.
Definition chain_task : oph_workflow_task := set_save 1 zero_task.

(** The submission string gives the folder, the cube and the input. *)
Definition sample_submission : list (string * string) :=
  [("operator", "oph_list"); ("ncores", "2"); ("cwd", "/1/a"); ("cube", "http://h/3/4"); ("input", "x.nc")]%string.

Lemma remade_notification_parsed_witness :
  wp (r ← oph_remake_notification (Some "http://h"%string) (Some (base_notification zero_workflow 3 (-1) 7 OPH_ODB_STATUS_START_ERROR 5 chain_task "http://h/sessions/1/x"))
        3 2 8 OPH_ODB_STATUS_COMPLETED (Some "operator=oph_list;ncores=2;cwd=/1/a;cube=http://h/3/4;input=x.nc;"%string) "http://h/sessions/1/x"; parse_notification r)
    (λ r _, r = (OPH_SERVER_OK, Some (Notification 8 12 0 3 2 5 (Some "http://h/sessions/1/x") None
       [(Some "save", Some "yes"); (Some "cwd", Some "/a"); (Some "cube", Some "http://h/3/4"); (Some "file", Some "x.nc")]%string))) [].
Proof.
  pose proof (remade_notification_parsed (Some "http://h"%string) zero_workflow chain_task 0 3 2 (-1) 8 7 12 16 5 "http://h/sessions/1/x" (Some sample_submission) []) as H.
  apply H; [reflexivity| |unfold sane; lia| |apply reliable_nil| |simpl; lia].
  - repeat (apply Forall_cons; split; [unfold in_i32; lia|]). apply Forall_nil. exact I.
  - split_and!; [reflexivity|reflexivity|simpl; lia].
  - unfold sample_submission. cbn [default from_option id].
    repeat (apply Forall_cons; split; [split_and!; [reflexivity|reflexivity|reflexivity|intros E; by vm_compute in E|simpl; lia|simpl; lia]|]). apply Forall_nil. exact I.
Defined.

(** ** Rejected tasks *)

(** What the abort of the dependents keeps of a task that is over. *)
Definition keeps_task (i p j mk sv : Z) (sid : cstr) (wf : oph_workflow) : Prop :=
  wf_idjob wf = p ∧ sessionid wf = sid ∧
  ∃ t, cell (tasks wf) i = Some t ∧ idjob t = j ∧ markerid t = mk ∧ save t = sv ∧ (status t = OPH_ODB_STATUS_ERROR ∨ status t = OPH_ODB_STATUS_ABORTED).

Lemma keeps_update i p j mk sv sid d t wf :
  keeps_task i p j mk sv sid wf → cell (tasks wf) d = Some t → keeps_task i p j mk sv sid (update_task d (set_status OPH_ODB_STATUS_ABORTED t) wf).
Proof.
  intros (Hp & Hsid & ti & Hti & Hj & Hmk & Hsv & Hst) Ht. split; [done|]. split; [done|]. unfold update_task. cbn [tasks set_tasks].
  unfold cell, set_cell in *. destruct (Z.ltb_spec i 0); [done|]. destruct (Z.ltb_spec d 0); [done|]. destruct (decide (i = d)) as [-> |Hne].
  - rewrite Ht in Hti. injection Hti as ->. exists (set_status OPH_ODB_STATUS_ABORTED ti). rewrite list_lookup_insert_eq by (by eapply lookup_lt_Some). auto 10.
  - exists ti. rewrite list_lookup_insert_ne by lia. done.
Qed.

Lemma partly_aborting i p j mk sv sid fuel wf ds :
  keeps_task i p j mk sv sid wf → Runs.partly (oph_workflow_set_status fuel wf ds OPH_ODB_STATUS_ABORTED) (λ r, keeps_task i p j mk sv sid r.2).
Proof.
  revert wf ds. induction fuel as [|fuel IH]; intros wf ds Hk; [by intros m a m'|]. cbn [oph_workflow_set_status].
  eapply (Runs.partly_bind _ _ (λ c, match c with Next wf' => keeps_task i p j mk sv sid wf' | Break r => keeps_task i p j mk sv sid r.2 end)).
  - revert wf Hk. induction ds as [|d ds IHd]; intros wf Hk; cbn [loopC]; [by apply Runs.partly_ret|].
    eapply (Runs.partly_bind _ _ (λ c, match c with Next wf' => keeps_task i p j mk sv sid wf' | Break r => keeps_task i p j mk sv sid r.2 end));
      [|intros [wf'|r] H; [by apply IHd|by apply Runs.partly_ret]].
    eapply (Runs.partly_bind _ _ (λ o, match o with Some wf' => keeps_task i p j mk sv sid wf' | None => True end)).
    + unfold abort_one. eapply Runs.partly_bind; [apply Runs.partly_deref|]. intros t Ht.
      destruct (_ && _); [by apply Runs.partly_ret|]. destruct (_ <? _); [destruct (_ =? _); [by apply Runs.partly_ret|]|]; apply Runs.partly_ret.
      * apply (keeps_update _ _ _ _ _ _ d t (set_residual_tasks_num _ wf)); done.
      * by apply keeps_update.
    + intros [wf'|] H; [|by apply Runs.partly_ret]. apply Runs.partly_skip. intros t. eapply Runs.partly_bind; [by apply IH|].
      intros [rc wf2] H2. apply Runs.partly_ret. by destruct (rc =? 0).
  - intros [wf'|r] H; by apply Runs.partly_ret.
Qed.

(** C10: A task whose submission fails becomes an error and the execution sends a notification of it; this notification is
    parsed, but then neglected, because the task has its final status already: the failure is never processed and the task
    stays among the residual ones. *)
Theorem rejected_task_neglected fuel i wf t sid wf' rqs m m1 m2 :
  cell (tasks wf) i = Some t → sessionid wf = Some sid → numbers_ok [wf_idjob wf; i; -1; idjob t; 0; markerid t] →
  0 ≤ wf_idjob wf → 0 ≤ i → 0 ≤ idjob t → 0 ≤ markerid t → session_ok sid → reliable m2 →
  reject fuel i wf m = Ok (wf', rqs) m1 →
  ∃ rq t', rqs = [rq] ∧ rq_serve rq = false ∧ cell (tasks wf') i = Some t' ∧
    wp ('(_, o) ← parse_notification (Some (rq_notification rq)); n ← deref o; st ← deref (canonical_status (n_status n)); b ← neglected n st t'; mret (st, b))
      (λ r _, r = (OPH_ODB_STATUS_ERROR, true)) m2.
Proof.
  intros Ht Hsid Hn Hp Hi Hj Hmk Hs Hm Hr. unfold numbers_ok in Hn. rewrite !Forall_cons in Hn. destruct Hn as (Hn1 & Hn2 & Hn3 & Hn4 & Hn5 & Hn6 & _).
  assert (Runs.partly (reject fuel i wf) (λ r, keeps_task i (wf_idjob wf) (idjob t) (markerid t) (save t) (Some sid) r.1 ∧ ∃ t', cell (tasks r.1) i = Some t' ∧
    r.2 = [Request false (idjob t') None 0 (base_notification r.1 i (-1) (idjob t') (status t') (markerid t') t' sid)])) as H.
  { unfold reject. rewrite Ht, Hsid. do 2 apply Runs.partly_ret_bind. eapply Runs.partly_bind.
    - apply (partly_aborting i (wf_idjob wf) (idjob t) (markerid t) (save t) (Some sid)). split; [done|]. split; [done|].
      exists (set_status OPH_ODB_STATUS_ERROR t). split; [|auto]. unfold update_task, cell, set_cell in *. destruct (i <? 0); [done|]. simpl.
      by rewrite list_lookup_insert_eq by (by eapply lookup_lt_Some).
    - intros [rc wf2] H2. simpl in H2. eapply Runs.partly_bind; [apply Runs.partly_deref|]. intros t' Ht'. do 4 (apply Runs.partly_skip; intros ?).
      apply Runs.partly_ret. simpl. split; [done|]. by exists t'. }
  apply H in Hr. simpl in Hr. destruct Hr as [(Hp' & _ & ti & Hti & Hj' & Hmk' & Hsv' & Hst') (t' & Ht' & ->)]. rewrite Ht' in Hti. injection Hti as <-.
  eexists _, t'. split; [done|]. split; [done|]. split; [done|]. simpl. rewrite base_fields, Hp', Hj', Hmk'. wp_step.
  eapply wp_mono; [apply wp_parse_fields; [|unfold sane; destruct Hst' as [-> | ->]; done|done|done]|].
  - repeat (apply Forall_cons; split; [try done|]); [|by apply Forall_nil]. by destruct Hst' as [-> | ->].
  - intros r m3 ->. wp_step. wp_step. cbn [n_status]. unfold neglected. cbn [n_light]. destruct Hst' as [E|E]; rewrite E; repeat wp_step; done.
Qed.
(** The first of two tasks in a chain. *)
Lemma rejected_task_neglected_witness :
  ∃ wf' rqs rq, reject 5 0 Runs.chain [] = Ok (wf', rqs) [] ∧ rqs = [rq] ∧ rq_serve rq = false.
Proof.
  destruct (reject 5 0 Runs.chain []) as [[wf' rqs] m1| |] eqn:E; [|vm_compute in E; discriminate..].
  destruct (rejected_task_neglected 5 0 Runs.chain (default zero_task (head Runs.chain_tasks)) "http://h/ophidia/sessions/123/experiment" wf' rqs [] m1 [])
    as (rq & t' & H1 & H2 & _).
  - reflexivity.
  - reflexivity.
  - repeat (apply Forall_cons; split; [unfold in_i32; simpl; lia|]). apply Forall_nil. exact I.
  - simpl. lia.
  - lia.
  - simpl. lia.
  - simpl. lia.
  - split_and!; [reflexivity|reflexivity|simpl; lia].
  - apply reliable_nil.
  - exact E.
  - exists wf', rqs, rq. split; [|split; [exact H1|exact H2]]. f_equal. vm_compute in E. injection E as _ _ <-. reflexivity.
Defined.
End Messages.
