(* ===== verification/Retry.v ===== *)
(** * Failed attempts

    A task that fails is submitted again until its attempts are used up ([retry_task] of [Notify]).  This file
    follows a task through its attempts: each failure is processed by [process_notification], each new submission
    made by [next_tasks] and [oph_workflow_execute].  Automatic retries and start errors are included. *)

From Stdlib Require Ascii.
From stdpp Require Import base gmap strings numbers pretty list.
From S2P Require Import Prelude CString HashTbl Trash WfStructs WfSetup WfDag WfFlow Auth ArgParser WfVars WfSubmit WfEngine Notify Execute Runs.
Import (notations) Stdlib.Strings.Ascii.
Import WfStructs WfSetup WfDag WfFlow WfEngine Notify Execute Runs.

Module Retry.

#[local] Open Scope Z_scope.

(** A submitted task that has attempts left. *)
Record failing (wf : oph_workflow) (k : nat) (t : oph_workflow_task) : Prop := {
  fa_task : tasks wf !! k = Some t;
  fa_name : is_Some (name t);
  fa_final : ∃ l, tasks wf !! tasks_num wf = Some l ∧ name l = None;
  fa_residual : residual_tasks_num wf ≠ 0;
  fa_retry : 0 < residual_retry_num t ≤ retry_num t;
  fa_single : light_tasks t = [];
  fa_dependents : Forall (λ d, ∃ td, cell (tasks wf) d = Some td ∧ is_Some (operator td)) (dependents_indexes t);
}.

(** A notification that the attempt failed, for whatever reason. *)
Definition fails (k : nat) (n : notification) : Prop :=
  n_task n = Z.of_nat k ∧ n_light n < 0 ∧ canonical_status (n_status n) = Some OPH_ODB_STATUS_ERROR.

Section attempts.
Context (auto : Z) (missing saved : bool) (fuel : nat) (k : nat).
Context (new_marker new_job : Z → Z → option Z) (rand : Z → Z) (server : cstr) (vfuel : nat) (index0 : Z).
Context (check_massive : Z → oph_workflow → Z * oph_workflow * bool).
(** The number of automatic retries is not negative; a missing response can be saved; no operation is massive. *)
Context (Hauto : 0 ≤ auto) (Hsaved : missing = true → saved = true) (Hmassive : ∀ i wf, check_massive i wf = (0, wf, false)).
Notation execute := (oph_workflow_execute auto new_marker new_job rand server fuel vfuel index0 check_massive).

(** The response may change. *)
Lemma yields_keep wf t text m :
  tasks wf !! k = Some t → Forall (λ d, ∃ td, cell (tasks wf) d = Some td ∧ is_Some (operator td)) (dependents_indexes t) → reliable m →
  yields (keep_response text (Z.of_nat k) wf) (λ wf', ∃ r, wf' = update_task (Z.of_nat k) (set_response r t) wf) m.
Proof.
  intros Ht Hd Hm. unfold keep_response. rewrite cell_nat. go. rewrite Forall_forall in Hd. apply yields_foldC; [done| |].
  - exists (response t). rewrite update_nat. rewrite list_insert_id; [by destruct wf|]. rewrite Ht. f_equal. by destruct t.
  - intros d wf' m1 Hin Hm1 (r & ->). destruct (Hd d Hin) as (td & Htd & [op Hop]).
    assert (∃ td', cell (tasks (update_task (Z.of_nat k) (set_response r t) wf)) d = Some td' ∧ is_Some (operator td')) as (td' & Htd' & [op' Hop']).
    { rewrite update_nat. unfold cell in *. cbn [tasks set_tasks]. destruct (d <? 0); [done|]. destruct (decide (Z.to_nat d = k)) as [E|E].
      - rewrite E in *. rewrite list_lookup_insert_eq by (by eapply lookup_lt_Some). rewrite Ht in Htd. injection Htd as <-. eexists. split; [done|]. by eexists.
      - rewrite list_lookup_insert_ne by done. exists td. split; [done|by eexists]. }
    go. rewrite Hop'. go. case_match; [|go; by eexists]. go. rewrite update_nat, cell_nat. cbn [tasks set_tasks].
    rewrite list_lookup_insert_eq by (by eapply lookup_lt_Some). go. go. eexists. rewrite !update_nat. cbn [tasks set_tasks]. by rewrite list_insert_insert_eq, set_tasks_twice.
Qed.
(** The task takes the automatic retries of the configuration. *)
Definition automatic (t : oph_workflow_task) : bool := negb (auto =? 0) && (retry_num t =? 1).

(** The task once the failure is noted. *)
Definition noted (st : Z) (t : oph_workflow_task) : oph_workflow_task :=
  let t := set_status st t in
  if negb (is_marked_for_auto_retry t =? 0) || (st =? OPH_ODB_STATUS_START_ERROR) then
    if automatic t && (residual_auto_retry_num t =? 0) then set_is_marked_for_auto_retry 1 (set_residual_auto_retry_num (1 + auto) t)
    else if automatic t && (1 <? residual_auto_retry_num t) then set_residual_auto_retry_num (residual_auto_retry_num t - 1) t else t
  else set_residual_auto_retry_num 0 t.

(** Whether it is submitted again, and what becomes of it. *)
Definition retried (t : oph_workflow_task) : bool * oph_workflow_task :=
  match auto_retry auto t with
  | Some t => (true, t)
  | None => (1 <? residual_retry_num t, set_residual_retry_num (residual_retry_num t - 1) t)
  end.

(** What a failed attempt leaves: the task to be submitted again, or the end of it. *)
Definition after_failure (st : Z) (wf : oph_workflow) (t : oph_workflow_task) (x : oph_workflow * flags) : Prop :=
  ∃ r, let '(again, t') := retried (set_response r (noted st t)) in
  if again : bool then
    x.1 = update_task (Z.of_nat k) (set_status OPH_ODB_STATUS_UNKNOWN t') wf ∧ retry_task_execution x.2 = true ∧ final x.2 = false
  else
    (∃ out, x.1 = set_output out (set_wf_status OPH_ODB_STATUS_ERROR (set_residual_tasks_num (residual_tasks_num wf - 1)
                      (update_task (Z.of_nat k) t' wf)))) ∧
    retry_task_execution x.2 = false ∧ final x.2 = none_running x.1.

Lemma set_output_same wf : set_output (output wf) wf = wf.
Proof. by destruct wf. Qed.

Lemma update_twice t t' wf : update_task (Z.of_nat k) t (update_task (Z.of_nat k) t' wf) = update_task (Z.of_nat k) t wf.
Proof. rewrite !update_nat. cbn [tasks set_tasks]. by rewrite list_insert_insert_eq, set_tasks_twice. Qed.

Lemma updated_task t wf : (k < length (tasks wf))%nat → tasks (update_task (Z.of_nat k) t wf) !! k = Some t.
Proof. intros Hk. rewrite update_nat. cbn [tasks set_tasks]. by rewrite list_lookup_insert_eq. Qed.

Lemma yields_trace_failed wf t m :
  tasks wf !! k = Some t → is_Some (name t) → light_tasks t = [] → reliable m →
  yields (trace_output (Z.of_nat k) OPH_ODB_STATUS_ERROR wf) (λ wf', ∃ out, wf' = set_output out wf) m.
Proof.
  intros Ht [nm Hnm] Hl Hm. unfold trace_output. cbn [OPH_ODB_STATUS_ERROR OPH_ODB_STATUS_COMPLETED Z.eqb orb negb Pos.eqb].
  rewrite cell_nat. go. destruct (traced _ _); [go; exists (output wf); by rewrite set_output_same|].
  unfold oph_workflow_save_task_output. eapply (yields_then _ _ (λ r, r.1.2 = t)).
  { go. rewrite Hnm. go. eapply (yields_then _ _ (λ _, True)).
    { unfold strdup_opt. destruct (response t); [|by go]. eapply yields_mono; [by apply yields_strdup|done]. }
    intros r m3 Hm3 _. rewrite Hl. rewrite bool_decide_eq_true_2 by done. by go. }
  intros [[rc t'] o] m4 Hm4 Et. simpl in Et. subst t'.
  assert (update_task (Z.of_nat k) t wf = wf) as -> by (rewrite update_nat, list_insert_id by done; by destruct wf). go.
  repeat case_match; (eexists; first [done|by rewrite set_output_same]).
Qed.

Lemma gives_retry wf t st f m :
  tasks wf !! k = Some t → 0 < residual_retry_num t → reliable m →
  gives (retry_task auto (Z.of_nat k) st wf f) (λ x,
    let '(again, t') := retried t in
    if again then x = (update_task (Z.of_nat k) (set_status OPH_ODB_STATUS_UNKNOWN t') wf, set_retry true (set_update_wf 0 f), OPH_ODB_STATUS_RUNNING)
    else ∃ wf', wf' = set_wf_status st (set_residual_tasks_num (residual_tasks_num wf - 1) (update_task (Z.of_nat k) t' wf)) ∧
         x = (wf', if none_running wf' then set_final true f else f, st)) m.
Proof.
  intros Ht Hc Hm. unfold retry_task, retried. rewrite cell_nat. go. rewrite (proj2 (Z.eqb_neq _ 0)) by lia.
  destruct (auto_retry auto t) as [t'|]; [by go|].
  cbn [residual_retry_num set_residual_retry_num]. destruct (Z.ltb_spec 1 (residual_retry_num t)).
  - rewrite (proj2 (Z.eqb_neq (residual_retry_num t - 1) 0)) by lia. cbn [negb]. by go.
  - rewrite (proj2 (Z.eqb_eq (residual_retry_num t - 1) 0)) by lia. cbn [negb]. go. eexists. split; [reflexivity|done].
Qed.

Lemma gives_noted n wf t f m :
  n_task n = Z.of_nat k → fresh f → reliable m →
  gives (update_single auto missing saved n wf t f) (λ x, x.1 = update_task (Z.of_nat k) (noted (n_status n) t) wf ∧ fresh x.2) m.
Proof.
  intros Hk Hf Hm. unfold update_single, noted, automatic. rewrite Hk. cbn [is_marked_for_auto_retry residual_auto_retry_num retry_num set_status].
  destruct (negb (is_marked_for_auto_retry t =? 0) || (n_status n =? _)); [|go; split; [done|by destruct (_ || _)]].
  destruct (negb (auto =? 0) && (retry_num t =? 1)); cbn [andb]; [destruct (_ =? 0); [by go|]; destruct (_ <? _); [by go|]|].
  all: destruct (_ && missing) eqn:E; [apply andb_prop in E as [_ E]; rewrite (Hsaved E)|]; go; (split; [done|by destruct (_ || _)]).
Qed.

(** What noting a failure leaves alone. *)
Lemma noted_keeps st t r :
  let t' := set_response r (noted st t) in
  name t' = name t ∧ light_tasks t' = light_tasks t ∧ dependents_indexes t' = dependents_indexes t ∧ retry_num t' = retry_num t ∧
  residual_retry_num t' = residual_retry_num t ∧ status t' = st ∧ operator t' = operator t ∧ residual_deps_num t' = residual_deps_num t.
Proof. unfold noted. by repeat case_match. Qed.

Lemma retried_keeps t :
  let t' := (retried t).2 in
  name t' = name t ∧ light_tasks t' = light_tasks t ∧ dependents_indexes t' = dependents_indexes t ∧ retry_num t' = retry_num t ∧
  operator t' = operator t ∧ residual_deps_num t' = residual_deps_num t.
Proof. unfold retried, auto_retry. destruct (_ && _); [destruct (_ =? 0); [done|]; by destruct (1 <? residual_auto_retry_num t)|done]. Qed.

Lemma gives_failure n oj mj wf t m :
  failing wf k t → fails k n → reliable m →
  gives (process_notification auto missing saved fuel n OPH_ODB_STATUS_ERROR oj mj wf) (after_failure (n_status n) wf t) m.
Proof.
  intros [Ht Hnm (tl & Htl & Hnl) Hres Hr Hli Hd] (Hk & Hn & Hst) Hm.
  assert (k < length (tasks wf))%nat as Hlen by (by eapply lookup_lt_Some).
  assert (tasks_num wf ≠ k) as Hnk by (intros E; rewrite E, Ht in Htl; destruct Hnm; congruence).
  unfold process_notification. rewrite Hk, cell_nat. go. rewrite (proj2 (Z.leb_gt _ _) Hn). cbv iota.
  set (t1 := noted (n_status n) t). set (wf1 := update_task (Z.of_nat k) t1 wf).
  pose proof (noted_keeps (n_status n) t) as Hkeep. fold t1 in Hkeep. cbv zeta in Hkeep.
  eapply (gives_andthen _ _ (λ x, x.1.1.1 = wf1 ∧ fresh x.1.1.2 ∧ x.1.2 = OPH_ODB_STATUS_ERROR ∧ x.2 = true)).
  { eapply gives_andthen; [by apply gives_noted|]. intros [wf' f'] m1 Hm1 [E Hf']. simpl in E. subst wf'. by go. }
  intros [[[wf' f'] st'] b'] m1 Hm1 (E1 & Hf' & E2 & E3). simpl in E1, Hf', E2, E3. subst wf' st' b'. cbn [negb andb].
  change ((OPH_ODB_STATUS_ERROR =? OPH_ODB_STATUS_COMPLETED) || (OPH_ODB_STATUS_ERROR =? OPH_ODB_STATUS_ERROR)) with true. cbv iota.
  assert (tasks wf1 !! tasks_num wf1 = Some tl) as Htl1.
  { unfold wf1. rewrite update_nat. cbn [tasks set_tasks tasks_num]. by rewrite list_lookup_insert_ne by done. }
  go. rewrite Hnl. unfold end_of_task. rewrite Hk. change (residual_tasks_num wf1) with (residual_tasks_num wf). rewrite (proj2 (Z.eqb_neq _ _) Hres).
  assert (tasks wf1 !! k = Some t1) as Ht1 by (by apply updated_task).
  eapply gives_bind; [apply (yields_keep wf1 t1); [done| |done]|].
  { destruct (Hkeep None) as (_ & _ & E & _ & _ & _ & Eo & _). simpl in E, Eo. rewrite E. eapply Forall_impl; [exact Hd|]. intros d (td & Htd & Hop). unfold wf1.
    rewrite update_nat. unfold cell in *. cbn [tasks set_tasks]. destruct (d <? 0); [done|]. destruct (decide (Z.to_nat d = k)) as [Ek|Ek].
    - rewrite Ek in *. rewrite list_lookup_insert_eq by done. rewrite Ht in Htd. injection Htd as <-. exists t1. by rewrite Eo.
    - rewrite list_lookup_insert_ne by done. by exists td. }
  intros wf2 m2 Hm2 (r & ->). unfold wf1. rewrite update_twice. rewrite cell_nat, updated_task by done. go.
  destruct (Hkeep r) as (Kn & Kl & Kd & Kr & Krr & Ks & _). set (t2 := set_response r t1) in *.
  rewrite Kr, (proj2 (Z.ltb_ge (retry_num t) 0)) by lia. cbv iota.
  change (OPH_ODB_STATUS_ERROR =? OPH_ODB_STATUS_COMPLETED) with false. cbv iota.
  rewrite Kr, (proj2 (Z.eqb_neq (retry_num t) 0)) by lia. rewrite update_twice.
  pose proof (retried_keeps t2) as (Rn & Rl & _). eapply gives_andthen; [apply (gives_retry _ t2); [by apply updated_task|rewrite Krr; lia|done]|].
  intros [[wf3 f3] st3] m3 Hm3 H3. unfold after_failure. fold t1. destruct (retried t2) as [again t'] eqn:E. cbn [snd] in Rn, Rl. destruct again.
  - injection H3 as -> -> ->. rewrite update_twice. apply gives_ret. go. exists r. fold t2. rewrite E. split; [done|]. split; [done|]. apply Hf'.
  - destruct H3 as (wf' & Ewf & [= -> -> ->]). rewrite update_twice in Ewf. eapply gives_bind.
    { eapply (yields_trace_failed _ t'); [|by rewrite Rn, Kn|by rewrite Rl, Kl|done]. subst wf'. by apply updated_task. }
    intros wf4 m4 Hm4 (out & ->). go. exists r. fold t2. rewrite E. split; [exists out; by rewrite Ewf|]. destruct Hf' as (_ & Hf1 & Hf2). simpl.
    change (none_running (set_output out wf')) with (none_running wf'). destruct (none_running wf'); by split.
Qed.

(** *** The next submission *)

(** A task that was submitted: its arguments are filled, it has a job and perhaps a new marker. *)
Definition submitted (t t' : oph_workflow_task) : Prop :=
  ∃ args mk j, t' = set_status OPH_ODB_STATUS_PENDING (set_idjob j (set_markerid mk (set_arguments args t))).

Lemma partly_registered wf t long :
  tasks wf !! k = Some t → light_tasks t = [] →
  partly (register auto new_marker new_job rand server fuel vfuel index0 (Z.of_nat k) long false wf)
    (λ r, served r.2 → ∃ j, r.1 = update_task (Z.of_nat k) (set_status OPH_ODB_STATUS_PENDING (set_idjob j t)) wf).
Proof.
  intros Ht Hl. unfold register. destruct (new_job _ _) as [jobid|]; [|by apply partly_reject]. rewrite cell_nat.
  eapply partly_bind; [apply partly_deref|]. intros t1 Ht1. rewrite Ht in Ht1. injection Ht1 as <-. apply partly_ret_bind. cbn [Z.eqb negb].
  rewrite Hl, bool_decide_eq_true_2 by done. apply partly_skip. intros x. unfold prepare_single.
  rewrite cell_nat, updated_task by (by eapply lookup_lt_Some). apply partly_ret_bind. do 8 (apply partly_skip; intros ?).
  apply partly_ret. intros _. exists jobid. cbn [fst]. by rewrite update_twice.
Qed.

Lemma partly_submitted wf t :
  tasks wf !! k = Some t → light_tasks t = [] →
  partly (submit_task auto new_marker new_job rand server fuel vfuel index0 check_massive (Z.of_nat k) wf)
    (λ r, served r.2 → ∃ j, r.1 = update_task (Z.of_nat k) (set_status OPH_ODB_STATUS_PENDING (set_idjob j t)) wf).
Proof.
  intros Ht Hl. unfold submit_task. apply partly_skip. intros [rc [long short]]. destruct (negb _); [by apply partly_reject|].
  apply partly_skip. intros t1. rewrite Hmassive. cbn [Z.eqb negb]. destruct (_ <? _); by apply partly_registered.
Qed.

Lemma set_markerid_same t : set_markerid (markerid t) t = t.
Proof. by destruct t. Qed.

(** The execution of the task with a request that is served. *)
Lemma partly_executed wf t :
  tasks wf !! k = Some t → light_tasks t = [] →
  partly (execute wf [Z.of_nat k]) (λ c, match c with
    | Next r => r.2 ≠ [] → served r.2 → ∃ t', submitted t t' ∧ r.1 = update_task (Z.of_nat k) t' wf
    | Break _ => True end).
Proof.
  intros Ht Hl. assert (k < length (tasks wf))%nat as Hlen by (by eapply lookup_lt_Some). cbn [oph_workflow_execute].
  destruct (_ || _); [|by apply partly_ret]. cbn [loopC]. eapply (partly_bind _ _ (λ c, match c with
    | Next r => r.2 ≠ [] → served r.2 → ∃ t', submitted t t' ∧ r.1 = update_task (Z.of_nat k) t' wf
    | Break _ => True end)); [|intros [r|] H; by apply partly_ret]. unfold prepare_task.
  apply partly_skip. intros bad. destruct bad; [by apply partly_ret|]. rewrite cell_nat, Ht. apply partly_ret_bind.
  destruct (_ || _); [by apply partly_ret|]. apply partly_skip. intros [b args]. destruct (negb b); [by apply partly_ret|].
  set (t1 := set_arguments args t).
  eapply (partly_bind _ _ (λ r, served r.2 → ∃ t', submitted t t' ∧ r.1 = update_task (Z.of_nat k) t' wf)); [|intros [wf' new] H; by apply partly_ret].
  assert (∀ mk, partly (submit_task auto new_marker new_job rand server fuel vfuel index0 check_massive (Z.of_nat k) (update_task (Z.of_nat k) (set_markerid mk t1) wf))
    (λ r, served r.2 → ∃ t', submitted t t' ∧ r.1 = update_task (Z.of_nat k) t' wf)) as Hsub.
  { intros mk m r m' Hr. eapply (partly_submitted _ (set_markerid mk t1)) in Hr; [|by apply updated_task|done]. intros Hs. destruct (Hr Hs) as [j E].
    eexists. split; [by exists args, mk, j|]. by rewrite E, update_twice. }
  destruct (idjob t =? 0); [|specialize (Hsub (markerid t1)); by rewrite set_markerid_same in Hsub].
  destruct (new_marker _ _) as [mk|]; [|by apply partly_reject]. unfold mark_task. rewrite cell_nat, updated_task by done. apply partly_ret_bind.
  destruct (markerid t1 =? 0); [rewrite update_twice; by apply Hsub|]. specialize (Hsub (markerid t1)). by rewrite set_markerid_same in Hsub.
Qed.

(** *** Sequences of attempts *)

(** All the attempts fail: their number, the status of the first failure, the workflow before it, the workflow and
    the flags after the last one.  After a failure that asks for it the task is executed again, and its request is served. *)
Inductive attempts : nat → Z → oph_workflow → oph_workflow → flags → Prop :=
  | attempts_last wf n oj mj m wf' f m' :
      fails k n → reliable m → process_notification auto missing saved fuel n OPH_ODB_STATUS_ERROR oj mj wf m = Ok (Next (wf', f)) m' →
      retry_task_execution f = false → attempts 1 (n_status n) wf wf' f
  | attempts_more a st wf n oj mj m wf1 f1 m1 l m2 wf2 rqs m3 wf' f :
      fails k n → reliable m → process_notification auto missing saved fuel n OPH_ODB_STATUS_ERROR oj mj wf m = Ok (Next (wf1, f1)) m1 →
      retry_task_execution f1 = true → next_tasks (Z.of_nat k) wf1 f1 m1 = Ok l m2 →
      execute wf1 l m2 = Ok (Next (wf2, rqs)) m3 → rqs ≠ [] → served rqs →
      attempts a st wf2 wf' f → attempts (S a) (n_status n) wf wf' f.

Lemma failing_again wf t t1 t2 :
  failing wf k t → name t1 = name t → light_tasks t1 = light_tasks t → dependents_indexes t1 = dependents_indexes t → operator t1 = operator t →
  0 < residual_retry_num t1 ≤ retry_num t1 → submitted t1 t2 → failing (update_task (Z.of_nat k) t2 (update_task (Z.of_nat k) t1 wf)) k t2.
Proof.
  intros [Ht Hnm (tl & Htl & Hnl) Hres _ Hli Hd] En El Ed Eo Hr (args & mk & j & ->).
  assert (k < length (tasks wf))%nat as Hlen by (by eapply lookup_lt_Some).
  assert (tasks_num wf ≠ k) as Hnk by (intros E; rewrite E, Ht in Htl; destruct Hnm; congruence).
  rewrite update_twice. split; try done.
  - by apply updated_task.
  - by rewrite <-En in Hnm.
  - exists tl. rewrite update_nat. cbn [tasks set_tasks tasks_num]. by rewrite list_lookup_insert_ne by done.
  - by rewrite <-El in Hli.
  - rewrite <-Ed in Hd. eapply Forall_impl; [exact Hd|]. intros d (td & Htd & Hop). rewrite update_nat. unfold cell in *. cbn [tasks set_tasks]. destruct (d <? 0); [done|].
    destruct (decide (Z.to_nat d = k)) as [E|E]; [|rewrite list_lookup_insert_ne by done; by exists td].
    rewrite E in *. rewrite list_lookup_insert_eq by done. rewrite Ht in Htd. injection Htd as <-. eexists. split; [done|]. by rewrite <-Eo in Hop.
Qed.

(** The attempts left, the one that fails now with status [st] included: a task of one attempt that could not be started is
    repeated automatically, and every failure takes two of its automatic retries. *)
Definition attempts_left (st : Z) (t : oph_workflow_task) : Z :=
  if automatic t then
    if is_marked_for_auto_retry t =? 0 then (if st =? OPH_ODB_STATUS_START_ERROR then 1 + (auto + 1) / 2 else 1)
    else Z.max 1 ((residual_auto_retry_num t + 1) / 2)
  else residual_retry_num t.

Definition marks_ok (t : oph_workflow_task) : Prop :=
  automatic t = true → if is_marked_for_auto_retry t =? 0 then residual_auto_retry_num t = 0 else 0 < residual_auto_retry_num t.

(** The retry of a task that takes the automatic ones, by the retries it has left. *)
Lemma retried_auto t :
  auto ≠ 0 → retry_num t = 1 → residual_retry_num t = 1 → is_marked_for_auto_retry t ≠ 0 → 0 < residual_auto_retry_num t →
  retried t = if 1 <? residual_auto_retry_num t then (true, set_residual_auto_retry_num (residual_auto_retry_num t - 1) t) else (false, set_residual_retry_num 0 t).
Proof.
  intros Ha Hr Hrr Hm Hv. unfold retried, auto_retry. rewrite Hr, Hrr, (proj2 (Z.eqb_neq auto 0)), (proj2 (Z.eqb_neq (is_marked_for_auto_retry t) 0)) by done.
  rewrite (proj2 (Z.eqb_neq (residual_auto_retry_num t) 0)) by lia. cbn [negb andb Z.eqb Pos.eqb]. by destruct (1 <? _).
Qed.

(** The retry of another task. *)
Lemma retried_plain t :
  auto = 0 ∨ retry_num t ≠ 1 ∨ is_marked_for_auto_retry t = 0 →
  retried t = (1 <? residual_retry_num t, set_residual_retry_num (residual_retry_num t - 1) t).
Proof.
  intros H. unfold retried, auto_retry. assert (negb (auto =? 0) && negb (is_marked_for_auto_retry t =? 0) && (retry_num t =? 1) = false) as ->; [|done].
  destruct (Z.eqb_spec auto 0), (Z.eqb_spec (is_marked_for_auto_retry t) 0), (Z.eqb_spec (retry_num t) 1); naive_solver.
Qed.

Lemma retried_left st t r :
  0 < residual_retry_num t ≤ retry_num t → marks_ok t →
  let x := retried (set_response r (noted st t)) in
  x.1 = (1 <? attempts_left st t) ∧ 1 ≤ attempts_left st t ∧
  (x.1 = true → marks_ok x.2 ∧ 0 < residual_retry_num x.2 ≤ retry_num x.2 ∧ ∀ st', attempts_left st' x.2 = attempts_left st t - 1).
Proof.
  intros Hr Hok. unfold marks_ok in Hok. cbv zeta.
  assert (∀ t', automatic t' = negb (auto =? 0) && (retry_num t' =? 1)) as Ha by done.
  destruct (automatic t) eqn:Eau.
  - assert (retry_num t = 1 ∧ auto ≠ 0) as [Hr1 Ha0] by (rewrite Ha in Eau; apply andb_prop in Eau as [E1%negb_true_iff E2]; lia). specialize (Hok eq_refl).
    assert (residual_retry_num t = 1) as Hrr by lia.
    assert (∀ t', retry_num t' = 1 → automatic t' = true) as Hau by (intros t' E; by rewrite Ha, E, (proj2 (Z.eqb_neq auto 0))).
    unfold noted. cbn [is_marked_for_auto_retry set_status residual_auto_retry_num]. rewrite (Hau (set_status st t)) by done. unfold attempts_left at 1 2 4. rewrite Eau.
    destruct (Z.eqb_spec (is_marked_for_auto_retry t) 0) as [Em|Em]; cbn [negb orb andb].
    + destruct (st =? OPH_ODB_STATUS_START_ERROR).
      * rewrite Hok. cbn [Z.eqb]. rewrite retried_auto; [|done|done|done|done|simpl; lia]. cbn [residual_auto_retry_num set_response set_is_marked_for_auto_retry set_residual_auto_retry_num].
        rewrite (proj2 (Z.ltb_lt 1 (1 + auto))) by lia. cbn [fst snd]. assert (1 ≤ (auto + 1) / 2) by (Z.to_euclidean_division_equations; lia).
        split; [symmetry; apply Z.ltb_lt; lia|]. split; [lia|]. intros _. split; [|split].
        -- intros _. simpl. lia.
        -- simpl. lia.
        -- intros st'. unfold attempts_left. rewrite Hau by done. cbn [is_marked_for_auto_retry residual_auto_retry_num set_response set_is_marked_for_auto_retry set_residual_auto_retry_num Z.eqb].
           replace (1 + auto - 1 + 1) with (auto + 1) by lia. lia.
      * rewrite retried_plain by (right; right; done). cbn [fst snd residual_retry_num set_response set_residual_auto_retry_num set_status]. rewrite Hrr. split; [done|]. split; [lia|]. done.
    + rewrite (proj2 (Z.eqb_neq (residual_auto_retry_num t) 0)) by lia. destruct (Z.ltb_spec 1 (residual_auto_retry_num t)).
      * rewrite retried_auto; [|done|done|done|done|simpl; lia]. cbn [residual_auto_retry_num set_response set_residual_auto_retry_num].
        destruct (Z.ltb_spec 1 (residual_auto_retry_num t - 1)); cbn [fst snd].
        -- split; [symmetry; apply Z.ltb_lt; Z.to_euclidean_division_equations; lia|]. split; [lia|]. intros _. split; [|split].
           ++ intros _. cbn [is_marked_for_auto_retry residual_auto_retry_num set_response set_residual_auto_retry_num set_status]. rewrite (proj2 (Z.eqb_neq _ _) Em). lia.
           ++ simpl. lia.
           ++ intros st'. unfold attempts_left. rewrite Hau by done. cbn [is_marked_for_auto_retry residual_auto_retry_num set_response set_residual_auto_retry_num set_status].
              rewrite (proj2 (Z.eqb_neq _ _) Em). Z.to_euclidean_division_equations; lia.
        -- split; [symmetry; apply Z.ltb_ge; Z.to_euclidean_division_equations; lia|]. split; [lia|]. done.
      * rewrite retried_auto; [|done|done|done|done|simpl; lia]. cbn [residual_auto_retry_num set_response set_status].
        rewrite (proj2 (Z.ltb_ge 1 (residual_auto_retry_num t))) by done. cbn [fst snd]. split; [symmetry; apply Z.ltb_ge; Z.to_euclidean_division_equations; lia|]. split; [lia|]. done.
  - destruct (noted_keeps st t r) as (_ & _ & _ & Kr & Krr & _). assert (auto = 0 ∨ retry_num t ≠ 1) as Hor by (rewrite Ha in Eau; destruct (Z.eqb_spec auto 0), (Z.eqb_spec (retry_num t) 1); naive_solver).
    rewrite retried_plain by (rewrite Kr; tauto). rewrite Krr. cbn [fst snd]. unfold attempts_left at 1 2 4. rewrite Eau. split; [done|]. split; [lia|]. intros Hc%Z.ltb_lt.
    assert (automatic (set_residual_retry_num (residual_retry_num t - 1) (set_response r (noted st t))) = false) as Ef by (rewrite <-Eau, !Ha; simpl in *; by rewrite Kr).
    split; [intros E; by rewrite Ef in E|]. split; [simpl in *; rewrite Kr; lia|]. intros st'. unfold attempts_left. by rewrite Ef.
Qed.

(** A task that was submitted again is as it was. *)
Lemma submitted_left t t2 : submitted (set_status OPH_ODB_STATUS_UNKNOWN t) t2 → (marks_ok t2 ↔ marks_ok t) ∧ ∀ st, attempts_left st t2 = attempts_left st t.
Proof. by intros (args & mk & j & ->). Qed.

(** C5: A single task all of whose attempts fail, for whatever reason and with any number of automatic retries in the
    configuration, where each new submission is made by oph_workflow_execute and is served, no operation is massive
    and a missing response can be saved: it is submitted exactly as often as it has attempts left. These are
    residual_retry_num, except for a task of one attempt while automatic retries are configured: that is tried once if
    its first failure is not START_ERROR, otherwise 1 + ceil(AUTO_RETRY/2) times in all, because every failure takes
    two of the automatic retries (and ceil(residual_auto_retry_num/2) times from a state in which it is marked for
    them already). The last failure makes the workflow an error, takes the task from the residual ones and ends the
    workflow exactly when no task is running. Every failure is processed without an error and asks for a new
    submission of that task exactly when attempts are left. *)
Theorem attempts_exact wf t :
  failing wf k t → marks_ok t →
  (∀ a st wf' f, attempts a st wf wf' f →
     Z.of_nat a = attempts_left st t ∧ wf_status wf' = OPH_ODB_STATUS_ERROR ∧ residual_tasks_num wf' = residual_tasks_num wf - 1 ∧ final f = none_running wf') ∧
  ∀ n oj mj m, fails k n → reliable m →
    ∃ wf1 f m1, process_notification auto missing saved fuel n OPH_ODB_STATUS_ERROR oj mj wf m = Ok (Next (wf1, f)) m1 ∧
      retry_task_execution f = (1 <? attempts_left (n_status n) t) ∧ (retry_task_execution f = true → next_tasks (Z.of_nat k) wf1 f m1 = Ok [Z.of_nat k] m1).
Proof.
  intros Hf Hok. split.
  - intros a st wf' f Ha. revert t Hf Hok.
    induction Ha as [wf n oj mj m wf' f m' Hn Hm Hp Hre|a st wf n oj mj m wf1 f1 m1 l m2 wf2 rqs m3 wf' f Hn Hm Hp Hre Hl Hx Hne Hsv _ IH]; intros t Hf Hok;
      (eapply gives_elim in Hp; [|by eapply gives_failure]); destruct Hp as [(r & Hp) _];
      destruct (retried_left (n_status n) t r (fa_retry _ _ _ Hf) Hok) as (E & H1 & Hagain);
      pose proof (retried_keeps (set_response r (noted (n_status n) t))) as (Kn & Kl & Kd & _ & Ko & _);
      destruct (retried _) as [again t']; cbn [fst snd] in *; subst again.
    + destruct (Z.ltb_spec 1 (attempts_left (n_status n) t)); [naive_solver congruence|]. destruct Hp as ((out & E) & _ & Hfi). simpl in E, Hfi. split; [lia|]. by rewrite Hfi, E.
    + destruct (Z.ltb_spec 1 (attempts_left (n_status n) t)); [|naive_solver congruence]. destruct Hp as (E & _). simpl in E. subst wf1. destruct (Hagain eq_refl) as (Hok' & Hr' & Hleft).
      unfold next_tasks in Hl. rewrite Hre in Hl. injection Hl as <- <-. destruct (noted_keeps (n_status n) t r) as (Nn & Nl & Nd & _ & _ & _ & No & _).
      assert (k < length (tasks wf))%nat as Hlen by (by eapply lookup_lt_Some, Hf).
      eapply (partly_executed _ (set_status OPH_ODB_STATUS_UNKNOWN t')) in Hx; [|by apply updated_task|simpl; by rewrite Kl, Nl, (fa_single _ _ _ Hf)]. simpl in Hx.
      destruct (Hx Hne Hsv) as (t2 & Hs2 & ->). destruct (submitted_left t' t2 Hs2) as [Hok2 Hleft2].
      destruct (IH t2) as (? & ? & ? & ?); [eapply (failing_again wf t); [done|simpl; congruence..|done|done]|by apply Hok2|].
      split; [rewrite Hleft2, Hleft in *; lia|]. done.
  - intros n oj mj m Hn Hm. pose proof (gives_failure n oj mj wf t m Hf Hn Hm) as Hg. unfold gives, wp in Hg.
    destruct (process_notification _ _ _ _ _ _ _ _ _ m) as [x m1| |]; try done. destruct Hg as (_ & [wf1 f] & -> & r & Hg). exists wf1, f, m1. split; [done|].
    destruct (retried_left (n_status n) t r (fa_retry _ _ _ Hf) Hok) as (E & _). destruct (retried _) as [again t']; cbn [fst snd] in *. subst again.
    assert (retry_task_execution f = (1 <? attempts_left (n_status n) t)) as Ef by (destruct (1 <? _); naive_solver). split; [done|]. intros Et. unfold next_tasks. by rewrite Et.
Qed.
End attempts.

(** The first task of the chain, running: with three attempts of its own, and with one. *)
Definition stubborn (c : Z) : oph_workflow_task := set_status OPH_ODB_STATUS_RUNNING (set_residual_retry_num c (set_retry_num c (default zero_task (head chain_tasks)))).
Definition stubborn_wf (c : Z) : oph_workflow := update_task 0 (stubborn c) chain.
Notation chain_attempts := (attempts 3 false false 10 0 marker_of job_of (λ _, 0) (Some "http://h/ophidia"%string) 10 0 not_massive).

Lemma stubborn_failing c : 0 < c → failing (stubborn_wf c) 0 (stubborn c).
Proof. intros Hc. split; [reflexivity|by eexists|by eexists|done|simpl; lia|done|]. apply Forall_singleton. eexists. split; [reflexivity|by eexists]. Qed.

Lemma stubborn_fails st : canonical_status st = Some OPH_ODB_STATUS_ERROR → fails 0 (on_chain 0 st).
Proof. intros H. by split_and!. Qed.

Ltac failed_attempt st :=
  eapply (attempts_more _ _ _ _ _ _ _ _ _ _ _ _ _ _ _ (on_chain 0 st) None None []);
    [by apply stubborn_fails|apply reliable_nil|evaluate|reflexivity|evaluate|evaluate|done|repeat constructor|].

(** With three automatic retries a task with three attempts that are refused by errors, and a task with one attempt that cannot be started,
    are both submitted three times. *)
Lemma attempts_exact_witness : ∃ wf1 f1 wf2 f2,
  chain_attempts 3 OPH_ODB_STATUS_ERROR (stubborn_wf 3) wf1 f1 ∧ residual_tasks_num wf1 = 1 ∧
  chain_attempts 3 OPH_ODB_STATUS_START_ERROR (stubborn_wf 1) wf2 f2 ∧ residual_tasks_num wf2 = 1.
Proof.
  assert (∃ wf1 f1, chain_attempts 3 OPH_ODB_STATUS_ERROR (stubborn_wf 3) wf1 f1) as (wf1 & f1 & H1).
  { do 2 eexists. do 2 failed_attempt OPH_ODB_STATUS_ERROR. eapply (attempts_last _ _ _ _ _ _ _ _ _ _ _ _ _ (on_chain 0 OPH_ODB_STATUS_ERROR) None None []);
      [by apply stubborn_fails|apply reliable_nil|evaluate|reflexivity]. }
  assert (∃ wf2 f2, chain_attempts 3 OPH_ODB_STATUS_START_ERROR (stubborn_wf 1) wf2 f2) as (wf2 & f2 & H2).
  { do 2 eexists. do 2 failed_attempt OPH_ODB_STATUS_START_ERROR. eapply (attempts_last _ _ _ _ _ _ _ _ _ _ _ _ _ (on_chain 0 OPH_ODB_STATUS_START_ERROR) None None []);
      [by apply stubborn_fails|apply reliable_nil|evaluate|reflexivity]. }
  exists wf1, f1, wf2, f2.
  assert (∀ c : Z, marks_ok 3 (stubborn c)) as Hok by done.
  destruct (attempts_exact 3 false false 10 0 marker_of job_of (λ _, 0) (Some "http://h/ophidia"%string) 10 0 not_massive ltac:(lia) ltac:(done) (λ _ _, eq_refl)
    (stubborn_wf 3) (stubborn 3) (stubborn_failing 3 ltac:(lia)) (Hok 3)) as [A1 _].
  destruct (attempts_exact 3 false false 10 0 marker_of job_of (λ _, 0) (Some "http://h/ophidia"%string) 10 0 not_massive ltac:(lia) ltac:(done) (λ _ _, eq_refl)
    (stubborn_wf 1) (stubborn 1) (stubborn_failing 1 ltac:(lia)) (Hok 1)) as [A2 _].
  destruct (A1 _ _ _ _ H1) as (_ & _ & R1 & _). destruct (A2 _ _ _ _ H2) as (_ & _ & R2 & _).
  split; [exact H1|]. split; [rewrite R1; reflexivity|]. split; [exact H2|]. rewrite R2. reflexivity.
Defined.
End Retry.
