(* ===== verification/RManager.v ===== *)
(** * The resource manager ([src/src/oph_rmanager.c])

    The part of the resource manager that the server keeps itself: its configuration, the command
    it builds for a task, the limits on running tasks and cores, the list of the detached tasks and the
    search of a task in the queue of the scheduler.  The commands themselves run outside. *)

From Stdlib Require Ascii.
From stdpp Require Import base gmap strings numbers pretty list.
From S2P Require Import Prelude CString WfStructs Notify.
Import (notations) Stdlib.Strings.Ascii.

Module RManager.

#[local] Open Scope Z_scope.

Definition RMANAGER_SUCCESS : Z := 0.
Definition RMANAGER_NULL_PARAM : Z := 1.
Definition RMANAGER_FILE_ERROR : Z := 2.
Definition RMANAGER_MEMORY_ERROR : Z := 4.
Definition RMANAGER_ERROR : Z := 5.
Definition OPH_MAX_STRING_SIZE : nat := 4096.

Record oph_rmanager : Type := Rmanager {
  subm_cmd_submit : cstr;
  subm_cmd_start : cstr;
  subm_cmd_mount : cstr;
  subm_cmd_cancel : cstr;
  subm_cmd_stop : cstr;
  subm_cmd_umount : cstr;
  subm_cmd_check : cstr;
  subm_cmd_count : cstr;
  subm_cmd_cancel_all : cstr;
  subm_cmd_progress : cstr;
  subm_multiuser : bool;
  subm_group : cstr;
  subm_queue_high : cstr;
  subm_queue_low : cstr;
  subm_prefix : cstr;
  subm_postfix : cstr;
  subm_cmd_deploy_workers_local_scheduler : cstr;
  subm_cmd_deploy_workers_lsf_scheduler : cstr;
  subm_cmd_deploy_workers_slurm_scheduler : cstr;
  subm_taskid : Z;
  subm_detached_tasks : list Z;
}.

Definition eta_rm (r : oph_rmanager) : oph_rmanager :=
  Rmanager (subm_cmd_submit r) (subm_cmd_start r) (subm_cmd_mount r) (subm_cmd_cancel r) (subm_cmd_stop r) (subm_cmd_umount r) (subm_cmd_check r)
    (subm_cmd_count r) (subm_cmd_cancel_all r) (subm_cmd_progress r) (subm_multiuser r) (subm_group r) (subm_queue_high r) (subm_queue_low r)
    (subm_prefix r) (subm_postfix r) (subm_cmd_deploy_workers_local_scheduler r) (subm_cmd_deploy_workers_lsf_scheduler r)
    (subm_cmd_deploy_workers_slurm_scheduler r) (subm_taskid r) (subm_detached_tasks r).

Definition initialize_rmanager (orm : option oph_rmanager) : Z * option oph_rmanager :=
  match orm with
  | None => (RMANAGER_NULL_PARAM, None)
  | Some _ =>
      (RMANAGER_SUCCESS, Some (Rmanager None None None None None None None None None None false None None None None None None None None 0 []))
  end.

(** ** Configuration *)

Definition OPH_RMANAGER_DEFAULT_QUEUE : string := "ophidia".


(** The parameter of a line. *)
Definition set_param (key target : string) (orm : oph_rmanager) : oph_rmanager :=
  let named k := bool_decide (key = k) in
  if named "SUBM_CMD_TO_SUBMIT"%string then ltac:(set_field eta_rm subm_cmd_submit (Some target) orm)
  else if named "SUBM_CMD_TO_START"%string then ltac:(set_field eta_rm subm_cmd_start (Some target) orm)
  else if named "SUBM_CMD_TO_MOUNT"%string then ltac:(set_field eta_rm subm_cmd_mount (Some target) orm)
  else if named "SUBM_CMD_TO_CANCEL"%string then ltac:(set_field eta_rm subm_cmd_cancel (Some target) orm)
  else if named "SUBM_CMD_TO_STOP"%string then ltac:(set_field eta_rm subm_cmd_stop (Some target) orm)
  else if named "SUBM_CMD_TO_UMOUNT"%string then ltac:(set_field eta_rm subm_cmd_umount (Some target) orm)
  else if named "SUBM_CMD_TO_CHECK"%string then ltac:(set_field eta_rm subm_cmd_check (Some target) orm)
  else if named "SUBM_CMD_TO_COUNT"%string then ltac:(set_field eta_rm subm_cmd_count (Some target) orm)
  else if named "SUBM_CMD_TO_CANCEL_ALL"%string then ltac:(set_field eta_rm subm_cmd_cancel_all (Some target) orm)
  else if named "SUBM_CMD_TO_PROGRESS"%string then ltac:(set_field eta_rm subm_cmd_progress (Some target) orm)
  else if named "SUBM_MULTIUSER"%string then ltac:(set_field eta_rm subm_multiuser (bool_decide (target = "yes"%string)) orm)
  else if named "SUBM_GROUP"%string then ltac:(set_field eta_rm subm_group (Some target) orm)
  else if named "SUBM_QUEUE_HIGH"%string then ltac:(set_field eta_rm subm_queue_high (Some target) orm)
  else if named "SUBM_QUEUE_LOW"%string then ltac:(set_field eta_rm subm_queue_low (Some target) orm)
  else if named "SUBM_PREFIX"%string then ltac:(set_field eta_rm subm_prefix (Some target) orm)
  else if named "SUBM_POSTFIX"%string then ltac:(set_field eta_rm subm_postfix (Some target) orm)
  else if named "SUBM_CMD_TO_DEPLOY_WORKERS_LOCAL_SCHEDULER"%string then ltac:(set_field eta_rm subm_cmd_deploy_workers_local_scheduler (Some target) orm)
  else if named "SUBM_CMD_TO_DEPLOY_WORKERS_LSF_SCHEDULER"%string then ltac:(set_field eta_rm subm_cmd_deploy_workers_lsf_scheduler (Some target) orm)
  else if named "SUBM_CMD_TO_DEPLOY_WORKERS_SLURM_SCHEDULER"%string then ltac:(set_field eta_rm subm_cmd_deploy_workers_slurm_scheduler (Some target) orm)
  else orm.

(** The text before the first [=]. *)
Definition before_mark (p s : string) : string := take_str (String.length s - String.length p) s.

(** A line in the buffer: what is left of it there, and the manager; [None]: no memory. *)
Definition read_line (buffer : string) (orm : oph_rmanager) : C (string * option oph_rmanager) :=
  match buffer with
  | String "#" _ => mret (buffer, Some orm)
  | _ =>
      match strchr buffer "=" with
      | Some (String _ target as p) =>
          t ← strdup (Some target);
          match t with
          | None => mret (before_mark p buffer, None)
          | Some target => mret (before_mark p buffer, Some (set_param (before_mark p buffer) target orm))
          end
      | _ => mret (buffer, Some orm)
      end
  end.

(** The characters up to the next newline. *)
Fixpoint line_of (file : string) : string :=
  match file with
  | EmptyString => EmptyString
  | String c file' => if Ascii.eqb c "010" then EmptyString else String c (line_of file')
  end.
Fixpoint rest_of (file : string) : string :=
  match file with
  | EmptyString => EmptyString
  | String c file' => if Ascii.eqb c "010" then file else rest_of file'
  end.

(** The loop over the file: at an empty line [fscanf] stores nothing and the buffer, which has no content at
    first, is looked at again; a line has to fit the buffer. *)
Fixpoint conf_loop (fuel : nat) (file : string) (buffer : cstr) (orm : oph_rmanager) : C (Z * oph_rmanager) :=
  match fuel with
  | O => out_of_fuel
  | S fuel =>
      match file with
      | EmptyString => mret (RMANAGER_SUCCESS, orm)
      | _ =>
          let line := line_of file in
          assertC (bool_decide (String.length line < OPH_MAX_STRING_SIZE)%nat);;
          b ← deref (if bool_decide (line = EmptyString) then buffer else Some line);
          '(b, r) ← read_line b orm;
          match r with
          | None => mret (RMANAGER_MEMORY_ERROR, orm)
          | Some orm =>
              match rest_of file with
              | String _ file' => conf_loop fuel file' (Some b) orm
              | EmptyString => mret (RMANAGER_SUCCESS, orm)
              end
          end
      end
  end.

Definition or_default (d : string) (v : cstr) : C cstr :=
  match v with Some (String _ _) => mret v | _ => strdup (Some d) end.
Definition or_empty (v : cstr) : C cstr := match v with Some _ => mret v | None => strdup (Some EmptyString) end.

Definition set_texts (h l p q : cstr) (o : oph_rmanager) : oph_rmanager :=
  Rmanager (subm_cmd_submit o) (subm_cmd_start o) (subm_cmd_mount o) (subm_cmd_cancel o) (subm_cmd_stop o) (subm_cmd_umount o) (subm_cmd_check o)
    (subm_cmd_count o) (subm_cmd_cancel_all o) (subm_cmd_progress o) (subm_multiuser o) (subm_group o) h l p q (subm_cmd_deploy_workers_local_scheduler o)
    (subm_cmd_deploy_workers_lsf_scheduler o) (subm_cmd_deploy_workers_slurm_scheduler o) (subm_taskid o) (subm_detached_tasks o).

Definition set_defaults (orm : oph_rmanager) : C oph_rmanager :=
  h ← or_default OPH_RMANAGER_DEFAULT_QUEUE (subm_queue_high orm);
  l ← or_default OPH_RMANAGER_DEFAULT_QUEUE (subm_queue_low orm);
  p ← or_empty (subm_prefix orm);
  q ← or_empty (subm_postfix orm);
  mret (set_texts h l p q orm).

(** [file] is the content of the configuration file. *)
Definition oph_read_rmanager_conf (file : cstr) (orm : option oph_rmanager) : C (Z * option oph_rmanager) :=
  match orm, file with
  | None, _ => mret (RMANAGER_NULL_PARAM, None)
  | Some orm, None => mret (RMANAGER_ERROR, Some orm)
  | Some orm, Some file =>
      '(rc, orm) ← conf_loop (S (String.length file)) file None orm;
      if negb (rc =? 0) then mret (rc, Some orm) else
      match subm_cmd_submit orm with
      | None => mret (RMANAGER_ERROR, Some orm)
      | Some _ => orm ← set_defaults orm; mret (RMANAGER_SUCCESS, Some orm)
      end
  end.

(** ** The command of a task *)

Definition OPH_RMANAGER_PREFIX : string := "oph".
Definition OPH_NULL_FILENAME : string := "/dev/null".

Definition sudo (orm : oph_rmanager) (username : cstr) : string :=
  match username with Some u => if subm_multiuser orm then "sudo -u " +:+ u else EmptyString | None => EmptyString end.

(** The command for the type of the request (a build without support for several nodes); [None]: an error. *)
Definition command_of (orm : oph_rmanager) (type : Z) : option cstr :=
  if type =? 0 then Some (subm_cmd_submit orm)
  else if type =? 1 then match subm_cmd_start orm with None => None | c => Some c end
  else if type =? 2 then match subm_cmd_mount orm with None => None | c => Some c end
  else None.

Definition quote : string := String "034" EmptyString.
Definition set_taskid (v : Z) (orm : oph_rmanager) : oph_rmanager := ltac:(set_field eta_rm subm_taskid v orm).

Definition command_text (orm : oph_rmanager) (port user command mark request outfile project taskname : string) (jobid ncores wid : Z) : C string :=
  prefix ← deref (subm_prefix orm);
  queue ← deref (if ncores =? 1 then subm_queue_high orm else subm_queue_low orm);
  postfix ← deref (subm_postfix orm);
  mret (prefix +:+ " " +:+ user +:+ " " +:+ command +:+ " " +:+ mark +:+ print_int jobid +:+ " " +:+ print_int ncores +:+ " " +:+ outfile +:+ " " +:+ quote
        +:+ request +:+ quote +:+ " " +:+ queue +:+ " " +:+ port +:+ OPH_RMANAGER_PREFIX +:+ " " +:+ print_int wid +:+ " " +:+ project +:+ " '" +:+ taskname +:+ "' " +:+ postfix)%string.

(** The buffer of the command has [OPH_MAX_STRING_SIZE] characters more than the request; [debug] tells whether
    the output is kept. *)
Definition oph_form_subm_string (debug : bool) (port : string) (request : string) (ncores : Z) (outfile : string) (interactive_subm : bool)
    (orm : option oph_rmanager) (jobid : Z) (username project taskname : cstr) (wid type : Z) : C (Z * option oph_rmanager * cstr) :=
  match orm with
  | None => mret (RMANAGER_NULL_PARAM, None, None)
  | Some orm =>
      if interactive_subm then mret (RMANAGER_ERROR, Some orm, None) else
      match command_of orm type with
      | None => mret (RMANAGER_ERROR, Some orm, None)
      | Some command =>
          got ← malloc; if negb got then mret (RMANAGER_MEMORY_ERROR, Some orm, None) else
          assertC (negb (jobid =? 0) || (subm_taskid orm <? 2 ^ 31 - 1));;
          let '(orm, jobid, mark) := if jobid =? 0 then (set_taskid (subm_taskid orm + 1) orm, subm_taskid orm + 1, "_"%string) else (orm, jobid, EmptyString) in
          command ← deref command;
          cmd ← command_text orm port (sudo orm username) command mark request (if debug then outfile else OPH_NULL_FILENAME)
                  (default "''"%string project) (default EmptyString taskname) jobid ncores wid;
          assertC (bool_decide (String.length cmd < OPH_MAX_STRING_SIZE + String.length request)%nat);;
          mret (RMANAGER_SUCCESS, Some orm, Some cmd)
      end
  end.

(** ** Stopping a task *)

(** The name of the task in the line of the queue whose text contains [prefix]. *)
Fixpoint find_taskname (prefix : string) (lines : list string) : cstr :=
  match lines with
  | [] => None
  | pch :: lines' =>
      match Notify.strstr pch prefix with
      | None => find_taskname prefix lines'
      | Some p =>
          let text := before_mark p pch in
          match strrchr text " " with
          | None => find_taskname prefix lines'
          | Some q => Some (before_mark q text)
          end
      end
  end.

Definition job_prefix (port : string) (jobid : Z) : string := port +:+ OPH_RMANAGER_PREFIX +:+ print_int jobid.

(** The command is cut at the size of its buffer. *)
Definition abort_size (port user command prefix postfix : string) : nat :=
  6 + String.length prefix + String.length user + String.length command + String.length port + String.length OPH_RMANAGER_PREFIX + 32 + String.length postfix.
Definition abort_text (port user command prefix postfix taskname : string) (jobid : Z) : string :=
  (prefix +:+ " " +:+ user +:+ " " +:+ command +:+ " " +:+ print_int jobid +:+ " " +:+ port +:+ OPH_RMANAGER_PREFIX +:+ " '" +:+ taskname +:+ "' " +:+ postfix)%string.

(** [queue] is what the check of the queue printed, [submit] the result of a submission; the code and the command that was
    submitted.  The allocation of the name fails like a search without result. *)
Definition oph_abort_request (queue : cstr) (submit : string → bool) (port : string) (orm : option oph_rmanager) (jobid : Z) (username : cstr)
    (command : cstr) : C (Z * cstr) :=
  if jobid =? 0 then mret (RMANAGER_NULL_PARAM, None) else
  match command with
  | None => mret (RMANAGER_SUCCESS, None)
  | Some command =>
      taskname ← (match orm, queue with
                  | Some r, Some response =>
                      match subm_cmd_check r with
                      | None => mret None
                      | Some _ => match find_taskname (job_prefix port jobid) (strtok (String "010" EmptyString) response) with
                                  | None => mret None
                                  | Some nm => strdup (Some nm)
                                  end
                      end
                  | _, _ => mret None
                  end);
      match taskname with
      | None => mret (RMANAGER_SUCCESS, None)
      | Some nm =>
          orm ← deref orm;
          prefix ← deref (subm_prefix orm);
          postfix ← deref (subm_postfix orm);
          let cmd := truncate (abort_size port (sudo orm username) command prefix postfix) (abort_text port (sudo orm username) command prefix postfix nm jobid) in
          mret (if submit cmd then RMANAGER_SUCCESS else RMANAGER_ERROR, Some cmd)
      end
  end.

Definition with_command (f : oph_rmanager → cstr) (queue : cstr) (submit : string → bool) (port : string) (orm : option oph_rmanager) (jobid : Z)
    (username : cstr) : C (Z * cstr) :=
  if jobid =? 0 then mret (RMANAGER_NULL_PARAM, None) else
  match orm with
  | None => mret (RMANAGER_SUCCESS, None)
  | Some r => match f r with None => mret (RMANAGER_SUCCESS, None) | c => oph_abort_request queue submit port orm jobid username c end
  end.
Definition oph_cancel_request := with_command subm_cmd_cancel.
Definition oph_stop_request := with_command subm_cmd_stop.
Definition oph_umount_request := with_command subm_cmd_umount.
Definition oph_cancel_all_request := with_command subm_cmd_cancel_all.

(** ** Detached tasks *)

Definition set_detached (v : list Z) (orm : oph_rmanager) : oph_rmanager := ltac:(set_field eta_rm subm_detached_tasks v orm).

Definition oph_detach_task (id : Z) (orm : option oph_rmanager) : C (Z * option oph_rmanager) :=
  match orm with
  | None => mret (RMANAGER_NULL_PARAM, None)
  | Some orm =>
      if id =? 0 then mret (RMANAGER_SUCCESS, Some orm) else
      got ← malloc; if negb got then mret (RMANAGER_MEMORY_ERROR, Some orm) else
      mret (RMANAGER_SUCCESS, Some (set_detached (id :: subm_detached_tasks orm) orm))
  end.

(** The nodes from the one with the identifier on. *)
Fixpoint find_detached (id : Z) (l : list Z) : list Z :=
  match l with
  | [] => []
  | x :: l' => if x =? id then l else find_detached id l'
  end.

Definition oph_is_detached_task (id : Z) (orm : option oph_rmanager) : Z :=
  match orm with
  | None => RMANAGER_NULL_PARAM
  | Some orm => if id =? 0 then 0 else match find_detached id (subm_detached_tasks orm) with [] => 0 | _ => 1 end
  end.

(** The predecessor of the node is never set: the list begins behind the node afterwards. *)
Definition oph_remove_detached_task (id : Z) (orm : option oph_rmanager) : Z * option oph_rmanager :=
  match orm with
  | None => (RMANAGER_NULL_PARAM, None)
  | Some orm =>
      if id =? 0 then (RMANAGER_SUCCESS, Some orm) else
      match find_detached id (subm_detached_tasks orm) with
      | [] => (RMANAGER_SUCCESS, Some orm)
      | _ :: l => (RMANAGER_SUCCESS, Some (set_detached l orm))
      end
  end.

(** ** Limits *)

(** The counters of the server, unsigned. *)
Record load : Type := Load { task_running : Z; core_running : Z }.

Section limits.
Context (oph_server_task_limit oph_server_core_limit : Z).

(** A request is served with one core at least. *)
Definition served_cores (ncores : Z) : Z := if ncores <? 1 then 1 else ncores.

Definition has_to_wait (ncores : Z) (l : load) : bool :=
  (negb (oph_server_task_limit =? 0) && (oph_server_task_limit <=? task_running l))
  || (negb (oph_server_core_limit =? 0) && (oph_server_core_limit <? wrap_u32 (core_running l + served_cores ncores))).

(** A request that does not wait any longer. *)
Definition occupy (ncores : Z) (l : load) : load :=
  Load (if oph_server_task_limit =? 0 then task_running l else wrap_u32 (task_running l + 1))
    (if oph_server_core_limit =? 0 then core_running l else wrap_u32 (core_running l + served_cores ncores)).

(** A notification of a task that is over, in [oph_workflow_notify]. *)
Definition release (ncores : Z) (l : load) : load :=
  Load (if negb (oph_server_task_limit =? 0) && (0 <? task_running l) then task_running l - 1 else task_running l)
    (if negb (oph_server_core_limit =? 0) && (wrap_u32 ncores <=? core_running l) then core_running l - wrap_u32 ncores else core_running l).

(** *** The limits hold *)

(** The cores of the running tasks, and the counters: a request is served when it has not to wait, and every
    task that is over was served. *)
Inductive busy : list Z → load → Prop :=
  | busy_idle : busy [] (Load 0 0)
  | busy_serve ts l n : busy ts l → 1 ≤ n < 2 ^ 31 → has_to_wait n l = false → busy (n :: ts) (occupy n l)
  | busy_over ts1 n ts2 l : busy (ts1 ++ n :: ts2) l → busy (ts1 ++ ts2) (release n l).

Definition total (ts : list Z) : Z := foldr Z.add 0 ts.

Lemma total_app ts1 ts2 : total (ts1 ++ ts2) = total ts1 + total ts2.
Proof. induction ts1 as [|x ts1 IH]; simpl; lia. Qed.
Lemma total_positive ts : Forall (λ n, 1 ≤ n < 2 ^ 31) ts → 0 ≤ total ts.
Proof. induction 1; simpl; lia. Qed.

Context (Htask : 0 ≤ oph_server_task_limit < 2 ^ 32) (Hcore : 0 ≤ oph_server_core_limit < 2 ^ 31).

Lemma busy_counted ts l :
  busy ts l → Forall (λ n, 1 ≤ n < 2 ^ 31) ts ∧
  (oph_server_task_limit ≠ 0 → task_running l = Z.of_nat (length ts) ∧ Z.of_nat (length ts) ≤ oph_server_task_limit) ∧
  (oph_server_core_limit ≠ 0 → core_running l = total ts ∧ total ts ≤ oph_server_core_limit).
Proof.
  induction 1 as [|ts l n Hb (Hall & Ht & Hc) Hn Hw|ts1 n ts2 l Hb (Hall & Ht & Hc)].
  - split; [by apply Forall_nil|]. simpl. lia.
  - split; [by apply Forall_cons|]. unfold has_to_wait in Hw. apply orb_false_iff in Hw as [Hw1 Hw2]. pose proof (total_positive ts Hall).
    assert (served_cores n = n) as Es by (unfold served_cores; by rewrite (proj2 (Z.ltb_ge n 1)) by lia). unfold occupy. rewrite Es in *. cbn [task_running core_running].
    split; intros Hlim; rewrite (proj2 (Z.eqb_neq _ _) Hlim) in *; cbn [negb andb total foldr length] in *.
    + apply Z.leb_gt in Hw1. destruct (Ht Hlim) as [E _]. rewrite E in *. rewrite wrap_u32_id; lia.
    + apply Z.ltb_ge in Hw2. destruct (Hc Hlim) as [E ?]. rewrite E in *. fold (total ts) in *. rewrite wrap_u32_id in Hw2 by lia. rewrite wrap_u32_id by lia. lia.
  - apply Forall_app in Hall as [Hall1 [Hn Hall2]%Forall_cons]. split; [by apply Forall_app|]. rewrite total_app in *. simpl in Hc.
    pose proof (total_positive ts1 Hall1). pose proof (total_positive ts2 Hall2). rewrite length_app in *. simpl in Ht. unfold release. simpl.
    split; intros Hlim; rewrite (proj2 (Z.eqb_neq _ _) Hlim); cbn [negb andb].
    + destruct (Ht Hlim) as [E ?]. rewrite E. rewrite (proj2 (Z.ltb_lt _ _)) by lia. lia.
    + destruct (Hc Hlim) as [E ?]. rewrite E, wrap_u32_id by lia. rewrite (proj2 (Z.leb_le _ _)) by lia. lia.
Qed.

(** C11: While every task that ends was served before with the cores it asked for (between 1 and 2^31 - 1), starting
    from an idle server, with a task limit below 2^32 and a core limit below 2^31: a task limit other than 0 implies
    that the counter of running tasks is exact and does not exceed it, and a core limit other than 0 implies that the
    unsigned counter of cores is exact, has not wrapped and does not exceed it. *)
Theorem limits_hold ts l :
  busy ts l →
  (oph_server_task_limit ≠ 0 → task_running l = Z.of_nat (length ts) ∧ task_running l ≤ oph_server_task_limit) ∧
  (oph_server_core_limit ≠ 0 → core_running l = total ts ∧ core_running l ≤ oph_server_core_limit).
Proof. intros (_ & Ht & Hc)%busy_counted. split; intros Hlim; [destruct (Ht Hlim) as [-> ?]|destruct (Hc Hlim) as [-> ?]]; done. Qed.

(** A task without cores is served with one core, and releases none. *)
Lemma zero_cores_round (l : load) : 0 ≤ core_running l < oph_server_core_limit → core_running (release 0 (occupy 0 l)) = core_running l + 1.
Proof.
  intros Hc0. unfold release, occupy, served_cores. cbn [core_running]. destruct (Z.eqb_spec oph_server_core_limit 0); [lia|]. cbn [negb andb].
  change (0 <? 1) with true. cbv iota. rewrite !wrap_u32_id by lia. rewrite (proj2 (Z.leb_le _ _)) by lia. lia.
Qed.

(** Once as many such tasks were served and are over as there are cores, every request waits, though no task is running. *)
Theorem zero_cores_block n :
  oph_server_core_limit ≠ 0 → n < 2 ^ 31 →
  has_to_wait n (Nat.iter (Z.to_nat oph_server_core_limit) (λ l, release 0 (occupy 0 l)) (Load 0 0)) = true.
Proof.
  intros Hlim Hn. assert (∀ k, (Z.of_nat k ≤ oph_server_core_limit) → core_running (Nat.iter k (λ l, release 0 (occupy 0 l)) (Load 0 0)) = Z.of_nat k) as H.
  { induction k as [|k IH]; intros Hk; [done|]. rewrite Nat.iter_succ. rewrite zero_cores_round; rewrite IH by lia; lia. }
  unfold has_to_wait. rewrite H by lia. rewrite (proj2 (Z.eqb_neq oph_server_core_limit 0)) by done. cbn [negb andb]. apply orb_true_iff. right. apply Z.ltb_lt.
  assert (1 ≤ served_cores n < 2 ^ 31) by (unfold served_cores; destruct (Z.ltb_spec n 1); lia). rewrite wrap_u32_id; lia.
Qed.
End limits.

Lemma limits_hold_witness : busy 2 4 [3] (occupy 2 4 3 (Load 0 0)) ∧ core_running (occupy 2 4 3 (Load 0 0)) = total [3] ∧ total [3] ≤ 4.
Proof.
  assert (busy 2 4 [3] (occupy 2 4 3 (Load 0 0))) as H by (apply busy_serve; [apply busy_idle|lia|reflexivity]).
  split; [exact H|]. exact (proj2 (limits_hold 2 4 ltac:(lia) ltac:(lia) [3] _ H) ltac:(lia)).
Defined.

(** *** Detached tasks are forgotten *)

Lemma find_detached_app id l1 l2 : id ∉ l1 → find_detached id (l1 ++ id :: l2) = id :: l2.
Proof.
  induction l1 as [|x l1 IH]; intros Hn; simpl; [by rewrite Z.eqb_refl|].
  rewrite (proj2 (Z.eqb_neq x id)) by set_solver. apply IH. set_solver.
Qed.
Lemma find_detached_elem id l : find_detached id l ≠ [] ↔ id ∈ l.
Proof.
  induction l as [|x l IH]; simpl; [split; [done|by intros ?%elem_of_nil]|]. destruct (Z.eqb_spec x id) as [-> |Hne]; [split; [left|done]|].
  rewrite IH, elem_of_cons. split; [by right|]. by intros [-> |].
Qed.

(** Removing a detached task also forgets every task that was detached after it: what is left are the tasks behind it in the list. *)
Theorem remove_forgets_newer orm l1 id l2 x :
  subm_detached_tasks orm = l1 ++ id :: l2 → id ∉ l1 → id ≠ 0 → x ≠ 0 →
  oph_is_detached_task x (oph_remove_detached_task id (Some orm)).2 = 1 ↔ x ∈ l2.
Proof.
  intros E Hn Hid Hx. unfold oph_remove_detached_task. rewrite (proj2 (Z.eqb_neq _ _) Hid), E, find_detached_app by done. cbn [snd oph_is_detached_task].
  rewrite (proj2 (Z.eqb_neq _ _) Hx). rewrite <-find_detached_elem. cbn [subm_detached_tasks set_detached]. by destruct (find_detached x l2).
Qed.

Definition empty_rm : oph_rmanager := default (Rmanager None None None None None None None None None None false None None None None None None None None 0 [])
  (initialize_rmanager None).2.

(** Task 7 was detached after task 5. *)
Lemma remove_forgets_newer_witness :
  let orm := set_detached [7; 5] empty_rm in
  oph_is_detached_task 7 (Some orm) = 1 ∧ oph_is_detached_task 7 (oph_remove_detached_task 5 (Some orm)).2 ≠ 1.
Proof.
  split; [reflexivity|]. intros H. apply (proj1 (remove_forgets_newer (set_detached [7; 5] empty_rm) [7] 5 [] 7 eq_refl ltac:(set_solver) ltac:(lia) ltac:(lia))) in H.
  by apply elem_of_nil in H.
Defined.

(** *** The configuration *)

(** What a line means. *)
Definition assignment (line : string) : option (string * string) :=
  match line with
  | String "#" _ => None
  | _ => match strchr line "=" with Some (String _ target as p) => Some (before_mark p line, target) | _ => None end
  end.
Definition apply_line (orm : oph_rmanager) (line : string) : oph_rmanager :=
  match assignment line with Some (k, v) => set_param k v orm | None => orm end.

(** The file of some lines. *)
Fixpoint conf_text (ls : list string) : string :=
  match ls with
  | [] => EmptyString
  | [l] => l
  | l :: ls' => l +:+ String "010" (conf_text ls')
  end.

Definition line_ok (l : string) : Prop := has_char "010" l = false ∧ (String.length l < OPH_MAX_STRING_SIZE)%nat.

Lemma before_mark_app p r : before_mark r (p +:+ r) = p.
Proof. unfold before_mark. rewrite length_app_str. replace (String.length p + String.length r - String.length r)%nat with (String.length p) by lia. apply take_str_app. Qed.

Lemma line_of_app l s : has_char "010" l = false → line_of (l +:+ String "010" s) = l ∧ rest_of (l +:+ String "010" s) = String "010" s.
Proof.
  induction l as [|c l IH]; intros H; [done|]. rewrite has_char_cons in H. apply orb_false_iff in H as [Hc Hl]. rewrite app_str_cons. simpl. rewrite Hc.
  destruct (IH Hl) as [-> ->]. done.
Qed.
Lemma line_of_last l : has_char "010" l = false → line_of l = l ∧ rest_of l = EmptyString.
Proof.
  induction l as [|c l IH]; intros H; [done|]. rewrite has_char_cons in H. apply orb_false_iff in H as [Hc Hl]. simpl. rewrite Hc. destruct (IH Hl) as [-> ->]. done.
Qed.

(** A line that is looked at again changes nothing. *)
Lemma wp_read_line l orm m :
  reliable m → wp (read_line l orm) (λ r m', reliable m' ∧ r.2 = Some (apply_line orm l) ∧ assignment r.1 = None) m.
Proof.
  intros Hm. unfold read_line, apply_line, assignment. destruct l as [|c l]; [done|]. destruct (decide (c = "#"%char)) as [-> |Hc]; [done|].
  assert (∀ A (x y : A), match c with "#"%char => x | _ => y end = y) as Hne by (intros A x y; destruct c as [[] [] [] [] [] [] [] []]; done). rewrite !Hne.
  destruct (strchr (String c l) "=") as [[|d target]|] eqn:E; [by apply strchr_suffix in E as (? & _ & _ & ? & [=])| |].
  - apply strchr_suffix in E as (p & -> & Hp & t & [= -> ->]). rewrite before_mark_app. wp_step. apply wp_strdup; [done|]. intros m1 Hm1. wp_step. split; [done|]. split; [done|].
    simpl. destruct p as [|a p]; [done|]. assert (strchr (String a p) "=" = None) as -> by (unfold has_char in Hp; by apply bool_decide_eq_false, eq_None_not_Some in Hp).
    destruct a as [[] [] [] [] [] [] [] []]; done.
  - wp_step. split; [done|]. split; [done|]. cbn [fst]. by rewrite Hne, E.
Qed.

Lemma wp_conf_loop fuel ls b orm m :
  Forall line_ok ls → (length ls ≤ fuel)%nat → reliable m →
  match b with Some b => assignment b = None | None => hd EmptyString ls ≠ EmptyString ∨ ls = [] end →
  wp (conf_loop (S fuel) (conf_text ls) b orm) (λ r m', reliable m' ∧ r = (RMANAGER_SUCCESS, foldl apply_line orm ls)) m.
Proof.
  intros Hls. revert fuel b orm m. induction Hls as [|l ls [Hl Hlen] Hls IH]; intros fuel b orm m Hf Hm Hb; [done|].
  assert (∃ x, (if bool_decide (l = EmptyString) then b else Some l) = Some x ∧ (∀ o, apply_line o x = apply_line o l)) as (x & Hx & Hap).
  { case_bool_decide as E; [|by exists l]. subst l. destruct b as [b|]; [|by destruct Hb]. exists b. split; [done|]. intros o. unfold apply_line. by rewrite Hb. }
  destruct fuel as [|fuel]; [simpl in Hf; lia|].
  destruct ls as [|l2 ls].
  - cbn [conf_text foldl]. destruct l as [|c l]; [done|]. cbn [conf_loop]. destruct (line_of_last _ Hl) as [-> ->]. wp_step. apply wp_assert; [by apply bool_decide_eq_true|].
    wp_step. apply (wp_deref _ _ _ _ Hx). wp_step. eapply wp_mono; [by apply wp_read_line|]. intros [b' r] m1 (Hm1 & Hr & Hb'). simpl in Hr, Hb'. subst r.
    wp_step. split; [done|]. by rewrite Hap.
  - change (conf_text (l :: l2 :: ls)) with (l +:+ String "010" (conf_text (l2 :: ls))). set (text := conf_text (l2 :: ls)) in *.
    change (foldl apply_line orm (l :: l2 :: ls)) with (foldl apply_line (apply_line orm l) (l2 :: ls)).
    assert (∀ A (x y : A), match l +:+ String "010" text with EmptyString => x | String _ _ => y end = y) as Hne by (by destruct l).
    cbn [conf_loop]. rewrite Hne. destruct (line_of_app l text Hl) as [-> ->]. wp_step. apply wp_assert; [by apply bool_decide_eq_true|].
    wp_step. apply (wp_deref _ _ _ _ Hx). wp_step. eapply wp_mono; [by apply wp_read_line|]. intros [b' r] m1 (Hm1 & Hr & Hb'). simpl in Hr, Hb'. subst r.
    rewrite Hap. apply IH; [simpl in *; lia|done|done].
Qed.

(** The parameters that are texts: those that are kept as they are, and those with a default. *)
Definition plain_params : list (string * (oph_rmanager → cstr)) :=
  [("SUBM_CMD_TO_SUBMIT", subm_cmd_submit); ("SUBM_CMD_TO_START", subm_cmd_start); ("SUBM_CMD_TO_MOUNT", subm_cmd_mount); ("SUBM_CMD_TO_CANCEL", subm_cmd_cancel);
   ("SUBM_CMD_TO_STOP", subm_cmd_stop); ("SUBM_CMD_TO_UMOUNT", subm_cmd_umount); ("SUBM_CMD_TO_CHECK", subm_cmd_check); ("SUBM_CMD_TO_COUNT", subm_cmd_count);
   ("SUBM_CMD_TO_CANCEL_ALL", subm_cmd_cancel_all); ("SUBM_CMD_TO_PROGRESS", subm_cmd_progress); ("SUBM_GROUP", subm_group);
   ("SUBM_CMD_TO_DEPLOY_WORKERS_LOCAL_SCHEDULER", subm_cmd_deploy_workers_local_scheduler);
   ("SUBM_CMD_TO_DEPLOY_WORKERS_LSF_SCHEDULER", subm_cmd_deploy_workers_lsf_scheduler);
   ("SUBM_CMD_TO_DEPLOY_WORKERS_SLURM_SCHEDULER", subm_cmd_deploy_workers_slurm_scheduler)]%string.
Definition default_params : list (string * (oph_rmanager → cstr)) :=
  [("SUBM_QUEUE_HIGH", subm_queue_high); ("SUBM_QUEUE_LOW", subm_queue_low); ("SUBM_PREFIX", subm_prefix); ("SUBM_POSTFIX", subm_postfix)]%string.

(** The value that the last line for the parameter gives. *)
Definition last_value (key : string) (ls : list string) : cstr :=
  foldl (λ v l, match assignment l with Some (k, x) => if bool_decide (k = key) then Some x else v | None => v end) None ls.

Lemma set_param_value key proj k v orm :
  (key, proj) ∈ plain_params ++ default_params → proj (set_param k v orm) = if bool_decide (k = key) then Some v else proj orm.
Proof.
  intros H. unfold plain_params, default_params in H. cbn [app] in H. unfold set_param.
  repeat (apply elem_of_cons in H as [[= -> ->]|H]; [cbv zeta; repeat (case_bool_decide; [by subst; first [done|rewrite bool_decide_eq_false_2 by done]|]); done|]).
  by apply elem_of_nil in H.
Qed.

Lemma apply_lines_value key proj ls orm :
  (key, proj) ∈ plain_params ++ default_params → proj orm = None → proj (foldl apply_line orm ls) = last_value key ls.
Proof.
  intros Hin Hnone. unfold last_value. rewrite <-Hnone. clear Hnone. revert orm. induction ls as [|l ls IH]; intros orm; [done|]. cbn [foldl]. rewrite IH. f_equal.
  unfold apply_line. destruct (assignment l) as [[k v]|]; [|done]. by apply set_param_value.
Qed.

Definition unset : oph_rmanager := Rmanager None None None None None None None None None None false None None None None None None None None 0 [].

Ltac member := first [constructor 1|constructor 2; member].

(** The defaults do not touch the other parameters. *)
Lemma plain_kept key proj o h l p q :
  (key, proj) ∈ plain_params →
  proj unset = None ∧
  proj (set_texts h l p q o) = proj o.
Proof.
  intros Hin. unfold plain_params in Hin. repeat (apply elem_of_cons in Hin as [[= -> ->]|Hin]; [split; reflexivity|]). by apply elem_of_nil in Hin.
Qed.

Lemma lines_le_length ls : hd EmptyString ls ≠ EmptyString → (length ls ≤ String.length (conf_text ls))%nat.
Proof.
  assert (∀ ls, (length ls ≤ S (String.length (conf_text ls)))%nat) as H.
  { clear ls. intros ls. induction ls as [|l [|l2 ls'] IH]; [simpl; lia|simpl; lia|]. change (conf_text (l :: l2 :: ls')) with (l +:+ String "010" (conf_text (l2 :: ls'))).
    rewrite length_app_str. cbn [length String.length] in *. lia. }
  destruct ls as [|l [|l2 ls']]; cbn [hd]; intros Hl; [simpl; lia| |].
  - destruct l; [done|]. simpl. lia.
  - change (conf_text (l :: l2 :: ls')) with (l +:+ String "010" (conf_text (l2 :: ls'))). rewrite length_app_str. specialize (H (l2 :: ls')).
    destruct l; [done|]. cbn [length String.length] in *. lia.
Qed.

Lemma wp_or_default d v m Q : reliable m → (∀ m', reliable m' → Q (Some (match v with Some (String c x) => String c x | _ => d end)) m') → wp (or_default d v) Q m.
Proof. intros Hm HQ. unfold or_default. destruct v as [[|c x]|]; [by apply wp_strdup|by apply HQ|by apply wp_strdup]. Qed.
Lemma wp_or_empty v m Q : reliable m → (∀ m', reliable m' → Q (Some (default EmptyString v)) m') → wp (or_empty v) Q m.
Proof. intros Hm HQ. unfold or_empty. destruct v as [x|]; [by apply HQ|by apply wp_strdup]. Qed.

(** Reading a configuration file gives every parameter the value of the last line that sets it, whatever comments, empty and other lines
    are between them, or its default; it fails exactly when there is no command to submit.  The first line must not be empty. *)
Theorem read_conf_correct (ls : list string) (m : mem) :
  Forall line_ok ls → hd EmptyString ls ≠ EmptyString → reliable m →
  wp (oph_read_rmanager_conf (Some (conf_text ls)) (Some unset)) (λ r _, ∃ o, r.2 = Some o ∧
    r.1 = (match last_value "SUBM_CMD_TO_SUBMIT" ls with None => RMANAGER_ERROR | Some _ => RMANAGER_SUCCESS end) ∧
    (∀ key proj, (key, proj) ∈ plain_params → proj o = last_value key ls) ∧
    (r.1 = RMANAGER_SUCCESS →
       subm_queue_high o = Some (match last_value "SUBM_QUEUE_HIGH" ls with Some (String c x) => String c x | _ => OPH_RMANAGER_DEFAULT_QUEUE end) ∧
       subm_queue_low o = Some (match last_value "SUBM_QUEUE_LOW" ls with Some (String c x) => String c x | _ => OPH_RMANAGER_DEFAULT_QUEUE end) ∧
       subm_prefix o = Some (default EmptyString (last_value "SUBM_PREFIX" ls)) ∧ subm_postfix o = Some (default EmptyString (last_value "SUBM_POSTFIX" ls)))) m.
Proof.
  intros Hls Hhd Hm. unfold oph_read_rmanager_conf. wp_step. eapply wp_mono.
  { apply wp_conf_loop; [done|by apply lines_le_length|done|by left]. }
  intros r m1 [Hm1 ->]. change (RMANAGER_SUCCESS =? 0) with true. cbn [negb]. set (o := foldl apply_line unset ls).
  assert (∀ key proj, (key, proj) ∈ plain_params ++ default_params → proj unset = None → proj o = last_value key ls) as Hv by (intros; by apply apply_lines_value).
  assert (∀ key proj, (key, proj) ∈ plain_params → proj o = last_value key ls) as Hp.
  { intros key proj Hin. apply Hv; [by apply elem_of_app; left|apply (plain_kept _ _ unset None None None None Hin)]. }
  clearbody o. pose proof (Hp "SUBM_CMD_TO_SUBMIT"%string subm_cmd_submit ltac:(member)) as Es. rewrite <-Es.
  destruct (subm_cmd_submit o); [|wp_step; exists o; split_and!; [reflexivity|reflexivity|exact Hp|intros [=]]]. wp_step. unfold set_defaults.
  wp_step. apply wp_or_default; [done|]. intros m2 Hm2. wp_step. apply wp_or_default; [done|]. intros m3 Hm3. wp_step. apply wp_or_empty; [done|]. intros m4 Hm4.
  wp_step. apply wp_or_empty; [done|]. intros m5 Hm5. wp_step. wp_step. eexists. split; [reflexivity|]. split; [reflexivity|]. split.
  - intros key proj Hin. rewrite <-(Hp key proj Hin). exact (proj2 (plain_kept key proj o _ _ _ _ Hin)).
  - intros _. cbn [subm_queue_high subm_queue_low subm_prefix subm_postfix set_texts].
    rewrite (Hv "SUBM_QUEUE_HIGH"%string subm_queue_high), (Hv "SUBM_QUEUE_LOW"%string subm_queue_low), (Hv "SUBM_PREFIX"%string subm_prefix),
      (Hv "SUBM_POSTFIX"%string subm_postfix) by (reflexivity || (unfold plain_params, default_params; cbn [app]; member)). split_and!; reflexivity.
Qed.

Definition sample_conf : list string := ["# resources"; "SUBM_CMD_TO_SUBMIT=run"; ""; "SUBM_QUEUE_LOW="; "SUBM_CMD_TO_SUBMIT=srun"]%string.

Lemma read_conf_correct_witness :
  wp (oph_read_rmanager_conf (Some (conf_text sample_conf)) (Some unset)) (λ r _, ∃ o, r.2 = Some o ∧ r.1 = RMANAGER_SUCCESS ∧
    subm_cmd_submit o = Some "srun"%string ∧ subm_queue_low o = Some "ophidia"%string) [].
Proof.
  eapply wp_mono; [apply (read_conf_correct sample_conf); [|done|apply reliable_nil]|].
  - repeat (apply Forall_cons; split; [split; [reflexivity|apply Nat.ltb_lt; reflexivity]|]). apply Forall_nil. exact I.
  - intros r m' (o & E & Hr & Hp & Hd). exists o. split; [exact E|]. split; [exact Hr|]. split.
    + exact (Hp "SUBM_CMD_TO_SUBMIT"%string subm_cmd_submit ltac:(constructor 1)).
    + exact (proj1 (proj2 (Hd Hr))).
Defined.


(** *** The command that stops a task *)

(** The command that stops a task is complete exactly when the name of the task and its number have at most 29 characters together;
    a longer one is cut, because the buffer is not sized by the name. *)
Theorem stop_command_complete port user command prefix postfix nm jobid :
  truncate (abort_size port user command prefix postfix) (abort_text port user command prefix postfix nm jobid)
    = abort_text port user command prefix postfix nm jobid ↔
  (String.length (print_int jobid) + String.length nm ≤ 29)%nat.
Proof.
  assert (String.length (abort_text port user command prefix postfix nm jobid) + 29 =
    abort_size port user command prefix postfix - 1 + String.length (print_int jobid) + String.length nm)%nat as Hlen.
  { unfold abort_text, abort_size. repeat (rewrite length_app_str; cbn [String.length]). lia. }
  unfold truncate. split.
  - intros E. apply (f_equal String.length) in E. rewrite length_take_str in E. lia.
  - intros H. apply take_str_ge. lia.
Qed.

(** The job is searched by a prefix of its number: job 12 is taken for job 1. *)
Lemma longer_number_found :
  find_taskname (job_prefix "11732" 1) ["sort 11732oph12 run"; "copy 11732oph1 run"]%string = Some "sort"%string.
Proof. reflexivity. Qed.
End RManager.
