(* ===== verification/Subset.v ===== *)
(** * Subsets of indexes

    [src/oph_subset_library.c]: a text like [1:2:9,12,20:end] is read into five
    parallel arrays (type, start, end, stride, number of elements).  The arrays
    are pointers ([None] is null) to cells that may be uninitialised ([None]).
    The releases in [_oph_subset_free] reset the pointers; nothing else of it is
    observable. *)

From Stdlib Require Ascii.
From stdpp Require Import base gmap strings numbers pretty list.
From S2P Require Import Prelude CString.
Import (notations) Stdlib.Strings.Ascii.

Module Subset.
Open Scope Z_scope.

(** ** Data *)

Definition OPH_SUBSET_LIB_MAX_STRING_LENGTH : nat := 1024.
Definition OPH_SUBSET_LIB_OK : Z := 0.
Definition OPH_SUBSET_LIB_DATA_ERR : Z := 1.
Definition OPH_SUBSET_LIB_NULL_POINTER_ERR : Z := 2.
Definition OPH_SUBSET_LIB_SYSTEM_ERR : Z := 3.
Definition OPH_SUBSET_LIB_PARAM_SEPARATOR : string := ":".
Definition OPH_SUBSET_LIB_SUBSET_SEPARATOR : string := ",".
Definition OPH_SUBSET_LIB_PARAM_END : string := "end".

Inductive oph_subset_type : Type :=
| OPH_SUBSET_LIB_SINGLE
| OPH_SUBSET_LIB_INTERVAL
| OPH_SUBSET_LIB_STRIDE.

(** An array of [malloc]: a null pointer, or cells that may be uninitialised. *)
Definition array (A : Type) : Type := option (list (option A)).

Record oph_subset : Type := mk_oph_subset {
  type : array oph_subset_type;
  start : array Z;
  end_ : array Z;
  stride : array Z;
  count : array Z;
  total : Z;
  number : Z;
}.

Definition subset_eta (s : oph_subset) : oph_subset :=
  mk_oph_subset (type s) (start s) (end_ s) (stride s) (count s) (total s) (number s).
Definition set_type v s : oph_subset := ltac:(set_field subset_eta type v s).
Definition set_start v s : oph_subset := ltac:(set_field subset_eta start v s).
Definition set_end v s : oph_subset := ltac:(set_field subset_eta end_ v s).
Definition set_stride v s : oph_subset := ltac:(set_field subset_eta stride v s).
Definition set_count v s : oph_subset := ltac:(set_field subset_eta count v s).
Definition set_total v s : oph_subset := ltac:(set_field subset_eta total v s).
Definition set_number v s : oph_subset := ltac:(set_field subset_eta number v s).

(** ** Arrays *)

Definition alloc_array {A} (n : nat) : C (array A) :=
  ok ← malloc; mret (if ok : bool then Some (replicate n None) else None).

(** [a[i] = v] *)
Definition put {A} (a : array A) (i : nat) (v : option A) : C (array A) :=
  l ← deref a; assertC (bool_decide (i < length l)%nat);; mret (Some (<[i := v]> l)).

(** [a[i]] as a value to be copied, or to be computed with. *)
Definition fetch {A} (a : array A) (i : nat) : C (option A) := l ← deref a; deref (l !! i).
Definition value {A} (a : array A) (i : nat) : C A := v ← fetch a i; deref v.

(** ** Operations *)

Definition _oph_subset_free (s : oph_subset) : oph_subset :=
  mk_oph_subset None None None None None (total s) (number s).

(** [*subset = malloc(...)]: the fields of the new structure are indeterminate. *)
Definition oph_subset_init (subset : bool) : C Z :=
  if negb subset then mret OPH_SUBSET_LIB_NULL_POINTER_ERR
  else ok ← malloc; mret (if ok : bool then OPH_SUBSET_LIB_OK else OPH_SUBSET_LIB_SYSTEM_ERR).

(** The assignment of [subset->end[i]] the three cases of the switch share. *)
Definition read_end (max : Z) (i : nat) (result2 : string) (s : oph_subset) : C (Z * oph_subset) :=
  if strncasecmp0 result2 OPH_SUBSET_LIB_PARAM_END (String.length OPH_SUBSET_LIB_PARAM_END) then
    if negb (max =? 0) then
      e ← put (end_ s) i (Some max); mret (OPH_SUBSET_LIB_OK, set_end e s)
    else mret (OPH_SUBSET_LIB_DATA_ERR, s)
  else e ← put (end_ s) i (Some (strtol result2)); mret (OPH_SUBSET_LIB_OK, set_end e s).

(** The body of the loop over the parameters of a clause: [switch (number)]. *)
Definition param (max : Z) (i number : nat) (result2 : string) (s : oph_subset) : C (Z * oph_subset) :=
  match number with
  | 0%nat =>
      '(retval, s) ← read_end max i result2 s;
      e ← fetch (end_ s) i;
      st ← put (start s) i e;
      sr ← put (stride s) i (Some 1);
      ty ← put (type s) i (Some OPH_SUBSET_LIB_SINGLE);
      mret (retval, set_type ty (set_stride sr (set_start st s)))
  | 1%nat =>
      '(retval, s) ← read_end max i result2 s;
      ty ← put (type s) i (Some OPH_SUBSET_LIB_INTERVAL);
      mret (retval, set_type ty s)
  | 2%nat =>
      e ← fetch (end_ s) i;
      sr ← put (stride s) i (wrap_u64 <$> e);
      '(retval, s) ← read_end max i result2 (set_stride sr s);
      v ← value (stride s) i;
      if 1 <? v then ty ← put (type s) i (Some OPH_SUBSET_LIB_STRIDE); mret (retval, set_type ty s)
      else mret (retval, s)
  | _ => mret (OPH_SUBSET_LIB_DATA_ERR, s)
  end.

(** [while (result2 && (retval == OPH_SUBSET_LIB_OK))] over the tokens. *)
Fixpoint params (max : Z) (i number : nat) (tokens : list string) (s : oph_subset) : C (nat * Z * oph_subset) :=
  match tokens with
  | [] => mret (number, OPH_SUBSET_LIB_OK, s)
  | result2 :: tokens' =>
      '(retval, s) ← param max i number result2 s;
      if retval =? OPH_SUBSET_LIB_OK then params max i (S number) tokens' s
      else mret (S number, retval, s)
  end.

(** The values of a clause without parameters. *)
Definition whole_range (max : Z) (i : nat) (s : oph_subset) : C oph_subset :=
  ty ← put (type s) i (Some OPH_SUBSET_LIB_INTERVAL);
  sr ← put (stride s) i (Some 1);
  st ← put (start s) i (Some 1);
  let s := set_start st (set_stride sr (set_type ty s)) in
  if negb (max =? 0) then e ← put (end_ s) i (Some max); mret (set_end e s)
  else v ← fetch (start s) i; e ← put (end_ s) i v; mret (set_end e s).

(** The body of the loop over the clauses: clause [i] with the text [result]. *)
Definition clause (max : Z) (st : nat * oph_subset) (result : string) : C (ctl (nat * oph_subset) (Z * oph_subset)) :=
  let '(i, s) := st in
  '(number, retval, s) ← params max i 0 (strtok OPH_SUBSET_LIB_PARAM_SEPARATOR result) s;
  if negb (retval =? OPH_SUBSET_LIB_OK) then mret (Break (retval, s))
  else
    s ← (if (number =? 0)%nat then whole_range max i s else mret s);
    sr ← value (stride s) i;
    if sr =? 0 then mret (Break (OPH_SUBSET_LIB_DATA_ERR, s))
    else
      a ← value (start s) i;
      e ← value (end_ s) i;
      if e <? a then mret (Break (OPH_SUBSET_LIB_DATA_ERR, s))
      else
        (* a signed subtraction, then an unsigned division *)
        assertC (bool_decide (e - a < 2 ^ 63));;
        let c := wrap_u64 (1 + wrap_u64 (e - a) / sr) in
        cs ← put (count s) i (Some c);
        mret (Next (S i, set_total (wrap_u64 (total s + c)) (set_count cs s))).

(** The clauses are separated twice: [strtok_r] counts the non-empty ones, the loop
    over [strchr] visits all of them. *)
Definition oph_subset_parse (cond : cstr) (len : nat) (subset : option oph_subset) (max : Z) : C (Z * option oph_subset) :=
  match subset with
  | None => mret (OPH_SUBSET_LIB_NULL_POINTER_ERR, None)
  | Some s =>
      cond ← deref cond;
      assertC (bool_decide (len < OPH_SUBSET_LIB_MAX_STRING_LENGTH)%nat);;
      let temp := take_str len cond in
      let num := length (strtok OPH_SUBSET_LIB_SUBSET_SEPARATOR temp) in
      let s := set_number (Z.of_nat num) s in
      if (num =? 0)%nat then mret (OPH_SUBSET_LIB_DATA_ERR, Some s)
      else
        ty ← alloc_array num; st ← alloc_array num; e ← alloc_array num;
        sr ← alloc_array num; c ← alloc_array num;
        r ← loopC (clause max) (0%nat, mk_oph_subset ty st e sr c 0 (Z.of_nat num))
              (split_on (λ c, has_char c OPH_SUBSET_LIB_SUBSET_SEPARATOR) temp);
        match r with
        | Next (_, s) => mret (OPH_SUBSET_LIB_OK, Some s)
        | Break (retval, s) => mret (retval, Some (_oph_subset_free s))
        end
  end.

(** ** What a clause means *)

Record range : Type := mk_range { r_type : oph_subset_type; r_start : Z; r_end : Z; r_stride : Z }.

Definition param_value (max : Z) (w : string) : option Z :=
  if strncasecmp0 w OPH_SUBSET_LIB_PARAM_END (String.length OPH_SUBSET_LIB_PARAM_END)
  then (if max =? 0 then None else Some max) else Some (strtol w).

(** The range of a list of parameters, [None] where the code reports an error. *)
Definition range_of (max : Z) (ws : list string) : option range :=
  match ws with
  | [] => Some (mk_range OPH_SUBSET_LIB_INTERVAL 1 (if max =? 0 then 1 else max) 1)
  | [a] => v ← param_value max a; Some (mk_range OPH_SUBSET_LIB_SINGLE v v 1)
  | [a; b] => v ← param_value max a; w ← param_value max b; Some (mk_range OPH_SUBSET_LIB_INTERVAL v w 1)
  | [a; d; b] =>
      v ← param_value max a; d ← param_value max d; w ← param_value max b;
      Some (mk_range (if 1 <? wrap_u64 d then OPH_SUBSET_LIB_STRIDE else OPH_SUBSET_LIB_INTERVAL) v w (wrap_u64 d))
  | _ => None
  end.

Definition range_ok (r : range) : bool := negb (r_stride r =? 0) && (r_start r <=? r_end r).

(** The range a clause denotes. *)
Definition meaning (max : Z) (w : string) : option range :=
  r ← range_of max (strtok OPH_SUBSET_LIB_PARAM_SEPARATOR w); if range_ok r then Some r else None.

(** The number of elements [start], [start + stride], ... up to [end]. *)
Definition elements (r : range) : Z := 1 + (r_end r - r_start r) / r_stride r.
Definition elements_u64 (r : range) : Z := wrap_u64 (1 + wrap_u64 (r_end r - r_start r) / r_stride r).

(** ** Arrays during the loop *)

(** The cells before [i] are set, cell [i] is [x], the others are not set yet. *)
Definition at_cell {A} (xs : list A) (x : option A) (k : nat) : array A :=
  Some ((Some <$> xs) ++ x :: replicate k None).

Lemma wp_put_cell {A} (xs : list A) x k v Q m i :
  i = length xs → Q (at_cell xs v k) m → wp (put (at_cell xs x k) i v) Q m.
Proof.
  intros -> HQ. unfold put, at_cell. wp_steps.
  - apply bool_decide_eq_true. rewrite length_app, length_fmap. simpl. lia.
  - rewrite insert_app_r_alt by (by rewrite length_fmap). rewrite length_fmap, Nat.sub_diag. exact HQ.
Qed.

Lemma wp_fetch_cell {A} (xs : list A) x k Q m i :
  i = length xs → Q x m → wp (fetch (at_cell xs x k) i) Q m.
Proof.
  intros -> HQ. unfold fetch, at_cell. wp_steps. eapply wp_deref; [|exact HQ].
  rewrite lookup_app_r by (by rewrite length_fmap). by rewrite length_fmap, Nat.sub_diag.
Qed.

Lemma wp_value_cell {A} (xs : list A) v k Q m i :
  i = length xs → Q v m → wp (value (at_cell xs (Some v) k) i) Q m.
Proof. intros ? HQ. unfold value. wp_step. apply wp_fetch_cell; [done|]. by wp_steps. Qed.

(** The structure after the clauses [rs]; [k] cells are left. *)
Definition done_cells {A} (f : range → A) (rs : list range) (k : nat) : array A :=
  Some ((Some <$> (f <$> rs)) ++ replicate k None).
Definition sum_u64 (rs : list range) : Z := foldl (λ t r, wrap_u64 (t + elements_u64 r)) 0 rs.
Definition filled (rs : list range) (k : nat) : oph_subset :=
  mk_oph_subset (done_cells r_type rs k) (done_cells r_start rs k) (done_cells r_end rs k)
    (done_cells r_stride rs k) (done_cells elements_u64 rs k) (sum_u64 rs) (Z.of_nat (length rs + k)).

Section clause.
Context (max : Z) (rs : list range) (k : nat).

(** The structure within a clause. *)
Definition within (t : option oph_subset_type) (a e d : option Z) : oph_subset :=
  mk_oph_subset (at_cell (r_type <$> rs) t k) (at_cell (r_start <$> rs) a k) (at_cell (r_end <$> rs) e k)
    (at_cell (r_stride <$> rs) d k) (at_cell (elements_u64 <$> rs) None k) (sum_u64 rs) (Z.of_nat (length rs + S k)).

Lemma filled_within : filled rs (S k) = within None None None None.
Proof. done. Qed.

Lemma filled_snoc r : sum_u64 (rs ++ [r]) = wrap_u64 (sum_u64 rs + elements_u64 r).
Proof. unfold sum_u64. by rewrite foldl_app. Qed.

Lemma at_cell_done {A} (f : range → A) r : at_cell (f <$> rs) (Some (f r)) k = done_cells f (rs ++ [r]) k.
Proof. unfold at_cell, done_cells. by rewrite !fmap_app, <-app_assoc. Qed.

Notation i := (length rs).
Ltac cell := first [apply wp_put_cell|apply wp_fetch_cell|apply wp_value_cell]; [by rewrite length_fmap|].

Lemma wp_read_end w t a e d Q m :
  match param_value max w with
  | Some v => Q (OPH_SUBSET_LIB_OK, within t a (Some v) d) m
  | None => Q (OPH_SUBSET_LIB_DATA_ERR, within t a e d) m
  end → wp (read_end max i w (within t a e d)) Q m.
Proof.
  unfold read_end, param_value. destruct (strncasecmp0 _ _ _); [destruct (max =? 0)|]; simpl negb; cbv iota;
    intros HQ; [by apply wp_ret|wp_step; cell; by wp_step..].
Qed.

(** One parameter: the value is stored, an error leaves some state behind. *)
Lemma wp_param_first w Q m :
  match param_value max w with
  | Some v => Q (OPH_SUBSET_LIB_OK, within (Some OPH_SUBSET_LIB_SINGLE) (Some v) (Some v) (Some 1)) m
  | None => ∀ s, Q (OPH_SUBSET_LIB_DATA_ERR, s) m
  end → wp (param max i 0 w (within None None None None)) Q m.
Proof.
  intros HQ. unfold param. wp_step. apply wp_read_end.
  destruct (param_value max w); do 4 (wp_step; cell); by wp_step.
Qed.

Lemma wp_param_second w t a e d Q m :
  match param_value max w with
  | Some v => Q (OPH_SUBSET_LIB_OK, within (Some OPH_SUBSET_LIB_INTERVAL) a (Some v) d) m
  | None => ∀ s, Q (OPH_SUBSET_LIB_DATA_ERR, s) m
  end → wp (param max i 1 w (within t a e d)) Q m.
Proof.
  intros HQ. unfold param. wp_step. apply wp_read_end.
  destruct (param_value max w); wp_step; cell; by wp_step.
Qed.

Lemma wp_param_third w a u d Q m :
  match param_value max w with
  | Some v => Q (OPH_SUBSET_LIB_OK, within (Some (if 1 <? wrap_u64 u then OPH_SUBSET_LIB_STRIDE else OPH_SUBSET_LIB_INTERVAL))
                   a (Some v) (Some (wrap_u64 u))) m
  | None => ∀ s, Q (OPH_SUBSET_LIB_DATA_ERR, s) m
  end → wp (param max i 2 w (within (Some OPH_SUBSET_LIB_INTERVAL) a (Some u) d)) Q m.
Proof.
  intros HQ. unfold param. wp_step. cell. wp_step. cell. wp_step.
  apply (wp_read_end w _ _ _ (Some (wrap_u64 u))).
  destruct (param_value max w); wp_step; cell; destruct (1 <? _); try (wp_step; cell); by wp_step.
Qed.

(** The parameters are read as [range_of] says. *)
Lemma wp_params ws Q m :
  match range_of max ws with
  | Some r =>
      Q (length ws, OPH_SUBSET_LIB_OK,
         match ws with
         | [] => within None None None None
         | _ => within (Some (r_type r)) (Some (r_start r)) (Some (r_end r)) (Some (r_stride r))
         end) m
  | None => ∀ s n, Q (n, OPH_SUBSET_LIB_DATA_ERR, s) m
  end → wp (params max i 0 ws (within None None None None)) Q m.
Proof.
  intros HQ. destruct ws as [|a ws]; [by apply wp_ret|].
  cbn [params]. wp_step. apply wp_param_first. destruct (param_value max a) as [va|] eqn:Ha; cbv beta iota; simpl Z.eqb; cbv iota.
  2: { intros s. apply wp_ret. destruct ws as [|b [|c []]]; simpl in HQ; rewrite ?Ha in HQ; apply HQ. }
  destruct ws as [|b ws]; [apply wp_ret; simpl in HQ; by rewrite Ha in HQ|].
  cbn [params]. wp_step. apply wp_param_second. destruct (param_value max b) as [vb|] eqn:Hb; cbv beta iota; simpl Z.eqb; cbv iota.
  2: { intros s. apply wp_ret. destruct ws as [|c []]; simpl in HQ; rewrite ?Ha in HQ; simpl in HQ; rewrite ?Hb in HQ; apply HQ. }
  destruct ws as [|c ws]; [apply wp_ret; simpl in HQ; rewrite Ha in HQ; simpl in HQ; by rewrite Hb in HQ|].
  cbn [params]. wp_step. apply wp_param_third. destruct (param_value max c) as [vc|] eqn:Hc; cbv beta iota; simpl Z.eqb; cbv iota.
  2: { intros s. apply wp_ret. destruct ws; simpl in HQ; rewrite ?Ha in HQ; simpl in HQ; rewrite ?Hb in HQ; simpl in HQ; rewrite ?Hc in HQ; apply HQ. }
  destruct ws as [|d ws]; [apply wp_ret; simpl in HQ; rewrite Ha in HQ; simpl in HQ; rewrite Hb in HQ; simpl in HQ; by rewrite Hc in HQ|].
  cbn [params]. wp_step. apply wp_ret, wp_ret. apply HQ.
Qed.

(** A clause appends its range, or stops with an error. *)
Lemma wp_clause w Q m :
  match meaning max w with
  | Some r => r_end r - r_start r < 2 ^ 63 ∧ Q (Next (S i, filled (rs ++ [r]) k)) m
  | None => ∀ s, Q (Break (OPH_SUBSET_LIB_DATA_ERR, s)) m
  end → wp (clause max (i, filled rs (S k)) w) Q m.
Proof.
  unfold meaning, clause. rewrite filled_within. set (ws := strtok _ w). intros HQ. wp_step.
  apply wp_params. destruct (range_of max ws) as [r|] eqn:Hr; [|intros s n; cbv beta iota; by apply wp_ret].
  cbv beta iota. simpl negb. cbv iota. wp_step.
  assert (∀ Q' m', Q' (within (Some (r_type r)) (Some (r_start r)) (Some (r_end r)) (Some (r_stride r))) m' →
    wp (if (length ws =? 0)%nat then whole_range max i match ws with [] => within None None None None
         | _ => within (Some (r_type r)) (Some (r_start r)) (Some (r_end r)) (Some (r_stride r)) end
        else mret match ws with [] => within None None None None
         | _ => within (Some (r_type r)) (Some (r_start r)) (Some (r_end r)) (Some (r_stride r)) end) Q' m') as Hwh.
  { intros Q' m' HQ'. destruct ws; [|by apply wp_ret]. simpl in Hr. injection Hr as <-. simpl in *.
    unfold whole_range. do 3 (wp_step; cell). destruct (max =? 0); simpl negb; cbv iota; repeat (wp_step; try cell); done. }
  apply Hwh. simpl in HQ. wp_step; cell. unfold range_ok in HQ.
  destruct (r_stride r =? 0); [by apply wp_ret|]. do 2 (wp_step; cell).
  rewrite Z.leb_antisym in HQ. destruct (r_end r <? r_start r); [by apply wp_ret|]. simpl in HQ. destruct HQ as [Hlt HQ].
  wp_step. apply wp_assert; [by apply bool_decide_eq_true|]. wp_step; cell. wp_step.
  assert (filled (rs ++ [r]) k = set_total (wrap_u64 (sum_u64 rs + elements_u64 r))
    (set_count (at_cell (elements_u64 <$> rs) (Some (elements_u64 r)) k)
      (within (Some (r_type r)) (Some (r_start r)) (Some (r_end r)) (Some (r_stride r))))) as Heq; [|by rewrite Heq in HQ].
  unfold within, set_total, set_count, filled. simpl. rewrite !at_cell_done, filled_snoc, length_app. do 2 f_equal. simpl. lia.
Qed.
End clause.

(** ** The whole text *)

Definition clauses (s : string) : list string := split_on (λ c, has_char c OPH_SUBSET_LIB_SUBSET_SEPARATOR) s.

(** The signed subtraction of the end points does not overflow. *)
Definition no_overflow (max : Z) (w : string) : Prop :=
  ∀ r, meaning max w = Some r → r_end r - r_start r < 2 ^ 63.

Lemma wp_clauses max ws k m (Q : _ → mem → Prop) :
  Forall (no_overflow max) ws →
  match mapM (meaning max) ws with
  | Some rs => Q (Next (length rs, filled rs k)) m
  | None => ∀ s, Q (Break (OPH_SUBSET_LIB_DATA_ERR, s)) m
  end →
  wp (loopC (clause max) (0%nat, filled [] (length ws + k)) ws) Q m.
Proof.
  intros Hov HQ. eapply wp_mono.
  - apply (wp_loopC _ (λ don st m', m' = m ∧ ∃ rs, mapM (meaning max) don = Some rs ∧
      st = (length rs, filled rs (length ws - length don + k)))
      (λ r m', m' = m ∧ mapM (meaning max) ws = None ∧ ∃ s, r = (OPH_SUBSET_LIB_DATA_ERR, s))).
    + split; [done|]. exists []. by rewrite Nat.sub_0_r.
    + intros don w rest st m1 -> [-> (rs & Hrs & ->)]. rewrite Forall_app, Forall_cons in Hov.
      destruct Hov as (_ & Hw & _).
      replace (length (don ++ w :: rest) - length don + k)%nat with (S (length rest + k)) by (rewrite length_app; simpl; lia).
      apply wp_clause. destruct (meaning max w) as [r|] eqn:Hm.
      * split; [by apply Hw|]. split; [done|]. exists (rs ++ [r]). split.
        -- apply mapM_Some. apply mapM_Some in Hrs. apply Forall2_app; [done|]. by constructor.
        -- rewrite !length_app. simpl. do 2 f_equal; lia.
      * intros s. split_and!; [done| |by exists s].
        destruct (mapM (meaning max) (don ++ w :: rest)) as [rs'|] eqn:Hall; [|done].
        apply mapM_Some, Forall2_app_inv_l in Hall as (l1 & l2 & _ & Hl2 & _). inversion Hl2; congruence.
  - intros [st|r] m' H.
    + destruct H as [-> (rs & Hrs & ->)]. rewrite Hrs, Nat.sub_diag in *. exact HQ.
    + destruct H as [-> [Hrs [s ->]]]. rewrite Hrs in HQ. apply HQ.
Qed.

Lemma wp_alloc_array {A} n (Q : array A → mem → Prop) m :
  reliable m → (∀ m', reliable m' → Q (Some (replicate n None)) m') → wp (alloc_array n) Q m.
Proof. intros Hm HQ. unfold alloc_array. wp_step. apply wp_malloc_reliable; [done|]. intros m' Hm'. by apply wp_ret, HQ. Qed.

(** From the allocations to the loop. *)
Lemma wp_parse_loop cond len s max m (Q : Z * option oph_subset → mem → Prop) n :
  reliable m → (len < OPH_SUBSET_LIB_MAX_STRING_LENGTH)%nat →
  length (strtok OPH_SUBSET_LIB_SUBSET_SEPARATOR (take_str len cond)) = S n →
  (∀ m', reliable m' → wp (loopC (clause max) (0%nat, filled [] (S n)) (clauses (take_str len cond)))
     (λ r, match r with
           | Next (_, s) => Q (OPH_SUBSET_LIB_OK, Some s)
           | Break (retval, s) => Q (retval, Some (_oph_subset_free s))
           end) m') →
  wp (oph_subset_parse (Some cond) len (Some s) max) Q m.
Proof.
  intros Hm Hlen Hn HQ. unfold oph_subset_parse. wp_step. wp_step. wp_step.
  apply wp_assert; [by apply bool_decide_eq_true|]. rewrite Hn. cbv zeta. simpl Nat.eqb. cbv iota.
  wp_step. apply wp_alloc_array; [done|]. intros m1 Hm1. wp_step. apply wp_alloc_array; [done|]. intros m2 Hm2.
  wp_step. apply wp_alloc_array; [done|]. intros m3 Hm3. wp_step. apply wp_alloc_array; [done|]. intros m4 Hm4.
  wp_step. apply wp_alloc_array; [done|]. intros m5 Hm5.
  wp_step. eapply wp_mono; [exact (HQ m5 Hm5)|]. intros [[j s']|[rv s']] m6 H; by apply wp_ret.
Qed.

Lemma parse_loop_ub cond len s max m n :
  reliable m → (len < OPH_SUBSET_LIB_MAX_STRING_LENGTH)%nat →
  length (strtok OPH_SUBSET_LIB_SUBSET_SEPARATOR (take_str len cond)) = S n →
  (∀ m', reliable m' → loopC (clause max) (0%nat, filled [] (S n)) (clauses (take_str len cond)) m' = UB) →
  oph_subset_parse (Some cond) len (Some s) max m = UB.
Proof.
  intros Hm Hlen Hn HQ. unfold oph_subset_parse. apply bind_ub. wp_step. apply bind_ub.
  apply wp_assert; [by apply bool_decide_eq_true|]. rewrite Hn. cbv zeta. simpl Nat.eqb. cbv iota.
  do 5 (apply bind_ub, wp_alloc_array; [done|]; clear m Hm; intros m Hm).
  unfold mbind, C_bind. unfold clauses, filled in HQ. by rewrite HQ.
Qed.

(** An empty clause behind the arrays. *)
Lemma clause_behind_ub max rs m : loopC (clause max) (length rs, filled rs 0) [EmptyString] m = UB.
Proof.
  simpl. unfold whole_range, put. simpl. unfold done_cells. simpl.
  unfold mbind, C_bind. simpl. rewrite app_nil_r, !length_fmap, bool_decide_eq_false_2 by lia. done.
Qed.

Lemma strtok_clauses s : Forall (λ w, w ≠ EmptyString) (clauses s) → strtok OPH_SUBSET_LIB_SUBSET_SEPARATOR s = clauses s.
Proof.
  unfold strtok, clauses. generalize (split_on (λ c, has_char c OPH_SUBSET_LIB_SUBSET_SEPARATOR) s).
  induction 1 as [|w l Hw _ IH]; [done|]. by rewrite filter_cons_True, IH.
Qed.

(** A subset as the other components may rely on it. *)
Record well_formed (s : oph_subset) (rs : list range) : Prop := {
  wf_number : number s = Z.of_nat (length rs);
  wf_type : type s = Some (Some <$> (r_type <$> rs));
  wf_start : start s = Some (Some <$> (r_start <$> rs));
  wf_end : end_ s = Some (Some <$> (r_end <$> rs));
  wf_stride : stride s = Some (Some <$> (r_stride <$> rs));
  wf_count : count s = Some (Some <$> (elements <$> rs));
  wf_total : total s = wrap_u64 (foldr Z.add 0 (elements <$> rs));
  wf_ranges : Forall (λ r, r_start r ≤ r_end r ∧ 0 < r_stride r < 2 ^ 64) rs;
}.

Lemma meaning_range max w r : meaning max w = Some r → r_start r ≤ r_end r ∧ 0 < r_stride r < 2 ^ 64.
Proof.
  unfold meaning. destruct (range_of max _) as [r'|] eqn:Hr; simpl; [|done]. unfold range_ok.
  destruct (r_stride r' =? 0) eqn:Hs; [done|]. simpl. destruct (Z.leb_spec (r_start r') (r_end r')); [|done].
  intros [= <-]. apply Z.eqb_neq in Hs. split; [done|].
  assert (0 ≤ r_stride r' < 2 ^ 64); [|lia].
  destruct (strtok _ w) as [|a [|b [|c [|d l]]]]; simpl in Hr; simplify_option_eq; try done; apply wrap_u64_range.
Qed.

(** The number of elements is exact when the subtraction does not overflow. *)
Lemma elements_exact r :
  r_start r ≤ r_end r → 0 < r_stride r < 2 ^ 64 → r_end r - r_start r < 2 ^ 63 → elements_u64 r = elements r.
Proof.
  intros H1 H2 H3. unfold elements_u64, elements. rewrite (wrap_u64_id (r_end r - r_start r)) by lia.
  apply wrap_u64_id. split; [pose proof (Z.div_pos (r_end r - r_start r) (r_stride r)); lia|].
  assert ((r_end r - r_start r) / r_stride r ≤ r_end r - r_start r); [|lia].
  apply Z.div_le_upper_bound; nia.
Qed.

Lemma sum_exact rs : Forall (λ r, elements_u64 r = elements r) rs →
  sum_u64 rs = wrap_u64 (foldr Z.add 0 (elements <$> rs)).
Proof.
  induction rs as [|r rs IH] using rev_ind; [done|]. rewrite Forall_app, Forall_singleton. intros [Hrs Hr].
  rewrite filled_snoc, IH, Hr by done. unfold wrap_u64. rewrite Zplus_mod_idemp_l. f_equal.
  rewrite fmap_app, foldr_app. simpl. generalize (elements r). clear. induction rs as [|r' rs IH]; intros z; csimpl; [lia|].
  rewrite <-IH. lia.
Qed.

Lemma filled_well_formed max ws rs :
  Forall (no_overflow max) ws → mapM (meaning max) ws = Some rs → well_formed (filled rs 0) rs.
Proof.
  intros Hov Hrs. apply mapM_Some in Hrs.
  assert (Forall (λ r, (r_start r ≤ r_end r ∧ 0 < r_stride r < 2 ^ 64) ∧ elements_u64 r = elements r) rs) as Hall.
  { apply Forall_lookup. intros i r Hi. destruct (Forall2_lookup_r _ _ _ _ _ Hrs Hi) as (w & Hw & Hm).
    pose proof (meaning_range _ _ _ Hm) as [H1 H2]. split; [done|]. apply elements_exact; [done..|].
    eapply Forall_lookup_1 in Hov; [|exact Hw]. by apply Hov. }
  assert (elements_u64 <$> rs = elements <$> rs) as Heq.
  { apply list_fmap_ext. intros i r Hi. by apply (Forall_lookup_1 _ _ _ _ Hall Hi). }
  split; simpl; unfold done_cells; rewrite ?app_nil_r, ?Heq; try done.
  - lia.
  - apply sum_exact. eapply Forall_impl; [exact Hall|]. naive_solver.
  - eapply Forall_impl; [exact Hall|]. naive_solver.
Qed.

Lemma clauses_nonempty s : clauses s ≠ [].
Proof. apply split_on_nonempty. Qed.

(** C34: On a text shorter than the buffer in which no clause is empty (an empty clause writes behind the arrays) and
    whose ranges are shorter than 2^63, oph_subset_parse returns. If every clause denotes a range, which may go beyond
    max since max is only the value of the word end and of a clause without parameters, it succeeds with five arrays
    that have exactly one entry per clause, each range not empty with a positive stride and the exact number of its
    elements, and the total modulo 2^64. Otherwise it reports a data error with every array released. *)
Theorem subset_parse_well_formed (cond : string) (len : nat) (s : oph_subset) (max : Z) (m : mem) :
  let ws := clauses (take_str len cond) in
  reliable m → (len < OPH_SUBSET_LIB_MAX_STRING_LENGTH)%nat →
  Forall (λ w, w ≠ EmptyString) ws → Forall (no_overflow max) ws →
  wp (oph_subset_parse (Some cond) len (Some s) max) (λ r _, ∃ s', r.2 = Some s' ∧
    match mapM (meaning max) ws with
    | Some rs => r.1 = OPH_SUBSET_LIB_OK ∧ well_formed s' rs ∧
        Forall (λ x, ∀ j, 0 ≤ j → (j < elements x ↔ r_start x + j * r_stride x ≤ r_end x)) rs
    | None => r.1 = OPH_SUBSET_LIB_DATA_ERR ∧ s' = _oph_subset_free s'
    end) m.
Proof.
  intros ws Hm Hlen Hne Hov. pose proof (strtok_clauses _ Hne) as Htok.
  destruct ws as [|w0 ws0] eqn:Hws; [by apply clauses_nonempty in Hws|].
  apply (wp_parse_loop _ _ _ _ _ _ (length ws0)); [done|done|by rewrite Htok; fold ws; rewrite Hws|].
  intros m1 _. fold ws. rewrite Hws. rewrite <-(Nat.add_0_r (S (length ws0))).
  apply (wp_clauses max (w0 :: ws0) 0); [done|].
  destruct (mapM (meaning max) (w0 :: ws0)) as [rs|] eqn:Hrs; [|intros s'; by eexists].
  exists (filled rs 0). pose proof (filled_well_formed _ _ _ Hov Hrs) as Hwf. split_and!; [done..|].
  eapply Forall_impl; [apply Hwf|]. intros x [Hx1 Hx2] j Hj. unfold elements.
  rewrite <-Z.le_succ_l, Z.add_1_l, <-Z.succ_le_mono. split; intros Hle.
  - pose proof (Z.mul_div_le (r_end x - r_start x) (r_stride x)). nia.
  - apply Z.div_le_lower_bound; lia.
Qed.

Lemma subset_parse_well_formed_witness :
  wp (oph_subset_parse (Some "1:2:9,end"%string) 9 (Some (filled [] 0)) 12) (λ r _, ∃ s', r.2 = Some s' ∧
    well_formed s' [mk_range OPH_SUBSET_LIB_STRIDE 1 9 2; mk_range OPH_SUBSET_LIB_SINGLE 12 12 1]) [].
Proof.
  eapply wp_mono.
  - apply (subset_parse_well_formed "1:2:9,end" 9 (filled [] 0) 12 []); [apply reliable_nil|by apply Nat.ltb_lt| |].
    + vm_compute. repeat constructor; done.
    + apply Forall_forall. intros w Hw r Hr. vm_compute in Hw. set_unfold in Hw.
      destruct_or!; subst w; vm_compute in Hr; simplify_eq; reflexivity.
  - intros r m (s' & Hr & Hs). exists s'. split; [done|]. exact (proj1 (proj2 Hs)).
Defined.

(** The number of elements is not limited by [max]: ten elements with a maximum of five. *)
Example range_not_truncated :
  match oph_subset_parse (Some "1:10"%string) 4 (Some (filled [] 0)) 5 [] with Ok (rc, Some s) _ => (rc, number s, end_ s, total s) | _ => (-1, 0, None, 0) end
  = (OPH_SUBSET_LIB_OK, 1, Some [Some 10], 10).
Proof. vm_compute. reflexivity. Qed.

(** ** Printing *)

Inductive index_set : Type :=
| One (a : Z)
| Between (a b : Z)
| Every (a d b : Z).

Definition print_set (x : index_set) : string :=
  match x with
  | One a => print_int a
  | Between a b => print_int a +:+ ":" +:+ print_int b
  | Every a d b => print_int a +:+ ":" +:+ print_int d +:+ ":" +:+ print_int b
  end.

Definition set_range (x : index_set) : range :=
  match x with
  | One a => mk_range OPH_SUBSET_LIB_SINGLE a a 1
  | Between a b => mk_range OPH_SUBSET_LIB_INTERVAL a b 1
  | Every a d b => mk_range (if 1 <? d then OPH_SUBSET_LIB_STRIDE else OPH_SUBSET_LIB_INTERVAL) a b d
  end.

Definition set_ok (x : index_set) : Prop :=
  let r := set_range x in
  in_i64 (r_start r) ∧ in_i64 (r_end r) ∧ in_i64 (r_stride r) ∧ 0 < r_stride r ∧ 0 ≤ r_end r - r_start r < 2 ^ 63.

Fixpoint print_sets (xs : list index_set) : string :=
  match xs with
  | [] => EmptyString
  | [x] => print_set x
  | x :: xs' => print_set x +:+ "," +:+ print_sets xs'
  end.

(** The texts of the numbers hold no separators and are not the word for the end. *)
Lemma print_int_not_end max z : in_i64 z → param_value max (print_int z) = Some z.
Proof.
  intros Hz. unfold param_value. rewrite strtol_print by done.
  destruct (print_int_head z) as (c & s & -> & Hc). unfold strncasecmp0. simpl.
  assert (Ascii.eqb (tolower c) (tolower "e") = false) as ->; [|done].
  destruct Hc as [Hc| ->]; [|done]. revert Hc. clear. destruct c as [[] [] [] [] [] [] [] []]; vm_compute; done.
Qed.

Definition colon (c : ascii) : bool := has_char c OPH_SUBSET_LIB_PARAM_SEPARATOR.
Definition comma (c : ascii) : bool := has_char c OPH_SUBSET_LIB_SUBSET_SEPARATOR.

Lemma print_int_no_colon z : none_of colon (print_int z) = true.
Proof. apply print_int_none. intros c [Hc| ->]; [|done]. revert Hc. destruct c as [[] [] [] [] [] [] [] []]; vm_compute; done. Qed.
Lemma print_int_no_comma z : none_of comma (print_int z) = true.
Proof. apply print_int_none. intros c [Hc| ->]; [|done]. revert Hc. destruct c as [[] [] [] [] [] [] [] []]; vm_compute; done. Qed.

Lemma print_set_params x :
  strtok OPH_SUBSET_LIB_PARAM_SEPARATOR (print_set x) =
  match x with
  | One a => [print_int a]
  | Between a b => [print_int a; print_int b]
  | Every a d b => [print_int a; print_int d; print_int b]
  end.
Proof.
  destruct x as [a|a b|a d b]; unfold print_set; rewrite ?(app_str_cons ":" ""), ?app_str_nil;
    repeat (rewrite strtok_app; [f_equal|apply print_int_no_colon|done|apply print_int_nonempty]);
    apply strtok_single; first [apply print_int_no_colon|apply print_int_nonempty].
Qed.

Lemma print_set_meaning max x : set_ok x → meaning max (print_set x) = Some (set_range x).
Proof.
  intros (Ha & Hb & Hd & Hd0 & Hle). unfold meaning. rewrite print_set_params. unfold range_of.
  destruct x as [a|a b|a d b]; simpl in *; rewrite !print_int_not_end by done; simpl;
    unfold range_ok; simpl; rewrite ?(wrap_u64_id d) by (unfold in_i64 in *; lia).
  - by rewrite Z.leb_refl.
  - by rewrite (proj2 (Z.leb_le a b)) by lia.
  - rewrite (proj2 (Z.eqb_neq d 0)) by lia. by rewrite (proj2 (Z.leb_le a b)) by lia.
Qed.

Lemma print_set_no_comma x : none_of comma (print_set x) = true.
Proof. destruct x; simpl; rewrite ?none_of_app; simpl; rewrite ?none_of_app, ?print_int_no_comma; simpl; by rewrite ?print_int_no_comma. Qed.

Lemma print_sets_clauses xs : xs ≠ [] → clauses (print_sets xs) = print_set <$> xs.
Proof.
  unfold clauses. induction xs as [|x [|y xs] IH]; intros Hne; [done|by apply split_on_none, print_set_no_comma|].
  change (print_sets (x :: y :: xs)) with (print_set x +:+ String "," (print_sets (y :: xs))).
  rewrite split_on_app; [|apply print_set_no_comma|done]. rewrite IH by done. done.
Qed.

Lemma print_set_nonempty x : print_set x ≠ EmptyString.
Proof.
  destruct x as [a|a b|a d b]; simpl; destruct (print_int_head a) as (c & s & -> & _); by rewrite ?app_str_cons.
Qed.

Lemma print_sets_meaning max xs : Forall set_ok xs → mapM (meaning max) (print_set <$> xs) = Some (set_range <$> xs).
Proof.
  intros Hok. apply mapM_Some. apply Forall2_fmap. apply Forall_Forall2_diag.
  eapply Forall_impl; [exact Hok|]. intros x. apply print_set_meaning.
Qed.

Lemma print_sets_no_overflow max xs : Forall set_ok xs → Forall (no_overflow max) (print_set <$> xs).
Proof.
  intros Hok. apply Forall_fmap. eapply Forall_impl; [exact Hok|]. intros x Hx r. unfold compose.
  rewrite print_set_meaning by done. intros [= <-]. apply Hx.
Qed.

(** a list of index sets, printed with numbers, colons and commas, is read back as
    exactly their ranges, whatever the value that stands for the end. *)
Theorem subset_print_parse (xs : list index_set) (s : oph_subset) (max : Z) (m : mem) :
  reliable m → xs ≠ [] → Forall set_ok xs →
  (String.length (print_sets xs) < OPH_SUBSET_LIB_MAX_STRING_LENGTH)%nat →
  wp (oph_subset_parse (Some (print_sets xs)) (String.length (print_sets xs)) (Some s) max)
    (λ r _, ∃ s', r = (OPH_SUBSET_LIB_OK, Some s') ∧ well_formed s' (set_range <$> xs)) m.
Proof.
  intros Hm Hne Hok Hlen. pose proof (print_sets_clauses xs Hne) as Hcl.
  pose proof (print_sets_no_overflow max xs Hok) as Hov. pose proof (print_sets_meaning max xs Hok) as Hmean.
  assert (strtok OPH_SUBSET_LIB_SUBSET_SEPARATOR (print_sets xs) = print_set <$> xs) as Htok.
  { rewrite strtok_clauses, Hcl; [done|]. rewrite Hcl. apply Forall_fmap, Forall_forall. intros x _. apply print_set_nonempty. }
  destruct xs as [|x xs]; [done|]. apply (wp_parse_loop _ _ _ _ _ _ (length xs)); [done|done| |].
  - rewrite take_str_ge, Htok by done. by rewrite length_fmap.
  - intros m1 _. rewrite take_str_ge, Hcl by done. replace (S (length xs)) with (length (print_set <$> x :: xs) + 0)%nat by (rewrite length_fmap; simpl; lia).
    apply wp_clauses; [done|]. rewrite Hmean. eexists. split; [done|]. by eapply filled_well_formed.
Qed.

Lemma subset_print_parse_witness :
  wp (oph_subset_parse (Some "-3,1:2:9,5:7"%string) 12 (Some (filled [] 0)) 0)
    (λ r _, ∃ s', r = (OPH_SUBSET_LIB_OK, Some s') ∧ well_formed s' (set_range <$> [One (-3); Every 1 2 9; Between 5 7])) [].
Proof.
  apply (subset_print_parse [One (-3); Every 1 2 9; Between 5 7] (filled [] 0) 0 []); [apply reliable_nil|done| |by apply Nat.ltb_lt].
  repeat constructor; unfold in_i64; simpl; lia.
Defined.

(** the arrays have a cell per non-empty clause but the loop visits the empty ones
    too: a comma after any readable text makes it write behind the arrays. *)
Theorem subset_trailing_separator_ub (xs : list index_set) (s : oph_subset) (max : Z) (m : mem) :
  reliable m → xs ≠ [] → Forall set_ok xs →
  (S (String.length (print_sets xs)) < OPH_SUBSET_LIB_MAX_STRING_LENGTH)%nat →
  let cond := print_sets xs +:+ "," in
  oph_subset_parse (Some cond) (String.length cond) (Some s) max m = UB.
Proof.
  intros Hm Hne Hok Hlen cond. assert (String.length cond = S (String.length (print_sets xs))) as Hl.
  { unfold cond. rewrite length_app_str. simpl. lia. }
  assert (clauses cond = (print_set <$> xs) ++ [EmptyString]) as Hcl.
  { unfold cond, clauses. rewrite split_on_snoc by done. f_equal. by apply print_sets_clauses. }
  assert (length (strtok OPH_SUBSET_LIB_SUBSET_SEPARATOR cond) = length xs) as Htok.
  { unfold strtok. fold (clauses cond). rewrite Hcl, filter_app, length_app. simpl. rewrite Nat.add_0_r.
    rewrite <-(length_fmap print_set xs). f_equal. clear. induction xs as [|x xs IH]; [done|].
    csimpl. rewrite filter_cons_True by apply print_set_nonempty. by rewrite IH. }
  destruct xs as [|x0 xs0] eqn:Hxs; [done|]. rewrite <-Hxs in *.
  apply (parse_loop_ub _ _ _ _ _ (length xs0)); [done|by rewrite Hl|by rewrite take_str_ge, Htok, Hxs by done|].
  intros m1 _. rewrite take_str_ge, Hcl by done. rewrite loopC_app.
  apply bind_ub. replace (S (length xs0)) with (length (print_set <$> xs) + 0)%nat by (rewrite length_fmap, Hxs; simpl; lia).
  apply wp_clauses; [by apply print_sets_no_overflow|]. rewrite print_sets_meaning by done.
  apply clause_behind_ub.
Qed.

Lemma subset_trailing_separator_ub_witness :
  oph_subset_parse (Some "1:9,"%string) 4 (Some (filled [] 0)) 0 [] = UB.
Proof.
  apply (subset_trailing_separator_ub [Between 1 9] (filled [] 0) 0 []); [apply reliable_nil|done| |by apply Nat.ltb_lt].
  repeat constructor; unfold in_i64; simpl; lia.
Defined.
End Subset.
