(* ===== verification/JsonDoc.v ===== *)
(** * JSON documents of the responses

    The structures and builders of [src/oph_json/]: [oph_json_common.c] (document,
    source, consumers, extra), [oph_json_text.c], [oph_json_grid.c],
    [oph_json_multigrid.c], [oph_json_tree.c] and [oph_json_graph.c].  An array and its
    number of elements are one list; the numbers of columns, which the code keeps in a
    field of their own, are fields here.  The builders report an error at the step
    that fails and leave the object as it is then. *)

From Stdlib Require Ascii.
From stdpp Require Import base gmap strings numbers pretty list.
From S2P Require Import Prelude CString.
Import (notations) Stdlib.Strings.Ascii.

Module JsonDoc.
Open Scope Z_scope.

(** ** Constants and data *)

Definition OPH_JSON_TEXT : string := "text".
Definition OPH_JSON_GRID : string := "grid".
Definition OPH_JSON_MULTIGRID : string := "multidimgrid".
Definition OPH_JSON_TREE : string := "tree".
Definition OPH_JSON_DGRAPH : string := "digraph".
Definition OPH_JSON_GRAPH : string := "graph".

Definition OPH_JSON_SUCCESS : Z := 0.
Definition OPH_JSON_MEMORY_ERROR : Z := 1.
Definition OPH_JSON_BAD_PARAM_ERROR : Z := 2.

Definition json_types : list string :=
  ["int"; "long"; "short"; "byte"; "float"; "double"; "string"; "blob"]%string.

Record oph_json_obj_text : Type := Text {
  text_title : cstr;
  text_message : cstr;
}.

(** A row of a table; its cells are null until they are copied. *)
Definition row : Type := list cstr.

Record oph_json_obj_grid : Type := Grid {
  grid_title : cstr;
  grid_description : cstr;
  grid_keys : list string;
  grid_fieldtypes : list string;
  grid_values : list row;
  grid_values_num2 : nat;
}.

(** [rowvalues] is grown to the number of rows of [measurevalues], so that its number of
    rows is a field and a cell may be uninitialised; the rows of [colvalues] may be null. *)
Record oph_json_obj_multigrid : Type := Multigrid {
  multi_title : cstr;
  multi_description : cstr;
  rowkeys : list string;
  rowfieldtypes : list string;
  rowvalues : list (option row);
  rowvalues_num1 : nat;
  rowvalues_num2 : nat;
  colkeys : list string;
  colfieldtypes : list string;
  colvalues : list (option row);
  colvalues_num2 : nat;
  measurename : cstr;
  measuretype : cstr;
  measurevalues : list row;
  measurevalues_num2 : nat;
}.

Record oph_json_link : Type := Link {
  node : cstr;
  link_description : cstr;
}.
Definition oph_json_links : Type := list oph_json_link.

Record oph_json_obj_tree : Type := Tree {
  tree_title : cstr;
  tree_description : cstr;
  tree_nodekeys : list string;
  tree_nodevalues : list row;
  tree_nodevalues_num2 : nat;
  rootnode : cstr;
  tree_nodelinks : list oph_json_links;
}.

Record oph_json_obj_graph : Type := Graph {
  graph_title : cstr;
  graph_description : cstr;
  graph_nodekeys : list string;
  graph_nodevalues : list row;
  graph_nodevalues_num2 : nat;
  graph_nodelinks : list oph_json_links;
}.

(** [objcontent]: an array whose type the code knows from [objclass]. *)
Inductive objcontents : Type :=
| Texts (l : list oph_json_obj_text)
| Grids (l : list oph_json_obj_grid)
| Multigrids (l : list oph_json_obj_multigrid)
| Trees (l : list oph_json_obj_tree)
| Graphs (l : list oph_json_obj_graph).

Record oph_json_response : Type := Response {
  objclass : cstr;
  objkey : cstr;
  objcontent : objcontents;
}.

Record oph_json_source : Type := Source {
  srckey : cstr;
  srcname : cstr;
  srcurl : cstr;
  src_description : cstr;
  producer : cstr;
  src_keys : list string;
  src_values : list string;
}.

Record oph_json_extra : Type := Extra {
  extra_keys : list string;
  extra_values : list string;
}.

Record oph_json : Type := Json {
  source : option oph_json_source;
  consumers : list string;
  responseKeyset : list string;
  response : list oph_json_response;
  extra : option oph_json_extra;
}.

Definition set_source s j := Json s (consumers j) (responseKeyset j) (response j) (extra j).
Definition set_consumers c j := Json (source j) c (responseKeyset j) (response j) (extra j).
Definition set_responseKeyset k j := Json (source j) (consumers j) k (response j) (extra j).
Definition set_response r j := Json (source j) (consumers j) (responseKeyset j) r (extra j).
Definition set_extra e j := Json (source j) (consumers j) (responseKeyset j) (response j) e.

(** ** Steps of a builder

    A step changes a structure and returns a code; a code other than success ends the
    function. *)
Definition op (S : Type) : Type := S → C (Z * S).

Definition ok {S} : op S := λ s, mret (M := C) (OPH_JSON_SUCCESS, s).
Definition fail {S} (rc : Z) : op S := λ s, mret (M := C) (rc, s).
Definition andthen {S} (f g : op S) : op S := λ s,
  '(rc, s) ← f s; if rc =? OPH_JSON_SUCCESS then g s else mret (rc, s).
Definition require {S} (b : bool) : op S := if b then ok else fail OPH_JSON_BAD_PARAM_ERROR.
Definition update {S} (f : S → S) : op S := λ s, mret (M := C) (OPH_JSON_SUCCESS, f s).

(** [p = malloc(...); if (!p) return OPH_JSON_MEMORY_ERROR;] *)
Definition alloc {S} : op S := λ s,
  b ← malloc; mret (if b : bool then OPH_JSON_SUCCESS else OPH_JSON_MEMORY_ERROR, s).

Definition rc_of (p : cstr) : Z := match p with Some _ => OPH_JSON_SUCCESS | None => OPH_JSON_MEMORY_ERROR end.

(** [field = strdup(v); if (!field) return OPH_JSON_MEMORY_ERROR;] *)
Definition dup {S} (v : cstr) (set : cstr → S → S) : op S := λ s,
  p ← strdup v; mret (rc_of p, set p s).

(** [if (v) { field = strdup(v); ... }] *)
Definition dup_opt {S} (v : cstr) (set : cstr → S → S) : op S :=
  match v with Some _ => dup v set | None => ok end.

(** An element of an array, duplicated and then counted. *)
Definition dup_elem {S} (v : cstr) (push : string → S → S) : op S := λ s,
  p ← strdup v;
  mret (match p with Some v => (OPH_JSON_SUCCESS, push v s) | None => (OPH_JSON_MEMORY_ERROR, s) end).

Fixpoint for_each {S X} (f : X → op S) (l : list X) : op S :=
  match l with
  | [] => ok
  | x :: l' => andthen (f x) (for_each f l')
  end.

(** [!strcmp(v, l[q])] for some [q < k]. *)
Fixpoint occurs (v : string) (l : list cstr) : C bool :=
  match l with
  | [] => mret false
  | x :: l' => b ← strcmp0 x (Some v); if b : bool then mret true else occurs v l'
  end.

(** The keys of a table: allocate, then copy each key that differs from the earlier
    ones. *)
Definition copy_keys {S} (keys : list cstr) (keys_num : nat) (push : string → S → S) : op S :=
  andthen alloc (for_each (λ k, λ s,
    v ← deref (keys !! k);
    b ← (if (k =? 0)%nat then mret false else v ← deref v; occurs v (take k keys));
    if b : bool then mret (OPH_JSON_BAD_PARAM_ERROR, s) else dup_elem v push s) (seq 0 keys_num)).

Definition oph_json_is_type_correct (type : string) : bool := bool_decide (type ∈ json_types).
Definition oph_json_is_measuretype_correct (measuretype : string) : bool := bool_decide (measuretype ∈ json_types).

Definition copy_types {S} (types : list cstr) (types_num : nat) (push : string → S → S) : op S :=
  andthen alloc (for_each (λ k, λ s,
    v ← deref (types !! k);
    t ← deref v;
    if oph_json_is_type_correct t then dup_elem v push s else mret (OPH_JSON_BAD_PARAM_ERROR, s)) (seq 0 types_num)).

(** Set the last element of an array. *)
Definition set_last {A} (l : list A) (x : A) : list A := take (length l - 1) l ++ [x].

(** The cells of a row, null at first. *)
Definition fill_row {S} (values : list cstr) (n : nat) (set_row : row → S → S) : op S := λ s,
  '(rc, r) ← for_each (λ k, λ r,
      v ← deref (values !! k);
      p ← strdup v;
      mret (rc_of p, <[k := p]> r)) (seq 0 n) (replicate n None);
  mret (rc, set_row r s).

(** ** Document *)

Definition _oph_json_alloc : C (Z * option oph_json) :=
  b ← malloc;
  mret (if b : bool then (OPH_JSON_SUCCESS, Some (Json None [] [] [] None)) else (OPH_JSON_MEMORY_ERROR, None)).

(** A string added to a set of strings, unless it is there. *)
Definition add_string {S} (get : S → list string) (set : list string → S → S) (v : string) : op S := λ s,
  if bool_decide (get s = []) then andthen alloc (dup_elem (Some v) (λ v s, set [v] s)) s
  else
    b ← occurs v (Some <$> get s);
    if b : bool then mret (OPH_JSON_BAD_PARAM_ERROR, s)
    else andthen alloc (dup_elem (Some v) (λ v s, set (get s ++ [v]) s)) s.

Definition _oph_json_add_responseKey (responseKey : cstr) : op oph_json :=
  match responseKey with
  | None => fail OPH_JSON_BAD_PARAM_ERROR
  | Some v => add_string responseKeyset set_responseKeyset v
  end.

Definition _oph_json_add_consumer (consumer : cstr) : op oph_json :=
  match consumer with
  | None => fail OPH_JSON_BAD_PARAM_ERROR
  | Some v => add_string consumers set_consumers v
  end.

Definition _oph_json_set_source (key name url description prod : cstr) : op oph_json := λ j,
  if negb (bool_decide (is_Some key)) || negb (bool_decide (is_Some name)) then mret (OPH_JSON_BAD_PARAM_ERROR, j)
  else if bool_decide (is_Some (source j)) then mret (OPH_JSON_BAD_PARAM_ERROR, j)
  else
    b ← malloc;
    if negb b then mret (OPH_JSON_MEMORY_ERROR, j)
    else
      '(rc, s) ← andthen (dup key (λ v s, Source v (srcname s) (srcurl s) (src_description s) (producer s) (src_keys s) (src_values s)))
                (andthen (dup name (λ v s, Source (srckey s) v (srcurl s) (src_description s) (producer s) (src_keys s) (src_values s)))
                (andthen (dup_opt url (λ v s, Source (srckey s) (srcname s) v (src_description s) (producer s) (src_keys s) (src_values s)))
                (andthen (dup_opt description (λ v s, Source (srckey s) (srcname s) (srcurl s) v (producer s) (src_keys s) (src_values s)))
                         (dup_opt prod (λ v s, Source (srckey s) (srcname s) (srcurl s) (src_description s) v (src_keys s) (src_values s))))))
                (Source None None None None None [] []);
      mret (rc, set_source (Some s) j).

(** A key and its value added to two parallel arrays. *)
Definition add_detail {S} (keys : S → list string) (push_key push_value : string → S → S) (key value : string) : op S := λ s,
  b ← (if bool_decide (keys s = []) then mret false else occurs key (Some <$> keys s));
  if b : bool then mret (OPH_JSON_BAD_PARAM_ERROR, s)
  else andthen alloc (andthen (dup_elem (Some key) push_key) (andthen alloc (dup_elem (Some value) push_value))) s.

Definition _oph_json_add_source_detail (key value : cstr) : op oph_json := λ j,
  match key, value, source j with
  | Some k, Some v, Some s =>
      '(rc, s) ← add_detail src_keys
        (λ k s, Source (srckey s) (srcname s) (srcurl s) (src_description s) (producer s) (src_keys s ++ [k]) (src_values s))
        (λ v s, Source (srckey s) (srcname s) (srcurl s) (src_description s) (producer s) (src_keys s) (src_values s ++ [v])) k v s;
      mret (rc, set_source (Some s) j)
  | _, _, _ => mret (OPH_JSON_BAD_PARAM_ERROR, j)
  end.

Definition _oph_json_add_extra_detail (key value : cstr) : op oph_json := λ j,
  match key, value with
  | Some k, Some v =>
      e ← (match extra j with
           | Some e => mret (Some e)
           | None => b ← malloc; mret (if b : bool then Some (Extra [] []) else None)
           end);
      match e with
      | None => mret (OPH_JSON_MEMORY_ERROR, j)
      | Some e =>
          '(rc, e) ← add_detail extra_keys (λ k e, Extra (extra_keys e ++ [k]) (extra_values e))
                       (λ v e, Extra (extra_keys e) (extra_values e ++ [v])) k v e;
          mret (rc, set_extra (Some e) j)
      end
  | _, _ => mret (OPH_JSON_BAD_PARAM_ERROR, j)
  end.

Definition oph_json_is_objkey_printable (objkeys : option (list cstr)) (objkeys_num : Z) (key : cstr) : C bool :=
  match objkeys, key with
  | Some ks, Some key =>
      if objkeys_num <? 1 then mret true else
      k0 ← deref (ks !! 0%nat);
      b ← strcmp0 k0 (Some "all"%string);
      if b : bool then mret true else
      b ← strcmp0 k0 (Some "none"%string);
      if b : bool then mret false else
      assertC (bool_decide (Z.to_nat objkeys_num ≤ length ks)%nat);;
      occurs key (take (Z.to_nat objkeys_num) ks)
  | _, _ => mret true
  end.

(** ** Responses *)

(** The objects of a class, as the type of [objcontent]. *)
Class ObjKind (Ob : Type) : Type := {
  wrap : list Ob → objcontents;
  unwrap : objcontents → option (list Ob);
  unwrap_wrap l : unwrap (wrap l) = Some l;
}.

#[export] Instance text_kind : ObjKind oph_json_obj_text.
Proof. refine {| wrap := Texts; unwrap c := match c with Texts l => Some l | _ => None end |}. done. Defined.
#[export] Instance grid_kind : ObjKind oph_json_obj_grid.
Proof. refine {| wrap := Grids; unwrap c := match c with Grids l => Some l | _ => None end |}. done. Defined.
#[export] Instance multigrid_kind : ObjKind oph_json_obj_multigrid.
Proof. refine {| wrap := Multigrids; unwrap c := match c with Multigrids l => Some l | _ => None end |}. done. Defined.
#[export] Instance tree_kind : ObjKind oph_json_obj_tree.
Proof. refine {| wrap := Trees; unwrap c := match c with Trees l => Some l | _ => None end |}. done. Defined.
#[export] Instance graph_kind : ObjKind oph_json_obj_graph.
Proof. refine {| wrap := Graphs; unwrap c := match c with Graphs l => Some l | _ => None end |}. done. Defined.

(** The loop over the responses: the first one with the key, and whether its class is
    the one asked for. *)
Inductive lookup : Type :=
| Found (i : nat)
| Absent
| WrongClass.

Fixpoint find_response (rs : list oph_json_response) (i : nat) (key : string) (accept : string → bool) : C lookup :=
  match rs with
  | [] => mret Absent
  | r :: rs' =>
      b ← strcmp0 (objkey r) (Some key);
      if b : bool then c ← deref (objclass r); mret (if accept c then Found i else WrongClass)
      else find_response rs' (S i) key accept
  end.

Section objects.
Context `{ObjKind Ob}.

(** A step on the objects of response [i]; a cast to another class is undefined. *)
Definition on_content (i : nat) (f : op (list Ob)) : op oph_json := λ j,
  r ← deref (response j !! i);
  l ← deref (unwrap (objcontent r));
  '(rc, l) ← f l;
  mret (rc, set_response (<[i := Response (objclass r) (objkey r) (wrap l)]> (response j)) j).

(** The array grows by an object that is counted once its title is copied. *)
Definition push_object (title : cstr) (zero : cstr → Ob) (body : op Ob) : op (list Ob) :=
  andthen alloc (λ l,
    p ← strdup title;
    match p with
    | None => mret (OPH_JSON_MEMORY_ERROR, l)
    | Some _ => '(rc, o) ← body (zero p); mret (rc, l ++ [o])
    end).

(** A new response with one object. *)
Definition new_response (class : string) (key title : cstr) (zero : cstr → Ob) (body : op Ob) : op oph_json :=
  andthen alloc (λ j,
    p ← strdup (Some class);
    match p with
    | None => mret (OPH_JSON_MEMORY_ERROR, j)
    | Some _ =>
        let i := length (response j) in
        andthen (dup key (λ v j, set_response (<[i := Response p v (wrap [])]> (response j)) j))
       (andthen (λ j, '(rc, j) ← _oph_json_add_responseKey key j;
                      mret (if rc =? OPH_JSON_SUCCESS then OPH_JSON_SUCCESS else OPH_JSON_MEMORY_ERROR, j))
                (on_content i (push_object title zero body)))
         (set_response (response j ++ [Response p None (wrap [])]) j)
    end).

(** The three cases of the functions that add an object: an empty document, a response
    with the key (of the class), no response with the key. *)
Definition add_object (class key : string) (title : cstr) (zero : cstr → Ob) (body : op Ob) : op oph_json := λ j,
  if bool_decide (response j = []) then new_response class (Some key) title zero body j
  else
    f ← find_response (response j) 0 key (λ c, bool_decide (c = class));
    match f with
    | WrongClass => mret (OPH_JSON_BAD_PARAM_ERROR, j)
    | Found i => on_content i (push_object title zero body) j
    | Absent => new_response class (Some key) title zero body j
    end.

(** A step on the last object of the response with the key. *)
Definition on_last (key : string) (accept : string → bool) (absent : Z) (f : string → op Ob) : op oph_json := λ j,
  if bool_decide (response j = []) then mret (OPH_JSON_BAD_PARAM_ERROR, j)
  else
    r ← find_response (response j) 0 key accept;
    match r with
    | WrongClass => mret (OPH_JSON_BAD_PARAM_ERROR, j)
    | Absent => mret (absent, j)
    | Found i =>
        r ← deref (response j !! i);
        class ← deref (objclass r);
        on_content i (λ l,
          match last l with
          | None => mret (OPH_JSON_BAD_PARAM_ERROR, l)
          | Some o => '(rc, o) ← f class o; mret (rc, set_last l o)
          end) j
    end.
End objects.

Definition is_null {A} (p : option A) : bool := match p with None => true | Some _ => false end.

(** ** Texts *)

Definition text_body (message : cstr) : op oph_json_obj_text := dup_opt message (λ v t, Text (text_title t) v).

Definition _oph_json_add_text (key title message : cstr) : op oph_json := λ j,
  match key with
  | Some key =>
      if is_null title then mret (OPH_JSON_BAD_PARAM_ERROR, j)
      else add_object OPH_JSON_TEXT key title (λ t, Text t None) (text_body message) j
  | None => mret (OPH_JSON_BAD_PARAM_ERROR, j)
  end.

(** ** Grids *)

Definition grid_eta (r : oph_json_obj_grid) : oph_json_obj_grid :=
  Grid (grid_title r) (grid_description r) (grid_keys r) (grid_fieldtypes r) (grid_values r) (grid_values_num2 r).
Definition set_grid_description v (r : oph_json_obj_grid) : oph_json_obj_grid := ltac:(set_field grid_eta grid_description v r).
Definition set_grid_keys v (r : oph_json_obj_grid) : oph_json_obj_grid := ltac:(set_field grid_eta grid_keys v r).
Definition set_grid_fieldtypes v (r : oph_json_obj_grid) : oph_json_obj_grid := ltac:(set_field grid_eta grid_fieldtypes v r).
Definition set_grid_values v (r : oph_json_obj_grid) : oph_json_obj_grid := ltac:(set_field grid_eta grid_values v r).
Definition set_grid_values_num2 v (r : oph_json_obj_grid) : oph_json_obj_grid := ltac:(set_field grid_eta grid_values_num2 v r).

Definition grid_body (description : cstr) (keys : list cstr) (keys_num : Z) (fieldtypes : list cstr) (fieldtypes_num : Z) :
    op oph_json_obj_grid :=
  andthen (dup_opt description set_grid_description)
 (andthen (copy_keys keys (Z.to_nat keys_num) (λ v g, set_grid_keys (grid_keys g ++ [v]) g))
 (andthen (copy_types fieldtypes (Z.to_nat fieldtypes_num) (λ v g, set_grid_fieldtypes (grid_fieldtypes g ++ [v]) g))
 (λ g,
  if negb (keys_num =? fieldtypes_num) || negb (keys_num =? Z.of_nat (length (grid_keys g)))
     || negb (fieldtypes_num =? Z.of_nat (length (grid_fieldtypes g)))
  then mret (OPH_JSON_BAD_PARAM_ERROR, g)
  else mret (OPH_JSON_SUCCESS, set_grid_values_num2 (length (grid_keys g)) g)))).

Definition _oph_json_add_grid (key title description : cstr) (keys : option (list cstr)) (keys_num : Z)
    (fieldtypes : option (list cstr)) (fieldtypes_num : Z) : op oph_json := λ j,
  match key, keys, fieldtypes with
  | Some key, Some keys, Some fieldtypes =>
      if is_null title || (keys_num <? 1) || (fieldtypes_num <? 1) then mret (OPH_JSON_BAD_PARAM_ERROR, j)
      else add_object OPH_JSON_GRID key title (λ t, Grid t None [] [] [] 0)
             (grid_body description keys keys_num fieldtypes fieldtypes_num) j
  | _, _, _ => mret (OPH_JSON_BAD_PARAM_ERROR, j)
  end.

(** Allocate the array of rows and the row, count it, fill it. *)
Definition grid_row (values : list cstr) : op oph_json_obj_grid :=
  andthen alloc (andthen alloc (λ g,
    fill_row values (grid_values_num2 g) (λ r g, set_grid_values (grid_values g ++ [r]) g) g)).

Definition _oph_json_add_grid_row (key : cstr) (values : option (list cstr)) : op oph_json := λ j,
  match key, values with
  | Some key, Some values =>
      on_last key (λ c, bool_decide (c = OPH_JSON_GRID)) OPH_JSON_BAD_PARAM_ERROR (λ _, grid_row values) j
  | _, _ => mret (OPH_JSON_BAD_PARAM_ERROR, j)
  end.

(** ** Multidimensional grids *)

Definition multi_eta (r : oph_json_obj_multigrid) : oph_json_obj_multigrid :=
  Multigrid (multi_title r) (multi_description r) (rowkeys r) (rowfieldtypes r) (rowvalues r) (rowvalues_num1 r) (rowvalues_num2 r) (colkeys r) (colfieldtypes r) (colvalues r) (colvalues_num2 r) (measurename r) (measuretype r) (measurevalues r) (measurevalues_num2 r).
Definition set_multi_description v (r : oph_json_obj_multigrid) : oph_json_obj_multigrid := ltac:(set_field multi_eta multi_description v r).
Definition set_rowkeys v (r : oph_json_obj_multigrid) : oph_json_obj_multigrid := ltac:(set_field multi_eta rowkeys v r).
Definition set_rowfieldtypes v (r : oph_json_obj_multigrid) : oph_json_obj_multigrid := ltac:(set_field multi_eta rowfieldtypes v r).
Definition set_rowvalues v (r : oph_json_obj_multigrid) : oph_json_obj_multigrid := ltac:(set_field multi_eta rowvalues v r).
Definition set_rowvalues_num1 v (r : oph_json_obj_multigrid) : oph_json_obj_multigrid := ltac:(set_field multi_eta rowvalues_num1 v r).
Definition set_rowvalues_num2 v (r : oph_json_obj_multigrid) : oph_json_obj_multigrid := ltac:(set_field multi_eta rowvalues_num2 v r).
Definition set_colkeys v (r : oph_json_obj_multigrid) : oph_json_obj_multigrid := ltac:(set_field multi_eta colkeys v r).
Definition set_colfieldtypes v (r : oph_json_obj_multigrid) : oph_json_obj_multigrid := ltac:(set_field multi_eta colfieldtypes v r).
Definition set_colvalues v (r : oph_json_obj_multigrid) : oph_json_obj_multigrid := ltac:(set_field multi_eta colvalues v r).
Definition set_colvalues_num2 v (r : oph_json_obj_multigrid) : oph_json_obj_multigrid := ltac:(set_field multi_eta colvalues_num2 v r).
Definition set_measurename v (r : oph_json_obj_multigrid) : oph_json_obj_multigrid := ltac:(set_field multi_eta measurename v r).
Definition set_measuretype v (r : oph_json_obj_multigrid) : oph_json_obj_multigrid := ltac:(set_field multi_eta measuretype v r).
Definition set_measurevalues v (r : oph_json_obj_multigrid) : oph_json_obj_multigrid := ltac:(set_field multi_eta measurevalues v r).
Definition set_measurevalues_num2 v (r : oph_json_obj_multigrid) : oph_json_obj_multigrid := ltac:(set_field multi_eta measurevalues_num2 v r).

(** The values of the columns: null rows first, then row by row. *)
Definition copy_colvalues (values : list (option (list cstr))) (num1 num2 : nat) : op oph_json_obj_multigrid :=
  andthen alloc
 (andthen (update (λ g, set_colvalues_num2 num2 (set_colvalues (replicate num1 None) g)))
          (for_each (λ k, andthen alloc (λ g,
             r ← deref (values !! k);
             r ← deref r;
             fill_row r num2 (λ r g, set_colvalues (<[k := Some r]> (colvalues g)) g) g)) (seq 0 num1))).

Definition multigrid_body (description : cstr) (rkeys : list cstr) (rkeys_num : nat) (rtypes : list cstr) (rtypes_num : nat)
    (ckeys : list cstr) (ckeys_num : nat) (ctypes : list cstr) (ctypes_num : nat)
    (cvalues : list (option (list cstr))) (cvalues_num : nat) (mname mtype : cstr) : op oph_json_obj_multigrid :=
  andthen (dup_opt description set_multi_description)
 (andthen (copy_keys rkeys rkeys_num (λ v g, set_rowkeys (rowkeys g ++ [v]) g))
 (andthen (copy_types rtypes rtypes_num (λ v g, set_rowfieldtypes (rowfieldtypes g ++ [v]) g))
 (andthen (copy_keys ckeys ckeys_num (λ v g, set_colkeys (colkeys g ++ [v]) g))
 (andthen (copy_types ctypes ctypes_num (λ v g, set_colfieldtypes (colfieldtypes g ++ [v]) g))
 (andthen (copy_colvalues cvalues cvalues_num ckeys_num)
 (andthen (dup mname set_measurename)
 (andthen (λ g, t ← deref mtype; require (oph_json_is_measuretype_correct t) g)
 (andthen (dup mtype set_measuretype)
          (update (λ g, set_rowvalues_num2 rkeys_num (set_measurevalues_num2 cvalues_num g))))))))))).

Definition _oph_json_add_multigrid (key title description : cstr) (rkeys : option (list cstr)) (rkeys_num : Z)
    (rtypes : option (list cstr)) (rtypes_num : Z) (ckeys : option (list cstr)) (ckeys_num : Z)
    (ctypes : option (list cstr)) (ctypes_num : Z) (cvalues : option (list (option (list cstr)))) (cvalues_num : Z)
    (mname mtype : cstr) : op oph_json := λ j,
  match key, rkeys, rtypes, ckeys, ctypes, cvalues with
  | Some key, Some rkeys, Some rtypes, Some ckeys, Some ctypes, Some cvalues =>
      if is_null title || (rkeys_num <? 1) || (rtypes_num <? 1) || (ckeys_num <? 1) || (ctypes_num <? 1)
         || (cvalues_num <? 1) || is_null mname || is_null mtype
      then mret (OPH_JSON_BAD_PARAM_ERROR, j)
      else add_object OPH_JSON_MULTIGRID key title (λ t, Multigrid t None [] [] [] 0 0 [] [] [] 0 None None [] 0)
             (multigrid_body description rkeys (Z.to_nat rkeys_num) rtypes (Z.to_nat rtypes_num) ckeys (Z.to_nat ckeys_num)
                ctypes (Z.to_nat ctypes_num) cvalues (Z.to_nat cvalues_num) mname mtype) j
  | _, _, _, _, _, _ => mret (OPH_JSON_BAD_PARAM_ERROR, j)
  end.

(** An array grown to [n] cells, the new ones uninitialised. *)
Definition resize {A} (n : nat) (l : list (option A)) : list (option A) := take n l ++ replicate (n - length l) None.

(** Both arrays grow to the rows of [measurevalues] and one more; a row of each is
    allocated and counted; then both are filled. *)
Definition multigrid_row (rvalues mvalues : list cstr) : op oph_json_obj_multigrid := λ g,
  let index := length (measurevalues g) in
  (andthen alloc (andthen alloc (andthen (update (λ g, set_rowvalues (resize (S index) (rowvalues g)) g))
  (andthen alloc (andthen (update (λ g, set_measurevalues (measurevalues g ++ [replicate (measurevalues_num2 g) None]) g))
  (andthen alloc (andthen (update (λ g, set_rowvalues_num1 (S (rowvalues_num1 g))
                                      (set_rowvalues (<[index := Some (replicate (rowvalues_num2 g) None)]> (rowvalues g)) g)))
  (andthen (λ g, fill_row mvalues (measurevalues_num2 g) (λ r g, set_measurevalues (<[index := r]> (measurevalues g)) g) g)
           (λ g, fill_row rvalues (rowvalues_num2 g) (λ r g, set_rowvalues (<[index := Some r]> (rowvalues g)) g) g))))))))) g.

Definition _oph_json_add_multigrid_row (key : cstr) (rvalues mvalues : option (list cstr)) : op oph_json := λ j,
  match key, rvalues, mvalues with
  | Some key, Some rvalues, Some mvalues =>
      on_last key (λ c, bool_decide (c = OPH_JSON_MULTIGRID)) OPH_JSON_BAD_PARAM_ERROR (λ _, multigrid_row rvalues mvalues) j
  | _, _, _ => mret (OPH_JSON_BAD_PARAM_ERROR, j)
  end.

(** ** Trees and graphs *)

Definition tree_eta (r : oph_json_obj_tree) : oph_json_obj_tree :=
  Tree (tree_title r) (tree_description r) (tree_nodekeys r) (tree_nodevalues r) (tree_nodevalues_num2 r) (rootnode r) (tree_nodelinks r).
Definition set_tree_description v (r : oph_json_obj_tree) : oph_json_obj_tree := ltac:(set_field tree_eta tree_description v r).
Definition set_tree_nodekeys v (r : oph_json_obj_tree) : oph_json_obj_tree := ltac:(set_field tree_eta tree_nodekeys v r).
Definition set_tree_nodevalues v (r : oph_json_obj_tree) : oph_json_obj_tree := ltac:(set_field tree_eta tree_nodevalues v r).
Definition set_tree_nodevalues_num2 v (r : oph_json_obj_tree) : oph_json_obj_tree := ltac:(set_field tree_eta tree_nodevalues_num2 v r).
Definition set_rootnode v (r : oph_json_obj_tree) : oph_json_obj_tree := ltac:(set_field tree_eta rootnode v r).
Definition set_tree_nodelinks v (r : oph_json_obj_tree) : oph_json_obj_tree := ltac:(set_field tree_eta tree_nodelinks v r).
Definition graph_eta (r : oph_json_obj_graph) : oph_json_obj_graph :=
  Graph (graph_title r) (graph_description r) (graph_nodekeys r) (graph_nodevalues r) (graph_nodevalues_num2 r) (graph_nodelinks r).
Definition set_graph_description v (r : oph_json_obj_graph) : oph_json_obj_graph := ltac:(set_field graph_eta graph_description v r).
Definition set_graph_nodekeys v (r : oph_json_obj_graph) : oph_json_obj_graph := ltac:(set_field graph_eta graph_nodekeys v r).
Definition set_graph_nodevalues v (r : oph_json_obj_graph) : oph_json_obj_graph := ltac:(set_field graph_eta graph_nodevalues v r).
Definition set_graph_nodevalues_num2 v (r : oph_json_obj_graph) : oph_json_obj_graph := ltac:(set_field graph_eta graph_nodevalues_num2 v r).
Definition set_graph_nodelinks v (r : oph_json_obj_graph) : oph_json_obj_graph := ltac:(set_field graph_eta graph_nodelinks v r).

(** What the node and link functions of trees and graphs, written twice in the code,
    share. *)
Class Linked (Ob : Type) : Type := {
  nodevalues : Ob → list row;
  nodevalues_num2 : Ob → nat;
  nodelinks : Ob → list oph_json_links;
  set_nodevalues : list row → Ob → Ob;
  set_nodelinks : list oph_json_links → Ob → Ob;
}.
#[export] Instance tree_linked : Linked oph_json_obj_tree :=
  {| nodevalues := tree_nodevalues; nodevalues_num2 := tree_nodevalues_num2; nodelinks := tree_nodelinks;
     set_nodevalues := set_tree_nodevalues; set_nodelinks := set_tree_nodelinks |}.
#[export] Instance graph_linked : Linked oph_json_obj_graph :=
  {| nodevalues := graph_nodevalues; nodevalues_num2 := graph_nodevalues_num2; nodelinks := graph_nodelinks;
     set_nodevalues := set_graph_nodevalues; set_nodelinks := set_graph_nodelinks |}.

Section linked.
Context `{Linked Ob}.

(** A node: its values, if the object has keys, and an empty list of links. *)
Definition add_node (values : option (list cstr)) : op Ob :=
  andthen (λ o,
    match values with
    | Some values =>
        if (nodevalues_num2 o =? 0)%nat then mret (OPH_JSON_BAD_PARAM_ERROR, o)
        else andthen alloc (andthen alloc
               (λ o, fill_row values (nodevalues_num2 o) (λ r o, set_nodevalues (nodevalues o ++ [r]) o) o)) o
    | None => if (nodevalues_num2 o =? 0)%nat then mret (OPH_JSON_SUCCESS, o) else mret (OPH_JSON_BAD_PARAM_ERROR, o)
    end)
 (andthen alloc (update (λ o, set_nodelinks (nodelinks o ++ [[]]) o))).

(** [!strcmp(links[n].node, buf)] for some [n]. *)
Definition linked_to (o : Ob) (from to : Z) : C bool :=
  l ← deref (nodelinks o !! Z.to_nat from); occurs (print_int to) (node <$> l).

(** The new link: counted with null fields, then filled. *)
Definition push_link (from to : Z) (description : cstr) : op Ob := λ o,
  l ← deref (nodelinks o !! Z.to_nat from);
  '(rc, k) ← andthen alloc (andthen (dup (Some (print_int to)) (λ v k, Some (Link v None)))
                                    (dup_opt description (λ v k, (λ k, Link (node k) v) <$> k))) None;
  mret (rc, match k with
            | Some k => set_nodelinks (<[Z.to_nat from := l ++ [k]]> (nodelinks o)) o
            | None => o
            end).
End linked.

(** The keys of the nodes are optional. *)
Definition tree_body (description : cstr) (nkeys : option (list cstr)) (nkeys_num : nat) : op oph_json_obj_tree :=
  andthen (dup_opt description set_tree_description)
  match nkeys with
  | None => ok
  | Some nkeys => andthen (copy_keys nkeys nkeys_num (λ v t, set_tree_nodekeys (tree_nodekeys t ++ [v]) t))
                          (update (set_tree_nodevalues_num2 nkeys_num))
  end.

Definition graph_body (description : cstr) (nkeys : option (list cstr)) (nkeys_num : nat) : op oph_json_obj_graph :=
  andthen (dup_opt description set_graph_description)
  match nkeys with
  | None => ok
  | Some nkeys => andthen (copy_keys nkeys nkeys_num (λ v t, set_graph_nodekeys (graph_nodekeys t ++ [v]) t))
                          (update (set_graph_nodevalues_num2 nkeys_num))
  end.

Definition _oph_json_add_tree (key title description : cstr) (nkeys : option (list cstr)) (nkeys_num : Z) : op oph_json := λ j,
  match key with
  | Some key =>
      if is_null title || (nkeys_num <? 0) then mret (OPH_JSON_BAD_PARAM_ERROR, j)
      else add_object OPH_JSON_TREE key title (λ t, Tree t None [] [] 0 None []) (tree_body description nkeys (Z.to_nat nkeys_num)) j
  | None => mret (OPH_JSON_BAD_PARAM_ERROR, j)
  end.

Definition is_tree (c : string) : bool := bool_decide (c = OPH_JSON_TREE).
Definition is_graph (c : string) : bool := bool_decide (c = OPH_JSON_DGRAPH) || bool_decide (c = OPH_JSON_GRAPH).

Definition _oph_json_add_tree_node (key : cstr) (values : option (list cstr)) : op oph_json := λ j,
  match key with
  | Some key => on_last key is_tree OPH_JSON_BAD_PARAM_ERROR (λ _, add_node (Ob := oph_json_obj_tree) values) j
  | None => mret (OPH_JSON_BAD_PARAM_ERROR, j)
  end.

Definition _oph_json_set_tree_root (key : cstr) (root : Z) : op oph_json := λ j,
  match key with
  | Some key =>
      if root <? 0 then mret (OPH_JSON_BAD_PARAM_ERROR, j) else
      on_last key is_tree OPH_JSON_BAD_PARAM_ERROR (λ _ t,
        if is_null (rootnode t) then dup (Some (print_int root)) set_rootnode t
        else mret (OPH_JSON_BAD_PARAM_ERROR, t)) j
  | None => mret (OPH_JSON_BAD_PARAM_ERROR, j)
  end.

Definition tree_link (sourcenode targetnode : Z) (description : cstr) : op oph_json_obj_tree := λ t,
  let n := Z.of_nat (length (nodelinks t)) in
  if negb (sourcenode =? targetnode) && (sourcenode + 1 <=? n) && (targetnode + 1 <=? n) then
    b ← linked_to t sourcenode targetnode;
    if b : bool then mret (OPH_JSON_BAD_PARAM_ERROR, t) else push_link sourcenode targetnode description t
  else mret (OPH_JSON_BAD_PARAM_ERROR, t).

Definition _oph_json_add_tree_link (key : cstr) (sourcenode targetnode : Z) (description : cstr) : op oph_json := λ j,
  match key with
  | Some key =>
      if (sourcenode <? 0) || (targetnode <? 0) then mret (OPH_JSON_BAD_PARAM_ERROR, j) else
      on_last key is_tree OPH_JSON_BAD_PARAM_ERROR (λ _, tree_link sourcenode targetnode description) j
  | None => mret (OPH_JSON_BAD_PARAM_ERROR, j)
  end.

Definition _oph_json_add_graph (key : cstr) (is_digraph : Z) (title description : cstr) (nkeys : option (list cstr))
    (nkeys_num : Z) : op oph_json := λ j,
  match key with
  | Some key =>
      if (is_digraph <? 0) || (1 <? is_digraph) || is_null title || (nkeys_num <? 0) then mret (OPH_JSON_BAD_PARAM_ERROR, j)
      else add_object (if is_digraph =? 0 then OPH_JSON_GRAPH else OPH_JSON_DGRAPH) key title (λ t, Graph t None [] [] 0 [])
             (graph_body description nkeys (Z.to_nat nkeys_num)) j
  | None => mret (OPH_JSON_BAD_PARAM_ERROR, j)
  end.

Definition _oph_json_add_graph_node (key : cstr) (values : option (list cstr)) : op oph_json := λ j,
  match key with
  | Some key => on_last key is_graph OPH_JSON_BAD_PARAM_ERROR (λ _, add_node (Ob := oph_json_obj_graph) values) j
  | None => mret (OPH_JSON_BAD_PARAM_ERROR, j)
  end.

(** In an undirected graph the link may not exist in either direction. *)
Definition graph_link (class : string) (node1 node2 : Z) (description : cstr) : op oph_json_obj_graph := λ g,
  let n := Z.of_nat (length (nodelinks g)) in
  if negb (node1 =? node2) && (node1 + 1 <=? n) && (node2 + 1 <=? n) then
    b ← (if bool_decide (class = OPH_JSON_DGRAPH) then mret false else linked_to g node2 node1);
    if b : bool then mret (OPH_JSON_BAD_PARAM_ERROR, g) else
    b ← linked_to g node1 node2;
    if b : bool then mret (OPH_JSON_BAD_PARAM_ERROR, g) else push_link node1 node2 description g
  else mret (OPH_JSON_BAD_PARAM_ERROR, g).

(** A key that is not there is not an error here. *)
Definition _oph_json_add_graph_link (key : cstr) (node1 node2 : Z) (description : cstr) : op oph_json := λ j,
  match key with
  | Some key =>
      if (node1 <? 0) || (node2 <? 0) then mret (OPH_JSON_BAD_PARAM_ERROR, j) else
      on_last key is_graph OPH_JSON_SUCCESS (λ class, graph_link class node1 node2 description) j
  | None => mret (OPH_JSON_BAD_PARAM_ERROR, j)
  end.

(** ** Triples

    [{{ P }} f {{ Q | E }}]: on a structure with [P], with an allocator that does not fail, the step
    returns, with success and [Q] or, if [E], with the error of a bad parameter. *)
Definition steady (m : mem) : Prop := m = [].

Lemma wp_malloc_steady (Q : bool → mem → Prop) m : steady m → (∀ m', steady m' → Q true m') → wp malloc Q m.
Proof. intros -> HQ. by apply HQ. Qed.

Lemma wp_strdup_steady s (Q : cstr → mem → Prop) m : steady m → (∀ m', steady m' → Q (Some s) m') → wp (strdup (Some s)) Q m.
Proof. intros -> HQ. by apply HQ. Qed.

Definition post {S} (Q : S → Prop) (E : Prop) (r : Z * S) (m : mem) : Prop :=
  steady m ∧ (r.1 = OPH_JSON_SUCCESS ∧ Q r.2 ∨ r.1 = OPH_JSON_BAD_PARAM_ERROR ∧ E).
Definition triple {S} (P : S → Prop) (f : op S) (Q : S → Prop) (E : Prop) : Prop :=
  ∀ s m, P s → steady m → wp (f s) (post Q E) m.

Declare Scope json_scope.
#[local] Open Scope json_scope.
Notation "'{{' P '}}' f '{{' Q '|' E '}}'" := (triple P f Q E) (at level 20, f at level 200) : json_scope.

Section triples.
Context {S : Type} (E : Prop).
Implicit Types (P Q R : S → Prop) (f g : op S).

Lemma triple_conseq P P' Q Q' f :
  {{ P' }} f {{ Q' | E }} → (∀ s, P s → P' s) → (∀ s, Q' s → Q s) → {{ P }} f {{ Q | E }}.
Proof. intros Hf HP HQ s m Hs Hm. eapply wp_mono; [by apply Hf; [apply HP|]|]. unfold post. naive_solver. Qed.

Lemma triple_pre P P' Q f : {{ P' }} f {{ Q | E }} → (∀ s, P s → P' s) → {{ P }} f {{ Q | E }}.
Proof. intros Hf HP. eapply triple_conseq; eauto. Qed.

Lemma triple_ok P : {{ P }} ok {{ P | E }}.
Proof. intros s m Hs Hm. apply wp_ret. unfold post. naive_solver. Qed.

Lemma triple_bad P Q : E → {{ P }} fail OPH_JSON_BAD_PARAM_ERROR {{ Q | E }}.
Proof. intros HE s m Hs Hm. apply wp_ret. unfold post. naive_solver. Qed.

Lemma triple_update P Q (h : S → S) : (∀ s, P s → Q (h s)) → {{ P }} update h {{ Q | E }}.
Proof. intros HQ s m Hs Hm. apply wp_ret. unfold post. naive_solver. Qed.

Lemma triple_seq P Q R f g : {{ P }} f {{ Q | E }} → {{ Q }} g {{ R | E }} → {{ P }} andthen f g {{ R | E }}.
Proof.
  intros Hf Hg s m Hs Hm. unfold andthen. apply wp_bind. eapply wp_mono; [by apply Hf|].
  intros [rc s'] m' (Hm' & [[Hrc HQ]|[Hrc HE]]); simpl in *; subst rc; simpl.
  - by apply Hg.
  - apply wp_ret. unfold post. naive_solver.
Qed.

Lemma triple_alloc P : {{ P }} alloc {{ P | E }}.
Proof.
  intros s m Hs Hm. unfold alloc. apply wp_bind, wp_malloc_steady; [done|]. intros m' Hm'. apply wp_ret. unfold post. naive_solver.
Qed.

Lemma triple_dup P Q v (set : cstr → S → S) :
  (∀ s, P s → Q (set (Some v) s)) → {{ P }} dup (Some v) set {{ Q | E }}.
Proof.
  intros HQ s m Hs Hm. unfold dup. apply wp_bind, wp_strdup_steady; [done|]. intros m' Hm'. apply wp_ret. unfold post. naive_solver.
Qed.

Lemma triple_dup_opt P v (set : cstr → S → S) :
  (∀ s v, P s → P (set v s)) → {{ P }} dup_opt v set {{ P | E }}.
Proof. intros HP. destruct v as [v|]; [apply triple_dup; auto|apply triple_ok]. Qed.

Lemma triple_dup_elem P Q v (push : string → S → S) :
  (∀ s, P s → Q (push v s)) → {{ P }} dup_elem (Some v) push {{ Q | E }}.
Proof.
  intros HQ s m Hs Hm. unfold dup_elem. apply wp_bind, wp_strdup_steady; [done|]. intros m' Hm'. apply wp_ret. unfold post. naive_solver.
Qed.

(** A loop over [0 .. n-1] with an invariant on the number of rounds done. *)
Lemma triple_for (I : nat → S → Prop) (h : nat → op S) n :
  (∀ k, (k < n)%nat → {{ I k }} h k {{ I (Datatypes.S k) | E }}) → {{ I 0%nat }} for_each h (seq 0 n) {{ I n | E }}.
Proof.
  intros Hh. assert (∀ k d, (d + k = n)%nat → {{ I d }} for_each h (seq d k) {{ I n | E }}) as Hgen; [|by apply Hgen].
  induction k as [|k IH]; intros d Hd; simpl.
  - replace n with d by lia. apply triple_ok.
  - eapply triple_seq; [apply Hh; lia|]. apply IH. lia.
Qed.
End triples.

(** ** Arrays of strings *)

Lemma wp_occurs v (ws : list string) (Q : bool → mem → Prop) m :
  Q (bool_decide (v ∈ ws)) m → wp (occurs v (Some <$> ws)) Q m.
Proof.
  induction ws as [|w ws IH]; intros HQ; simpl; [by apply wp_ret|].
  apply wp_bind. unfold strcmp0. wp_steps. destruct (decide (w = v)) as [->|Hne].
  - rewrite bool_decide_eq_true_2 by done. apply wp_ret. rewrite bool_decide_eq_true_2 in HQ by (by left). done.
  - rewrite bool_decide_eq_false_2 by done. apply IH.
    replace (bool_decide (v ∈ ws)) with (bool_decide (v ∈ w :: ws)); [done|].
    apply bool_decide_ext. rewrite elem_of_cons. naive_solver.
Qed.

(** An array parameter: its first [n] strings are there. *)
Definition has_strings (l : list cstr) (n : nat) (ws : list string) : Prop := take n l = Some <$> ws ∧ length ws = n.

Lemma has_strings_lookup l n ws k : has_strings l n ws → (k < n)%nat →
  ∃ w, ws !! k = Some w ∧ l !! k = Some (Some w) ∧ take k l = Some <$> take k ws.
Proof.
  intros [Ht Hl] Hk. destruct (lookup_lt_is_Some_2 ws k) as [w Hw]; [lia|]. exists w. split_and!; [done| |].
  - transitivity (take n l !! k); [by rewrite lookup_take_lt|]. rewrite Ht, list_lookup_fmap, Hw. done.
  - rewrite fmap_take, <-Ht, take_take. f_equal. lia.
Qed.

(** Copying keys succeeds exactly with the strings, which are then distinct. *)
Lemma triple_copy_keys {S} (E : Prop) (P : S → Prop) (R : list string → S → Prop) keys n ws (push : string → S → S) :
  has_strings keys n ws → (¬ NoDup ws → E) → (∀ s, P s → R [] s) → (∀ ks k s, R ks s → R (ks ++ [k]) (push k s)) →
  {{ P }} copy_keys keys n push {{ λ s, NoDup ws ∧ R ws s | E }}.
Proof.
  intros Hk HE H0 Hp. unfold copy_keys. eapply triple_seq; [apply triple_alloc|].
  eapply triple_conseq; [apply (triple_for E (λ k s, NoDup (take k ws) ∧ R (take k ws) s))| |].
  - intros k Hlt s m [Hnd Hr] Hm. destruct (has_strings_lookup _ _ _ _ Hk Hlt) as (w & Hw & Hl & Htk).
    apply wp_bind, (wp_deref _ _ _ _ Hl), wp_bind.
    assert (∀ Q m', Q (bool_decide (w ∈ take k ws)) m' →
      wp (if (k =? 0)%nat then mret false else v ← deref (Some w); occurs v (take k keys)) Q m') as Hocc.
    { intros Q m' HQ. destruct (Nat.eqb_spec k 0) as [->|]; [apply wp_ret; by rewrite bool_decide_eq_false_2 in HQ by (by intros ?%elem_of_nil)|].
      apply wp_bind, wp_ret. rewrite Htk. by apply wp_occurs. }
    apply Hocc. rewrite (take_S_r _ _ _ Hw). case_bool_decide as Hin.
    { apply wp_ret. split; [done|right; split; [done|]]. apply HE. intros Hall.
      rewrite <-(take_drop_middle _ _ _ Hw) in Hall. apply NoDup_app in Hall as (_ & Hd & _). apply (Hd w Hin). left. }
    apply (triple_dup_elem E (λ s, R (take k ws) s) (λ s, NoDup (take k ws ++ [w]) ∧ R (take k ws ++ [w]) s)); [|done..]. intros s' Hs'. split; [|by apply Hp].
    apply NoDup_app. split_and!; [done| |apply NoDup_singleton].
    intros x Hx ->%list_elem_of_singleton. done.
  - intros s Hs. rewrite take_0. split; [constructor|by apply H0].
  - intros s. destruct Hk as [_ Hl]. rewrite <-Hl, firstn_all. done.
Qed.

Lemma triple_copy_types {S} (E : Prop) (P : S → Prop) (R : list string → S → Prop) types n ws (push : string → S → S) :
  has_strings types n ws → (¬ Forall (λ t, t ∈ json_types) ws → E) → (∀ s, P s → R [] s) →
  (∀ ts t s, R ts s → R (ts ++ [t]) (push t s)) →
  {{ P }} copy_types types n push {{ λ s, Forall (λ t, t ∈ json_types) ws ∧ R ws s | E }}.
Proof.
  intros Hk HE H0 Hp. unfold copy_types. eapply triple_seq; [apply triple_alloc|].
  eapply triple_conseq; [apply (triple_for E (λ k s, Forall (λ t, t ∈ json_types) (take k ws) ∧ R (take k ws) s))| |].
  - intros k Hlt s m [Hnd Hr] Hm. destruct (has_strings_lookup _ _ _ _ Hk Hlt) as (w & Hw & Hl & Htk).
    apply wp_bind, (wp_deref _ _ _ _ Hl), wp_bind, wp_ret. rewrite (take_S_r _ _ _ Hw).
    unfold oph_json_is_type_correct. case_bool_decide as Hin.
    + apply (triple_dup_elem E (λ s, R (take k ws) s) (λ s, Forall (λ t, t ∈ json_types) (take k ws ++ [w]) ∧ R (take k ws ++ [w]) s)); [|done..].
      intros s' Hs'. split; [|by apply Hp]. apply Forall_app. by rewrite Forall_singleton.
    + apply wp_ret. split; [done|right; split; [done|]]. apply HE. intros Hall. apply Hin.
      by eapply Forall_lookup_1 in Hall.
  - intros s Hs. rewrite take_0. split; [constructor|by apply H0].
  - intros s. destruct Hk as [_ Hl]. rewrite <-Hl, firstn_all. done.
Qed.

Lemma triple_fill_row {S} (E : Prop) (P Q : S → Prop) values n ws (set_row : row → S → S) :
  has_strings values n ws → (∀ s, P s → Q (set_row (Some <$> ws) s)) → {{ P }} fill_row values n set_row {{ Q | E }}.
Proof.
  intros Hk HQ s m Hs Hm. unfold fill_row. apply wp_bind.
  eapply wp_mono; [apply (triple_for False (λ k (r : row), r = (Some <$> take k ws) ++ replicate (n - k) None)); [|by rewrite take_0, Nat.sub_0_r|done]|].
  - intros k Hlt r m1 -> Hm1. destruct (has_strings_lookup _ _ _ _ Hk Hlt) as (w & Hw & Hl & Htk).
    apply wp_bind, (wp_deref _ _ _ _ Hl), wp_bind, wp_strdup_steady; [done|]. intros m2 Hm2. apply wp_ret.
    split; [done|left; split; [done|]]. simpl. destruct Hk as [_ Hn].
    rewrite insert_app_r_alt; rewrite length_fmap, length_take_le by lia; [|lia].
    rewrite Nat.sub_diag. replace (n - k)%nat with (Datatypes.S (n - Datatypes.S k)) by lia. simpl.
    rewrite (take_S_r _ _ _ Hw), fmap_app, <-app_assoc. done.
  - intros [rc r] m1 (Hm1 & [[Hrc Hr]|[_ []]]). simpl in *. subst. apply wp_ret. split; [done|left; split; [done|]].
    simpl. rewrite Nat.sub_diag, app_nil_r. destruct Hk as [_ <-]. rewrite firstn_all. by apply HQ.
Qed.

(** ** Well-formed objects *)

Definition row_ok (n : nat) (r : row) : Prop := ∃ ws : list string, r = Some <$> ws ∧ length ws = n.

Definition text_ok (t : oph_json_obj_text) : Prop := is_Some (text_title t).

Record grid_ok (g : oph_json_obj_grid) : Prop := {
  go_title : is_Some (grid_title g);
  go_keys : NoDup (grid_keys g) ∧ grid_keys g ≠ [];
  go_types : Forall (λ t, t ∈ json_types) (grid_fieldtypes g) ∧ length (grid_fieldtypes g) = length (grid_keys g);
  go_num2 : grid_values_num2 g = length (grid_keys g);
  go_rows : Forall (row_ok (length (grid_keys g))) (grid_values g);
}.

Record multigrid_ok (g : oph_json_obj_multigrid) : Prop := {
  mo_title : is_Some (multi_title g);
  mo_rowkeys : NoDup (rowkeys g) ∧ Forall (λ t, t ∈ json_types) (rowfieldtypes g);
  mo_colkeys : NoDup (colkeys g) ∧ Forall (λ t, t ∈ json_types) (colfieldtypes g);
  mo_colvalues : Forall (λ r, ∃ r', r = Some r' ∧ row_ok (length (colkeys g)) r') (colvalues g);
  mo_measure : is_Some (measurename g) ∧ ∃ t, measuretype g = Some t ∧ t ∈ json_types;
  mo_nums : rowvalues_num2 g = length (rowkeys g) ∧ measurevalues_num2 g = length (colvalues g) ∧ colvalues_num2 g = length (colkeys g);
  mo_rows : length (rowvalues g) = length (measurevalues g) ∧ rowvalues_num1 g = length (measurevalues g);
  mo_measures : Forall (row_ok (length (colvalues g))) (measurevalues g);
  mo_rowvalues : Forall (λ r, ∃ r', r = Some r' ∧ row_ok (length (rowkeys g)) r') (rowvalues g);
}.

(** The links of [n] nodes: the targets are other nodes, each at most once; without a
    direction, a link is in one of the two lists only. *)
Definition targets (ls : oph_json_links) : list Z → Prop := λ ts, node <$> ls = (Some ∘ print_int) <$> ts.

Definition links_ok (directed : bool) (lss : list oph_json_links) : Prop :=
  ∃ tss : list (list Z), Forall2 targets lss tss ∧
    (∀ i ts, tss !! i = Some ts → NoDup ts ∧ ∀ t, t ∈ ts → 0 ≤ t < Z.of_nat (length lss) ∧ t ≠ Z.of_nat i) ∧
    (directed = false → ∀ i k ts us, tss !! i = Some ts → tss !! k = Some us → Z.of_nat k ∈ ts → Z.of_nat i ∉ us).

(** The nodes of a tree or a graph with the keys. *)
Definition nodes_ok `{Linked Ob} (keys : list string) (o : Ob) : Prop :=
  NoDup keys ∧ nodevalues_num2 o = length keys ∧ Forall (row_ok (length keys)) (nodevalues o) ∧
  (if decide (keys = []) then nodevalues o = [] else length (nodevalues o) = length (nodelinks o)).

Definition tree_ok (t : oph_json_obj_tree) : Prop :=
  is_Some (tree_title t) ∧ nodes_ok (tree_nodekeys t) t ∧ links_ok true (nodelinks t).
Definition graph_ok (directed : bool) (g : oph_json_obj_graph) : Prop :=
  is_Some (graph_title g) ∧ nodes_ok (graph_nodekeys g) g ∧ links_ok directed (nodelinks g).

(** The objects are of the class of the response. *)
Definition contents_ok (class : string) (c : objcontents) : Prop :=
  match c with
  | Texts l => class = OPH_JSON_TEXT ∧ l ≠ [] ∧ Forall text_ok l
  | Grids l => class = OPH_JSON_GRID ∧ l ≠ [] ∧ Forall grid_ok l
  | Multigrids l => class = OPH_JSON_MULTIGRID ∧ l ≠ [] ∧ Forall multigrid_ok l
  | Trees l => class = OPH_JSON_TREE ∧ l ≠ [] ∧ Forall tree_ok l
  | Graphs l => is_graph class = true ∧ l ≠ [] ∧ Forall (graph_ok (bool_decide (class = OPH_JSON_DGRAPH))) l
  end.

Record response_ok (k : string) (r : oph_json_response) : Prop := {
  ro_key : objkey r = Some k;
  ro_class : ∃ c, objclass r = Some c ∧ contents_ok c (objcontent r);
}.

Definition details_ok (ks vs : list string) : Prop := NoDup ks ∧ length ks = length vs.

(** A document: the set of keys lists the keys of the responses, which are distinct. *)
Record doc_ok (j : oph_json) : Prop := {
  do_responses : Forall2 response_ok (responseKeyset j) (response j);
  do_keys : NoDup (responseKeyset j);
  do_consumers : NoDup (consumers j);
  do_source : ∀ s, source j = Some s → is_Some (srckey s) ∧ is_Some (srcname s) ∧ details_ok (src_keys s) (src_values s);
  do_extra : ∀ e, extra j = Some e → details_ok (extra_keys e) (extra_values e);
}.

(** ** Sets of strings and details *)

Lemma triple_add_string {S} (E : Prop) (P Q : S → Prop) (get : S → list string) set v :
  (∀ s, P s → v ∉ get s → Q (set (get s ++ [v]) s)) → (∀ s, P s → v ∈ get s → E) →
  {{ P }} add_string get set v {{ Q | E }}.
Proof.
  intros HQ HE s m Hs Hm. unfold add_string. case_bool_decide as Hget.
  - apply (triple_seq E (λ x, x = s) (λ x, x = s) Q); [apply triple_alloc| |done..].
    apply triple_dup_elem. intros s' ->. specialize (HQ s Hs). rewrite Hget in HQ. apply HQ. by intros ?%elem_of_nil.
  - apply wp_bind, wp_occurs. case_bool_decide as Hin; [apply wp_ret; unfold post; naive_solver|].
    apply (triple_seq E (λ x, x = s) (λ x, x = s) Q); [apply triple_alloc| |done..].
    apply triple_dup_elem. intros s' ->. by apply HQ.
Qed.

Lemma triple_add_detail {S} (E : Prop) (P Q : S → Prop) (keys : S → list string) push_key push_value k v :
  (∀ s, P s → k ∉ keys s → Q (push_value v (push_key k s))) → (∀ s, P s → k ∈ keys s → E) →
  {{ P }} add_detail keys push_key push_value k v {{ Q | E }}.
Proof.
  intros HQ HE s m Hs Hm. unfold add_detail. apply wp_bind.
  assert (∀ R m', R (bool_decide (k ∈ keys s)) m' →
    wp (if bool_decide (keys s = []) then mret false else occurs k (Some <$> keys s)) R m') as Hocc.
  { intros R m' HR. destruct (decide (keys s = [])) as [Hk|Hk].
    - rewrite bool_decide_eq_true_2 by done. apply wp_ret. rewrite Hk in HR. done.
    - rewrite bool_decide_eq_false_2 by done. by apply wp_occurs. }
  apply Hocc. case_bool_decide as Hin; [apply wp_ret; unfold post; naive_solver|].
  apply (triple_seq E (λ x, x = s) (λ x, x = s) Q); [apply triple_alloc| |done..].
  apply (triple_seq E _ (λ x, x = push_key k s)); [apply triple_dup_elem; by intros s' ->|].
  eapply triple_seq; [apply triple_alloc|]. apply triple_dup_elem. intros s' ->. by apply HQ.
Qed.

(** ** Responses *)

Lemma wp_find_response ks rs i key (accept : string → bool) (Q : lookup → mem → Prop) m :
  Forall2 response_ok ks rs →
  (key ∉ ks → Q Absent m) →
  (∀ n r c, ks !! n = Some key → rs !! n = Some r → objclass r = Some c → Q (if accept c then Found (i + n) else WrongClass) m) →
  wp (find_response rs i key accept) Q m.
Proof.
  intros Hrs. revert i. induction Hrs as [|k r ks rs Hr _ IH]; intros i Habs Hfound; simpl.
  { apply wp_ret, Habs. by intros ?%elem_of_nil. }
  destruct Hr as [Hk (c & Hc & _)]. apply wp_bind. unfold strcmp0. rewrite Hk. wp_steps. case_bool_decide as Heq.
  - subst. apply wp_bind, (wp_deref _ _ _ _ Hc), wp_ret. rewrite <-(Nat.add_0_r i) at 1. by apply (Hfound 0%nat r c).
  - apply IH; [intros Hin; apply Habs; rewrite elem_of_cons; naive_solver|].
    intros n r' c' Hn Hr' Hc'. replace (S i + n)%nat with (i + S n)%nat by lia. by apply (Hfound (S n) r' c').
Qed.

Section kinds.
Context `{ObjKind Ob} (E : Prop).

(** The last object of a response, when it has one, and its replacement. *)
Definition put_objects (i : nat) (c k : string) (l : list Ob) (j : oph_json) : oph_json :=
  set_response (<[i := Response (Some c) (Some k) (wrap l)]> (response j)) j.

(** Response [i] has the key, the class and the objects. *)
Definition response_at (i : nat) (c k : string) (l : list Ob) (j : oph_json) : Prop :=
  response j !! i = Some (Response (Some c) (Some k) (wrap l)).

Lemma triple_on_content i c k l (f : op (list Ob)) (Q : oph_json → Prop) j :
  response_at i c k l j →
  {{ λ x, x = l }} f {{ λ l', Q (put_objects i c k l' j) | E }} → {{ λ x, x = j }} on_content i f {{ Q | E }}.
Proof.
  intros Hr Hf s m -> Hm. unfold on_content. apply wp_bind, (wp_deref _ _ _ _ Hr), wp_bind. simpl.
  rewrite unwrap_wrap. apply wp_ret, wp_bind. eapply wp_mono; [by apply Hf|].
  intros [rc l'] m' (Hm' & Hq). apply wp_ret. done.
Qed.

(** The object a body makes is appended. *)
Lemma triple_push_object title zero body (l : list Ob) (Q : list Ob → Prop) :
  {{ λ o, o = zero (Some title) }} body {{ λ o, Q (l ++ [o]) | E }} →
  {{ λ x, x = l }} push_object (Some title) zero body {{ Q | E }}.
Proof.
  intros Hb. unfold push_object. eapply triple_seq; [apply triple_alloc|]. intros s m -> Hm.
  apply wp_bind, wp_strdup_steady; [done|]. intros m1 Hm1. apply wp_bind. eapply wp_mono; [by apply Hb|].
  intros [rc o] m2 (Hm2 & Hq). by apply wp_ret.
Qed.

(** The document with an object more. *)
Definition appended (c k : string) (o : Ob) (j : oph_json) : oph_json :=
  set_responseKeyset (responseKeyset j ++ [k]) (set_response (response j ++ [Response (Some c) (Some k) (wrap [o])]) j).

Lemma triple_new_response c k title zero body (Q : oph_json → Prop) j :
  k ∉ responseKeyset j →
  {{ λ o, o = zero (Some title) }} body {{ λ o : Ob, Q (appended c k o j) | E }} →
  {{ λ x, x = j }} new_response c (Some k) (Some title) zero body {{ Q | E }}.
Proof.
  intros Hk Hb. unfold new_response. eapply triple_seq; [apply triple_alloc|]. intros s m -> Hm.
  apply wp_bind, wp_strdup_steady; [done|]. intros m1 Hm1. set (i := length (response j)).
  set (j1 := set_response (response j ++ [Response (Some c) (Some k) (wrap [])]) j).
  refine (triple_seq E (λ x, x = set_response (response j ++ [Response (Some c) None (wrap [])]) j) (λ x, x = j1) Q _ _ _ _ _ _ eq_refl Hm1).
  { apply triple_dup. intros x ->. unfold j1, i. simpl. by rewrite insert_app_r_alt, Nat.sub_diag. }
  apply (triple_seq E _ (λ x, x = set_responseKeyset (responseKeyset j ++ [k]) j1)).
  - intros x m2 -> Hm2. apply wp_bind. eapply wp_mono.
    + apply (triple_add_string False (λ x, x = j1) (λ x, x = set_responseKeyset (responseKeyset j ++ [k]) j1)); [..|done|done];
        intros x ->; done.
    + intros [rc j'] m3 (Hm3 & [[Hrc Hj]|[_ []]]); simpl in *; subst; apply wp_ret; unfold post; naive_solver.
  - apply (triple_on_content i c k []).
    { unfold response_at, j1, i. simpl. by rewrite lookup_app_r, Nat.sub_diag. }
    apply triple_push_object. eapply triple_conseq; [exact Hb|done|]. intros o. unfold appended, put_objects, j1, i. simpl.
    by rewrite insert_app_r_alt, Nat.sub_diag.
Qed.

Lemma doc_ok_appended c k (o : Ob) j :
  doc_ok j → k ∉ responseKeyset j → contents_ok c (wrap [o]) → doc_ok (appended c k o j).
Proof.
  intros [H1 H2 H3 H4 H5] Hk Hc. split; simpl; try done.
  - apply Forall2_app; [done|]. constructor; [|constructor]. split; [done|eauto].
  - apply NoDup_app. split_and!; [done| |apply NoDup_singleton]. by intros x Hx ->%list_elem_of_singleton.
Qed.

Lemma doc_ok_put i c k (l0 l : list Ob) j :
  doc_ok j → response_at i c k l0 j → contents_ok c (wrap l) → doc_ok (put_objects i c k l j).
Proof.
  intros [H1 H2 H3 H4 H5] Hr Hc. split; simpl; try done.
  destruct (Forall2_lookup_r _ _ _ _ _ H1 Hr) as (k' & Hk' & [Hkey _]). simpl in Hkey. injection Hkey as ->.
  rewrite <-(list_insert_id _ _ _ Hk'). apply Forall2_insert; [done|]. split; [done|eauto].
Qed.
End kinds.

(** The objects [Ob] with [G c] are the contents of the classes [c] that [accept] names. *)
Class ClassOf (Ob : Type) `{ObjKind Ob} (accept : string → bool) (G : string → Ob → Prop) : Prop := {
  class_elim c k : accept c = true → contents_ok c k → ∃ l, k = wrap l ∧ l ≠ [] ∧ Forall (G c) l;
  class_intro c l : accept c = true → l ≠ [] → Forall (G c) l → contents_ok c (wrap l);
}.

Definition is_class (c x : string) : bool := bool_decide (x = c).

#[export] Instance text_class : ClassOf oph_json_obj_text (is_class OPH_JSON_TEXT) (λ _, text_ok).
Proof.
  split.
  - intros c k ->%bool_decide_eq_true Hk. destruct k; try (by destruct Hk). exists l. naive_solver.
  - intros c l ->%bool_decide_eq_true Hl Hg. done.
Qed.
#[export] Instance grid_class : ClassOf oph_json_obj_grid (is_class OPH_JSON_GRID) (λ _, grid_ok).
Proof.
  split.
  - intros c k ->%bool_decide_eq_true Hk. destruct k; try (by destruct Hk). exists l. naive_solver.
  - intros c l ->%bool_decide_eq_true Hl Hg. done.
Qed.
#[export] Instance multigrid_class : ClassOf oph_json_obj_multigrid (is_class OPH_JSON_MULTIGRID) (λ _, multigrid_ok).
Proof.
  split.
  - intros c k ->%bool_decide_eq_true Hk. destruct k; try (by destruct Hk). exists l. naive_solver.
  - intros c l ->%bool_decide_eq_true Hl Hg. done.
Qed.
#[export] Instance tree_class : ClassOf oph_json_obj_tree is_tree (λ _, tree_ok).
Proof.
  split.
  - intros c k ->%bool_decide_eq_true Hk. destruct k; try (by destruct Hk). exists l. naive_solver.
  - intros c l ->%bool_decide_eq_true Hl Hg. done.
Qed.
#[export] Instance graph_class : ClassOf oph_json_obj_graph is_graph (λ c, graph_ok (bool_decide (c = OPH_JSON_DGRAPH))).
Proof.
  split.
  - intros c k Hc Hk. destruct k; try (by destruct Hk as [-> _]). exists l. naive_solver.
  - intros c l Hc Hl Hg. done.
Qed.

Section classes.
Context `{HC : ClassOf Ob accept G} (E : Prop).

(** A response of the class, with its objects. *)
Lemma response_class j i r c k :
  doc_ok j → responseKeyset j !! i = Some k → response j !! i = Some r → objclass r = Some c → accept c = true →
  ∃ l : list Ob, response_at i c k l j ∧ l ≠ [] ∧ Forall (G c) l.
Proof.
  intros [H1 _ _ _ _] Hk Hr Hc Ha. destruct (Forall2_lookup_lr _ _ _ _ _ _ H1 Hk Hr) as [Hkey (c' & Hc' & Hok)].
  assert (c' = c) as -> by congruence. destruct (class_elim _ _ Ha Hok) as (l & Hl & Hne & HG).
  exists l. split_and!; [|done..]. unfold response_at. rewrite Hr. destruct r. simpl in *. by subst.
Qed.

Lemma triple_add_object c k title zero body (Q : oph_json → Prop) j :
  doc_ok j → accept c = true →
  (∀ i r c', responseKeyset j !! i = Some k → response j !! i = Some r → objclass r = Some c' → c' ≠ c → E) →
  (∀ i (l : list Ob), responseKeyset j !! i = Some k → response_at i c k l j → Forall (G c) l →
     {{ λ o, o = zero (Some title) }} body {{ λ o, Q (put_objects i c k (l ++ [o]) j) | E }}) →
  (k ∉ responseKeyset j → {{ λ o, o = zero (Some title) }} body {{ λ o : Ob, Q (appended c k o j) | E }}) →
  {{ λ x, x = j }} add_object c k (Some title) zero body {{ Q | E }}.
Proof.
  intros Hok Ha HE Hput Hnew s m -> Hm. unfold add_object. case_bool_decide as Hnil.
  { apply (triple_new_response E c k title zero body Q j); [|apply Hnew|done..];
      pose proof (do_responses j Hok) as Hrs; rewrite Hnil in Hrs; apply Forall2_nil_inv_r in Hrs; rewrite Hrs;
      by intros ?%elem_of_nil. }
  apply wp_bind. eapply wp_find_response; [by apply do_responses|..].
  - intros Hk. by apply (triple_new_response E c k title zero body Q j); [|apply Hnew|..].
  - intros i r c' Hk Hr Hc'. case_bool_decide as Heq.
    + subst. destruct (response_class j i r c k Hok Hk Hr Hc' Ha) as (l & Hl & _ & HG). simpl.
      apply (triple_on_content E i c k l _ Q j Hl); [|done..]. apply triple_push_object. by apply Hput.
    + apply wp_ret. split; [done|]. right. split; [done|]. by eapply HE.
Qed.

Lemma triple_on_last k absent f (Q : oph_json → Prop) j :
  doc_ok j → (response j = [] → E) → (k ∉ responseKeyset j → absent = OPH_JSON_SUCCESS ∧ Q j ∨ absent = OPH_JSON_BAD_PARAM_ERROR ∧ E) →
  (∀ i r c', responseKeyset j !! i = Some k → response j !! i = Some r → objclass r = Some c' → accept c' = false → E) →
  (∀ i c (l : list Ob) o, responseKeyset j !! i = Some k → accept c = true → response_at i c k (l ++ [o]) j → Forall (G c) (l ++ [o]) →
     {{ λ x, x = o }} f c {{ λ o', Q (put_objects i c k (l ++ [o']) j) | E }}) →
  {{ λ x, x = j }} on_last k accept absent f {{ Q | E }}.
Proof.
  intros Hok Hnil Habs HE Hf s m -> Hm. unfold on_last. case_bool_decide as Hn; [apply wp_ret; unfold post; naive_solver|].
  apply wp_bind. eapply wp_find_response; [by apply do_responses|..].
  - intros Hk. apply wp_ret. unfold post. naive_solver.
  - intros i r c Hk Hr Hc. destruct (accept c) eqn:Ha; [|apply wp_ret; split; [done|right]; split; [done|by eapply HE]].
    destruct (response_class j i r c k Hok Hk Hr Hc Ha) as (l & Hl & Hne & HG). simpl.
    apply wp_bind, (wp_deref _ _ _ _ Hr), wp_bind, (wp_deref _ _ _ _ Hc).
    destruct l as [|o l _] using rev_ind; [done|].
    apply (triple_on_content E i c k (l ++ [o]) _ Q j Hl); [|done..]. intros x m1 -> Hm1. rewrite last_snoc.
    apply wp_bind. eapply wp_mono; [by apply (Hf i c l o)|]. intros [rc o'] m2 (Hm2 & Hq). apply wp_ret.
    unfold set_last. rewrite length_app, Nat.add_sub, take_app_length. done.
Qed.

End classes.

(** Invariants: a body that makes a well-formed object, a step that keeps it so. *)
Section invariant.
Context `{HC : ClassOf Ob accept G}.

Lemma doc_add_object c k title zero body j :
  doc_ok j → accept c = true → {{ λ o, o = zero (Some title) }} body {{ G c | True }} →
  {{ λ x, x = j }} add_object c k (Some title) zero body {{ doc_ok | True }}.
Proof.
  intros Hok Ha Hb. apply triple_add_object; [done|done|done|..].
  - intros i l Hk Hl HG. eapply triple_conseq; [exact Hb|done|]. intros o Ho. eapply doc_ok_put; [done..|].
    apply class_intro; [done|by destruct l|]. by apply Forall_app; split; [|constructor].
  - intros Hk. eapply triple_conseq; [exact Hb|done|]. intros o Ho. apply doc_ok_appended; [done..|].
    by apply class_intro; [done| |constructor].
Qed.

Lemma doc_on_last k absent f j :
  doc_ok j → absent = OPH_JSON_SUCCESS ∨ absent = OPH_JSON_BAD_PARAM_ERROR →
  (∀ i c l o, responseKeyset j !! i = Some k → accept c = true → response_at i c k (l ++ [o]) j → G c o → {{ λ x, x = o }} f c {{ G c | True }}) →
  {{ λ x, x = j }} on_last k accept absent f {{ doc_ok | True }}.
Proof.
  intros Hok Habs Hf. apply triple_on_last; [done|done|naive_solver|done|].
  intros i c l o Hk Ha Hl HG. apply Forall_app in HG as [HGl [HGo _]%Forall_cons].
  eapply triple_conseq; [apply (Hf i c l o); done|done|]. intros o' Ho'. eapply doc_ok_put; [done..|].
  apply class_intro; [done|by destruct l|]. by apply Forall_app; split; [|constructor].
Qed.
End invariant.

(** ** Bodies *)

(** The grid with all its fields and no rows. *)
Definition new_grid (t : string) (d : cstr) (ks ts : list string) : oph_json_obj_grid := Grid (Some t) d ks ts [] (length ks).

Lemma triple_grid_body E t d keys types n n' ks ts :
  has_strings keys (Z.to_nat n) ks → has_strings types (Z.to_nat n') ts → 1 ≤ n → 1 ≤ n' →
  (¬ NoDup ks → E) → (¬ Forall (λ t, t ∈ json_types) ts → E) → (n ≠ n' → E) →
  {{ λ g, g = Grid (Some t) None [] [] [] 0 }} grid_body d keys n types n'
  {{ λ g, g = new_grid t d ks ts ∧ grid_ok g | E }}.
Proof.
  intros Hk Ht Hn Hn' HEk HEt HEn. unfold grid_body.
  apply (triple_seq E _ (λ g, g = Grid (Some t) d [] [] [] 0)).
  { destruct d; [apply triple_dup; by intros g ->|apply triple_ok]. }
  eapply triple_seq; [apply (triple_copy_keys E _ (λ ks g, g = Grid (Some t) d ks [] [] 0) _ _ ks _ Hk HEk); [done|by intros ks' k g ->]|].
  eapply triple_seq; [apply (triple_copy_types E _ (λ ts g, NoDup ks ∧ g = Grid (Some t) d ks ts [] 0) _ _ ts _ Ht HEt); [done|by intros ts' t' g [? ->]]|].
  intros g m (Hts & Hnd & ->) Hm. simpl. destruct Hk as [_ Hk], Ht as [_ Ht].
  rewrite Hk, Ht, !Z2Nat.id, !Z.eqb_refl by lia. destruct (Z.eqb_spec n n') as [->|Hne]; simpl.
  - apply wp_ret. split; [done|left]. split; [done|]. split; [unfold new_grid, set_grid_values_num2; simpl; by rewrite Hk|].
    split; simpl; [done|split; [done|]|split; [done|]|by rewrite Hk|constructor].
    + intros ->. simpl in Hk. lia.
    + by rewrite Hk, Ht.
  - apply wp_ret. split; [done|right]. split; [done|by apply HEn].
Qed.

Lemma triple_grid_row E values ws g :
  grid_ok g → has_strings values (length (grid_keys g)) ws →
  {{ λ x, x = g }} grid_row values {{ λ x, x = set_grid_values (grid_values g ++ [Some <$> ws]) g ∧ grid_ok x | E }}.
Proof.
  intros Hg Hv. unfold grid_row. eapply triple_seq; [apply triple_alloc|]. eapply triple_seq; [apply triple_alloc|].
  intros x m -> Hm. rewrite (go_num2 g Hg). apply (triple_fill_row E (λ x, x = g) _ _ _ ws _ Hv); [|done..].
  intros x ->. split; [done|]. destruct Hg as [H1 H2 H3 H4 H5]. split; simpl; try done.
  apply Forall_app. split; [done|]. constructor; [|constructor]. exists ws. split; [done|apply Hv].
Qed.

(** Nodes and links. *)
Lemma links_ok_node d lss : links_ok d lss → links_ok d (lss ++ [[]]).
Proof.
  intros (tss & Ht & H1 & H2). exists (tss ++ [[]]). split; [by apply Forall2_app; [|constructor]|].
  pose proof (Forall2_length _ _ _ Ht) as Hl. rewrite length_app. simpl. split.
  - intros i ts [Hi|[? Hi]]%lookup_app_Some; [destruct (H1 i ts Hi) as [? H]; split; [done|]; intros t Hin; destruct (H t Hin); lia|].
    apply list_lookup_singleton_Some in Hi as [? <-]. split; [constructor|by intros t ?%elem_of_nil].
  - intros Hd i k ts us [Hi|[? Hi]]%lookup_app_Some [Hk|[? Hk]]%lookup_app_Some;
      try (apply list_lookup_singleton_Some in Hi as [? <-]; by intros ?%elem_of_nil);
      try (apply list_lookup_singleton_Some in Hk as [? <-]; by intros ? ?%elem_of_nil).
    by eapply H2.
Qed.

Class LinkedLaws (Ob : Type) `{Linked Ob} : Prop := {
  nodevalues_set v (o : Ob) : nodevalues (set_nodevalues v o) = v;
  nodevalues_links l (o : Ob) : nodevalues (set_nodelinks l o) = nodevalues o;
  nodelinks_set l (o : Ob) : nodelinks (set_nodelinks l o) = l;
  nodelinks_values v (o : Ob) : nodelinks (set_nodevalues v o) = nodelinks o;
  num2_values v (o : Ob) : nodevalues_num2 (set_nodevalues v o) = nodevalues_num2 o;
  num2_links l (o : Ob) : nodevalues_num2 (set_nodelinks l o) = nodevalues_num2 o;
}.
#[export] Instance tree_linked_laws : LinkedLaws oph_json_obj_tree.
Proof. by split. Qed.
#[export] Instance graph_linked_laws : LinkedLaws oph_json_obj_graph.
Proof. by split. Qed.

Section nodes.
Context `{LinkedLaws Ob} (E : Prop).
Implicit Types o : Ob.

(** The object with a node more. *)
Definition with_node (values : option (list string)) o : Ob :=
  let o := match values with None => o | Some ws => set_nodevalues (nodevalues o ++ [Some <$> ws]) o end in
  set_nodelinks (nodelinks o ++ [[]]) o.

Definition node_values (ks : list string) (values : option (list cstr)) (ws : option (list string)) : Prop :=
  match values, ws with
  | None, None => True
  | Some l, Some ws => has_strings l (length ks) ws
  | _, _ => False
  end.

Lemma triple_add_node ks values ws o :
  nodes_ok ks o → node_values ks values ws → ((ws = None ↔ ks ≠ []) → E) →
  {{ λ x, x = o }} add_node values {{ λ x, x = with_node ws o ∧ nodes_ok ks x | E }}.
Proof.
  intros (Hnd & Hn2 & Hrows & Hlen) Hv HE. unfold add_node.
  assert (nodes_ok ks (with_node ws o) ∨ (ws = None ↔ ks ≠ [])) as Hok.
  { unfold with_node, nodes_ok. destruct ws as [ws|]; destruct (decide (ks = [])) as [Hks|Hks]; [right; naive_solver|left|left|right; naive_solver].
    - destruct values as [l|]; [|done]. rewrite num2_links, num2_values, nodevalues_links, nodevalues_set, nodelinks_set, nodelinks_values.
      split_and!; [done..| |rewrite !length_app; simpl; lia]. apply Forall_app. split; [done|]. constructor; [|constructor].
      exists ws. split; [done|apply Hv].
    - rewrite num2_links, nodevalues_links. done. }
  apply (triple_seq E _ (λ x, x = match ws with None => o | Some ws => set_nodevalues (nodevalues o ++ [Some <$> ws]) o end ∧ nodes_ok ks (with_node ws o))).
  - intros x m -> Hm. destruct values as [l|], ws as [ws|]; try done; rewrite Hn2; destruct (Nat.eqb_spec (length ks) 0) as [Hz|Hz].
    + apply wp_ret. split; [done|right]. split; [done|]. apply HE. destruct ks; [|done]. naive_solver.
    + destruct Hok as [Hok|Hbad]; [|destruct ks; naive_solver].
      refine (triple_seq E (λ x, x = o) (λ x, x = o) _ _ _ _ _ o m eq_refl Hm); [apply triple_alloc|].
      eapply triple_seq; [apply triple_alloc|]. intros x m1 -> Hm1. rewrite Hn2.
      apply (triple_fill_row E (λ x, x = o) _ _ _ ws _ Hv); [|done..]. by intros x ->.
    + destruct Hok as [Hok|Hbad]; [|destruct ks; naive_solver]. apply wp_ret. unfold post. naive_solver.
    + apply wp_ret. split; [done|right]. split; [done|]. apply HE. destruct ks; [done|]. naive_solver.
  - eapply triple_seq; [apply triple_alloc|]. apply triple_update. intros x [-> Hw]. split; [|]; by destruct ws.
Qed.

Lemma wp_linked_to o from to l ts (Q : bool → mem → Prop) m :
  nodelinks o !! Z.to_nat from = Some l → targets l ts → Q (bool_decide (to ∈ ts)) m → wp (linked_to o from to) Q m.
Proof.
  intros Hl Ht HQ. unfold linked_to. apply wp_bind, (wp_deref _ _ _ _ Hl). rewrite Ht, list_fmap_compose.
  apply wp_occurs. replace (bool_decide (print_int to ∈ print_int <$> ts)) with (bool_decide (to ∈ ts)); [done|].
  apply bool_decide_ext. rewrite list_elem_of_fmap. split; [intros ?; by exists to|].
  intros (t & Heq & Ht'). unfold print_int in Heq. apply (inj pretty) in Heq. by subst.
Qed.

Lemma triple_push_link from to d l o :
  nodelinks o !! Z.to_nat from = Some l →
  {{ λ x, x = o }} push_link from to d
  {{ λ x, x = set_nodelinks (<[Z.to_nat from := l ++ [Link (Some (print_int to)) d]]> (nodelinks o)) o | E }}.
Proof.
  intros Hl x m -> Hm. unfold push_link. apply wp_bind, (wp_deref _ _ _ _ Hl), wp_bind.
  eapply wp_mono; [refine (triple_seq False (λ x, x = None) (λ x, x = None) (λ k, k = Some (Link (Some (print_int to)) d)) _ _ _ _ None m eq_refl Hm)|].
  - apply triple_alloc.
  - apply (triple_seq False _ (λ k, k = Some (Link (Some (print_int to)) None))); [apply triple_dup; by intros k ->|].
    destruct d; [apply triple_dup; by intros k ->|apply triple_ok].
  - intros [rc k] m1 (Hm1 & [[Hrc Hk]|[_ []]]). simpl in *. subst. apply wp_ret. unfold post. naive_solver.
Qed.
End nodes.

(** The target lists of well-formed links, and a link more. *)
Lemma links_ok_link d lss tss (from to : nat) l ts desc :
  Forall2 targets lss tss →
  (∀ i ts, tss !! i = Some ts → NoDup ts ∧ ∀ t, t ∈ ts → 0 ≤ t < Z.of_nat (length lss) ∧ t ≠ Z.of_nat i) →
  (d = false → ∀ i k ts us, tss !! i = Some ts → tss !! k = Some us → Z.of_nat k ∈ ts → Z.of_nat i ∉ us) →
  lss !! from = Some l → tss !! from = Some ts → (to < length lss)%nat → to ≠ from → Z.of_nat to ∉ ts →
  (d = false → ∀ us, tss !! to = Some us → Z.of_nat from ∉ us) →
  links_ok d (<[from := l ++ [Link (Some (print_int (Z.of_nat to))) desc]]> lss).
Proof.
  intros Hts H1 H2 Hl Ht Hto Hne Hnot Hund. pose proof (Forall2_length _ _ _ Hts) as Hlen.
  exists (<[from := ts ++ [Z.of_nat to]]> tss). split; [|split].
  - apply Forall2_insert; [done|]. pose proof (Forall2_lookup_lr _ _ _ _ _ _ Hts Hl Ht) as Htg.
    unfold targets in *. by rewrite !fmap_app, Htg.
  - rewrite length_insert. intros i us [(<- & <- & _)|(Hi & Hus)]%list_lookup_insert_Some; [|by apply H1].
    destruct (H1 from ts Ht) as [Hnd Hb]. split.
    + apply NoDup_app. split_and!; [done| |apply NoDup_singleton]. by intros x Hx ->%list_elem_of_singleton.
    + intros t [Hin| ->%list_elem_of_singleton]%elem_of_app; [by apply Hb|lia].
  - intros Hd i k us vs Hi Hk Hin Hin'.
    apply list_lookup_insert_Some in Hi as [(<- & <- & _)|(Hi & Hus)], Hk as [(<- & <- & _)|(Hk & Hvs)].
    + apply elem_of_app in Hin as [Hin|Hin%list_elem_of_singleton]; [|lia]. destruct (H1 from ts Ht) as [_ Hb]. by destruct (Hb _ Hin).
    + apply elem_of_app in Hin as [Hin|Hin%list_elem_of_singleton]; [by eapply (H2 Hd from k)|].
      apply Nat2Z.inj in Hin as ->. by eapply Hund.
    + apply elem_of_app in Hin' as [Hin'|Hin'%list_elem_of_singleton]; [by eapply (H2 Hd i from)|].
      apply Nat2Z.inj in Hin' as ->. by eapply Hund.
    + by eapply (H2 Hd i k).
Qed.

(** A link between two nodes of a tree, or of a graph. *)
Lemma triple_link `{LinkedLaws Ob} d (f : op Ob) (o : Ob) (a b : Z) desc (G : Ob → Prop) :
  links_ok d (nodelinks o) → 0 ≤ a → 0 ≤ b →
  (∀ x m, f x m = (if negb (a =? b) && (a + 1 <=? Z.of_nat (length (nodelinks x))) && (b + 1 <=? Z.of_nat (length (nodelinks x))) then
     c ← (if d : bool then mret false else linked_to x b a);
     if c : bool then mret (OPH_JSON_BAD_PARAM_ERROR, x) else
     c ← linked_to x a b;
     if c : bool then mret (OPH_JSON_BAD_PARAM_ERROR, x) else push_link a b desc x
   else mret (OPH_JSON_BAD_PARAM_ERROR, x)) m) →
  (∀ lss, length lss = length (nodelinks o) → links_ok d lss → G (set_nodelinks lss o)) →
  {{ λ x, x = o }} f {{ G | True }}.
Proof.
  intros (tss & Hts & H1 & H2) Ha Hb Hf HG x m -> Hm. unfold wp. rewrite Hf. pose proof (Forall2_length _ _ _ Hts) as Hlen.
  match goal with |- match ?c m with _ => _ end => change (wp c (post G True) m) end.
  destruct (Z.eqb_spec a b) as [|Hne]; simpl; [apply wp_ret; by split; [|right]|].
  destruct (Z.leb_spec (a + 1) (Z.of_nat (length (nodelinks o)))) as [Hla|]; simpl; [|apply wp_ret; by split; [|right]].
  destruct (Z.leb_spec (b + 1) (Z.of_nat (length (nodelinks o)))) as [Hlb|]; simpl; [|apply wp_ret; by split; [|right]].
  destruct (lookup_lt_is_Some_2 (nodelinks o) (Z.to_nat a)) as [la Hla']; [lia|].
  destruct (lookup_lt_is_Some_2 (nodelinks o) (Z.to_nat b)) as [lb Hlb']; [lia|].
  destruct (Forall2_lookup_l _ _ _ _ _ Hts Hla') as (ta & Hta & Htga). destruct (Forall2_lookup_l _ _ _ _ _ Hts Hlb') as (tb & Htb & Htgb).
  apply wp_bind.
  assert (∀ Q m', (d = true → Q false m') → (d = false → Q (bool_decide (a ∈ tb)) m') → wp (if d then mret false else linked_to o b a) Q m') as Hd.
  { intros Q m' Ht Hfl. destruct d; [by apply wp_ret, Ht|]. by eapply wp_linked_to; [..|apply Hfl]. }
  assert ((d = false → a ∉ tb) → wp (c ← linked_to o a b; if c : bool then mret (OPH_JSON_BAD_PARAM_ERROR, o) else push_link a b desc o) (post G True) m) as Hrest.
  { intros Hab. apply wp_bind. eapply wp_linked_to; [done..|]. cbv beta.
    destruct (bool_decide (b ∈ ta)) eqn:Hin; [apply wp_ret; split; [done|by right]|apply bool_decide_eq_false in Hin].
    eapply wp_mono; [by apply (triple_push_link True a b desc la o Hla' o m)|]. intros [rc x] m1 (Hm1 & [[Hrc Hx]|[Hrc _]]); simpl in *; subst; (split; [done|]); [|by right].
    left. split; [done|]. simpl. apply HG; [by rewrite length_insert|]. rewrite <-(Z2Nat.id b) at 1 by done.
    eapply links_ok_link; try done; [lia|lia|by rewrite Z2Nat.id|]. intros Hdf us Hus. rewrite Z2Nat.id by done.
    assert (us = tb) as -> by congruence. by apply Hab. }
  apply Hd; intros Hdv; cbv beta iota; [apply Hrest; congruence|]. case_bool_decide as Hin; cbv iota; [apply wp_ret; by split; [|right]|]. by apply Hrest.
Qed.

(** The first [n] strings of an array parameter are there. *)
Definition strings (l : list cstr) (n : nat) : Prop := ∃ ws, has_strings l n ws.

Lemma links_ok_nil d : links_ok d [].
Proof. exists []. split_and!; [constructor|done|done]. Qed.

Lemma triple_tree_body t d nkeys n :
  (∀ l, nkeys = Some l → strings l n) →
  {{ λ x, x = Tree (Some t) None [] [] 0 None [] }} tree_body d nkeys n {{ tree_ok | True }}.
Proof.
  intros Hk. unfold tree_body. apply (triple_seq True _ (λ x, x = Tree (Some t) d [] [] 0 None [])).
  { destruct d; [apply triple_dup; by intros g ->|apply triple_ok]. }
  assert (∀ ks, NoDup ks → tree_ok (Tree (Some t) d ks [] (length ks) None [])) as Hok.
  { intros ks Hnd. split; [by eexists|split; [|apply links_ok_nil]]. split; [done|]. split; [done|]. split; [constructor|]. simpl. by case_decide. }
  destruct nkeys as [l|].
  - destruct (Hk l eq_refl) as [ks Hks].
    eapply triple_seq; [apply (triple_copy_keys True _ (λ ks x, x = Tree (Some t) d ks [] 0 None []) _ _ ks _ Hks); [done|done|by intros ks' k g ->]|].
    apply triple_update. intros x [Hnd ->]. destruct Hks as [_ <-]. by apply Hok.
  - intros x m -> Hm. apply wp_ret. split; [done|left; split; [done|]]. apply (Hok []). constructor.
Qed.

Lemma triple_graph_body directed t d nkeys n :
  (∀ l, nkeys = Some l → strings l n) →
  {{ λ x, x = Graph (Some t) None [] [] 0 [] }} graph_body d nkeys n {{ graph_ok directed | True }}.
Proof.
  intros Hk. unfold graph_body. apply (triple_seq True _ (λ x, x = Graph (Some t) d [] [] 0 [])).
  { destruct d; [apply triple_dup; by intros g ->|apply triple_ok]. }
  assert (∀ ks, NoDup ks → graph_ok directed (Graph (Some t) d ks [] (length ks) [])) as Hok.
  { intros ks Hnd. split; [by eexists|split; [|apply links_ok_nil]]. split; [done|]. split; [done|]. split; [constructor|]. simpl. by case_decide. }
  destruct nkeys as [l|].
  - destruct (Hk l eq_refl) as [ks Hks].
    eapply triple_seq; [apply (triple_copy_keys True _ (λ ks x, x = Graph (Some t) d ks [] 0 []) _ _ ks _ Hks); [done|done|by intros ks' k g ->]|].
    apply triple_update. intros x [Hnd ->]. destruct Hks as [_ <-]. by apply Hok.
  - intros x m -> Hm. apply wp_ret. split; [done|left; split; [done|]]. apply (Hok []). constructor.
Qed.

(** *** Multidimensional grids *)

Section multigrids.
Context (t : string) (d : cstr).

(** The grid after the keys and types. *)
Definition multi_heads (rks rts cks cts : list string) : oph_json_obj_multigrid :=
  Multigrid (Some t) d rks rts [] 0 0 cks cts [] 0 None None [] 0.
Definition multi_cols (rks rts cks cts : list string) (cv : list (option row)) : oph_json_obj_multigrid :=
  Multigrid (Some t) d rks rts [] 0 0 cks cts cv (length cks) None None [] 0.

Definition filled (ws : list string) : row := Some <$> ws.

Lemma triple_copy_colvalues (E : Prop) rks rts cks cts values (wss : list (list string)) :
  (∀ k ws, wss !! k = Some ws → ∃ r, values !! k = Some (Some r) ∧ has_strings r (length cks) ws) →
  {{ λ g, g = multi_heads rks rts cks cts }} copy_colvalues values (length wss) (length cks)
  {{ λ g, g = multi_cols rks rts cks cts (Some <$> (filled <$> wss)) | E }}.
Proof.
  intros Hv. unfold copy_colvalues. eapply triple_seq; [apply triple_alloc|].
  set (st k := multi_cols rks rts cks cts ((Some <$> (filled <$> take k wss)) ++ replicate (length wss - k) None)).
  apply (triple_seq E _ (λ g, g = st 0%nat)); [apply triple_update; intros g ->; unfold st; by rewrite take_0, Nat.sub_0_r|].
  eapply triple_conseq; [apply (triple_for E (λ k g, g = st k))|done|].
  - intros k Hk. eapply triple_seq; [apply triple_alloc|]. intros g m -> Hm. destruct (lookup_lt_is_Some_2 wss k Hk) as [ws Hws].
    destruct (Hv k ws Hws) as (r & Hr & Hrs). apply wp_bind, (wp_deref _ _ _ _ Hr), wp_bind, wp_ret.
    apply (triple_fill_row E (λ x, x = st k) _ _ _ ws _ Hrs); [|done..]. intros x ->. unfold st, multi_cols, set_colvalues. simpl. f_equal.
    rewrite insert_app_r_alt; rewrite !length_fmap, length_take_le by lia; [|lia].
    rewrite Nat.sub_diag, (take_S_r _ _ _ Hws), !fmap_app, <-app_assoc. replace (length wss - k)%nat with (S (length wss - S k)) by lia. done.
  - intros g ->. unfold st. by rewrite firstn_all, Nat.sub_diag, app_nil_r.
Qed.
End multigrids.

(** The grid with all its fields and no rows. *)
Definition new_multigrid (t : string) (d : cstr) (rks rts cks cts : list string) (wss : list (list string)) (mname mtype : string) :
    oph_json_obj_multigrid :=
  Multigrid (Some t) d rks rts [] 0 (length rks) cks cts (Some <$> (filled <$> wss)) (length cks) (Some mname) (Some mtype) [] (length wss).

Lemma new_multigrid_ok t d rks rts cks cts wss mname mtype :
  NoDup rks → NoDup cks → Forall (λ t, t ∈ json_types) rts → Forall (λ t, t ∈ json_types) cts → mtype ∈ json_types →
  Forall (λ ws, length ws = length cks) wss → multigrid_ok (new_multigrid t d rks rts cks cts wss mname mtype).
Proof.
  intros. split; simpl; rewrite ?length_fmap; eauto 10.
  rewrite !Forall_fmap. eapply Forall_impl; [done|]. intros ws Hws. eexists. split; [done|]. by exists ws.
Qed.

Lemma triple_multigrid_body (E : Prop) t d rkeys rn rtypes rtn ckeys cn ctypes ctn cvalues cvn mname mtype rks rts cks cts wss :
  has_strings rkeys rn rks → has_strings rtypes rtn rts → has_strings ckeys cn cks → has_strings ctypes ctn cts → length wss = cvn →
  (∀ k ws, wss !! k = Some ws → ∃ r, cvalues !! k = Some (Some r) ∧ has_strings r cn ws) →
  (¬ (NoDup rks ∧ NoDup cks ∧ Forall (λ t, t ∈ json_types) rts ∧ Forall (λ t, t ∈ json_types) cts ∧ mtype ∈ json_types) → E) →
  {{ λ x, x = Multigrid (Some t) None [] [] [] 0 0 [] [] [] 0 None None [] 0 }}
    multigrid_body d rkeys rn rtypes rtn ckeys cn ctypes ctn cvalues cvn (Some mname) (Some mtype)
  {{ λ g, g = new_multigrid t d rks rts cks cts wss mname mtype ∧ multigrid_ok g | E }}.
Proof.
  intros Hrks Hrts Hcks Hcts <- Hcv HE. unfold multigrid_body.
  apply (triple_seq E _ (λ g, g = multi_heads t d [] [] [] [])).
  { destruct d; [apply triple_dup; by intros g ->|apply triple_ok]. }
  eapply triple_seq; [apply (triple_copy_keys E _ (λ ks x, x = multi_heads t d ks [] [] []) _ _ rks _ Hrks); [naive_solver|done|by intros ks' k g ->]|].
  eapply triple_seq; [apply (triple_copy_types E _ (λ ts x, NoDup rks ∧ x = multi_heads t d rks ts [] []) _ _ rts _ Hrts); [naive_solver|done|by intros ks' k g [? ->]]|].
  eapply triple_seq; [apply (triple_copy_keys E _ (λ ks x, (Forall (λ t, t ∈ json_types) rts ∧ NoDup rks) ∧ x = multi_heads t d rks rts ks []) _ _ cks _ Hcks); [naive_solver|naive_solver|by intros ks' k g [? ->]]|].
  eapply triple_seq; [apply (triple_copy_types E _ (λ ts x, (NoDup cks ∧ Forall (λ t, t ∈ json_types) rts ∧ NoDup rks) ∧ x = multi_heads t d rks rts cks ts) _ _ cts _ Hcts); [naive_solver|naive_solver|by intros ks' k g [? ->]]|].
  pose proof (proj2 Hcks) as Hcn. subst cn.
  intros g m (Hts & (Hckn & Hrt & Hrkn) & ->) Hm.
  set (g1 := multi_cols t d rks rts cks cts (Some <$> (filled <$> wss))).
  refine (triple_seq E (λ g, g = multi_heads t d rks rts cks cts) (λ g, g = g1) _ _ _ (triple_copy_colvalues t d E rks rts cks cts cvalues wss Hcv) _ _ m eq_refl Hm).
  apply (triple_seq E _ (λ g, g = set_measurename (Some mname) g1)); [apply triple_dup; by intros g' ->|].
  apply (triple_seq E _ (λ g, mtype ∈ json_types ∧ g = set_measurename (Some mname) g1)).
  { intros g' m' Hg' Hm'. apply wp_bind, wp_ret. unfold oph_json_is_measuretype_correct, require. case_bool_decide; apply wp_ret; unfold post; naive_solver. }
  apply (triple_seq E _ (λ g, mtype ∈ json_types ∧ g = set_measuretype (Some mtype) (set_measurename (Some mname) g1))).
  { apply triple_dup. by intros g' (? & ->). }
  apply triple_update. intros g' (Hmt & ->). destruct Hrks as [_ <-]. split; [done|]. apply new_multigrid_ok; try done.
  apply Forall_lookup. intros k ws Hws. by destruct (Hcv k ws Hws) as (r & _ & _ & ?).
Qed.

(** The grid with a row more. *)
Definition with_multi_row (rws mws : list string) (g : oph_json_obj_multigrid) : oph_json_obj_multigrid :=
  set_rowvalues_num1 (S (rowvalues_num1 g)) (set_rowvalues (rowvalues g ++ [Some (filled rws)])
    (set_measurevalues (measurevalues g ++ [filled mws]) g)).

Lemma with_multi_row_ok rws mws g :
  multigrid_ok g → length rws = length (rowkeys g) → length mws = length (colvalues g) → multigrid_ok (with_multi_row rws mws g).
Proof.
  intros [H1 H2 H3 H4 H5 (H6 & H7 & H8) [H9 H10] H11 H12] Hr Hm. split; simpl; try done.
  - rewrite !length_app. simpl. lia.
  - apply Forall_app. split; [done|]. constructor; [|constructor]. by exists mws.
  - apply Forall_app. split; [done|]. constructor; [|constructor]. eexists. split; [done|]. by exists rws.
Qed.

Lemma triple_multigrid_row (E : Prop) rv mv rws mws g :
  multigrid_ok g → has_strings rv (length (rowkeys g)) rws → has_strings mv (length (colvalues g)) mws →
  {{ λ x, x = g }} multigrid_row rv mv {{ λ x, x = with_multi_row rws mws g ∧ multigrid_ok x | E }}.
Proof.
  intros Hg Hr Hmv. pose proof (with_multi_row_ok rws mws g Hg (proj2 Hr) (proj2 Hmv)) as Hok.
  destruct Hg as [H1 H2 H3 H4 H5 (H6 & H7 & H8) [H9 H10] H11 H12].
  set (index := length (measurevalues g)).
  set (g1 := set_rowvalues (rowvalues g ++ [None]) g).
  set (g2 := set_measurevalues (measurevalues g ++ [replicate (measurevalues_num2 g) None]) g1).
  set (g3 := set_rowvalues_num1 (S (rowvalues_num1 g)) (set_rowvalues (rowvalues g ++ [Some (replicate (rowvalues_num2 g) None)]) g2)).
  set (g4 := set_measurevalues (measurevalues g ++ [Some <$> mws]) g3).
  intros x m -> Hm. unfold multigrid_row. fold index.
  refine (triple_seq E (λ x, x = g) (λ x, x = g) _ _ _ (triple_alloc E _) _ g m eq_refl Hm).
  eapply triple_seq; [apply triple_alloc|].
  apply (triple_seq E _ (λ x, x = g1)).
  { apply triple_update. intros x ->. unfold g1, resize, index. f_equal. rewrite take_ge by lia. do 2 f_equal. replace (S (length (measurevalues g)) - length (rowvalues g))%nat with 1%nat by lia. done. }
  eapply triple_seq; [apply triple_alloc|].
  apply (triple_seq E _ (λ x, x = g2)); [apply triple_update; by intros x ->|].
  eapply triple_seq; [apply triple_alloc|].
  apply (triple_seq E _ (λ x, x = g3)).
  { apply triple_update. intros x ->. unfold g3. simpl. do 2 f_equal. unfold index. rewrite <-H9. by rewrite insert_app_r_alt, Nat.sub_diag. }
  apply (triple_seq E _ (λ x, x = g4)).
  { intros x m1 -> Hm1. apply (triple_fill_row E (λ x, x = g3) _ _ _ mws); [simpl; by rewrite H7| |done..].
    intros x ->. unfold g4, g3, set_measurevalues. simpl. f_equal. unfold index. by rewrite insert_app_r_alt, Nat.sub_diag. }
  intros x m1 -> Hm1. apply (triple_fill_row E (λ x, x = g4) _ _ _ rws); [simpl; by rewrite H6| |done..].
  intros x ->. unfold g4, g3, set_rowvalues, index. simpl. rewrite <-H9. rewrite insert_app_r_alt, Nat.sub_diag by done. split; [reflexivity|exact Hok].
Qed.

(** A choice for each number below [n], as a list. *)
Lemma list_of_nat {A} (P : nat → A → Prop) (n : nat) :
  (∀ k, (k < n)%nat → ∃ a, P k a) → ∃ l, length l = n ∧ ∀ k a, l !! k = Some a → P k a.
Proof.
  induction n as [|n IH]; intros Hn; [by exists []|]. destruct IH as (l & Hl & HP); [auto with lia|].
  destruct (Hn n) as [a Ha]; [lia|]. exists (l ++ [a]). rewrite length_app. simpl. split; [lia|].
  intros k b [Hk|[Hk Hb]]%lookup_app_Some; [auto|]. apply list_lookup_singleton_Some in Hb as [? <-].
  by replace k with n by lia.
Qed.

(** ** Sequences of calls *)

Inductive json_call : Type :=
| AddConsumer (consumer : cstr)
| SetSource (key name url description prod : cstr)
| AddSourceDetail (key value : cstr)
| AddExtraDetail (key value : cstr)
| AddText (key title message : cstr)
| AddGrid (key title description : cstr) (keys : option (list cstr)) (keys_num : Z) (types : option (list cstr)) (types_num : Z)
| AddGridRow (key : cstr) (values : option (list cstr))
| AddMultigrid (key title description : cstr) (rkeys : option (list cstr)) (rkeys_num : Z) (rtypes : option (list cstr)) (rtypes_num : Z)
    (ckeys : option (list cstr)) (ckeys_num : Z) (ctypes : option (list cstr)) (ctypes_num : Z)
    (cvalues : option (list (option (list cstr)))) (cvalues_num : Z) (mname mtype : cstr)
| AddMultigridRow (key : cstr) (rvalues mvalues : option (list cstr))
| AddTree (key title description : cstr) (nkeys : option (list cstr)) (nkeys_num : Z)
| AddTreeNode (key : cstr) (values : option (list cstr))
| SetTreeRoot (key : cstr) (root : Z)
| AddTreeLink (key : cstr) (sourcenode targetnode : Z) (description : cstr)
| AddGraph (key : cstr) (is_digraph : Z) (title description : cstr) (nkeys : option (list cstr)) (nkeys_num : Z)
| AddGraphNode (key : cstr) (values : option (list cstr))
| AddGraphLink (key : cstr) (node1 node2 : Z) (description : cstr).

Definition json_exec (c : json_call) : op oph_json :=
  match c with
  | AddConsumer c => _oph_json_add_consumer c
  | SetSource k n u d p => _oph_json_set_source k n u d p
  | AddSourceDetail k v => _oph_json_add_source_detail k v
  | AddExtraDetail k v => _oph_json_add_extra_detail k v
  | AddText k t m => _oph_json_add_text k t m
  | AddGrid k t d ks n ts n' => _oph_json_add_grid k t d ks n ts n'
  | AddGridRow k vs => _oph_json_add_grid_row k vs
  | AddMultigrid k t d rk rn rt rtn ck cn ct ctn cv cvn mn mt => _oph_json_add_multigrid k t d rk rn rt rtn ck cn ct ctn cv cvn mn mt
  | AddMultigridRow k rv mv => _oph_json_add_multigrid_row k rv mv
  | AddTree k t d ks n => _oph_json_add_tree k t d ks n
  | AddTreeNode k vs => _oph_json_add_tree_node k vs
  | SetTreeRoot k r => _oph_json_set_tree_root k r
  | AddTreeLink k a b d => _oph_json_add_tree_link k a b d
  | AddGraph k g t d ks n => _oph_json_add_graph k g t d ks n
  | AddGraphNode k vs => _oph_json_add_graph_node k vs
  | AddGraphLink k a b d => _oph_json_add_graph_link k a b d
  end.

(** The last object of the response with the key. *)
Definition last_object `{ObjKind Ob} (j : oph_json) (k : string) (o : Ob) : Prop :=
  ∃ i c l, response_at i c k (l ++ [o]) j.

Definition array_ok (a : option (list cstr)) (n : Z) : Prop := ∀ l, a = Some l → strings l (Z.to_nat n).

(** The arrays of a call hold as many strings as it says, or as the object has columns. *)
Definition call_ok (j : oph_json) (c : json_call) : Prop :=
  match c with
  | AddGrid _ _ _ ks n ts n' => array_ok ks n ∧ array_ok ts n'
  | AddGridRow k vs => ∀ key l (g : oph_json_obj_grid), k = Some key → vs = Some l → last_object j key g → strings l (length (grid_keys g))
  | AddMultigrid _ _ _ rk rn rt rtn ck cn ct ctn cv cvn _ _ =>
      array_ok rk rn ∧ array_ok rt rtn ∧ array_ok ck cn ∧ array_ok ct ctn ∧
      ∀ l, cv = Some l → ∀ k, (k < Z.to_nat cvn)%nat → ∃ r, l !! k = Some (Some r) ∧ strings r (Z.to_nat cn)
  | AddMultigridRow k rv mv => ∀ key (g : oph_json_obj_multigrid), k = Some key → last_object j key g →
      (∀ l, rv = Some l → strings l (length (rowkeys g))) ∧ (∀ l, mv = Some l → strings l (length (colvalues g)))
  | AddTree _ _ _ ks n => array_ok ks n
  | AddTreeNode k vs => ∀ key l (t : oph_json_obj_tree), k = Some key → vs = Some l → last_object j key t → strings l (length (tree_nodekeys t))
  | AddGraph _ _ _ _ ks n => array_ok ks n
  | AddGraphNode k vs => ∀ key l (t : oph_json_obj_graph), k = Some key → vs = Some l → last_object j key t → strings l (length (graph_nodekeys t))
  | _ => True
  end.

Lemma wp_bad {S} (Q : S → Prop) s m : steady m → wp (mret (OPH_JSON_BAD_PARAM_ERROR, s)) (post Q True) m.
Proof. intros Hm. apply wp_ret. by split; [|right]. Qed.

Lemma NoDup_snoc {A} (l : list A) x : NoDup l → x ∉ l → NoDup (l ++ [x]).
Proof. intros Hl Hx. apply NoDup_app. split_and!; [done| |apply NoDup_singleton]. by intros y Hy ->%list_elem_of_singleton. Qed.

(** *** Document *)

Lemma add_consumer_ok j v : doc_ok j → {{ λ x, x = j }} _oph_json_add_consumer v {{ doc_ok | True }}.
Proof.
  intros [H1 H2 H3 H4 H5] x m -> Hm. destruct v as [v|]; [|by apply wp_bad].
  apply (triple_add_string True (λ x, x = j) doc_ok); [|done..]. intros x -> Hv.
  split; simpl; try done. by apply NoDup_snoc.
Qed.

Lemma set_source_ok j k n u d p : doc_ok j → {{ λ x, x = j }} _oph_json_set_source k n u d p {{ doc_ok | True }}.
Proof.
  intros [H1 H2 H3 H4 H5] x m -> Hm. unfold _oph_json_set_source.
  destruct k as [k|]; [|by apply wp_bad]. destruct n as [n|]; [|by apply wp_bad]. simpl.
  destruct (source j) eqn:Hs; [by apply wp_bad|]. simpl. apply wp_bind, wp_malloc_steady; [done|]. intros m1 Hm1. simpl.
  apply wp_bind. eapply wp_mono.
  - refine (triple_seq False (λ s, s = Source None None None None None [] []) (λ s, s = Source (Some k) None None None None [] [])
      (λ s, is_Some (srckey s) ∧ is_Some (srcname s) ∧ details_ok (src_keys s) (src_values s)) _ _ _ _ _ m1 eq_refl Hm1).
    { apply triple_dup. by intros s ->. }
    eapply triple_seq; [|eapply triple_seq; [|eapply triple_seq]]; [|apply triple_dup_opt..].
    + apply triple_dup. intros s ->. simpl. split_and!; [by eexists..|split; [constructor|done]].
    + naive_solver.
    + naive_solver.
    + naive_solver.
  - intros [rc s] m2 (Hm2 & [[Hrc HQ]|[_ []]]). simpl in *. subst. apply wp_ret. split; [done|left; split; [done|]].
    split; simpl; try done. by intros s' [= <-].
Qed.

Lemma details_snoc k v ks vs : details_ok ks vs → k ∉ ks → details_ok (ks ++ [k]) (vs ++ [v]).
Proof. intros [H1 H2] Hk. split; [by apply NoDup_snoc|]. rewrite !length_app. simpl. lia. Qed.

Lemma add_source_detail_ok j k v : doc_ok j → {{ λ x, x = j }} _oph_json_add_source_detail k v {{ doc_ok | True }}.
Proof.
  intros [H1 H2 H3 H4 H5] x m -> Hm. unfold _oph_json_add_source_detail.
  destruct k as [k|]; [|by apply wp_bad]. destruct v as [v|]; [|by apply wp_bad]. destruct (source j) as [s|] eqn:Hs; [|by apply wp_bad].
  destruct (H4 s eq_refl) as (Hk & Hn & Hd). apply wp_bind. eapply wp_mono.
  - eapply (triple_add_detail True (λ x, x = s) (λ s, is_Some (srckey s) ∧ is_Some (srcname s) ∧ details_ok (src_keys s) (src_values s))); [|done..].
    intros x -> Hx. simpl. split_and!; [done..|by apply details_snoc].
  - intros [rc s'] m2 (Hm2 & [[Hrc HQ]|[Hrc _]]); simpl in *; subst; apply wp_ret; (split; [done|]); [left|by right].
    split; [done|]. split; simpl; try done. by intros s'' [= <-].
Qed.

Lemma add_extra_detail_ok j k v : doc_ok j → {{ λ x, x = j }} _oph_json_add_extra_detail k v {{ doc_ok | True }}.
Proof.
  intros [H1 H2 H3 H4 H5] x m -> Hm. unfold _oph_json_add_extra_detail.
  destruct k as [k|]; [|by apply wp_bad]. destruct v as [v|]; [|by apply wp_bad]. apply wp_bind.
  assert (∃ e, details_ok (extra_keys e) (extra_values e) ∧ ∀ Q : option oph_json_extra → mem → Prop, (∀ m', steady m' → Q (Some e) m') →
    wp match extra j with Some e => mret (Some e) | None => b ← malloc; mret (if b : bool then Some (Extra [] []) else None) end Q m) as (e & He & Hwp).
  { destruct (extra j) as [e|]; [exists e|exists (Extra [] [])]; (split; [auto; by repeat constructor|]); intros Q HQ; [by apply wp_ret, HQ|].
    apply wp_bind, wp_malloc_steady; [done|]. intros m' Hm'. by apply wp_ret, HQ. }
  apply Hwp. intros m1 Hm1. apply wp_bind. eapply wp_mono.
  - eapply (triple_add_detail True (λ x, x = e) (λ e, details_ok (extra_keys e) (extra_values e))); [|done..].
    intros x -> Hx. simpl. by apply details_snoc.
  - intros [rc s'] m2 (Hm2 & [[Hrc HQ]|[Hrc _]]); simpl in *; subst; apply wp_ret; (split; [done|]); [left|by right].
    split; [done|]. split; simpl; try done. by intros s'' [= <-].
Qed.

(** *** Objects *)

Lemma add_text_ok j k t msg : doc_ok j → {{ λ x, x = j }} _oph_json_add_text k t msg {{ doc_ok | True }}.
Proof.
  intros Hok x m -> Hm. unfold _oph_json_add_text. destruct k as [k|]; [|by apply wp_bad]. destruct t as [t|]; [|by apply wp_bad].
  apply (doc_add_object (accept := is_class OPH_JSON_TEXT) (G := λ _, text_ok) OPH_JSON_TEXT k t _ _ j Hok eq_refl); [|done..].
  eapply triple_pre; [apply triple_dup_opt|]; [done|]. intros s ->. by eexists.
Qed.

Lemma add_grid_ok j k t d ks n ts n' :
  doc_ok j → array_ok ks n → array_ok ts n' → {{ λ x, x = j }} _oph_json_add_grid k t d ks n ts n' {{ doc_ok | True }}.
Proof.
  intros Hok Hk Ht x m -> Hm. unfold _oph_json_add_grid. destruct k as [k|]; [|by apply wp_bad].
  destruct ks as [ks|]; [|by apply wp_bad]. destruct ts as [ts|]; [|by apply wp_bad]. destruct t as [t|]; [|by apply wp_bad]. simpl.
  destruct (Z.ltb_spec n 1); [by apply wp_bad|]. destruct (Z.ltb_spec n' 1); [by apply wp_bad|]. simpl.
  destruct (Hk ks eq_refl) as [kws Hkws], (Ht ts eq_refl) as [tws Htws].
  apply (doc_add_object (accept := is_class OPH_JSON_GRID) (G := λ _, grid_ok) OPH_JSON_GRID k t _ _ j Hok eq_refl); [|done..].
  eapply triple_conseq; [apply (triple_grid_body True t d ks ts n n' kws tws); done|done|]. naive_solver.
Qed.

Lemma last_object_intro `{ObjKind Ob} j i c k l (o : Ob) : response_at i c k (l ++ [o]) j → last_object j k o.
Proof. intros H'. by exists i, c, l. Qed.

Lemma add_grid_row_ok j k vs :
  doc_ok j → call_ok j (AddGridRow k vs) → {{ λ x, x = j }} _oph_json_add_grid_row k vs {{ doc_ok | True }}.
Proof.
  intros Hok Hc x m -> Hm. unfold _oph_json_add_grid_row. destruct k as [k|]; [|by apply wp_bad]. destruct vs as [vs|]; [|by apply wp_bad].
  apply (doc_on_last (accept := is_class OPH_JSON_GRID) (G := λ _, grid_ok) k _ _ j Hok); [by right| |done..].
  intros i c l g Hk Ha Hl Hg. destruct (Hc k vs g) as [ws Hws]; [done|done|by eapply last_object_intro|].
  eapply triple_conseq; [by apply (triple_grid_row True vs ws g)|done|]. naive_solver.
Qed.

Lemma add_multigrid_ok j k t d rk rn rt rtn ck cn ct ctn cv cvn mn mt :
  doc_ok j → call_ok j (AddMultigrid k t d rk rn rt rtn ck cn ct ctn cv cvn mn mt) →
  {{ λ x, x = j }} _oph_json_add_multigrid k t d rk rn rt rtn ck cn ct ctn cv cvn mn mt {{ doc_ok | True }}.
Proof.
  intros Hok (Hrk & Hrt & Hck & Hct & Hcv) x m -> Hm. unfold _oph_json_add_multigrid. destruct k as [k|]; [|by apply wp_bad].
  destruct rk as [rk|]; [|by apply wp_bad]. destruct rt as [rt|]; [|by apply wp_bad]. destruct ck as [ck|]; [|by apply wp_bad].
  destruct ct as [ct|]; [|by apply wp_bad]. destruct cv as [cv|]; [|by apply wp_bad].
  destruct (is_null t || _ || _ || _ || _ || _ || is_null mn || is_null mt) eqn:Hb; [by apply wp_bad|].
  destruct t as [t|], mn as [mn|], mt as [mt|]; try (by rewrite ?orb_true_r in Hb). 
  apply (doc_add_object (accept := is_class OPH_JSON_MULTIGRID) (G := λ _, multigrid_ok) OPH_JSON_MULTIGRID k t _ _ j Hok eq_refl); [|done..].
  destruct (Hrk rk eq_refl) as [rks ?], (Hrt rt eq_refl) as [rts ?], (Hck ck eq_refl) as [cks ?], (Hct ct eq_refl) as [cts ?].
  destruct (list_of_nat (λ k ws, ∃ r, cv !! k = Some (Some r) ∧ has_strings r (Z.to_nat cn) ws) (Z.to_nat cvn)) as (wss & Hl & Hw).
  { intros n Hn. destruct (Hcv cv eq_refl n Hn) as (r & Hr & ws & Hws). exists ws, r. done. }
  eapply triple_conseq; [by apply (triple_multigrid_body True t d rk _ rt _ ck _ ct _ cv _ mn mt rks rts cks cts wss)|done|naive_solver].
Qed.

Lemma add_multigrid_row_ok j k rv mv :
  doc_ok j → call_ok j (AddMultigridRow k rv mv) → {{ λ x, x = j }} _oph_json_add_multigrid_row k rv mv {{ doc_ok | True }}.
Proof.
  intros Hok Hc x m -> Hm. unfold _oph_json_add_multigrid_row. destruct k as [k|]; [|by apply wp_bad].
  destruct rv as [rv|]; [|by apply wp_bad]. destruct mv as [mv|]; [|by apply wp_bad].
  apply (doc_on_last (accept := is_class OPH_JSON_MULTIGRID) (G := λ _, multigrid_ok) k _ _ j Hok); [by right| |done..].
  intros i c l g Hk Ha Hl Hg. destruct (Hc k g) as [Hr Hmv]; [done|by eapply last_object_intro|].
  destruct (Hr rv eq_refl) as [rws ?], (Hmv mv eq_refl) as [mws ?].
  eapply triple_conseq; [by apply (triple_multigrid_row True rv mv rws mws g)|done|naive_solver].
Qed.

Lemma add_tree_ok j k t d ks n :
  doc_ok j → array_ok ks n → {{ λ x, x = j }} _oph_json_add_tree k t d ks n {{ doc_ok | True }}.
Proof.
  intros Hok Hk x m -> Hm. unfold _oph_json_add_tree. destruct k as [k|]; [|by apply wp_bad]. destruct t as [t|]; [|by apply wp_bad].
  simpl. destruct (n <? 0); [by apply wp_bad|].
  apply (doc_add_object (accept := is_tree) (G := λ _, tree_ok) OPH_JSON_TREE k t _ _ j Hok eq_refl); [|done..].
  by apply triple_tree_body.
Qed.

Lemma add_graph_ok j k g t d ks n :
  doc_ok j → array_ok ks n → {{ λ x, x = j }} _oph_json_add_graph k g t d ks n {{ doc_ok | True }}.
Proof.
  intros Hok Hk x m -> Hm. unfold _oph_json_add_graph. destruct k as [k|]; [|by apply wp_bad].
  destruct ((g <? 0) || (1 <? g) || is_null t || (n <? 0)) eqn:Hb; [by apply wp_bad|]. destruct t as [t|]; [|by rewrite !orb_true_r in Hb].
  apply (doc_add_object (accept := is_graph) (G := λ c, graph_ok (bool_decide (c = OPH_JSON_DGRAPH))) _ k t _ _ j Hok); [by destruct (g =? 0)| |done..].
  by apply triple_graph_body.
Qed.

(** A new node keeps the links well formed. *)
Lemma with_node_links `{LinkedLaws Ob} ws (o : Ob) : nodelinks (with_node ws o) = nodelinks o ++ [[]].
Proof. unfold with_node. by destruct ws; rewrite nodelinks_set, ?nodelinks_values. Qed.

Lemma add_tree_node_ok j k vs :
  doc_ok j → call_ok j (AddTreeNode k vs) → {{ λ x, x = j }} _oph_json_add_tree_node k vs {{ doc_ok | True }}.
Proof.
  intros Hok Hc x m -> Hm. unfold _oph_json_add_tree_node. destruct k as [k|]; [|by apply wp_bad].
  apply (doc_on_last (accept := is_tree) (G := λ _, tree_ok) k _ _ j Hok); [by right| |done..].
  intros i c l t Hk Ha Hl (Ht & Hn & Hlk).
  assert (∃ ws, node_values (tree_nodekeys t) vs ws) as [ws Hws].
  { destruct vs as [vs|]; [|by exists None]. destruct (Hc k vs t) as [ws Hws]; [done|done|by eapply last_object_intro|by exists (Some ws)]. }
  eapply triple_conseq; [by apply (triple_add_node True (tree_nodekeys t) vs ws t)|done|]. intros x [-> Hx].
  split_and!; [by destruct ws|by destruct ws|]. rewrite with_node_links. by apply links_ok_node.
Qed.

Lemma add_graph_node_ok j k vs :
  doc_ok j → call_ok j (AddGraphNode k vs) → {{ λ x, x = j }} _oph_json_add_graph_node k vs {{ doc_ok | True }}.
Proof.
  intros Hok Hc x m -> Hm. unfold _oph_json_add_graph_node. destruct k as [k|]; [|by apply wp_bad].
  apply (doc_on_last (accept := is_graph) (G := λ c, graph_ok (bool_decide (c = OPH_JSON_DGRAPH))) k _ _ j Hok); [by right| |done..].
  intros i c l t Hk Ha Hl (Ht & Hn & Hlk).
  assert (∃ ws, node_values (graph_nodekeys t) vs ws) as [ws Hws].
  { destruct vs as [vs|]; [|by exists None]. destruct (Hc k vs t) as [ws Hws]; [done|done|by eapply last_object_intro|by exists (Some ws)]. }
  eapply triple_conseq; [by apply (triple_add_node True (graph_nodekeys t) vs ws t)|done|]. intros x [-> Hx].
  split_and!; [by destruct ws|by destruct ws|]. rewrite with_node_links. by apply links_ok_node.
Qed.

Lemma set_tree_root_ok j k r : doc_ok j → {{ λ x, x = j }} _oph_json_set_tree_root k r {{ doc_ok | True }}.
Proof.
  intros Hok x m -> Hm. unfold _oph_json_set_tree_root. destruct k as [k|]; [|by apply wp_bad].
  destruct (r <? 0); [by apply wp_bad|].
  apply (doc_on_last (accept := is_tree) (G := λ _, tree_ok) k _ _ j Hok); [by right| |done..].
  intros i c l t Hk Ha Hl Ht. intros y m1 -> Hm1. destruct (rootnode t); simpl; [by apply wp_bad|].
  apply (triple_dup True (λ x, x = t) tree_ok); [|done..]. by intros z ->.
Qed.

Lemma add_tree_link_ok j k a b d : doc_ok j → {{ λ x, x = j }} _oph_json_add_tree_link k a b d {{ doc_ok | True }}.
Proof.
  intros Hok x m -> Hm. unfold _oph_json_add_tree_link. destruct k as [k|]; [|by apply wp_bad].
  destruct (Z.ltb_spec a 0); [by apply wp_bad|]. destruct (Z.ltb_spec b 0); [by apply wp_bad|].
  apply (doc_on_last (accept := is_tree) (G := λ _, tree_ok) k _ _ j Hok); [by right| |done..].
  intros i c l t Hk Ha Hl (Ht & (Hn1 & Hn2 & Hn3 & Hn4) & Hlk).
  apply (triple_link true _ t a b d tree_ok Hlk); [done..|]. intros lss Hlen Hlss. split_and!; [done| |done].
  split_and!; [done..|]. simpl in *. by rewrite Hlen.
Qed.

Lemma add_graph_link_ok j k a b d : doc_ok j → {{ λ x, x = j }} _oph_json_add_graph_link k a b d {{ doc_ok | True }}.
Proof.
  intros Hok x m -> Hm. unfold _oph_json_add_graph_link. destruct k as [k|]; [|by apply wp_bad].
  destruct (Z.ltb_spec a 0); [by apply wp_bad|]. destruct (Z.ltb_spec b 0); [by apply wp_bad|].
  apply (doc_on_last (accept := is_graph) (G := λ c, graph_ok (bool_decide (c = OPH_JSON_DGRAPH))) k _ _ j Hok); [by left| |done..].
  intros i c l t Hk Ha Hl (Ht & (Hn1 & Hn2 & Hn3 & Hn4) & Hlk).
  apply (triple_link _ _ t a b d _ Hlk); [done..|]. intros lss Hlen Hlss. split_and!; [done| |done].
  split_and!; [done..|]. simpl in *. by rewrite Hlen.
Qed.

(** A sequence of calls stops at the first error. *)
Fixpoint json_run (cs : list json_call) : op oph_json :=
  match cs with
  | [] => ok
  | c :: cs' => andthen (json_exec c) (json_run cs')
  end.

(** The calls are with well-formed arrays, whatever document the earlier ones made. *)
Fixpoint calls_ok (cs : list json_call) (j : oph_json) : Prop :=
  match cs with
  | [] => True
  | c :: cs' => call_ok j c ∧ ∀ j', json_exec c j [] = Ok (OPH_JSON_SUCCESS, j') [] → calls_ok cs' j'
  end.

Lemma json_exec_ok j c : doc_ok j → call_ok j c → {{ λ x, x = j }} json_exec c {{ doc_ok | True }}.
Proof.
  intros Hok Hc. destruct c; simpl in *.
  - by apply add_consumer_ok.
  - by apply set_source_ok.
  - by apply add_source_detail_ok.
  - by apply add_extra_detail_ok.
  - by apply add_text_ok.
  - by apply add_grid_ok; destruct Hc.
  - by apply add_grid_row_ok.
  - by apply add_multigrid_ok.
  - by apply add_multigrid_row_ok.
  - by apply add_tree_ok.
  - by apply add_tree_node_ok.
  - by apply set_tree_root_ok.
  - by apply add_tree_link_ok.
  - by apply add_graph_ok.
  - by apply add_graph_node_ok.
  - by apply add_graph_link_ok.
Qed.

Lemma empty_doc_ok : doc_ok (Json None [] [] [] None).
Proof. split; simpl; try done; constructor. Qed.

(** The first call that fails: the document before it and the one it leaves. *)
Definition fails_at (cs : list json_call) (j0 j j' : oph_json) : Prop :=
  ∃ cs1 c cs2, cs = cs1 ++ c :: cs2 ∧ json_run cs1 j0 [] = Ok (OPH_JSON_SUCCESS, j) [] ∧ json_exec c j [] = Ok (OPH_JSON_BAD_PARAM_ERROR, j') [].

Lemma json_run_ok cs j0 :
  doc_ok j0 → calls_ok cs j0 →
  wp (json_run cs j0) (λ r m', m' = [] ∧ (r.1 = OPH_JSON_SUCCESS ∧ doc_ok r.2 ∨ r.1 = OPH_JSON_BAD_PARAM_ERROR ∧ ∃ j, doc_ok j ∧ fails_at cs j0 j r.2)) [].
Proof.
  revert j0. induction cs as [|c cs IH]; intros j Hok Hcs; simpl; [apply wp_ret; split; [done|by left]|].
  destruct Hcs as [Hc Hcs]. unfold andthen. apply wp_bind.
  pose proof (json_exec_ok j c Hok Hc j [] eq_refl eq_refl) as Hwp. apply wp_run in Hwp as ([rc j'] & m2 & Hrun & -> & Hpost).
  unfold wp. rewrite Hrun. simpl in Hpost. destruct Hpost as [[-> Hj']|[-> _]]; simpl.
  - eapply wp_mono; [apply IH; [done|by apply Hcs]|]. intros [rc2 j2] m3 [-> [[E H]|(E & jm & Hjm & cs1 & c1 & cs2 & -> & Hr1 & Hx)]]; (split; [done|]); [by left|right].
    split; [done|]. exists jm. split; [done|]. exists (c :: cs1), c1, cs2. split; [done|]. split; [|done]. simpl. unfold andthen, mbind, C_bind. by rewrite Hrun.
  - split; [done|]. right. split; [done|]. exists j. split; [done|]. by exists [], c, cs.
Qed.

(** C33: Calls that build a response document, from a new one, given memory and arrays as long as the calls say,
    return without undefined behaviour. If all succeed the document is well formed: the key set lists the distinct
    keys of the responses, the objects of a response are of its class, every grid has as many known types as distinct
    keys and a cell per key in every row, every multigrid has distinct row and column keys, known types (whose number
    the code does not compare with the keys) and values of the width of the keys, and links join different nodes that
    exist, at most once. Otherwise the run stops at the first call that fails, with a parameter error, and the
    document before that call was well formed; what the failing call leaves is not described. *)
Theorem json_calls_well_typed (cs : list json_call) :
  let new := Json None [] [] [] None in
  calls_ok cs new →
  wp ('(rc, j) ← _oph_json_alloc; j ← deref j; json_run cs j)
    (λ r _, r.1 = OPH_JSON_SUCCESS ∧ doc_ok r.2 ∨ r.1 = OPH_JSON_BAD_PARAM_ERROR ∧ ∃ j, doc_ok j ∧ fails_at cs new j r.2) [].
Proof.
  intros new Hcs. unfold _oph_json_alloc. apply wp_bind, wp_bind, wp_malloc_steady; [done|]. intros m1 ->.
  apply wp_ret, wp_bind, wp_ret. eapply wp_mono; [apply json_run_ok; [apply empty_doc_ok|done]|]. by intros r m' [_ H].
Qed.

Definition sample_calls : list json_call :=
  [AddText (Some "status") (Some "OK") None;
   AddGrid (Some "list") (Some "Cubes") None (Some [Some "id"; Some "name"]) 2 (Some [Some "int"; Some "string"]) 2;
   AddGridRow (Some "list") (Some [Some "1"; Some "a"]);
   AddGraph (Some "io") 0 (Some "Flow") None None 0;
   AddGraphNode (Some "io") None; AddGraphNode (Some "io") None;
   AddGraphLink (Some "io") 0 1 None]%string.

Lemma strings_all (ws : list string) n : n = length ws → strings (Some <$> ws) n.
Proof. intros ->. exists ws. split; [|done]. by rewrite <-(length_fmap Some ws), firstn_all. Qed.

Lemma json_calls_well_typed_witness :
  wp ('(rc, j) ← _oph_json_alloc; j ← deref j; json_run sample_calls j)
    (λ r _, r.1 = OPH_JSON_SUCCESS ∧ doc_ok r.2 ∨ r.1 = OPH_JSON_BAD_PARAM_ERROR ∧ ∃ j, doc_ok j ∧ fails_at sample_calls (Json None [] [] [] None) j r.2) [].
Proof.
  apply json_calls_well_typed.
  split; [done|]. intros j1 H1. vm_compute in H1. injection H1 as <-.
  split.
  { split; intros l [= <-]; [by apply (strings_all ["id"; "name"]%string)|by apply (strings_all ["int"; "string"]%string)]. }
  intros j2 H2. vm_compute in H2. injection H2 as <-. split.
  { intros key l g [= <-] [= <-] ([|[|i]] & c & l' & Hl); try done. unfold response_at in Hl. simpl in Hl.
    injection Hl as Hc Hg. destruct l' as [|? [|]]; simplify_eq/=. by apply (strings_all ["1"; "a"]%string). }
  intros j3 H3. vm_compute in H3. injection H3 as <-. split; [intros l [=]|].
  intros j4 H4. vm_compute in H4. injection H4 as <-. split; [intros key l g _ [=]|].
  intros j5 H5. vm_compute in H5. injection H5 as <-. split; [intros key l g _ [=]|].
  intros j6 H6. vm_compute in H6. injection H6 as <-. by split.
Defined.

(** A key that is not in the document is not found. *)
Lemma find_absent j k accept :
  doc_ok j → k ∉ responseKeyset j → find_response (response j) 0 k accept [] = Ok Absent [].
Proof.
  intros Hok Hk. assert (wp (find_response (response j) 0 k accept) (λ r m, r = Absent ∧ m = []) []) as Hf.
  { eapply wp_find_response; [by apply do_responses|done|]. intros n r c Hn. exfalso. apply Hk. by eapply list_elem_of_lookup_2. }
  by apply wp_run in Hf as (r & m' & Hrun & -> & ->).
Qed.

(** adding a link to a graph whose key is not in the document reports success and
    does nothing, while adding it to a tree reports a bad parameter. *)
Theorem graph_link_unknown_key_succeeds (j : oph_json) (k : string) (n1 n2 : Z) (d : cstr) :
  doc_ok j → response j ≠ [] → k ∉ responseKeyset j → 0 ≤ n1 → 0 ≤ n2 →
  _oph_json_add_graph_link (Some k) n1 n2 d j [] = Ok (OPH_JSON_SUCCESS, j) [] ∧
  _oph_json_add_tree_link (Some k) n1 n2 d j [] = Ok (OPH_JSON_BAD_PARAM_ERROR, j) [].
Proof.
  intros Hok Hne Hk H1 H2. unfold _oph_json_add_graph_link, _oph_json_add_tree_link, on_last.
  rewrite (proj2 (Z.ltb_ge n1 0)), (proj2 (Z.ltb_ge n2 0)) by done. simpl. rewrite bool_decide_eq_false_2 by done.
  split; by rewrite (bind_run _ _ _ _ _ (find_absent j k _ Hok Hk)).
Qed.

Definition text_doc : oph_json :=
  Json None [] ["status"%string] [Response (Some OPH_JSON_TEXT) (Some "status"%string) (Texts [Text (Some "OK"%string) None])] None.

Lemma text_doc_ok : doc_ok text_doc.
Proof.
  split; simpl; try done; [|apply NoDup_singleton|constructor]. constructor; [|constructor]. split; [done|].
  exists OPH_JSON_TEXT. split; [done|]. split_and!; [done..|]. constructor; [by eexists|constructor].
Qed.

Lemma graph_link_unknown_key_succeeds_witness :
  _oph_json_add_graph_link (Some "io"%string) 0 1 None text_doc [] = Ok (OPH_JSON_SUCCESS, text_doc) [].
Proof.
  apply (graph_link_unknown_key_succeeds text_doc "io" 0 1 None); [apply text_doc_ok|done| |lia|lia].
  by intros [=]%list_elem_of_singleton.
Defined.
End JsonDoc.
