(* ===== verification/JsonText.v ===== *)
(** * JSON texts of the responses

    [src/oph_json/oph_json_common.c]: [_oph_json_to_json_string] prints a document,
    [_oph_json_from_json_string] reads a text back with the builders of [JsonDoc].

    Both go through the library jansson.  A value of the library is a tree ([json_t]); the
    functions of the library that build and take apart trees are modelled by their
    documentation, the conversion between trees and texts and the test for UTF-8 are
    the class [Jansson], with the round trip the library documents as [JanssonLaws].
    A container that the code attaches to its parent before it fills it is attached
    empty and replaced once it is filled. *)

From stdpp Require Import base gmap strings numbers pretty list.
From S2P Require Import Prelude CString JsonDoc.

Module JsonText.
Import JsonDoc.
Open Scope Z_scope.

(** ** The JSON library *)

(** A scalar that is not a string (a number, true, false, null) is its text. *)
Inductive json_t : Type :=
| JObject (fields : list (string * json_t))
| JArray (elements : list json_t)
| JString (s : string)
| JScalar (text : string).

Class Jansson : Type := {
  utf8 : string → bool;
  json_dumps : json_t → string;
  json_loads : string → option json_t;
}.

(** A tree whose strings are UTF-8 and whose objects have each key once. *)
Fixpoint json_valid `{Jansson} (v : json_t) : bool :=
  match v with
  | JObject fs => bool_decide (NoDup fs.*1) && forallb (λ f, utf8 f.1 && json_valid f.2) fs
  | JArray l => forallb json_valid l
  | JString s => utf8 s
  | JScalar _ => true
  end.

(** The library reads what it prints; objects keep the order of insertion. *)
Class JanssonLaws `{Jansson} : Prop :=
  loads_dumps fs : json_valid (JObject fs) = true → json_loads (json_dumps (JObject fs)) = Some (JObject fs).

Definition OPH_JSON_GENERIC_ERROR : Z := 4.

(** Computations that return a code other than success, or go on with a value. *)
Notation W A := (C (Z + A)%type).
Definition wret {A} (a : A) : W A := mret (M := C) (inr a).
Definition wfail {A} (rc : Z) : W A := mret (M := C) (inl rc).
Definition wbind {A B} (c : W A) (f : A → W B) : W B := λ m,
  match c m with
  | Ok (inl rc) m => Ok (inl rc) m
  | Ok (inr a) m => f a m
  | UB => UB
  | OutOfFuel => OutOfFuel
  end.
Declare Scope json_text_scope.
#[local] Open Scope json_text_scope.
Notation "'let!' x ':=' c 'in' k" := (wbind c (λ x, k)) (at level 200, x pattern, c at level 200, k at level 200) : json_text_scope.

Fixpoint wfold {S X} (f : S → X → W S) (s : S) (l : list X) : W S :=
  match l with
  | [] => wret s
  | x :: l' => let! s := f s x in wfold f s l'
  end.

(** [deref] of a value that has to exist. *)
Definition wderef {A} (o : option A) : W A := a ← deref o; mret (inr a).

Definition fields : Type := list (string * json_t).

(** Replace the value of a key, or add it at the end. *)
Fixpoint set_member (key : string) (v : json_t) (fs : fields) : fields :=
  match fs with
  | [] => [(key, v)]
  | (k, w) :: fs' => if bool_decide (k = key) then (key, v) :: fs' else (k, w) :: set_member key v fs'
  end.

Fixpoint member (key : string) (fs : fields) : option json_t :=
  match fs with
  | [] => None
  | (k, v) :: fs' => if bool_decide (k = key) then Some v else member key fs'
  end.

Definition json_array_size (v : option json_t) : nat :=
  match v with Some (JArray l) => length l | _ => 0%nat end.

(** The elements that [json_array_get] delivers below [json_array_size]. *)
Definition elements (v : json_t) : list json_t := match v with JArray l => l | _ => [] end.

(** *** [json_unpack]

    An object format ["{s?s,s?o}"]: the keys in their order; a missing key is skipped, a
    value of another type ends the call.  The result is what each target is set to. *)
Inductive format : Type := FString | FValue.

Fixpoint unpack_members (fs : fields) (fmt : list (format * string)) : list (option json_t) :=
  match fmt with
  | [] => []
  | (f, key) :: fmt' =>
      match f, member key fs with
      | _, None => None :: unpack_members fs fmt'
      | FValue, Some v => Some v :: unpack_members fs fmt'
      | FString, Some (JString s) => Some (JString s) :: unpack_members fs fmt'
      | FString, Some _ => replicate (length fmt) None
      end
  end.

Definition json_unpack (v : json_t) (fmt : list (format * string)) : list (option json_t) :=
  match v with
  | JObject fs => unpack_members fs fmt
  | _ => replicate (length fmt) None
  end.

(** The target of position [i], null before the call. *)
Definition target (us : list (option json_t)) (i : nat) : option json_t := us !! i ≫= id.
Definition target_string (us : list (option json_t)) (i : nat) : cstr :=
  match target us i with Some (JString s) => Some s | _ => None end.

(** [json_unpack(v, "s", &s)]: the target keeps its value unless [v] is a string. *)
Definition unpack_string (v : option json_t) (s : cstr) : cstr :=
  match v with Some (JString t) => Some t | _ => s end.

Section jansson.
Context `{Jansson}.

(** *** Building trees *)

(** [json_object()] and [json_array()] *)
Definition json_new : W unit :=
  b ← malloc; mret (if b : bool then inr () else inl OPH_JSON_MEMORY_ERROR).

Definition json_string (s : cstr) : C (option json_t) :=
  match s with
  | Some s => if utf8 s then b ← malloc; mret (if b : bool then Some (JString s) else None) else mret None
  | None => mret None
  end.

(** A result other than zero is a memory error in this code. *)
Definition json_object_set_new (fs : fields) (key : string) (v : option json_t) : W fields :=
  match v with
  | Some v =>
      if utf8 key then b ← malloc; mret (if b : bool then inr (set_member key v fs) else inl OPH_JSON_MEMORY_ERROR)
      else wfail OPH_JSON_MEMORY_ERROR
  | None => wfail OPH_JSON_MEMORY_ERROR
  end.

Definition json_array_append_new (l : list json_t) (v : option json_t) : W (list json_t) :=
  match v with
  | Some v => b ← malloc; mret (if b : bool then inr (l ++ [v]) else inl OPH_JSON_MEMORY_ERROR)
  | None => wfail OPH_JSON_MEMORY_ERROR
  end.

(** [json_object_set_new(fs, key, json_string(v))] and the same for an array. *)
Definition set_string (fs : fields) (key : string) (v : cstr) : W fields := s ← json_string v; json_object_set_new fs key s.
Definition append_string (l : list json_t) (v : cstr) : W (list json_t) := s ← json_string v; json_array_append_new l s.

(** A field that has to be there, and one that may be null. *)
Definition set_required (fs : fields) (key : string) (v : cstr) : W fields :=
  if is_null v then wfail OPH_JSON_BAD_PARAM_ERROR else set_string fs key v.
Definition set_optional (fs : fields) (key : string) (v : cstr) : W fields :=
  if is_null v then wret fs else set_string fs key v.

(** A new container, attached to its parent, then filled. *)
Definition with_object (fs : fields) (key : string) (fill : fields → W fields) : W fields :=
  let! _ := json_new in
  let! fs := json_object_set_new fs key (Some (JObject [])) in
  let! o := fill [] in
  wret (set_member key (JObject o) fs).
Definition with_array (fs : fields) (key : string) (fill : list json_t → W (list json_t)) : W fields :=
  let! _ := json_new in
  let! fs := json_object_set_new fs key (Some (JArray [])) in
  let! l := fill [] in
  wret (set_member key (JArray l) fs).
Definition with_arrays (fs : fields) (key1 key2 : string)
    (fill : list json_t * list json_t → W (list json_t * list json_t)) : W fields :=
  let! _ := json_new in
  let! fs := json_object_set_new fs key1 (Some (JArray [])) in
  let! _ := json_new in
  let! fs := json_object_set_new fs key2 (Some (JArray [])) in
  let! ls := fill ([], []) in
  wret (set_member key2 (JArray ls.2) (set_member key1 (JArray ls.1) fs)).
Definition append_object (l : list json_t) (fill : fields → W fields) : W (list json_t) :=
  let! _ := json_new in
  let! l := json_array_append_new l (Some (JObject [])) in
  let! o := fill [] in
  wret (set_last l (JObject o)).
Definition append_array (l : list json_t) (fill : list json_t → W (list json_t)) : W (list json_t) :=
  let! _ := json_new in
  let! l := json_array_append_new l (Some (JArray [])) in
  let! o := fill [] in
  wret (set_last l (JArray o)).

(** ** Printing *)

(** Two arrays of the same length, filled in turn. *)
Definition print_pairs (fs : fields) (key1 key2 : string) (l1 l2 : list string) : W fields :=
  with_arrays fs key1 key2 (λ ls, wfold (λ ls i,
    k ← deref (l1 !! i); let! ks := append_string ls.1 (Some k) in
    v ← deref (l2 !! i); let! vs := append_string ls.2 (Some v) in
    wret (ks, vs)) ls (seq 0 (length l1))).

Definition print_details (fs : fields) (keys values : list string) : W fields :=
  if negb (length keys =? length values)%nat then wfail OPH_JSON_BAD_PARAM_ERROR
  else if (length keys =? 0)%nat then wret fs
  else print_pairs fs "keys" "values" keys values.

Definition print_source (fs : fields) (s : option oph_json_source) : W fields :=
  match s with
  | None => wret fs
  | Some s => with_object fs "source" (λ o,
      let! o := set_required o "srckey" (srckey s) in
      let! o := set_required o "srcname" (srcname s) in
      let! o := set_optional o "srcurl" (srcurl s) in
      let! o := set_optional o "description" (src_description s) in
      let! o := set_optional o "producer" (producer s) in
      print_details o (src_keys s) (src_values s))
  end.

Definition print_extra (fs : fields) (e : option oph_json_extra) : W fields :=
  match e with
  | None => wret fs
  | Some e => with_object fs "extra" (λ o, print_details o (extra_keys e) (extra_values e))
  end.

Definition print_strings (l : list json_t) (ws : list string) : W (list json_t) :=
  wfold (λ l w, append_string l (Some w)) l ws.

Definition print_consumers (fs : fields) (cs : list string) : W fields :=
  if (length cs =? 0)%nat then wret fs else with_array fs "consumers" (λ l, print_strings l cs).

Definition print_responseKeyset (fs : fields) (ks : list string) : W fields :=
  if (length ks =? 0)%nat then wret fs else with_array fs "responseKeyset" (λ l, print_strings l ks).

Definition print_text (l : list json_t) (t : oph_json_obj_text) : W (list json_t) :=
  append_object l (λ o,
    let! o := set_required o "title" (text_title t) in
    set_optional o "message" (text_message t)).

(** Keys and their types: the numbers have to agree. *)
Definition print_columns (fs : fields) (key1 key2 : string) (keys types : list string) : W fields :=
  if negb (length keys =? length types)%nat then wfail OPH_JSON_BAD_PARAM_ERROR
  else print_pairs fs key1 key2 keys types.

(** The cells [values[k][0 .. num2 - 1]] of the rows [0 .. num1 - 1]. *)
Definition print_row (l : list json_t) (r : row) (num2 : nat) : W (list json_t) :=
  append_array l (λ l, wfold (λ l q, c ← deref (r !! q); append_string l c) l (seq 0 num2)).
Definition print_rows (fs : fields) (key : string) (rows : list (option row)) (num1 num2 : nat) : W fields :=
  with_array fs key (λ l, wfold (λ l k,
    r ← deref (rows !! k); let! r := wderef r in print_row l r num2) l (seq 0 num1)).

Definition print_grid (l : list json_t) (g : oph_json_obj_grid) : W (list json_t) :=
  append_object l (λ o,
    let! o := set_required o "title" (grid_title g) in
    let! o := set_optional o "description" (grid_description g) in
    let! o := print_columns o "rowkeys" "rowfieldtypes" (grid_keys g) (grid_fieldtypes g) in
    if negb (grid_values_num2 g =? length (grid_keys g))%nat then wfail OPH_JSON_BAD_PARAM_ERROR
    else print_rows o "rowvalues" (Some <$> grid_values g) (length (grid_values g)) (grid_values_num2 g)).

Definition print_multi_rows (o : fields) (g : oph_json_obj_multigrid) : W fields :=
  let! o := print_columns o "rowkeys" "rowfieldtypes" (rowkeys g) (rowfieldtypes g) in
  if negb (rowvalues_num2 g =? length (rowkeys g))%nat then wfail OPH_JSON_BAD_PARAM_ERROR
  else print_rows o "rowvalues" (rowvalues g) (rowvalues_num1 g) (rowvalues_num2 g).

Definition print_multi_cols (o : fields) (g : oph_json_obj_multigrid) : W fields :=
  let! o := print_columns o "colkeys" "colfieldtypes" (colkeys g) (colfieldtypes g) in
  if negb (colvalues_num2 g =? length (colkeys g))%nat then wfail OPH_JSON_BAD_PARAM_ERROR
  else print_rows o "colvalues" (colvalues g) (length (colvalues g)) (colvalues_num2 g).

Definition print_multi_measures (o : fields) (g : oph_json_obj_multigrid) : W fields :=
  if negb (measurevalues_num2 g =? length (colvalues g))%nat then wfail OPH_JSON_BAD_PARAM_ERROR
  else if negb (length (measurevalues g) =? rowvalues_num1 g)%nat then wfail OPH_JSON_BAD_PARAM_ERROR
  else print_rows o "measurevalues" (Some <$> measurevalues g) (length (measurevalues g)) (measurevalues_num2 g).

Definition print_multigrid (l : list json_t) (g : oph_json_obj_multigrid) : W (list json_t) :=
  append_object l (λ o,
    let! o := set_required o "title" (multi_title g) in
    let! o := set_optional o "description" (multi_description g) in
    let! o := set_required o "measurename" (measurename g) in
    let! o := set_required o "measuretype" (measuretype g) in
    let! o := print_multi_rows o g in
    let! o := print_multi_cols o g in
    print_multi_measures o g).

(** The keys of the nodes, if there are any, with the values. *)
Definition print_nodes `{Linked Ob} (o : fields) (keys : list string) (x : Ob) : W fields :=
  if (length keys =? 0)%nat then wret o
  else if negb (nodevalues_num2 x =? length keys)%nat then wfail OPH_JSON_BAD_PARAM_ERROR
  else
    let! o := with_array o "nodekeys" (λ l, print_strings l keys) in
    print_rows o "nodevalues" (Some <$> nodevalues x) (length (nodevalues x)) (nodevalues_num2 x).

Definition print_link (l : list json_t) (k : oph_json_link) : W (list json_t) :=
  append_object l (λ o,
    let! o := set_required o "node" (node k) in
    set_optional o "description" (link_description k)).

Definition print_links `{Linked Ob} (o : fields) (x : Ob) : W fields :=
  if negb (length (nodevalues x) =? 0)%nat && negb (length (nodevalues x) =? length (nodelinks x))%nat
  then wfail OPH_JSON_BAD_PARAM_ERROR
  else with_array o "nodelinks" (λ l, wfold (λ l ks, append_array l (λ l, wfold print_link l ks)) l (nodelinks x)).

Definition print_tree (l : list json_t) (t : oph_json_obj_tree) : W (list json_t) :=
  append_object l (λ o,
    let! o := set_required o "title" (tree_title t) in
    let! o := set_optional o "description" (tree_description t) in
    let! o := set_required o "rootnode" (rootnode t) in
    let! o := print_nodes o (tree_nodekeys t) t in
    print_links o t).

Definition print_graph (l : list json_t) (g : oph_json_obj_graph) : W (list json_t) :=
  append_object l (λ o,
    let! o := set_required o "title" (graph_title g) in
    let! o := set_optional o "description" (graph_description g) in
    let! o := print_nodes o (graph_nodekeys g) g in
    print_links o g).

Definition objcontent_num (c : objcontents) : nat :=
  match c with
  | Texts l => length l | Grids l => length l | Multigrids l => length l | Trees l => length l | Graphs l => length l
  end.

(** The objects of a class; the cast of [objcontent] to another type is undefined. *)
Definition print_objects `{ObjKind Ob} (print : list json_t → Ob → W (list json_t)) (c : objcontents) (l : list json_t) :
    W (list json_t) :=
  os ← deref (unwrap c); wfold print l os.

Definition print_content (class : string) (c : objcontents) (l : list json_t) : W (list json_t) :=
  if bool_decide (class = OPH_JSON_TEXT) then print_objects print_text c l
  else if bool_decide (class = OPH_JSON_GRID) then print_objects print_grid c l
  else if bool_decide (class = OPH_JSON_MULTIGRID) then print_objects print_multigrid c l
  else if bool_decide (class = OPH_JSON_TREE) then print_objects print_tree c l
  else if bool_decide (class = OPH_JSON_DGRAPH) || bool_decide (class = OPH_JSON_GRAPH) then print_objects print_graph c l
  else wfail OPH_JSON_BAD_PARAM_ERROR.

Definition print_response (l : list json_t) (r : oph_json_response) : W (list json_t) :=
  append_object l (λ o,
    let! o := set_required o "objclass" (objclass r) in
    let! o := set_required o "objkey" (objkey r) in
    if (objcontent_num (objcontent r) =? 0)%nat then wfail OPH_JSON_BAD_PARAM_ERROR
    else with_array o "objcontent" (λ l, class ← deref (objclass r); print_content class (objcontent r) l)).

Definition print_responses (fs : fields) (rs : list oph_json_response) : W fields :=
  if (length rs =? 0)%nat then wret fs else with_array fs "response" (λ l, wfold print_response l rs).

(** The code and [*jstring]. *)
Definition _oph_json_to_json_string (json : option oph_json) : C (Z * cstr) :=
  match json with
  | None => mret (OPH_JSON_BAD_PARAM_ERROR, None)
  | Some j =>
      r ← (let! _ := json_new in
           let! fs := print_source [] (source j) in
           let! fs := print_extra fs (extra j) in
           let! fs := print_consumers fs (consumers j) in
           let! fs := print_responseKeyset fs (responseKeyset j) in
           print_responses fs (response j));
      match r with
      | inl rc => mret (rc, None)
      | inr fs =>
          b ← malloc;
          mret (if b : bool then (OPH_JSON_SUCCESS, Some (json_dumps (JObject fs))) else (OPH_JSON_MEMORY_ERROR, None))
      end
  end.
End jansson.

(** ** Reading *)

(** The builders: any error is a generic one. *)
Definition generic {S} (f : op S) : op S := λ s,
  '(rc, s) ← f s; mret (if rc =? OPH_JSON_SUCCESS then OPH_JSON_SUCCESS else OPH_JSON_GENERIC_ERROR, s).

(** Go on with the value of a computation. *)
Definition with_value {S A} (c : W A) (f : A → op S) : op S := λ s,
  r ← c; match r with inl rc => mret (rc, s) | inr a => f a s end.

(** An array of strings: allocated with null cells, each filled unless the element is not
    a string, which is an error. *)
Definition strings_of (l : list json_t) : option (list cstr) :=
  mapM (λ v, match v with JString s => Some (Some s) | _ => None end) l.
Definition fill_strings (l : list json_t) : W (list cstr) :=
  match strings_of l with Some ws => wret ws | None => wfail OPH_JSON_GENERIC_ERROR end.
Definition read_strings (v : json_t) : W (list cstr) :=
  let! _ := json_new in fill_strings (elements v).

(** The loop over [keys], whose variables keep their value from round to round. *)
Fixpoint read_pairs (add : cstr → cstr → op oph_json) (ks vs : list json_t) (key value : cstr) : op oph_json :=
  match ks with
  | [] => ok
  | k :: ks' =>
      let key := unpack_string (Some k) key in
      let value := unpack_string (head vs) value in
      andthen (generic (add key value)) (read_pairs add ks' (tail vs) key value)
  end.

Definition read_details (v : json_t) (add : cstr → cstr → op oph_json) : op oph_json :=
  let us := json_unpack v [(FValue, "keys"); (FValue, "values")]%string in
  match target us 0, target us 1 with
  | Some keys, Some values => read_pairs add (elements keys) (elements values) None None
  | None, None => ok
  | _, _ => fail OPH_JSON_GENERIC_ERROR
  end.

(** The value of an optional key of the document. *)
Definition section (root : json_t) (key : string) : option json_t := target (json_unpack root [(FValue, key)]) 0.

Definition read_source (root : json_t) : op oph_json :=
  match section root "source" with
  | None => ok
  | Some v =>
      let us := json_unpack v [(FString, "srckey"); (FString, "srcname"); (FString, "srcurl"); (FString, "description");
                               (FString, "producer")]%string in
      andthen (generic (_oph_json_set_source (target_string us 0) (target_string us 1) (target_string us 2)
                 (target_string us 3) (target_string us 4)))
              (read_details v _oph_json_add_source_detail)
  end.

Definition read_extra (root : json_t) : op oph_json :=
  match section root "extra" with
  | None => ok
  | Some v => read_details v _oph_json_add_extra_detail
  end.

Fixpoint read_consumer (l : list json_t) (consumer : cstr) : op oph_json :=
  match l with
  | [] => ok
  | v :: l' =>
      let consumer := unpack_string (Some v) consumer in
      andthen (generic (_oph_json_add_consumer consumer)) (read_consumer l' consumer)
  end.

Definition read_consumers (root : json_t) : op oph_json :=
  match section root "consumers" with
  | None => ok
  | Some v => read_consumer (elements v) None
  end.

Definition read_text (key : string) (v : json_t) : op oph_json :=
  let us := json_unpack v [(FString, "title"); (FString, "message")]%string in
  generic (_oph_json_add_text (Some key) (target_string us 0) (target_string us 1)).

Definition read_grid_row (key : string) (v : json_t) : op oph_json :=
  with_value (read_strings v) (λ values, generic (_oph_json_add_grid_row (Some key) (Some values))).

Definition read_grid_rows (key : string) (v : json_t) : op oph_json :=
  match section v "rowvalues" with
  | None => ok
  | Some rows => for_each (read_grid_row key) (elements rows)
  end.

Definition read_grid (key : string) (v : json_t) : op oph_json :=
  let us := json_unpack v [(FString, "title"); (FString, "description"); (FValue, "rowkeys"); (FValue, "rowfieldtypes")]%string in
  match target us 2, target us 3 with
  | Some rowkeys, Some rowfieldtypes =>
      with_value (let! _ := json_new in
             let! _ := json_new in
             let! keys := fill_strings (elements rowkeys) in
             let! types := fill_strings (elements rowfieldtypes) in
             wret (keys, types)) (λ kt,
        andthen (generic (_oph_json_add_grid (Some key) (target_string us 0) (target_string us 1)
                   (Some kt.1) (Z.of_nat (json_array_size (Some rowkeys)))
                   (Some kt.2) (Z.of_nat (json_array_size (Some rowfieldtypes)))))
                (read_grid_rows key v))
  | _, _ => fail OPH_JSON_MEMORY_ERROR
  end.

(** The columns of a multidimensional grid. *)
Definition read_columns (v : json_t) : W (list (option (list cstr))) :=
  let! _ := json_new in
  wfold (λ l c, let! ws := read_strings c in wret (l ++ [Some ws])) [] (elements v).

(** The arrays of keys and types, allocated first. *)
Definition read_heads (rks rts cks cts : json_t) : W (list cstr * list cstr * list cstr * list cstr) :=
  let! _ := json_new in
  let! _ := json_new in
  let! _ := json_new in
  let! _ := json_new in
  let! rkeys := fill_strings (elements rks) in
  let! rtypes := fill_strings (elements rts) in
  let! ckeys := fill_strings (elements cks) in
  let! ctypes := fill_strings (elements cts) in
  wret (rkeys, rtypes, ckeys, ctypes).

Definition read_multi_row (key : string) (r m : json_t) : op oph_json :=
  with_value (let! _ := json_new in
         let! _ := json_new in
         let! rvalues := fill_strings (elements r) in
         let! mvalues := fill_strings (elements m) in
         wret (rvalues, mvalues))
    (λ vs, generic (_oph_json_add_multigrid_row (Some key) (Some vs.1) (Some vs.2))).

(** A row without measures takes those of the row before. *)
Fixpoint read_multi_rows (key : string) (rows measures : list json_t) (m : option json_t) : op oph_json :=
  match rows with
  | [] => ok
  | r :: rows' =>
      let m := match measures with m :: _ => Some m | [] => m end in
      andthen match m with Some m => read_multi_row key r m | None => ok end
              (read_multi_rows key rows' (tail measures) m)
  end.

Definition read_multi_values (key : string) (v : json_t) : op oph_json :=
  let us := json_unpack v [(FValue, "rowvalues"); (FValue, "measurevalues")]%string in
  match target us 0, target us 1 with
  | Some rows, Some measures => read_multi_rows key (elements rows) (elements measures) None
  | _, _ => ok
  end.

Definition read_multigrid (key : string) (v : json_t) : op oph_json :=
  let us := json_unpack v [(FString, "title"); (FString, "description"); (FValue, "rowkeys"); (FValue, "rowfieldtypes");
    (FValue, "colkeys"); (FValue, "colfieldtypes"); (FValue, "colvalues"); (FString, "measurename"); (FString, "measuretype")]%string in
  let num v := Z.of_nat (json_array_size (Some v)) in
  match target us 2, target us 3, target us 4, target us 5, target us 6 with
  | Some rks, Some rts, Some cks, Some cts, Some cvs =>
      with_value (let! heads := read_heads rks rts cks cts in let! columns := read_columns cvs in wret (heads, columns))
        (λ '(rkeys, rtypes, ckeys, ctypes, columns),
          andthen (generic (_oph_json_add_multigrid (Some key) (target_string us 0) (target_string us 1)
                     (Some rkeys) (num rks) (Some rtypes) (num rts) (Some ckeys) (num cks) (Some ctypes) (num cts)
                     (Some columns) (num cvs) (target_string us 7) (target_string us 8)))
                  (read_multi_values key v))
  | _, _, _, _, _ => fail OPH_JSON_MEMORY_ERROR
  end.

(** [(int) strtol(s, NULL, 10)] *)
Definition int_of (s : cstr) : C Z := s ← deref s; mret (wrap_i32 (strtol s)).

(** The links of the node [n]; [add] is the function of trees or of graphs. *)
Definition read_link (add : Z → Z → cstr → op oph_json) (n : nat) (v : json_t) : op oph_json :=
  let us := json_unpack v [(FString, "node"); (FString, "description")]%string in
  if is_null (target_string us 0) then fail OPH_JSON_GENERIC_ERROR
  else λ j, t ← int_of (target_string us 0); generic (add (Z.of_nat n) t (target_string us 1)) j.

Fixpoint read_links (add : Z → Z → cstr → op oph_json) (n : nat) (l : list json_t) : op oph_json :=
  match l with
  | [] => ok
  | v :: l' => andthen (for_each (read_link add n) (elements v)) (read_links add (S n) l')
  end.

(** The nodes with values, and [num] nodes without. *)
Definition read_nodes (add : option (list cstr) → op oph_json) (values : json_t) : op oph_json :=
  for_each (λ v, with_value (read_strings v) (λ ws, generic (add (Some ws)))) (elements values).
Definition empty_nodes (add : option (list cstr) → op oph_json) (num : nat) : op oph_json :=
  for_each (λ _, generic (add None)) (seq 0 num).

Definition list_of (v : option json_t) : list json_t := from_option elements [] v.

(** What follows the nodes of a tree: its root and its links. *)
Definition read_tree_links (key : string) (v : json_t) (nodes : nat → op oph_json) : op oph_json :=
  let us := json_unpack v [(FValue, "nodelinks"); (FString, "rootnode")]%string in
  andthen (nodes (json_array_size (target us 0)))
 (andthen (λ j, r ← int_of (target_string us 1); generic (_oph_json_set_tree_root (Some key) r) j)
          (read_links (_oph_json_add_tree_link (Some key)) 0 (list_of (target us 0)))).

Definition read_tree (key : string) (v : json_t) : op oph_json :=
  let us := json_unpack v [(FString, "title"); (FString, "description"); (FValue, "nodekeys")]%string in
  let add_tree ks n := generic (_oph_json_add_tree (Some key) (target_string us 0) (target_string us 1) ks n) in
  let add_node := _oph_json_add_tree_node (Some key) in
  match target us 2 with
  | Some nodekeys =>
      with_value (read_strings nodekeys) (λ ks,
        andthen (add_tree (Some ks) (Z.of_nat (json_array_size (Some nodekeys))))
        match section v "nodevalues" with
        | Some values => andthen (read_nodes add_node values) (read_tree_links key v (λ _, ok))
        | None => read_tree_links key v (empty_nodes add_node)
        end)
  | None => andthen (add_tree None 0) (read_tree_links key v (empty_nodes add_node))
  end.

Definition read_graph_links (key : string) (v : json_t) (nodes : nat → op oph_json) : op oph_json :=
  let links := section v "nodelinks" in
  andthen (nodes (json_array_size links)) (read_links (_oph_json_add_graph_link (Some key)) 0 (list_of links)).

Definition read_graph (is_digraph : Z) (key : string) (v : json_t) : op oph_json :=
  let us := json_unpack v [(FString, "title"); (FString, "description"); (FValue, "nodekeys")]%string in
  let add_graph ks n := generic (_oph_json_add_graph (Some key) is_digraph (target_string us 0) (target_string us 1) ks n) in
  let add_node := _oph_json_add_graph_node (Some key) in
  match target us 2 with
  | Some nodekeys =>
      with_value (read_strings nodekeys) (λ ks,
        andthen (add_graph (Some ks) (Z.of_nat (json_array_size (Some nodekeys))))
        match section v "nodevalues" with
        | Some values => andthen (read_nodes add_node values) (read_graph_links key v (λ _, ok))
        | None => read_graph_links key v (empty_nodes add_node)
        end)
  | None => andthen (add_graph None 0) (read_graph_links key v (empty_nodes add_node))
  end.

(** The reader of the objects of a class. *)
Definition reader (class : string) : option (string → json_t → op oph_json) :=
  if bool_decide (class = OPH_JSON_TEXT) then Some read_text
  else if bool_decide (class = OPH_JSON_GRID) then Some read_grid
  else if bool_decide (class = OPH_JSON_MULTIGRID) then Some read_multigrid
  else if bool_decide (class = OPH_JSON_TREE) then Some read_tree
  else if bool_decide (class = OPH_JSON_DGRAPH) || bool_decide (class = OPH_JSON_GRAPH)
  then Some (read_graph (if bool_decide (class = OPH_JSON_DGRAPH) then 1 else 0))
  else None.

Definition read_response (v : json_t) : op oph_json :=
  let us := json_unpack v [(FString, "objclass"); (FString, "objkey"); (FValue, "objcontent")]%string in
  match target_string us 1, target_string us 0, target us 2 with
  | Some objkey, Some objclass, Some objcontent =>
      match reader objclass with
      | Some read => for_each (read objkey) (elements objcontent)
      | None => fail OPH_JSON_GENERIC_ERROR
      end
  | _, _, _ => fail OPH_JSON_GENERIC_ERROR
  end.

Definition read_responses (root : json_t) : op oph_json :=
  match section root "response" with
  | None => ok
  | Some v => for_each read_response (elements v)
  end.

Definition read_document (root : json_t) : op oph_json :=
  andthen (read_source root) (andthen (read_extra root) (andthen (read_consumers root) (read_responses root))).

(** The code and [*json], which an error leaves as far as it has been built. *)
Definition _oph_json_from_json_string `{Jansson} (jstring : cstr) : C (Z * option oph_json) :=
  match jstring with
  | None => mret (OPH_JSON_BAD_PARAM_ERROR, None)
  | Some text =>
      '(rc, json) ← _oph_json_alloc;
      match json with
      | None => mret (OPH_JSON_MEMORY_ERROR, None)
      | Some j =>
          match json_loads text with
          | None => mret (OPH_JSON_GENERIC_ERROR, Some j)
          | Some root => '(rc, j) ← read_document root j; mret (rc, Some j)
          end
      end
  end.
End JsonText.
