(* ===== verification/JsonRound.v ===== *)
(** * Printing and reading a response gives it back

    The JSON tree of a document ([doc_json]), the proof that [_oph_json_to_json_string]
    prints this tree, and that [_oph_json_from_json_string] makes the same document from
    it; and a text on which the reader leaves its arrays. *)

From Stdlib Require Ascii.
From stdpp Require Import base gmap strings numbers pretty countable list.
From S2P Require Import Prelude CString JsonDoc JsonText.
Import (notations) Stdlib.Strings.Ascii.

Module JsonRound.
Import JsonDoc JsonText.
Open Scope Z_scope.
#[local] Open Scope json_scope.
#[local] Open Scope json_text_scope.

(** ** The tree of a document *)

(** The members of an object, those without a value left out. *)
Definition mk (l : list (string * option json_t)) : fields := omap (λ f, pair f.1 <$> f.2) l.

Definition unless_nil {A} (l : list A) (v : json_t) : option json_t :=
  match l with [] => None | _ => Some v end.

Definition strs (ws : list string) : json_t := JArray (JString <$> ws).
Definition cells (r : row) : json_t := JArray ((λ c, JString (default EmptyString c)) <$> r).
Definition matrix (rs : list row) : json_t := JArray (cells <$> rs).

Definition details_fields (keys values : list string) : list (string * option json_t) :=
  [("keys", unless_nil keys (strs keys)); ("values", unless_nil keys (strs values))]%string.

Definition source_fields (s : oph_json_source) : list (string * option json_t) :=
  [("srckey", JString <$> srckey s); ("srcname", JString <$> srcname s); ("srcurl", JString <$> srcurl s);
   ("description", JString <$> src_description s); ("producer", JString <$> producer s)]%string
  ++ details_fields (src_keys s) (src_values s).

Definition text_fields (t : oph_json_obj_text) : list (string * option json_t) :=
  [("title", JString <$> text_title t); ("message", JString <$> text_message t)]%string.

Definition grid_fields (g : oph_json_obj_grid) : list (string * option json_t) :=
  [("title", JString <$> grid_title g); ("description", JString <$> grid_description g);
   ("rowkeys", Some (strs (grid_keys g))); ("rowfieldtypes", Some (strs (grid_fieldtypes g)));
   ("rowvalues", Some (matrix (grid_values g)))]%string.

Definition multigrid_fields (g : oph_json_obj_multigrid) : list (string * option json_t) :=
  [("title", JString <$> multi_title g); ("description", JString <$> multi_description g);
   ("measurename", JString <$> measurename g); ("measuretype", JString <$> measuretype g);
   ("rowkeys", Some (strs (rowkeys g))); ("rowfieldtypes", Some (strs (rowfieldtypes g)));
   ("rowvalues", Some (matrix (default [] <$> rowvalues g)));
   ("colkeys", Some (strs (colkeys g))); ("colfieldtypes", Some (strs (colfieldtypes g)));
   ("colvalues", Some (matrix (default [] <$> colvalues g)));
   ("measurevalues", Some (matrix (measurevalues g)))]%string.

Definition link_fields (k : oph_json_link) : list (string * option json_t) :=
  [("node", JString <$> node k); ("description", JString <$> link_description k)]%string.
Definition link_json (k : oph_json_link) : json_t := JObject (mk (link_fields k)).
Definition links_json (lss : list oph_json_links) : json_t := JArray ((λ ls, JArray (link_json <$> ls)) <$> lss).

Definition node_fields (keys : list string) (values : list row) (lss : list oph_json_links) : list (string * option json_t) :=
  [("nodekeys", unless_nil keys (strs keys)); ("nodevalues", unless_nil keys (matrix values));
   ("nodelinks", Some (links_json lss))]%string.

Definition tree_fields (t : oph_json_obj_tree) : list (string * option json_t) :=
  [("title", JString <$> tree_title t); ("description", JString <$> tree_description t); ("rootnode", JString <$> rootnode t)]%string
  ++ node_fields (tree_nodekeys t) (tree_nodevalues t) (tree_nodelinks t).

Definition graph_fields (g : oph_json_obj_graph) : list (string * option json_t) :=
  [("title", JString <$> graph_title g); ("description", JString <$> graph_description g)]%string
  ++ node_fields (graph_nodekeys g) (graph_nodevalues g) (graph_nodelinks g).

Definition object {A} (fields_of : A → list (string * option json_t)) (a : A) : json_t := JObject (mk (fields_of a)).

Definition contents_json (c : objcontents) : list json_t :=
  match c with
  | Texts l => object text_fields <$> l
  | Grids l => object grid_fields <$> l
  | Multigrids l => object multigrid_fields <$> l
  | Trees l => object tree_fields <$> l
  | Graphs l => object graph_fields <$> l
  end.

Definition response_fields (r : oph_json_response) : list (string * option json_t) :=
  [("objclass", JString <$> objclass r); ("objkey", JString <$> objkey r);
   ("objcontent", Some (JArray (contents_json (objcontent r))))]%string.

Definition doc_fields (j : oph_json) : list (string * option json_t) :=
  [("source", object source_fields <$> source j);
   ("extra", object (λ e, details_fields (extra_keys e) (extra_values e)) <$> extra j);
   ("consumers", unless_nil (consumers j) (strs (consumers j)));
   ("responseKeyset", unless_nil (responseKeyset j) (strs (responseKeyset j)));
   ("response", unless_nil (response j) (JArray (object response_fields <$> response j)))]%string.

Definition doc_json (j : oph_json) : json_t := object doc_fields j.

(** ** Printable documents

    The builders do not compare the numbers of keys and types of a multidimensional grid, and
    a tree has no root at first; a document with such an object is refused. *)
Definition multi_printable (g : oph_json_obj_multigrid) : Prop :=
  rowkeys g ≠ [] ∧ colkeys g ≠ [] ∧ colvalues g ≠ [] ∧
  length (rowfieldtypes g) = length (rowkeys g) ∧ length (colfieldtypes g) = length (colkeys g).

(** The numbers of the nodes are [int]. *)
Definition tree_printable (t : oph_json_obj_tree) : Prop :=
  (∃ r, rootnode t = Some (print_int r) ∧ 0 ≤ r ∧ in_i32 r) ∧ in_i32 (Z.of_nat (length (tree_nodelinks t))).
Definition graph_printable (g : oph_json_obj_graph) : Prop := in_i32 (Z.of_nat (length (graph_nodelinks g))).

Definition contents_printable (c : objcontents) : Prop :=
  match c with
  | Multigrids l => Forall multi_printable l
  | Trees l => Forall tree_printable l
  | Graphs l => Forall graph_printable l
  | _ => True
  end.

Record printable (j : oph_json) : Prop := {
  pr_ok : doc_ok j;
  pr_contents : Forall (λ r, contents_printable (objcontent r)) (response j);
  pr_extra : ∀ e, extra j = Some e → extra_keys e ≠ [];
}.

(** ** Members *)

Definition names (l : list (string * option json_t)) : list string := l.*1.

Lemma mk_app l1 l2 : mk (l1 ++ l2) = mk l1 ++ mk l2.
Proof. apply omap_app. Qed.

Lemma mk_names l k : k ∈ (mk l).*1 → k ∈ names l.
Proof.
  unfold names. induction l as [|[k' [v|]] l IH]; [done| |]; rewrite fmap_cons; simpl.
  - change (k ∈ k' :: (mk l).*1 → k ∈ k' :: l.*1). rewrite !elem_of_cons. naive_solver.
  - change (k ∈ (mk l).*1 → k ∈ k' :: l.*1). rewrite elem_of_cons. naive_solver.
Qed.

Lemma mk_NoDup l : NoDup (names l) → NoDup (mk l).*1.
Proof.
  unfold names. induction l as [|[k [v|]] l IH]; [constructor| |]; rewrite fmap_cons; intros [Hk Hl]%NoDup_cons.
  - change (NoDup (k :: (mk l).*1)). apply NoDup_cons. split; [|auto]. by intros ?%mk_names.
  - by apply IH.
Qed.

Lemma set_member_fresh key v fs : key ∉ fs.*1 → set_member key v fs = fs ++ [(key, v)].
Proof.
  induction fs as [|[k w] fs IH]; intros Hk; simpl; [done|]. rewrite fmap_cons, not_elem_of_cons in Hk. destruct Hk as [Hne Hk].
  rewrite bool_decide_eq_false_2 by (simpl in *; congruence). by rewrite IH.
Qed.

Lemma set_member_middle key v w fs f : key ∉ fs.*1 → set_member key v (fs ++ (key, w) :: f) = fs ++ (key, v) :: f.
Proof.
  induction fs as [|[k u] fs IH]; intros Hk; simpl; [by rewrite bool_decide_eq_true_2|].
  rewrite fmap_cons, not_elem_of_cons in Hk. destruct Hk as [Hne Hk]. rewrite bool_decide_eq_false_2 by (simpl in *; congruence). by rewrite IH.
Qed.

Lemma set_member_last key v w fs : key ∉ fs.*1 → set_member key v (fs ++ [(key, w)]) = fs ++ [(key, v)].
Proof. apply set_member_middle. Qed.

(** The value of a name in the list the object is made from. *)
Fixpoint value_of (key : string) (l : list (string * option json_t)) : option json_t :=
  match l with
  | [] => None
  | (k, v) :: l' => if bool_decide (k = key) then v else value_of key l'
  end.

Lemma member_absent key fs : key ∉ fs.*1 → member key fs = None.
Proof.
  induction fs as [|[k v] fs IH]; [done|]. rewrite fmap_cons, not_elem_of_cons. intros [Hne Hk]. simpl in *.
  rewrite bool_decide_eq_false_2 by congruence. auto.
Qed.

Lemma member_mk key l : NoDup (names l) → member key (mk l) = value_of key l.
Proof.
  unfold names. induction l as [|[k [v|]] l IH]; [done| |]; rewrite fmap_cons; intros [Hk Hl]%NoDup_cons; simpl in *.
  - case_bool_decide; [done|]. auto.
  - case_bool_decide; [|by apply IH]. subst. apply member_absent. by intros ?%mk_names.
Qed.

(** ** Printing *)

(** A computation that succeeds with a value, with enough memory. *)
Definition yields {A} (c : W A) (a : A) : Prop := c [] = Ok (inr a) [].

Lemma yields_bind {A B} (c : W A) (f : A → W B) a b : yields c a → yields (f a) b → yields (wbind c f) b.
Proof. unfold yields, wbind. by intros ->. Qed.

Lemma yields_eq {A} (c : W A) a b : yields c a → a = b → yields c b.
Proof. by intros Hc <-. Qed.

Lemma yields_wderef {A} (a : A) : yields (wderef (Some a)) a.
Proof. done. Qed.

Lemma yields_json_new : yields json_new ().
Proof. done. Qed.

Lemma yields_wfold {S X} (st : list X → S) (f : S → X → W S) l :
  (∀ don x rest, l = don ++ x :: rest → yields (f (st don) x) (st (don ++ [x]))) → yields (wfold f (st []) l) (st l).
Proof.
  intros Hf. assert (∀ rest don, l = don ++ rest → yields (wfold f (st don) rest) (st l)) as Hgen; [|by apply Hgen].
  induction rest as [|x rest IH]; intros don Hl; simpl.
  - rewrite app_nil_r in Hl. by rewrite Hl.
  - eapply yields_bind; [by eapply Hf|]. apply IH. by rewrite <-app_assoc.
Qed.

(** A loop that appends the image of each element. *)
Lemma yields_appends {X Y} (h : X → Y) (f : list Y → X → W (list Y)) l0 l :
  (∀ l0 x, x ∈ l → yields (f l0 x) (l0 ++ [h x])) → yields (wfold f l0 l) (l0 ++ (h <$> l)).
Proof.
  intros Hf. pose proof (yields_wfold (λ don, l0 ++ (h <$> don)) f l) as Hy. simpl in Hy. rewrite app_nil_r in Hy.
  apply Hy. intros don x rest ->. rewrite fmap_app, app_assoc. apply Hf. set_solver.
Qed.

Lemma seq_middle n don i rest : seq 0 n = don ++ i :: rest → i = length don ∧ (i < n)%nat.
Proof.
  intros Hl. assert (seq 0 n !! length don = Some i) as Hlk by (by rewrite Hl, list_lookup_middle).
  apply lookup_seq in Hlk. simpl in Hlk. lia.
Qed.

Section printer.
Context `{Jansson}.

(** A member that can be printed. *)
Definition field_valid (f : string * option json_t) : Prop :=
  ∀ v, f.2 = Some v → utf8 f.1 = true ∧ json_valid v = true.

Lemma json_valid_mk l : json_valid (JObject (mk l)) = true → Forall field_valid l.
Proof.
  simpl. rewrite andb_true_iff. intros [_ Hf]. rewrite forallb_forall in Hf. apply Forall_forall. intros [k o] Hin v Hv. simpl in *. subst o.
  specialize (Hf (k, v)). simpl in Hf. apply andb_true_iff, Hf. apply list_elem_of_In. unfold mk.
  apply list_elem_of_omap. by exists (k, Some v).
Qed.

Lemma json_valid_array l v : json_valid (JArray l) = true → v ∈ l → json_valid v = true.
Proof. simpl. rewrite forallb_forall. intros Hf Hv. by apply Hf, list_elem_of_In. Qed.

Lemma json_valid_strs ws w : json_valid (strs ws) = true → w ∈ ws → utf8 w = true.
Proof. intros Hv Hw. apply (json_valid_array _ (JString w) Hv). by apply list_elem_of_fmap_2. Qed.

Lemma yields_set_new fs key v : utf8 key = true → yields (json_object_set_new fs key (Some v)) (set_member key v fs).
Proof. intros Hk. unfold yields, json_object_set_new. by rewrite Hk. Qed.

(** A name that is not in the list yet: decided by computing. *)
Definition fresh (key : string) (l : list (string * option json_t)) : bool := bool_decide (key ∉ names l).

Lemma fresh_mk key l : fresh key l = true → key ∉ (mk l).*1.
Proof. intros Hf%bool_decide_eq_true ?%mk_names. done. Qed.

Lemma mk_snoc l key v : mk (l ++ [(key, Some v)]) = mk l ++ [(key, v)].
Proof. by rewrite mk_app. Qed.

Lemma yields_set_string l key v :
  fresh key l = true → field_valid (key, Some (JString v)) →
  yields (set_string (mk l) key (Some v)) (mk (l ++ [(key, Some (JString v))])).
Proof.
  intros Hf%fresh_mk Hv. destruct (Hv _ eq_refl) as [Hk Hs]. simpl in *. unfold yields, set_string, json_string.
  rewrite Hs. unfold mbind, C_bind, malloc. simpl. rewrite Hk. rewrite mk_snoc, <-set_member_fresh by done. done.
Qed.

Lemma yields_required l key (v : cstr) :
  fresh key l = true → is_Some v → field_valid (key, JString <$> v) →
  yields (set_required (mk l) key v) (mk (l ++ [(key, JString <$> v)])).
Proof. intros Hf [s ->] Hv. by apply yields_set_string. Qed.

Lemma yields_optional l key (v : cstr) :
  fresh key l = true → field_valid (key, JString <$> v) → yields (set_optional (mk l) key v) (mk (l ++ [(key, JString <$> v)])).
Proof.
  intros Hf Hv. destruct v as [s|]; [by apply yields_set_string|]. unfold yields, set_optional. simpl. by rewrite mk_app, app_nil_r.
Qed.

Lemma yields_with_array l key (fill : list json_t → W (list json_t)) es :
  fresh key l = true → utf8 key = true → yields (fill []) es →
  yields (with_array (mk l) key fill) (mk (l ++ [(key, Some (JArray es))])).
Proof.
  intros Hf%fresh_mk Hk Hy. eapply yields_bind; [apply yields_json_new|]. eapply yields_bind; [by apply yields_set_new|].
  eapply yields_bind; [done|]. rewrite mk_snoc, (set_member_fresh key (JArray [])), set_member_last by done. done.
Qed.

Lemma yields_with_object l key (fill : fields → W fields) fs :
  fresh key l = true → utf8 key = true → yields (fill []) fs →
  yields (with_object (mk l) key fill) (mk (l ++ [(key, Some (JObject fs))])).
Proof.
  intros Hf%fresh_mk Hk Hy. eapply yields_bind; [apply yields_json_new|]. eapply yields_bind; [by apply yields_set_new|].
  eapply yields_bind; [done|]. rewrite mk_snoc, (set_member_fresh key (JObject [])), set_member_last by done. done.
Qed.

Lemma set_last_snoc {A} (l : list A) x y : set_last (l ++ [x]) y = l ++ [y].
Proof. unfold set_last. rewrite length_app. simpl. by rewrite Nat.add_sub, take_app_length. Qed.

Lemma yields_append_new l v : yields (json_array_append_new l (Some v)) (l ++ [v]).
Proof. done. Qed.

Lemma yields_append_object l (fill : fields → W fields) fs :
  yields (fill []) fs → yields (append_object l fill) (l ++ [JObject fs]).
Proof.
  intros Hy. eapply yields_bind; [apply yields_json_new|]. eapply yields_bind; [apply yields_append_new|].
  eapply yields_bind; [done|]. by rewrite set_last_snoc.
Qed.

Lemma yields_append_array l (fill : list json_t → W (list json_t)) es :
  yields (fill []) es → yields (append_array l fill) (l ++ [JArray es]).
Proof.
  intros Hy. eapply yields_bind; [apply yields_json_new|]. eapply yields_bind; [apply yields_append_new|].
  eapply yields_bind; [done|]. by rewrite set_last_snoc.
Qed.

Lemma yields_append_string l v : utf8 v = true → yields (append_string l (Some v)) (l ++ [JString v]).
Proof. intros Hv. unfold yields, append_string, json_string. by rewrite Hv. Qed.

Lemma yields_strings l ws : json_valid (strs ws) = true → yields (print_strings l ws) (l ++ (JString <$> ws)).
Proof. intros Hv. apply yields_appends. intros l0 w Hw. apply yields_append_string. by eapply json_valid_strs. Qed.

(** The printed elements of the first [i] indices. *)
Lemma yields_indexed {X} (xs : list X) (h : X → json_t) (f : list json_t → X → W (list json_t)) l0 n :
  n = length xs → (∀ l x, x ∈ xs → yields (f l x) (l ++ [h x])) →
  yields (wfold (λ l i, x ← deref (xs !! i); f l x) l0 (seq 0 n)) (l0 ++ (h <$> xs)).
Proof.
  intros -> Hf. pose proof (yields_wfold (λ don : list nat, l0 ++ (h <$> take (length don) xs))
    (λ l i, x ← deref (xs !! i); f l x) (seq 0 (length xs))) as Hy. simpl in Hy. rewrite app_nil_r, length_seq, firstn_all in Hy.
  apply Hy. intros don i rest Hl. destruct (seq_middle _ _ _ _ Hl) as [-> Hi].
  destruct (lookup_lt_is_Some_2 xs (length don) Hi) as [x Hx]. unfold yields. rewrite (bind_run _ _ _ x []) by (by rewrite Hx).
  rewrite length_app, Nat.add_1_r, (take_S_r _ _ _ Hx), fmap_app, app_assoc. apply Hf. by eapply list_elem_of_lookup_2.
Qed.

Lemma yields_pairs l k1 k2 l1 l2 :
  fresh k1 l = true → fresh k2 l = true → bool_decide (k1 ≠ k2) = true → length l1 = length l2 →
  field_valid (k1, Some (strs l1)) → field_valid (k2, Some (strs l2)) →
  yields (print_pairs (mk l) k1 k2 l1 l2) (mk (l ++ [(k1, Some (strs l1)); (k2, Some (strs l2))])).
Proof.
  intros Hf1%fresh_mk Hf2%fresh_mk Hne%bool_decide_eq_true Hlen Hv1 Hv2.
  destruct (Hv1 _ eq_refl) as [Hk1 Hs1], (Hv2 _ eq_refl) as [Hk2 Hs2]. simpl in Hk1, Hk2. unfold print_pairs, with_arrays.
  eapply yields_bind; [apply yields_json_new|]. eapply yields_bind; [by apply yields_set_new|].
  eapply yields_bind; [apply yields_json_new|]. eapply yields_bind; [by apply yields_set_new|].
  assert (k2 ∉ (mk l ++ [(k1, JArray [])]).*1) as Hf2'.
  { rewrite fmap_app, not_elem_of_app. split; [done|]. by intros ->%list_elem_of_singleton. }
  rewrite (set_member_fresh k1), (set_member_fresh k2) by done.
  eapply (yields_bind _ _ (JString <$> l1, JString <$> l2)).
  - pose proof (yields_wfold (λ don : list nat, (JString <$> take (length don) l1, JString <$> take (length don) l2)) (λ ls i,
      k ← deref (l1 !! i); let! ks := append_string ls.1 (Some k) in
      v ← deref (l2 !! i); let! vs := append_string ls.2 (Some v) in
      wret (ks, vs)) (seq 0 (length l1))) as Hy. cbn -[seq] in Hy. rewrite length_seq, firstn_all in Hy.
    rewrite Hlen, firstn_all, <-Hlen in Hy. apply Hy. clear Hy. intros don i rest Hl.
    destruct (seq_middle _ _ _ _ Hl) as [-> Hi].
    destruct (lookup_lt_is_Some_2 l1 (length don) Hi) as [x Hx], (lookup_lt_is_Some_2 l2 (length don)) as [y Hy]; [lia|].
    unfold yields. rewrite (bind_run _ _ _ x []) by (by rewrite Hx). eapply yields_bind.
    { apply yields_append_string. eapply json_valid_strs; [apply Hs1|by eapply list_elem_of_lookup_2]. }
    unfold yields. rewrite (bind_run _ _ _ y []) by (by rewrite Hy). eapply yields_bind.
    { apply yields_append_string. eapply json_valid_strs; [apply Hs2|by eapply list_elem_of_lookup_2]. }
    by rewrite length_app, Nat.add_1_r, (take_S_r _ _ _ Hx), (take_S_r _ _ _ Hy), !fmap_app.
  - unfold yields, wret. do 2 f_equal. cbn [fst snd]. rewrite mk_app. rewrite <-(app_assoc (mk l)).
    simpl. rewrite set_member_middle by done. change (mk l ++ [?a; ?b]) with (mk l ++ [a] ++ [b]).
    rewrite (app_assoc (mk l)).
    rewrite set_member_last; [by rewrite <-app_assoc|]. rewrite fmap_app, not_elem_of_app. split; [done|]. by intros ->%list_elem_of_singleton.
Qed.
End printer.

Section objects.
Context `{Jansson}.

Lemma cells_valid rs r : json_valid (matrix rs) = true → r ∈ rs → json_valid (cells r) = true.
Proof. intros Hv Hr. apply (json_valid_array _ _ Hv). by apply list_elem_of_fmap_2. Qed.

Lemma yields_row l r n : row_ok n r → json_valid (cells r) = true → yields (print_row l r n) (l ++ [cells r]).
Proof.
  intros (ws & -> & Hn) Hv. apply yields_append_array. apply (yields_indexed (Some <$> ws) _ append_string []); [by rewrite length_fmap|].
  intros l' c (w & -> & Hw)%list_elem_of_fmap. apply yields_append_string.
  apply (json_valid_array _ (JString w) Hv). apply list_elem_of_fmap. exists (Some w). split; [done|]. by apply list_elem_of_fmap_2.
Qed.

Definition full_row (n : nat) (r : option row) : Prop := ∃ r', r = Some r' ∧ row_ok n r'.

Lemma yields_rows l key rows num1 num2 :
  fresh key l = true → num1 = length rows → Forall (full_row num2) rows → field_valid (key, Some (matrix (default [] <$> rows))) →
  yields (print_rows (mk l) key rows num1 num2) (mk (l ++ [(key, Some (matrix (default [] <$> rows)))])).
Proof.
  intros Hf -> Hr Hv. destruct (Hv _ eq_refl) as [Hk Hm]. apply yields_with_array; [done..|]. rewrite <-list_fmap_compose.
  apply (yields_indexed rows _ (λ l r, let! r := wderef r in print_row l r num2) []); [done|].
  intros l' r Hin. rewrite Forall_forall in Hr. destruct (Hr _ Hin) as (r' & -> & Hok).
  eapply yields_bind; [done|]. apply yields_row; [done|]. eapply cells_valid; [apply Hm|]. by apply (list_elem_of_fmap_2 (default []) _ (Some r')).
Qed.

Lemma default_Some {A} (rs : list (list A)) : default [] <$> (Some <$> rs) = rs.
Proof. rewrite <-list_fmap_compose. apply list_fmap_id. Qed.

Lemma full_rows n rs : Forall (row_ok n) rs → Forall (full_row n) (Some <$> rs).
Proof. intros Hr. apply Forall_fmap. eapply Forall_impl; [done|]. intros r Hok. by exists r. Qed.

Lemma yields_full_rows l key rs num2 :
  fresh key l = true → Forall (row_ok num2) rs → field_valid (key, Some (matrix rs)) →
  yields (print_rows (mk l) key (Some <$> rs) (length rs) num2) (mk (l ++ [(key, Some (matrix rs))])).
Proof.
  intros Hf Hr Hv. rewrite <-(default_Some rs) at 3. apply yields_rows; [done|by rewrite length_fmap|by apply full_rows|by rewrite default_Some].
Qed.

Lemma yields_columns l k1 k2 l1 l2 :
  fresh k1 l = true → fresh k2 l = true → bool_decide (k1 ≠ k2) = true → length l2 = length l1 →
  field_valid (k1, Some (strs l1)) → field_valid (k2, Some (strs l2)) →
  yields (print_columns (mk l) k1 k2 l1 l2) (mk (l ++ [(k1, Some (strs l1)); (k2, Some (strs l2))])).
Proof. intros. unfold print_columns. rewrite (proj2 (Nat.eqb_eq _ _)) by done. by apply yields_pairs. Qed.

Lemma yields_details l ks vs :
  fresh "keys" l = true → fresh "values" l = true → length ks = length vs → Forall field_valid (details_fields ks vs) →
  yields (print_details (mk l) ks vs) (mk (l ++ details_fields ks vs)).
Proof.
  intros Hf1 Hf2 Hl (Hv1 & Hv2 & _)%Forall_cons_1%(λ p, conj (proj1 p) (Forall_cons_1 _ _ _ (proj2 p))).
  unfold print_details. rewrite <-Hl, Nat.eqb_refl. simpl. destruct ks as [|k ks].
  - by rewrite mk_app, app_nil_r.
  - by apply yields_pairs.
Qed.
End objects.

(** One member of an object after the other; [assumption] finds what has to be valid. *)
Ltac members Hv := apply json_valid_mk in Hv; repeat (apply Forall_cons_1 in Hv as [? Hv]).
Ltac print_member :=
  match goal with
  | |- yields (set_required _ _ _) _ => apply yields_required; [reflexivity|assumption..]
  | |- yields (set_optional _ _ _) _ => apply yields_optional; [reflexivity|assumption]
  | |- yields (print_columns _ _ _ _ _) _ => apply yields_columns; [reflexivity..|assumption|assumption|assumption]
  | |- yields (print_rows _ _ (Some <$> _) _ _) _ => apply yields_full_rows; [reflexivity|assumption|assumption]
  | |- yields (print_rows _ _ _ _ _) _ => apply yields_rows; [reflexivity|congruence|assumption|assumption]
  end.
Ltac print_members := repeat (eapply yields_bind; [print_member|]); try print_member.

Section object_printers.
Context `{Jansson}.

Lemma yields_text l t : text_ok t → json_valid (object text_fields t) = true → yields (print_text l t) (l ++ [object text_fields t]).
Proof.
  intros Ht Hv. members Hv. apply yields_append_object. change (@nil (string * json_t)) with (mk []). unfold text_ok in Ht. print_members.
Qed.

Lemma yields_grid l g : grid_ok g → json_valid (object grid_fields g) = true → yields (print_grid l g) (l ++ [object grid_fields g]).
Proof.
  intros [Ht [_ _] [_ Hty] Hn Hr] Hv. members Hv. apply yields_append_object. change (@nil (string * json_t)) with (mk []).
  print_members. rewrite Hn, Nat.eqb_refl. simpl negb. cbv iota. print_member.
Qed.

Lemma yields_multigrid l g :
  multigrid_ok g → multi_printable g → json_valid (object multigrid_fields g) = true →
  yields (print_multigrid l g) (l ++ [object multigrid_fields g]).
Proof.
  intros [Ht _ _ Hc [Hm (mt & Hmt & _)] (Hn1 & Hn2 & Hn3) [Hr1 Hr2] Hms Hr] (_ & _ & _ & Hrt & Hct) Hv. members Hv.
  assert (is_Some (measuretype g)) by (by exists mt). apply yields_append_object. change (@nil (string * json_t)) with (mk []).
  print_members. eapply yields_bind.
  { unfold print_multi_rows. print_members. rewrite Hn1, Nat.eqb_refl. simpl negb. cbv iota.
    print_member. }
  eapply yields_bind.
  { unfold print_multi_cols. print_members. rewrite Hn3, Nat.eqb_refl. simpl negb. cbv iota. print_member. }
  unfold print_multi_measures. rewrite Hn2, Nat.eqb_refl, Hr2, Nat.eqb_refl. simpl negb. cbv iota. print_member.
Qed.

Lemma yields_link l k : is_Some (node k) → json_valid (link_json k) = true → yields (print_link l k) (l ++ [link_json k]).
Proof.
  intros Ht Hv. unfold link_json in Hv. members Hv. apply yields_append_object. change (@nil (string * json_t)) with (mk []). print_members.
Qed.

Lemma yields_nodes_links `{Linked Ob} l ks (o : Ob) d :
  forallb (λ k, fresh k l) ["nodekeys"; "nodevalues"; "nodelinks"]%string = true →
  nodes_ok ks o → links_ok d (nodelinks o) → Forall field_valid (node_fields ks (nodevalues o) (nodelinks o)) →
  yields (let! o' := print_nodes (mk l) ks o in print_links o' o) (mk (l ++ node_fields ks (nodevalues o) (nodelinks o))).
Proof.
  simpl. rewrite !andb_true_iff. intros (Hf1 & Hf2 & Hf3 & _) (_ & Hn & Hr & Hlen) (tss & Hts & _) Hv.
  apply Forall_cons_1 in Hv as [Hv1 Hv]. apply Forall_cons_1 in Hv as [Hv2 Hv]. apply Forall_cons_1 in Hv as [Hv3 _].
  eapply (yields_bind _ _ (mk (l ++ [("nodekeys", unless_nil ks (strs ks)); ("nodevalues", unless_nil ks (matrix (nodevalues o)))]%string))).
  - unfold print_nodes. destruct ks as [|k ks]; [by rewrite mk_app, app_nil_r|]. simpl Nat.eqb at 1. cbv iota. rewrite Hn, Nat.eqb_refl. simpl negb. cbv iota.
    destruct (Hv1 _ eq_refl) as [Hk1 Hs1]. eapply yields_bind; [apply yields_with_array; [done..|by apply yields_strings]|].
    rewrite app_nil_l. change [?a; ?b] with ([a] ++ [b]). rewrite (app_assoc l). apply yields_full_rows; [|done|done].
    unfold fresh, names in *. rewrite fmap_app. apply bool_decide_eq_true. apply bool_decide_eq_true in Hf2. rewrite not_elem_of_app. split; [done|].
    by intros [=]%list_elem_of_singleton.
  - unfold print_links. assert (negb (length (nodevalues o) =? 0)%nat && negb (length (nodevalues o) =? length (nodelinks o))%nat = false) as ->.
    { case_decide as Hnil; [by rewrite Hlen|]. by rewrite Hlen, Nat.eqb_refl, andb_false_r. }
    destruct (Hv3 _ eq_refl) as [Hk3 Hs3]. unfold node_fields.
    change [?a; ?b; ?c] with ([a; b] ++ [c]). rewrite (app_assoc l). apply yields_with_array; [|done|].
    { unfold fresh, names in *. rewrite fmap_app. apply bool_decide_eq_true. apply bool_decide_eq_true in Hf3. rewrite not_elem_of_app. split; [done|].
      by intros [[=]|[[=]|[]%elem_of_nil]%elem_of_cons]%elem_of_cons. }
    apply (yields_appends _ _ []). intros l' ks' Hks'. apply yields_append_array, (yields_appends _ _ []). intros l'' k Hk.
    apply yields_link.
    + apply list_elem_of_lookup_1 in Hks' as [i Hi]. destruct (Forall2_lookup_l _ _ _ _ _ Hts Hi) as (ts & _ & Htg).
      unfold targets in Htg. assert (node k ∈ node <$> ks') as Hin by (by apply list_elem_of_fmap_2). rewrite Htg in Hin.
      apply list_elem_of_fmap in Hin as (t & -> & _). by eexists.
    + eapply (json_valid_array (link_json <$> ks')); [|by apply list_elem_of_fmap_2].
      eapply (json_valid_array _ _ Hs3). by apply (list_elem_of_fmap_2 (λ ls, JArray (link_json <$> ls))).
Qed.

End object_printers.

Section doc_printer.
Context `{Jansson}.

Lemma yields_tree l t :
  tree_ok t → tree_printable t → json_valid (object tree_fields t) = true → yields (print_tree l t) (l ++ [object tree_fields t]).
Proof.
  intros (Ht & Hn & Hl) [(r & Hr & _) _] Hv. apply json_valid_mk, Forall_app in Hv as [Hv Hnv]. repeat (apply Forall_cons_1 in Hv as [? Hv]).
  assert (is_Some (rootnode t)) by (by eexists). apply yields_append_object. change (@nil (string * json_t)) with (mk []).
  print_members.
  exact (yields_nodes_links [("title", JString <$> tree_title t); ("description", JString <$> tree_description t); ("rootnode", JString <$> rootnode t)]%string
    (tree_nodekeys t) t true eq_refl Hn Hl Hnv).
Qed.

Lemma yields_graph d l g :
  graph_ok d g → json_valid (object graph_fields g) = true → yields (print_graph l g) (l ++ [object graph_fields g]).
Proof.
  intros (Ht & Hn & Hl) Hv. apply json_valid_mk, Forall_app in Hv as [Hv Hnv]. repeat (apply Forall_cons_1 in Hv as [? Hv]).
  apply yields_append_object. change (@nil (string * json_t)) with (mk []). print_members.
  exact (yields_nodes_links [("title", JString <$> graph_title g); ("description", JString <$> graph_description g)]%string (graph_nodekeys g) g d eq_refl Hn Hl Hnv).
Qed.

Lemma yields_objects {Ob} `{ObjKind Ob} (print : list json_t → Ob → W (list json_t)) (h : Ob → json_t) os l :
  (∀ l o, o ∈ os → json_valid (h o) = true → yields (print l o) (l ++ [h o])) → json_valid (JArray (h <$> os)) = true →
  yields (print_objects print (wrap os) l) (l ++ (h <$> os)).
Proof.
  intros Hp Hv. unfold yields, print_objects. rewrite unwrap_wrap, (bind_run _ _ _ os []) by done.
  apply yields_appends. intros l' o Ho. apply Hp; [done|]. apply (json_valid_array _ _ Hv). by apply list_elem_of_fmap_2.
Qed.

Lemma yields_content c k l :
  contents_ok c k → contents_printable k → json_valid (JArray (contents_json k)) = true →
  yields (print_content c k l) (l ++ contents_json k).
Proof.
  intros Hok Hp Hv. unfold print_content. destruct k as [os|os|os|os|os]; simpl in Hok, Hp; destruct Hok as (Hc & _ & Hok);
    rewrite Forall_forall in Hok; try rewrite Forall_forall in Hp.
  - subst. refine (yields_objects print_text (object text_fields) os l _ Hv). intros. by apply yields_text; [apply Hok|].
  - subst. refine (yields_objects print_grid (object grid_fields) os l _ Hv). intros. by apply yields_grid; [apply Hok|].
  - subst. refine (yields_objects print_multigrid (object multigrid_fields) os l _ Hv). intros. by apply yields_multigrid; [apply Hok|apply Hp|].
  - subst. refine (yields_objects print_tree (object tree_fields) os l _ Hv). intros. by apply yields_tree; [apply Hok|apply Hp|].
  - assert (c = OPH_JSON_DGRAPH ∨ c = OPH_JSON_GRAPH) as Hc'.
    { unfold is_graph in Hc. apply orb_true_iff in Hc as [?%bool_decide_eq_true|?%bool_decide_eq_true]; auto. }
    destruct Hc' as [-> | ->]; refine (yields_objects print_graph (object graph_fields) os l _ Hv); intros; (by eapply yields_graph; [apply Hok|]).
Qed.

Lemma contents_json_num c k : contents_ok c k → (objcontent_num k =? 0)%nat = false.
Proof. destruct k as [[]|[]|[]|[]|[]]; simpl; naive_solver. Qed.

Lemma yields_response l k r :
  response_ok k r → contents_printable (objcontent r) → json_valid (object response_fields r) = true →
  yields (print_response l r) (l ++ [object response_fields r]).
Proof.
  intros [Hk (c & Hc & Hok)] Hp Hv. members Hv. assert (is_Some (objclass r)) by (by eexists). assert (is_Some (objkey r)) by (by eexists).
  apply yields_append_object. change (@nil (string * json_t)) with (mk []). print_members. rewrite (contents_json_num c) by done.
  match goal with Hf : field_valid ("objcontent"%string, _) |- _ => destruct (Hf _ eq_refl) as [Hu Hj] end.
  eapply yields_eq; [eapply yields_with_array; [reflexivity|done|]|reflexivity].
  unfold yields. rewrite (bind_run _ _ _ c []) by (by rewrite Hc). by apply (yields_content c _ []).
Qed.

Lemma yields_source l s :
  fresh "source" l = true → (∀ x, s = Some x → is_Some (srckey x) ∧ is_Some (srcname x) ∧ details_ok (src_keys x) (src_values x)) →
  field_valid ("source"%string, object source_fields <$> s) →
  yields (print_source (mk l) s) (mk (l ++ [("source"%string, object source_fields <$> s)])).
Proof.
  intros Hf Hok Hv. destruct s as [s|]; simpl; [|by rewrite mk_app, app_nil_r]. destruct (Hok s eq_refl) as (Hk & Hn & _ & Hlen).
  destruct (Hv _ eq_refl) as [Hu Hj]. apply yields_with_object; [done..|]. apply json_valid_mk, Forall_app in Hj as [Hj Hd].
  repeat (apply Forall_cons_1 in Hj as [? Hj]). change (@nil (string * json_t)) with (mk []). print_members.
  eapply yields_eq; [by apply yields_details|reflexivity].
Qed.

Lemma yields_extra l e :
  fresh "extra" l = true → (∀ x, e = Some x → details_ok (extra_keys x) (extra_values x)) →
  field_valid ("extra"%string, object (λ e, details_fields (extra_keys e) (extra_values e)) <$> e) →
  yields (print_extra (mk l) e) (mk (l ++ [("extra"%string, object (λ e, details_fields (extra_keys e) (extra_values e)) <$> e)])).
Proof.
  intros Hf Hok Hv. destruct e as [e|]; simpl; [|by rewrite mk_app, app_nil_r]. destruct (Hok e eq_refl) as (_ & Hlen).
  destruct (Hv _ eq_refl) as [Hu Hj]. apply yields_with_object; [done..|]. apply json_valid_mk in Hj.
  change (@nil (string * json_t)) with (mk []). eapply yields_eq; [by apply yields_details|reflexivity].
Qed.

(** An array that is left out when it is empty. *)
Lemma yields_unless_nil {X} l key (xs : list X) (h : X → json_t) (fill : list json_t → W (list json_t)) :
  fresh key l = true → field_valid (key, unless_nil xs (JArray (h <$> xs))) →
  (json_valid (JArray (h <$> xs)) = true → yields (fill []) (h <$> xs)) →
  yields (if (length xs =? 0)%nat then wret (mk l) else with_array (mk l) key fill) (mk (l ++ [(key, unless_nil xs (JArray (h <$> xs)))])).
Proof.
  intros Hf Hv Hy. destruct xs as [|x xs]; [by rewrite mk_app, app_nil_r|]. destruct (Hv _ eq_refl) as [Hu Hj].
  apply yields_with_array; auto.
Qed.

(** The printer makes the tree of the document. *)
Lemma to_json_string_doc j :
  printable j → json_valid (doc_json j) = true →
  _oph_json_to_json_string (Some j) [] = Ok (OPH_JSON_SUCCESS, Some (json_dumps (doc_json j))) [].
Proof.
  intros [Hok Hp _] Hv. apply json_valid_mk in Hv. repeat (apply Forall_cons_1 in Hv as [? Hv]). unfold _oph_json_to_json_string.
  rewrite (bind_run _ _ _ (inr (mk (doc_fields j))) []); [done|].
  eapply yields_bind; [apply yields_json_new|]. change (@nil (string * json_t)) with (mk []).
  eapply yields_bind; [apply yields_source; [reflexivity|by apply do_source|done]|].
  eapply yields_bind; [apply yields_extra; [reflexivity|by apply do_extra|done]|].
  eapply yields_bind; [apply yields_unless_nil; [reflexivity|done|]; by apply (yields_strings [])|].
  eapply yields_bind; [apply yields_unless_nil; [reflexivity|done|]; by apply (yields_strings [])|].
  eapply yields_eq; [eapply yields_unless_nil; [reflexivity|done|]|reflexivity]. intros Hj. apply (yields_appends _ _ []). intros l r Hr.
  apply list_elem_of_lookup_1 in Hr as [i Hi]. destruct (Forall2_lookup_r _ _ _ _ _ (do_responses j Hok) Hi) as (k & _ & Hro).
  apply (yields_response l k); [done|by eapply Forall_lookup_1 in Hp|].
  apply (json_valid_array _ _ Hj), list_elem_of_fmap_2. by eapply list_elem_of_lookup_2.
Qed.
End doc_printer.

(** ** Reading *)

(** A step that succeeds and leads from one structure to another, with enough memory. *)
Definition runs {S} (f : op S) (a b : S) : Prop := f a [] = Ok (OPH_JSON_SUCCESS, b) [].

Lemma runs_triple {S} (f : op S) a b : {{ λ x, x = a }} f {{ λ x, x = b | False }} → runs f a b.
Proof.
  intros Hf. specialize (Hf a [] eq_refl eq_refl). apply wp_run in Hf as ([rc x] & m & Hr & -> & [[Hrc Hx]|[_ []]]).
  simpl in *. by subst.
Qed.

Lemma triple_runs {S} (f : op S) a b : runs f a b → {{ λ x, x = a }} f {{ λ x, x = b | False }}.
Proof. intros Hf x m -> ->. unfold wp. rewrite Hf. split; [done|by left]. Qed.

Lemma runs_ok {S} (a : S) : runs ok a a.
Proof. done. Qed.

Lemma runs_andthen {S} (f g : op S) a b c : runs f a b → runs g b c → runs (andthen f g) a c.
Proof. unfold runs, andthen. intros Hf Hg. by rewrite (bind_run _ _ _ _ _ Hf). Qed.

Lemma runs_generic {S} (f : op S) a b : runs f a b → runs (generic f) a b.
Proof. unfold runs, generic. intros Hf. by rewrite (bind_run _ _ _ _ _ Hf). Qed.

Lemma runs_with_value {S A} (c : W A) (f : A → op S) x a b : yields c x → runs (f x) a b → runs (with_value c f) a b.
Proof. unfold runs, with_value, yields. intros Hc Hf. by rewrite (bind_run _ _ _ _ _ Hc). Qed.

Lemma runs_for_each {S X} (st : list X → S) (f : X → op S) l :
  (∀ don x rest, l = don ++ x :: rest → runs (f x) (st don) (st (don ++ [x]))) → runs (for_each f l) (st []) (st l).
Proof.
  intros Hf. assert (∀ rest don, l = don ++ rest → runs (for_each f rest) (st don) (st l)) as Hgen; [|by apply Hgen].
  induction rest as [|x rest IH]; intros don Hl; simpl.
  - rewrite app_nil_r in Hl. by rewrite Hl.
  - eapply runs_andthen; [by eapply Hf|]. apply IH. by rewrite <-app_assoc.
Qed.

(** The loop over the images of the elements of a list. *)
Lemma runs_for_each_fmap {S X Y} (h : X → Y) (st : list X → S) (f : Y → op S) l :
  (∀ don x rest, l = don ++ x :: rest → runs (f (h x)) (st don) (st (don ++ [x]))) → runs (for_each f (h <$> l)) (st []) (st l).
Proof.
  intros Hf. assert (∀ rest don, l = don ++ rest → runs (for_each f (h <$> rest)) (st don) (st l)) as Hgen; [|by apply Hgen].
  induction rest as [|x rest IH]; intros don Hl; simpl.
  - rewrite app_nil_r in Hl. by rewrite Hl.
  - eapply runs_andthen; [by eapply Hf|]. apply IH. by rewrite <-app_assoc.
Qed.

(** *** Members of an object *)

(** The targets of a format whose strings are strings or missing. *)
Lemma unpack_mk l fmt :
  bool_decide (NoDup (names l)) = true →
  Forall (λ f, f.1 = FString → ∃ s : cstr, value_of f.2 l = JString <$> s) fmt →
  json_unpack (JObject (mk l)) fmt = (λ f, value_of f.2 l) <$> fmt.
Proof.
  intros Hnd%bool_decide_eq_true. simpl. induction fmt as [|[f key] fmt IH]; intros Hf; [done|].
  apply Forall_cons in Hf as [Hk Hf]. specialize (IH Hf). rewrite fmap_cons, <-IH. simpl in *. rewrite member_mk by done. destruct f.
  - destruct (Hk eq_refl) as [[s|] ->]; done.
  - by destruct (value_of key l).
Qed.

Lemma section_mk l key : bool_decide (NoDup (names l)) = true → section (JObject (mk l)) key = value_of key l.
Proof. intros Hnd. unfold section. rewrite unpack_mk; [done..|]. constructor; [done|constructor]. Qed.

Lemma section_object {A} (f : A → list (string * option json_t)) a key :
  bool_decide (NoDup (names (f a))) = true → section (object f a) key = value_of key (f a).
Proof. apply section_mk. Qed.

Lemma unpack_object {A} (f : A → list (string * option json_t)) a fmt :
  bool_decide (NoDup (names (f a))) = true →
  Forall (λ x, x.1 = FString → ∃ s : cstr, value_of x.2 (f a) = JString <$> s) fmt →
  json_unpack (object f a) fmt = (λ x, value_of x.2 (f a)) <$> fmt.
Proof. apply unpack_mk. Qed.

Lemma target_string_opt (us : list (option json_t)) i (s : cstr) : target us i = JString <$> s → target_string us i = s.
Proof. unfold target_string. intros ->. by destruct s. Qed.

Lemma fill_strs ws : yields (fill_strings (JString <$> ws)) (Some <$> ws).
Proof.
  unfold yields, fill_strings, strings_of. assert (mapM (λ v, match v with JString s => Some (Some s) | _ => None end) (JString <$> ws) = Some (Some <$> ws)) as ->; [|done].
  induction ws as [|w ws IH]; [done|]. rewrite fmap_cons. simpl. by rewrite IH.
Qed.

Lemma read_strs ws : yields (read_strings (strs ws)) (Some <$> ws).
Proof. eapply yields_bind; [apply yields_json_new|apply fill_strs]. Qed.

Lemma cells_filled ws : cells (filled ws) = strs ws.
Proof. unfold cells, strs, filled. by rewrite <-list_fmap_compose. Qed.

Lemma has_strings_all ws : has_strings (Some <$> ws) (length ws) ws.
Proof. split; [|done]. by rewrite <-(length_fmap Some ws), firstn_all. Qed.

Lemma size_strs ws : json_array_size (Some (strs ws)) = length ws.
Proof. simpl. by rewrite length_fmap. Qed.

(** *** Objects of the last response *)

Section placing.
Context `{ObjKind Ob}.

(** The document with one response more. *)
Definition with_objects (c k : string) (os : list Ob) (base : oph_json) : oph_json :=
  set_responseKeyset (responseKeyset base ++ [k]) (set_response (response base ++ [Response (Some c) (Some k) (wrap os)]) base).

Definition place (c k : string) (os : list Ob) (base : oph_json) : oph_json :=
  match os with [] => base | _ => with_objects c k os base end.

(** The key is not in the document. *)
Definition new_key (k : string) (base : oph_json) : Prop :=
  k ∉ responseKeyset base ∧ Forall (λ r, ∃ k', objkey r = Some k' ∧ k' ≠ k) (response base).

Lemma find_new_key k rs i accept : Forall (λ r, ∃ k', objkey r = Some k' ∧ k' ≠ k) rs → find_response rs i k accept [] = Ok Absent [].
Proof.
  revert i. induction rs as [|r rs IH]; intros i; [done|]. intros [(k' & Hr & Hne) Hrs]%Forall_cons. simpl.
  rewrite (bind_run _ _ _ false []); [by apply IH|]. unfold strcmp0. rewrite Hr. unfold mbind, C_bind. simpl. by rewrite bool_decide_eq_false_2.
Qed.

Lemma find_last_key c k rs i accept x :
  Forall (λ r, ∃ k', objkey r = Some k' ∧ k' ≠ k) rs →
  find_response (rs ++ [Response (Some c) (Some k) x]) i k accept [] = Ok (if accept c then Found (i + length rs) else WrongClass) [].
Proof.
  revert i. induction rs as [|r rs IH]; intros i; simpl.
  - intros _. rewrite (bind_run _ _ _ true []); [by rewrite Nat.add_0_r|]. unfold strcmp0, mbind, C_bind. simpl. by rewrite bool_decide_eq_true_2.
  - intros [(k' & Hr & Hne) Hrs]%Forall_cons. rewrite (bind_run _ _ _ false []).
    + rewrite IH by done. by rewrite Nat.add_succ_r.
    + unfold strcmp0. rewrite Hr. unfold mbind, C_bind. simpl. by rewrite bool_decide_eq_false_2.
Qed.

Lemma runs_on_content c k (l l' : list Ob) (f : op (list Ob)) base :
  runs f l l' → runs (on_content (length (response base)) f) (with_objects c k l base) (with_objects c k l' base).
Proof.
  intros Hf. apply runs_triple. eapply (triple_on_content False _ c k l).
  - unfold response_at. simpl. by rewrite lookup_app_r, Nat.sub_diag.
  - apply triple_runs in Hf. eapply triple_conseq; [exact Hf|done|]. intros x ->. unfold put_objects, with_objects, set_response. simpl. f_equal.
    by rewrite insert_app_r_alt, Nat.sub_diag.
Qed.

Lemma runs_add_object c k title zero body (os : list Ob) o base :
  new_key k base → runs body (zero (Some title)) o →
  runs (add_object c k (Some title) zero body) (place c k os base) (with_objects c k (os ++ [o]) base).
Proof.
  intros [Hk Hrs] Hb%triple_runs. unfold runs, add_object. destruct os as [|o0 os]; cbn [place].
  - assert (runs (new_response c (Some k) (Some title) zero body) base (with_objects c k [o] base)) as Hnew.
    { apply runs_triple, triple_new_response; [done|]. eapply triple_conseq; [exact Hb|done|]. by intros x ->. }
    case_bool_decide; [done|]. by rewrite (bind_run _ _ _ _ _ (find_new_key k (response base) 0 _ Hrs)).
  - rewrite bool_decide_eq_false_2 by (simpl; by destruct (response base)).
    change (response (with_objects c k ?l base)) with (response base ++ [Response (Some c) (Some k) (wrap l)]).
    rewrite (bind_run _ _ _ _ _ (find_last_key c k (response base) 0 _ _ Hrs)), bool_decide_eq_true_2 by done.
    apply runs_on_content, runs_triple, triple_push_object. eapply triple_conseq; [exact Hb|done|]. by intros x ->.
Qed.

Lemma runs_on_last c k accept absent f (os : list Ob) o o' base :
  new_key k base → accept c = true → runs (f c) o o' →
  runs (on_last k accept absent f) (with_objects c k (os ++ [o]) base) (with_objects c k (os ++ [o']) base).
Proof.
  intros [Hk Hrs] Ha Hf. unfold runs, on_last. rewrite bool_decide_eq_false_2 by (simpl; by destruct (response base)).
    change (response (with_objects c k ?l base)) with (response base ++ [Response (Some c) (Some k) (wrap l)]).
  rewrite (bind_run _ _ _ _ _ (find_last_key c k (response base) 0 _ _ Hrs)), Ha. simpl.
  rewrite (bind_run _ _ _ (Response (Some c) (Some k) (wrap (os ++ [o]))) []) by (by rewrite lookup_app_r, Nat.sub_diag).
  rewrite (bind_run _ _ _ c []) by done. apply runs_on_content. unfold runs. rewrite last_snoc, (bind_run _ _ _ _ _ Hf), set_last_snoc. done.
Qed.

Lemma place_snoc c k (os : list Ob) o base : place c k (os ++ [o]) base = with_objects c k (os ++ [o]) base.
Proof. by destruct os. Qed.
End placing.

(** The targets of an object made from a list of members. *)
Ltac solve_unpack :=
  repeat (apply List.Forall_cons; [first [intros [=]; fail | intros _; eexists; reflexivity]|]); apply List.Forall_nil.
Ltac unpack f a := rewrite (unpack_object f a); [|reflexivity|solve_unpack].

Section readers.
Context (k : string) (base : oph_json) (Hnew : new_key k base).

Lemma runs_read_text os t :
  text_ok t → runs (read_text k (object text_fields t)) (place OPH_JSON_TEXT k os base) (with_objects OPH_JSON_TEXT k (os ++ [t]) base).
Proof.
  intros [s Hs]. unfold read_text. unpack text_fields t. rewrite (target_string_opt _ 0 (text_title t)) by reflexivity.
  rewrite (target_string_opt _ 1 (text_message t)) by reflexivity. rewrite Hs. apply runs_generic.
  apply (runs_add_object OPH_JSON_TEXT k s _ _ os t base Hnew). destruct t as [? [m|]]; simpl in *; by subst.
Qed.

Lemma runs_grid_row (os : list oph_json_obj_grid) g ws :
  grid_ok g → length ws = length (grid_keys g) →
  runs (read_grid_row k (cells (filled ws))) (with_objects OPH_JSON_GRID k (os ++ [g]) base)
    (with_objects OPH_JSON_GRID k (os ++ [set_grid_values (grid_values g ++ [filled ws]) g]) base).
Proof.
  intros Hg Hl. rewrite cells_filled. eapply runs_with_value; [apply read_strs|]. apply runs_generic.
  apply (runs_on_last OPH_JSON_GRID k _ _ _ os g); [done|by apply bool_decide_eq_true_2|]. apply runs_triple.
  eapply triple_conseq; [apply (triple_grid_row False _ ws g Hg); rewrite <-Hl; apply has_strings_all|done|]. by intros x [-> _].
Qed.

(** The rows of a table: [set_rows] is the table with the first of them. *)
Lemma rows_filled n rs : Forall (row_ok n) rs → ∃ wss, rs = filled <$> wss ∧ Forall (λ ws, length ws = n) wss.
Proof.
  induction 1 as [|r rs (ws & -> & Hl) _ (wss & -> & IH)]; [by exists []|]. exists (ws :: wss). split; [done|]. by constructor.
Qed.

Definition first_rows (g : oph_json_obj_grid) (wss : list (list string)) : oph_json_obj_grid := set_grid_values (filled <$> wss) g.

Lemma first_rows_ok g wss : grid_ok g → Forall (λ ws, length ws = length (grid_keys g)) wss → grid_ok (first_rows g wss).
Proof.
  intros [H1 H2 H3 H4 _] Hw. split; simpl; try done. apply Forall_fmap. eapply Forall_impl; [done|]. intros ws Hl. by exists ws.
Qed.

Lemma runs_grid_rows os g wss :
  grid_ok g → grid_values g = filled <$> wss → Forall (λ ws, length ws = length (grid_keys g)) wss →
  runs (read_grid_rows k (object grid_fields g)) (with_objects OPH_JSON_GRID k (os ++ [first_rows g []]) base)
    (with_objects OPH_JSON_GRID k (os ++ [g]) base).
Proof.
  intros Hg Hv Hw. unfold read_grid_rows. rewrite section_object by reflexivity.
  assert (g = first_rows g wss) as Hgw by (destruct g; simpl in *; by subst). rewrite Hgw at 3.
  change (value_of "rowvalues" (grid_fields g)) with (Some (matrix (grid_values g))). rewrite Hv. cbn [elements matrix].
  rewrite <-(list_fmap_compose filled cells).
  apply (runs_for_each_fmap (cells ∘ filled) (λ wss, with_objects OPH_JSON_GRID k (os ++ [first_rows g wss]) base)).
  intros don ws rest Hd. rewrite Hd in Hw. apply Forall_app in Hw as [Hw1 [Hws _]%Forall_cons].
  pose proof (runs_grid_row os (first_rows g don) ws (first_rows_ok g don Hg Hw1) Hws) as Hr. simpl in Hr.
  unfold first_rows at 2. rewrite fmap_app. exact Hr.
Qed.

Lemma andthen_run {S} (f g : op S) a b : runs f a b → andthen f g a [] = g b [].
Proof. unfold runs, andthen. intros Hf. by rewrite (bind_run _ _ _ _ _ Hf). Qed.

Lemma with_value_run {S A} (c : W A) (f : A → op S) x a : yields c x → with_value c f a [] = f x a [].
Proof. unfold yields, with_value. intros Hc. by rewrite (bind_run _ _ _ _ _ Hc). Qed.

(** The table is added without rows, whatever its rows are. *)
Lemma read_grid_head os g t :
  grid_title g = Some t → NoDup (grid_keys g) → grid_keys g ≠ [] → Forall (λ t, t ∈ json_types) (grid_fieldtypes g) →
  length (grid_fieldtypes g) = length (grid_keys g) → grid_values_num2 g = length (grid_keys g) →
  read_grid k (object grid_fields g) (place OPH_JSON_GRID k os base) [] =
  read_grid_rows k (object grid_fields g) (with_objects OPH_JSON_GRID k (os ++ [first_rows g []]) base) [].
Proof.
  intros Ht Hnd Hne Hty Hlen Hn.
  unfold read_grid. unpack grid_fields g. rewrite (target_string_opt _ 0 (grid_title g)) by reflexivity.
  rewrite (target_string_opt _ 1 (grid_description g)) by reflexivity.
  change (target _ 2) with (Some (strs (grid_keys g))). change (target _ 3) with (Some (strs (grid_fieldtypes g))). cbv iota.
  erewrite with_value_run.
  2: { eapply yields_bind; [apply yields_json_new|]. eapply yields_bind; [apply yields_json_new|].
    eapply yields_bind; [apply fill_strs|]. eapply yields_bind; [apply fill_strs|done]. }
  rewrite !size_strs, Hlen. apply andthen_run.
  apply runs_generic. unfold _oph_json_add_grid, runs. cbn [fst snd]. rewrite Ht. cbn [is_null orb].
  assert (1 ≤ Z.of_nat (length (grid_keys g))) as H1 by (destruct (grid_keys g); simpl; [done|lia]).
  rewrite (proj2 (Z.ltb_ge _ _) H1). cbn [orb]. apply (runs_add_object OPH_JSON_GRID k t _ _ os (first_rows g []) base Hnew).
  apply runs_triple. eapply triple_conseq; [apply (triple_grid_body False t (grid_description g)); try done|done|].
  - rewrite Nat2Z.id. apply has_strings_all.
  - rewrite Nat2Z.id, <-Hlen. apply has_strings_all.
  - intros x [-> _]. unfold new_grid. destruct g; simpl in *. by subst.
Qed.

Lemma runs_read_grid os g :
  grid_ok g → runs (read_grid k (object grid_fields g)) (place OPH_JSON_GRID k os base) (with_objects OPH_JSON_GRID k (os ++ [g]) base).
Proof.
  intros Hg. pose proof Hg as [[t Ht] [Hnd Hne] [Hty Hlen] Hn Hr]. destruct (rows_filled _ _ Hr) as (wss & Hv & Hw).
  unfold runs. rewrite (read_grid_head os g t) by done. by apply (runs_grid_rows os g wss).
Qed.
End readers.

Section multi_readers.
Context (k : string) (base : oph_json) (Hnew : new_key k base).

Lemma full_rows_filled n rs : Forall (full_row n) rs → ∃ wss, rs = Some <$> (filled <$> wss) ∧ Forall (λ ws, length ws = n) wss.
Proof.
  induction 1 as [|r rs (r' & -> & ws & -> & Hl) _ (wss & -> & IH)]; [by exists []|]. exists (ws :: wss). split; [done|]. by constructor.
Qed.

(** The grid with the rows so far. *)
Definition first_multi_rows (g : oph_json_obj_multigrid) (rwss mwss : list (list string)) : oph_json_obj_multigrid :=
  set_rowvalues_num1 (length mwss) (set_rowvalues (Some <$> (filled <$> rwss)) (set_measurevalues (filled <$> mwss) g)).

Lemma first_multi_rows_ok g rwss mwss :
  multigrid_ok g → length rwss = length mwss → Forall (λ ws, length ws = length (rowkeys g)) rwss →
  Forall (λ ws, length ws = length (colvalues g)) mwss → multigrid_ok (first_multi_rows g rwss mwss).
Proof.
  intros [H1 H2 H3 H4 H5 H6 _ _ _] Hl Hr Hm. split; simpl; try done; rewrite ?length_fmap; [done|..]; rewrite !Forall_fmap.
  - eapply Forall_impl; [exact Hm|]. intros ws Hws. by exists ws.
  - eapply Forall_impl; [exact Hr|]. intros ws Hws. eexists. split; [done|]. by exists ws.
Qed.

Lemma runs_multi_row (os : list oph_json_obj_multigrid) g rws mws :
  multigrid_ok g → length rws = length (rowkeys g) → length mws = length (colvalues g) →
  runs (read_multi_row k (cells (filled rws)) (cells (filled mws))) (with_objects OPH_JSON_MULTIGRID k (os ++ [g]) base)
    (with_objects OPH_JSON_MULTIGRID k (os ++ [with_multi_row rws mws g]) base).
Proof.
  intros Hg Hr Hm. rewrite !cells_filled. eapply runs_with_value.
  { eapply yields_bind; [apply yields_json_new|]. eapply yields_bind; [apply yields_json_new|].
    eapply yields_bind; [apply fill_strs|]. eapply yields_bind; [apply fill_strs|done]. }
  apply runs_generic, (runs_on_last OPH_JSON_MULTIGRID k _ _ _ os g); [done|by apply bool_decide_eq_true_2|]. apply runs_triple.
  eapply triple_conseq; [apply (triple_multigrid_row False _ _ rws mws g Hg)|done|by intros x [-> _]].
  - rewrite <-Hr. apply has_strings_all.
  - rewrite <-Hm. apply has_strings_all.
Qed.

Lemma runs_multi_rows os g rr rm dr dm m :
  multigrid_ok g → length dr = length dm → length rr = length rm → Forall (λ ws, length ws = length (rowkeys g)) (dr ++ rr) →
  Forall (λ ws, length ws = length (colvalues g)) (dm ++ rm) →
  runs (read_multi_rows k ((cells ∘ filled) <$> rr) ((cells ∘ filled) <$> rm) m)
    (with_objects OPH_JSON_MULTIGRID k (os ++ [first_multi_rows g dr dm]) base)
    (with_objects OPH_JSON_MULTIGRID k (os ++ [first_multi_rows g (dr ++ rr) (dm ++ rm)]) base).
Proof.
  intros Hg. revert rm dr dm m. induction rr as [|rws rr IH]; intros [|mws rm] dr dm m Hl Hl' Hr Hm; try done.
  { by rewrite !app_nil_r. }
  pose proof Hr as [Hr1 [Hr2 _]%Forall_cons]%Forall_app. pose proof Hm as [Hm1 [Hm2 _]%Forall_cons]%Forall_app.
  simpl. eapply runs_andthen.
  - apply (runs_multi_row os (first_multi_rows g dr dm)); [by apply first_multi_rows_ok|done|done].
  - rewrite (cons_middle rws), (cons_middle mws), !app_assoc.
    replace (with_multi_row rws mws (first_multi_rows g dr dm)) with (first_multi_rows g (dr ++ [rws]) (dm ++ [mws])).
    + apply IH; [rewrite !length_app; simpl; lia|by injection Hl'|by rewrite <-app_assoc|by rewrite <-app_assoc].
    + unfold first_multi_rows, with_multi_row, set_rowvalues_num1, set_rowvalues. simpl. rewrite !fmap_app, length_app, Nat.add_1_r. done.
Qed.

Lemma runs_multi_values os g rwss mwss :
  multigrid_ok g → rowvalues g = Some <$> (filled <$> rwss) → measurevalues g = filled <$> mwss → length rwss = length mwss →
  Forall (λ ws, length ws = length (rowkeys g)) rwss → Forall (λ ws, length ws = length (colvalues g)) mwss →
  runs (read_multi_values k (object multigrid_fields g)) (with_objects OPH_JSON_MULTIGRID k (os ++ [first_multi_rows g [] []]) base)
    (with_objects OPH_JSON_MULTIGRID k (os ++ [g]) base).
Proof.
  intros Hg Hr Hm Hl Hwr Hwm. unfold read_multi_values. unpack multigrid_fields g.
  change (target _ 0) with (Some (matrix (default [] <$> rowvalues g))). change (target _ 1) with (Some (matrix (measurevalues g))).
  assert (default [] <$> rowvalues g = filled <$> rwss) as -> by (rewrite Hr; apply default_Some).
  cbv iota. unfold matrix. cbn [elements]. rewrite Hm, <-!(list_fmap_compose filled cells).
  assert (g = first_multi_rows g rwss mwss) as Hgw.
  { destruct Hg as [_ _ _ _ _ _ [_ Hn] _ _]. destruct g; simpl in *; subst. unfold first_multi_rows, set_rowvalues_num1. simpl. by rewrite length_fmap. }
  rewrite Hgw at 2. by apply (runs_multi_rows os g rwss mwss [] []).
Qed.

Lemma yields_read_columns wss : yields (read_columns (matrix (filled <$> wss))) (Some <$> (filled <$> wss)).
Proof.
  eapply yields_bind; [apply yields_json_new|]. cbn [elements matrix]. rewrite <-!list_fmap_compose.
  assert (∀ l0, yields (wfold (λ l c, let! ws := read_strings c in wret (l ++ [Some ws])) l0 ((cells ∘ filled) <$> wss))
    (l0 ++ ((Some ∘ filled) <$> wss))) as Hgen; [|by apply (Hgen [])].
  induction wss as [|ws wss IH]; intros l0; simpl; [by rewrite app_nil_r|]. rewrite cells_filled.
  eapply yields_bind; [eapply yields_bind; [apply read_strs|done]|]. eapply yields_eq; [apply IH|by rewrite <-app_assoc].
Qed.

Lemma runs_read_multigrid os g :
  multigrid_ok g → multi_printable g →
  runs (read_multigrid k (object multigrid_fields g)) (place OPH_JSON_MULTIGRID k os base) (with_objects OPH_JSON_MULTIGRID k (os ++ [g]) base).
Proof.
  intros Hg (Hrne & Hcne & Hvne & Hrl & Hcl). pose proof Hg as [[t Ht] [Hrnd Hrty] [Hcnd Hcty] Hcv [[mn Hmn] (mt & Hmt & Hty)] (Hn1 & Hn2 & Hn3) [Hr1 Hr2] Hms Hrv].
  destruct (full_rows_filled _ _ Hcv) as (cwss & Hcw & Hclen), (full_rows_filled _ _ Hrv) as (rwss & Hrw & Hrlen),
    (rows_filled _ _ Hms) as (mwss & Hmw & Hmlen).
  unfold read_multigrid. unpack multigrid_fields g. rewrite (target_string_opt _ 0 (multi_title g)) by reflexivity.
  rewrite (target_string_opt _ 1 (multi_description g)) by reflexivity. rewrite (target_string_opt _ 7 (measurename g)) by reflexivity.
  rewrite (target_string_opt _ 8 (measuretype g)) by reflexivity.
  change (target _ 2) with (Some (strs (rowkeys g))). change (target _ 3) with (Some (strs (rowfieldtypes g))).
  change (target _ 4) with (Some (strs (colkeys g))). change (target _ 5) with (Some (strs (colfieldtypes g))).
  change (target _ 6) with (Some (matrix (default [] <$> colvalues g))). cbv iota.
  assert (default [] <$> colvalues g = filled <$> cwss) as Hcw' by (rewrite Hcw; apply default_Some). rewrite Hcw'.
  eapply runs_with_value.
  { eapply yields_bind; [|eapply yields_bind; [apply yields_read_columns|done]].
    do 4 (eapply yields_bind; [apply yields_json_new|]). do 4 (eapply yields_bind; [apply fill_strs|]). done. }
  cbv beta iota. rewrite !size_strs, Hrl, Hcl. eapply runs_andthen.
  2: { apply (runs_multi_values os g rwss mwss); try done. rewrite Hrw, Hmw, !length_fmap in Hr1. done. }
  apply runs_generic. unfold _oph_json_add_multigrid, runs. rewrite Ht, Hmn, Hmt. cbn [is_null orb].
  assert (∀ A (l : list A), l ≠ [] → (Z.of_nat (length l) <? 1) = false) as Hpos.
  { intros A l Hl. apply Z.ltb_ge. destruct l; simpl; [done|lia]. }
  assert (json_array_size (Some (matrix (filled <$> cwss))) = length (colvalues g)) as Hsz by (simpl; by rewrite Hcw, !length_fmap).
  rewrite Hsz, !Hpos by done. cbn [orb]. apply (runs_add_object OPH_JSON_MULTIGRID k t _ _ os (first_multi_rows g [] []) base Hnew).
  rewrite !Nat2Z.id. apply runs_triple.
  eapply triple_conseq; [apply (triple_multigrid_body False t (multi_description g) _ _ _ _ _ _ _ _ _ _ mn mt
    (rowkeys g) (rowfieldtypes g) (colkeys g) (colfieldtypes g) cwss)|done|].
  - apply has_strings_all.
  - rewrite <-Hrl. apply has_strings_all.
  - apply has_strings_all.
  - rewrite <-Hcl. apply has_strings_all.
  - by rewrite Hcw, !length_fmap.
  - intros i ws Hi. exists (Some <$> ws). split; [by rewrite !list_lookup_fmap, Hi|].
    rewrite <-(Forall_lookup_1 _ _ _ _ Hclen Hi). apply has_strings_all.
  - naive_solver.
  - intros x [-> _]. unfold new_multigrid, first_multi_rows. destruct g; simpl in *. subst. by rewrite !length_fmap.
Qed.
End multi_readers.

(** *** Nodes and links *)

Class LinkedSets (Ob : Type) `{Linked Ob} : Prop := {
  values_links_values v v' l (o : Ob) : set_nodevalues v (set_nodelinks l (set_nodevalues v' o)) = set_nodelinks l (set_nodevalues v o);
  links_links l l' (o : Ob) : set_nodelinks l (set_nodelinks l' o) = set_nodelinks l o;
}.
#[local] Instance tree_linked_sets : LinkedSets oph_json_obj_tree.
Proof. by split. Qed.
#[local] Instance graph_linked_sets : LinkedSets oph_json_obj_graph.
Proof. by split. Qed.

(** What a link function of trees (directed) or of graphs does with two nodes. *)
Definition links_nodes `{Linked Ob} (d : bool) (f : Z → Z → cstr → op Ob) : Prop :=
  ∀ a b desc x m, f a b desc x m =
    (if negb (a =? b) && (a + 1 <=? Z.of_nat (length (nodelinks x))) && (b + 1 <=? Z.of_nat (length (nodelinks x))) then
       c ← (if d : bool then mret false else linked_to x b a);
       if c : bool then mret (OPH_JSON_BAD_PARAM_ERROR, x) else
       c ← linked_to x a b;
       if c : bool then mret (OPH_JSON_BAD_PARAM_ERROR, x) else push_link a b desc x
     else mret (OPH_JSON_BAD_PARAM_ERROR, x)) m.

Lemma lookup_empty_links {A} (pre : list (list A)) don r i :
  (length pre < i < length pre + S r)%nat → (pre ++ don :: replicate r []) !! i = Some [].
Proof.
  intros Hi. rewrite lookup_app_r by lia. destruct (i - length pre)%nat as [|j] eqn:Hj; [lia|]. simpl.
  apply lookup_replicate. split; [done|lia].
Qed.

Section linked_readers.
Context `{LinkedLaws Ob, !LinkedSets Ob, ObjKind Ob} (c k : string) (base : oph_json) (os : list Ob).

Definition state (o : Ob) : oph_json := with_objects c k (os ++ [o]) base.
Definition build (v : list row) (l : list oph_json_links) (o : Ob) : Ob := set_nodelinks l (set_nodevalues v o).

Lemma with_node_build ws v l o :
  with_node ws (build v l o) = build (v ++ match ws with Some ws => [filled ws] | None => [] end) (l ++ [[]]) o.
Proof.
  unfold with_node, build. destruct ws as [ws|].
  - by rewrite nodevalues_links, nodevalues_set, values_links_values, nodelinks_set, links_links.
  - by rewrite nodelinks_set, links_links, app_nil_r.
Qed.

Lemma linked_to_false o from to l ts :
  nodelinks o !! Z.to_nat from = Some l → targets l ts → to ∉ ts → linked_to o from to [] = Ok false [].
Proof.
  intros Hl Ht Hto. assert (wp (linked_to o from to) (λ b m, b = false ∧ m = []) []) as Hwp.
  { eapply wp_linked_to; [done..|]. by rewrite bool_decide_eq_false_2. }
  by apply wp_run in Hwp as (b & m & Hr & -> & ->).
Qed.

Section nodes.
Context (ks : list string) (o : Ob) (Hnd : NoDup ks) (Hn2 : nodevalues_num2 o = length ks)
  (addn : option (list cstr) → op oph_json) (Haddn : ∀ vs o o', runs (add_node vs) o o' → runs (addn vs) (state o) (state o')).

Lemma build_nodes_ok v l :
  Forall (row_ok (length ks)) v → (if decide (ks = []) then v = [] else length v = length l) → nodes_ok ks (build v l o).
Proof.
  intros Hv Hl. unfold nodes_ok, build. by rewrite num2_links, num2_values, nodevalues_links, nodevalues_set, nodelinks_set.
Qed.

Lemma rows_filled_ok wss : Forall (λ ws : list string, length ws = length ks) wss → Forall (row_ok (length ks)) (filled <$> wss).
Proof. intros Hw. apply Forall_fmap. eapply Forall_impl; [done|]. intros ws Hl. by exists ws. Qed.

Lemma runs_nodes wss :
  ks ≠ [] → Forall (λ ws, length ws = length ks) wss →
  runs (read_nodes addn (matrix (filled <$> wss))) (state (build [] [] o)) (state (build (filled <$> wss) (replicate (length wss) []) o)).
Proof.
  intros Hks Hw. unfold read_nodes, matrix. cbn [elements]. rewrite <-(list_fmap_compose filled cells).
  refine (runs_for_each_fmap (cells ∘ filled) (λ wss, state (build (filled <$> wss) (replicate (length wss) []) o)) _ wss _).
  intros don ws rest ->. apply Forall_app in Hw as [Hw1 [Hws _]%Forall_cons]. simpl. rewrite cells_filled.
  eapply runs_with_value; [apply read_strs|]. apply runs_generic, Haddn, runs_triple.
  eapply triple_conseq; [apply (triple_add_node False ks _ (Some ws) (build (filled <$> don) (replicate (length don) []) o))|done|].
  - apply build_nodes_ok; [by apply rows_filled_ok|]. rewrite decide_False by done. by rewrite length_fmap, length_replicate.
  - simpl. rewrite <-Hws. apply has_strings_all.
  - naive_solver.
  - intros x [-> _]. by rewrite with_node_build, fmap_app, length_app, replicate_add.
Qed.

Lemma runs_empty_nodes n : ks = [] → runs (empty_nodes addn n) (state (build [] [] o)) (state (build [] (replicate n []) o)).
Proof.
  intros Hks. unfold empty_nodes. rewrite <-(length_seq n 0) at 2.
  refine (runs_for_each (λ don, state (build [] (replicate (length don) []) o)) _ (seq 0 n) _).
  intros don x rest _. apply runs_generic, Haddn, runs_triple. eapply triple_conseq; [apply (triple_add_node False ks None None (build [] (replicate (length don) []) o))|done|].
  - apply build_nodes_ok; [constructor|]. by rewrite decide_True.
  - done.
  - naive_solver.
  - intros y [-> _]. by rewrite with_node_build, length_app, replicate_add.
Qed.
End nodes.

Section links.
Context (d : bool) (full : list oph_json_links) (Hok : links_ok d full) (Hlen : in_i32 (Z.of_nat (length full)))
  (v : list row) (o : Ob) (link : Z → Z → cstr → op Ob) (Hlink : links_nodes d link)
  (addl : Z → Z → cstr → op oph_json)
  (Haddl : ∀ a b desc o o', 0 ≤ a → 0 ≤ b → runs (link a b desc) o o' → runs (addl a b desc) (state o) (state o')).

(** The links of the nodes before [n], and the first ones of node [n]. *)
Definition linked (pre : list oph_json_links) (don : oph_json_links) (r : nat) : Ob := build v (pre ++ don :: replicate r []) o.

Lemma runs_one_link pre don kk more rest :
  full = pre ++ (don ++ kk :: more) :: rest →
  ∃ t, node kk = Some (print_int t) ∧ 0 ≤ t ∧ in_i32 t ∧
    runs (link (Z.of_nat (length pre)) t (link_description kk)) (linked pre don (length rest)) (linked pre (don ++ [kk]) (length rest)).
Proof.
  intros Hf. destruct Hok as (tss & Hts & Hb1 & Hb2).
  assert (full !! length pre = Some (don ++ kk :: more)) as Hpre by (by rewrite Hf, list_lookup_middle).
  destruct (Forall2_lookup_l _ _ _ _ _ Hts Hpre) as (ts & Hts' & Htg). unfold targets in Htg. rewrite fmap_app, fmap_cons in Htg.
  symmetry in Htg. apply fmap_app_inv in Htg as (td & tl & Htd & Htl & ->). symmetry in Htl. apply fmap_cons_inv in Htl as (t & tm & Ht & Htm & ->).
  destruct (Hb1 _ _ Hts') as [Hnd Hb]. destruct (Hb t) as [Hr Hne]; [set_solver|].
  apply NoDup_app in Hnd as (_ & Hdis & _). exists t. split_and!; [done|lia|unfold in_i32 in *; lia|].
  assert (length (nodelinks (linked pre don (length rest))) = length full) as Hl.
  { unfold linked, build. rewrite nodelinks_set, Hf, !length_app. simpl. by rewrite length_replicate. }
  unfold runs. rewrite Hlink, Hl. rewrite (proj2 (Z.eqb_neq _ _)) by lia.
  assert (Z.of_nat (length pre) < Z.of_nat (length full)) by (rewrite Hf, length_app; simpl; lia).
  rewrite (proj2 (Z.leb_le _ _)), (proj2 (Z.leb_le _ _)) by lia. simpl.
  assert (nodelinks (linked pre don (length rest)) !! Z.to_nat (Z.of_nat (length pre)) = Some don) as Hdon.
  { unfold linked, build. by rewrite nodelinks_set, Nat2Z.id, list_lookup_middle. }
  rewrite (bind_run _ _ _ false []); [|destruct d; [done|]].
  - rewrite (bind_run _ _ _ false []); [|apply (linked_to_false _ _ _ don td Hdon); [done|intros Hin; apply (Hdis t Hin); left]].
    apply runs_triple. eapply triple_conseq; [by apply (triple_push_link False _ _ _ don)|done|].
    intros x ->. unfold linked, build. rewrite Nat2Z.id, nodelinks_set, links_links, insert_app_r_alt, Nat.sub_diag by done. simpl.
    destruct kk as [nd ds]. simpl in *. by subst.
  - destruct (lookup_lt_is_Some_2 tss (Z.to_nat t)) as [us Hus]; [rewrite <-(Forall2_length _ _ _ Hts); lia|].
    assert (Z.of_nat (length pre) ∉ us) as Hnin.
    { apply (Hb2 eq_refl (length pre) (Z.to_nat t) _ us Hts' Hus). rewrite Z2Nat.id by lia. set_solver. }
    destruct (decide (Z.to_nat t < length pre)%nat) as [Hlt|Hge].
    + destruct (Forall2_lookup_r _ _ _ _ _ Hts Hus) as (l' & Hl' & Htl'). apply (linked_to_false _ _ _ l' us); [|done|done].
      unfold linked, build. rewrite nodelinks_set, lookup_app_l by done. rewrite Hf, lookup_app_l in Hl' by done. done.
    + apply (linked_to_false _ _ _ [] []); [|done|by intros ?%elem_of_nil].
      unfold linked, build. rewrite nodelinks_set. apply lookup_empty_links.
      rewrite Hf, length_app in Hr. simpl in Hr. unfold oph_json_links in *. lia.
Qed.

Lemma runs_node_links pre ls rest :
  full = pre ++ ls :: rest →
  runs (for_each (read_link addl (length pre)) (link_json <$> ls)) (state (linked pre [] (length rest))) (state (linked pre ls (length rest))).
Proof.
  intros Hf. apply (runs_for_each_fmap link_json (λ don, state (linked pre don (length rest)))).
  intros don kk more ->. destruct (runs_one_link pre don kk more rest Hf) as (t & Ht & Hpos & Hi & Hr).
  unfold read_link. change (link_json kk) with (object link_fields kk). unpack link_fields kk. rewrite (target_string_opt _ 0 (node kk)) by reflexivity.
  rewrite (target_string_opt _ 1 (link_description kk)) by reflexivity. rewrite Ht. cbn [is_null]. unfold runs.
  rewrite (bind_run _ _ _ t []); [apply runs_generic, Haddl; [lia|done|done]|].
  unfold int_of, mbind, C_bind. simpl. rewrite strtol_print, wrap_i32_id by (unfold in_i32, in_i64 in *; lia). done.
Qed.

Lemma runs_links :
  runs (read_links addl 0 (elements (links_json full))) (state (build v (replicate (length full) []) o)) (state (build v full o)).
Proof.
  cbn [elements links_json]. assert (∀ rest pre, full = pre ++ rest →
    runs (read_links addl (length pre) ((λ ls, JArray (link_json <$> ls)) <$> rest))
      (state (build v (pre ++ replicate (length rest) []) o)) (state (build v full o))) as Hgen; [|by apply (Hgen full [])].
  induction rest as [|ls rest IH]; intros pre Hf; simpl; [by rewrite Hf|].
  eapply runs_andthen; [by apply (runs_node_links pre ls rest)|]. unfold linked. rewrite cons_middle, app_assoc.
  replace (S (length pre)) with (length (pre ++ [ls])) by (rewrite length_app; simpl; lia). apply IH. by rewrite <-app_assoc.
Qed.
End links.
End linked_readers.

Lemma runs_copy_keys {S} ks (st : list string → S) push :
  NoDup ks → (∀ ks k, push k (st ks) = st (ks ++ [k])) → runs (copy_keys (Some <$> ks) (length ks) push) (st []) (st ks).
Proof.
  intros Hnd Hp. apply runs_triple.
  eapply triple_conseq; [apply (triple_copy_keys False (λ x, x = st []) (λ ks x, x = st ks) _ _ ks); [apply has_strings_all|done|done|]|done|].
  - intros ks' k s ->. apply Hp.
  - by intros x [_ ->].
Qed.

Section node_readers.
Context (k : string) (base : oph_json) (Hnew : new_key k base).

(** *** Trees *)

Definition bare_tree (t : oph_json_obj_tree) : oph_json_obj_tree := set_rootnode None t.

Lemma runs_tree_body t title :
  tree_title t = Some title → NoDup (tree_nodekeys t) → tree_nodevalues_num2 t = length (tree_nodekeys t) →
  runs (tree_body (tree_description t) (match tree_nodekeys t with [] => None | ks => Some (Some <$> ks) end) (length (tree_nodekeys t)))
    (Tree (Some title) None [] [] 0 None []) (build [] [] (bare_tree t)).
Proof.
  intros Ht Hnd Hn. unfold tree_body. set (st ks := Tree (Some title) (tree_description t) ks [] 0 None []).
  eapply (runs_andthen _ _ _ (st [])); [by destruct (tree_description t)|].
  destruct (tree_nodekeys t) as [|key keys] eqn:Hk.
  - unfold build, bare_tree. destruct t; simpl in *. by subst.
  - eapply (runs_andthen _ _ _ (st (key :: keys))); [by apply runs_copy_keys|]. unfold build, bare_tree. destruct t; simpl in *. by subst.
Qed.

Lemma runs_tree_root (os : list oph_json_obj_tree) t r v l :
  rootnode t = Some (print_int r) → 0 ≤ r →
  runs (_oph_json_set_tree_root (Some k) r) (state OPH_JSON_TREE k base os (build v l (bare_tree t))) (state OPH_JSON_TREE k base os (build v l t)).
Proof.
  intros Hr H0. unfold _oph_json_set_tree_root, runs. rewrite (proj2 (Z.ltb_ge r 0)) by done.
  apply (runs_on_last OPH_JSON_TREE k _ _ _ os); [done|done|]. unfold runs, build, bare_tree. destruct t; simpl in *. by subst.
Qed.

Lemma runs_add_tree os t title :
  tree_title t = Some title → NoDup (tree_nodekeys t) → tree_nodevalues_num2 t = length (tree_nodekeys t) →
  runs (generic (_oph_json_add_tree (Some k) (tree_title t) (tree_description t)
      (match tree_nodekeys t with [] => None | ks => Some (Some <$> ks) end) (Z.of_nat (length (tree_nodekeys t)))))
    (place OPH_JSON_TREE k os base) (state OPH_JSON_TREE k base os (build [] [] (bare_tree t))).
Proof.
  intros Ht Hnd Hn. apply runs_generic. unfold _oph_json_add_tree, runs. rewrite Ht. cbn [is_null orb].
  rewrite (proj2 (Z.ltb_ge _ 0)), Nat2Z.id by lia. cbv iota. apply (runs_add_object OPH_JSON_TREE k title _ _ os _ base Hnew).
  by apply runs_tree_body.
Qed.

Lemma runs_tree_links (os : list oph_json_obj_tree) t v nodes :
  tree_printable t → links_ok true (tree_nodelinks t) →
  runs (nodes (length (tree_nodelinks t))) (state OPH_JSON_TREE k base os v)
    (state OPH_JSON_TREE k base os (build (tree_nodevalues t) (replicate (length (tree_nodelinks t)) []) (bare_tree t))) →
  runs (read_tree_links k (object tree_fields t) nodes) (state OPH_JSON_TREE k base os v) (state OPH_JSON_TREE k base os t).
Proof.
  intros [(r & Hr & H0 & Hi) Hl] Hlk Hn. unfold read_tree_links. unpack tree_fields t.
  rewrite (target_string_opt _ 1 (rootnode t)) by reflexivity. change (target _ 0) with (Some (links_json (tree_nodelinks t))).
  eapply runs_andthen; [|eapply runs_andthen].
  - simpl json_array_size. rewrite length_fmap. exact Hn.
  - unfold runs. rewrite (bind_run _ _ _ r []); [by apply runs_generic, runs_tree_root|]. rewrite Hr. unfold int_of, mbind, C_bind. simpl.
    rewrite strtol_print, wrap_i32_id by (unfold in_i32, in_i64 in *; lia). done.
  - replace (state OPH_JSON_TREE k base os t) with (state OPH_JSON_TREE k base os (build (tree_nodevalues t) (tree_nodelinks t) t)) by (by destruct t).
    apply (runs_links OPH_JSON_TREE k base os true _ Hlk Hl _ t tree_link); [done|].
    intros a b desc o o' Ha Hb Hrun. unfold _oph_json_add_tree_link, runs.
    rewrite (proj2 (Z.ltb_ge a 0)), (proj2 (Z.ltb_ge b 0)) by done. by apply (runs_on_last OPH_JSON_TREE k _ _ _ os).
Qed.

Lemma runs_read_tree os t :
  tree_ok t → tree_printable t →
  runs (read_tree k (object tree_fields t)) (place OPH_JSON_TREE k os base) (with_objects OPH_JSON_TREE k (os ++ [t]) base).
Proof.
  intros ([title Ht] & (Hnd & Hn & Hrows & Hlen) & Hlk) Hp. simpl in Hn, Hrows, Hlen, Hlk. destruct (rows_filled _ _ Hrows) as (wss & Hv & Hw).
  pose proof (runs_add_tree os t title Ht Hnd Hn) as Hadd. pose proof (λ v nodes, runs_tree_links os t v nodes Hp Hlk) as Hlinks.
  assert (∀ vs (o o' : oph_json_obj_tree), runs (add_node vs) o o' → runs (_oph_json_add_tree_node (Some k) vs)
    (state OPH_JSON_TREE k base os o) (state OPH_JSON_TREE k base os o')) as Hnode.
  { intros vs o o' Hrun. unfold _oph_json_add_tree_node, runs. by apply (runs_on_last OPH_JSON_TREE k _ _ _ os). }
  unfold read_tree. unpack tree_fields t. rewrite (target_string_opt _ 0 (tree_title t)) by reflexivity.
  rewrite (target_string_opt _ 1 (tree_description t)) by reflexivity.
  change (target _ 2) with (unless_nil (tree_nodekeys t) (strs (tree_nodekeys t))).
  destruct (tree_nodekeys t) as [|key keys] eqn:Hk; cbn [unless_nil]; cbv iota.
  - eapply runs_andthen; [exact Hadd|]. simpl in Hlen. apply Hlinks. rewrite Hlen. by apply (runs_empty_nodes _ _ _ _ []).
  - eapply runs_with_value; [apply read_strs|]. rewrite size_strs. eapply runs_andthen; [exact Hadd|].
    rewrite section_object by reflexivity.
    change (value_of "nodevalues" (tree_fields t)) with (unless_nil (tree_nodekeys t) (matrix (tree_nodevalues t))).
    rewrite Hk. cbn [unless_nil]. cbv iota. eapply runs_andthen.
    + rewrite Hv. by apply (runs_nodes _ _ _ _ (key :: keys)).
    + apply Hlinks. rewrite Hv. simpl in Hlen. rewrite <-Hlen, Hv, length_fmap. apply runs_ok.
Qed.
End node_readers.

Section graph_readers.
Context (k : string) (base : oph_json) (Hnew : new_key k base) (c : string) (Hc : is_graph c = true).

(** *** Graphs *)

Definition directed : bool := bool_decide (c = OPH_JSON_DGRAPH).

Lemma runs_graph_body g title :
  graph_title g = Some title → NoDup (graph_nodekeys g) → graph_nodevalues_num2 g = length (graph_nodekeys g) →
  runs (graph_body (graph_description g) (match graph_nodekeys g with [] => None | ks => Some (Some <$> ks) end) (length (graph_nodekeys g)))
    (Graph (Some title) None [] [] 0 []) (build [] [] g).
Proof.
  intros Ht Hnd Hn. unfold graph_body. set (st ks := Graph (Some title) (graph_description g) ks [] 0 []).
  eapply (runs_andthen _ _ _ (st [])); [by destruct (graph_description g)|].
  destruct (graph_nodekeys g) as [|key keys] eqn:Hk.
  - unfold build. destruct g; simpl in *. by subst.
  - eapply (runs_andthen _ _ _ (st (key :: keys))); [by apply runs_copy_keys|]. unfold build. destruct g; simpl in *. by subst.
Qed.

Lemma runs_add_graph os g title :
  graph_title g = Some title → NoDup (graph_nodekeys g) → graph_nodevalues_num2 g = length (graph_nodekeys g) →
  runs (generic (_oph_json_add_graph (Some k) (if directed then 1 else 0) (graph_title g) (graph_description g)
      (match graph_nodekeys g with [] => None | ks => Some (Some <$> ks) end) (Z.of_nat (length (graph_nodekeys g)))))
    (place c k os base) (state c k base os (build [] [] g)).
Proof.
  intros Ht Hnd Hn. apply runs_generic. unfold _oph_json_add_graph, runs. rewrite Ht. cbn [is_null orb].
  assert ((if (if directed then 1 else 0) =? 0 then OPH_JSON_GRAPH else OPH_JSON_DGRAPH) = c) as ->.
  { unfold directed. unfold is_graph in Hc. case_bool_decide as Hd; [done|]. simpl in *. apply bool_decide_eq_true in Hc. done. }
  rewrite (proj2 (Z.ltb_ge (Z.of_nat _) 0)), Nat2Z.id by lia.
  assert (((if directed then 1 else 0) <? 0) || (1 <? (if directed then 1 else 0)) = false) as -> by (by destruct directed).
  cbv iota. apply (runs_add_object c k title _ _ os _ base Hnew). by apply runs_graph_body.
Qed.

Lemma graph_link_links : links_nodes (Ob := oph_json_obj_graph) directed (graph_link c).
Proof. by intros a b desc x m. Qed.

Lemma runs_graph_links (os : list oph_json_obj_graph) g v nodes :
  graph_printable g → links_ok directed (graph_nodelinks g) →
  runs (nodes (length (graph_nodelinks g))) (state c k base os v)
    (state c k base os (build (graph_nodevalues g) (replicate (length (graph_nodelinks g)) []) g)) →
  runs (read_graph_links k (object graph_fields g) nodes) (state c k base os v) (state c k base os g).
Proof.
  intros Hl Hlk Hn. unfold read_graph_links. rewrite section_object by reflexivity.
  change (value_of "nodelinks" (graph_fields g)) with (Some (links_json (graph_nodelinks g))).
  eapply runs_andthen.
  - simpl json_array_size. rewrite length_fmap. exact Hn.
  - replace (state c k base os g) with (state c k base os (build (graph_nodevalues g) (graph_nodelinks g) g)) by (by destruct g).
    apply (runs_links c k base os directed _ Hlk Hl _ g (graph_link c) graph_link_links).
    intros a b desc o o' Ha Hb Hrun. unfold _oph_json_add_graph_link, runs.
    rewrite (proj2 (Z.ltb_ge a 0)), (proj2 (Z.ltb_ge b 0)) by done. by apply (runs_on_last c k _ _ _ os).
Qed.

Lemma runs_read_graph os g :
  graph_ok directed g → graph_printable g →
  runs (read_graph (if directed then 1 else 0) k (object graph_fields g)) (place c k os base) (with_objects c k (os ++ [g]) base).
Proof.
  intros ([title Ht] & (Hnd & Hn & Hrows & Hlen) & Hlk) Hp. simpl in Hn, Hrows, Hlen, Hlk. destruct (rows_filled _ _ Hrows) as (wss & Hv & Hw).
  pose proof (runs_add_graph os g title Ht Hnd Hn) as Hadd. pose proof (λ v nodes, runs_graph_links os g v nodes Hp Hlk) as Hlinks.
  assert (∀ vs (o o' : oph_json_obj_graph), runs (add_node vs) o o' → runs (_oph_json_add_graph_node (Some k) vs)
    (state c k base os o) (state c k base os o')) as Hnode.
  { intros vs o o' Hrun. unfold _oph_json_add_graph_node, runs. by apply (runs_on_last c k _ _ _ os). }
  unfold read_graph. unpack graph_fields g. rewrite (target_string_opt _ 0 (graph_title g)) by reflexivity.
  rewrite (target_string_opt _ 1 (graph_description g)) by reflexivity.
  change (target _ 2) with (unless_nil (graph_nodekeys g) (strs (graph_nodekeys g))).
  destruct (graph_nodekeys g) as [|key keys] eqn:Hk; cbn [unless_nil]; cbv iota.
  - eapply runs_andthen; [exact Hadd|]. simpl in Hlen. apply Hlinks. rewrite Hlen. by apply (runs_empty_nodes _ _ _ _ []).
  - eapply runs_with_value; [apply read_strs|]. rewrite size_strs. eapply runs_andthen; [exact Hadd|].
    rewrite section_object by reflexivity.
    change (value_of "nodevalues" (graph_fields g)) with (unless_nil (graph_nodekeys g) (matrix (graph_nodevalues g))).
    rewrite Hk. cbn [unless_nil]. cbv iota. eapply runs_andthen.
    + rewrite Hv. by apply (runs_nodes _ _ _ _ (key :: keys)).
    + apply Hlinks. rewrite Hv. simpl in Hlen. rewrite <-Hlen, Hv, length_fmap. apply runs_ok.
Qed.
End graph_readers.

(** ** Documents *)

Lemma runs_objects {Ob} `{ObjKind Ob} c k base (read : json_t → op oph_json) (h : Ob → json_t) l :
  l ≠ [] → (∀ os o, o ∈ l → runs (read (h o)) (place c k os base) (with_objects c k (os ++ [o]) base)) →
  runs (for_each read (h <$> l)) base (with_objects c k l base).
Proof.
  intros Hne Hr. replace (with_objects c k l base) with (place c k l base) by (by destruct l).
  apply (runs_for_each_fmap h (λ os, place c k os base)). intros don o rest ->. rewrite place_snoc. apply Hr. set_solver.
Qed.

(** The document with the first responses. *)
Definition with_responses (ks : list string) (rs : list oph_json_response) (j : oph_json) : oph_json :=
  set_responseKeyset ks (set_response rs j).

Lemma runs_read_response ks rs j k r :
  Forall2 response_ok ks rs → k ∉ ks → response_ok k r → contents_printable (objcontent r) →
  runs (read_response (object response_fields r)) (with_responses ks rs j) (with_responses (ks ++ [k]) (rs ++ [r]) j).
Proof.
  intros Hrs Hk [Hkey (c & Hc & Hok)] Hp. set (base := with_responses ks rs j). unfold read_response.
  unpack response_fields r. rewrite (target_string_opt _ 0 (objclass r)) by reflexivity. rewrite (target_string_opt _ 1 (objkey r)) by reflexivity.
  change (target _ 2) with (Some (JArray (contents_json (objcontent r)))). rewrite Hc, Hkey. cbv iota. cbn [elements].
  assert (new_key k base) as Hnew.
  { split; [done|]. simpl. apply Forall_lookup. intros i r' Hr'. destruct (Forall2_lookup_r _ _ _ _ _ Hrs Hr') as (k' & Hk' & [Hkk _]).
    exists k'. split; [done|]. intros ->. apply Hk. by eapply list_elem_of_lookup_2. }
  assert (∀ x, objcontent r = x → with_responses (ks ++ [k]) (rs ++ [r]) j =
    set_responseKeyset (ks ++ [k]) (set_response (rs ++ [Response (Some c) (Some k) x]) base)) as Hend.
  { intros x <-. destruct r. simpl in *. by subst. }
  destruct (objcontent r) as [l|l|l|l|l] eqn:Hcont; rewrite (Hend _ eq_refl); destruct Hok as (Hcl & Hne & Hok); simpl in Hp;
    rewrite Forall_forall in Hok; try rewrite Forall_forall in Hp.
  - subst c. refine (runs_objects OPH_JSON_TEXT k base (read_text k) (object text_fields) l Hne _). intros os o Ho. by apply runs_read_text; [|apply Hok].
  - subst c. refine (runs_objects OPH_JSON_GRID k base (read_grid k) (object grid_fields) l Hne _). intros os o Ho. by apply runs_read_grid; [|apply Hok].
  - subst c. refine (runs_objects OPH_JSON_MULTIGRID k base (read_multigrid k) (object multigrid_fields) l Hne _). intros os o Ho. by apply runs_read_multigrid; [|apply Hok|apply Hp].
  - subst c. refine (runs_objects OPH_JSON_TREE k base (read_tree k) (object tree_fields) l Hne _). intros os o Ho. by apply runs_read_tree; [|apply Hok|apply Hp].
  - assert (reader c = Some (read_graph (if directed c then 1 else 0))) as ->.
    { unfold is_graph in Hcl. apply orb_true_iff in Hcl as [->%bool_decide_eq_true| ->%bool_decide_eq_true]; done. }
    refine (runs_objects c k base (read_graph _ k) (object graph_fields) l Hne _). intros os o Ho. by apply runs_read_graph; [| |apply Hok|apply Hp].
Qed.

Lemma runs_read_pairs (add : cstr → cstr → op oph_json) (st : list string → list string → oph_json) ks vs :
  length ks = length vs → NoDup ks →
  (∀ dk dv k v, k ∉ dk → length dk = length dv → runs (add (Some k) (Some v)) (st dk dv) (st (dk ++ [k]) (dv ++ [v]))) →
  runs (read_pairs add (JString <$> ks) (JString <$> vs) None None) (st [] []) (st ks vs).
Proof.
  intros Hl Hnd Hadd. assert (∀ rk rv dk dv x y, ks = dk ++ rk → vs = dv ++ rv → length rk = length rv →
    runs (read_pairs add (JString <$> rk) (JString <$> rv) x y) (st dk dv) (st ks vs)) as Hgen; [|by apply Hgen].
  induction rk as [|k rk IH]; intros [|v rv] dk dv x y -> -> Hlen; try done; [by rewrite !app_nil_r|].
  simpl. eapply runs_andthen.
  - apply runs_generic, Hadd; [|rewrite !length_app in Hl; simpl in *; lia].
    apply NoDup_app in Hnd as (_ & Hd & _). intros Hin. apply (Hd k Hin). left.
  - apply IH; [by rewrite <-app_assoc..|by injection Hlen].
Qed.

Lemma runs_read_details {A} (f : A → list (string * option json_t)) a add (st : list string → list string → oph_json) ks vs :
  bool_decide (NoDup (names (f a))) = true → value_of "keys" (f a) = unless_nil ks (strs ks) →
  value_of "values" (f a) = unless_nil ks (strs vs) → details_ok ks vs →
  (∀ dk dv k v, k ∉ dk → length dk = length dv → runs (add (Some k) (Some v)) (st dk dv) (st (dk ++ [k]) (dv ++ [v]))) →
  runs (read_details (object f a) add) (st [] []) (st ks vs).
Proof.
  intros Hnd Hk Hv [Hn Hl] Hadd. unfold read_details. rewrite unpack_object; [|done|solve_unpack].
  unfold target. simpl. rewrite Hk, Hv. destruct ks as [|k ks]; simpl.
  - destruct vs; [apply runs_ok|done].
  - by apply (runs_read_pairs add st (k :: ks) vs).
Qed.

Lemma runs_add_source_detail s c e dk dv k v :
  k ∉ dk →
  runs (_oph_json_add_source_detail (Some k) (Some v))
    (Json (Some (Source (srckey s) (srcname s) (srcurl s) (src_description s) (producer s) dk dv)) c [] [] e)
    (Json (Some (Source (srckey s) (srcname s) (srcurl s) (src_description s) (producer s) (dk ++ [k]) (dv ++ [v]))) c [] [] e).
Proof.
  intros Hk. unfold runs, _oph_json_add_source_detail. simpl. erewrite bind_run; [|eapply (runs_triple _ _ (Source _ _ _ _ _ (dk ++ [k]) (dv ++ [v])))].
  - done.
  - apply triple_add_detail; by intros x ->.
Qed.

Lemma runs_read_source j :
  (∀ s, source j = Some s → is_Some (srckey s) ∧ is_Some (srcname s) ∧ details_ok (src_keys s) (src_values s)) →
  runs (read_source (doc_json j)) (Json None [] [] [] None) (Json (source j) [] [] [] None).
Proof.
  intros Hok. unfold read_source, doc_json. rewrite section_object by reflexivity.
  change (value_of "source" (doc_fields j)) with (object source_fields <$> source j). destruct (source j) as [s|]; [|done].
  destruct (Hok s eq_refl) as ([k Hk] & [n Hn] & Hd). simpl fmap. cbv iota. unpack source_fields s.
  rewrite (target_string_opt _ 0 (srckey s)), (target_string_opt _ 1 (srcname s)), (target_string_opt _ 2 (srcurl s)),
    (target_string_opt _ 3 (src_description s)), (target_string_opt _ 4 (producer s)) by reflexivity.
  set (st dk dv := Json (Some (Source (srckey s) (srcname s) (srcurl s) (src_description s) (producer s) dk dv)) [] [] [] None).
  eapply (runs_andthen _ _ _ (st [] [])).
  - apply runs_generic. unfold st. rewrite Hk, Hn. by destruct (srcurl s), (src_description s), (producer s).
  - replace (Json (Some s) [] [] [] None) with (st (src_keys s) (src_values s)) by (by destruct s).
    apply runs_read_details; try done. intros dk dv k' v Hk' _. by apply runs_add_source_detail.
Qed.

Lemma runs_add_extra_detail s c e dk dv k v :
  k ∉ dk → (e = None ∧ dk = [] ∧ dv = [] ∨ e = Some (Extra dk dv)) →
  runs (_oph_json_add_extra_detail (Some k) (Some v)) (Json s c [] [] e) (Json s c [] [] (Some (Extra (dk ++ [k]) (dv ++ [v])))).
Proof.
  intros Hk He. unfold runs, _oph_json_add_extra_detail. simpl. rewrite (bind_run _ _ _ (Some (Extra dk dv)) []); [|by destruct He as [(-> & -> & ->)| ->]].
  erewrite bind_run; [|eapply (runs_triple _ _ (Extra (dk ++ [k]) (dv ++ [v])))]; [done|]. apply triple_add_detail; by intros x ->.
Qed.

Lemma runs_read_extra j s :
  (∀ e, extra j = Some e → details_ok (extra_keys e) (extra_values e)) → (∀ e, extra j = Some e → extra_keys e ≠ []) →
  runs (read_extra (doc_json j)) (Json s [] [] [] None) (Json s [] [] [] (extra j)).
Proof.
  intros Hok Hne. unfold read_extra, doc_json. rewrite section_object by reflexivity.
  change (value_of "extra" (doc_fields j)) with (object (λ e, details_fields (extra_keys e) (extra_values e)) <$> extra j).
  destruct (extra j) as [e|]; [|done]. simpl fmap. cbv iota.
  set (st (dk dv : list string) := Json s [] [] [] (match dk with [] => None | _ => Some (Extra dk dv) end)).
  assert (∀ dk dv k v, k ∉ dk → length dk = length dv → runs (_oph_json_add_extra_detail (Some k) (Some v)) (st dk dv) (st (dk ++ [k]) (dv ++ [v]))) as Hadd.
  { intros dk dv k v Hk Hl. unfold st. replace (match dk ++ [k] with [] => None | _ => Some (Extra (dk ++ [k]) (dv ++ [v])) end) with
      (Some (Extra (dk ++ [k]) (dv ++ [v]))) by (by destruct dk). apply runs_add_extra_detail; [done|]. destruct dk, dv; naive_solver. }
  replace (Some e) with (match extra_keys e with [] => None | _ => Some (Extra (extra_keys e) (extra_values e)) end).
  - apply (runs_read_details _ e _ st); auto.
  - specialize (Hne e eq_refl). destruct e as [[|]]; done.
Qed.

Lemma runs_read_consumers j s e :
  NoDup (consumers j) → runs (read_consumers (doc_json j)) (Json s [] [] [] e) (Json s (consumers j) [] [] e).
Proof.
  intros Hnd. unfold read_consumers, doc_json. rewrite section_object by reflexivity.
  change (value_of "consumers" (doc_fields j)) with (unless_nil (consumers j) (strs (consumers j))).
  destruct (decide (consumers j = [])) as [->|Hne]; [done|].
  replace (unless_nil (consumers j) (strs (consumers j))) with (Some (strs (consumers j))) by (by destruct (consumers j)).
  cbn [elements strs]. assert (∀ rest don x, consumers j = don ++ rest →
    runs (read_consumer (JString <$> rest) x) (Json s don [] [] e) (Json s (consumers j) [] [] e)) as Hgen; [|by apply Hgen].
  induction rest as [|w rest IH]; intros don x Hd; simpl; [by rewrite Hd, app_nil_r|].
  eapply (runs_andthen _ _ _ (Json s (don ++ [w]) [] [] e)); [|apply IH; by rewrite <-app_assoc].
  apply runs_generic, runs_triple. rewrite Hd in Hnd. apply NoDup_app in Hnd as (_ & Hdis & _).
  apply triple_add_string; [by intros y -> _|]. intros y -> Hin. apply (Hdis w Hin). left.
Qed.

Lemma runs_read_responses j base :
  doc_ok j → Forall (λ r, contents_printable (objcontent r)) (response j) → responseKeyset base = [] → response base = [] →
  runs (read_responses (doc_json j)) base (with_responses (responseKeyset j) (response j) base).
Proof.
  intros Hok Hp Hb1 Hb2. unfold read_responses, doc_json. rewrite section_object by reflexivity.
  change (value_of "response" (doc_fields j)) with (unless_nil (response j) (JArray (object response_fields <$> response j))).
  pose proof (do_responses j Hok) as Hrs. pose proof (do_keys j Hok) as Hnd.
  assert (runs (for_each read_response (object response_fields <$> response j)) base (with_responses (responseKeyset j) (response j) base)) as Hr.
  { replace base with (with_responses (take (length (@nil oph_json_response)) (responseKeyset j)) [] base) at 1 by (destruct base; simpl in *; by subst).
    rewrite <-(firstn_all (responseKeyset j)), (Forall2_length _ _ _ Hrs).
    refine (runs_for_each_fmap (object response_fields) (λ don, with_responses (take (length don) (responseKeyset j)) don base) _ (response j) _).
    intros don r rest Hd. assert (response j !! length don = Some r) as Hlk by (by rewrite Hd, list_lookup_middle).
    destruct (Forall2_lookup_r _ _ _ _ _ Hrs Hlk) as (k & Hk & Hro). rewrite length_app, Nat.add_1_r, (take_S_r _ _ _ Hk).
    apply runs_read_response; [| |done|by eapply Forall_lookup_1 in Hp].
    - replace don with (take (length don) (response j)) at 2 by (by rewrite Hd, take_app_length). by apply Forall2_take.
    - rewrite <-(take_drop_middle _ _ _ Hk) in Hnd. apply NoDup_app in Hnd as (_ & Hdis & _). intros Hin. apply (Hdis k Hin). left. }
  destruct (response j) as [|r rs]; [|exact Hr]. exact Hr.
Qed.

Lemma runs_read_document j :
  printable j → runs (read_document (doc_json j)) (Json None [] [] [] None) j.
Proof.
  intros [Hok Hp He]. eapply runs_andthen; [by apply runs_read_source, do_source|].
  eapply runs_andthen; [by apply runs_read_extra; [apply do_extra|]|]. eapply runs_andthen; [by apply runs_read_consumers, do_consumers|].
  replace j with (with_responses (responseKeyset j) (response j) (Json (source j) (consumers j) [] [] (extra j))) at 5 by (by destruct j).
  by apply runs_read_responses.
Qed.

Lemma print_then_read `{JanssonLaws} (j : oph_json) :
  printable j → json_valid (doc_json j) = true →
  _oph_json_to_json_string (Some j) [] = Ok (OPH_JSON_SUCCESS, Some (json_dumps (doc_json j))) [] ∧
  _oph_json_from_json_string (Some (json_dumps (doc_json j))) [] = Ok (OPH_JSON_SUCCESS, Some j) [].
Proof.
  intros Hp Hv. split; [by apply to_json_string_doc|].
  pose proof (loads_dumps _ Hv) as Hl. unfold _oph_json_from_json_string.
  rewrite (bind_run _ _ _ (OPH_JSON_SUCCESS, Some (Json None [] [] [] None)) []) by done. cbv beta iota.
  unfold doc_json, object in Hl |- *. rewrite Hl. by rewrite (bind_run _ _ _ _ _ (runs_read_document j Hp)).
Qed.

(** ** Properties *)

(** C17: a printable document (well formed; trees with a root, multidimensional grids with as
    many types as keys) whose strings are UTF-8 is printed, and reading the text gives the same
    document back, whatever objects it has. *)
Theorem json_print_read `{JanssonLaws} (j : oph_json) :
  printable j → json_valid (doc_json j) = true →
  ∃ text, _oph_json_to_json_string (Some j) [] = Ok (OPH_JSON_SUCCESS, Some text) [] ∧
          _oph_json_from_json_string (Some text) [] = Ok (OPH_JSON_SUCCESS, Some j) [].
Proof. intros Hp Hv. eexists. by apply print_then_read. Qed.

Lemma bind_ub_l {A B} (c : C A) (f : A → C B) m : c m = UB → (c ≫= f) m = UB.
Proof. unfold mbind, C_bind. by intros ->. Qed.

Lemma andthen_ub {S} (f g : op S) a : f a [] = UB → andthen f g a [] = UB.
Proof. apply bind_ub_l. Qed.

Lemma on_last_ub `{ObjKind Ob} c k accept absent f (os : list Ob) o base :
  new_key k base → accept c = true → f c o [] = UB → on_last k accept absent f (with_objects c k (os ++ [o]) base) [] = UB.
Proof.
  intros [Hk Hrs] Ha Hf. unfold on_last. rewrite bool_decide_eq_false_2 by (simpl; by destruct (response base)).
  change (response (with_objects c k ?l base)) with (response base ++ [Response (Some c) (Some k) (wrap l)]).
  rewrite (bind_run _ _ _ _ _ (find_last_key c k (response base) 0 _ _ Hrs)), Ha. simpl.
  rewrite (bind_run _ _ _ (Response (Some c) (Some k) (wrap (os ++ [o]))) []) by (by rewrite lookup_app_r, Nat.sub_diag).
  rewrite (bind_run _ _ _ c []) by done. unfold on_content. simpl.
  rewrite (bind_run _ _ _ (Response (Some c) (Some k) (wrap (os ++ [o]))) []) by (by rewrite lookup_app_r, Nat.sub_diag).
  rewrite (bind_run _ _ _ (os ++ [o]) []) by (simpl; by rewrite unwrap_wrap). rewrite last_snoc. by apply bind_ub_l, bind_ub_l.
Qed.

(** A row that is shorter than the table is read behind its end. *)
Lemma fill_row_short {S} ws n (set_row : row → S → S) s : (length ws < n)%nat → fill_row (Some <$> ws) n set_row s [] = UB.
Proof.
  intros Hn. apply bind_ub_l.
  assert (∀ d i (r : row), (i + d = n)%nat → (i ≤ length ws)%nat →
    for_each (λ k r, v ← deref ((Some <$> ws) !! k); p ← strdup v; mret (rc_of p, <[k := p]> r)) (seq i d) r [] = UB) as Hgen.
  { induction d as [|d IH]; intros i r Hi Hl; [lia|]. simpl. unfold andthen. unfold mbind at 1, C_bind at 1.
    rewrite list_lookup_fmap. destruct (ws !! i) as [w|] eqn:Hw.
    - pose proof (lookup_lt_Some _ _ _ Hw). simpl. apply IH; lia.
    - done. }
  apply Hgen; lia.
Qed.

Definition short_grid (t : string) (ks ts ws : list string) : oph_json_obj_grid := Grid (Some t) None ks ts [filled ws] (length ks).
Definition short_doc (k t : string) (ks ts ws : list string) : oph_json :=
  Json None [] [k] [Response (Some OPH_JSON_GRID) (Some k) (Grids [short_grid t ks ts ws])] None.

(** a text with a table of which a row is shorter than the list of its keys makes the
    reader leave the array of the row: [_oph_json_add_grid_row] copies as many cells as the
    table has keys, while the array has as many as the row in the text. *)
Theorem short_row_read_ub `{Jansson} (text k t : string) (ks ts ws : list string) :
  json_loads text = Some (doc_json (short_doc k t ks ts ws)) →
  NoDup ks → Forall (λ t, t ∈ json_types) ts → length ts = length ks → (length ws < length ks)%nat →
  _oph_json_from_json_string (Some text) [] = UB.
Proof.
  intros Hl Hnd Hty Hlen Hws. unfold _oph_json_from_json_string.
  rewrite (bind_run _ _ _ (OPH_JSON_SUCCESS, Some (Json None [] [] [] None)) []) by done. cbv beta iota. rewrite Hl.
  set (base := Json None [] [] [] None). set (g := short_grid t ks ts ws). assert (ks ≠ []) as Hne by (destruct ks; simpl in *; [lia|done]).
  assert (read_response (object response_fields (Response (Some OPH_JSON_GRID) (Some k) (Grids [g]))) base [] = UB) as Hub.
  { change (read_response _ base) with (andthen (read_grid k (object grid_fields g)) ok (place OPH_JSON_GRID k (@nil oph_json_obj_grid) base)).
    apply andthen_ub. rewrite (read_grid_head k base) with (t := t) by (first [done | by split; [intros ?%elem_of_nil|constructor]]).
    change (read_grid_rows k (object grid_fields g)) with (andthen (read_grid_row k (cells (filled ws))) ok).
    apply andthen_ub. rewrite cells_filled. unfold read_grid_row. erewrite with_value_run by (apply read_strs).
    apply bind_ub_l, (on_last_ub OPH_JSON_GRID k _ _ _ []); [by split; [intros ?%elem_of_nil|constructor]|done|]. by apply fill_row_short. }
  change (read_document (doc_json (short_doc k t ks ts ws)) base)
    with (andthen (read_response (object response_fields (Response (Some OPH_JSON_GRID) (Some k) (Grids [g])))) ok base).
  by apply bind_ub_l, andthen_ub.
Qed.

(** ** A library with the law

    Every text of this instance is the binary code of a tree. *)
Fixpoint to_tree (v : json_t) : gen_tree string :=
  match v with
  | JObject fs => GenNode 0 (flat_map (λ f, [GenLeaf f.1; to_tree f.2]) fs)
  | JArray l => GenNode 1 (map to_tree l)
  | JString s => GenNode 2 [GenLeaf s]
  | JScalar s => GenNode 3 [GenLeaf s]
  end.

Fixpoint of_tree (t : gen_tree string) : json_t :=
  match t with
  | GenNode 0 ts =>
      JObject ((fix pairs ts :=
        match ts with
        | GenLeaf k :: t :: ts' => (k, of_tree t) :: pairs ts'
        | _ => []
        end) ts)
  | GenNode 1 ts => JArray (map of_tree ts)
  | GenNode 2 [GenLeaf s] => JString s
  | GenNode _ [GenLeaf s] => JScalar s
  | _ => JScalar EmptyString
  end.

Lemma of_to_tree : ∀ v, of_tree (to_tree v) = v.
Proof.
  fix IH 1. intros [fs|l|s|s]; simpl; [f_equal|f_equal|done|done].
  - revert fs. fix IHf 1. intros [|[k v] fs]; simpl; [done|]. f_equal; [by rewrite IH|]. apply IHf.
  - revert l. fix IHl 1. intros [|v l]; simpl; [done|]. f_equal; [apply IH|apply IHl].
Qed.

Fixpoint bits (p : positive) : string :=
  match p with
  | xH => EmptyString
  | xO p => String "0"%char (bits p)
  | xI p => String "1"%char (bits p)
  end.
Fixpoint of_bits (s : string) : positive :=
  match s with
  | String c s => if bool_decide (c = "1"%char) then xI (of_bits s) else xO (of_bits s)
  | EmptyString => xH
  end.
Lemma of_bits_bits p : of_bits (bits p) = p.
Proof. induction p; simpl; congruence. Qed.

#[local] Instance coded_jansson : Jansson :=
  {| utf8 _ := true; json_dumps v := bits (encode (to_tree v)); json_loads s := of_tree <$> decode (of_bits s) |}.
#[local] Instance coded_jansson_laws : JanssonLaws.
Proof.
  intros fs _. change (of_tree <$> decode (of_bits (bits (encode (to_tree (JObject fs))))) = Some (JObject fs)).
  rewrite of_bits_bits, decode_encode. apply (f_equal Some (of_to_tree (JObject fs))).
Qed.

(** A document with a text, a table, a tree and a graph. *)
Definition sample_doc : oph_json :=
  Json (Some (Source (Some "oph") (Some "Ophidia") None None None ["Session"] ["1"])) ["admin"]
    ["status"; "list"; "tree"; "graph"]
    [Response (Some OPH_JSON_TEXT) (Some "status") (Texts [Text (Some "OK") (Some "done")]);
     Response (Some OPH_JSON_GRID) (Some "list") (Grids [Grid (Some "Cubes") None ["id"; "name"] ["int"; "string"] [[Some "1"; Some "a"]; [Some "2"; Some "b"]] 2]);
     Response (Some OPH_JSON_TREE) (Some "tree") (Trees [Tree (Some "T") None [] [] 0 (Some (print_int 0)) [[Link (Some (print_int 1)) None]; []]]);
     Response (Some OPH_JSON_GRAPH) (Some "graph") (Graphs [Graph (Some "G") None ["n"] [[Some "x"]; [Some "y"]] 1 [[]; [Link (Some (print_int 0)) (Some "l")]]])]
    None%string.

Lemma sample_doc_printable : printable sample_doc.
Proof.
  split; [split; simpl| |done].
  6: { constructor; [done|]. constructor; [done|]. constructor; [constructor; [|constructor]; split; [by exists 0|done]|].
       constructor; [constructor; [done|constructor]|constructor]. }
  - constructor.
    { split; [done|]. eexists. split; [done|]. split_and!; [done|done|]. constructor; [by eexists|constructor]. }
    constructor.
    { split; [done|]. eexists. split; [done|]. split_and!; [done|done|]. constructor; [|constructor]. split; simpl.
      - by eexists.
      - split; [by apply (bool_decide_eq_true_1 (NoDup ["id"; "name"]%string))|done].
      - split; [|done]. by apply (bool_decide_eq_true_1 (Forall (λ t, t ∈ json_types) ["int"; "string"]%string)).
      - done.
      - constructor; [by exists ["1"; "a"]%string|]. constructor; [by exists ["2"; "b"]%string|constructor]. }
    constructor.
    { split; [done|]. eexists. split; [done|]. split_and!; [done|done|]. constructor; [|constructor]. split_and!.
      - by eexists.
      - split_and!; [constructor|done|constructor|done].
      - exists [[1]; []]. split_and!.
        + constructor; [done|]. constructor; [done|constructor].
        + intros [|[|i]] ts Hi; simplify_eq/=; (split; [first [apply NoDup_singleton|constructor]|]); [|by intros ? ?%elem_of_nil].
          intros t ->%list_elem_of_singleton. done.
        + done. }
    constructor; [|constructor]. split; [done|]. eexists. split; [done|]. split_and!; [done|done|]. constructor; [|constructor]. split_and!.
    + by eexists.
    + split_and!; [apply NoDup_singleton|done| |done]. constructor; [by exists ["x"]%string|]. constructor; [by exists ["y"]%string|constructor].
    + exists [[]; [0]]. split_and!.
      * constructor; [done|]. constructor; [done|constructor].
      * intros [|[|i]] ts Hi; simplify_eq/=; (split; [first [apply NoDup_singleton|constructor]|]); [by intros ? ?%elem_of_nil|].
        intros t ->%list_elem_of_singleton. done.
      * intros _ i j ts us Hi Hj Hin Hin'. destruct i as [|[|i]]; simplify_eq/=; [by apply elem_of_nil in Hin|].
        destruct j as [|[|j]]; simplify_eq/=; [by apply elem_of_nil in Hin'|]. by apply list_elem_of_singleton in Hin.
  - by apply (bool_decide_eq_true_1 (NoDup ["status"; "list"; "tree"; "graph"]%string)).
  - apply NoDup_singleton.
  - intros s [= <-]. split_and!; [by eexists|by eexists|]. split; [apply NoDup_singleton|done].
  - done.
Qed.

Lemma json_print_read_witness :
  ∃ text, _oph_json_to_json_string (Some sample_doc) [] = Ok (OPH_JSON_SUCCESS, Some text) [] ∧
          _oph_json_from_json_string (Some text) [] = Ok (OPH_JSON_SUCCESS, Some sample_doc) [].
Proof. apply (json_print_read sample_doc); [exact sample_doc_printable|vm_compute; reflexivity]. Defined.

Lemma short_row_read_ub_witness :
  _oph_json_from_json_string (Some (json_dumps (doc_json (short_doc "k" "t" ["a"; "b"] ["int"; "int"] ["1"])))) [] = UB.
Proof.
  apply (short_row_read_ub _ "k" "t" ["a"; "b"] ["int"; "int"] ["1"])%string.
  - apply loads_dumps. vm_compute. reflexivity.
  - by apply (bool_decide_eq_true_1 (NoDup ["a"; "b"]%string)).
  - by apply (bool_decide_eq_true_1 (Forall (λ t, t ∈ json_types) ["int"; "int"]%string)).
  - done.
  - simpl. lia.
Defined.
End JsonRound.
