(* ===== verification/WfLoad.v ===== *)
(** * Loading a workflow document ([src/src/oph_workflow/oph_workflow_parsing.c])

    [oph_workflow_load] removes the comments of a text ([_oph_workflow_skip_comments]), reads
    it with the JSON library (the class [Jansson] of [JsonText]), copies the global members,
    builds the tasks with their arguments, dependencies and variables, adds the final task,
    and distributes the global values over the tasks
    ([_oph_workflow_substitute_var], [_oph_workflow_substitute_cube]).

    The function works on [*workflow]; on every error the structure is released and the
    pointer left dangling, so that an error is only its code here ([inl] in the monad [W]
    of [JsonText]).  The three arrays of arguments of a task are one list, as in
    [WfStructs].

    Theorem: the comments are removed and nothing else, for texts in which they are
    closed.  What loading delivers is in [WfReady]. *)

From Stdlib Require Ascii.
From stdpp Require Import base gmap strings numbers pretty list.
From S2P Require Import Prelude CString HashTbl Trash WfStructs WfSetup WfDag WfFlow Auth WfVars JsonDoc JsonText.
Import (notations) Stdlib.Strings.Ascii.
Import HashTbl WfStructs WfSetup JsonText.

Module WfLoad.

#[local] Open Scope Z_scope.
#[local] Open Scope cstr_scope.
#[local] Open Scope json_text_scope.

(** ** Comments *)

Definition quote : ascii := "034".
Definition backslash : ascii := "\".
Definition newline : ascii := "010".

(** [invalue], [flag] and the characters written so far, the last one first. *)
Record scanner : Type := Scan {
  invalue : bool;
  flag : Z;
  written : list ascii;
}.

(** The case analysis on a character outside quotes: the new flag, [print], [drop], and
    whether the character is written at once (the lines of a comment are kept). *)
Definition comment_flag (flag : Z) (c : ascii) : Z * bool * bool * bool :=
  if c =c "/" then
    if flag =? 0 then (1, true, false, false)
    else if flag =? 1 then (4, true, true, false)
    else if flag =? 3 then (0, false, false, false)
    else (flag, true, false, false)
  else if c =c "*" then
    if flag =? 1 then (2, true, true, false)
    else if flag =? 2 then (3, true, false, false)
    else if flag =? 3 then (2, true, false, false)
    else (flag, true, false, false)
  else if c =c newline then
    if flag =? 1 then (0, true, false, false)
    else if flag =? 2 then (2, true, false, true)
    else if flag =? 3 then (2, true, false, false)
    else if flag =? 4 then (0, true, false, false)
    else (flag, true, false, false)
  else
    if flag =? 1 then (0, true, false, false)
    else if flag =? 3 then (2, true, false, false)
    else (flag, true, false, false).

(** [result[j++] = c] in a buffer of [1 + size] characters *)
Definition put (size : nat) (c : ascii) (w : list ascii) : C (list ascii) :=
  assertC (bool_decide (length w < 1 + size)%nat);; mret (c :: w).

(** One round of the loop; [prev] is [json_string[i - 1]]. *)
Definition scan_char (size : nat) (prev : option ascii) (st : scanner) (c : ascii) : C scanner :=
  let escaped := match prev with Some p => p =c backslash | None => false end in
  let invalue := if (c =c quote) && negb escaped then negb (invalue st) else invalue st in
  let '(flag, print, drop, line) :=
    if invalue then (flag st, true, false, false) else comment_flag (flag st) c in
  w ← (if line : bool then put size c (written st) else mret (written st));
  w ← (if print && (flag <? 2) then put size c w else mret w);
  mret (Scan invalue flag (if drop : bool then tail w else w)).

Fixpoint scan_text (size : nat) (prev : option ascii) (st : scanner) (s : string) : C scanner :=
  match s with
  | EmptyString => mret st
  | String c s' => st ← scan_char size prev st c; scan_text size (Some c) st s'
  end.

(** The characters of the buffer. *)
Fixpoint text_of (w : list ascii) (acc : string) : string :=
  match w with
  | [] => acc
  | c :: w' => text_of w' (String c acc)
  end.

Definition _oph_workflow_skip_comments (json_string : cstr) : C (Z * cstr) :=
  match json_string with
  | None => mret (OPH_WORKFLOW_EXIT_BAD_PARAM_ERROR, None)
  | Some s =>
      let size := String.length s in
      ok ← malloc;
      if negb ok then mret (OPH_WORKFLOW_EXIT_MEMORY_ERROR, None) else
      st ← scan_text size None (Scan false 0 []) s;
      w ← put size "000" (written st);
      if negb (flag st =? 0) then mret (OPH_WORKFLOW_EXIT_GENERIC_ERROR, None)
      else mret (OPH_WORKFLOW_EXIT_SUCCESS, Some (text_of (tail w) EmptyString))
  end.

(** ** Constants *)

Definition OPH_WORKFLOW_STATUS_PENDING : Z := 1.
Definition OPH_WORKFLOW_YES : string := "yes".
Definition OPH_WORKFLOW_NO : string := "no".
Definition OPH_WORKFLOW_NOP : string := "nop".
Definition OPH_WORKFLOW_SKIP : string := "skip".
Definition OPH_WORKFLOW_CONTINUE : string := "continue".
Definition OPH_WORKFLOW_BREAK : string := "break".
Definition OPH_WORKFLOW_REPEAT : string := "repeat".
Definition OPH_WORKFLOW_ABORT : string := "abort".
Definition OPH_WORKFLOW_DELETE : string := "oph_delete".
Definition OPH_WORKFLOW_DELETECONTAINER : string := "oph_deletecontainer".
Definition OPH_WORKFLOW_EXIT_ACTION_NOP : Z := 0.
Definition OPH_WORKFLOW_EXIT_ACTION_DELETE : Z := 1.
Definition OPH_WORKFLOW_EXIT_ACTION_DELETECONTAINER : Z := 2.
Definition OPH_WORKFLOW_CLASSIC : string := "classic".
Definition OPH_WORKFLOW_COMPACT : string := "compact".
Definition OPH_WORKFLOW_ROOT_FOLDER : string := "/".
Definition OPH_TYPE_OPHIDIA : string := "ophidia".
Definition OPH_TYPE_CDO : string := "cdo".
Definition OPH_TYPE_GENERIC : string := "generic".
Definition OPH_TYPE_CONTROL : string := "control".
Definition OPH_ARG_COMMAND : string := "command".
Definition OPH_OPERATOR_WAIT : string := "oph_wait".
Definition OPH_OPERATOR_SET : string := "oph_set".
Definition OPH_OPERATOR_RESUME_PARAMETER_NO : string := "no".
Definition OPH_OPERATOR_RESUME_PARAMETER_ALL : string := "all".
Definition OPH_OPERATOR_RESUME_PARAMETER_LAST : string := "last".
Definition OPH_WORKFLOW_MIN_STRING : nat := WfVars.OPH_WORKFLOW_MIN_STRING.

(** ** Helpers *)

(** Equality of texts, as [!strcmp(a, b)] of strings that exist. *)
Definition eqs (a b : string) : bool := bool_decide (a = b).

(** [strdup] with the check that follows it. *)
Definition dup (s : cstr) : W cstr :=
  c ← strdup s;
  match c with None => wfail OPH_WORKFLOW_EXIT_MEMORY_ERROR | Some _ => wret c end.

(** The allocation of an array, with its check. *)
Definition calloc : W unit :=
  ok ← malloc; if ok : bool then wret () else wfail OPH_WORKFLOW_EXIT_MEMORY_ERROR.

(** [(int) strtol(s, NULL, 10)] *)
Definition numeric (s : string) : Z := wrap_i32 (strtol s).

(** [snprintf(buf, OPH_WORKFLOW_MIN_STRING, "%d", z)] *)
Definition int_text (z : Z) : string := truncate OPH_WORKFLOW_MIN_STRING (print_int z).

(** The targets of [json_unpack(v, "{s?s,s?s,...}", ...)], by key. *)
Fixpoint position (key : string) (keys : list string) : nat :=
  match keys with
  | [] => 0%nat
  | k :: keys' => if eqs k key then 0%nat else S (position key keys')
  end.
Definition unpack_strings (v : json_t) (keys : list string) (key : string) : cstr :=
  target_string (json_unpack v (pair FString <$> keys)) (position key keys).

Definition members : Type := string → cstr.
Definition get (g : members) (key : string) : cstr := g key.

(** [json_unpack(v, "{s?o}", key, &o)] *)
Definition unpack_value (v : json_t) (key : string) : option json_t := target (json_unpack v [(FValue, key)]) 0.

(** A text that is null or empty leaves the default, another one has to be an option. *)
Fixpoint option_of (s : string) (opts : list (string * Z)) : option Z :=
  match opts with
  | [] => None
  | (k, z) :: opts' => if eqs s k then Some z else option_of s opts'
  end.
Definition choice (x : cstr) (opts : list (string * Z)) (dflt : Z) : W Z :=
  match x with
  | Some (String _ _ as s) =>
      match option_of s opts with
      | Some z => wret z
      | None => wfail OPH_WORKFLOW_EXIT_BAD_PARAM_ERROR
      end
  | _ => wret dflt
  end.
Definition yes_no : list (string * Z) := [(OPH_WORKFLOW_NO, 0); (OPH_WORKFLOW_YES, 1)].

(** [if (x && strlen(x)) field = strdup(x)] *)
Definition copy_text {R} (set : cstr → R → R) (x : cstr) (r : R) : W R :=
  match x with
  | Some (String _ _) => let! c := dup x in wret (set c r)
  | _ => wret r
  end.

(** A label of a checkpoint must not be one of the words of the operator resume. *)
Definition reserved_label (x : cstr) : bool :=
  match x with
  | Some s => eqs s OPH_OPERATOR_RESUME_PARAMETER_NO || eqs s OPH_OPERATOR_RESUME_PARAMETER_ALL
              || eqs s OPH_OPERATOR_RESUME_PARAMETER_LAST
  | None => false
  end.

Fixpoint wmapi {X Y} (f : nat → X → W Y) (i : nat) (l : list X) : W (list Y) :=
  match l with
  | [] => wret []
  | x :: l' => let! y := f i x in let! ys := wmapi f (S i) l' in wret (y :: ys)
  end.

(** ** The workflow and its global members *)

Definition new_workflow : oph_workflow :=
  set_wf_idjob (-1) (set_wf_markerid (-1) (set_wf_status OPH_WORKFLOW_STATUS_PENDING
    (set_workflowid (-1) (set_wf_run 1 zero_workflow)))).

Definition _oph_workflow_alloc : W oph_workflow := let! _ := calloc in wret new_workflow.

Definition global_keys : list string :=
  ["name"; "author"; "abstract"; "sessionid"; "exec_mode"; "ncores"; "cwd"; "cdd"; "cube"; "callback_url";
   "on_error"; "command"; "on_exit"; "run"; "output_format"; "host_partition"; "url"; "nhost"; "nthreads";
   "project"; "save"; "checkpoint"; "direct_output"]%string.

Definition copy_number (set : Z → oph_workflow → oph_workflow) (x : cstr) (wf : oph_workflow) : oph_workflow :=
  match x with Some s => set (numeric s) wf | None => wf end.

(** [oph_direct_output] is a setting of the server. *)
Definition load_globals (oph_direct_output : Z) (g : members) (wf : oph_workflow) : W oph_workflow :=
  match get g "name" with
  | None => wfail OPH_WORKFLOW_EXIT_BAD_PARAM_ERROR
  | Some _ =>
      let! nm := dup (get g "name") in
      let wf := set_wf_name nm wf in
      let! wf := copy_text set_author (get g "author") wf in
      let! wf := copy_text set_abstract (get g "abstract") wf in
      let! wf := copy_text set_url (get g "url") wf in
      let! wf := copy_text set_sessionid (get g "sessionid") wf in
      let! wf := copy_text set_exec_mode (get g "exec_mode") wf in
      let wf := copy_number set_wf_ncores (get g "ncores") wf in
      let wf := copy_number set_wf_nhosts (get g "nhost") wf in
      let wf := copy_number set_wf_nthreads (get g "nthreads") wf in
      let! wf := copy_text set_project (get g "project") wf in
      let! wf := copy_text set_cwd (get g "cwd") wf in
      let! wf := copy_text set_cdd (get g "cdd") wf in
      let! wf := copy_text set_cube (get g "cube") wf in
      let! wf := copy_text set_callback_url (get g "callback_url") wf in
      let! wf := copy_text set_command (get g "command") wf in
      let! wf := copy_text set_wf_on_error (get g "on_error") wf in
      let! wf := copy_text set_wf_on_exit (get g "on_exit") wf in
      if reserved_label (get g "checkpoint") then wfail OPH_WORKFLOW_EXIT_BAD_PARAM_ERROR else
      let! wf := copy_text set_wf_checkpoint (get g "checkpoint") wf in
      let! z := choice (get g "run") yes_no 1 in
      let wf := set_wf_run z wf in
      let! z := choice (get g "save") yes_no 1 in
      let wf := set_wf_save z wf in
      let! z := choice (get g "output_format") [(OPH_WORKFLOW_COMPACT, 1); (OPH_WORKFLOW_CLASSIC, 0)] 0 in
      let wf := set_output_format z wf in
      let! z := choice (get g "direct_output") yes_no oph_direct_output in
      let wf := set_direct_output z wf in
      copy_text set_host_partition (get g "host_partition") wf
  end.
(** ** Tasks *)

(** *** Name, operator and type *)

Definition task_keys : list string :=
  ["name"; "operator"; "on_error"; "on_exit"; "run"; "save"; "type"; "checkpoint"]%string.

(** The operators of a task of type control, without their prefix. *)
Definition control_operator (o : string) : bool :=
  existsb (eqs ("oph_" +:+ o))
    [WfFlow.OPH_OPERATOR_FOR; WfFlow.OPH_OPERATOR_ENDFOR; WfFlow.OPH_OPERATOR_IF; WfFlow.OPH_OPERATOR_ELSEIF;
     WfFlow.OPH_OPERATOR_ELSE; WfFlow.OPH_OPERATOR_ENDIF; OPH_OPERATOR_WAIT; OPH_OPERATOR_SET].

Definition load_type (k : members) (t : oph_workflow_task) : W oph_workflow_task :=
  match get k "type" with
  | Some ty =>
      if negb (existsb (eqs ty) [OPH_TYPE_OPHIDIA; OPH_TYPE_CDO; OPH_TYPE_GENERIC; OPH_TYPE_CONTROL])
      then wfail OPH_WORKFLOW_EXIT_BAD_PARAM_ERROR else
      c ← strdup (Some ty);
      o ← deref (operator t);
      if eqs ty OPH_TYPE_CONTROL && negb (control_operator o) then wfail OPH_WORKFLOW_EXIT_BAD_PARAM_ERROR else
      match c with None => wfail OPH_WORKFLOW_EXIT_MEMORY_ERROR | Some _ => wret (set_type c t) end
  | None => let! c := dup (Some OPH_TYPE_OPHIDIA) in wret (set_type c t)
  end.

Definition load_names (k : members) (t : oph_workflow_task) : W oph_workflow_task :=
  match get k "name", get k "operator" with
  | Some _, Some _ =>
      let! nm := dup (get k "name") in
      let! o := dup (get k "operator") in
      load_type k (set_operator o (set_name nm t))
  | _, _ => wfail OPH_WORKFLOW_EXIT_BAD_PARAM_ERROR
  end.

(** *** Arguments *)

Definition null_argument : argument := Arg None None [].

(** The key ends at the first ['=']; an element that is not a text leaves null pointers. *)
Definition load_argument (v : json_t) : W argument :=
  match unpack_string (Some v) None with
  | None => wret null_argument
  | Some s =>
      let (key, rest) := span_str (λ c, c =c "=") s in
      match rest with
      | EmptyString => wfail OPH_WORKFLOW_EXIT_BAD_PARAM_ERROR
      | String _ value =>
          let! k := dup (Some key) in
          let! w := dup (Some value) in
          wret (Arg k w [])
      end
  end.

Definition load_arguments (v : json_t) (t : oph_workflow_task) : W oph_workflow_task :=
  match unpack_value v "arguments" with
  | None => wret t
  | Some a =>
      if (json_array_size (Some a) =? 0)%nat then wret t else
      let! _ := calloc in let! _ := calloc in let! _ := calloc in
      let! args := wmapi (λ _, load_argument) 0 (elements a) in
      wret (set_arguments args t)
  end.

(** *** Dependencies *)

Definition dep_keys : list string :=
  ["argument"; "order"; "task"; "type"; "filter"; "output_argument"; "output_order"]%string.

Definition load_dep_type (k : members) : W cstr :=
  match get k "type" with
  | Some ty =>
      if negb (existsb (eqs ty) ["all"; "single"; "embedded"]%string) then wfail OPH_WORKFLOW_EXIT_BAD_PARAM_ERROR
      else dup (Some ty)
  | None => dup (Some (if get k "argument" then "all" else "embedded")%string)
  end.

(** [auto_order] counts the dependencies without an order. *)
Definition load_dep (st : list oph_workflow_dep * Z) (v : json_t) : W (list oph_workflow_dep * Z) :=
  let '(ds, auto_order) := st in
  let k := unpack_strings v dep_keys in
  match get k "task" with
  | None => wfail OPH_WORKFLOW_EXIT_BAD_PARAM_ERROR
  | Some _ =>
      let! nm := dup (get k "task") in
      let! ar := dup (Some (default "cube"%string (get k "argument"))) in
      let '(order, auto_order) := match get k "order" with
                                  | Some o => (o, auto_order)
                                  | None => (int_text auto_order, auto_order + 1)
                                  end in
      let! od := dup (Some order) in
      let! ty := load_dep_type k in
      let! fl := dup (Some (default "all"%string (get k "filter"))) in
      let! oa := dup (Some (default "cube"%string (get k "output_argument"))) in
      let! oo := dup (Some (default "0"%string (get k "output_order"))) in
      wret (ds ++ [Dep ar od nm 0 ty fl oa oo], auto_order)
  end.

Definition load_deps (v : json_t) (t : oph_workflow_task) : W oph_workflow_task :=
  match unpack_value v "dependencies" with
  | None => wret t
  | Some a =>
      let t := set_residual_deps_num (Z.of_nat (json_array_size (Some a))) t in
      if (json_array_size (Some a) =? 0)%nat then wret t else
      let! _ := calloc in
      let! st := wfold load_dep ([], 0) (elements a) in
      wret (set_deps st.1 t)
  end.

(** *** Variables *)

Definition var_keys : list string := ["key"; "svalue"; "ivalue"]%string.

(** One round of the loop; each failure, a key that is there already included, ends it. *)
Definition load_variable (i : Z) (vars : option (HASHTBL oph_workflow_var)) (v : json_t) :
    C (ctl (option (HASHTBL oph_workflow_var)) (option (HASHTBL oph_workflow_var))) :=
  let k := unpack_strings v var_keys in
  match get k "key" with
  | None => mret (Next vars)
  | Some key =>
      let ivalue := match get k "ivalue" with Some s => numeric s | None => 1 end in
      sv ← strdup (Some (default (int_text ivalue) (get k "svalue")));
      match sv with
      | None => mret (Break vars)
      | Some sv =>
          ok ← malloc;
          if negb ok then mret (Break vars) else
          tbl ← deref vars;
          '(rc, tbl) ← hashtbl_insert_with_size tbl key (Var i sv ivalue) (WfVars.sizeof_var + (String.length sv + 1));
          mret (if rc =? 0 then Next (Some tbl) else Break (Some tbl))
      end
  end.

Definition load_variables (tasks_num : nat) (i : Z) (v : json_t) (t : oph_workflow_task) : C oph_workflow_task :=
  tbl ← hashtbl_create tasks_num None;
  match unpack_value v "variables" with
  | None => mret (set_vars tbl t)
  | Some a =>
      r ← loopC (load_variable i) tbl (elements a);
      mret (set_vars (match r with Next tbl => tbl | Break tbl => tbl end) t)
  end.

(** *** What to do in case of error and at the end *)

(** [while ( *s == ' ') s++] *)
Fixpoint skip_blanks (s : string) : string :=
  match s with
  | String c s' => if c =c " " then skip_blanks s' else s
  | EmptyString => EmptyString
  end.

(** [*s] as a [char] *)
Definition first_char (s : string) : Z :=
  match s with String c _ => WfFlow.wrap_i8 (Z.of_N (Ascii.N_of_ascii c)) | EmptyString => 0 end.

(** The text after [repeat]: the number of retries, the time to wait, the kind of wait. *)
Definition load_backoff (s : string) (t : oph_workflow_task) : oph_workflow_task :=
  match strchr (skip_blanks s) " " with
  | None => t
  | Some space =>
      let space := skip_blanks space in
      let t := set_backoff_time (numeric space) t in
      match strchr space " " with
      | None => t
      | Some space => set_backoff_type (first_char (skip_blanks space)) t
      end
  end.

Definition load_error_action (s : string) (t : oph_workflow_task) : W oph_workflow_task :=
  if eqs s OPH_WORKFLOW_SKIP then wret (set_retry_num (-1) t)
  else if eqs s OPH_WORKFLOW_CONTINUE then wret (set_retry_num 0 t)
  else if eqs s OPH_WORKFLOW_BREAK || eqs s OPH_WORKFLOW_ABORT then wret (set_retry_num 1 t)
  else if strncmp0 s OPH_WORKFLOW_REPEAT (String.length OPH_WORKFLOW_REPEAT) then
    let s := WfVars.drop_str (String.length OPH_WORKFLOW_REPEAT) s in
    assertC (numeric s <? 2 ^ 31 - 1);;
    if 1 + numeric s <? 1 then wfail OPH_WORKFLOW_EXIT_BAD_PARAM_ERROR
    else wret (load_backoff s (set_retry_num (1 + numeric s) t))
  else wfail OPH_WORKFLOW_EXIT_BAD_PARAM_ERROR.

(** Without an own text the text of the workflow counts. *)
Definition own_or_global (g k : members) (key : string) : cstr :=
  match get k key with None => get g key | Some s => Some s end.

(** The own text is copied if it is not empty. *)
Definition load_on_error (oph_base_backoff : Z) (g k : members) (t : oph_workflow_task) : W oph_workflow_task :=
  let t := set_backoff_time (wrap_i32 oph_base_backoff) (set_retry_num 1 t) in
  let! t := copy_text set_on_error (get k "on_error") t in
  let! t := match own_or_global g k "on_error" with
            | None => wret t
            | Some s => load_error_action s t
            end in
  wret (set_residual_retry_num (retry_num t) t).

Definition load_exit_action (s : string) (t : oph_workflow_task) : W oph_workflow_task :=
  if eqs s EmptyString || eqs s OPH_WORKFLOW_NOP then wret (set_exit_action OPH_WORKFLOW_EXIT_ACTION_NOP t)
  else if eqs s OPH_WORKFLOW_DELETE then wret (set_exit_action OPH_WORKFLOW_EXIT_ACTION_DELETE t)
  else if eqs s OPH_WORKFLOW_DELETECONTAINER then wret (set_exit_action OPH_WORKFLOW_EXIT_ACTION_DELETECONTAINER t)
  else wfail OPH_WORKFLOW_EXIT_BAD_PARAM_ERROR.

Definition load_on_exit (g k : members) (t : oph_workflow_task) : W oph_workflow_task :=
  let t := set_exit_action OPH_WORKFLOW_EXIT_ACTION_NOP t in
  let! t := copy_text set_on_exit (get k "on_exit") t in
  match own_or_global g k "on_exit" with
  | None => wret t
  | Some s => load_exit_action s t
  end.

(** *** Flags and checkpoint *)

(** Without an own label, the code copies the own one, null, if the workflow has one. *)
Definition load_checkpoint (wf_checkpoint : cstr) (k : members) (t : oph_workflow_task) : W oph_workflow_task :=
  match get k "checkpoint" with
  | Some (String _ _) =>
      if reserved_label (get k "checkpoint") then wfail OPH_WORKFLOW_EXIT_BAD_PARAM_ERROR else
      c ← strdup (get k "checkpoint"); wret (set_checkpoint c t)
  | _ =>
      match wf_checkpoint with
      | Some _ => c ← strdup (get k "checkpoint"); wret (set_checkpoint c t)
      | None => wret t
      end
  end.

Definition load_task (oph_base_backoff : Z) (tasks_num : nat) (wf_checkpoint : cstr) (g : members) (i : nat) (v : json_t) :
    W oph_workflow_task :=
  let k := unpack_strings v task_keys in
  let! t := load_names k zero_task in
  let! t := load_arguments v t in
  let! t := load_deps v t in
  t ← load_variables tasks_num (Z.of_nat i) v t;
  let! t := load_on_error oph_base_backoff g k t in
  let! t := load_on_exit g k t in
  let t := set_outputs_file (-1) t in
  let! z := choice (own_or_global g k "run") yes_no 1 in
  let t := set_run z t in
  let! z := choice (own_or_global g k "save") yes_no 1 in
  let t := set_save z t in
  let t := set_parallel_mode 0 (set_nesting_level 0 (set_child (-1) (set_parent (-1) t))) in
  load_checkpoint wf_checkpoint k t.

Definition final_task (g : members) : W oph_workflow_task :=
  let! z := choice (get g "run") yes_no 1 in
  wret (set_parallel_mode 0 (set_nesting_level 0 (set_exit_action 0
         (set_child (-1) (set_parent (-1) (set_retry_num (-1) (set_run z zero_task))))))).
(** ** Distribution of the global values *)

Definition is_text (c : cstr) (s : string) : C bool := strcmp0 c (Some s).

(** The position of the first argument with the key. *)
Fixpoint find_key (key : string) (args : list argument) : C (option nat) :=
  match args with
  | [] => mret None
  | a :: args' =>
      b ← is_text (arg_key a) key;
      if b : bool then mret (Some 0%nat) else
      r ← find_key key args'; mret (S <$> r)
  end.

(** An argument at the end of the arrays, which exist or not. *)
Definition add_argument (key value : string) (t : oph_workflow_task) : W oph_workflow_task :=
  let! _ := calloc in let! _ := calloc in let! _ := calloc in
  let! k := dup (Some key) in
  let! v := dup (Some value) in
  wret (set_arguments (arguments t ++ [Arg k v []]) t).

(** The arrays without argument [j]: the other arguments with a key are moved down. *)
Definition has_arg_key (a : argument) : bool := match arg_key a with Some _ => true | None => false end.
Definition without_argument (j : nat) (args : list argument) : list argument :=
  let kept := List.filter has_arg_key (<[j := null_argument]> args) in
  kept ++ replicate (length args - 1 - length kept) null_argument.

(** The third array is used without a check of its allocation. *)
Definition remove_argument (j : nat) (t : oph_workflow_task) : W oph_workflow_task :=
  let! _ := calloc in
  let! _ := calloc in
  ok ← malloc;
  assertC (ok || (length (arguments t) - 1 =? 0)%nat);;
  wret (set_arguments (without_argument j (arguments t)) t).

(** The resources: a task without arguments gets the hosts as threads. *)
Definition resource_of_empty (key : string) (z : Z) (t : oph_workflow_task) : option oph_workflow_task :=
  if eqs key "ncores" then Some (set_ncores z t)
  else if eqs key "nhost" then Some (set_nthreads z t)
  else if eqs key "nthreads" then Some (set_nthreads z t)
  else None.
Definition resource (key : string) (z : Z) (t : oph_workflow_task) : option oph_workflow_task :=
  if eqs key "ncores" then Some (set_ncores z t)
  else if eqs key "nhost" then Some (set_nhosts z t)
  else if eqs key "nthreads" then Some (set_nthreads z t)
  else None.

Definition substitute_task (key value : string) (t : oph_workflow_task) : W oph_workflow_task :=
  if bool_decide (arguments t = []) then
    match resource_of_empty key (numeric value) t with
    | Some t => wret t
    | None => add_argument key value t
    end
  else
    j ← find_key key (arguments t);
    match j with
    | Some j =>
        a ← deref (arguments t !! j);
        if bool_decide (is_Some (resource key 0 t)) then
          v ← deref (arg_value a);
          match resource key (numeric v) t with
          | Some t => remove_argument j t
          | None => wret t
          end
        else wret t
    | None =>
        match resource key (numeric value) t with
        | Some t => wret t
        | None => add_argument key value t
        end
    end.

Definition on_task (f : oph_workflow_task → W oph_workflow_task) (ts : list oph_workflow_task) (i : nat) :
    W (list oph_workflow_task) :=
  t ← deref (ts !! i); let! t := f t in wret (<[i := t]> ts).

(** The loop runs over the final task too. *)
Definition _oph_workflow_substitute_var (key : string) (value : cstr) (tasks : list oph_workflow_task) (tasks_num : nat) :
    W (list oph_workflow_task) :=
  match value with
  | None => wfail OPH_WORKFLOW_EXIT_BAD_PARAM_ERROR
  | Some v =>
      if (tasks_num =? 0)%nat then wfail OPH_WORKFLOW_EXIT_BAD_PARAM_ERROR
      else wfold (on_task (substitute_task key v)) tasks (seq 0 (S tasks_num))
  end.

(** Is every dependency embedded? *)
Fixpoint embedded_only (ds : list oph_workflow_dep) : C bool :=
  match ds with
  | [] => mret true
  | d :: ds' => b ← is_text (dep_type d) "embedded"; if b : bool then embedded_only ds' else mret false
  end.

Definition substitute_cube_task (pid : string) (t : oph_workflow_task) : W oph_workflow_task :=
  found ← (if bool_decide (arguments t = []) then mret None else find_key "cube" (arguments t));
  match found with
  | Some _ => wret t
  | None =>
      ok ← embedded_only (deps t);
      if ok : bool then add_argument "cube" pid t else wret t
  end.

Definition _oph_workflow_substitute_cube (pid : cstr) (tasks : list oph_workflow_task) (tasks_num : nat) :
    W (list oph_workflow_task) :=
  match pid with
  | None => wfail OPH_WORKFLOW_EXIT_BAD_PARAM_ERROR
  | Some pid =>
      if (tasks_num =? 0)%nat then wfail OPH_WORKFLOW_EXIT_BAD_PARAM_ERROR
      else wfold (on_task (substitute_cube_task pid)) tasks (seq 0 tasks_num)
  end.

(** The caller reports each error of these functions as a generic one. *)
Definition generic {A} (c : W A) : W A :=
  r ← c; mret (match r with inl _ => inl OPH_WORKFLOW_EXIT_GENERIC_ERROR | inr a => inr a end).

(** A resource that is not set yet is read from the arguments; it cannot be negative. *)
Definition finalize_task (key : string) (get_resource : oph_workflow_task → Z) (set : Z → oph_workflow_task → oph_workflow_task)
    (t : oph_workflow_task) : W oph_workflow_task :=
  t ← (if negb (get_resource t =? 0) then mret t else
       j ← find_key key (arguments t);
       match j with
       | None => mret t
       | Some j => a ← deref (arguments t !! j); v ← deref (arg_value a); mret (set (numeric v) t)
       end);
  if get_resource t <? 0 then wfail OPH_WORKFLOW_EXIT_GENERIC_ERROR else wret t.

(** Distribution of a number, and the loop after it. *)
Definition distribute_number (key : string) (z : Z) (get_resource : oph_workflow_task → Z)
    (set : Z → oph_workflow_task → oph_workflow_task) (n : nat) (ts : list oph_workflow_task) : W (list oph_workflow_task) :=
  let! ts := if z =? 0 then wret ts else generic (_oph_workflow_substitute_var key (Some (int_text z)) ts n) in
  wfold (on_task (finalize_task key get_resource set)) ts (seq 0 n).

Definition distribute (wf : oph_workflow) : W oph_workflow :=
  let n := tasks_num wf in
  let! ts := distribute_number "ncores" (wf_ncores wf) ncores set_ncores n (tasks wf) in
  let! ts := distribute_number "nhost" (wf_nhosts wf) nhosts set_nhosts n ts in
  let! ts := distribute_number "nthreads" (wf_nthreads wf) nthreads set_nthreads n ts in
  let! ts := match project wf with
             | None => wret ts
             | Some _ => generic (_oph_workflow_substitute_var "project" (project wf) ts n)
             end in
  w ← (match cwd wf with None => strdup (Some OPH_WORKFLOW_ROOT_FOLDER) | Some _ => mret (cwd wf) end);
  let wf := set_cwd w wf in
  let! ts := generic (_oph_workflow_substitute_var "cwd" (cwd wf) ts n) in
  d ← (match cdd wf with None => strdup (Some OPH_WORKFLOW_ROOT_FOLDER) | Some _ => mret (cdd wf) end);
  let wf := set_cdd d wf in
  let! ts := generic (_oph_workflow_substitute_var "cdd" (cdd wf) ts n) in
  let! ts := match cube wf with
             | None => wret ts
             | Some _ => generic (_oph_workflow_substitute_cube (cube wf) ts n)
             end in
  wret (set_tasks ts wf).

(** ** Operators of other kinds *)

(** [oph_realloc_vector] twice and [oph_realloc_vector2]: one cell more, null; a null array
    is refused. *)
Definition realloc_vectors (t : oph_workflow_task) : W oph_workflow_task :=
  if bool_decide (arguments t = []) then wfail OPH_WORKFLOW_EXIT_MEMORY_ERROR else
  let! _ := calloc in let! _ := calloc in let! _ := calloc in
  wret (set_arguments (arguments t ++ [null_argument]) t).

(** [asprintf(&tmp, "oph_%s", s)] becomes the operator, the type moves to [rtype]. *)
Definition retype (s : cstr) (t : oph_workflow_task) : W oph_workflow_task :=
  s ← deref s;
  ok ← malloc;
  if negb ok then wfail OPH_WORKFLOW_EXIT_MEMORY_ERROR else
  ty ← strdup (Some OPH_TYPE_OPHIDIA);
  wret (set_type ty (set_rtype (type t) (set_operator (Some ("oph_" +:+ s)) t))).

Definition adapt_task (t : oph_workflow_task) : W oph_workflow_task :=
  ty ← deref (type t);
  if eqs ty OPH_TYPE_CDO || eqs ty OPH_TYPE_GENERIC then
    let kk := length (arguments t) in
    let! t := realloc_vectors t in
    k ← strdup (Some OPH_ARG_COMMAND);
    v ← strdup (operator t);
    retype (type t) (set_arguments (<[kk := Arg k v []]> (arguments t)) t)
  else if eqs ty OPH_TYPE_CONTROL then retype (operator t) t
  else wret t.

(** ** The whole *)

Section load.
Context `{Jansson} (oph_base_backoff oph_direct_output : Z).

Definition load_tasks (g : members) (v : json_t) (wf : oph_workflow) : W oph_workflow :=
  match unpack_value v "tasks" with
  | None => wfail OPH_WORKFLOW_EXIT_GENERIC_ERROR
  | Some a =>
      let n := json_array_size (Some a) in
      if (n =? 0)%nat then wfail OPH_WORKFLOW_EXIT_BAD_PARAM_ERROR else
      let! _ := calloc in
      tbl ← hashtbl_create n None;
      let! ts := wmapi (load_task oph_base_backoff n (wf_checkpoint wf) g) 0 (elements a) in
      let! f := final_task g in
      wret (set_tasks (ts ++ [f]) (set_wf_vars tbl (set_residual_tasks_num (Z.of_nat n) (set_tasks_num n wf))))
  end.

(** What follows [json_loads]. *)
Definition load_tree (v : json_t) (wf : oph_workflow) : W oph_workflow :=
  let g := unpack_strings v global_keys in
  let! wf := load_globals oph_direct_output g wf in
  let! wf := load_tasks g v wf in
  let! wf := distribute wf in
  let! ts := wfold (on_task adapt_task) (tasks wf) (seq 0 (tasks_num wf)) in
  wret (set_tasks ts wf).

Definition oph_workflow_load (json_string username ip_address : cstr) : W oph_workflow :=
  match json_string, username with
  | Some _, Some _ =>
      let! wf := generic _oph_workflow_alloc in
      let! u := dup username in
      let wf := set_username u wf in
      ip ← strdup_opt ip_address;
      let wf := set_ip_address ip wf in
      '(rc, clean) ← _oph_workflow_skip_comments json_string;
      match (if rc =? 0 then clean else None) with
      | None => wfail OPH_WORKFLOW_EXIT_BAD_PARAM_ERROR
      | Some clean =>
          match json_loads clean with
          | None => wfail OPH_WORKFLOW_EXIT_GENERIC_ERROR
          | Some v => load_tree v wf
          end
      end
  | _, _ => wfail OPH_WORKFLOW_EXIT_BAD_PARAM_ERROR
  end.
End load.

(** ** Comments: theorems *)

(** The loop without its bounds. *)
Definition next_state (prev : option ascii) (st : scanner) (c : ascii) : scanner :=
  let escaped := match prev with Some p => p =c backslash | None => false end in
  let invalue := if (c =c quote) && negb escaped then negb (invalue st) else invalue st in
  let '(flag, print, drop, line) := if invalue then (flag st, true, false, false) else comment_flag (flag st) c in
  let w := if line : bool then c :: written st else written st in
  let w := if print && (flag <? 2) then c :: w else w in
  Scan invalue flag (if drop : bool then tail w else w).

Fixpoint run_states (prev : option ascii) (st : scanner) (s : string) : scanner :=
  match s with
  | EmptyString => st
  | String c s' => run_states (Some c) (next_state prev st c) s'
  end.

Lemma scan_char_run size prev st c m :
  (length (written st) < size)%nat →
  scan_char size prev st c m = Ok (next_state prev st c) m ∧
  (length (written (next_state prev st c)) ≤ S (length (written st)))%nat.
Proof.
  intros Hw. unfold scan_char, next_state. set (iv := if _ && _ then _ else _).
  destruct (if iv then _ else _) as [[[f pr] dr] ln] eqn:Hf.
  assert (ln = true → (f <? 2) = false) as Hln.
  { intros ->. destruct iv; [by simplify_eq|]. unfold comment_flag in Hf. by repeat case_match; simplify_eq. }
  assert (∀ w, (length w ≤ size)%nat → put size c w m = Ok (c :: w) m) as Hput.
  { intros w Hl. unfold put. by rewrite (bool_decide_eq_true_2 (length w < 1 + size)%nat) by lia. }
  destruct ln.
  - rewrite Hln, andb_false_r by done. rewrite (bind_run _ _ _ _ _ (Hput _ (Nat.lt_le_incl _ _ Hw))). split; [done|]. destruct dr; simpl; lia.
  - destruct (pr && (f <? 2)).
    + unfold mbind at 1, C_bind at 1. cbn. rewrite (bind_run _ _ _ _ _ (Hput _ (Nat.lt_le_incl _ _ Hw))). split; [done|]. destruct dr; simpl; lia.
    + split; [done|]. destruct dr, (written st); simpl; lia.
Qed.

Lemma scan_text_run size s prev st m :
  (length (written st) + String.length s ≤ size)%nat →
  scan_text size prev st s m = Ok (run_states prev st s) m ∧ (length (written (run_states prev st s)) ≤ size)%nat.
Proof.
  revert prev st. induction s as [|c s IH]; intros prev st Hl; simpl in *; [split; [done|lia]|].
  destruct (scan_char_run size prev st c m) as [Hr Hw]; [lia|]. rewrite (bind_run _ _ _ _ _ Hr). apply IH. lia.
Qed.

(** What the function does with enough memory: the loop fits the buffer for every text. *)
Lemma skip_comments_run s m :
  _oph_workflow_skip_comments (Some s) (true :: m) =
  Ok (let st := run_states None (Scan false 0 []) s in
      if negb (flag st =? 0) then (OPH_WORKFLOW_EXIT_GENERIC_ERROR, None)
      else (OPH_WORKFLOW_EXIT_SUCCESS, Some (text_of (written st) EmptyString))) m.
Proof.
  unfold _oph_workflow_skip_comments. rewrite (bind_run _ _ _ true m) by done. cbv beta iota delta [negb].
  destruct (scan_text_run (String.length s) s None (Scan false 0 []) m) as [Hr Hl]; [simpl; lia|].
  rewrite (bind_run _ _ _ _ _ Hr), (bind_run _ _ _ (("000"%char) :: written (run_states None (Scan false 0 []) s)) m).
  - cbv zeta beta. unfold negb. by destruct (flag _ =? 0).
  - unfold put. by rewrite (bool_decide_eq_true_2 (length _ < 1 + _)%nat) by lia.
Qed.

(** The buffer is large enough for every text. *)
Lemma skip_comments_returns s m :
  wp (_oph_workflow_skip_comments (Some s)) (λ r m', (r.1 = OPH_WORKFLOW_EXIT_SUCCESS ↔ is_Some r.2) ∧ (reliable m → reliable m')) m.
Proof.
  assert (∀ m', wp (_oph_workflow_skip_comments (Some s)) (λ r m'', (r.1 = OPH_WORKFLOW_EXIT_SUCCESS ↔ is_Some r.2) ∧ m'' = m') (true :: m')) as Hok.
  { intros m'. unfold wp. rewrite skip_comments_run. split; [|done]. cbv zeta. unfold negb. destruct (flag _ =? 0); simpl; [by split|]. split; [done|by intros []]. }
  destruct m as [|[] m].
  - apply (wp_mono _ _ _ _ (Hok [])). naive_solver.
  - apply (wp_mono _ _ _ _ (Hok m)). intros r m' [Hr ->]. split; [done|]. by intros [_ ?]%Forall_cons.
  - unfold wp. simpl. split; [split; [done|by intros []]|]. by intros [? _]%Forall_cons.
Qed.

(** A text as the pieces a reader sees. *)
Inductive piece : Type :=
| Code (c : ascii)
| Quoted (body : string)
| LineComment (body : string)
| BlockComment (p : string) (ps : list string).

(** The pieces of a block comment are separated by stars. *)
Fixpoint starred (ps : list string) : string :=
  match ps with
  | [] => EmptyString
  | p :: ps' => String "*" (p +:+ starred ps')
  end.

Definition piece_text (x : piece) : string :=
  match x with
  | Code c => String c EmptyString
  | Quoted b => String quote (b +:+ String quote EmptyString)
  | LineComment b => "//" +:+ b +:+ String newline EmptyString
  | BlockComment p ps => "/*" +:+ p +:+ starred ps +:+ "*/"
  end.

Definition is_newline (c : ascii) : bool := c =c newline.
Fixpoint newlines (s : string) : string :=
  match s with
  | EmptyString => EmptyString
  | String c s' => if is_newline c then String c (newlines s') else newlines s'
  end.

(** Comments go, the ends of their lines stay. *)
Definition piece_code (x : piece) : string :=
  match x with
  | LineComment _ => String newline EmptyString
  | BlockComment p ps => newlines (p +:+ starred ps)
  | _ => piece_text x
  end.

Fixpoint pieces (f : piece → string) (l : list piece) : string :=
  match l with
  | [] => EmptyString
  | x :: l' => f x +:+ pieces f l'
  end.

(** The body of a quoted text: each quote in it is escaped, its end is not. *)
Fixpoint quoted_ok (prev : ascii) (b : string) : bool :=
  match b with
  | EmptyString => negb (prev =c backslash)
  | String c b' => (negb (c =c quote) || (prev =c backslash)) && quoted_ok c b'
  end.

Definition block_char (c : ascii) : bool := negb ((c =c quote) || (c =c "*")).
Definition all_of (p : ascii → bool) (s : string) : bool := none_of (λ c, negb (p c)) s.
Definition star_piece (p : string) : bool :=
  match p with
  | EmptyString => false
  | String c _ => negb ((c =c "/") || (c =c newline)) && all_of block_char p
  end.

Definition piece_ok (x : piece) : bool :=
  match x with
  | Code c => negb ((c =c quote) || (c =c "/") || (c =c backslash))
  | Quoted b => quoted_ok quote b
  | LineComment b => all_of (λ c, negb ((c =c quote) || (c =c newline))) b
  | BlockComment p ps => all_of block_char p && forallb star_piece ps
  end.

Definition sample_pieces : list piece :=
  [Code "{"; LineComment " first"; Quoted "a//b\n/*c*/"; BlockComment " x" [" y"; "z" ]; Code "}"].

(** Characters written one after the other. *)
Fixpoint written_after (s : string) (w : list ascii) : list ascii :=
  match s with
  | EmptyString => w
  | String c s' => written_after s' (c :: w)
  end.

Lemma written_after_app s1 s2 w : written_after (s1 +:+ s2) w = written_after s2 (written_after s1 w).
Proof. revert w. induction s1 as [|c s1 IH]; intros w; [done|]. rewrite app_str_cons. simpl. apply IH. Qed.

Lemma text_of_written s w acc : text_of (written_after s w) acc = text_of w (s +:+ acc).
Proof. revert w. induction s as [|c s IH]; intros w; [done|]. simpl. rewrite IH. done. Qed.

Lemma run_quoted b prev w rest :
  quoted_ok prev b = true →
  run_states (Some prev) (Scan true 0 w) (b +:+ String quote rest) =
  run_states (Some quote) (Scan false 0 (written_after (b +:+ String quote EmptyString) w)) rest.
Proof.
  revert prev w. induction b as [|c b IH]; intros prev w Hok; simpl in Hok.
  - rewrite !app_str_nil. simpl. unfold next_state. apply negb_true_iff in Hok. by rewrite Hok.
  - apply andb_true_iff in Hok as [Hc Hb]. rewrite !app_str_cons. cbn [run_states written_after]. rewrite <-(IH _ _ Hb). f_equal.
    unfold next_state. destruct (c =c quote); [|done]. simpl in Hc. by rewrite Hc.
Qed.

Lemma all_of_cons p c s : all_of p (String c s) = p c && all_of p s.
Proof. unfold all_of. simpl. by rewrite negb_involutive. Qed.

(** Inside a line comment nothing is written. *)
Lemma run_line b prev w rest :
  all_of (λ c, negb ((c =c quote) || (c =c newline))) b = true →
  run_states prev (Scan false 4 w) (b +:+ String newline rest) = run_states (Some newline) (Scan false 0 (newline :: w)) rest.
Proof.
  revert prev. induction b as [|c b IH]; intros prev; [done|]. rewrite all_of_cons, andb_true_iff, negb_true_iff, orb_false_iff.
  intros [[Hq Hn] Hb]. rewrite app_str_cons. cbn [run_states]. rewrite <-(IH (Some c) Hb). f_equal.
  unfold next_state. rewrite Hq. simpl. unfold comment_flag. rewrite Hn. by repeat case_match; simplify_eq.
Qed.

(** Inside a block comment only the ends of lines are. *)
Lemma run_block p prev w rest :
  all_of block_char p = true →
  ∃ prev', run_states prev (Scan false 2 w) (p +:+ rest) = run_states prev' (Scan false 2 (written_after (newlines p) w)) rest.
Proof.
  revert prev w. induction p as [|c p IH]; intros prev w; [by exists prev|]. rewrite all_of_cons, andb_true_iff. intros [Hc Hp].
  destruct (IH (Some c) (written_after (newlines (String c EmptyString)) w) Hp) as [q Hq]. exists q. rewrite app_str_cons. cbn [run_states].
  unfold block_char in Hc. apply negb_true_iff, orb_false_iff in Hc as [Hqu Hst].
  assert (next_state prev (Scan false 2 w) c = Scan false 2 (written_after (newlines (String c EmptyString)) w)) as ->.
  { unfold next_state. rewrite Hqu. simpl. unfold comment_flag, is_newline. rewrite Hst. destruct (c =c "/") eqn:Hsl; [|by destruct (c =c newline)].
    apply Ascii.eqb_eq in Hsl as ->. done. }
  rewrite Hq. f_equal. f_equal. simpl. by destruct (is_newline c).
Qed.

Lemma newlines_app s1 s2 : newlines (s1 +:+ s2) = newlines s1 +:+ newlines s2.
Proof. induction s1 as [|c s1 IH]; [done|]. rewrite app_str_cons. simpl. rewrite IH. by destruct (is_newline c). Qed.

(** A star and what follows it, up to the next star. *)
Lemma run_star p prev w rest :
  star_piece p = true →
  ∃ prev', run_states prev (Scan false 2 w) (String "*" (p +:+ rest)) = run_states prev' (Scan false 2 (written_after (newlines p) w)) rest.
Proof.
  destruct p as [|c p]; [done|]. cbn [star_piece]. rewrite andb_true_iff, negb_true_iff, orb_false_iff, all_of_cons, andb_true_iff.
  intros [[Hsl Hnl] [Hc Hp]]. rewrite app_str_cons. cbn [run_states]. unfold block_char in Hc. apply negb_true_iff, orb_false_iff in Hc as [Hqu Hst].
  assert (next_state (Some "*"%char) (next_state prev (Scan false 2 w) "*") c = Scan false 2 w) as ->.
  { unfold next_state. rewrite Hqu. simpl. unfold comment_flag. rewrite Hst, Hsl, Hnl. done. }
  destruct (run_block p (Some c) w rest Hp) as [q Hq]. exists q. rewrite Hq. simpl. unfold is_newline. by rewrite Hnl.
Qed.

Lemma run_stars ps prev w rest :
  forallb star_piece ps = true →
  ∃ prev', run_states prev (Scan false 2 w) (starred ps +:+ rest) = run_states prev' (Scan false 2 (written_after (newlines (starred ps)) w)) rest.
Proof.
  revert prev w. induction ps as [|p ps IH]; intros prev w; [by exists prev|]. cbn [forallb starred]. rewrite andb_true_iff. intros [Hp Hps].
  rewrite app_str_cons, app_str_assoc. destruct (run_star p prev w (starred ps +:+ rest) Hp) as [q1 ->].
  destruct (IH q1 (written_after (newlines p) w) Hps) as [q2 ->]. exists q2. cbn [newlines]. change (is_newline "*") with false. cbv iota.
  by rewrite newlines_app, written_after_app.
Qed.

Definition no_escape (prev : option ascii) : Prop := prev ≠ Some backslash.

Lemma run_piece x prev w rest :
  piece_ok x = true → no_escape prev →
  ∃ prev', no_escape prev' ∧
    run_states prev (Scan false 0 w) (piece_text x +:+ rest) = run_states prev' (Scan false 0 (written_after (piece_code x) w)) rest.
Proof.
  intros Hok Hprev. destruct x as [c|b|b|p ps]; simpl in Hok.
  - apply negb_true_iff in Hok. rewrite !orb_false_iff in Hok. destruct Hok as [[Hq Hs] Hb]. exists (Some c).
    split; [intros [=->]; done|]. cbn [piece_text piece_code written_after]. rewrite app_str_cons, app_str_nil. cbn [run_states]. f_equal. unfold next_state. rewrite Hq. simpl. unfold comment_flag. rewrite Hs. by repeat case_match; simplify_eq.
  - exists (Some quote). split; [done|]. cbn [piece_text piece_code]. rewrite app_str_cons, app_str_assoc. cbn [run_states].
    assert (next_state prev (Scan false 0 w) quote = Scan true 0 (quote :: w)) as ->.
    { unfold next_state. rewrite (Ascii.eqb_refl quote). destruct prev as [c|]; [|done]. destruct (c =c backslash) eqn:Hc; [|done].
      apply Ascii.eqb_eq in Hc as ->. by destruct Hprev. }
    apply (run_quoted b quote (quote :: w) rest Hok).
  - exists (Some newline). split; [done|]. cbn [piece_text piece_code]. rewrite !app_str_assoc. change ("//" +:+ ?t) with (String "/" (String "/" t)).
    cbn [run_states]. apply (run_line b (Some "/"%char) w rest Hok).
  - apply andb_true_iff in Hok as [Hp Hps]. exists (Some "/"%char). split; [done|]. cbn [piece_text piece_code]. rewrite !app_str_assoc.
    change ("/*" +:+ ?t) with (String "/" (String "*" t)). cbn [run_states].
    change (next_state _ (next_state prev (Scan false 0 w) "/") "*") with (Scan false 2 w).
    destruct (run_block p (Some "*"%char) w (starred ps +:+ "*/" +:+ rest) Hp) as [q1 ->].
    destruct (run_stars ps q1 (written_after (newlines p) w) ("*/" +:+ rest) Hps) as [q2 ->].
    rewrite newlines_app, written_after_app. done.
Qed.

Lemma run_pieces l prev w :
  forallb piece_ok l = true → no_escape prev →
  run_states prev (Scan false 0 w) (pieces piece_text l) = Scan false 0 (written_after (pieces piece_code l) w).
Proof.
  revert prev w. induction l as [|x l IH]; intros prev w; [done|]. cbn [forallb pieces]. rewrite andb_true_iff. intros [Hx Hl] Hp.
  destruct (run_piece x prev w (pieces piece_text l) Hx Hp) as (q & Hq & ->). rewrite IH by done. by rewrite written_after_app.
Qed.

(** C36: In a text made of code characters (no slash, backslash or quote outside quoted texts), quoted texts whose
    inner quotes are escaped, line comments without quotes and closed block comments without quotes and without two
    stars in a row, the comments are removed except the ends of their lines, and nothing else: neither inside quoted
    texts nor around them. *)
Theorem comments_removed l m :
  forallb piece_ok l = true →
  _oph_workflow_skip_comments (Some (pieces piece_text l)) (true :: m) =
  Ok (OPH_WORKFLOW_EXIT_SUCCESS, Some (pieces piece_code l)) m.
Proof.
  intros Hl. rewrite skip_comments_run, (run_pieces l None [] Hl) by done. simpl. by rewrite text_of_written, app_str_nil_r.
Qed.

Lemma comments_removed_witness :
  forallb piece_ok sample_pieces = true ∧
  _oph_workflow_skip_comments (Some (pieces piece_text sample_pieces)) [true] = Ok (0, Some (pieces piece_code sample_pieces)) [].
Proof. split; [vm_compute; reflexivity|]. apply (comments_removed sample_pieces []). vm_compute. reflexivity. Defined.

End WfLoad.
