(* ===== verification/WfReady.v ===== *)
(** * What loading a workflow document delivers

    [oph_workflow_load] of [WfLoad] returns for every text whose tasks satisfy three
    conditions ([doc_ok]): it refuses the text with a code, or delivers a workflow with
    everything the later steps rely on ([workflow_ready]).  Composed with indexing, validation
    and the pairing of flow control operators, as a request is handled, it never leaves its
    arrays, and what is accepted is an acyclic workflow.

    Each of the three conditions excludes a way to crash the function; the theorems on
    undefined behaviour show it. *)

From Stdlib Require Ascii.
From stdpp Require Import base gmap strings numbers pretty relations list.
From S2P Require Import Prelude CString HashTbl Trash WfStructs WfSetup WfDag WfFlow Auth WfVars JsonDoc JsonText JsonRound WfLoad.
Import (notations) Stdlib.Strings.Ascii.
Import HashTbl WfStructs WfSetup JsonText WfLoad.

Module WfReady.

#[local] Open Scope Z_scope.
#[local] Open Scope cstr_scope.
#[local] Open Scope json_text_scope.

(** ** Computations that return *)

(** With an allocator that does not fail, the computation returns a value with [Q]; one that
    may fail returns a value with [Q] or a code with [E]. *)
Definition returns {A} (c : C A) (Q : A → Prop) : Prop := ∀ m, reliable m → wp c (λ a m', Q a ∧ reliable m') m.
Definition value_or_code {A} (E : Z → Prop) (Q : A → Prop) (r : Z + A) : Prop :=
  match r with inl rc => E rc | inr a => Q a end.
Definition ends {A} (E : Z → Prop) (c : W A) (Q : A → Prop) : Prop := returns c (value_or_code E Q).

(** The codes are errors; there is no code. *)
Notation sound := (ends (λ rc, rc ≠ OPH_WORKFLOW_EXIT_SUCCESS)).
Notation sure := (ends (λ _, False)).

Lemma returns_ret {A} (a : A) (Q : A → Prop) : Q a → returns (mret a) Q.
Proof. intros HQ m Hm. by apply wp_ret. Qed.

Lemma returns_mono {A} (c : C A) (Q R : A → Prop) : returns c Q → (∀ a, Q a → R a) → returns c R.
Proof. intros Hc HR m Hm. eapply wp_mono; [by apply Hc|]. naive_solver. Qed.

Lemma returns_bind {A B} (c : C A) (f : A → C B) (P : A → Prop) (Q : B → Prop) :
  returns c P → (∀ a, P a → returns (f a) Q) → returns (c ≫= f) Q.
Proof. intros Hc Hf m Hm. apply wp_bind. eapply wp_mono; [by apply Hc|]. intros a m' [Ha Hm']. by apply Hf. Qed.

Lemma returns_malloc : returns malloc (λ b, b = true).
Proof. intros m Hm. by apply wp_malloc_reliable. Qed.

Lemma returns_strdup s : returns (strdup (Some s)) (λ c, c = Some s).
Proof. intros m Hm. by apply wp_strdup. Qed.

Lemma returns_deref {A} (o : option A) : is_Some o → returns (deref o) (λ a, o = Some a).
Proof. intros [a ->]. by apply returns_ret. Qed.

Lemma returns_loopC {S X} (f : S → X → C (ctl S S)) (I : S → Prop) s l :
  I s → (∀ s x, x ∈ l → I s → returns (f s x) (λ c, match c with Next s => I s | Break s => I s end)) →
  returns (loopC f s l) (λ c, match c with Next s => I s | Break s => I s end).
Proof.
  revert s. induction l as [|x l IH]; intros s Hs Hf; simpl; [by apply returns_ret|].
  eapply returns_bind; [apply Hf; [left|done]|]. intros [s'|s'] Hs'; [|by apply returns_ret]. apply IH; [done|]. intros s'' y Hy. apply Hf. by right.
Qed.

Lemma sound_ret {E : Z → Prop} {A} (a : A) (Q : A → Prop) : Q a → ends E (wret a) Q.
Proof. intros HQ. by apply returns_ret. Qed.

Lemma sound_fail {E : Z → Prop} {A} rc (Q : A → Prop) : E rc → ends E (wfail rc) Q.
Proof. intros Hrc. by apply returns_ret. Qed.

Lemma sound_mono {E : Z → Prop} {A} (c : W A) (Q R : A → Prop) : ends E c Q → (∀ a, Q a → R a) → ends E c R.
Proof. intros Hc HR. eapply returns_mono; [apply Hc|]. intros [rc|a]; simpl; auto. Qed.

Lemma sound_bind {E : Z → Prop} {A B} (c : W A) (f : A → W B) (P : A → Prop) (Q : B → Prop) :
  ends E c P → (∀ a, P a → ends E (f a) Q) → ends E (wbind c f) Q.
Proof.
  intros Hc Hf m Hm. pose proof (wp_run _ _ _ (Hc m Hm)) as (r & m' & Hr & Hp & Hm'). unfold wp, wbind. rewrite Hr.
  destruct r as [rc|a]; [done|]. by apply Hf.
Qed.

Lemma sound_bindC {E : Z → Prop} {A B} (c : C A) (f : A → W B) (P : A → Prop) (Q : B → Prop) :
  returns c P → (∀ a, P a → ends E (f a) Q) → ends E (c ≫= f) Q.
Proof. apply returns_bind. Qed.

Lemma sound_bind_ret {E : Z → Prop} {A B} (a : A) (f : A → W B) (Q : B → Prop) : ends E (f a) Q → ends E (wbind (wret a) f) Q.
Proof. done. Qed.

Lemma sound_dup {E : Z → Prop} s : ends E (dup (Some s)) (λ c, c = Some s).
Proof. eapply sound_bindC; [apply returns_strdup|]. intros c ->. by apply sound_ret. Qed.

Lemma sound_calloc {E : Z → Prop} : ends E calloc (λ _, True).
Proof. eapply sound_bindC; [apply returns_malloc|]. intros b ->. by apply sound_ret. Qed.

Lemma sound_generic {E : Z → Prop} {A} (c : W A) Q : (∀ rc, E rc → E OPH_WORKFLOW_EXIT_GENERIC_ERROR) → ends E c Q → ends E (generic c) Q.
Proof. intros HE Hc. eapply sound_bindC; [apply Hc|]. intros [rc|a] Hr; apply returns_ret; simpl in *; eauto. Qed.

Lemma sound_choice x opts dflt (Q : Z → Prop) :
  Q dflt → Forall (λ o, Q o.2) opts → sound (choice x opts dflt) Q.
Proof.
  intros Hd Ho. unfold choice. destruct x as [[|c s]|]; [by apply sound_ret| |by apply sound_ret].
  destruct (option_of (String c s) opts) as [z|] eqn:Hz; [|by apply sound_fail]. apply sound_ret.
  induction Ho as [|[k y] opts Hy Ho IH]; [done|]. simpl in Hz. destruct (eqs _ k); [by simplify_eq|auto].
Qed.

Lemma sound_yes_no x : sound (choice x yes_no 1) (λ z, z = 0 ∨ z = 1).
Proof. apply sound_choice; [by right|]. apply Forall_cons; split; [by left|]. apply Forall_cons; split; [by right|constructor]. Qed.

Lemma sound_copy_text {E : Z → Prop} {R} (set : cstr → R → R) x (r : R) (Q : R → Prop) :
  Q r → (∀ c, Q (set c r)) → ends E (copy_text set x r) Q.
Proof.
  intros H1 H2. unfold copy_text. destruct x as [[|c s]|]; [by apply sound_ret| |by apply sound_ret].
  eapply sound_bind; [apply sound_dup|]. intros ? ->. by apply sound_ret.
Qed.

Lemma sound_wmapi {E : Z → Prop} {X Y} (f : nat → X → W Y) i (l : list X) (Q : X → Y → Prop) :
  (∀ i x, x ∈ l → ends E (f i x) (Q x)) → ends E (wmapi f i l) (λ ys, Forall2 Q l ys).
Proof.
  revert i. induction l as [|x l IH]; intros i Hf; simpl; [by apply sound_ret|].
  eapply sound_bind; [apply Hf; left|]. intros y Hy. eapply sound_bind; [apply IH; intros; apply Hf; by right|].
  intros ys Hys. apply sound_ret. by constructor.
Qed.

Lemma sound_wfold {E : Z → Prop} {S X} (f : S → X → W S) (I : S → Prop) s (l : list X) :
  I s → (∀ s x, x ∈ l → I s → ends E (f s x) I) → ends E (wfold f s l) I.
Proof.
  revert s. induction l as [|x l IH]; intros s Hs Hf; simpl; [by apply sound_ret|].
  eapply sound_bind; [apply Hf; [left|done]|]. intros s' Hs'. apply IH; [done|]. intros s'' y Hy. apply Hf. by right.
Qed.

(** ** What is loaded *)

Definition complete_argument (a : argument) : Prop := is_Some (arg_key a) ∧ is_Some (arg_value a).
Definition complete_dep (d : oph_workflow_dep) : Prop :=
  is_Some (dep_argument d) ∧ is_Some (dep_order d) ∧ is_Some (task_name d) ∧ is_Some (dep_filter d) ∧
  is_Some (output_argument d) ∧ is_Some (output_order d) ∧
  (dep_type d = Some "all" ∨ dep_type d = Some "single" ∨ dep_type d = Some "embedded")%string.

Definition task_types : list string := [OPH_TYPE_OPHIDIA; OPH_TYPE_CDO; OPH_TYPE_GENERIC; OPH_TYPE_CONTROL].

(** A task that was never started. *)
Definition fresh_task (t : oph_workflow_task) : Prop :=
  status t = OPH_ODB_STATUS_UNKNOWN ∧ outputs t = [] ∧ is_skipped t = 0 ∧ light_tasks t = [] ∧ is_marked_for_auto_retry t = 0.

(** A task as it is read from its object. *)
Record task_read (t : oph_workflow_task) : Prop := {
  tr_name : is_Some (name t);
  tr_operator : is_Some (operator t);
  tr_type : ∃ ty, type t = Some ty ∧ ty ∈ task_types;
  tr_rtype : rtype t = None;
  tr_deps : Forall complete_dep (deps t);
  tr_residual : residual_deps_num t = deps_num t;
  tr_dependents : dependents_indexes t = [];
  tr_retry : -1 ≤ retry_num t ∧ residual_retry_num t = retry_num t;
  tr_exit : 0 ≤ exit_action t ≤ 2;
  tr_flags : (run t = 0 ∨ run t = 1) ∧ (save t = 0 ∨ save t = 1);
  tr_links : parent t = -1 ∧ child t = -1 ∧ nesting_level t = 0 ∧ parallel_mode t = 0;
  tr_vars : ∃ tbl, vars t = Some tbl ∧ hash_wf tbl;
  tr_fresh : fresh_task t;
}.

(** Conditions on the object of a task: its arguments are texts, it has a label of its own if
    the workflow has one, and the number of retries is not the largest integer. *)
Definition is_string (v : json_t) : bool := match v with JString _ => true | _ => false end.
Definition not_empty (x : cstr) : bool := match x with Some (String _ _) => true | _ => false end.
Definition repeat_ok (s : string) : bool :=
  negb (strncmp0 s OPH_WORKFLOW_REPEAT (String.length OPH_WORKFLOW_REPEAT)) ||
  (numeric (WfVars.drop_str (String.length OPH_WORKFLOW_REPEAT) s) <? 2 ^ 31 - 1).
Definition task_ok (g : members) (v : json_t) : bool :=
  let k := unpack_strings v task_keys in
  match unpack_value v "arguments" with Some a => forallb is_string (elements a) | None => true end &&
  (negb (not_empty (get g "checkpoint")) || match get k "checkpoint" with Some _ => true | None => false end) &&
  match own_or_global g k "on_error" with Some s => repeat_ok s | None => true end.

Ltac sound_step :=
  lazymatch goal with
  | |- ends _ (wret _) _ => apply sound_ret
  | |- ends _ (wfail _) _ => by apply sound_fail
  | |- ends _ (wbind (wret _) _) _ => apply sound_bind_ret
  | |- ends _ (wbind (dup (Some _)) _) _ => eapply sound_bind; [apply sound_dup|intros ? ->]
  | |- ends _ (wbind calloc _) _ => eapply sound_bind; [apply sound_calloc|intros ? _]
  | |- ends _ (strdup (Some _) ≫= _) _ => eapply sound_bindC; [apply returns_strdup|intros ? ->]
  | |- ends _ (malloc ≫= _) _ => eapply sound_bindC; [apply returns_malloc|intros ? ->]
  | |- ends _ (mret ?x ≫= _) _ => apply (sound_bindC _ _ (λ a, a = x)); [by apply returns_ret|intros ? ->]
  | |- ends _ (deref (Some _) ≫= _) _ => eapply sound_bindC; [apply returns_deref; by eexists|intros ? [= <-]]
  end.
Ltac sound_steps := repeat (sound_step; cbv beta iota delta [negb]).

Lemma eqs_true a b : eqs a b = true ↔ a = b.
Proof. apply bool_decide_eq_true. Qed.

Lemma sound_load_type k t : is_Some (operator t) → sound (load_type k t) (λ t', ∃ ty, t' = set_type (Some ty) t ∧ ty ∈ task_types).
Proof.
  intros [o Ho]. unfold load_type. destruct (get k "type") as [ty|].
  - destruct (existsb (eqs ty) _) eqn:He; cbv beta iota delta [negb]; [|sound_step].
    sound_step. rewrite Ho. sound_step. destruct (_ && _); sound_step. exists ty. split; [done|].
    apply existsb_exists in He as (x & Hx & ->%eqs_true). by apply list_elem_of_In.
  - sound_step. sound_step. exists OPH_TYPE_OPHIDIA. split; [done|]. left.
Qed.

Lemma sound_load_names k t : sound (load_names k t) (λ t', ∃ nm o ty, t' = set_type (Some ty) (set_operator (Some o) (set_name (Some nm) t)) ∧ ty ∈ task_types).
Proof.
  unfold load_names. destruct (get k "name") as [nm|], (get k "operator") as [o|]; try sound_step. sound_steps.
  eapply sound_mono; [by apply sound_load_type|]. intros t' (ty & -> & Hty). by exists nm, o, ty.
Qed.

Lemma sound_load_argument v : is_string v = true → sound (load_argument v) complete_argument.
Proof.
  destruct v as [| |s|]; try done. intros _. unfold load_argument. simpl. destruct (span_str _ s) as [key [|c rest]]; [sound_step|].
  sound_steps. by split; eexists.
Qed.

Lemma sound_load_arguments v t :
  arguments t = [] →
  match unpack_value v "arguments" with Some a => forallb is_string (elements a) | None => true end = true →
  sound (load_arguments v t) (λ t', ∃ args, t' = set_arguments args t ∧ Forall complete_argument args).
Proof.
  intros Ht Hv. unfold load_arguments. destruct (unpack_value v "arguments") as [a|].
  - destruct (_ =? _)%nat.
    + sound_step. exists []. split; [by destruct t; simpl in *; subst|done].
    + sound_steps. eapply sound_bind; [apply (sound_wmapi _ _ _ (λ _, complete_argument))|].
      * intros i x Hx. apply sound_load_argument. rewrite forallb_forall in Hv. by apply Hv, list_elem_of_In.
      * intros args Hargs. sound_step. exists args. split; [done|]. clear -Hargs. by induction Hargs; constructor.
  - sound_step. exists []. split; [by destruct t; simpl in *; subst|done].
Qed.

Lemma sound_load_dep_type k : sound (load_dep_type k) (λ c, c = Some "all" ∨ c = Some "single" ∨ c = Some "embedded")%string.
Proof.
  unfold load_dep_type. destruct (get k "type") as [ty|].
  - destruct (existsb (eqs ty) _) eqn:He; cbv beta iota delta [negb]; [|sound_step]. eapply sound_mono; [apply sound_dup|]. intros ? ->.
    apply existsb_exists in He as (x & Hx & ->%eqs_true). simpl in Hx. naive_solver.
  - eapply sound_mono; [apply sound_dup|]. intros ? ->. destruct (get k "argument"); auto.
Qed.

Lemma sound_load_dep ds z v : Forall complete_dep ds → sound (load_dep (ds, z) v) (λ st, Forall complete_dep st.1 ∧ length st.1 = S (length ds)).
Proof.
  intros Hds. unfold load_dep. destruct (get _ "task") as [nm|]; [|sound_step]. sound_steps. destruct (match get _ "order" with Some _ => _ | None => _ end) as [od z'].
  sound_steps. eapply sound_bind; [apply sound_load_dep_type|]. intros ty Hty. sound_steps. simpl. split; [|rewrite length_app; simpl; lia].
  apply Forall_app. split; [done|]. apply Forall_singleton. by repeat (split; [by eexists|]).
Qed.

Lemma sound_load_deps v t :
  deps t = [] → residual_deps_num t = 0 →
  sound (load_deps v t) (λ t', ∃ ds, t' = set_deps ds (set_residual_deps_num (Z.of_nat (length ds)) t) ∧ Forall complete_dep ds).
Proof.
  intros Hd Hr. assert (t = set_deps [] (set_residual_deps_num 0 t)) as Ht by (by destruct t; simpl in *; subst).
  unfold load_deps. destruct (unpack_value v "dependencies") as [a|].
  - destruct (json_array_size (Some a) =? 0)%nat eqn:Hn.
    + sound_step. exists []. apply Nat.eqb_eq in Hn. rewrite Hn. split; [|done]. by rewrite Ht at 1.
    + sound_steps. assert (json_array_size (Some a) = length (elements a)) as -> by (by destruct a).
      eapply sound_bind with (P := λ st, Forall complete_dep st.1 ∧ length st.1 = length (elements a)).
      * generalize (elements a). intros l.
        assert (∀ st, Forall complete_dep st.1 → sound (wfold load_dep st l) (λ st', Forall complete_dep st'.1 ∧ length st'.1 = (length st.1 + length l)%nat)) as Hgen.
        { induction l as [|x l IH]; intros st Hst; simpl; [sound_step; split; [done|lia]|]. destruct st as [ds z].
          eapply sound_bind; [by apply sound_load_dep|]. intros st' [H1 H2]. eapply sound_mono; [by apply IH|]. simpl. intros st'' [? ?]. split; [done|lia]. }
        apply Hgen. constructor.
      * intros [ds z] [Hds Hl]. simpl in *. sound_step. exists ds. by rewrite Hl.
  - sound_step. exists []. split; [|done]. by rewrite Ht at 1.
Qed.

Lemma returns_create {D} n : n ≠ 0%nat → returns (hashtbl_create (D := D) n None) (λ o, ∃ tbl, o = Some tbl ∧ hash_wf tbl).
Proof.
  intros Hn. eapply returns_bind; [apply returns_malloc|]. intros ? ->. eapply returns_bind; [apply returns_malloc|]. intros ? ->.
  apply returns_ret. eexists. split; [done|]. apply (empty_table_spec n def_hashfunc). lia.
Qed.

Lemma returns_load_variable i o v :
  (∃ tbl, o = Some tbl ∧ hash_wf tbl) →
  returns (load_variable i o v) (λ c, match c with Next o => ∃ tbl, o = Some tbl ∧ hash_wf tbl | Break o => ∃ tbl, o = Some tbl ∧ hash_wf tbl end).
Proof.
  intros (tbl & -> & Hwf). unfold load_variable. destruct (get _ "key") as [key|]; [|apply returns_ret; eauto].
  eapply returns_bind; [apply returns_strdup|]. intros ? ->. eapply returns_bind; [apply returns_malloc|]. intros ? ->. cbv beta iota delta [negb].
  eapply returns_bind; [apply returns_deref; by eexists|]. intros ? [= <-].
  eapply returns_bind with (P := λ r, hash_wf r.2).
  - intros m Hm. eapply wp_mono; [by apply insert_spec|]. naive_solver.
  - intros [rc tbl'] Hwf'. apply returns_ret. destruct (rc =? 0); eauto.
Qed.

Lemma returns_load_variables n i v t :
  n ≠ 0%nat → returns (load_variables n i v t) (λ t', ∃ tbl, t' = set_vars (Some tbl) t ∧ hash_wf tbl).
Proof.
  intros Hn. unfold load_variables. eapply returns_bind; [by apply returns_create|]. intros o Ho.
  destruct (unpack_value v "variables") as [a|].
  - eapply returns_bind; [apply (returns_loopC _ (λ o, ∃ tbl, o = Some tbl ∧ hash_wf tbl)); [done|]|].
    + intros s x _ Hs. by apply returns_load_variable.
    + intros c Hc. apply returns_ret. destruct c; destruct Hc as (tbl & -> & ?); eauto.
  - apply returns_ret. destruct Ho as (tbl & -> & ?). eauto.
Qed.

(** The four fields an action in case of error can change. *)
Definition with_retry (n tm ty : Z) (t : oph_workflow_task) : oph_workflow_task :=
  set_backoff_type ty (set_backoff_time tm (set_retry_num n t)).

Lemma sound_load_error_action s t :
  repeat_ok s = true → sound (load_error_action s t) (λ t', ∃ n tm ty, t' = with_retry n tm ty t ∧ -1 ≤ n).
Proof.
  intros Hs. unfold load_error_action.
  assert (∀ n, -1 ≤ n → ∃ n' tm ty, set_retry_num n t = with_retry n' tm ty t ∧ -1 ≤ n') as Hn.
  { intros n Hle. exists n, (backoff_time t), (backoff_type t). split; [by destruct t|done]. }
  destruct (eqs s OPH_WORKFLOW_SKIP); [sound_step; by apply Hn|].
  destruct (eqs s OPH_WORKFLOW_CONTINUE); [sound_step; apply Hn; lia|].
  destruct (_ || _); [sound_step; apply Hn; lia|]. unfold repeat_ok in Hs.
  destruct (strncmp0 _ _ _); [|sound_step]. cbv beta iota delta [negb orb] in Hs. set (r := WfVars.drop_str _ s) in *. cbv zeta.
  eapply sound_bindC with (P := λ _, True); [rewrite Hs; by apply returns_ret|]. intros _ _. destruct (Z.ltb_spec (1 + numeric r) 1); [sound_step|]. sound_step.
  unfold load_backoff. destruct (strchr _ _) as [sp|]; [|apply Hn; lia]. cbv zeta.
  destruct (strchr _ _) as [sp'|].
  - exists (1 + numeric r), (numeric (skip_blanks sp)), (first_char (skip_blanks sp')). split; [done|lia].
  - exists (1 + numeric r), (numeric (skip_blanks sp)), (backoff_type t). split; [by destruct t|lia].
Qed.

Lemma sound_load_on_error base g k t :
  match own_or_global g k "on_error" with Some s => repeat_ok s | None => true end = true →
  sound (load_on_error base g k t) (λ t', ∃ c n tm ty, t' = set_residual_retry_num n (with_retry n tm ty (set_on_error c t)) ∧ -1 ≤ n).
Proof.
  intros Hs. unfold load_on_error. set (t1 := set_backoff_time _ _).
  eapply sound_bind with (P := λ t', ∃ c, t' = set_on_error c t1).
  { apply sound_copy_text; [exists (on_error t1); by destruct t|eauto]. }
  intros t' [c ->]. eapply sound_bind with (P := λ t', ∃ n tm ty, t' = with_retry n tm ty (set_on_error c t) ∧ -1 ≤ n).
  - destruct (own_or_global g k "on_error") as [s|].
    + eapply sound_mono; [by apply sound_load_error_action|]. intros t' (n & tm & ty & -> & Hn). by exists n, tm, ty.
    + sound_step. exists 1, (wrap_i32 base), (backoff_type t). split; [by destruct t|done].
  - intros t' (n & tm & ty & -> & Hn). sound_step. by exists c, n, tm, ty.
Qed.

Lemma sound_load_on_exit g k t :
  sound (load_on_exit g k t) (λ t', ∃ c z, t' = set_exit_action z (set_on_exit c t) ∧ 0 ≤ z ≤ 2).
Proof.
  unfold load_on_exit. eapply sound_bind with (P := λ t', ∃ c, t' = set_exit_action 0 (set_on_exit c t)).
  { apply sound_copy_text; [exists (on_exit t); by destruct t|intros c; by exists c]. }
  intros t' [c ->]. assert (∀ z, 0 ≤ z ≤ 2 → ∃ c' z', set_exit_action z (set_exit_action 0 (set_on_exit c t)) = set_exit_action z' (set_on_exit c' t) ∧ 0 ≤ z' ≤ 2) as Hz by eauto.
  destruct (own_or_global g k "on_exit") as [s|]; [|sound_step; by exists c, 0].
  unfold load_exit_action. repeat (case_match; [sound_step; apply Hz; done|]). sound_step.
Qed.

Lemma sound_load_checkpoint wfc g k t :
  wfc = (if not_empty (get g "checkpoint") then get g "checkpoint" else None) →
  negb (not_empty (get g "checkpoint")) || match get k "checkpoint" with Some _ => true | None => false end = true →
  sound (load_checkpoint wfc k t) (λ t', ∃ c, t' = set_checkpoint c t).
Proof.
  intros -> Hc. unfold load_checkpoint. destruct (get k "checkpoint") as [s|].
  - assert (∀ s, sound (strdup (Some s) ≫= λ c, wret (set_checkpoint c t)) (λ t', ∃ c, t' = set_checkpoint c t)) as Hd by (intros ?; sound_steps; eauto).
    assert (∃ c, t = set_checkpoint c t) as Ht by (exists (checkpoint t); by destruct t).
    destruct s as [|c s]; [case_match; [apply Hd|by sound_step]|]. destruct (reserved_label _); [sound_step|apply Hd].
  - rewrite orb_false_r, negb_true_iff in Hc. rewrite Hc. sound_step. exists (checkpoint t). by destruct t.
Qed.

Definition complete (t : oph_workflow_task) : Prop := Forall complete_argument (arguments t).
Definition no_resources (t : oph_workflow_task) : Prop := ncores t = 0 ∧ nhosts t = 0 ∧ nthreads t = 0.

Lemma sound_load_task base n wfc g i v :
  n ≠ 0%nat → wfc = (if not_empty (get g "checkpoint") then get g "checkpoint" else None) → task_ok g v = true →
  sound (load_task base n wfc g i v) (λ t, task_read t ∧ complete t ∧ no_resources t).
Proof.
  intros Hn Hc. unfold task_ok. rewrite !andb_true_iff. intros [[Ha Hcp] He]. unfold load_task.
  eapply sound_bind; [apply sound_load_names|]. intros ? (nm & o & ty & -> & Hty).
  eapply sound_bind; [by apply sound_load_arguments|]. intros ? (args & -> & Hargs).
  eapply sound_bind; [by apply sound_load_deps|]. intros ? (ds & -> & Hds).
  eapply sound_bindC; [by apply returns_load_variables|]. intros ? (tbl & -> & Hwf).
  eapply sound_bind; [by apply sound_load_on_error|]. intros ? (c & r & tm & bt & -> & Hr).
  eapply sound_bind; [by apply sound_load_on_exit|]. intros ? (c' & z & -> & Hz).
  eapply sound_bind; [apply sound_yes_no|]. intros z1 Hz1.
  eapply sound_bind; [apply sound_yes_no|]. intros z2 Hz2.
  eapply sound_mono; [by eapply sound_load_checkpoint|]. intros ? (cp & ->).
  split; [|done]. split; simpl; eauto. by split_and!.
Qed.

(** The cell for the final task. *)
Definition final_cell (t : oph_workflow_task) : Prop := complete t ∧ name t = None.

Lemma sound_final_task g : sound (final_task g) final_cell.
Proof. eapply sound_bind; [apply (sound_choice _ _ _ (λ _, True)); [done|repeat constructor]|]. intros z _. sound_step. by split; [constructor|]. Qed.

(** Global members: the name and the label, which matters to the tasks. *)
Definition named_with (x : cstr) (wf : oph_workflow) : Prop := wf_checkpoint wf = x ∧ wf_status wf = OPH_WORKFLOW_STATUS_PENDING ∧ is_Some (wf_name wf).
Ltac keep_named x := eapply sound_bind with (P := named_with x); [by apply sound_copy_text|intros ? ?].
Lemma sound_load_globals dout g wf0 :
  wf_checkpoint wf0 = None → wf_status wf0 = OPH_WORKFLOW_STATUS_PENDING →
  sound (load_globals dout g wf0) (named_with (if not_empty (get g "checkpoint") then get g "checkpoint" else None)).
Proof.
  intros H0 Hs0. unfold load_globals. destruct (get g "name") as [nm|]; [|sound_step]. sound_step. cbv zeta.
  assert (named_with None (set_wf_name (Some nm) wf0)) as Hw by (split; [done|split; [done|by eexists]]).
  do 5 keep_named (None : cstr).
  assert (∀ set x wf, (∀ z wf, named_with None wf → named_with None (set z wf)) → named_with None wf → named_with None (copy_number set x wf)) as Hnum.
  { intros set [x|] wf Hset Hwf; [by apply Hset|done]. }
  eapply sound_bind with (P := named_with None).
  { apply sound_copy_text; [|intros c; change (named_with None (set_project c ?w)) with (named_with None w)]; by repeat (apply Hnum; [by intros|]). }
  intros ? ?. do 6 keep_named (None : cstr).
  eapply sound_bind with (P := named_with None); [by apply sound_copy_text|intros wf1 Hwf1].
  destruct (reserved_label _); [sound_step|]. set (cp := get g "checkpoint").
  eapply sound_bind with (P := named_with (if not_empty cp then cp else None)).
  { unfold copy_text. destruct cp as [[|c s]|]; sound_steps; by destruct Hwf1. }
  intros wf Hwf. do 4 (eapply sound_bind; [apply (sound_choice _ _ _ (λ _, True)); [done|repeat constructor]|intros ? _]).
  by apply sound_copy_text.
Qed.

(** *** Distribution *)

(** A task without its arguments and resources: what the distribution leaves alone. *)
Definition core (t : oph_workflow_task) : oph_workflow_task :=
  set_arguments [] (set_ncores 0 (set_nhosts 0 (set_nthreads 0 t))).

Definition has_argument (key : string) (t : oph_workflow_task) : Prop := ∃ a, a ∈ arguments t ∧ arg_key a = Some key.
Definition resources (t : oph_workflow_task) : Z * Z * Z := (ncores t, nhosts t, nthreads t).
Definition is_resource (key : string) : bool := eqs key "ncores" || eqs key "nhost" || eqs key "nthreads".

Lemma returns_find_key key args :
  Forall complete_argument args →
  returns (find_key key args) (λ r, match r with
    | Some j => ∃ a, args !! j = Some a ∧ arg_key a = Some key
    | None => Forall (λ a, arg_key a ≠ Some key) args
    end).
Proof.
  induction 1 as [|a args [[k Hk] _] Hargs IH]; simpl; [by apply returns_ret|].
  eapply returns_bind with (P := λ b, b = bool_decide (k = key)).
  { unfold is_text, strcmp0. rewrite Hk. by apply returns_ret. }
  intros b ->. case_bool_decide as Hkey; [subst; apply returns_ret; by exists a|].
  eapply returns_bind; [apply IH|]. intros [j|] Hj; apply returns_ret; [done|]. constructor; [congruence|done].
Qed.

Lemma complete_lookup t j a : complete t → arguments t !! j = Some a → complete_argument a.
Proof. intros Ht Hj. exact (Forall_lookup_1 _ _ _ _ Ht Hj). Qed.

(** The relation between a task and what a step of the distribution makes of it. *)
Record distributed (t t' : oph_workflow_task) : Prop := {
  di_core : core t' = core t;
  di_complete : complete t';
}.

Lemma sound_add_argument {E : Z → Prop} key value t :
  complete t →
  ends E (add_argument key value t) (λ t', ∃ a, t' = set_arguments (arguments t ++ [a]) t ∧ arg_key a = Some key ∧ distributed t t').
Proof.
  intros Ht. unfold add_argument. sound_steps. eexists. split; [done|]. split; [done|]. split; [done|].
  apply Forall_app. split; [done|]. apply Forall_singleton. by split; eexists.
Qed.

Lemma has_key_complete a : complete_argument a → has_arg_key a = true.
Proof. intros [[k Hk] _]. unfold has_arg_key. by rewrite Hk. Qed.

Lemma filter_complete args : Forall complete_argument args → List.filter has_arg_key args = args.
Proof. induction 1 as [|a args Ha Hargs IH]; simpl; [done|]. by rewrite has_key_complete, IH. Qed.

Lemma without_argument_complete j args :
  Forall complete_argument args → (j < length args)%nat → Forall complete_argument (without_argument j args).
Proof.
  intros Hc Hj. unfold without_argument. set (kept := List.filter _ _).
  assert (length kept = length args - 1)%nat as Hl.
  { unfold kept. clear kept. revert j Hj. induction Hc as [|a args Ha Hc IH]; intros j Hj; simpl in Hj; [lia|]. destruct j as [|j]; simpl.
    - by rewrite filter_complete, Nat.sub_0_r.
    - rewrite (has_key_complete a) by done. simpl. rewrite IH by lia. lia. }
  rewrite Hl, Nat.sub_diag. simpl. rewrite app_nil_r. apply Forall_forall. intros a Ha. unfold kept in Ha.
  apply list_elem_of_In, filter_In in Ha as [Ha Hk]. apply list_elem_of_In, list_elem_of_lookup in Ha as [i Hi].
  apply list_lookup_insert_Some in Hi as [(-> & <- & _)|[_ Hi]]; [done|]. rewrite Forall_lookup in Hc. eauto.
Qed.

Lemma sound_remove_argument {E : Z → Prop} j t :
  complete t → (j < length (arguments t))%nat →
  ends E (remove_argument j t) (λ t', resources t' = resources t ∧ distributed t t').
Proof.
  intros Ht Hj. unfold remove_argument. sound_steps. eapply sound_bindC with (P := λ _, True); [by apply returns_ret|]. intros _ _.
  sound_step. split; [done|]. split; [done|]. by apply without_argument_complete.
Qed.

(** A key that is not a resource is an argument afterwards. *)
Lemma sound_substitute_task {E : Z → Prop} key value t :
  complete t → is_resource key = false →
  ends E (substitute_task key value t) (λ t', distributed t t' ∧ resources t' = resources t ∧ has_argument key t' ∧
    arguments t `prefix_of` arguments t').
Proof.
  intros Ht Hk. unfold is_resource in Hk. rewrite !orb_false_iff in Hk. destruct Hk as [[H1 H2] H3].
  assert (∀ t, complete t → ends E (add_argument key value t) (λ t', distributed t t' ∧ resources t' = resources t ∧ has_argument key t' ∧
    arguments t `prefix_of` arguments t')) as Hadd.
  { clear t Ht. intros t Ht. eapply sound_mono; [by apply sound_add_argument|]. intros t' (a & -> & Ha & Hd). split_and!; [done..| |by eexists].
    exists a. split; [|done]. simpl. apply elem_of_app. right. left. }
  unfold substitute_task, resource, resource_of_empty. rewrite H1, H2, H3. case_bool_decide; [by apply Hadd|].
  eapply sound_bindC; [by apply returns_find_key|]. intros [j|] Hj; [|by apply Hadd]. destruct Hj as (a & Hj & Ha).
  eapply sound_bindC; [apply returns_deref; by eexists|]. intros b Hb. rewrite bool_decide_eq_false_2 by (by intros []).
  sound_step. split_and!; [split; done|done| |done]. exists a. split; [by eapply list_elem_of_lookup_2|done].
Qed.

(** The resources that the distribution of another one does not touch. *)
Definition keeps (key : string) (t t' : oph_workflow_task) : Prop :=
  (key ≠ "ncores"%string → ncores t' = ncores t) ∧ (key = "nthreads"%string → nhosts t' = nhosts t).

Lemma resource_keeps key z t t' : resource key z t = Some t' → arguments t' = arguments t ∧ core t' = core t ∧ keeps key t t'.
Proof.
  unfold resource, keeps. destruct (eqs key "ncores") eqn:H1; [apply eqs_true in H1; intros [= <-]; naive_solver|].
  destruct (eqs key "nhost") eqn:H2; [apply eqs_true in H2; intros [= <-]; naive_solver|].
  destruct (eqs key "nthreads") eqn:H3; [|done]. intros [= <-]. naive_solver.
Qed.

Lemma resource_empty_keeps key z t t' : resource_of_empty key z t = Some t' → arguments t' = arguments t ∧ core t' = core t ∧ keeps key t t'.
Proof.
  unfold resource_of_empty, keeps. destruct (eqs key "ncores") eqn:H1; [apply eqs_true in H1; intros [= <-]; naive_solver|].
  destruct (eqs key "nhost") eqn:H2; [apply eqs_true in H2; intros [= <-]; naive_solver|].
  destruct (eqs key "nthreads") eqn:H3; [|done]. intros [= <-]. naive_solver.
Qed.

Lemma resource_some key z t : is_resource key = true → is_Some (resource key z t) ∧ is_Some (resource_of_empty key z t).
Proof. unfold is_resource, resource, resource_of_empty. destruct (eqs key "ncores"), (eqs key "nhost"), (eqs key "nthreads"); naive_solver. Qed.

Lemma distributed_resource t t' : complete t → arguments t' = arguments t → core t' = core t → distributed t t'.
Proof. intros Ht Ha Hc. split; [done|]. unfold complete. by rewrite Ha. Qed.

Lemma sound_substitute_resource {E : Z → Prop} key value t :
  complete t → is_resource key = true →
  ends E (substitute_task key value t) (λ t', distributed t t' ∧ keeps key t t').
Proof.
  intros Ht Hk. assert (∀ z, is_Some (resource key z t)) as Hres by (intros z; by apply resource_some).
  assert (∀ t', resource key (numeric value) t = Some t' → distributed t t' ∧ keeps key t t') as Hset.
  { intros t' (Ha & Hc & ?)%resource_keeps. split; [by apply distributed_resource|done]. }
  unfold substitute_task. case_bool_decide.
  - destruct (resource_some key (numeric value) t Hk) as [_ [t' Ht']]. rewrite Ht'. sound_step.
    apply resource_empty_keeps in Ht' as (Ha & Hc & ?). split; [by apply distributed_resource|done].
  - eapply sound_bindC; [by apply returns_find_key|]. intros [j|] Hj.
    + destruct Hj as (a & Hj & Ha). eapply sound_bindC; [apply returns_deref; by eexists|]. intros b Hb. cbv beta in Hb. simplify_eq.
      rewrite bool_decide_eq_true_2 by apply Hres. destruct (complete_lookup _ _ _ Ht Hj) as [_ Hv].
      eapply sound_bindC; [by apply returns_deref|]. intros v Hv'. destruct (Hres (numeric v)) as [t' Ht']. rewrite Ht'.
      apply resource_keeps in Ht' as (Harg & Hc & Hkp). eapply sound_mono; [apply sound_remove_argument|].
      * unfold complete. by rewrite Harg.
      * rewrite Harg. by eapply lookup_lt_Some.
      * intros t'' [Hr [Hc' Hco]]. unfold resources in Hr. injection Hr as Hr1 Hr2 Hr3. split; [split; [by rewrite Hc'|done]|].
        destruct Hkp as [K1 K2]. split; intros Hkey; [rewrite Hr1; auto|rewrite Hr2; auto].
    + destruct (Hres (numeric value)) as [t' Ht']. rewrite Ht'. sound_step. by apply Hset.
Qed.

Lemma sound_finalize_task key (gr : oph_workflow_task → Z) set t :
  complete t → (∀ z t, arguments (set z t) = arguments t ∧ core (set z t) = core t ∧ keeps key t (set z t)) →
  sound (finalize_task key gr set t) (λ t', distributed t t' ∧ keeps key t t' ∧ 0 ≤ gr t').
Proof.
  intros Ht Hset. unfold finalize_task.
  eapply sound_bindC with (P := λ t', distributed t t' ∧ keeps key t t').
  - assert (distributed t t ∧ keeps key t t) as Hrefl by (split; [by split|by split]).
    destruct (gr t =? 0); cbv beta iota delta [negb]; [|by apply returns_ret].
    eapply returns_bind; [by apply returns_find_key|]. intros [j|] Hj; [|by apply returns_ret].
    destruct Hj as (a & Hj & Ha). eapply returns_bind; [apply returns_deref; by eexists|]. intros b Hb. cbv beta in Hb. simplify_eq.
    destruct (complete_lookup _ _ _ Ht Hj) as [_ Hv]. eapply returns_bind; [by apply returns_deref|]. intros v _. apply returns_ret.
    destruct (Hset (numeric v) t) as (Harg & Hc & Hkp). split; [by apply distributed_resource|done].
  - intros t' [Hd Hk]. destruct (Z.ltb_spec (gr t') 0); sound_step. done.
Qed.

(** *** Loops over the tasks *)

Lemma sound_on_tasks {E : Z → Prop} (f : oph_workflow_task → W oph_workflow_task) (R : oph_workflow_task → oph_workflow_task → Prop) l r :
  (∀ t, t ∈ l → ends E (f t) (R t)) →
  ends E (wfold (on_task f) (l ++ r) (seq 0 (length l))) (λ ts, ∃ l', ts = l' ++ r ∧ Forall2 R l l').
Proof.
  intros Hf.
  assert (∀ d k, (k + d = length l)%nat → ∀ ts pre, ts = pre ++ drop k l ++ r → length pre = k → Forall2 R (take k l) pre →
    ends E (wfold (on_task f) ts (seq k d)) (λ ts, ∃ l', ts = l' ++ r ∧ Forall2 R l l')) as Hgen.
  { induction d as [|d IH]; intros k Hk ts pre -> Hpre HR; simpl in *.
    - sound_step. exists pre. rewrite take_ge in HR by lia. rewrite drop_ge by lia. done.
    - destruct (lookup_lt_is_Some_2 l k ltac:(lia)) as [t Ht]. rewrite (drop_S l t k Ht). simpl.
      eapply sound_bind with (P := λ ts', ∃ t', ts' = pre ++ t' :: drop (S k) l ++ r ∧ R t t').
      + unfold on_task. rewrite list_lookup_middle by done. sound_step. eapply sound_bind; [by eapply Hf, list_elem_of_lookup_2|].
        intros t' HR'. sound_step. exists t'. split; [|done]. rewrite insert_app_r_alt by lia. by rewrite Hpre, Nat.sub_diag.
      + intros ts' (t' & -> & HR'). apply (IH (S k) ltac:(lia) _ (pre ++ [t'])); [by rewrite <-app_assoc|rewrite length_app; simpl; lia|].
        rewrite (take_S_r l k t Ht). apply Forall2_app; [done|]. by constructor. }
  apply (Hgen (length l) 0%nat eq_refl _ []); [done..|constructor].
Qed.

Lemma core_name t t' : core t' = core t → name t' = name t.
Proof. intros H. exact (f_equal name H). Qed.

(** The tasks during the distribution: they keep what was read, [A] is established. *)
Definition stage (l0 : list oph_workflow_task) (A : oph_workflow_task → Prop) (ts : list oph_workflow_task) : Prop :=
  ∃ l f, ts = l ++ [f] ∧ Forall2 (λ t0 t, core t = core t0 ∧ complete t ∧ A t) l0 l ∧ final_cell f.

Lemma stage_all {E : Z → Prop} l0 (A B : oph_workflow_task → Prop) f ts :
  (∀ t, complete t → ends E (f t) (λ t', distributed t t' ∧ (A t → B t'))) →
  stage l0 A ts → ends E (wfold (on_task f) ts (seq 0 (S (length l0)))) (stage l0 B).
Proof.
  intros Hf (l & x & -> & Hl & Hx). rewrite (Forall2_length _ _ _ Hl).
  replace (S (length l)) with (length (l ++ [x])) by (rewrite length_app; simpl; lia). rewrite <-(app_nil_r (l ++ [x])) at 1.
  eapply sound_mono; [apply (sound_on_tasks f (λ t t', distributed t t' ∧ (A t → B t')))|].
  - intros t Ht. apply Hf. apply elem_of_app in Ht as [Ht|Ht%list_elem_of_singleton]; [|subst; apply Hx].
    apply list_elem_of_lookup in Ht as [i Hi]. destruct (Forall2_lookup_r _ _ _ _ _ Hl Hi) as (t0 & _ & _ & ? & _). done.
  - intros ts (l' & -> & Hl'). rewrite app_nil_r. apply Forall2_app_inv_l in Hl' as (l1 & l2 & H1 & H2 & ->).
    inversion H2 as [|? x' ? ? [Hx' _] H2']; subst. inversion H2'; subst. exists l1, x'. split; [done|]. split; [|split; [apply Hx'|by rewrite (core_name _ _ (di_core _ _ Hx')); apply Hx]].
    eapply Forall2_trans; [|exact Hl|exact H1]. simpl. intros a b c (Hc & Hco & HA) [[Hc' Hco'] HB]. split_and!; [congruence|done|auto].
Qed.

Lemma stage_front {E : Z → Prop} l0 (A B : oph_workflow_task → Prop) f ts :
  (∀ t0 t, t0 ∈ l0 → core t = core t0 → complete t → ends E (f t) (λ t', distributed t t' ∧ (A t → B t'))) →
  stage l0 A ts → ends E (wfold (on_task f) ts (seq 0 (length l0))) (stage l0 B).
Proof.
  intros Hf (l & x & -> & Hl & Hx). rewrite (Forall2_length _ _ _ Hl).
  eapply sound_mono; [apply (sound_on_tasks f (λ t t', distributed t t' ∧ (A t → B t')))|].
  - intros t Ht. apply list_elem_of_lookup in Ht as [i Hi]. destruct (Forall2_lookup_r _ _ _ _ _ Hl Hi) as (t0 & H0 & Hc & ? & _).
    apply (Hf t0); [by eapply list_elem_of_lookup_2|done..].
  - intros ts (l' & -> & Hl'). exists l', x. split; [done|]. split; [|done].
    eapply Forall2_trans; [|exact Hl|exact Hl']. simpl. intros a b c (Hc & Hco & HA) [[Hc' Hco'] HB]. split_and!; [congruence|done|auto].
Qed.

Lemma stage_substitute {E : Z → Prop} l0 (A B : oph_workflow_task → Prop) key v ts :
  (∀ rc, E rc → E OPH_WORKFLOW_EXIT_GENERIC_ERROR) → length l0 ≠ 0%nat → (∀ t, complete t → ends E (substitute_task key v t) (λ t', distributed t t' ∧ (A t → B t'))) →
  stage l0 A ts → ends E (generic (_oph_workflow_substitute_var key (Some v) ts (length l0))) (stage l0 B).
Proof.
  intros HE Hn Hf Hst. apply sound_generic; [done|]. unfold _oph_workflow_substitute_var. destruct (length l0 =? 0)%nat eqn:Hz; [by apply Nat.eqb_eq in Hz|].
  by eapply stage_all.
Qed.

Lemma stage_number l0 (A B : oph_workflow_task → Prop) key z gr set ts :
  length l0 ≠ 0%nat → is_resource key = true →
  (∀ z t, arguments (set z t) = arguments t ∧ core (set z t) = core t ∧ keeps key t (set z t)) →
  (∀ t t', keeps key t t' → A t → A t') → (∀ t t', keeps key t t' → A t → 0 ≤ gr t' → B t') →
  stage l0 A ts → sound (distribute_number key z gr set (length l0) ts) (stage l0 B).
Proof.
  intros Hn Hk Hset HA HB Hst. unfold distribute_number. eapply sound_bind with (P := stage l0 A).
  - destruct (z =? 0); [by sound_step|]. apply (stage_substitute l0 A A); [done..| |done].
    intros t Ht. eapply sound_mono; [by apply sound_substitute_resource|]. intros t' [Hd Hkp]. split; [done|eauto].
  - intros ts' Hts'. apply (stage_front l0 A B); [|done]. intros t0 t _ _ Ht.
    eapply sound_mono; [by apply sound_finalize_task|]. intros t' (Hd & Hkp & Hz). split; [done|eauto].
Qed.

Definition cores_ok (t : oph_workflow_task) : Prop := 0 ≤ ncores t.
Definition hosts_ok (t : oph_workflow_task) : Prop := 0 ≤ ncores t ∧ 0 ≤ nhosts t.
Definition resources_ok (t : oph_workflow_task) : Prop := 0 ≤ ncores t ∧ 0 ≤ nhosts t ∧ 0 ≤ nthreads t.

Lemma resources_ok_same t t' : resources t' = resources t → resources_ok t → resources_ok t'.
Proof. unfold resources, resources_ok. intros [= -> -> ->]. done. Qed.

Lemma has_argument_prefix key t t' : arguments t `prefix_of` arguments t' → has_argument key t → has_argument key t'.
Proof. intros [k Hk] (a & Ha & Hkey). exists a. split; [|done]. rewrite Hk. apply elem_of_app. by left. Qed.

Lemma returns_embedded_only ds : Forall complete_dep ds → returns (embedded_only ds) (λ _, True).
Proof.
  induction 1 as [|d ds Hd Hds IH]; simpl; [by apply returns_ret|]. eapply returns_bind with (P := λ _, True).
  - unfold is_text, strcmp0. destruct Hd as (_ & _ & _ & _ & _ & _ & Hty). destruct Hty as [-> |[-> | ->]]; by apply returns_ret.
  - intros [] _; [done|by apply returns_ret].
Qed.

Lemma sound_substitute_cube {E : Z → Prop} pid t :
  complete t → Forall complete_dep (deps t) →
  ends E (substitute_cube_task pid t) (λ t', distributed t t' ∧ resources t' = resources t ∧ arguments t `prefix_of` arguments t').
Proof.
  intros Ht Hd. unfold substitute_cube_task. eapply sound_bindC with (P := λ _, True).
  { case_bool_decide; [by apply returns_ret|]. eapply returns_mono; [by apply returns_find_key|]. done. }
  intros [j|] _; [by sound_step; split_and!|]. eapply sound_bindC; [by apply returns_embedded_only|]. intros [] _; [|by sound_step; split_and!].
  eapply sound_mono; [by apply sound_add_argument|]. intros t' (a & -> & _ & Hd'). split_and!; [done|done|by eexists].
Qed.

(** What the distribution establishes. *)
Definition spread (t : oph_workflow_task) : Prop := resources_ok t ∧ has_argument "cwd" t ∧ has_argument "cdd" t.

Lemma root_if_null x : returns (match x with None => strdup (Some OPH_WORKFLOW_ROOT_FOLDER) | Some _ => mret x end) (λ c : cstr, is_Some c).
Proof. destruct x; [by apply returns_ret|]. eapply returns_mono; [apply returns_strdup|]. by intros c ->. Qed.

Lemma stage_argument l0 (A : oph_workflow_task → Prop) key v ts :
  length l0 ≠ 0%nat → is_resource key = false →
  (∀ t t', resources t' = resources t → arguments t `prefix_of` arguments t' → A t → A t') →
  stage l0 A ts → sound (generic (_oph_workflow_substitute_var key (Some v) ts (length l0))) (stage l0 (λ t, A t ∧ has_argument key t)).
Proof.
  intros Hn Hk HA. apply stage_substitute; [done..|]. intros t Ht.
  eapply sound_mono; [by apply sound_substitute_task|]. intros t' (Hd & Hr & Hh & Hp). split; [done|eauto].
Qed.

Lemma sound_distribute wf l0 :
  tasks_num wf = length l0 → length l0 ≠ 0%nat → Forall task_read l0 → stage l0 (λ _, True) (tasks wf) →
  sound (distribute wf) (λ wf', stage l0 spread (tasks wf') ∧ is_Some (cwd wf') ∧ is_Some (cdd wf') ∧
    ∃ ts c d, wf' = set_tasks ts (set_cdd d (set_cwd c wf))).
Proof.
  intros Hn Hl Hread Hst. unfold distribute. rewrite Hn.
  eapply sound_bind; [apply (stage_number l0 (λ _, True) cores_ok); done|]. intros ts1 H1.
  eapply sound_bind; [apply (stage_number l0 cores_ok hosts_ok); try done|].
  { intros t t' [Hk _]. unfold cores_ok. by rewrite Hk. } { intros t t' [Hk _]. unfold cores_ok, hosts_ok. by rewrite Hk. }
  intros ts2 H2. eapply sound_bind; [apply (stage_number l0 hosts_ok resources_ok); try done|].
  { intros t t' [Hk Hh]. unfold hosts_ok. by rewrite Hk, Hh. } { intros t t' [Hk Hh]. unfold hosts_ok, resources_ok. rewrite Hk, Hh by done. naive_solver. }
  intros ts3 H3. eapply sound_bind with (P := stage l0 resources_ok).
  { destruct (project wf) as [p|]; [|by sound_step]. apply (stage_substitute l0 resources_ok); [done..| |done]. intros t Ht.
    eapply sound_mono; [by apply sound_substitute_task|]. intros t' (Hd & Hr & _). split; [done|]. by apply resources_ok_same. }
  intros ts4 H4. eapply sound_bindC; [apply root_if_null|]. intros ? [c ->].
  eapply sound_bind; [apply (stage_argument l0 resources_ok "cwd"); try done; eauto using resources_ok_same|]. intros ts5 H5.
  eapply sound_bindC; [apply root_if_null|]. intros ? [d ->].
  eapply sound_bind; [apply (stage_argument l0 (λ t, resources_ok t ∧ has_argument "cwd" t) "cdd"); try done|].
  { intros t t' Hr Hp [? ?]. split; [by eapply resources_ok_same|by eapply has_argument_prefix]. }
  intros ts6 H6. eapply sound_bind with (P := stage l0 spread).
  - assert (stage l0 spread ts6) as H6'.
    { destruct H6 as (l & f & -> & Hf & Hx). exists l, f. split_and!; [done| |done]. eapply Forall2_impl; [exact Hf|].
      intros t0 t (Hc & Hco & [Hr Hw] & Hd). done. }
    simpl. destruct (cube wf) as [p|]; [|by sound_step]. apply sound_generic; [done|]. unfold _oph_workflow_substitute_cube.
    destruct (length l0 =? 0)%nat eqn:Hz; [by apply Nat.eqb_eq in Hz|]. eapply stage_front; [|done]. intros t0 t Ht0 Hc Ht.
    eapply sound_mono; [apply sound_substitute_cube|].
    + done.
    + change (deps t) with (deps (core t)). rewrite Hc. apply (tr_deps t0). by eapply Forall_forall.
    + intros t' (Hd & Hr & Hp). split; [done|]. intros (? & ? & ?).
      split_and!; [by eapply resources_ok_same|by eapply has_argument_prefix..].
  - intros ts7 H7. sound_step. split_and!; [done|by eexists..|]. by exists ts7, (Some c), (Some d).
Qed.

(** A task the rest of the server can rely on. *)
Record task_ready (t : oph_workflow_task) : Prop := {
  ty_loaded : task_loaded t;
  ty_operator : is_Some (operator t);
  ty_type : type t = Some OPH_TYPE_OPHIDIA;
  ty_rtype : rtype t = None ∨ rtype t = Some OPH_TYPE_CONTROL ∨
    ((rtype t = Some OPH_TYPE_CDO ∨ rtype t = Some OPH_TYPE_GENERIC) ∧ has_argument OPH_ARG_COMMAND t);
  ty_arguments : Forall complete_argument (arguments t) ∧ has_argument "cwd" t ∧ has_argument "cdd" t;
  ty_deps : Forall complete_dep (deps t) ∧ residual_deps_num t = deps_num t;
  ty_resources : 0 ≤ ncores t ∧ 0 ≤ nhosts t ∧ 0 ≤ nthreads t;
  ty_retry : -1 ≤ retry_num t ∧ residual_retry_num t = retry_num t;
  ty_exit : 0 ≤ exit_action t ≤ 2;
  ty_flags : (run t = 0 ∨ run t = 1) ∧ (save t = 0 ∨ save t = 1);
  ty_links : parent t = -1 ∧ child t = -1 ∧ nesting_level t = 0 ∧ parallel_mode t = 0;
  ty_vars : ∃ tbl, vars t = Some tbl ∧ hash_wf tbl;
  ty_fresh : fresh_task t;
}.

(** Equality of the cores gives what was read of the task. *)
Ltac rewrite_same Hf t t0 f :=
  match goal with |- context [f t] => let E := fresh in assert (f t = f t0) as E by exact (Hf _ f); rewrite E; clear E end.
Lemma core_read t0 t : core t = core t0 → task_read t0 → task_read t.
Proof.
  intros Hc Ht. assert (∀ {A} (f : oph_workflow_task → A), f (core t) = f (core t0)) as Hf by (intros; by rewrite Hc).
  destruct Ht. split; unfold deps_num, fresh_task in *; repeat first [rewrite_same Hf t t0 status|rewrite_same Hf t t0 outputs|rewrite_same Hf t t0 is_skipped|rewrite_same Hf t t0 light_tasks|rewrite_same Hf t t0 is_marked_for_auto_retry|rewrite_same Hf t t0 name|rewrite_same Hf t t0 operator|rewrite_same Hf t t0 type|rewrite_same Hf t t0 rtype|rewrite_same Hf t t0 deps|rewrite_same Hf t t0 residual_deps_num|rewrite_same Hf t t0 dependents_indexes|rewrite_same Hf t t0 retry_num|rewrite_same Hf t t0 residual_retry_num|rewrite_same Hf t t0 exit_action|rewrite_same Hf t t0 run|rewrite_same Hf t t0 save|rewrite_same Hf t t0 parent|rewrite_same Hf t t0 child|rewrite_same Hf t t0 nesting_level|rewrite_same Hf t t0 parallel_mode|rewrite_same Hf t t0 vars]; done.
Qed.

Lemma read_ready t t' :
  task_read t → complete t' → spread t' → is_Some (operator t') → type t' = Some OPH_TYPE_OPHIDIA →
  (rtype t' = None ∨ rtype t' = Some OPH_TYPE_CONTROL ∨
    ((rtype t' = Some OPH_TYPE_CDO ∨ rtype t' = Some OPH_TYPE_GENERIC) ∧ has_argument OPH_ARG_COMMAND t')) →
  (∃ o ty rt args, t' = set_type ty (set_rtype rt (set_operator o (set_arguments args t)))) → task_ready t'.
Proof.
  intros [] Hco (Hr & Hw & Hd) Ho Hty Hrt (o & ty & rt & args & ->). split; try done. split; [done|]. split; [|done].
  eapply Forall_impl; [eassumption|]. intros d (_ & _ & ? & _). done.
Qed.

Lemma sound_retype {E : Z → Prop} s t (Q : oph_workflow_task → Prop) :
  Q (set_type (Some OPH_TYPE_OPHIDIA) (set_rtype (type t) (set_operator (Some ("oph_" +:+ s)) t))) → ends E (retype (Some s) t) Q.
Proof. intros HQ. unfold retype. by sound_steps. Qed.

Lemma sound_adapt_task t : task_read t → complete t → spread t → sound (adapt_task t) task_ready.
Proof.
  intros Hread Hco Hsp. pose proof Hread as []. destruct tr_type0 as (ty & Hty & Hin), tr_operator0 as [o Ho].
  unfold adapt_task. rewrite Hty, Ho. sound_step. destruct (eqs ty OPH_TYPE_CDO || eqs ty OPH_TYPE_GENERIC) eqn:Hext.
  - eapply sound_bind with (P := λ t', t' = set_arguments (arguments t ++ [null_argument]) t).
    { unfold realloc_vectors. rewrite bool_decide_eq_false_2; [by sound_steps|].
      destruct Hsp as (_ & (a & Ha & _) & _). intros E. rewrite E in Ha. inversion Ha. }
    intros ? ->. change (operator (set_arguments _ t)) with (operator t). rewrite Ho. sound_steps.
    change (type (set_arguments _ t)) with (type t). rewrite Hty. apply sound_retype. simpl.
    rewrite insert_app_r_alt, Nat.sub_diag by done. simpl.
    assert (arguments t `prefix_of` arguments t ++ [Arg (Some OPH_ARG_COMMAND) (Some o) []]) as Hpre by by eexists.
    eapply (read_ready t); [done| | | |done| |].
    + apply Forall_app. split; [done|]. apply Forall_singleton. by split; eexists.
    + destruct Hsp as (? & ? & ?). split_and!; [done|by eapply has_argument_prefix..].
    + by eexists.
    + right. right. split; [|eexists; split; [apply elem_of_app; right; left|done]].
      apply orb_true_iff in Hext as [->%eqs_true | ->%eqs_true]; [by left|by right].
    + eexists _, _, _, _. reflexivity.
  - destruct (eqs ty OPH_TYPE_CONTROL) eqn:Hctl.
    + apply eqs_true in Hctl as ->. apply sound_retype. rewrite Hty. eapply (read_ready t); [done..|by eexists|done|by right; left|].
      exists (Some ("oph_" +:+ o)), (Some OPH_TYPE_OPHIDIA), (Some OPH_TYPE_CONTROL), (arguments t). by destruct t.
    + sound_step. assert (ty = OPH_TYPE_OPHIDIA) as ->.
      { unfold task_types in Hin. rewrite !elem_of_cons in Hin. apply orb_false_iff in Hext as [H1 H2]. unfold eqs in *.
        rewrite bool_decide_eq_false in H1, H2, Hctl. set_solver. }
      eapply (read_ready t); [done..|by eexists|done|by left|]. exists (operator t), (type t), (rtype t), (arguments t). by destruct t.
Qed.

(** A workflow the rest of the server can rely on: its tasks and, last, the final task. *)
Record workflow_ready (wf : oph_workflow) : Prop := {
  wr_name : is_Some (wf_name wf);
  wr_folders : is_Some (cwd wf) ∧ is_Some (cdd wf);
  wr_count : (1 ≤ tasks_num wf)%nat ∧ length (tasks wf) = S (tasks_num wf) ∧ residual_tasks_num wf = Z.of_nat (tasks_num wf);
  wr_tasks : ∀ i, (i < tasks_num wf)%nat → ∃ t, tasks wf !! i = Some t ∧ task_ready t;
  wr_vars : ∃ tbl, wf_vars wf = Some tbl ∧ hash_wf tbl;
  wr_status : wf_status wf = OPH_WORKFLOW_STATUS_PENDING;
  wr_final : ∃ f, tasks wf !! tasks_num wf = Some f ∧ name f = None;
}.

(** The conditions on a whole document. *)
Definition doc_ok (v : json_t) : bool :=
  match unpack_value v "tasks" with
  | Some a => forallb (task_ok (unpack_strings v global_keys)) (elements a)
  | None => true
  end.

Section load_theorems.
Context `{Jansson} (oph_base_backoff oph_direct_output : Z).

Lemma sound_load_tasks g v wf0 :
  named_with (if not_empty (get g "checkpoint") then get g "checkpoint" else None) wf0 →
  match unpack_value v "tasks" with Some a => forallb (task_ok g) (elements a) | None => true end = true →
  sound (load_tasks oph_base_backoff g v wf0) (λ wf, ∃ l0, is_Some (wf_name wf) ∧ wf_status wf = OPH_WORKFLOW_STATUS_PENDING ∧ tasks_num wf = length l0 ∧ length l0 ≠ 0%nat ∧ Forall task_read l0 ∧
    stage l0 (λ _, True) (tasks wf) ∧ residual_tasks_num wf = Z.of_nat (length l0) ∧ ∃ tbl, wf_vars wf = Some tbl ∧ hash_wf tbl).
Proof.
  intros (Hcp & Hstatus & Hname) Hok. unfold load_tasks. destruct (unpack_value v "tasks") as [a|]; [|sound_step].
  assert (json_array_size (Some a) = length (elements a)) as -> by (by destruct a).
  destruct (length (elements a) =? 0)%nat eqn:Hn; [sound_step|]. apply Nat.eqb_neq in Hn. sound_step.
  eapply sound_bindC; [by apply returns_create|]. intros ? (tbl & -> & Hwf).
  eapply sound_bind; [apply (sound_wmapi _ _ _ (λ _ t, task_read t ∧ complete t ∧ no_resources t))|].
  { intros i x Hx. apply sound_load_task; [done..|]. rewrite forallb_forall in Hok. by apply Hok, list_elem_of_In. }
  intros ts Hts. eapply sound_bind; [apply sound_final_task|]. intros f Hf. sound_step. exists ts.
  assert (Forall (λ t, task_read t ∧ complete t ∧ no_resources t) ts) as Hall by (clear -Hts; induction Hts; constructor; auto).
  rewrite <-(Forall2_length _ _ _ Hts). split_and!; [done..| | |done|by eexists].
  - eapply Forall_impl; [exact Hall|]. naive_solver.
  - exists ts, f. split_and!; [done| |done]. clear -Hall. induction Hall; constructor; naive_solver.
Qed.

Lemma sound_load_tree v wf0 : wf_checkpoint wf0 = None → wf_status wf0 = OPH_WORKFLOW_STATUS_PENDING → doc_ok v = true → sound (load_tree oph_base_backoff oph_direct_output v wf0) workflow_ready.
Proof.
  intros H0 Hs0 Hok. unfold load_tree. eapply sound_bind; [by apply sound_load_globals|]. intros wf1 Hwf1.
  eapply sound_bind; [by apply sound_load_tasks|]. intros wf2 (l0 & Hnm & Hws & Hn & Hl & Hread & Hst & Hres & Hvars).
  eapply sound_bind; [by eapply sound_distribute|]. intros ? ((l & f & Hts & Hl2 & Hf) & Hc & Hd & ts & c & d & ->). simpl in Hts. subst ts.
  simpl. rewrite Hn, (Forall2_length _ _ _ Hl2).
  eapply sound_bind; [apply (sound_on_tasks adapt_task (λ _, task_ready))|].
  - intros t Ht. apply list_elem_of_lookup in Ht as [i Hi]. destruct (Forall2_lookup_r _ _ _ _ _ Hl2 Hi) as (t0 & Ht0 & Hc0 & Hco & Hsp).
    apply sound_adapt_task; [|done..]. eapply core_read; [done|]. eapply Forall_lookup_1; [exact Hread|done].
  - intros ? (l' & -> & Hl'). sound_step. pose proof (Forall2_length _ _ _ Hl2) as E1. pose proof (Forall2_length _ _ _ Hl') as E2. split; simpl; [done|done| | |done|done|].
    + rewrite length_app. simpl. lia.
    + intros i Hi. destruct (lookup_lt_is_Some_2 l' i ltac:(lia)) as [t Ht]. exists t. split; [by apply lookup_app_l_Some|].
      by destruct (Forall2_lookup_r _ _ _ _ _ Hl' Ht) as (_ & _ & ?).
    + exists f. split; [|apply Hf]. rewrite lookup_app_r by lia. by replace (_ - _)%nat with 0%nat by lia.
Qed.

(** The tree of a text, if it has one, satisfies the conditions. *)
Definition document_ok (s : string) : Prop :=
  ∀ clean v m m', _oph_workflow_skip_comments (Some s) m = Ok (OPH_WORKFLOW_EXIT_SUCCESS, Some clean) m' →
    json_loads clean = Some v → doc_ok v = true.

Lemma sound_load s u ip :
  document_ok s → sound (oph_workflow_load oph_base_backoff oph_direct_output (Some s) (Some u) ip) workflow_ready.
Proof.
  intros Hok. unfold oph_workflow_load.
  eapply sound_bind with (P := λ wf, wf_checkpoint wf = None ∧ wf_status wf = OPH_WORKFLOW_STATUS_PENDING).
  { apply sound_generic; [done|]. unfold _oph_workflow_alloc. by sound_steps. }
  intros wf [Hwf Hws]. sound_step. eapply sound_bindC with (P := λ _, True).
  { destruct ip as [ip|]; [|by apply returns_ret]. eapply returns_mono; [apply returns_strdup|done]. }
  intros ip' _. eapply sound_bindC with (P := λ r, (r.1 = OPH_WORKFLOW_EXIT_SUCCESS ↔ is_Some r.2) ∧
    ∃ m m', _oph_workflow_skip_comments (Some s) m = Ok r m').
  { intros m Hm. destruct (wp_run _ _ _ (skip_comments_returns s m)) as (r & m' & Hr & Hiff & Hrel). unfold wp. rewrite Hr. split; [|auto]. eauto. }
  intros [rc clean] [Hiff (m & m' & Hrun)]. simpl in Hiff. destruct (rc =? 0) eqn:Hrc; [|by sound_step].
  apply Z.eqb_eq in Hrc as ->. destruct clean as [clean|]; [|by sound_step].
  destruct (json_loads clean) as [v|] eqn:Hv; [|by sound_step]. apply sound_load_tree; [done|done|]. by eapply Hok.
Qed.

(** C18: For a text whose document satisfies document_ok (its arguments are strings, each task has a checkpoint label
    of its own if the workflow has one, and no retry count is the largest integer; without these the loader reads a
    null pointer or overflows), given memory, oph_workflow_load returns: it refuses the text with an error code or
    delivers a workflow in which every task has a name, an operator, complete arguments with the folders, complete
    dependencies of a known type, resources that are not negative and tables for its variables, with counters that
    agree and one cell left for the final task. *)
Theorem load_delivers_ready s u ip m :
  document_ok s → reliable m →
  wp (oph_workflow_load oph_base_backoff oph_direct_output (Some s) (Some u) ip) (λ r _,
    match r with inl rc => rc ≠ OPH_WORKFLOW_EXIT_SUCCESS | inr wf => workflow_ready wf end) m.
Proof. intros Hs Hm. eapply wp_mono; [by apply sound_load|]. by intros [rc|wf] m' [Hr _]. Qed.

Lemma ready_loaded wf : workflow_ready wf → loaded (tasks wf) (tasks_num wf) ∧ tasks_num wf ≠ 0%nat.
Proof.
  intros [_ _ (Hn & Hl & _) Ht _ _ _]. split; [|lia]. split; [lia|]. intros i t Hi Hlk. destruct (Ht i Hi) as (t' & Hlk' & []). by simplify_eq.
Qed.

(** Indexing changes neither names nor arguments nor operators. *)
Lemma ready_reindexed wf ts :
  workflow_ready wf → Forall2 reindexed (tasks wf) ts →
  ts ≠ [] ∧ WfDag.named ts (tasks_num wf) ∧ WfDag.argued ts (tasks_num wf) ∧ WfFlow.operators ts (tasks_num wf).
Proof.
  intros [_ _ (Hn & Hl & _) Ht _ _ _] Hre. pose proof (Forall2_length _ _ _ Hre) as Hlen.
  assert (∀ i t, (i < tasks_num wf)%nat → ts !! i = Some t → ∃ t0, task_ready t0 ∧ name t = name t0 ∧ arguments t = arguments t0 ∧ operator t = operator t0) as Hget.
  { intros i t Hi Hlk. destruct (Ht i Hi) as (t0 & Hlk0 & Hr). exists t0. destruct (Forall2_lookup_lr _ _ _ _ _ _ Hre Hlk0 Hlk) as (ds & di & -> & _). done. }
  split_and!.
  - intros ->. simpl in Hlen. lia.
  - split; [lia|]. intros i t Hi Hlk. destruct (Hget i t Hi Hlk) as (t0 & [] & -> & _). by destruct ty_loaded0.
  - intros i t a Hi Hlk Ha. destruct (Hget i t Hi Hlk) as (t0 & [] & _ & Harg & _). rewrite Harg in Ha. destruct ty_arguments0 as [Hco _].
    rewrite Forall_forall in Hco. by apply Hco.
  - intros i t Hi Hlk. by destruct (Hget i t Hi Hlk) as (t0 & [] & _ & _ & ->).
Qed.

(** The first steps of a request: a document becomes a workflow that can be started. *)
Definition set_up (child0 : Z) (s u : string) (ip : cstr) : C (option (list oph_workflow_task * oph_workflow)) :=
  r ← oph_workflow_load oph_base_backoff oph_direct_output (Some s) (Some u) ip;
  match r with
  | inl _ => mret None
  | inr wf =>
      '(rc, ts) ← oph_workflow_indexing (Some (tasks wf)) (tasks_num wf);
      if negb (rc =? 0) then mret None else
      ts ← deref ts;
      rc ← oph_workflow_validate (Some (set_tasks ts wf));
      if negb (rc =? 0) then mret None else
      '(rc, wf) ← WfFlow.oph_workflow_validate_fco child0 (Some (set_tasks ts wf));
      if negb (rc =? 0) then mret None else
      wf ← deref wf; mret (Some (ts, wf))
  end.

Lemma wp_set_up child0 s u ip m :
  document_ok s → reliable m →
  wp (set_up child0 s u ip) (λ r _, match r with
    | None => True
    | Some (ts, wf) =>
        let n := tasks_num wf in
        (indexed ts n ∧ WfDag.unique_names ts n ∧ WfDag.acyclic ts n ∧ WfFlow.same_tasks ts (tasks wf) ∧
        ∀ j t, (j < n)%nat → tasks wf !! j = Some t → WfFlow.is_closer (WfFlow.op_of ts j) = true →
          ∃ p, parent t = Z.of_nat p ∧ WfFlow.link ts n p j) ∧
        ∃ wf0, workflow_ready wf0 ∧ Forall2 reindexed (tasks wf0) ts ∧ wf = set_tasks (tasks wf) wf0
    end) m.
Proof.
  intros Hs Hm. unfold set_up. apply wp_bind. eapply wp_mono; [by apply sound_load|]. intros [rc|wf] m1 [Hwf Hm1]; [by apply wp_ret|].
  simpl in Hwf. destruct (ready_loaded wf Hwf) as [Hld Hn]. apply wp_bind. eapply wp_mono; [by apply indexing_spec|].
  intros [rc o] m2 (ts & Ho & Hr). simpl in Ho, Hr. subst o. destruct (Z.eqb_spec rc 0) as [->|]; cbv beta iota delta [negb]; [|by apply wp_ret].
  destruct Hr as [(_ & Hm2 & Hig)|[[? _]|[? _]]]; [|done..]. pose proof (indexing_indexed _ _ _ Hld Hig) as Hix.
  destruct (ready_reindexed wf ts Hwf (ig_frame _ _ _ _ Hig)) as (Hne & Hnm & Harg & Hop).
  apply wp_bind, wp_ret, wp_bind. eapply wp_mono; [by apply (WfDag.validate_spec (set_tasks ts wf))|]. intros rc m3 [Hval _].
  destruct (Z.eqb_spec rc 0) as [->|]; cbv beta iota delta [negb]; [|by apply wp_ret]. destruct (Hval eq_refl) as (Huniq & _ & Hac).
  apply wp_bind. eapply wp_mono; [by apply (WfFlow.validate_fco_spec child0 (set_tasks ts wf))|].
  intros [rc wf'] m4 (ts' & Hw & Hsame & _ & Hclosed). simpl in Hw, Hclosed. subst wf'. destruct (Z.eqb_spec rc 0) as [->|]; cbv beta iota delta [negb]; [|by apply wp_ret].
  apply wp_bind, wp_ret, wp_ret. split; [split_and!; [done..|]; by apply Hclosed|].
  exists wf. split; [done|]. split; [apply (ig_frame _ _ _ _ Hig)|done].
Qed.

(** C13: A text that satisfies the conditions is loaded, indexed, validated and its flow control
    operators are paired without leaving an array and without a loop that does not end;
    when it is accepted, the names of the tasks are pairwise different, dependencies and
    dependents are dual and form no cycle, and every closing operator has an opening one of its kind
    from which it is reachable. *)
Theorem accepted_document child0 s u ip m :
  document_ok s → reliable m →
  wp (set_up child0 s u ip) (λ r _, match r with
    | None => True
    | Some (ts, wf) =>
        let n := tasks_num wf in
        indexed ts n ∧ WfDag.unique_names ts n ∧ WfDag.acyclic ts n ∧ WfFlow.same_tasks ts (tasks wf) ∧
        ∀ j t, (j < n)%nat → tasks wf !! j = Some t → WfFlow.is_closer (WfFlow.op_of ts j) = true →
          ∃ p, parent t = Z.of_nat p ∧ WfFlow.link ts n p j
    end) m.
Proof. intros Hs Hm. eapply wp_mono; [by apply wp_set_up|]. intros [[ts wf]|] m' Hr; [|done]. destruct Hr as [Hr _]. exact Hr. Qed.
End load_theorems.

(** ** Witnesses *)

(** A library that reads one tree from every text. *)
Definition tree_reader (v : json_t) : Jansson := {| utf8 _ := true; json_dumps _ := EmptyString; json_loads _ := Some v |}.

Definition sample_tree : json_t :=
  JObject [("name", JString "w"); ("ncores", JString "2"); ("tasks", JArray [
    JObject [("name", JString "A"); ("operator", JString "oph_list"); ("arguments", JArray [JString "level=1"]);
             ("on_error", JString "repeat 3 10 e")];
    JObject [("name", JString "B"); ("operator", JString "ls"); ("type", JString "generic");
             ("dependencies", JArray [JObject [("task", JString "A")]]);
             ("variables", JArray [JObject [("key", JString "x"); ("ivalue", JString "7")]])]])]%string.

Definition no_texts : string := "{} // nothing
".

Lemma sample_document_ok : document_ok (H := tree_reader sample_tree) no_texts.
Proof. intros clean v m m' _ [= <-]. vm_compute. reflexivity. Qed.

Lemma load_delivers_ready_witness :
  wp (oph_workflow_load (H := tree_reader sample_tree) 10 0 (Some no_texts) (Some "me"%string) None) (λ r _,
    match r with inl rc => rc ≠ OPH_WORKFLOW_EXIT_SUCCESS | inr wf => workflow_ready wf end) [].
Proof. apply (load_delivers_ready (H := tree_reader sample_tree)); [apply sample_document_ok|apply reliable_nil]. Defined.

Lemma accepted_document_witness :
  match set_up (H := tree_reader sample_tree) 10 0 7 no_texts "me" None [] with Ok (Some _) _ => true | _ => false end = true ∧
  wp (set_up (H := tree_reader sample_tree) 10 0 7 no_texts "me" None) (λ r _, match r with
    | None => True
    | Some (ts, wf) =>
        let n := tasks_num wf in
        indexed ts n ∧ WfDag.unique_names ts n ∧ WfDag.acyclic ts n ∧ WfFlow.same_tasks ts (tasks wf) ∧
        ∀ j t, (j < n)%nat → tasks wf !! j = Some t → WfFlow.is_closer (WfFlow.op_of ts j) = true →
          ∃ p, parent t = Z.of_nat p ∧ WfFlow.link ts n p j
    end) [].
Proof.
  split; [vm_compute; reflexivity|].
  apply (accepted_document (H := tree_reader sample_tree)); [apply sample_document_ok|apply reliable_nil].
Defined.

(** ** Undefined behaviour *)

Lemma wbind_run {A B} (c : W A) (f : A → W B) m a m' : c m = Ok (inr a) m' → wbind c f m = f a m'.
Proof. unfold wbind. by intros ->. Qed.
Lemma wbind_ub {A B} (c : W A) (f : A → W B) m : c m = UB → wbind c f m = UB.
Proof. unfold wbind. by intros ->. Qed.

(** A document of one task, with further members of the workflow and of the task. *)
Definition one_task_doc (nm tn op : string) (more task_more : fields) : json_t :=
  JObject (("name"%string, JString nm) :: ("tasks"%string, JArray [
    JObject (("name"%string, JString tn) :: ("operator"%string, JString op) :: task_more)]) :: more).

(** An argument that is not a text leaves a null key, which the search for the number of
    cores compares. *)
Theorem scalar_argument_ub base dout nm tn op text :
  load_tree base dout (one_task_doc nm tn op [] [("arguments"%string, JArray [JScalar text])]) new_workflow [] = UB.
Proof. vm_compute. reflexivity. Qed.

(** A label for checkpoints of the workflow is copied from the task, which may have none. *)
Theorem global_checkpoint_ub base dout nm tn op :
  load_tree base dout (one_task_doc nm tn op [("checkpoint", JString "c")]%string []) new_workflow [] = UB.
Proof. vm_compute. reflexivity. Qed.

(** The number of hosts of the workflow ends in the number of threads of a task without
    arguments. *)
Theorem hosts_become_threads base dout nm tn op :
  match load_tree base dout (one_task_doc nm tn op [("nhost", JString "4")]%string []) new_workflow [] with
  | Ok (inr wf) _ => (λ t, (nhosts t, nthreads t)) <$> (tasks wf !! 0%nat) = Some (0, 4)
  | _ => False
  end.
Proof. vm_compute. reflexivity. Qed.
End WfReady.
