(* ===== verification/WfStore.v ===== *)
(** * Storing a workflow as a document ([src/src/oph_workflow/oph_workflow_parsing.c])

    [oph_workflow_store] prints a workflow as a request, either as it is (to run it again) or
    from a checkpoint: without the tasks that are over, and with the variables.

    The struct of a variable in a table of the workflow keeps a pointer to its text that was
    released right after the insertion (the text itself follows the struct, which is
    what [oph_workflow_var_substitute] uses); the field [svalue] of the model is the text after
    the struct, so that the use of the pointer itself is undefined here.

    Theorems: a workflow that was stored loads again with the same tasks; what is lost;
    storing from a checkpoint never succeeds. *)

From Stdlib Require Ascii.
From stdpp Require Import base gmap strings numbers pretty list.
From S2P Require Import Prelude CString HashTbl Trash WfStructs WfSetup WfDag WfFlow Auth WfVars JsonDoc JsonText JsonRound WfLoad WfReady.
Import (notations) Stdlib.Strings.Ascii.
Import HashTbl WfStructs WfSetup JsonText WfLoad WfReady.

Module WfStore.

#[local] Open Scope Z_scope.
#[local] Open Scope cstr_scope.
#[local] Open Scope json_text_scope.

Definition OPH_WORKFLOW_MAX_STRING : nat := WfVars.OPH_WORKFLOW_MAX_STRING.
Definition OPH_GLOBAL_VARS : string := "Global variables".
Definition OPH_ARG_KEYS : string := "keys".
Definition OPH_ARG_VALUE : string := "value".
Definition OPH_SEPARATOR_SUBPARAM_STR : string := "|".

(** Any failure of the steps below ends in this code. *)
Definition bad_param {A} (c : W A) : W A :=
  r ← c; mret (match r with inl _ => inl OPH_WORKFLOW_EXIT_BAD_PARAM_ERROR | inr a => inr a end).

(** [snprintf(jsontmp, OPH_WORKFLOW_MAX_STRING, ...)] *)
Definition max_text (s : string) : string := truncate OPH_WORKFLOW_MAX_STRING s.

(** [strncat(buf, s, OPH_WORKFLOW_MAX_STRING - strlen(buf))] in a buffer of that size: the
    terminator may not fit. *)
Definition strncat (buf s : string) : C string :=
  let r := buf +:+ take_str (OPH_WORKFLOW_MAX_STRING - String.length buf) s in
  assertC (bool_decide (String.length r < OPH_WORKFLOW_MAX_STRING)%nat);; mret r.

(** [value->svalue], a pointer to released memory. *)
Definition svalue_pointer (v : oph_workflow_var) : C string := undef.

Section store.
Context `{Jansson}.

Definition _oph_workflow_add_to_json (item : fields) (name : string) (value : cstr) : W fields :=
  match value with
  | None => wret item
  | Some _ =>
      r ← set_string item name value;
      mret (match r with inl _ => inl OPH_WORKFLOW_EXIT_MEMORY_ERROR | inr fs => inr fs end)
  end.

(** A list of members, one after the other. *)
Definition add_members (fs : fields) (l : list (string * cstr)) : W fields :=
  wfold (λ fs m, _oph_workflow_add_to_json fs m.1 m.2) fs l.

(** ** Global members *)

Definition store_globals (wf : oph_workflow) (checkpoint : cstr) : W fields :=
  nm ← deref (wf_name wf);
  let title := max_text (nm +:+ match checkpoint with Some c => " - from checkpoint: " +:+ c | None => EmptyString end) in
  bad_param (add_members [] [
    ("name", Some title); ("author", author wf); ("abstract", abstract wf); ("url", url wf);
    ("sessionid", sessionid wf); ("exec_mode", exec_mode wf); ("ncores", Some (int_text (wf_ncores wf)));
    ("nhost", Some (int_text (wf_nhosts wf))); ("nthreads", Some (int_text (wf_nthreads wf)));
    ("project", project wf); ("on_error", wf_on_error wf); ("on_exit", wf_on_exit wf);
    ("run", if (wf_run wf =? 0)%Z then Some "no" else None); ("checkpoint", wf_checkpoint wf);
    ("cwd", cwd wf); ("cdd", cdd wf); ("cube", cube wf); ("callback_url", callback_url wf); ("command", command wf);
    ("host_partition", match host_partition_orig wf with Some p => Some p | None => host_partition wf end)]%string).

(** ** Global variables

    The names and the values of the variables that are not basic, in two texts. *)
Definition is_basic_key (key : string) : bool := existsb (eqs key) WfVars.OPH_WORKFLOW_BVAR_KEYS.

Definition collect_variable (st : string * string * bool) (kv : string * oph_workflow_var) : C (string * string * bool) :=
  let '(keys, values, first) := st in
  if is_basic_key kv.1 then mret st else
  keys ← (if first : bool then mret keys else strncat keys OPH_SEPARATOR_SUBPARAM_STR);
  keys ← strncat keys kv.1;
  values ← (if first : bool then mret values else strncat values OPH_SEPARATOR_SUBPARAM_STR);
  v ← svalue_pointer kv.2;
  values ← strncat values v;
  mret (keys, values, false).

(** The entries in the order in which [hashtbl_next] delivers them. *)
Definition all_variables (tbl : HASHTBL oph_workflow_var) : C (list (string * oph_workflow_var)) :=
  enumerate (S (length (concat (nodes tbl)))) tbl None.

Definition set_task_object (keys values : string) : W fields :=
  let! fs := add_members [] [("name", Some OPH_GLOBAL_VARS); ("type", Some OPH_TYPE_OPHIDIA); ("operator", Some OPH_OPERATOR_SET)]%string in
  let! _ := json_new in
  let! l := append_string [] (Some keys) in
  let! l := append_string l (Some values) in
  json_object_set_new fs "arguments" (Some (JArray l)).

(** A task that sets the variables; each failure leaves it out.  The result tells whether the
    task was added. *)
Definition store_variables (wf : oph_workflow) (checkpoint : cstr) (ts : list json_t) : C (list json_t * bool) :=
  match checkpoint, wf_vars wf with
  | Some _, Some tbl =>
      kvs ← all_variables tbl;
      '(keys, values, first) ← foldC collect_variable (OPH_ARG_KEYS +:+ "=", OPH_ARG_VALUE +:+ "=", true)%string kvs;
      if first : bool then mret (ts, false) else
      r ← (let! _ := json_new in let! fs := set_task_object keys values in json_array_append_new ts (Some (JObject fs)));
      mret (match r with inl _ => (ts, false) | inr ts' => (ts', true) end)
  | _, _ => mret (ts, false)
  end.

(** ** Tasks *)

Definition completed (t : oph_workflow_task) : bool := OPH_ODB_STATUS_COMPLETED <=? status t.

(** Is task [i] left out of a checkpoint? *)
Definition task_over (wf : oph_workflow) (t : oph_workflow_task) : C bool :=
  if completed t then mret true
  else if parent t <? 0 then mret false
  else p ← deref (task_at wf (parent t)); mret (completed p).

(** The command of a task of another kind is one of its arguments. *)
Definition erases_command (t : oph_workflow_task) : bool :=
  match rtype t with Some ty => negb (eqs ty OPH_TYPE_CONTROL) | None => false end.

(** [operator + (rtype ? 4 : 0)] *)
Definition stored_operator (t : oph_workflow_task) : C cstr :=
  match rtype t with
  | None => mret (operator t)
  | Some _ => o ← deref (operator t); assertC (4 <=? String.length o)%nat;; mret (Some (WfVars.drop_str 4 o))
  end.

Definition store_argument (t : oph_workflow_task) (st : fields * list json_t) (a : argument) : W (fields * list json_t) :=
  let '(fs, args) := st in
  k ← deref (arg_key a);
  if erases_command t && eqs k OPH_ARG_COMMAND then
    let! fs := _oph_workflow_add_to_json fs "operator" (arg_value a) in wret (fs, args)
  else
    v ← deref (arg_value a);
    let! args := append_string args (Some (max_text (k +:+ "=" +:+ v))) in wret (fs, args).

(** The last task looked at: the one with the name, or the last one of all. *)
Fixpoint find_parent (wf : oph_workflow) (checkpoint : cstr) (i : nat) (nm : cstr) (skip : bool) (ks : list nat) : C (bool * bool) :=
  match ks with
  | [] => mret (skip, false)
  | k :: ks' =>
      t ← deref (tasks wf !! k);
      let skip := (k =? i)%nat || match checkpoint with Some _ => completed t | None => false end in
      b ← strcmp0 (name t) nm;
      if b : bool then mret (skip, true) else find_parent wf checkpoint i nm skip ks'
  end.

Definition store_dep (wf : oph_workflow) (checkpoint : cstr) (i : nat) (l : list json_t) (d : oph_workflow_dep) : W (list json_t) :=
  if match checkpoint with Some _ => task_index d <? 0 | None => false end then wret l else
  '(skip, found) ← find_parent wf checkpoint i (task_name d) false (seq 0 (tasks_num wf));
  if skip || negb found then wret l else
  let! _ := json_new in
  let! fs := add_members [] [
    ("argument", dep_argument d); ("order", dep_order d); ("task", task_name d); ("type", dep_type d);
    ("filter", dep_filter d); ("output_argument", output_argument d); ("output_order", output_order d)]%string in
  json_array_append_new l (Some (JObject fs)).

(** The dependency on the task that sets the variables; a failure leaves it out. *)
Definition store_global_dep (add_global_vars : bool) (l : list json_t) : C (list json_t) :=
  if negb add_global_vars then mret l else
  r ← (let! _ := json_new in let! fs := _oph_workflow_add_to_json [] "task" (Some OPH_GLOBAL_VARS) in
       json_array_append_new l (Some (JObject fs)));
  mret (match r with inl _ => l | inr l' => l' end).

Definition store_deps (wf : oph_workflow) (checkpoint : cstr) (add_global_vars : bool) (i : nat) (t : oph_workflow_task) (fs : fields) : W fields :=
  if bool_decide (deps t = []) then wret fs else
  let! _ := json_new in
  l ← store_global_dep add_global_vars [];
  let! l := wfold (store_dep wf checkpoint i) l (deps t) in
  json_object_set_new fs "dependencies" (Some (JArray l)).

(** The variables of a task; without any, the code gives up the whole document. *)
Definition store_task_variable (l : list json_t) (kv : string * oph_workflow_var) : W (list json_t) :=
  let! _ := json_new in
  v ← svalue_pointer kv.2;
  let! fs := add_members [] [("key", Some kv.1); ("svalue", Some v); ("ivalue", Some (max_text (print_int (ivalue kv.2))))]%string in
  json_array_append_new l (Some (JObject fs)).

(** A failure ends the loop over the variables. *)
Fixpoint store_task_variables (l : list json_t) (kvs : list (string * oph_workflow_var)) : C (list json_t) :=
  match kvs with
  | [] => mret l
  | kv :: kvs' => r ← store_task_variable l kv; match r with inl _ => mret l | inr l' => store_task_variables l' kvs' end
  end.

Definition store_own_variables (checkpoint : cstr) (t : oph_workflow_task) (fs : fields) : W fields :=
  match checkpoint, vars t with
  | Some _, Some tbl =>
      let! _ := json_new in
      kvs ← all_variables tbl;
      l ← store_task_variables [] kvs;
      if bool_decide (l = []) then wfail OPH_WORKFLOW_EXIT_BAD_PARAM_ERROR
      else json_object_set_new fs "variables" (Some (JArray l))
  | _, _ => wret fs
  end.

Definition option_members (t : oph_workflow_task) : list (string * cstr) :=
  [("on_error", on_error t); ("on_exit", on_exit t); ("run", if (run t =? 0)%Z then Some "no" else None);
   ("checkpoint", checkpoint t)]%string.

(** The texts of a task and the list of its arguments. *)
Definition store_texts (t : oph_workflow_task) : W (fields * list json_t) :=
  let! fs := add_members [] [("name", name t); ("type", match rtype t with Some ty => Some ty | None => type t end)]%string in
  o ← (if erases_command t then mret None else stored_operator t);
  let! fs := add_members fs (("operator"%string, o) :: option_members t) in
  let! _ := json_new in
  wfold (store_argument t) (fs, []) (arguments t).

(** The object of task [i]; it is in the list before its variables are added. *)
Definition store_task (wf : oph_workflow) (checkpoint : cstr) (add_global_vars : bool) (i : nat) (t : oph_workflow_task) (ts : list json_t) :
    W (list json_t) :=
  let! _ := json_new in
  let! st := store_texts t in
  let! fs := json_object_set_new st.1 "arguments" (Some (JArray st.2)) in
  let! fs := store_deps wf checkpoint add_global_vars i t fs in
  let! ts := json_array_append_new ts (Some (JObject fs)) in
  let! fs := store_own_variables checkpoint t fs in
  wret (JsonDoc.set_last ts (JObject fs)).

(** The loop over the tasks; [empty] tells whether no task was stored. *)
Definition store_step (wf : oph_workflow) (checkpoint : cstr) (add_global_vars : bool) (st : list json_t * bool) (i : nat) :
    W (list json_t * bool) :=
  let '(ts, empty) := st in
  t ← deref (tasks wf !! i);
  over ← (match checkpoint with Some _ => task_over wf t | None => mret false end);
  if over : bool then wret (ts, empty) else
  let! ts := store_task wf checkpoint add_global_vars i t ts in
  wret (ts, false).

(** The tree of the request. *)
Definition store_tree (wf : oph_workflow) (checkpoint : cstr) : W json_t :=
  let! fs := store_globals wf checkpoint in
  let! _ := bad_param json_new in
  '(ts, add_global_vars) ← store_variables wf checkpoint [];
  let! st := bad_param (wfold (store_step wf checkpoint add_global_vars) (ts, true) (seq 0 (tasks_num wf))) in
  let! fs := bad_param (json_object_set_new fs "tasks" (Some (JArray st.1))) in
  if st.2 : bool then wfail OPH_WORKFLOW_EXIT_GENERIC_ERROR else wret (JObject fs).

Definition oph_workflow_store (workflow : option oph_workflow) (checkpoint : cstr) : W string :=
  match workflow with
  | None => wfail OPH_WORKFLOW_EXIT_BAD_PARAM_ERROR
  | Some wf =>
      let! _ := calloc in
      let! v := store_tree wf checkpoint in
      ok ← malloc;
      if ok : bool then wret (json_dumps v) else wfail OPH_WORKFLOW_EXIT_MEMORY_ERROR
  end.
End store.

(** ** Storing from a checkpoint *)

Lemma wbind_inv {A B} (c : W A) (f : A → W B) m b m' :
  wbind c f m = Ok (inr b) m' → ∃ a m1, c m = Ok (inr a) m1 ∧ f a m1 = Ok (inr b) m'.
Proof. unfold wbind. destruct (c m) as [[rc|a] m1| |]; [done| |done|done]. eauto. Qed.

Lemma bind_inv {A B} (c : C A) (f : A → C B) m b m' : (c ≫= f) m = Ok b m' → ∃ a m1, c m = Ok a m1 ∧ f a m1 = Ok b m'.
Proof. unfold mbind, C_bind. destruct (c m) as [a m1| |]; [eauto|done|done]. Qed.

Lemma ret_inv {A} (a b : A) m m' : (mret a : C A) m = Ok b m' → a = b ∧ m = m'.
Proof. unfold mret, C_ret. by intros [= -> ->]. Qed.

Lemma bad_param_inv {A} (c : W A) m a m' : bad_param c m = Ok (inr a) m' → c m = Ok (inr a) m'.
Proof. unfold bad_param. intros (r & m1 & Hc & Hr)%bind_inv. unfold mret, C_ret in Hr. by destruct r; simplify_eq. Qed.

Section checkpoint.
Context `{Jansson} (wf : oph_workflow) (checkpoint : string).

(** The first variable is read through its stale pointer. *)
Lemma own_variables_fail t fs m r m' : is_Some (vars t) → store_own_variables (Some checkpoint) t fs m ≠ Ok (inr r) m'.
Proof.
  intros [tbl Ht]. unfold store_own_variables. rewrite Ht. intros (u & m1 & _ & (kvs & m2 & _ & (l & m3 & Hl & Hr)%bind_inv)%bind_inv)%wbind_inv.
  assert (l = []) as ->; [|by rewrite bool_decide_eq_true_2 in Hr].
  destruct kvs as [|kv kvs]; simpl in Hl; [by apply ret_inv in Hl as [<- _]|]. apply bind_inv in Hl as (x & m4 & Hx & Hl).
  destruct x as [rc|l']; [by apply ret_inv in Hl as [<- _]|]. unfold store_task_variable in Hx. apply wbind_inv in Hx as (u' & m5 & _ & Hx). done.
Qed.

Lemma store_task_fails gv i t ts m r m' : is_Some (vars t) → store_task wf (Some checkpoint) gv i t ts m ≠ Ok (inr r) m'.
Proof.
  intros Ht Hs. unfold store_task in Hs. do 5 apply wbind_inv in Hs as (? & ? & _ & Hs). apply wbind_inv in Hs as (fs & m1 & Hv & _).
  by eapply own_variables_fail.
Qed.

(** So that only tasks that are over pass the loop. *)
Lemma store_steps_empty gv ids ts m st m' :
  Forall (λ i, ∀ t, tasks wf !! i = Some t → is_Some (vars t)) ids →
  wfold (store_step wf (Some checkpoint) gv) (ts, true) ids m = Ok (inr st) m' → st.2 = true.
Proof.
  intros His. revert m. induction His as [|i ids Hi His IH]; intros m Hs; simpl in Hs; [by apply ret_inv in Hs as [[= <-] _]|].
  apply wbind_inv in Hs as (st1 & m1 & Hstep & Hs). apply bind_inv in Hstep as (t & m2 & Ht & Hstep).
  apply bind_inv in Hstep as (over & m3 & _ & Hstep). destruct over; [apply ret_inv in Hstep as [[= <-] ->]; by eapply IH|].
  apply wbind_inv in Hstep as (ts' & m4 & Hst & _). unfold deref in Ht. destruct (tasks wf !! i) as [t'|] eqn:Hlk; [|done]. apply ret_inv in Ht as [-> ->].
  exfalso. eapply store_task_fails; [|exact Hst]. by apply Hi.
Qed.

(** A workflow whose tasks have their tables of variables, as every loaded workflow, is never stored
    from a checkpoint: the tasks that are not over have no variable, which is refused, or
    have one, which is read through a stale pointer; and without such a task nothing is
    stored. *)
Theorem checkpoint_never_stored m s m' :
  (∀ i t, (i < tasks_num wf)%nat → tasks wf !! i = Some t → is_Some (vars t)) →
  oph_workflow_store (Some wf) (Some checkpoint) m ≠ Ok (inr s) m'.
Proof.
  intros Hvars Hs. unfold oph_workflow_store in Hs. apply wbind_inv in Hs as (? & ? & _ & Hs). apply wbind_inv in Hs as (v & m1 & Hv & _).
  unfold store_tree in Hv. do 2 apply wbind_inv in Hv as (? & ? & _ & Hv). apply bind_inv in Hv as ([ts gv] & m2 & Hgv & Hv).
  apply wbind_inv in Hv as (st & m3 & Hst%bad_param_inv & Hv). apply wbind_inv in Hv as (fs & m4 & _ & Hv).
  assert (st.2 = true) as E; [|by rewrite E in Hv]. eapply store_steps_empty; [|exact Hst].
  apply Forall_forall. intros i Hi%elem_of_seq t Ht. apply (Hvars i t); [lia|done].
Qed.
End checkpoint.

(** ** The tree of a stored workflow *)

Definition texts (l : list (string * cstr)) : list (string * option json_t) := (λ m : string * cstr, (m.1, JString <$> m.2)) <$> l.

Definition dep_members (d : oph_workflow_dep) : list (string * cstr) :=
  [("argument", dep_argument d); ("order", dep_order d); ("task", task_name d); ("type", dep_type d);
   ("filter", dep_filter d); ("output_argument", output_argument d); ("output_order", output_order d)]%string.
Definition dep_tree (d : oph_workflow_dep) : json_t := JObject (JsonRound.mk (texts (dep_members d))).

(** A task as a document describes it: its type, its operator and its arguments. *)
Inductive origin (t : oph_workflow_task) : string → string → list argument → Prop :=
| plain_origin o :
    rtype t = None → operator t = Some o → origin t OPH_TYPE_OPHIDIA o (arguments t)
| external_origin ty o args :
    ty = OPH_TYPE_CDO ∨ ty = OPH_TYPE_GENERIC → rtype t = Some ty → operator t = Some ("oph_" +:+ ty) →
    arguments t = args ++ [Arg (Some OPH_ARG_COMMAND) (Some o) []] → Forall (λ a, arg_key a ≠ Some OPH_ARG_COMMAND) args →
    origin t ty o args
| control_origin o :
    rtype t = Some OPH_TYPE_CONTROL → operator t = Some ("oph_" +:+ o) → control_operator o = true →
    origin t OPH_TYPE_CONTROL o (arguments t).

Definition argument_text (a : argument) : string := default EmptyString (arg_key a) +:+ "=" +:+ default EmptyString (arg_value a).

(** The operator of an external task comes after the other texts. *)
Definition text_members (ty o : string) (t : oph_workflow_task) : list (string * cstr) :=
  if erases_command t
  then [("name", name t); ("type", Some ty)]%string ++ option_members t ++ [("operator", Some o)]%string
  else [("name", name t); ("type", Some ty)]%string ++ [("operator", Some o)]%string ++ option_members t.

Definition task_fields (ty o : string) (args : list argument) (t : oph_workflow_task) : list (string * option json_t) :=
  texts (text_members ty o t) ++
  [("arguments", Some (JsonRound.strs (argument_text <$> args)));
   ("dependencies", JsonRound.unless_nil (deps t) (JArray (dep_tree <$> deps t)))]%string.
Definition task_tree (ty o : string) (args : list argument) (t : oph_workflow_task) : json_t :=
  JObject (JsonRound.mk (task_fields ty o args t)).

Definition global_members (wf : oph_workflow) : list (string * cstr) :=
  [("name", wf_name wf); ("author", author wf); ("abstract", abstract wf); ("url", url wf);
   ("sessionid", sessionid wf); ("exec_mode", exec_mode wf); ("ncores", Some (int_text (wf_ncores wf)));
   ("nhost", Some (int_text (wf_nhosts wf))); ("nthreads", Some (int_text (wf_nthreads wf)));
   ("project", project wf); ("on_error", wf_on_error wf); ("on_exit", wf_on_exit wf);
   ("run", if (wf_run wf =? 0)%Z then Some "no" else None); ("checkpoint", wf_checkpoint wf);
   ("cwd", cwd wf); ("cdd", cdd wf); ("cube", cube wf); ("callback_url", callback_url wf); ("command", command wf);
   ("host_partition", match host_partition_orig wf with Some p => Some p | None => host_partition wf end)]%string.

Definition wf_fields (wf : oph_workflow) (ts : list json_t) : list (string * option json_t) :=
  texts (global_members wf) ++ [("tasks", Some (JArray ts))]%string.
Definition wf_tree (wf : oph_workflow) (ts : list json_t) : json_t := JObject (JsonRound.mk (wf_fields wf ts)).

(** ** Workflows that can be stored and loaded again *)

Definition error_ok (s : string) : bool :=
  eqs s OPH_WORKFLOW_SKIP || eqs s OPH_WORKFLOW_CONTINUE || eqs s OPH_WORKFLOW_BREAK || eqs s OPH_WORKFLOW_ABORT ||
  (strncmp0 s OPH_WORKFLOW_REPEAT (String.length OPH_WORKFLOW_REPEAT) &&
   (0 <=? numeric (WfVars.drop_str (String.length OPH_WORKFLOW_REPEAT) s)) && repeat_ok s).
Definition exit_ok (s : string) : bool :=
  eqs s OPH_WORKFLOW_NOP || eqs s OPH_WORKFLOW_DELETE || eqs s OPH_WORKFLOW_DELETECONTAINER.
Definition label_ok (s : string) : bool := not_empty (Some s) && negb (reserved_label (Some s)).
Definition if_any (p : string → bool) (x : cstr) : bool := match x with Some s => p s | None => true end.

(** A key without the separator that is not one of the resources, and a pair that fits the buffer. *)
Definition plain_argument (a : argument) : Prop :=
  ∃ k v, a = Arg (Some k) (Some v) [] ∧ none_of (λ c, c =c "=") k = true ∧ is_resource k = false ∧
    (String.length (argument_text a) < OPH_WORKFLOW_MAX_STRING)%nat.
Definition keyed (key : string) (args : list argument) : Prop := ∃ a, a ∈ args ∧ arg_key a = Some key.

Record storable_task (wf : oph_workflow) (t : oph_workflow_task) (ty o : string) (args : list argument) : Prop := {
  st_name : is_Some (name t);
  st_type : type t = Some OPH_TYPE_OPHIDIA;
  st_origin : origin t ty o args;
  st_arguments : Forall plain_argument args;
  st_folders : keyed "cwd" args ∧ keyed "cdd" args;
  st_project : not_empty (project wf) = true → keyed "project" args;
  st_deps : Forall complete_dep (deps t);
  st_actions : if_any error_ok (on_error t) = true ∧ if_any exit_ok (on_exit t) = true;
  st_label : if_any label_ok (checkpoint t) = true ∧ (is_Some (wf_checkpoint wf) → is_Some (checkpoint t));
}.

Record storable (wf : oph_workflow) (src : list (string * string * list argument)) : Prop := {
  so_name : ∃ nm, wf_name wf = Some nm ∧ (String.length nm < OPH_WORKFLOW_MAX_STRING)%nat;
  so_count : (1 ≤ tasks_num wf)%nat ∧ length src = tasks_num wf;
  so_tasks : Forall2 (λ t x, storable_task wf t x.1.1 x.1.2 x.2) (take (tasks_num wf) (tasks wf)) src;
  so_resolvable : resolvable (tasks wf) (tasks_num wf);
  so_numbers : Forall (λ z, 0 ≤ z ∧ in_i32 z) [wf_ncores wf; wf_nhosts wf; wf_nthreads wf];
  so_cube : cube wf = None;
  so_actions : if_any error_ok (wf_on_error wf) = true ∧ if_any exit_ok (wf_on_exit wf) = true;
  so_label : if_any label_ok (wf_checkpoint wf) = true;
}.

Definition task_trees (wf : oph_workflow) (src : list (string * string * list argument)) : list json_t :=
  zip_with (λ t x, task_tree x.1.1 x.1.2 x.2 t) (take (tasks_num wf) (tasks wf)) src.
Definition doc_tree (wf : oph_workflow) (src : list (string * string * list argument)) : json_t := wf_tree wf (task_trees wf src).

(** What a task keeps. *)
Record reloaded (t t' : oph_workflow_task) : Prop := {
  rl_name : name t' = name t;
  rl_operator : operator t' = operator t ∧ type t' = type t ∧ rtype t' = rtype t;
  rl_arguments : arguments t' = arguments t;
  rl_deps : deps t' = set_task_index 0 <$> deps t;
  rl_actions : on_error t' = on_error t ∧ on_exit t' = on_exit t;
  rl_label : checkpoint t' = checkpoint t;
}.

(** ** Storing *)

Section storing.
Context `{Jansson}.

Lemma sure_json_new : sure json_new (λ _, True).
Proof. eapply sound_bindC; [apply returns_malloc|]. intros ? ->. by apply returns_ret. Qed.

Lemma sure_object_set fs key v : utf8 key = true → sure (json_object_set_new fs key (Some v)) (λ fs', fs' = set_member key v fs).
Proof. intros Hk. unfold json_object_set_new. rewrite Hk. eapply sound_bindC; [apply returns_malloc|]. intros ? ->. by apply returns_ret. Qed.

Lemma returns_json_string s : utf8 s = true → returns (json_string (Some s)) (λ v, v = Some (JString s)).
Proof. intros Hs. simpl. rewrite Hs. eapply returns_bind; [apply returns_malloc|]. intros ? ->. by apply returns_ret. Qed.

Lemma sure_set_string fs key s : utf8 key = true → utf8 s = true → sure (set_string fs key (Some s)) (λ fs', fs' = set_member key (JString s) fs).
Proof. intros Hk Hs. eapply sound_bindC; [by apply returns_json_string|]. intros ? ->. by apply sure_object_set. Qed.

Lemma sure_append l v : sure (json_array_append_new l (Some v)) (λ l', l' = l ++ [v]).
Proof. eapply sound_bindC; [apply returns_malloc|]. intros ? ->. by apply returns_ret. Qed.

Lemma sure_append_string l s : utf8 s = true → sure (append_string l (Some s)) (λ l', l' = l ++ [JString s]).
Proof. intros Hs. eapply sound_bindC; [by apply returns_json_string|]. intros ? ->. apply sure_append. Qed.

Lemma sure_add_member l0 key x :
  key ∉ JsonRound.names l0 → JsonRound.field_valid (key, JString <$> x) →
  sure (_oph_workflow_add_to_json (JsonRound.mk l0) key x) (λ fs, fs = JsonRound.mk (l0 ++ texts [(key, x)])).
Proof.
  intros Hk Hv. destruct x as [x|]; simpl.
  - destruct (Hv _ eq_refl) as [Hkey Hx]. eapply sound_bindC; [by apply (sure_set_string)|]. intros [rc|fs] Hfs; [done|]. apply returns_ret. simpl in *.
    rewrite Hfs, JsonRound.mk_snoc, JsonRound.set_member_fresh; [done|]. by intros ?%JsonRound.mk_names.
  - apply sound_ret. rewrite JsonRound.mk_app. simpl. by rewrite app_nil_r.
Qed.

Lemma texts_app l1 l2 : texts (l1 ++ l2) = texts l1 ++ texts l2.
Proof. apply fmap_app. Qed.
Lemma names_app l1 l2 : JsonRound.names (l1 ++ l2) = JsonRound.names l1 ++ JsonRound.names l2.
Proof. apply fmap_app. Qed.

Lemma sure_add_members l0 l :
  NoDup (JsonRound.names (l0 ++ texts l)) → Forall JsonRound.field_valid (texts l) →
  sure (add_members (JsonRound.mk l0) l) (λ fs, fs = JsonRound.mk (l0 ++ texts l)).
Proof.
  revert l0. induction l as [|[key x] l IH]; intros l0 Hnd Hv; simpl.
  - apply sound_ret. by rewrite app_nil_r.
  - apply Forall_cons in Hv as [Hx Hv]. change (texts ((key, x) :: l)) with (texts [(key, x)] ++ texts l) in *. rewrite app_assoc in *.
    eapply sound_bind; [apply sure_add_member; [|exact Hx]|].
    + rewrite names_app in Hnd. apply NoDup_app in Hnd as [Hnd _]. rewrite names_app in Hnd. apply NoDup_app in Hnd as (_ & Hnd & _).
      intros Hin. apply (Hnd _ Hin). left.
    + intros fs ->. specialize (IH (l0 ++ texts [(key, x)]) Hnd Hv). rewrite <-app_assoc in IH. exact IH.
Qed.

Lemma take_str_small n s : (String.length s < n)%nat → truncate n s = s.
Proof. intros Hs. apply take_str_ge. lia. Qed.

Lemma valid_strs l : json_valid (JsonRound.strs l) = true → Forall (λ s, utf8 s = true) l.
Proof. intros Hv. apply Forall_forall. intros s Hs. by eapply JsonRound.json_valid_strs. Qed.

(** The arguments that are not the command of an external task. *)
Lemma sure_store_arguments t fs args0 args :
  (erases_command t = true → Forall (λ a, arg_key a ≠ Some OPH_ARG_COMMAND) args) →
  Forall plain_argument args → Forall (λ s, utf8 s = true) (argument_text <$> args) →
  sure (wfold (store_argument t) (fs, args0) args) (λ st, st = (fs, args0 ++ (JString <$> (argument_text <$> args)))).
Proof.
  intros Hc Hp Hu. revert args0. induction Hp as [|a args (k & v & -> & Hk & _ & Hl) Hp IH]; intros args0; cbn [wfold].
  - apply sound_ret. by rewrite app_nil_r.
  - rewrite fmap_cons in Hu. apply Forall_cons in Hu as [Hu1 Hu]. eapply sound_bind with (P := λ st, st = (fs, args0 ++ [JString (argument_text (Arg (Some k) (Some v) []))])).
    + unfold store_argument. cbn [arg_key arg_value].
      sound_step. assert (erases_command t && eqs k OPH_ARG_COMMAND = false) as ->.
      { destruct (erases_command t); [|done]. simpl. apply bool_decide_eq_false. intros ->. specialize (Hc eq_refl). by apply Forall_cons in Hc as [Hc _]. }
      sound_step. unfold max_text. rewrite take_str_small by exact Hl. eapply sound_bind; [by apply sure_append_string|]. intros ? ->. by sound_step.
    + intros st ->. eapply sound_mono; [apply IH; [|done]|].
      * intros He. specialize (Hc He). by apply Forall_cons in Hc as [_ Hc].
      * intros st ->. rewrite <-app_assoc, !fmap_cons. done.
Qed.

Lemma returns_find_parent wf i t nm skip ks :
  tasks wf !! i = Some t → name t ≠ Some nm →
  (∀ k, k ∈ ks → ∃ tk, tasks wf !! k = Some tk ∧ is_Some (name tk)) →
  (∃ k tk, k ∈ ks ∧ tasks wf !! k = Some tk ∧ name tk = Some nm) →
  returns (find_parent wf None i (Some nm) skip ks) (λ r, r = (false, true)).
Proof.
  intros Hi Hne. revert skip. induction ks as [|k ks IH]; intros skip Hks (k' & tk & Hin & Htk & Hnm); [by apply elem_of_nil in Hin|].
  cbn [find_parent]. destruct (Hks k ltac:(left)) as (t' & Ht' & [n' Hn']).
  eapply returns_bind; [by apply returns_deref|]. intros ? Hd. rewrite Ht' in Hd. injection Hd as <-.
  eapply returns_bind with (P := λ b, b = bool_decide (n' = nm)). { unfold strcmp0. rewrite Hn'. by apply returns_ret. }
  intros b ->. rewrite orb_false_r. case_bool_decide as Hc.
  - apply returns_ret. f_equal. apply Nat.eqb_neq. intros ->. simplify_eq.
  - apply IH; [intros x Hx; apply Hks; by right|]. exists k', tk. split; [|done]. apply elem_of_cons in Hin as [->|]; [|done]. simplify_eq.
Qed.

Lemma sure_store_dep wf i t l d :
  tasks wf !! i = Some t → WfDag.named (tasks wf) (tasks_num wf) → (i < tasks_num wf)%nat → resolvable (tasks wf) (tasks_num wf) → d ∈ deps t →
  complete_dep d → json_valid (dep_tree d) = true →
  sure (store_dep wf None i l d) (λ l', l' = l ++ [dep_tree d]).
Proof.
  intros Hi [Hlen Hnamed] Hlt Hres Hd (_ & _ & [nm Hnm] & _) Hv. destruct (Hres i t d Hlt Hi Hd) as [Hself (k & tk & Hk & Htk & Hname)].
  unfold store_dep. eapply sound_bindC.
  { rewrite Hnm. apply (returns_find_parent wf i t nm); [done|congruence| |].
    - intros x Hx%elem_of_seq. destruct (lookup_lt_is_Some_2 (tasks wf) x) as [tx Htx]; [lia|]. exists tx. split; [done|]. apply (Hnamed x tx); [lia|done].
    - exists k, tk. split_and!; [apply elem_of_seq; lia|done|congruence]. }
  intros ? ->. eapply sound_bind; [apply sure_json_new|]. intros _ _.
  eapply sound_bind; [apply (sure_add_members [] (dep_members d))|].
  - apply (bool_decide_unpack _). vm_compute. reflexivity.
  - by apply JsonRound.json_valid_mk.
  - intros fs ->. apply sure_append.
Qed.

Lemma sure_store_deps_loop wf i t l ds :
  tasks wf !! i = Some t → WfDag.named (tasks wf) (tasks_num wf) → (i < tasks_num wf)%nat → resolvable (tasks wf) (tasks_num wf) → (∀ d, d ∈ ds → d ∈ deps t) →
  Forall complete_dep ds → json_valid (JArray (dep_tree <$> ds)) = true →
  sure (wfold (store_dep wf None i) l ds) (λ l', l' = l ++ (dep_tree <$> ds)).
Proof.
  intros Hi Hn Hlt Hres. revert l. induction ds as [|d ds IH]; intros l Hin Hco Hv; cbn [wfold].
  - apply sound_ret. by rewrite app_nil_r.
  - apply Forall_cons in Hco as [Hd Hco]. eapply sound_bind; [eapply sure_store_dep; [done..| |done|]|].
    + apply Hin. left.
    + eapply JsonRound.json_valid_array; [exact Hv|]. left.
    + intros l' ->. eapply sound_mono; [apply IH; [|done|]|].
      * intros x Hx. apply Hin. by right.
      * rewrite fmap_cons in Hv. simpl in Hv. apply andb_true_iff in Hv as [_ Hv]. exact Hv.
      * intros ? ->. by rewrite <-app_assoc.
Qed.

Lemma mk_skip l1 key l2 : JsonRound.mk (l1 ++ (key, None) :: l2) = JsonRound.mk (l1 ++ l2).
Proof. by rewrite !JsonRound.mk_app. Qed.

Lemma sure_set_field l key v :
  key ∉ JsonRound.names l → utf8 key = true →
  sure (json_object_set_new (JsonRound.mk l) key (Some v)) (λ fs, fs = JsonRound.mk (l ++ [(key, Some v)])).
Proof.
  intros Hk Hu. eapply sound_mono; [by apply sure_object_set|]. intros fs ->.
  rewrite JsonRound.mk_snoc, JsonRound.set_member_fresh; [done|]. by intros ?%JsonRound.mk_names.
Qed.

Lemma sure_store_deps wf i t l :
  tasks wf !! i = Some t → WfDag.named (tasks wf) (tasks_num wf) → (i < tasks_num wf)%nat → resolvable (tasks wf) (tasks_num wf) → Forall complete_dep (deps t) →
  "dependencies"%string ∉ JsonRound.names l →
  JsonRound.field_valid ("dependencies"%string, JsonRound.unless_nil (deps t) (JArray (dep_tree <$> deps t))) →
  sure (store_deps wf None false i t (JsonRound.mk l))
    (λ fs, fs = JsonRound.mk (l ++ [("dependencies"%string, JsonRound.unless_nil (deps t) (JArray (dep_tree <$> deps t)))])).
Proof.
  intros Hi Hn Hlt Hres Hco Hk Hv. unfold store_deps. case_bool_decide as Hd.
  - rewrite Hd. apply sound_ret. simpl. by rewrite mk_skip, app_nil_r.
  - assert (JsonRound.unless_nil (deps t) (JArray (dep_tree <$> deps t)) = Some (JArray (dep_tree <$> deps t))) as Hsome by (by destruct (deps t)).
    rewrite Hsome in *. destruct (Hv _ eq_refl) as [Hu Hj]. eapply sound_bind; [apply sure_json_new|]. intros _ _.
    unfold store_global_dep. cbv beta iota delta [negb]. sound_step. eapply sound_bind; [by eapply sure_store_deps_loop|]. intros ? ->. by apply sure_set_field.
Qed.

Lemma wfold_app {S X} (f : S → X → W S) s l1 l2 m : wfold f s (l1 ++ l2) m = (let! s := wfold f s l1 in wfold f s l2) m.
Proof.
  revert s m. induction l1 as [|x l1 IH]; intros s m; [done|]. simpl. unfold wbind. by destruct (f s x m) as [[rc|s'] m'| |].
Qed.

Lemma ends_eq {A} (E : Z → Prop) (c c' : W A) Q : (∀ m, c m = c' m) → ends E c' Q → ends E c Q.
Proof. intros Hc He m Hm. specialize (He m Hm). unfold wp in *. by rewrite Hc. Qed.

(** The texts of a task, its operator and its arguments, for each origin. *)
Lemma sure_store_texts t ty o args :
  is_Some (name t) → type t = Some OPH_TYPE_OPHIDIA → origin t ty o args → Forall plain_argument args →
  Forall JsonRound.field_valid (texts (text_members ty o t)) → Forall (λ s, utf8 s = true) (argument_text <$> args) →
  sure (store_texts t)
    (λ st, st = (JsonRound.mk (texts (text_members ty o t)), JString <$> (argument_text <$> args))).
Proof.
  intros [nm Hnm] Hty Ho Hargs Hv Hu. unfold store_texts.
  assert (match rtype t with Some ty => Some ty | None => type t end = Some ty) as -> by (by destruct Ho as [? Hr|? ? ? ? Hr|? Hr]; rewrite Hr).
  assert (∀ x, NoDup (JsonRound.names (texts [("name", name t); ("type", Some ty)]%string ++ texts (("operator"%string, x) :: option_members t)))) as Hnd.
  { intros x. apply (bool_decide_unpack _). vm_compute. reflexivity. }
  eapply sound_bind; [apply (sure_add_members [] [("name", name t); ("type", Some ty)]%string)|].
  { specialize (Hnd None). rewrite names_app in Hnd. by apply NoDup_app in Hnd as [Hnd _]. }
  { unfold text_members in Hv. destruct (erases_command t); rewrite texts_app in Hv; by apply Forall_app in Hv as [Hv _]. }
  intros fs ->. unfold text_members in *. destruct Ho as [o Hr Ho|ty o args Hext Hr Ho Ha Hc|o Hr Ho Hctl].
  1,3: assert (erases_command t = false) as He by (unfold erases_command; by rewrite Hr); rewrite He in *;
    eapply sound_bindC with (P := λ x, x = Some o); [unfold stored_operator; rewrite Hr, Ho; by apply returns_ret|];
    intros ? ->; rewrite texts_app in Hv; apply Forall_app in Hv as [_ Hv];
    (eapply sound_bind; [by apply sure_add_members|]); intros fs ->; (eapply sound_bind; [apply sure_json_new|]); intros _ _;
    (eapply sound_mono; [by apply sure_store_arguments; [congruence|..]|]); by intros st ->.
  - assert (erases_command t = true) as He by (unfold erases_command; rewrite Hr; by destruct Hext as [-> | ->]). rewrite He in *.
    sound_step. rewrite !texts_app in Hv. apply Forall_app in Hv as [_ [Hv Hop]%Forall_app].
    eapply sound_bind; [apply sure_add_members; [done|by constructor]|]. intros fs ->. eapply sound_bind; [apply sure_json_new|]. intros _ _.
    rewrite Ha. eapply ends_eq; [intros m; apply wfold_app|]. change (texts (("operator"%string, None) :: option_members t)) with (("operator"%string, None) :: texts (option_members t)).
    rewrite mk_skip. eapply sound_bind; [by apply sure_store_arguments|]. intros st ->. cbn [wfold]. eapply sound_bind; [|intros st Hst; apply sound_ret; exact Hst].
    unfold store_argument. cbn [arg_key arg_value]. sound_step. rewrite He. change (eqs OPH_ARG_COMMAND OPH_ARG_COMMAND) with true. cbv beta iota delta [andb].
    eapply sound_bind; [apply sure_add_member|].
    + apply (bool_decide_unpack _). vm_compute. reflexivity.
    + by apply Forall_cons in Hop as [Hop _].
    + intros fs ->. apply sound_ret. by rewrite !texts_app, app_assoc.
Qed.

Lemma set_last_app {A} (l : list A) x y : JsonDoc.set_last (l ++ [x]) y = l ++ [y].
Proof. unfold JsonDoc.set_last. rewrite length_app. simpl. by rewrite Nat.add_sub, take_app_length. Qed.

Lemma sure_store_task wf i t ts ty o args :
  tasks wf !! i = Some t → WfDag.named (tasks wf) (tasks_num wf) → (i < tasks_num wf)%nat → resolvable (tasks wf) (tasks_num wf) →
  storable_task wf t ty o args → json_valid (task_tree ty o args t) = true →
  sure (store_task wf None false i t ts) (λ ts', ts' = ts ++ [task_tree ty o args t]).
Proof.
  intros Hi Hn Hlt Hres [] Hv. apply JsonRound.json_valid_mk in Hv. unfold task_fields in Hv. apply Forall_app in Hv as [Htexts Hv].
  apply Forall_cons in Hv as [Hargs [Hdeps _]%Forall_cons]. destruct (Hargs _ eq_refl) as [Hu Hstrs]. simpl in Hu.
  unfold store_task. eapply sound_bind; [apply sure_json_new|]. intros _ _.
  eapply sound_bind; [apply sure_store_texts; [done..|by apply valid_strs]|]. intros st ->. cbn [fst snd].
  eapply sound_bind; [apply sure_set_field; [|done]|].
  { unfold text_members. destruct (erases_command t); apply (bool_decide_unpack _); vm_compute; reflexivity. }
  intros fs ->. eapply sound_bind; [apply sure_store_deps; [done..| |done]|].
  { unfold text_members. destruct (erases_command t); apply (bool_decide_unpack _); vm_compute; reflexivity. }
  intros fs ->. eapply sound_bind; [apply sure_append|]. intros ts' ->. unfold store_own_variables.
  sound_step. apply sound_ret. rewrite set_last_app.
  unfold task_tree, task_fields, JsonRound.strs. by rewrite <-app_assoc.
Qed.

Lemma sure_bad_param {A} (c : W A) Q : sure c Q → sure (bad_param c) Q.
Proof. intros Hc. eapply sound_bindC; [apply Hc|]. intros [rc|a] Hr; [done|]. by apply returns_ret. Qed.

Lemma sure_store_steps wf src ts0 k l l' :
  WfDag.named (tasks wf) (tasks_num wf) → resolvable (tasks wf) (tasks_num wf) →
  Forall2 (λ t x, storable_task wf t x.1.1 x.1.2 x.2) l src →
  (∀ j t, l !! j = Some t → tasks wf !! (k + j)%nat = Some t) → (k + length l ≤ tasks_num wf)%nat →
  l' = zip_with (λ t x, task_tree x.1.1 x.1.2 x.2 t) l src → json_valid (JArray l') = true →
  ∀ e, sure (wfold (store_step wf None false) (ts0, e) (seq k (length l))) (λ st, st = (ts0 ++ l', match l with [] => e | _ => false end)).
Proof.
  intros Hn Hres Hst. revert ts0 k l'. induction Hst as [|t x l src Ht Hst IH]; intros ts0 k l' Hl Hk -> Hv e; cbn [length seq wfold].
  - apply sound_ret. by rewrite app_nil_r.
  - cbn [zip_with] in *. simpl in Hv. apply andb_true_iff in Hv as [Hv1 Hv]. specialize (Hl 0%nat t eq_refl) as Hlk. rewrite Nat.add_0_r in Hlk.
    eapply sound_bind with (P := λ st, st = (ts0 ++ [task_tree x.1.1 x.1.2 x.2 t], false)).
    + unfold store_step. rewrite Hlk. sound_step. sound_step. eapply sound_bind; [apply sure_store_task; [done|done|simpl in Hk; lia|done..]|].
      intros ts ->. by apply sound_ret.
    + intros st ->. eapply sound_mono; [apply IH; [|simpl in Hk; lia|done|exact Hv]|].
      * intros j t' Hj. rewrite Nat.add_succ_l, <-Nat.add_succ_r. by apply Hl.
      * intros st ->. rewrite <-app_assoc. by destruct l.
Qed.

Lemma storable_length wf src : storable wf src → (tasks_num wf ≤ length (tasks wf))%nat.
Proof. intros [_ [Hn Hl] Ht _ _ _ _ _]. pose proof (Forall2_length _ _ _ Ht) as E. rewrite length_take in E. lia. Qed.

Lemma storable_named wf src : storable wf src → WfDag.named (tasks wf) (tasks_num wf).
Proof.
  intros Hs. split; [by eapply storable_length|]. intros i t Hi Hlk.
  assert (take (tasks_num wf) (tasks wf) !! i = Some t) as Hlk' by (by rewrite lookup_take_lt).
  by destruct (Forall2_lookup_l _ _ _ _ _ (so_tasks _ _ Hs) Hlk') as (x & _ & []).
Qed.

Lemma sure_store_globals wf nm :
  wf_name wf = Some nm → (String.length nm < OPH_WORKFLOW_MAX_STRING)%nat → Forall JsonRound.field_valid (texts (global_members wf)) →
  sure (store_globals wf None) (λ fs, fs = JsonRound.mk (texts (global_members wf))).
Proof.
  intros Hnm Hl Hv. unfold store_globals. rewrite Hnm. sound_step. apply sure_bad_param. rewrite app_str_nil_r. unfold max_text. rewrite take_str_small by done.
  rewrite <-Hnm. change [] with (JsonRound.mk []) at 1. apply (sure_add_members [] (global_members wf)); [|done].
  apply (bool_decide_unpack _). vm_compute. reflexivity.
Qed.

Lemma sure_store_tree wf src : storable wf src → json_valid (doc_tree wf src) = true → sure (store_tree wf None) (λ v, v = doc_tree wf src).
Proof.
  intros Hs Hv. pose proof (storable_named _ _ Hs) as Hnamed. pose proof (storable_length _ _ Hs) as Hlen.
  destruct Hs as [(nm & Hnm & Hnl) [Hn Hl] Ht Hres _ _ _ _]. apply JsonRound.json_valid_mk in Hv. unfold wf_fields in Hv.
  apply Forall_app in Hv as [Hg [Htasks _]%Forall_cons]. destruct (Htasks _ eq_refl) as [Hu Hj]. unfold store_tree.
  eapply sound_bind; [by eapply sure_store_globals|]. intros fs ->. eapply sound_bind; [apply sure_bad_param, sure_json_new|]. intros _ _.
  cbn [store_variables]. sound_step. cbv beta iota. eapply sound_bind; [apply sure_bad_param|].
  - replace (seq 0 (tasks_num wf)) with (seq 0 (length (take (tasks_num wf) (tasks wf)))) by (rewrite length_take, Nat.min_l by done; done).
    apply (sure_store_steps wf src [] 0 _ (task_trees wf src)); [done..| |rewrite length_take; lia|done|done].
    intros j t Hlk. by apply lookup_take_Some in Hlk as [Hlk _].
  - intros st ->. cbn [fst snd]. eapply sound_bind; [apply sure_bad_param, sure_set_field; [|done]|].
    + apply (bool_decide_unpack _). vm_compute. reflexivity.
    + intros fs ->. destruct (take (tasks_num wf) (tasks wf)) as [|t0 ts0] eqn:Htk; [|by apply sound_ret].
      apply (f_equal length) in Htk. rewrite length_take in Htk. simpl in Htk. lia.
Qed.
End storing.

(** ** Witness *)

Definition checkpointed : oph_workflow :=
  set_wf_name (Some "w"%string) (set_tasks_num 1 (set_tasks
    [set_name (Some "A"%string) (set_vars (Some (empty_table 1 def_hashfunc)) zero_task); zero_task] new_workflow)).

Lemma checkpoint_never_stored_witness : oph_workflow_store (H := tree_reader (JScalar "1")) (Some checkpointed) (Some "c"%string) [] ≠ Ok (inr "{}"%string) [].
Proof. apply checkpoint_never_stored. intros [|i] t Hi Ht; [injection Ht as <-; by eexists|simpl in Hi; lia]. Defined.
End WfStore.
