(* ===== verification/WfRound.v ===== *)
(** * A stored workflow loads again

    Composition of [oph_workflow_store] ([WfStore]) and [oph_workflow_load] ([WfLoad]): the
    tree that is printed is read back task by task, and the distribution of the global values
    over the tasks changes nothing, because they were distributed when the workflow was loaded
    the first time.  What a document does not carry is shown too. *)

From Stdlib Require Ascii.
From stdpp Require Import base gmap strings numbers pretty list.
From S2P Require Import Prelude CString HashTbl Trash WfStructs WfSetup WfDag WfFlow Auth WfVars JsonDoc JsonText JsonRound WfLoad WfReady WfStore.
Import (notations) Stdlib.Strings.Ascii.
Import HashTbl WfStructs WfSetup JsonText WfLoad WfReady WfStore.

Module WfRound.

#[local] Open Scope Z_scope.
#[local] Open Scope cstr_scope.
#[local] Open Scope json_text_scope.

(** ** Members of a printed object *)

Definition known (L : list (string * option json_t)) (keys : list string) : Prop :=
  Forall (λ k, ∃ s : cstr, JsonRound.value_of k L = JString <$> s) keys.

Lemma position_lookup key keys : key ∈ keys → keys !! position key keys = Some key.
Proof.
  induction keys as [|k keys IH]; intros Hin; [by apply elem_of_nil in Hin|]. simpl. destruct (eqs k key) eqn:E; [by apply eqs_true in E as ->|].
  apply IH. apply elem_of_cons in Hin as [->|]; [|done]. unfold eqs in E. by rewrite bool_decide_eq_true_2 in E.
Qed.

Lemma get_mk L keys key (s : cstr) :
  bool_decide (NoDup (JsonRound.names L)) = true → known L keys → bool_decide (key ∈ keys) = true →
  JsonRound.value_of key L = JString <$> s → get (unpack_strings (JObject (JsonRound.mk L)) keys) key = s.
Proof.
  intros Hnd Hk Hin%bool_decide_eq_true Hv. unfold get, unpack_strings. rewrite JsonRound.unpack_mk; [|done|].
  - apply JsonRound.target_string_opt. unfold target. rewrite !list_lookup_fmap, position_lookup by done. exact Hv.
  - clear Hin. induction Hk as [|k keys Hk Hks IH]; rewrite ?fmap_nil, ?fmap_cons; constructor; [|done]. by intros _.
Qed.

Lemma unpack_value_mk L key : bool_decide (NoDup (JsonRound.names L)) = true → unpack_value (JObject (JsonRound.mk L)) key = JsonRound.value_of key L.
Proof. apply JsonRound.section_mk. Qed.

(** A member of the texts, and one that is not there. *)
Ltac member_of L := apply (get_mk L); [vm_compute; reflexivity| |vm_compute; reflexivity|reflexivity].
Ltac known_texts := unfold known; repeat (apply Forall_cons; split; [first [exists None; reflexivity|eexists; reflexivity]|]); apply Forall_nil; exact I.

(** ** Global members *)

Definition text_or_null (x : cstr) : cstr := if not_empty x then x else None.
Definition put_text {R} (set : cstr → R → R) (x : cstr) (r : R) : R := if not_empty x then set x r else r.

Lemma ends_copy_text {E : Z → Prop} {R} (set : cstr → R → R) x (r : R) : ends E (copy_text set x r) (λ r', r' = put_text set x r).
Proof.
  unfold copy_text, put_text. destruct x as [[|c s]|]; [by apply sound_ret| |by apply sound_ret]. sound_step. by apply sound_ret.
Qed.

Lemma put_text_other {R B} (f : R → B) set x (r : R) : (∀ c r, f (set c r) = f r) → f (put_text set x r) = f r.
Proof. unfold put_text. intros Hf. by destruct (not_empty x). Qed.

Lemma copy_number_other {B} (f : oph_workflow → B) set x r : (∀ z r, f (set z r) = f r) → f (copy_number set x r) = f r.
Proof. unfold copy_number. intros Hf. by destruct x. Qed.

Definition flag_of (x : cstr) (opts : list (string * Z)) (dflt : Z) : Z :=
  match x with Some (String _ _ as s) => default dflt (option_of s opts) | _ => dflt end.
Definition choice_ok (x : cstr) (opts : list (string * Z)) : bool :=
  match x with Some (String _ _ as s) => match option_of s opts with Some _ => true | None => false end | _ => true end.

Lemma sure_choice x opts dflt : choice_ok x opts = true → sure (choice x opts dflt) (λ z, z = flag_of x opts dflt).
Proof.
  unfold choice_ok, choice, flag_of. intros Hx. destruct x as [[|c s]|]; [by apply sound_ret| |by apply sound_ret].
  destruct (option_of (String c s) opts); [by apply sound_ret|done].
Qed.

(** The workflow with the global members. *)
Definition globals (dout : Z) (g : members) (wf : oph_workflow) : oph_workflow :=
  let wf := set_wf_name (get g "name") wf in
  let wf := put_text set_author (get g "author") wf in
  let wf := put_text set_abstract (get g "abstract") wf in
  let wf := put_text set_url (get g "url") wf in
  let wf := put_text set_sessionid (get g "sessionid") wf in
  let wf := put_text set_exec_mode (get g "exec_mode") wf in
  let wf := copy_number set_wf_ncores (get g "ncores") wf in
  let wf := copy_number set_wf_nhosts (get g "nhost") wf in
  let wf := copy_number set_wf_nthreads (get g "nthreads") wf in
  let wf := put_text set_project (get g "project") wf in
  let wf := put_text set_cwd (get g "cwd") wf in
  let wf := put_text set_cdd (get g "cdd") wf in
  let wf := put_text set_cube (get g "cube") wf in
  let wf := put_text set_callback_url (get g "callback_url") wf in
  let wf := put_text set_command (get g "command") wf in
  let wf := put_text set_wf_on_error (get g "on_error") wf in
  let wf := put_text set_wf_on_exit (get g "on_exit") wf in
  let wf := put_text set_wf_checkpoint (get g "checkpoint") wf in
  let wf := set_wf_run (flag_of (get g "run") yes_no 1) wf in
  let wf := set_wf_save (flag_of (get g "save") yes_no 1) wf in
  let wf := set_output_format (flag_of (get g "output_format") [(OPH_WORKFLOW_COMPACT, 1); (OPH_WORKFLOW_CLASSIC, 0)] 0) wf in
  let wf := set_direct_output (flag_of (get g "direct_output") yes_no dout) wf in
  put_text set_host_partition (get g "host_partition") wf.

Record globals_ok (g : members) : Prop := {
  go_name : is_Some (get g "name");
  go_label : reserved_label (get g "checkpoint") = false;
  go_run : choice_ok (get g "run") yes_no = true;
  go_save : choice_ok (get g "save") yes_no = true;
  go_format : choice_ok (get g "output_format") [(OPH_WORKFLOW_COMPACT, 1); (OPH_WORKFLOW_CLASSIC, 0)] = true;
  go_direct : choice_ok (get g "direct_output") yes_no = true;
}.

Lemma sure_load_globals dout g wf : globals_ok g → sure (load_globals dout g wf) (λ wf', wf' = globals dout g wf).
Proof.
  intros [[nm Hnm] Hlabel Hrun Hsave Hfmt Hdir]. unfold load_globals, globals. rewrite Hnm, Hlabel. sound_step. cbv zeta.
  do 5 (eapply sound_bind; [apply ends_copy_text|intros ? ->]).
  do 9 (eapply sound_bind; [apply ends_copy_text|intros ? ->]).
  do 4 (eapply sound_bind; [by apply sure_choice|intros ? ->]).
  apply ends_copy_text.
Qed.

Lemma set_other {R V B} (f : R → B) (set : V → R → R) x r : (∀ c r, f (set c r) = f r) → f (set x r) = f r.
Proof. done. Qed.

(** Step over the members that do not concern the field [f]. *)
Ltac through f :=
  repeat first
    [ match goal with |- context [f (put_text ?set ?x ?r)] => rewrite (put_text_other f set x r) by (intros ? ?; exact eq_refl) end
    | match goal with |- context [f (copy_number ?set ?x ?r)] => rewrite (copy_number_other f set x r) by (intros ? ?; exact eq_refl) end
    | match goal with |- context [f (set_wf_name ?x ?r)] => rewrite (set_other f set_wf_name x r) by (intros ? ?; exact eq_refl) end
    | match goal with |- context [f (set_wf_run ?x ?r)] => rewrite (set_other f set_wf_run x r) by (intros ? ?; exact eq_refl) end
    | match goal with |- context [f (set_wf_save ?x ?r)] => rewrite (set_other f set_wf_save x r) by (intros ? ?; exact eq_refl) end
    | match goal with |- context [f (set_output_format ?x ?r)] => rewrite (set_other f set_output_format x r) by (intros ? ?; exact eq_refl) end
    | match goal with |- context [f (set_direct_output ?x ?r)] => rewrite (set_other f set_direct_output x r) by (intros ? ?; exact eq_refl) end ].

Lemma put_text_this {R} (f : R → cstr) set x (r : R) : f (set x r) = x → f r = None → f (put_text set x r) = text_or_null x.
Proof. unfold put_text, text_or_null. intros Hs Hr. by destruct (not_empty x). Qed.

Lemma globals_checkpoint dout g wf : wf_checkpoint wf = None → wf_checkpoint (globals dout g wf) = text_or_null (get g "checkpoint").
Proof. intros Hw. unfold globals. cbv zeta. through wf_checkpoint. apply put_text_this; [done|]. by through wf_checkpoint. Qed.
Lemma globals_project dout g wf : project wf = None → project (globals dout g wf) = text_or_null (get g "project").
Proof. intros Hw. unfold globals. cbv zeta. through project. apply put_text_this; [done|]. by through project. Qed.
Lemma globals_cwd dout g wf : cwd wf = None → cwd (globals dout g wf) = text_or_null (get g "cwd").
Proof. intros Hw. unfold globals. cbv zeta. through cwd. apply put_text_this; [done|]. by through cwd. Qed.
Lemma globals_cdd dout g wf : cdd wf = None → cdd (globals dout g wf) = text_or_null (get g "cdd").
Proof. intros Hw. unfold globals. cbv zeta. through cdd. apply put_text_this; [done|]. by through cdd. Qed.
Lemma globals_cube dout g wf : cube wf = None → cube (globals dout g wf) = text_or_null (get g "cube").
Proof. intros Hw. unfold globals. cbv zeta. through cube. apply put_text_this; [done|]. by through cube. Qed.

Lemma globals_numbers dout g wf a b c :
  get g "ncores" = Some a → get g "nhost" = Some b → get g "nthreads" = Some c →
  wf_ncores (globals dout g wf) = numeric a ∧ wf_nhosts (globals dout g wf) = numeric b ∧ wf_nthreads (globals dout g wf) = numeric c.
Proof.
  intros Ha Hb Hc. unfold globals. cbv zeta. split_and!.
  - through wf_ncores. by rewrite Ha.
  - through wf_nhosts. by rewrite Hb.
  - through wf_nthreads. by rewrite Hc.
Qed.

(** A number is read back. *)
Lemma int_text_print z : in_i32 z → int_text z = print_int z.
Proof. intros Hz. apply take_str_small. pose proof (length_print_int z Hz). unfold OPH_WORKFLOW_MIN_STRING, WfVars.OPH_WORKFLOW_MIN_STRING. lia. Qed.

Lemma numeric_int_text z : in_i32 z → numeric (int_text z) = z.
Proof.
  intros Hz. rewrite int_text_print by done. unfold numeric. rewrite strtol_print; [by apply wrap_i32_id|]. unfold in_i32, in_i64 in *. lia.
Qed.

(** ** Tasks *)

Lemma span_none (p : ascii → bool) k c r : none_of p k = true → p c = true → span_str p (k +:+ String c r) = (k, String c r).
Proof.
  intros Hk Hc. induction k as [|a k IH]; [by rewrite app_str_nil; simpl; rewrite Hc|]. rewrite app_str_cons. simpl in *.
  apply andb_true_iff in Hk as [Ha Hk]. apply negb_true_iff in Ha. by rewrite Ha, IH.
Qed.

Lemma sure_load_argument a : plain_argument a → sure (load_argument (JString (argument_text a))) (λ b, b = a).
Proof.
  intros (k & v & -> & Hk & _ & _). assert (argument_text (Arg (Some k) (Some v) []) = k +:+ String "=" v) as -> by reflexivity.
  unfold load_argument. cbn [unpack_string].
  rewrite span_none by done. by sound_steps.
Qed.

Lemma sure_wmapi_map {X Y Z'} (f : nat → X → W Y) (h : Z' → X) (q : Z' → Y) i l :
  (∀ i x, x ∈ l → sure (f i (h x)) (λ y, y = q x)) → sure (wmapi f i (h <$> l)) (λ ys, ys = q <$> l).
Proof.
  revert i. induction l as [|x l IH]; intros i Hf; cbn [fmap list_fmap wmapi]; [by apply sound_ret|].
  eapply sound_bind; [apply Hf; left|]. intros y ->. eapply sound_bind; [apply IH; intros; apply Hf; by right|]. intros ys ->. by apply sound_ret.
Qed.

Lemma sure_load_arguments L args t :
  bool_decide (NoDup (JsonRound.names L)) = true → JsonRound.value_of "arguments" L = Some (JsonRound.strs (argument_text <$> args)) →
  args ≠ [] → Forall plain_argument args →
  sure (load_arguments (JObject (JsonRound.mk L)) t) (λ t', t' = set_arguments args t).
Proof.
  intros Hnd Hv Hne Hp. unfold load_arguments. rewrite unpack_value_mk, Hv by done. destruct (_ =? 0)%nat eqn:Hz.
  { apply Nat.eqb_eq in Hz. simpl in Hz. rewrite !length_fmap in Hz. by destruct args. }
  sound_steps. unfold JsonRound.strs. cbn [elements]. rewrite <-list_fmap_compose.
  eapply sound_bind; [apply (sure_wmapi_map _ _ id)|].
  - intros i x Hx. apply sure_load_argument. by eapply Forall_forall.
  - intros ? ->. rewrite list_fmap_id. by apply sound_ret.
Qed.

Lemma known_deps d : known (texts (dep_members d)) dep_keys.
Proof. known_texts. Qed.

Lemma sure_load_dep ds z d : complete_dep d → sure (load_dep (ds, z) (dep_tree d)) (λ st, st = (ds ++ [set_task_index 0 d], z)).
Proof.
  intros Hd. unfold load_dep, dep_tree. set (k := unpack_strings _ _). set (L := texts (dep_members d)) in *.
  assert (∀ key x, bool_decide (key ∈ dep_keys) = true → JsonRound.value_of key L = JString <$> x → get k key = x) as Hget.
  { intros key x Hin Hx. apply (get_mk L); [vm_compute; reflexivity|apply known_deps|done|done]. }
  destruct Hd as ([a Ha] & [od Hod] & [nm Hnm] & [fl Hfl] & [oa Hoa] & [oo Hoo] & Hty).
  rewrite (Hget "task"%string (task_name d)), (Hget "argument"%string (dep_argument d)), (Hget "order"%string (dep_order d)),
    (Hget "filter"%string (dep_filter d)), (Hget "output_argument"%string (output_argument d)), (Hget "output_order"%string (output_order d)) by reflexivity.
  rewrite Hnm, Ha, Hod, Hfl, Hoa, Hoo. sound_steps. eapply sound_bind with (P := λ c, c = dep_type d).
  { unfold load_dep_type. rewrite (Hget "type"%string (dep_type d)) by reflexivity. destruct Hty as [-> |[-> | ->]]; apply sound_dup. }
  intros ? ->. sound_steps. unfold set_task_index. by rewrite Ha, Hod, Hnm, Hfl, Hoa, Hoo.
Qed.

Lemma sure_load_dep_loop ds ds0 z : Forall complete_dep ds → sure (wfold load_dep (ds0, z) (dep_tree <$> ds)) (λ st, st = (ds0 ++ (set_task_index 0 <$> ds), z)).
Proof.
  intros Hd. revert ds0. induction Hd as [|d ds Hd Hds IH]; intros ds0; cbn [fmap list_fmap wfold]; [apply sound_ret; by rewrite app_nil_r|].
  eapply sound_bind; [by apply sure_load_dep|]. intros ? ->. eapply sound_mono; [apply IH|]. intros ? ->. by rewrite <-app_assoc.
Qed.

Lemma sure_load_deps L t0 t :
  bool_decide (NoDup (JsonRound.names L)) = true →
  JsonRound.value_of "dependencies" L = JsonRound.unless_nil (deps t0) (JArray (dep_tree <$> deps t0)) → Forall complete_dep (deps t0) → deps t = [] →
  sure (load_deps (JObject (JsonRound.mk L)) t) (λ t', ∃ z, t' = set_deps (set_task_index 0 <$> deps t0) (set_residual_deps_num z t)).
Proof.
  intros Hnd Hv Hd Ht. unfold load_deps. rewrite unpack_value_mk, Hv by done. destruct (deps t0) as [|d ds].
  - apply sound_ret. exists (residual_deps_num t). destruct t. simpl in *. by subst.
  - cbn [JsonRound.unless_nil json_array_size]. rewrite length_fmap. cbn [length Nat.eqb]. sound_step.
    eapply sound_bind; [by apply (sure_load_dep_loop (d :: ds))|]. intros ? ->. apply sound_ret. by eexists.
Qed.

Lemma error_ok_not_empty s : error_ok s = true → not_empty (Some s) = true.
Proof. by destruct s. Qed.
Lemma exit_ok_not_empty s : exit_ok s = true → not_empty (Some s) = true.
Proof. by destruct s. Qed.

Lemma sure_load_error_action s t : error_ok s = true → sure (load_error_action s t) (λ t', ∃ n tm ty, t' = with_retry n tm ty t).
Proof.
  intros Hs. unfold error_ok in Hs. unfold load_error_action.
  assert (∀ n, ∃ n' tm ty, set_retry_num n t = with_retry n' tm ty t) as Hn by (intros n; exists n, (backoff_time t), (backoff_type t); by destruct t).
  destruct (eqs s OPH_WORKFLOW_SKIP); [by apply sound_ret|]. destruct (eqs s OPH_WORKFLOW_CONTINUE); [by apply sound_ret|].
  destruct (eqs s OPH_WORKFLOW_BREAK || eqs s OPH_WORKFLOW_ABORT) eqn:Hb; [by apply sound_ret|].
  apply orb_false_iff in Hb as [Hb1 Hb2]. rewrite Hb1, Hb2 in Hs. cbv beta iota delta [orb] in Hs. apply andb_true_iff in Hs as [[Hr Hpos]%andb_true_iff Hok].
  rewrite Hr. unfold repeat_ok in Hok. rewrite Hr in Hok. cbv beta iota delta [negb orb] in Hok. set (r := WfVars.drop_str _ s) in *. cbv zeta.
  eapply sound_bindC with (P := λ _, True); [rewrite Hok; by apply returns_ret|]. intros _ _. apply Z.leb_le in Hpos.
  rewrite (proj2 (Z.ltb_ge _ _)) by lia. apply sound_ret. unfold load_backoff. destruct (strchr _ _) as [sp|]; [|by apply Hn]. cbv zeta.
  destruct (strchr _ _) as [sp'|]; [by eexists _, _, _|]. exists (1 + numeric r), (numeric (skip_blanks sp)), (backoff_type t). by destruct t.
Qed.

Lemma sure_load_on_error base g k t :
  on_error t = None → if_any error_ok (get k "on_error") = true → if_any error_ok (get g "on_error") = true →
  sure (load_on_error base g k t) (λ t', ∃ n tm ty, t' = set_residual_retry_num n (with_retry n tm ty (set_on_error (get k "on_error") t))).
Proof.
  intros Ht Hk Hg. unfold load_on_error. eapply sound_bind; [apply ends_copy_text|]. intros ? ->. set (t1 := put_text _ _ _).
  assert (t1 = set_on_error (get k "on_error") (set_backoff_time (wrap_i32 base) (set_retry_num 1 t))) as ->.
  { unfold t1, put_text. destruct (get k "on_error") as [s|]; [by rewrite error_ok_not_empty|]. simpl. destruct t; simpl in *; by subst. }
  eapply sound_bind with (P := λ t', ∃ n tm ty, t' = with_retry n tm ty (set_on_error (get k "on_error") t)).
  - unfold own_or_global. destruct (get k "on_error") as [s|]; [|destruct (get g "on_error") as [s|]].
    + eapply sound_mono; [by apply sure_load_error_action|]. intros ? (n & tm & ty & ->). by exists n, tm, ty.
    + eapply sound_mono; [by apply sure_load_error_action|]. intros ? (n & tm & ty & ->). by exists n, tm, ty.
    + apply sound_ret. exists 1, (wrap_i32 base), (backoff_type t). by destruct t.
  - intros ? (n & tm & ty & ->). apply sound_ret. by exists n, tm, ty.
Qed.

Lemma sure_load_exit_action s t : exit_ok s = true → sure (load_exit_action s t) (λ t', ∃ z, t' = set_exit_action z t).
Proof.
  unfold exit_ok, load_exit_action. intros Hs. destruct (eqs s EmptyString || eqs s OPH_WORKFLOW_NOP) eqn:H1; [apply sound_ret; by eexists|].
  apply orb_false_iff in H1 as [_ H1]. rewrite H1 in Hs. destruct (eqs s OPH_WORKFLOW_DELETE); [apply sound_ret; by eexists|].
  simpl in Hs. rewrite Hs. apply sound_ret. by eexists.
Qed.

Lemma sure_load_on_exit g k t :
  on_exit t = None → if_any exit_ok (get k "on_exit") = true → if_any exit_ok (get g "on_exit") = true →
  sure (load_on_exit g k t) (λ t', ∃ z, t' = set_exit_action z (set_on_exit (get k "on_exit") t)).
Proof.
  intros Ht Hk Hg. unfold load_on_exit. eapply sound_bind; [apply ends_copy_text|]. intros ? ->. set (t1 := put_text _ _ _).
  assert (t1 = set_exit_action 0 (set_on_exit (get k "on_exit") t)) as ->.
  { unfold t1, put_text. destruct (get k "on_exit") as [s|]; [by rewrite exit_ok_not_empty|]. simpl. destruct t; simpl in *; by subst. }
  unfold own_or_global. destruct (get k "on_exit") as [s|]; [|destruct (get g "on_exit") as [s|]]; [..|apply sound_ret; by eexists];
    (eapply sound_mono; [by apply sure_load_exit_action|]); intros ? [z ->]; by exists z.
Qed.

Lemma sure_load_checkpoint wfc k t :
  checkpoint t = None → if_any label_ok (get k "checkpoint") = true → (is_Some wfc → is_Some (get k "checkpoint")) →
  sure (load_checkpoint wfc k t) (λ t', t' = set_checkpoint (get k "checkpoint") t).
Proof.
  intros Ht Hk Hw. unfold load_checkpoint. destruct (get k "checkpoint") as [[|c s]|]; [done| |].
  - unfold if_any, label_ok in Hk. apply andb_true_iff in Hk as [_ Hk%negb_true_iff]. rewrite Hk. by sound_steps.
  - destruct wfc as [x|]; [by destruct Hw|]. apply sound_ret. destruct t; simpl in *; by subst.
Qed.

(** A task read from the object that was stored for it. *)
Record read_back (t : oph_workflow_task) (ty o : string) (args : list argument) (t' : oph_workflow_task) : Prop := {
  rb_name : name t' = name t;
  rb_operator : operator t' = Some o;
  rb_type : type t' = Some ty ∧ rtype t' = None;
  rb_arguments : arguments t' = args;
  rb_deps : deps t' = set_task_index 0 <$> deps t;
  rb_actions : on_error t' = on_error t ∧ on_exit t' = on_exit t;
  rb_label : checkpoint t' = checkpoint t;
  rb_resources : no_resources t';
}.

Lemma origin_type t ty o args : origin t ty o args → ty ∈ task_types ∧ (ty = OPH_TYPE_CONTROL → control_operator o = true).
Proof.
  intros [? ? ?|? ? ? [-> | ->] ? ? ? ?|? ? ? ?]; split; try done; by (apply (bool_decide_unpack _); vm_compute).
Qed.

Lemma sure_load_names k t nm o ty :
  get k "name" = Some nm → get k "operator" = Some o → get k "type" = Some ty → ty ∈ task_types → (ty = OPH_TYPE_CONTROL → control_operator o = true) →
  sure (load_names k t) (λ t', t' = set_type (Some ty) (set_operator (Some o) (set_name (Some nm) t))).
Proof.
  intros Hnm Ho Hty Hin Hctl. unfold load_names. rewrite Hnm, Ho. sound_steps. unfold load_type. rewrite Hty.
  assert (existsb (eqs ty) [OPH_TYPE_OPHIDIA; OPH_TYPE_CDO; OPH_TYPE_GENERIC; OPH_TYPE_CONTROL] = true) as ->.
  { apply existsb_exists. exists ty. split; [by apply list_elem_of_In|by apply eqs_true]. }
  cbv beta iota delta [negb]. sound_step. cbn [operator set_operator]. sound_step.
  destruct (eqs ty OPH_TYPE_CONTROL) eqn:Hc; [|by apply sound_ret]. apply eqs_true in Hc. rewrite Hctl by done. by apply sound_ret.
Qed.

Lemma sure_load_task base n wfc g i wf t ty o args :
  n ≠ 0%nat → storable_task wf t ty o args → (is_Some wfc → is_Some (checkpoint t)) →
  if_any error_ok (get g "on_error") = true → if_any exit_ok (get g "on_exit") = true →
  choice_ok (get g "run") yes_no = true → choice_ok (get g "save") yes_no = true →
  sure (load_task base n wfc g i (task_tree ty o args t)) (read_back t ty o args).
Proof.
  intros Hn Hst Hw Hge Hgx Hgr Hgs. pose proof (origin_type _ _ _ _ (st_origin _ _ _ _ _ Hst)) as [Htys Hctl].
  destruct Hst as [[nm Hnm] Hty Ho Hargs [[a [Ha _]] _] _ Hdeps [He Hx] [Hlab _]].
  unfold load_task, task_tree. set (L := task_fields ty o args t). set (k := unpack_strings _ _).
  assert (bool_decide (NoDup (JsonRound.names L)) = true) as Hnd.
  { unfold L, task_fields, text_members. destruct (erases_command t); vm_compute; reflexivity. }
  assert (∀ key x, bool_decide (key ∈ task_keys) = true → JsonRound.value_of key L = JString <$> x → get k key = x) as Hget.
  { intros key x Hin Hv. apply (get_mk L); [done| |done|done]. unfold L, task_fields, text_members. destruct (erases_command t); known_texts. }
  assert (∀ key, JsonRound.value_of key L = JsonRound.value_of key (texts ([("name", name t); ("type", Some ty); ("operator", Some o)]%string ++ option_members t) ++
    [("arguments", Some (JsonRound.strs (argument_text <$> args))); ("dependencies", JsonRound.unless_nil (deps t) (JArray (dep_tree <$> deps t)))]%string)) as Hval.
  { intros key. unfold L, task_fields, text_members. destruct (erases_command t); [|done]. simpl. repeat (case_bool_decide; try done; subst; try done). }
  eapply sound_bind; [apply (sure_load_names k zero_task nm o ty)|].
  { apply Hget; [done|]. by rewrite Hval, <-Hnm. } { apply Hget; [done|]. by rewrite Hval. } { apply Hget; [done|]. by rewrite Hval. } { done. } { done. }
  intros ? ->. eapply sound_bind; [apply (sure_load_arguments L args); [done|by rewrite Hval|by intros ->; apply elem_of_nil in Ha|done]|].
  intros ? ->. eapply sound_bind; [apply (sure_load_deps L t); [done|by rewrite Hval|done|done]|].
  intros ? [z ->]. eapply sound_bindC; [by apply returns_load_variables|]. intros ? (tbl & -> & _).
  assert (get k "on_error" = on_error t) as Hke by (apply Hget; [done|by rewrite Hval]).
  assert (get k "on_exit" = on_exit t) as Hkx by (apply Hget; [done|by rewrite Hval]).
  assert (get k "checkpoint" = checkpoint t) as Hkc by (apply Hget; [done|by rewrite Hval]).
  assert (get k "run" = (if run t =? 0 then Some "no"%string else None)) as Hkr by (apply Hget; [done|by rewrite Hval]).
  assert (get k "save" = None) as Hks by (apply Hget; [done|by rewrite Hval]).
  eapply sound_bind; [apply sure_load_on_error; [done|by rewrite Hke|done]|]. intros ? (n' & tm & bt & ->).
  eapply sound_bind; [apply sure_load_on_exit; [done|by rewrite Hkx|done]|]. intros ? (z' & ->).
  eapply sound_bind; [apply sure_choice; unfold own_or_global; rewrite Hkr; by destruct (run t =? 0)|]. intros ? _.
  eapply sound_bind; [apply sure_choice; unfold own_or_global; by rewrite Hks|]. intros ? _.
  eapply sound_mono; [apply sure_load_checkpoint; [done|by rewrite Hkc|by rewrite Hkc]|]. intros ? ->. split; simpl; rewrite ?Hke, ?Hkx, ?Hkc; done.
Qed.

(** ** Distribution *)

(** The tasks keep their arguments; only resources that are not negative are set. *)
Definition alike (t0 t : oph_workflow_task) : Prop := core t = core t0 ∧ arguments t = arguments t0 ∧ resources_ok t.
Definition kept (l0 ts : list oph_workflow_task) : Prop := ∃ l f, ts = l ++ [f] ∧ Forall2 alike l0 l ∧ complete f.

(** Each task of a list is related to one of another list, before and after. *)
Lemma sure_on_tasks_rel {S} (f : oph_workflow_task → W oph_workflow_task) (P Q : S → oph_workflow_task → Prop) ls l r :
  (∀ s t, P s t → sure (f t) (Q s)) → Forall2 P ls l →
  sure (wfold (on_task f) (l ++ r) (seq 0 (length l))) (λ ts, ∃ l', ts = l' ++ r ∧ Forall2 Q ls l').
Proof.
  intros Hf Hl. eapply sound_mono; [apply (sound_on_tasks f (λ t t', ∀ s, P s t → Q s t'))|].
  - intros t Ht m Hm. apply list_elem_of_lookup in Ht as [i Hi]. destruct (Forall2_lookup_r _ _ _ _ _ Hl Hi) as (s1 & _ & H1).
    pose proof (wp_run _ _ _ (Hf s1 t H1 m Hm)) as ([rc|t'] & m' & Hr & Hv & Hm'); [done|].
    unfold wp. rewrite Hr. split; [|done]. intros s Hs. pose proof (Hf s t Hs m Hm) as Hw. unfold wp in Hw. rewrite Hr in Hw. by destruct Hw.
  - intros ts (l' & -> & Hl'). exists l'. split; [done|]. eapply Forall2_trans; [|exact Hl|exact Hl']. auto.
Qed.

Lemma kept_front l0 f ts :
  (∀ t0 t, t0 ∈ l0 → alike t0 t → sure (f t) (alike t0)) → kept l0 ts → sure (wfold (on_task f) ts (seq 0 (length l0))) (kept l0).
Proof.
  intros Hf (l & x & -> & Hl & Hx). rewrite (Forall2_length _ _ _ Hl).
  eapply sound_mono; [apply (sure_on_tasks_rel f (λ t0 t, t0 ∈ l0 ∧ alike t0 t) alike l0)|].
  - intros t0 t [Ht0 Ha]. by apply Hf.
  - apply Forall2_same_length_lookup_2; [by apply Forall2_length in Hl|]. intros i t0 t H0 H1.
    split; [by eapply list_elem_of_lookup_2|]. by eapply Forall2_lookup_lr.
  - intros ts (l' & -> & Hl'). by exists l', x.
Qed.

Lemma kept_all l0 f ts :
  (∀ t0 t, t0 ∈ l0 → alike t0 t → sure (f t) (alike t0)) → (∀ t, complete t → sure (f t) complete) →
  kept l0 ts → sure (wfold (on_task f) ts (seq 0 (S (length l0)))) (kept l0).
Proof.
  intros Hf Hfin Hk. rewrite seq_S. eapply ends_eq; [intros m; apply wfold_app|]. eapply sound_bind; [by apply kept_front|].
  intros ts' (l & x & -> & Hl & Hx). cbn [wfold plus]. eapply sound_bind; [|intros ts'' Hts; apply sound_ret; exact Hts].
  unfold on_task. rewrite (Forall2_length _ _ _ Hl), list_lookup_middle by done. sound_step. eapply sound_bind; [by apply Hfin|].
  intros x' Hx'. apply sound_ret. rewrite insert_app_r_alt, Nat.sub_diag by done. by exists l, x'.
Qed.

Lemma sure_substitute_final key v t : complete t → sure (substitute_task key v t) complete.
Proof.
  intros Ht. destruct (is_resource key) eqn:Hk.
  - eapply sound_mono; [by apply sound_substitute_resource|]. by intros t' [[_ Hc] _].
  - eapply sound_mono; [by apply sound_substitute_task|]. by intros t' [[_ Hc] _].
Qed.

(** The tasks that were read. *)
Definition plain_task (t : oph_workflow_task) : Prop := arguments t ≠ [] ∧ Forall plain_argument (arguments t).

Lemma plain_complete args : Forall plain_argument args → Forall complete_argument args.
Proof. intros Hp. eapply Forall_impl; [exact Hp|]. intros a (k & v & -> & _). by split; eexists. Qed.

Lemma plain_no_resource key args : is_resource key = true → Forall plain_argument args → Forall (λ a, arg_key a ≠ Some key) args.
Proof. intros Hk Hp. eapply Forall_impl; [exact Hp|]. intros a (k & v & -> & _ & Hr & _) [= ->]. congruence. Qed.

Lemma find_key_absent key args : Forall complete_argument args → Forall (λ a, arg_key a ≠ Some key) args → returns (find_key key args) (λ r, r = None).
Proof.
  intros Hc Hn. eapply returns_mono; [by apply returns_find_key|]. intros [j|] Hj; [|done]. destruct Hj as (a & Ha & Hk).
  rewrite Forall_lookup in Hn. by destruct (Hn j a Ha).
Qed.

Lemma find_present key args : Forall complete_argument args → keyed key args → returns (find_key key args) (λ r, ∃ j a, r = Some j ∧ args !! j = Some a).
Proof.
  intros Hc (a & Ha & Hk). eapply returns_mono; [by apply returns_find_key|]. intros [j|] Hj; [destruct Hj as (b & Hb & _); eauto|].
  rewrite Forall_forall in Hj. by destruct (Hj a Ha).
Qed.

Lemma sure_resource_alike key v t0 t :
  is_resource key = true → 0 ≤ numeric v → plain_task t0 → alike t0 t → sure (substitute_task key v t) (alike t0).
Proof.
  intros Hk Hv [Hne Hp] (Hc & Ha & Hr). unfold substitute_task. rewrite Ha, bool_decide_eq_false_2 by done.
  eapply sound_bindC; [apply find_key_absent; [by apply plain_complete|by apply plain_no_resource]|]. intros ? ->.
  destruct (resource_some key (numeric v) t Hk) as [[t' Ht'] _]. rewrite Ht'. apply sound_ret.
  pose proof (resource_keeps _ _ _ _ Ht') as (Ha' & Hc' & _). split_and!; [congruence|congruence|].
  unfold resource in Ht'. unfold resources_ok in *. destruct (eqs key "ncores"); [|destruct (eqs key "nhost"); [|destruct (eqs key "nthreads"); [|done]]]; simplify_eq; simpl; naive_solver.
Qed.

Lemma sure_present_alike key v t0 t :
  is_resource key = false → keyed key (arguments t0) → plain_task t0 → alike t0 t → sure (substitute_task key v t) (alike t0).
Proof.
  intros Hk Hkey [Hne Hp] (Hc & Ha & Hr). unfold substitute_task. rewrite Ha, bool_decide_eq_false_2 by done.
  eapply sound_bindC; [by apply find_present; [apply plain_complete|]|]. intros ? (j & a & -> & Hj).
  eapply sound_bindC; [by apply returns_deref|]. intros b _. unfold is_resource in Hk. rewrite !orb_false_iff in Hk. destruct Hk as [[H1 H2] H3].
  unfold resource. rewrite H1, H2, H3, bool_decide_eq_false_2 by (by intros []). by apply sound_ret.
Qed.

Lemma sure_finalize_alike key gr set t0 t :
  is_resource key = true → (∀ t, resources_ok t → 0 ≤ gr t) → plain_task t0 → alike t0 t → sure (finalize_task key gr set t) (alike t0).
Proof.
  intros Hk Hgr [Hne Hp] (Hc & Ha & Hr). unfold finalize_task. eapply sound_bindC with (P := λ t', t' = t).
  - destruct (negb _); [by apply returns_ret|]. rewrite Ha.
    eapply returns_bind; [apply find_key_absent; [by apply plain_complete|by apply plain_no_resource]|]. intros ? ->. by apply returns_ret.
  - intros ? ->. rewrite (proj2 (Z.ltb_ge _ _)) by (by apply Hgr). by apply sound_ret.
Qed.

Lemma kept_number l0 key z gr set ts :
  length l0 ≠ 0%nat → is_resource key = true → 0 ≤ z → in_i32 z → (∀ t, resources_ok t → 0 ≤ gr t) → Forall plain_task l0 → kept l0 ts →
  sure (distribute_number key z gr set (length l0) ts) (kept l0).
Proof.
  intros Hn Hk Hz Hi Hgr Hp Hts. unfold distribute_number. eapply sound_bind with (P := kept l0).
  - destruct (z =? 0); [by apply sound_ret|]. apply sound_generic; [done|]. unfold _oph_workflow_substitute_var. rewrite (proj2 (Nat.eqb_neq _ _) Hn).
    apply kept_all; [|by intros; apply sure_substitute_final|done]. intros t0 t Ht0 Ha.
    apply sure_resource_alike; [done|by rewrite numeric_int_text|by eapply Forall_forall|done].
  - intros ts' Hts'. apply kept_front; [|done]. intros t0 t Ht0 Ha. apply sure_finalize_alike; [done..|by eapply Forall_forall|done].
Qed.

Lemma kept_present l0 key v ts :
  length l0 ≠ 0%nat → is_resource key = false → Forall plain_task l0 → Forall (λ t, keyed key (arguments t)) l0 → kept l0 ts →
  sure (generic (_oph_workflow_substitute_var key (Some v) ts (length l0))) (kept l0).
Proof.
  intros Hn Hk Hp Hkey Hts. apply sound_generic; [done|]. unfold _oph_workflow_substitute_var. rewrite (proj2 (Nat.eqb_neq _ _) Hn).
  apply kept_all; [|by intros; apply sure_substitute_final|done]. intros t0 t Ht0 Ha.
  rewrite Forall_forall in Hp, Hkey. apply sure_present_alike; auto.
Qed.

Lemma sure_distribute wf l0 :
  tasks_num wf = length l0 → length l0 ≠ 0%nat → Forall plain_task l0 → kept l0 (tasks wf) →
  Forall (λ z, 0 ≤ z ∧ in_i32 z) [wf_ncores wf; wf_nhosts wf; wf_nthreads wf] → cube wf = None →
  Forall (λ t, keyed "cwd" (arguments t)) l0 → Forall (λ t, keyed "cdd" (arguments t)) l0 →
  (is_Some (project wf) → Forall (λ t, keyed "project" (arguments t)) l0) →
  sure (distribute wf) (λ wf', tasks_num wf' = tasks_num wf ∧ kept l0 (tasks wf')).
Proof.
  intros Hn Hl Hp Hts Hz Hcube Hcwd Hcdd Hproj. apply Forall_cons in Hz as [[? ?] [[? ?] [[? ?] _]%Forall_cons]%Forall_cons].
  unfold distribute. rewrite Hn.
  eapply sound_bind; [apply kept_number; try done; by intros t (? & _)|]. intros ts1 Hk1.
  eapply sound_bind; [apply kept_number; try done; by intros t (_ & ? & _)|]. intros ts2 Hk2.
  eapply sound_bind; [apply kept_number; try done; by intros t (_ & _ & ?)|]. intros ts3 Hk3.
  eapply sound_bind with (P := kept l0).
  { destruct (project wf) as [p|]; [|by apply sound_ret]. apply kept_present; try done. apply Hproj. by eexists. }
  intros ts4 Hk4. eapply sound_bindC; [apply root_if_null|]. intros ? [c ->]. eapply sound_bind; [by apply kept_present|]. intros ts5 Hk5.
  eapply sound_bindC; [apply root_if_null|]. intros ? [d ->]. eapply sound_bind; [by apply kept_present|]. intros ts6 Hk6.
  change (cube (set_cdd _ (set_cwd _ wf))) with (cube wf). rewrite Hcube. sound_step. apply sound_ret. by rewrite <-Hn.
Qed.

(** ** The original operator again *)

Lemma core_fields t0 t : core t = core t0 →
  name t = name t0 ∧ operator t = operator t0 ∧ type t = type t0 ∧ rtype t = rtype t0 ∧ deps t = deps t0 ∧ on_error t = on_error t0 ∧
  on_exit t = on_exit t0 ∧ checkpoint t = checkpoint t0.
Proof.
  intros Hc. split_and!; [exact (f_equal name Hc)|exact (f_equal operator Hc)|exact (f_equal type Hc)|exact (f_equal rtype Hc)|exact (f_equal deps Hc)|
    exact (f_equal on_error Hc)|exact (f_equal on_exit Hc)|exact (f_equal checkpoint Hc)].
Qed.

Lemma sure_adapt_task s ty o args t0 t :
  type s = Some OPH_TYPE_OPHIDIA → origin s ty o args → args ≠ [] → read_back s ty o args t0 → alike t0 t → sure (adapt_task t) (reloaded s).
Proof.
  intros Hty Ho Hne [Rn Ro [Rt Rr] Ra Rd [Re Rx] Rl _] (Hc & Ha & _). apply core_fields in Hc as (Cn & Co & Ct & Cr & Cd & Ce & Cx & Cl).
  unfold adapt_task. rewrite Ct, Rt. sound_step. destruct Ho as [o Hr Hop|ty o args Hext Hr Hop Harg Hcmd|o Hr Hop Hctl].
  - apply sound_ret. split; [congruence|split_and!; congruence|congruence|congruence|split; congruence|congruence].
  - replace (eqs ty OPH_TYPE_CDO || eqs ty OPH_TYPE_GENERIC) with true by (by destruct Hext as [-> | ->]).
    eapply sound_bind with (P := λ t', t' = set_arguments (arguments t ++ [null_argument]) t).
    { unfold realloc_vectors. rewrite bool_decide_eq_false_2 by congruence. by sound_steps. }
    intros ? ->. change (operator (set_arguments _ t)) with (operator t). rewrite Co, Ro. sound_steps.
    change (type (set_arguments _ t)) with (type t). rewrite Ct, Rt. apply sound_retype. cbn [set_arguments arguments type].
    rewrite insert_app_r_alt, Nat.sub_diag by done. split; cbn; [congruence|split_and!; congruence| |congruence|split; congruence|congruence].
    by rewrite Ha, Ra, Harg.
  - change (eqs OPH_TYPE_CONTROL OPH_TYPE_CDO || eqs OPH_TYPE_CONTROL OPH_TYPE_GENERIC) with false. change (eqs OPH_TYPE_CONTROL OPH_TYPE_CONTROL) with true.
    cbv beta iota. rewrite Co, Ro. apply sound_retype. split; cbn; [congruence|split_and!; congruence|congruence|congruence|split; congruence|congruence].
Qed.

(** ** The round trip *)

Lemma sure_wmapi_rel {X Y P} (f : nat → X → W Y) (h : P → X) (Q : P → Y → Prop) i ps :
  (∀ i p, p ∈ ps → sure (f i (h p)) (Q p)) → sure (wmapi f i (h <$> ps)) (λ ys, Forall2 Q ps ys).
Proof.
  revert i. induction ps as [|p ps IH]; intros i Hf; cbn [fmap list_fmap wmapi]; [by apply sound_ret|].
  eapply sound_bind; [apply Hf; left|]. intros y Hy. eapply sound_bind; [apply IH; intros; apply Hf; by right|]. intros ys Hys. apply sound_ret. by constructor.
Qed.

Lemma zip_with_map {A B D} (f : A → B → D) l k : zip_with f l k = (λ p, f p.1 p.2) <$> zip l k.
Proof. revert k. induction l as [|x l IH]; intros [|y k]; [done..|]. cbn. by rewrite IH. Qed.

Lemma Forall2_zip {A B} (P : A → B → Prop) l k : Forall2 P l k → Forall (λ p, P p.1 p.2) (zip l k).
Proof. induction 1; cbn; constructor; done. Qed.

(** What is read of a storable workflow is ready for the distribution. *)
Lemma read_plain wf l src l0 :
  Forall (λ p, storable_task wf p.1 p.2.1.1 p.2.1.2 p.2.2) (zip l src) →
  Forall2 (λ p t0, read_back p.1 p.2.1.1 p.2.1.2 p.2.2 t0) (zip l src) l0 →
  Forall plain_task l0 ∧ Forall (λ t, keyed "cwd" (arguments t)) l0 ∧ Forall (λ t, keyed "cdd" (arguments t)) l0 ∧
  (not_empty (project wf) = true → Forall (λ t, keyed "project" (arguments t)) l0) ∧ Forall no_resources l0 ∧ Forall complete l0.
Proof.
  intros Hst Hrb. revert Hst. induction Hrb as [|p t0 ps l0 [_ _ _ Ha _ _ _ Hr] Hrb IH]; intros Hst; [by split_and!; intros; constructor|].
  apply Forall_cons in Hst as [[_ _ _ Hp [Hw Hd] Hj _ _ _] Hst]. destruct (IH Hst) as (I1 & I2 & I3 & I4 & I5 & I6).
  assert (p.2.2 ≠ []) as Hne by (destruct Hw as (a & Ha' & _); intros E; rewrite E in Ha'; by apply elem_of_nil in Ha').
  split_and!.
  - constructor; [|done]. split; by rewrite Ha.
  - constructor; [|done]. by rewrite Ha.
  - constructor; [|done]. by rewrite Ha.
  - intros Hproj. constructor; [rewrite Ha; auto|auto].
  - by constructor.
  - constructor; [|done]. unfold complete. rewrite Ha. by apply plain_complete.
Qed.

Section round.
Context `{JanssonLaws} (oph_base_backoff oph_direct_output : Z).

(** The global members of the tree. *)
Lemma get_globals wf ts key x :
  bool_decide (key ∈ global_keys) = true → JsonRound.value_of key (wf_fields wf ts) = JString <$> x →
  get (unpack_strings (wf_tree wf ts) global_keys) key = x.
Proof.
  intros Hin Hv. apply (get_mk (wf_fields wf ts)); [vm_compute; reflexivity| |done|done]. unfold wf_fields. known_texts.
Qed.

Lemma sure_load_tree wf src wf0 :
  storable wf src → wf_checkpoint wf0 = None → project wf0 = None → cube wf0 = None →
  sure (load_tree oph_base_backoff oph_direct_output (doc_tree wf src) wf0) (λ wf', tasks_num wf' = tasks_num wf ∧
    ∀ i t, (i < tasks_num wf)%nat → tasks wf !! i = Some t → ∃ t', tasks wf' !! i = Some t' ∧ reloaded t t').
Proof.
  intros Hst Hc0 Hp0 Hq0. pose proof (storable_length _ _ Hst) as Hlen. destruct Hst as [(nm & Hnm & _) [Hn Hl] Hts _ Hz Hcube [He Hx] Hlab].
  unfold load_tree, doc_tree. set (ts := task_trees wf src). set (g := unpack_strings _ _).
  assert (∀ key x, bool_decide (key ∈ global_keys) = true → JsonRound.value_of key (wf_fields wf ts) = JString <$> x → get g key = x) as Hget by apply get_globals.
  assert (get g "checkpoint" = wf_checkpoint wf) as Gc by (by apply Hget). assert (get g "project" = project wf) as Gp by (by apply Hget).
  assert (get g "cube" = cube wf) as Gq by (by apply Hget). assert (get g "on_error" = wf_on_error wf) as Ge by (by apply Hget).
  assert (get g "on_exit" = wf_on_exit wf) as Gx by (by apply Hget).
  assert (get g "run" = (if wf_run wf =? 0 then Some "no"%string else None)) as Gr by (by apply Hget).
  assert (get g "save" = None) as Gs by (by apply Hget). assert (get g "output_format" = None) as Gf by (by apply Hget).
  assert (get g "direct_output" = None) as Gd by (by apply Hget).
  assert (choice_ok (get g "run") yes_no = true) as Gr' by (rewrite Gr; by destruct (wf_run wf =? 0)).
  assert (choice_ok (get g "save") yes_no = true) as Gs' by (by rewrite Gs).
  eapply sound_bind; [apply sure_load_globals; split|].
  { exists nm. rewrite <-Hnm. by apply Hget. }
  { rewrite Gc. destruct (wf_checkpoint wf) as [c|]; [|done]. unfold if_any, label_ok in Hlab. apply andb_true_iff in Hlab as [_ Hlab]. apply negb_true_iff in Hlab. exact Hlab. }
  { exact Gr'. } { exact Gs'. } { by rewrite Gf. } { by rewrite Gd. }
  intros ? ->. set (wf1 := globals _ _ _).
  assert (wf_checkpoint wf1 = text_or_null (wf_checkpoint wf)) as W1 by (rewrite <-Gc; by apply globals_checkpoint).
  assert (project wf1 = text_or_null (project wf)) as W2 by (rewrite <-Gp; by apply globals_project).
  assert (cube wf1 = None) as W3 by (unfold wf1; rewrite globals_cube, Gq, Hcube by done; done).
  assert (Forall (λ z, 0 ≤ z ∧ in_i32 z) [wf_ncores wf1; wf_nhosts wf1; wf_nthreads wf1]) as W4.
  { destruct (globals_numbers oph_direct_output g wf0 (int_text (wf_ncores wf)) (int_text (wf_nhosts wf)) (int_text (wf_nthreads wf))) as (E1 & E2 & E3); [by apply Hget..|].
    fold wf1 in E1, E2, E3. rewrite E1, E2, E3. pose proof Hz as [[? ?] [[? ?] [[? ?] _]%Forall_cons]%Forall_cons]%Forall_cons.
    rewrite !numeric_int_text by done. exact Hz. }
  clearbody wf1. clear Hget. clearbody g. set (n := tasks_num wf) in *. set (l := take n (tasks wf)) in *.
  assert (length l = n) as Hll by (unfold l; rewrite length_take; lia).
  assert (length ts = n) as Hlt by (unfold ts, task_trees; rewrite length_zip_with; fold n l; lia).
  eapply sound_bind with (P := λ wf2, ∃ l0, tasks_num wf2 = n ∧ kept l0 (tasks wf2) ∧ wf_ncores wf2 = wf_ncores wf1 ∧ wf_nhosts wf2 = wf_nhosts wf1 ∧
    wf_nthreads wf2 = wf_nthreads wf1 ∧ cube wf2 = None ∧ project wf2 = project wf1 ∧
    Forall2 (λ p t0, read_back p.1 p.2.1.1 p.2.1.2 p.2.2 t0) (zip l src) l0).
  { unfold load_tasks, wf_tree. rewrite unpack_value_mk by (vm_compute; reflexivity). change (JsonRound.value_of "tasks" (wf_fields wf ts)) with (Some (JArray ts)).
    cbn [json_array_size elements]. rewrite Hlt. rewrite (proj2 (Nat.eqb_neq n 0)) by lia. sound_step.
    eapply sound_bindC; [by apply returns_create; lia|]. intros ? (tbl & -> & _).
    eapply sound_bind; [unfold ts, task_trees; fold n l; rewrite zip_with_map; apply (sure_wmapi_rel _ _ (λ p t0, read_back p.1 p.2.1.1 p.2.1.2 p.2.2 t0))|].
    { intros i p Hp. pose proof (Forall2_zip _ _ _ Hts) as Hz'. rewrite Forall_forall in Hz'. specialize (Hz' p Hp).
      apply (sure_load_task _ _ _ _ _ wf); [lia|done| |by rewrite Ge|by rewrite Gx|done|done].
      rewrite W1. intros [c Hc]. apply (st_label _ _ _ _ _ Hz'). unfold text_or_null in Hc. by destruct (wf_checkpoint wf). }
    intros l0 Hl0. eapply sound_bind with (P := complete).
    { unfold final_task. eapply sound_bind; [by apply sure_choice|]. intros z ->. apply sound_ret. constructor. }
    intros f Hf. apply sound_ret. exists l0. split_and!; try done.
    destruct (read_plain wf l src l0 (Forall2_zip _ _ _ Hts) Hl0) as (_ & _ & _ & _ & Hres & Hco).
    exists l0, f. split_and!; [done| |done]. clear -Hres. induction Hres as [|t0 l0 [? [? ?]] Hres IH]; constructor; [|done].
    split_and!; [done..|]. unfold resources_ok. lia. }
  intros wf2 (l0 & Hn2 & Hk & N1 & N2 & N3 & Q2 & P2 & Hrb).
  destruct (read_plain wf l src l0 (Forall2_zip _ _ _ Hts) Hrb) as (Hplain & Hcwd & Hcdd & Hproj & _ & _).
  assert (length l0 = n) as Hl0 by (rewrite <-(Forall2_length _ _ _ Hrb), length_zip_with; lia).
  eapply sound_bind; [apply (sure_distribute wf2 l0)|].
  { by rewrite Hl0. } { lia. } { done. } { done. } { by rewrite N1, N2, N3. } { done. } { done. } { done. }
  { rewrite P2, W2. intros [p Hp]. apply Hproj. unfold text_or_null in Hp. by destruct (not_empty (project wf)). }
  intros wf3 [Hn3 (l3 & f3 & Hts3 & Hal & _)]. rewrite Hts3, Hn3, Hn2, <-Hl0, (Forall2_length _ _ _ Hal).
  eapply sound_bind; [apply (sure_on_tasks_rel adapt_task (λ s t, ∃ x t0, storable_task wf s x.1.1 x.1.2 x.2 ∧ read_back s x.1.1 x.1.2 x.2 t0 ∧ alike t0 t) reloaded l)|].
  - intros s t (x & t0 & [_ Hty Ho _ [[a [Ha _]] _] _ _ _ _] & Hr & Hal'). eapply sure_adapt_task; [done..| |done|done]. intros E. rewrite E in Ha. by apply elem_of_nil in Ha.
  - apply Forall2_same_length_lookup_2; [rewrite <-(Forall2_length _ _ _ Hal); lia|]. intros i s t Hs Ht.
    destruct (Forall2_lookup_r _ _ _ _ _ Hal Ht) as (t0 & Ht0 & Ha). destruct (Forall2_lookup_r _ _ _ _ _ Hrb Ht0) as (p & Hp & Hr).
    destruct (Forall2_lookup_l _ _ _ _ _ Hts Hs) as (x & Hx' & Hsx). assert (p = (s, x)) as -> by (rewrite lookup_zip_with, Hs in Hp; simpl in Hp; rewrite Hx' in Hp; by simplify_eq/=).
    exists x, t0. done.
  - intros ts4 (l4 & -> & Hl4). apply sound_ret. pose proof (Forall2_length _ _ _ Hal) as E3. split; [simpl; lia|]. intros i t Hi Hlk.
    assert (l !! i = Some t) as Hli by (unfold l; rewrite lookup_take_lt by lia; done). destruct (Forall2_lookup_l _ _ _ _ _ Hl4 Hli) as (t' & Ht' & Hr).
    exists t'. split; [|done]. by apply lookup_app_l_Some.
Qed.

(** A text the removal of comments does not change. *)
Definition comment_free (s : string) : Prop := _oph_workflow_skip_comments (Some s) [] = Ok (OPH_WORKFLOW_EXIT_SUCCESS, Some s) [].

Lemma comment_free_returns s : comment_free s → returns (_oph_workflow_skip_comments (Some s)) (λ r, r = (OPH_WORKFLOW_EXIT_SUCCESS, Some s)).
Proof.
  unfold comment_free. change (_oph_workflow_skip_comments (Some s) []) with (_oph_workflow_skip_comments (Some s) [true]).
  rewrite skip_comments_run. intros [= Hs] m Hm. unfold wp.
  destruct m as [|b m]; [change (_oph_workflow_skip_comments (Some s) []) with (_oph_workflow_skip_comments (Some s) [true])|apply Forall_cons in Hm as [-> Hm]];
    rewrite skip_comments_run; cbv zeta in *; rewrite Hs; [by split; [|apply reliable_nil]|done].
Qed.

(** C14: A workflow that was stored loads again, with the same number of tasks, and every task has the name, the
    operator and its type, the arguments, the dependencies, the actions and the label it had. Conditions (storable):
    at least one task, no global cube, numbers that are not negative, every task has arguments with short plain texts
    among them cwd and cdd (and project if the workflow has one), complete dependencies that each name another task,
    and actions and labels of the known form; the printed document is valid JSON for Jansson and holds nothing that
    the removal of comments would change. *)
Theorem store_load_roundtrip wf src u ip m :
  storable wf src → json_valid (doc_tree wf src) = true → comment_free (json_dumps (doc_tree wf src)) → reliable m →
  wp (let! s := oph_workflow_store (Some wf) None in
      oph_workflow_load oph_base_backoff oph_direct_output (Some s) (Some u) ip)
    (λ r _, ∃ wf', r = inr wf' ∧ tasks_num wf' = tasks_num wf ∧
       ∀ i t, (i < tasks_num wf)%nat → tasks wf !! i = Some t → ∃ t', tasks wf' !! i = Some t' ∧ reloaded t t') m.
Proof.
  intros Hst Hv Hcf Hm.
  assert (sure (let! s := oph_workflow_store (Some wf) None in oph_workflow_load oph_base_backoff oph_direct_output (Some s) (Some u) ip)
    (λ wf', tasks_num wf' = tasks_num wf ∧ ∀ i t, (i < tasks_num wf)%nat → tasks wf !! i = Some t → ∃ t', tasks wf' !! i = Some t' ∧ reloaded t t')) as Hs.
  { eapply sound_bind with (P := λ s, s = json_dumps (doc_tree wf src)).
    { unfold oph_workflow_store. sound_step. eapply sound_bind; [by apply sure_store_tree|]. intros v ->. by sound_steps. }
    intros s ->. unfold oph_workflow_load. eapply sound_bind with (P := λ wf0, wf0 = new_workflow).
    { apply sound_generic; [done|]. unfold _oph_workflow_alloc. by sound_steps. }
    intros wf0 ->. sound_step. eapply sound_bindC with (P := λ _, True).
    { destruct ip as [ip|]; [|by apply returns_ret]. eapply returns_mono; [apply returns_strdup|done]. }
    intros ip' _. eapply sound_bindC; [by apply comment_free_returns|]. intros ? ->. cbv beta iota.
    change (OPH_WORKFLOW_EXIT_SUCCESS =? 0) with true. cbv iota. rewrite (loads_dumps _ Hv : json_loads (json_dumps (doc_tree wf src)) = Some (doc_tree wf src)). by apply sure_load_tree. }
  eapply wp_mono; [by apply Hs|]. intros [rc|wf'] m' [Hr _]; [done|]. by exists wf'.
Qed.
End round.

(** ** A workflow that is stored and loaded again *)

(** Characters that neither open a comment nor a string. *)
Lemma plain_comment_free s : all_of (λ c, piece_ok (Code c)) s = true → comment_free s.
Proof.
  intros Hs. unfold comment_free. change (_oph_workflow_skip_comments (Some s) []) with (_oph_workflow_skip_comments (Some s) [true]).
  assert (∃ l, forallb piece_ok l = true ∧ pieces piece_text l = s ∧ pieces piece_code l = s) as (l & Hl & Et & Ec).
  { induction s as [|c s IH]; [by exists []|]. rewrite all_of_cons, andb_true_iff in Hs. destruct Hs as [Hc Hs].
    destruct (IH Hs) as (l & Hl & Et & Ec). exists (Code c :: l). cbn [forallb pieces piece_text piece_code]. by rewrite Hc, Et, Ec. }
  rewrite skip_comments_run. subst s. rewrite (run_pieces l None [] Hl) by done. simpl. by rewrite text_of_written, app_str_nil_r, Ec.
Qed.

Lemma bits_plain p : all_of (λ c, piece_ok (Code c)) (JsonRound.bits p) = true.
Proof. induction p as [p IH|p IH|]; cbn [JsonRound.bits]; [by rewrite all_of_cons, IH..|done]. Qed.

(** Two tasks, the second one after the first one. *)
Definition folders : list argument := [Arg (Some "cwd") (Some "/") []; Arg (Some "cdd") (Some "/") []]%string.
Definition stored_task (nm op : string) (ds : list oph_workflow_dep) : oph_workflow_task :=
  set_name (Some nm) (set_operator (Some op) (set_type (Some OPH_TYPE_OPHIDIA) (set_arguments folders (set_deps ds zero_task)))).
Definition stored_workflow : oph_workflow :=
  set_wf_name (Some "w"%string) (set_tasks_num 2 (set_tasks
    [stored_task "A" "oph_list" []; stored_task "B" "oph_list" [Dep (Some "cube") (Some "0") (Some "A") 0 (Some "single") (Some "") (Some "") (Some "")]; zero_task]%string new_workflow)).
Definition stored_source : list (string * string * list argument) :=
  [(OPH_TYPE_OPHIDIA, "oph_list", folders); (OPH_TYPE_OPHIDIA, "oph_list", folders)]%string.

Lemma stored_workflow_storable : storable stored_workflow stored_source.
Proof.
  assert (Forall plain_argument folders) as Hf.
  { constructor; [|constructor; [|constructor]]; (do 2 eexists; split_and!; [reflexivity|vm_compute; reflexivity..|apply (bool_decide_unpack _); vm_compute; reflexivity]). }
  assert (∀ nm op ds, Forall complete_dep ds → storable_task stored_workflow (stored_task nm op ds) OPH_TYPE_OPHIDIA op folders) as Ht.
  { intros nm op ds Hds. split; [by eexists|done|by apply plain_origin|done| |done|done|done|by split].
    split; [exists (Arg (Some "cwd") (Some "/") [])%string; split; [left|done]|].
    exists (Arg (Some "cdd") (Some "/") [])%string. split; [right; left|done]. }
  split; [|by split; [simpl; lia|]| | | |done|done|done].
  - exists "w"%string. split; [done|]. apply (bool_decide_unpack _). vm_compute. reflexivity.
  - constructor; [apply Ht; constructor|]. constructor; [|constructor]. apply Ht. constructor; [|constructor]. split_and!; [by eexists..|]. auto.
  - intros [|[|i]] t d Hi Hlk Hd; [| |simpl in Hi; lia]; injection Hlk as <-; [by apply elem_of_nil in Hd|].
    apply list_elem_of_singleton in Hd as ->. split; [done|]. exists 0%nat. eexists. split_and!; [simpl; lia|done|done].
  - repeat (constructor; [split; [done|split; done]|]). constructor.
Qed.

Lemma store_load_roundtrip_witness :
  wp (let! s := @oph_workflow_store JsonRound.coded_jansson (Some stored_workflow) None in
      @oph_workflow_load JsonRound.coded_jansson 10 0 (Some s) (Some "user"%string) None)
    (λ r _, ∃ wf', r = inr wf' ∧ tasks_num wf' = 2%nat ∧
       ∀ i t, (i < 2)%nat → tasks stored_workflow !! i = Some t → ∃ t', tasks wf' !! i = Some t' ∧ reloaded t t') [].
Proof.
  apply (@store_load_roundtrip JsonRound.coded_jansson JsonRound.coded_jansson_laws 10 0 stored_workflow stored_source "user"%string None []).
  - exact stored_workflow_storable.
  - vm_compute. reflexivity.
  - apply plain_comment_free, bits_plain.
  - apply reliable_nil.
Defined.

End WfRound.
