(* ===== verification/Values.v ===== *)
(** * Values taken from earlier responses

    [oph_extract_from_json] and [oph_check_input_response] of
    [src/oph_flow_control_operators.c]: the values of a loop (or of a variable) are a
    list separated by bars; a value that names a text or a cell of a table in the
    response of an earlier task is replaced by it, and the arithmetic expressions in
    it are evaluated.

    Two parts are parameters: the reader of the JSON text of a response, for which the
    theorem on printed cells takes the one of [JsonText], and the evaluator of expressions of
    libmatheval. *)

From Stdlib Require Ascii.
From stdpp Require Import base gmap strings numbers pretty list.
From S2P Require Import Prelude CString HashTbl WfStructs JsonDoc JsonText JsonRound.
Import (notations) Stdlib.Strings.Ascii.
Import WfStructs JsonDoc.

Module Values.
Open Scope Z_scope.

Definition OPH_SERVER_OK : Z := 0.
Definition OPH_SERVER_NULL_POINTER : Z := 2.
Definition OPH_SERVER_ERROR : Z := 3.
Definition OPH_MAX_STRING_SIZE : nat := 4096.
Definition OPH_WORKFLOW_MAX_STRING : nat := 2048.
Definition OPH_WORKFLOW_OBJECT : string := ".".
Definition OPH_WORKFLOW_BRACKET_BEGIN : ascii := "(".
Definition OPH_WORKFLOW_BRACKET_END : ascii := ")".
Definition OPH_WORKFLOW_COMMA : ascii := ",".
Definition OPH_WORKFLOW_GENERIC_VALUE : string := "*".
Definition OPH_WORKFLOW_END_VALUE : string := "end".
Definition OPH_SEPARATOR_SUBPARAM : ascii := "|".
Definition OPH_SEPARATOR_SUBPARAM_STR : string := "|".
Definition OPH_FLOW_EVAL : string := "EVAL(".

(** ** References to a response *)

(** The text before the first [c], and after it. *)
Definition before (c : ascii) (s : string) : string := (span_str (Ascii.eqb c) s).1.
Definition after (c : ascii) (s : string) : option string :=
  match strchr s c with Some (String _ r) => Some r | _ => None end.

(** The brackets behind the last part of a name: the name, the row and the column.  With
    a single part, a row without a column keeps what follows it. *)
Definition brackets (single : bool) (target : string) : option (string * cstr * cstr) :=
  match after OPH_WORKFLOW_BRACKET_BEGIN target with
  | None => Some (target, None, None)
  | Some row =>
      let name := before OPH_WORKFLOW_BRACKET_BEGIN target in
      match after OPH_WORKFLOW_COMMA row with
      | None =>
          match after OPH_WORKFLOW_BRACKET_END row with
          | None => None
          | Some _ => Some (name, Some (if single then row else before OPH_WORKFLOW_BRACKET_END row), None)
          end
      | Some col =>
          match after OPH_WORKFLOW_BRACKET_END col with
          | None => None
          | Some _ => Some (name, Some (before OPH_WORKFLOW_COMMA row), Some (before OPH_WORKFLOW_BRACKET_END col))
          end
      end
  end.

Record reference : Type := Ref {
  ref_objkey : string;
  ref_title : cstr;
  ref_colkey : cstr;
  ref_row : cstr;
  ref_col : cstr;
}.

(** [objkey[.title[.colkey]]], with brackets behind the last part. *)
Definition parse_reference (key : string) : option reference :=
  match strtok OPH_WORKFLOW_OBJECT key with
  | [a] => '(a, r, c) ← brackets true a; Some (Ref a None None r c)
  | [a; b] => '(b, r, c) ← brackets false b; Some (Ref a (Some b) None r c)
  | [a; b; d] => '(d, r, c) ← brackets false d; Some (Ref a (Some b) (Some d) r c)
  | _ => None
  end.

(** ** The object *)

Definition contents_num (c : objcontents) : nat :=
  match c with
  | Texts l => length l | Grids l => length l | Multigrids l => length l | Trees l => length l | Graphs l => length l
  end.

(** The response with the key. *)
Fixpoint response_of_key (rs : list oph_json_response) (i : nat) (key : string) : option nat :=
  match rs with
  | [] => None
  | r :: rs' => if bool_decide (objkey r = Some key) then Some i else response_of_key rs' (S i) key
  end.

(** The loop over the titles of a response: [j] where it stops, and [k], the response of
    the first object with the title. *)
Fixpoint scan_titles (titles : list cstr) (i j : nat) (k : option nat) (title : string) : nat * option nat :=
  match titles with
  | [] => (j, k)
  | t :: titles' =>
      if bool_decide (t = Some title) then
        match k with Some _ => (j, k) | None => scan_titles titles' i (S j) (Some i) title end
      else scan_titles titles' i (S j) k title
  end.

(** The search of a title in all the responses; [Break]: more than one.  For a class
    without titles [j] is what an earlier response left. *)
Definition title_step (title : string) (st : nat * nat * option nat) (r : oph_json_response) :
    C (ctl (nat * nat * option nat) unit) :=
  let '(i, j, k) := st in
  match objkey r, objclass r with
  | Some _, Some class =>
      '(j, k) ←
        (if bool_decide (class = OPH_JSON_TEXT) then
           l ← deref (unwrap (objcontent r)); mret (scan_titles (text_title <$> l) i 0 k title)
         else if bool_decide (class = OPH_JSON_GRID) then
           l ← deref (unwrap (objcontent r)); mret (scan_titles (grid_title <$> l) i 0 k title)
         else mret (j, k));
      mret (if (j <? contents_num (objcontent r))%nat then Break () else Next (S i, j, k))
  | _, _ => mret (Next (S i, j, k))
  end.

(** The object with the title, or the only one, which then has to have a title. *)
Definition select_object {Ob} (title_of : Ob → cstr) (l : list Ob) (title : cstr) : option Ob :=
  match title with
  | Some _ => snd <$> list_find (λ o, title_of o = title) l
  | None => match l with [o] => if is_null (title_of o) then None else Some o | _ => None end
  end.

(** *** Cells *)

(** A number counted from 1; 0 and a missing one are the first. *)
Definition index_of (s : cstr) : Z :=
  match s with
  | None => 0
  | Some s => let n := wrap_u32 (strtol s) in if n =? 0 then 0 else n - 1
  end.

Inductive cells : Type :=
| Cell (irow icol : nat)
| AllRows (icol : nat)
| AllColumns (irow : nat).

Definition is_word (s : cstr) (w : string) : bool := bool_decide (s = Some w).

(** [icol], and whether all the columns are meant. *)
Definition col_index (g : oph_json_obj_grid) (colkey col : cstr) : option (Z * bool) :=
  match colkey with
  | Some ck => (λ ik : nat * string, (Z.of_nat ik.1, false)) <$> list_find (λ k, k = ck) (grid_keys g)
  | None =>
      if is_word col OPH_WORKFLOW_GENERIC_VALUE then Some (0, true)
      else if is_word col OPH_WORKFLOW_END_VALUE then Some (wrap_u32 (Z.of_nat (grid_values_num2 g) - 1), false)
      else Some (index_of col, false)
  end.

(** [irow], and whether all the rows are meant: not with all the columns. *)
Definition row_index (g : oph_json_obj_grid) (row : cstr) (all_columns : bool) : option (Z * bool) :=
  if is_word row OPH_WORKFLOW_GENERIC_VALUE then if all_columns then None else Some (0, true)
  else if is_word row OPH_WORKFLOW_END_VALUE then Some (wrap_u32 (Z.of_nat (length (grid_values g)) - 1), false)
  else Some (index_of row, false).

(** The cells of a reference; [None]: no such column or an index out of the table. *)
Definition cells_of (g : oph_json_obj_grid) (colkey row col : cstr) : option cells :=
  match col_index g colkey col with
  | None => None
  | Some (icol, all_columns) =>
      match row_index g row all_columns with
      | None => None
      | Some (irow, all_rows) =>
          if (Z.of_nat (length (grid_values g)) <=? irow) || (Z.of_nat (grid_values_num2 g) <=? icol) then None
          else Some (if all_rows : bool then AllRows (Z.to_nat icol)
                     else if all_columns then AllColumns (Z.to_nat irow) else Cell (Z.to_nat irow) (Z.to_nat icol))
      end
  end.

(** [obj->values[irow][icol]] *)
Definition cell (g : oph_json_obj_grid) (irow icol : nat) : C string :=
  r ← deref (grid_values g !! irow); c ← deref (r !! icol); deref c.

(** The cells joined by bars; a failed allocation leaves a null key. *)
Fixpoint join_cells (g : oph_json_obj_grid) (key : cstr) (ps : list (nat * nat)) : C (Z * cstr) :=
  match ps with
  | [] => mret (OPH_SERVER_OK, key)
  | (irow, icol) :: ps' =>
      k ← deref key;
      c ← cell g irow icol;
      ok ← malloc;
      if ok : bool then join_cells g (Some (k +:+ OPH_SEPARATOR_SUBPARAM_STR +:+ c)) ps' else mret (OPH_SERVER_ERROR, None)
  end.

Definition read_cells (g : oph_json_obj_grid) (cs : cells) : C (Z * cstr) :=
  match cs with
  | Cell irow icol =>
      c ← cell g irow icol; k ← strdup (Some c);
      mret (if is_null k then OPH_SERVER_ERROR else OPH_SERVER_OK, k)
  | AllRows icol =>
      c ← cell g 0 icol; k ← strdup (Some c);
      join_cells g k ((λ i, (i, icol)) <$> seq 1 (length (grid_values g) - 1))
  | AllColumns irow =>
      c ← cell g irow 0; k ← strdup (Some c);
      join_cells g k ((λ i, (irow, i)) <$> seq 1 (grid_values_num2 g - 1))
  end.

Section externals.
(** [oph_json_from_json_string_unsafe]: the document of a JSON text. *)
Context (read_json : string → option oph_json).

(** The response, the title and the column of a reference.  Without a response of that
    key the parts are a title and a column. *)
Definition locate (j : oph_json) (ref : reference) : C (option (nat * cstr * cstr)) :=
  match response_of_key (response j) 0 (ref_objkey ref) with
  | Some i => mret (Some (i, ref_title ref, ref_colkey ref))
  | None =>
      match ref_colkey ref with
      | Some _ => mret None
      | None =>
          r ← loopC (title_step (ref_objkey ref)) (0%nat, 0%nat, None) (response j);
          mret (match r with
                | Next (_, _, Some k) => Some (k, Some (ref_objkey ref), ref_title ref)
                | _ => None
                end)
      end
  end.

(** Result and [*key], which only a success (or a lack of memory) changes. *)
Definition oph_extract_from_json (key json_string : cstr) : C (Z * cstr) :=
  match key, json_string with
  | Some k, Some text =>
      match parse_reference k with
      | None => mret (OPH_SERVER_ERROR, key)
      | Some ref =>
          match read_json text with
          | None => mret (OPH_SERVER_ERROR, key)
          | Some j =>
              o ← locate j ref;
              match o with
              | None => mret (OPH_SERVER_ERROR, key)
              | Some (i, title, colkey) =>
                  r ← deref (response j !! i);
                  match objclass r with
                  | None => mret (OPH_SERVER_ERROR, key)
                  | Some class =>
                      if bool_decide (class = OPH_JSON_TEXT) then
                        l ← deref (unwrap (objcontent r));
                        match select_object text_title l title with
                        | None => mret (OPH_SERVER_ERROR, key)
                        | Some t => k ← strdup (text_message t); mret (if is_null k then OPH_SERVER_ERROR else OPH_SERVER_OK, k)
                        end
                      else if bool_decide (class = OPH_JSON_GRID) then
                        l ← deref (unwrap (objcontent r));
                        match select_object grid_title l title with
                        | None => mret (OPH_SERVER_ERROR, key)
                        | Some g =>
                            match cells_of g colkey (ref_row ref) (ref_col ref) with
                            | None => mret (OPH_SERVER_ERROR, key)
                            | Some cs => read_cells g cs
                            end
                        end
                      else mret (OPH_SERVER_ERROR, key)
                  end
              end
          end
      end
  | _, _ => mret (OPH_SERVER_ERROR, key)
  end.

(** ** Lists of values *)

(** [++*svalues_num] for each bar that is not the last character. *)
Fixpoint count_values (s : string) : nat :=
  match s with
  | EmptyString => 1
  | String c s' => if (c =? OPH_SEPARATOR_SUBPARAM)%char && negb (bool_decide (s' = EmptyString)) then S (count_values s') else count_values s'
  end.

(** The loops over the tasks with a response and over their dependents: the value is
    looked up in the response of every task that [i] depends on, until one has it. *)
Definition resolve_value (wf : oph_workflow) (i : Z) (v : cstr) : C (bool * cstr) :=
  r ← loopC (λ v h,
    t ← deref (tasks wf !! h);
    match WfStructs.response t with
    | None => mret (Next v)
    | Some _ =>
        loopC (λ v d,
          if d =? i then
            '(rc, v) ← oph_extract_from_json v (WfStructs.response t);
            mret (if rc =? OPH_SERVER_OK then Break v else Next v)
          else mret (Next v)) v (dependents_indexes t)
    end) v (seq 0 (tasks_num wf));
  mret (match r with Next v => (false, v) | Break v => (true, v) end).

(** [sprintf(expanded_value + hh, ...)] within the buffer of [size] characters. *)
Definition print_at (size : nat) (buffer : string) (hh : nat) (text : string) : C string :=
  let b := take_str hh buffer +:+ text in
  assertC (bool_decide (String.length b < size)%nat);; mret b.

(** The text that replaces the list when a value is itself a list: [hh] is the length of
    the last piece printed, not the offset. *)
Definition expand_values (arg_value : string) (svalues : list cstr) (v : string) (next : cstr) : C string :=
  let size := (1 + String.length arg_value + String.length v)%nat in
  '(buffer, hh) ← foldC (λ '(buffer, hh) s,
     s ← deref s;
     let piece := s +:+ OPH_SEPARATOR_SUBPARAM_STR in
     b ← print_at size buffer hh piece; mret (b, String.length piece)) (EmptyString, 0%nat) svalues;
  b ← print_at size buffer hh v;
  match next with
  | None => mret b
  | Some pch => print_at size b (String.length v) (OPH_SEPARATOR_SUBPARAM_STR +:+ pch)
  end.

(** One round over the tokens from number [kk]: all the values found ([None] at the end:
    an allocation failed), or the text to start again with.  After an expansion the loop
    goes on with the next token if there is one, in memory that was released. *)
Inductive round_result : Type :=
| Values (kk : nat) (svalues : list cstr)
| Again (kk : nat) (tmp : cstr).

Fixpoint value_round (wf : oph_workflow) (i : Z) (arg_value : string) (num kk : nat) (svalues : list cstr)
    (tokens : list string) : C round_result :=
  match tokens with
  | [] => mret (Values kk svalues)
  | pch :: tokens' =>
      if (num <=? kk)%nat then mret (Values kk svalues) else
      ok ← malloc;
      if negb ok then mret (Values kk (svalues ++ [None])) else
      '(found, v) ← resolve_value wf i (Some (take_str OPH_WORKFLOW_MAX_STRING pch));
      if found : bool then
        v ← deref v;
        if has_char OPH_SEPARATOR_SUBPARAM v then
          expanded ← expand_values arg_value svalues v (head tokens');
          tmp ← strdup (Some expanded);
          match tokens' with
          | [] => mret (Again (S kk) tmp)
          | _ :: _ => if (S kk <? num)%nat then undef else mret (Again (S kk) tmp)
          end
        else value_round wf i arg_value num (S kk) (svalues ++ [Some v]) tokens'
      else value_round wf i arg_value num (S kk) (svalues ++ [v]) tokens'
  end.

(** The rounds; the result is [kk], [*svalues_num] and the array, null after a failed
    allocation. *)
Fixpoint value_rounds (fuel : nat) (wf : oph_workflow) (i : Z) (arg_value : string) (kk : nat) (tmp : string) :
    C (nat * nat * option (list cstr)) :=
  match fuel with
  | O => out_of_fuel
  | S fuel' =>
      let num := count_values tmp in
      ok ← malloc;
      if negb ok then mret (kk, num, None) else
      r ← value_round wf i arg_value num 0 [] (strtok OPH_SEPARATOR_SUBPARAM_STR tmp);
      match r with
      | Values kk svalues => mret (kk, num, Some (svalues ++ replicate (num - length svalues) None))
      | Again kk tmp => tmp ← deref tmp; value_rounds fuel' wf i arg_value kk tmp
      end
  end.

(** ** Expressions *)

(** A [double]: whether it is a number, whether it is zero, and its text in ["%f"]. *)
Record double : Type := Double {
  finite : bool;
  is_zero : bool;
  digits_f : string;
}.

(** libmatheval: the number of variables of an expression and, without variables, its
    value; [None]: not an expression. *)
Context (evaluator : string → option (nat * double)).

(** [strstr(s, OPH_FLOW_EVAL)]: the text before the word, and behind it. *)
Fixpoint find_eval (s : string) : option (string * string) :=
  if strncmp0 s OPH_FLOW_EVAL (String.length OPH_FLOW_EVAL) then Some (EmptyString, String.substring 5 (String.length s - 5) s)
  else match s with
       | EmptyString => None
       | String c s' => '(p, r) ← find_eval s'; Some (String c p, r)
       end.

(** The expression up to the bracket that closes it, and what follows. *)
Fixpoint closing (s : string) (bracket : nat) : option (string * string) :=
  match s with
  | EmptyString => None
  | String c s' =>
      if (c =? OPH_WORKFLOW_BRACKET_END)%char && (bracket =? 1)%nat then Some (EmptyString, s')
      else
        let bracket := if (c =? OPH_WORKFLOW_BRACKET_BEGIN)%char then S bracket
                       else if (c =? OPH_WORKFLOW_BRACKET_END)%char then (bracket - 1)%nat else bracket in
        '(e, r) ← closing s' bracket; Some (String c e, r)
  end.

(** [snprintf(tmp2 + n, size, "%s", text)] in a buffer of [OPH_MAX_STRING_SIZE]. *)
Definition snprint_at (tmp2 : string) (n size : nat) (text : string) : C string :=
  assertC (bool_decide (n + Nat.min size (S (String.length text)) ≤ OPH_MAX_STRING_SIZE)%nat);;
  mret (if (size =? 0)%nat then tmp2 else take_str n tmp2 +:+ take_str (size - 1) text).

(** The loop over the expressions of a value: [base] is what is left. *)
Fixpoint eval_loop (fuel : nat) (base tmp2 : string) (n : nat) (flag : bool) : C (string * string * nat * bool) :=
  match fuel with
  | O => out_of_fuel
  | S fuel' =>
      match find_eval base with
      | None => mret (base, tmp2, n, flag)
      | Some (p, start) =>
          let nchar := String.length p in
          if (0 <? nchar)%nat && (OPH_MAX_STRING_SIZE - String.length tmp2 <=? nchar)%nat then mret (base, tmp2, n, flag)
          else
            tmp2 ← (if (0 <? nchar)%nat then snprint_at tmp2 n (S nchar) p else mret tmp2);
            let n := (n + nchar)%nat in
            match closing start 1 with
            | None => mret (base, tmp2, n, flag)
            | Some (expr, rest) =>
                if bool_decide (expr = EmptyString) then eval_loop fuel' rest tmp2 n true
                else
                  match evaluator expr with
                  | Some (O, d) =>
                      if finite d then
                        tmp2' ← snprint_at tmp2 n (OPH_MAX_STRING_SIZE - String.length tmp2) (digits_f d);
                        eval_loop fuel' rest tmp2' (n + String.length (digits_f d)) true
                      else mret (base, tmp2, n, flag)
                  | _ => mret (base, tmp2, n, flag)
                  end
            end
      end
  end.

Definition eval_value (v : cstr) : C cstr :=
  match v with
  | None | Some EmptyString => mret v
  | Some s =>
      '(base, tmp2, n, flag) ← eval_loop (S (String.length s)) s EmptyString 0 false;
      if flag : bool then
        tmp2 ← snprint_at tmp2 n (OPH_MAX_STRING_SIZE - String.length tmp2) base;
        strdup (Some tmp2)
      else mret v
  end.

(** Result, [*svalues] and [*svalues_num]. *)
Definition oph_check_input_response (fuel : nat) (wf : option oph_workflow) (i : Z) (arg_value : cstr) :
    C (Z * option (list cstr) * Z) :=
  match wf, arg_value with
  | Some wf, Some arg =>
      tmp ← strdup (Some arg);
      match tmp with
      | None => mret (OPH_SERVER_NULL_POINTER, None, 0)
      | Some tmp =>
          if bool_decide (tmp = EmptyString) then mret (OPH_SERVER_OK, None, 0) else
          '(kk, num, svalues) ← value_rounds fuel wf i arg 0 tmp;
          if (kk <? num)%nat then mret (OPH_SERVER_ERROR, svalues, Z.of_nat num)
          else
            l ← deref svalues;
            l ← mapC eval_value l;
            mret (OPH_SERVER_OK, Some l, Z.of_nat num)
      end
  | _, _ => mret (OPH_SERVER_NULL_POINTER, None, 0)
  end.

(** ** Plain values *)

#[local] Opaque OPH_WORKFLOW_MAX_STRING.

(** A value that is neither a list nor has expressions in it. *)
Definition plain (w : string) : Prop :=
  w ≠ EmptyString ∧ none_of (λ c, has_char c OPH_SEPARATOR_SUBPARAM_STR) w = true ∧
  (String.length w ≤ OPH_WORKFLOW_MAX_STRING)%nat ∧ find_eval w = None.

Fixpoint join_values (ws : list string) : string :=
  match ws with
  | [] => EmptyString
  | [w] => w
  | w :: ws' => w +:+ String OPH_SEPARATOR_SUBPARAM (join_values ws')
  end.

Lemma join_tokens ws : Forall plain ws → strtok OPH_SEPARATOR_SUBPARAM_STR (join_values ws) = ws.
Proof.
  induction 1 as [|w ws (Hne & Hbar & _) Hws IH]; [done|]. destruct ws as [|w' ws]; [by apply strtok_single|].
  change (join_values (w :: w' :: ws)) with (w +:+ String OPH_SEPARATOR_SUBPARAM (join_values (w' :: ws))).
  rewrite strtok_app by done. by rewrite IH.
Qed.

Lemma bar_char c : (c =? OPH_SEPARATOR_SUBPARAM)%char = has_char c OPH_SEPARATOR_SUBPARAM_STR.
Proof. destruct c as [[] [] [] [] [] [] [] []]; reflexivity. Qed.

Lemma count_values_none w : none_of (λ c, has_char c OPH_SEPARATOR_SUBPARAM_STR) w = true → count_values w = 1%nat.
Proof.
  induction w as [|c w IH]; [done|]. simpl none_of. intros [Hc Hw]%andb_true_iff. simpl. rewrite bar_char.
  rewrite (proj1 (negb_true_iff _) Hc). by apply IH.
Qed.

Lemma count_values_app w s : none_of (λ c, has_char c OPH_SEPARATOR_SUBPARAM_STR) w = true → s ≠ EmptyString →
  count_values (w +:+ String OPH_SEPARATOR_SUBPARAM s) = S (count_values s).
Proof.
  intros Hw Hs. induction w as [|c w IH]; [rewrite app_str_nil; simpl; by rewrite bool_decide_eq_false_2|].
  simpl in Hw. apply andb_true_iff in Hw as [Hc Hw]. rewrite app_str_cons. simpl. rewrite bar_char, (proj1 (negb_true_iff _) Hc). by apply IH.
Qed.

Lemma join_nonempty ws : ws ≠ [] → Forall plain ws → join_values ws ≠ EmptyString.
Proof. intros Hne Hws. destruct Hws as [|w [|w' ws] (Hw & _) _]; [done|done|]. by destruct w. Qed.

Lemma count_join ws : ws ≠ [] → Forall plain ws → count_values (join_values ws) = length ws.
Proof.
  intros Hne Hws. induction Hws as [|w ws (Hw & Hbar & _) Hws IH]; [done|]. destruct ws as [|w' ws]; [by apply count_values_none|].
  change (join_values (w :: w' :: ws)) with (w +:+ String OPH_SEPARATOR_SUBPARAM (join_values (w' :: ws))).
  rewrite count_values_app by (done || by apply join_nonempty). by rewrite IH.
Qed.

(** The tasks that [i] depends on have no response. *)
Definition no_responses (wf : oph_workflow) (i : Z) : Prop :=
  (tasks_num wf ≤ length (tasks wf))%nat ∧
  ∀ h t, (h < tasks_num wf)%nat → tasks wf !! h = Some t → i ∈ dependents_indexes t → WfStructs.response t = None.

Lemma wp_resolve_none wf i v (Q : bool * cstr → mem → Prop) m :
  no_responses wf i → Q (false, v) m → wp (resolve_value wf i v) Q m.
Proof.
  intros [Hlen Hno] HQ. unfold resolve_value. apply wp_bind. eapply wp_mono.
  - apply (wp_loopC _ (λ _ v' m', v' = v ∧ m' = m) (λ _ _, False)); [done|]. intros don h rest v' m' Hseq [-> ->].
    apply seq_app_cons_inv in Hseq as (-> & _ & Hh). destruct (lookup_lt_is_Some_2 (tasks wf) (length don)) as [t Ht]; [lia|].
    apply wp_bind, (wp_deref _ _ _ _ Ht). destruct (WfStructs.response t) eqn:Hr; [|by apply wp_ret].
    eapply wp_mono; [apply (wp_loopC _ (λ _ v' m', v' = v ∧ m' = m) (λ _ _, False)); [done|]|].
    + intros don' d rest' v' m' Hd [-> ->]. destruct (Z.eqb_spec d i) as [->|]; [|by apply wp_ret].
      exfalso. assert (WfStructs.response t = None); [|congruence]. apply (Hno _ _ Hh Ht). rewrite Hd. apply elem_of_mid.
    + by intros [v'|] m'.
  - intros [v'|] m'; [|done]. intros [-> ->]. by apply wp_ret.
Qed.

Lemma wp_value_round wf i arg num kk svs ws m (Q : round_result → mem → Prop) :
  reliable m → no_responses wf i → Forall plain ws → (num = kk + length ws)%nat →
  (∀ m', reliable m' → Q (Values num (svs ++ (Some <$> ws))) m') →
  wp (value_round wf i arg num kk svs ws) Q m.
Proof.
  intros Hm Hno Hws. revert kk svs m Hm. induction Hws as [|w ws (Hne & Hbar & Hlen & _) _ IH]; intros kk svs m Hm Hnum HQ; simpl.
  { apply wp_ret. rewrite Hnum, Nat.add_0_r in HQ. rewrite app_nil_r in HQ. by apply HQ. }
  rewrite (proj2 (Nat.leb_gt num kk)) by (simpl in Hnum; lia). apply wp_bind, wp_malloc_reliable; [done|]. intros m1 Hm1. simpl.
  apply wp_bind, wp_resolve_none; [done|]. rewrite take_str_ge by done. apply IH; [done|simpl in Hnum; lia|].
  intros m2 Hm2. rewrite <-app_assoc. by apply HQ.
Qed.

Lemma wp_eval_plain w (Q : cstr → mem → Prop) m : find_eval w = None → Q (Some w) m → wp (eval_value (Some w)) Q m.
Proof.
  intros Hw HQ. unfold eval_value. destruct w as [|c w]; [by apply wp_ret|]. apply wp_bind. cbn [eval_loop]. rewrite Hw. by do 2 apply wp_ret.
Qed.

Lemma wp_plain_values (fuel : nat) (wf : oph_workflow) (i : Z) (ws : list string) (Q : Z * option (list cstr) * Z → mem → Prop) (m : mem) :
  reliable m → no_responses wf i → ws ≠ [] → Forall plain ws → (0 < fuel)%nat →
  (∀ m', reliable m' → Q (OPH_SERVER_OK, Some (Some <$> ws), Z.of_nat (length ws)) m') →
  wp (oph_check_input_response fuel (Some wf) i (Some (join_values ws))) Q m.
Proof.
  intros Hm Hno Hne Hws Hfuel HQ. destruct fuel as [|fuel]; [lia|]. unfold oph_check_input_response.
  apply wp_bind, wp_strdup; [done|]. intros m1 Hm1. rewrite bool_decide_eq_false_2 by (by apply join_nonempty).
  apply wp_bind. cbn [value_rounds]. apply wp_bind, wp_malloc_reliable; [done|]. intros m2 Hm2. simpl negb. cbv iota.
  rewrite count_join, join_tokens by done. apply wp_bind, wp_value_round; [done..|]. intros m3 Hm3. simpl app.
  apply wp_ret. rewrite length_fmap, Nat.sub_diag, app_nil_r, Nat.ltb_irrefl. apply wp_bind, wp_ret, wp_bind.
  apply (wp_mapC _ id); [done| |intros m4 Hm4; apply wp_ret; rewrite list_fmap_id; by apply HQ].
  intros x m4 R (w & -> & Hw)%list_elem_of_fmap Hm4 HR. rewrite Forall_forall in Hws. destruct (Hws w Hw) as (_ & _ & _ & Hev).
  apply wp_eval_plain; [done|]. by apply HR.
Qed.

(** a list of plain values, separated by bars, is split into exactly those values
    when no task it depends on has a response, in one round. *)
Theorem plain_values_split (fuel : nat) (wf : oph_workflow) (i : Z) (ws : list string) (m : mem) :
  reliable m → no_responses wf i → ws ≠ [] → Forall plain ws → (0 < fuel)%nat →
  wp (oph_check_input_response fuel (Some wf) i (Some (join_values ws)))
    (λ r _, r = (OPH_SERVER_OK, Some (Some <$> ws), Z.of_nat (length ws))) m.
Proof. intros Hm Hno Hne Hws Hfuel. by apply wp_plain_values. Qed.

Lemma wp_print_at size b hh t (Q : string → mem → Prop) m :
  (hh + String.length t < size)%nat → (∀ b', Q b' m) → wp (print_at size b hh t) Q m.
Proof.
  intros Hlen HQ. unfold print_at. apply wp_bind, wp_assert; [|by apply wp_ret]. apply bool_decide_eq_true.
  rewrite length_app_str, length_take_str. lia.
Qed.

Lemma expansion_round_ub wf i (r w v : string) :
  plain r → resolve_value wf i (Some r) [] = Ok (true, Some v) [] → has_char OPH_SEPARATOR_SUBPARAM v = true →
  value_round wf i (join_values [r; w]) 2 0 [] [r; w] [] = UB.
Proof.
  intros (Hne & _ & Hlen & _) Hres Hv. cbn [value_round]. change (2 <=? 0)%nat with false. cbv iota.
  apply bind_ub, wp_malloc_steady; [done|]. intros m ->. change (negb true) with false. cbv iota.
  rewrite (take_str_ge _ r) by done. rewrite (bind_run _ _ _ _ _ Hres). cbv beta iota.
  apply bind_ub, wp_ret. rewrite Hv. apply bind_ub. unfold expand_values. cbn [foldC head].
  apply wp_bind, wp_ret, wp_bind, wp_print_at; [simpl; lia|]. intros b.
  assert (0 < String.length r)%nat as Hr by (destruct r; [done|simpl; lia]).
  apply wp_print_at; [cbn [join_values]; rewrite !length_app_str; simpl; lia|]. intros b'.
  apply bind_ub, wp_strdup_steady; [done|]. by intros m ->.
Qed.

(** a value that is replaced by a list and is followed by another value makes the
    code read and write memory it has just released. *)
Theorem expansion_before_value_ub (fuel : nat) (wf : oph_workflow) (i : Z) (r w v : string) :
  plain r → plain w → resolve_value wf i (Some r) [] = Ok (true, Some v) [] →
  has_char OPH_SEPARATOR_SUBPARAM v = true → (0 < fuel)%nat →
  oph_check_input_response fuel (Some wf) i (Some (join_values [r; w])) [] = UB.
Proof.
  intros Hr Hw Hres Hv Hfuel. destruct fuel as [|fuel]; [lia|]. unfold oph_check_input_response.
  assert (Forall plain [r; w]) as Hws by (constructor; [done|constructor; [done|constructor]]).
  apply bind_ub, wp_strdup_steady; [done|]. intros m ->. rewrite bool_decide_eq_false_2 by (by apply join_nonempty).
  enough (value_rounds (S fuel) wf i (join_values [r; w]) 0 (join_values [r; w]) [] = UB) as Hub.
  { unfold mbind, C_bind. by rewrite Hub. }
  cbn [value_rounds]. rewrite count_join, join_tokens by done. apply bind_ub, wp_malloc_steady; [done|]. intros m ->.
  change (negb true) with false. change (length [r; w]) with 2%nat. cbv iota. unfold mbind, C_bind. by rewrite (expansion_round_ub wf i r w v).
Qed.

(** ** References *)

(** A part of a name: no dots, no brackets. *)
Definition simple_name (s : string) : Prop :=
  s ≠ EmptyString ∧ none_of (λ c, has_char c OPH_WORKFLOW_OBJECT) s = true ∧ has_char OPH_WORKFLOW_BRACKET_BEGIN s = false.

Lemma before_app c s t : has_char c s = false → before c (s +:+ String c t) = s ∧ after c (s +:+ String c t) = Some t.
Proof.
  intros Hs. unfold before, after. rewrite strchr_app by done. split; [|done].
  induction s as [|a s IH]; [rewrite app_str_nil; simpl; by rewrite Ascii.eqb_refl|].
  rewrite app_str_cons. rewrite has_char_cons in Hs. apply orb_false_iff in Hs as [Ha Hs]. simpl.
  rewrite Ascii.eqb_sym, Ha. simpl. by rewrite IH.
Qed.

Lemma has_char_app c s t : has_char c (s +:+ t) = has_char c s || has_char c t.
Proof. induction s as [|a s IH]; [done|]. by rewrite app_str_cons, !has_char_cons, IH, orb_assoc. Qed.

Lemma after_none c s : has_char c s = false → after c s = None.
Proof. unfold has_char, after. intros Hs%bool_decide_eq_false. destruct (strchr s c) eqn:Hc; [|done]. destruct Hs. by eexists. Qed.

(** The text of a reference to row [irow], counted from 0, of a column. *)
Definition cell_reference (k t ck : string) (irow : nat) : string :=
  k +:+ String "." (t +:+ String "." (ck +:+ String "(" (print_int (Z.of_nat irow + 1) +:+ String ")" EmptyString))).

Lemma parse_cell_reference k t ck irow :
  simple_name k → simple_name t → simple_name ck →
  parse_reference (cell_reference k t ck irow) = Some (Ref k (Some t) (Some ck) (Some (print_int (Z.of_nat irow + 1))) None).
Proof.
  intros (Hk1 & Hk2 & Hk3) (Ht1 & Ht2 & Ht3) (Hc1 & Hc2 & Hc3). unfold parse_reference, cell_reference.
  set (n := print_int (Z.of_nat irow + 1)).
  assert (∀ c, is_digit c = false → c ≠ "-"%char → has_char c n = false) as Hn by (intros; by apply digit_none).
  rewrite strtok_app by done. rewrite strtok_app by done. rewrite strtok_single.
  - unfold brackets. destruct (before_app OPH_WORKFLOW_BRACKET_BEGIN ck (n +:+ String ")" EmptyString) Hc3) as [Hb Ha].
    unfold OPH_WORKFLOW_BRACKET_BEGIN in *. rewrite Ha, Hb.
    rewrite (after_none OPH_WORKFLOW_COMMA) by (by rewrite has_char_app, Hn).
    destruct (before_app OPH_WORKFLOW_BRACKET_END n EmptyString) as [Hb' Ha']; [by apply Hn|].
    unfold OPH_WORKFLOW_BRACKET_END in *. by rewrite Ha', Hb'.
  - apply none_of_has_char. rewrite has_char_app. apply none_of_has_char in Hc2. rewrite Hc2. simpl.
    rewrite has_char_cons, has_char_app, Hn by done. done.
  - by destruct ck.
Qed.

Lemma response_of_key_lookup ks rs d i k r :
  Forall2 response_ok ks rs → NoDup ks → ks !! i = Some k → rs !! i = Some r → response_of_key rs d k = Some (d + i)%nat.
Proof.
  intros Hrs Hnd. revert d i Hnd. induction Hrs as [|k' r' ks rs Hr _ IH]; intros d i Hnd Hk Hri; [done|].
  apply NoDup_cons in Hnd as [Hnot Hnd]. simpl. destruct Hr as [Hkey _]. destruct i as [|i]; simpl in *.
  - injection Hk as <-. rewrite bool_decide_eq_true_2 by done. f_equal. lia.
  - rewrite bool_decide_eq_false_2.
    + rewrite (IH (S d) i) by done. f_equal. lia.
    + rewrite Hkey. intros [= ->]. apply Hnot. by eapply list_elem_of_lookup_2.
Qed.

Lemma list_find_nodup (ks : list string) i k : NoDup ks → ks !! i = Some k → list_find (λ x, x = k) ks = Some (i, k).
Proof.
  intros Hnd Hi. apply list_find_Some. split_and!; [done|done|]. intros j y Hj Hlt ->.
  assert (i = j) by (by eapply NoDup_lookup). lia.
Qed.

(** In a well-formed document, a reference to a row, counted from 1, and a column of a
    table is replaced by the text of that cell. *)
Lemma wp_extract_cell (j : oph_json) (text k t ck v : string) (i n irow icol : nat) (l : list oph_json_obj_grid)
    (g : oph_json_obj_grid) (r : row) (m : mem) :
  read_json text = Some j → doc_ok j → response_at i OPH_JSON_GRID k l j →
  list_find (λ o, grid_title o = Some t) l = Some (n, g) → grid_keys g !! icol = Some ck →
  grid_values g !! irow = Some r → r !! icol = Some (Some v) → (Z.of_nat irow + 1 < 2 ^ 32) →
  simple_name k → simple_name t → simple_name ck → reliable m →
  wp (oph_extract_from_json (Some (cell_reference k t ck irow)) (Some text)) (λ r _, r = (OPH_SERVER_OK, Some v)) m.
Proof.
  intros Hread Hok Hresp Hsel Hcol Hrow Hcell Hbound Hk Ht Hck Hm. unfold oph_extract_from_json.
  rewrite parse_cell_reference, Hread by done. destruct (Forall2_lookup_r _ _ _ _ _ (do_responses j Hok) Hresp) as (k' & Hk' & Hr).
  pose proof (ro_key _ _ Hr) as Hkey. simpl in Hkey. injection Hkey as ->.
  apply wp_bind. unfold locate. simpl ref_objkey. rewrite (response_of_key_lookup _ _ 0 i k' _ (do_responses j Hok) (do_keys j Hok) Hk' Hresp).
  apply wp_ret. cbv beta iota. apply wp_bind, (wp_deref _ _ _ _ Hresp). simpl objclass. cbv iota.
  rewrite bool_decide_eq_false_2 by done. rewrite bool_decide_eq_true_2 by done. apply wp_bind. simpl unwrap. apply wp_ret.
  unfold select_object. cbn [ref_title ref_colkey ref_row ref_col]. rewrite Hsel. simpl fmap. cbv iota.
  assert (grid_ok g) as Hg.
  { destruct Hr as [_ (c & Hc & Hcont)]. simpl in Hcont. destruct Hcont as (_ & _ & Hall). apply list_find_Some in Hsel as [Hl _].
    by eapply Forall_lookup_1. }
  assert (cells_of g (Some ck) (Some (print_int (Z.of_nat irow + 1))) None = Some (Cell irow icol)) as ->.
  { unfold cells_of, col_index. rewrite (list_find_nodup _ icol ck) by (done || apply Hg). simpl.
    assert (∀ w c s, String.get 0 w = Some c → is_digit c = false → c ≠ "-"%char → is_word (Some (print_int s)) w = false) as Hw.
    { intros w c s Hw Hd Hn. apply bool_decide_eq_false. intros [= Heq]. destruct (print_int_head s) as (c' & s' & Hp & Hc').
      rewrite Hp in Heq. subst w. simpl in Hw. injection Hw as ->. destruct Hc'; congruence. }
    unfold row_index. rewrite (Hw OPH_WORKFLOW_GENERIC_VALUE "*"%char) by done. rewrite (Hw OPH_WORKFLOW_END_VALUE "e"%char) by done.
    unfold index_of. rewrite strtol_print by (unfold in_i64; lia). rewrite wrap_u32_id by lia. rewrite (proj2 (Z.eqb_neq _ _)) by lia.
    pose proof (lookup_lt_Some _ _ _ Hrow). pose proof (lookup_lt_Some _ _ _ Hcol). pose proof (go_num2 g Hg).
    rewrite !(proj2 (Z.leb_gt _ _)) by lia. simpl. by rewrite Z.add_simpl_r, !Nat2Z.id. }
  unfold read_cells, cell. apply wp_bind, wp_bind, (wp_deref _ _ _ _ Hrow), wp_bind, (wp_deref _ _ _ _ Hcell), wp_ret, wp_bind.
  apply wp_strdup; [done|]. intros m' Hm'. by apply wp_ret.
Qed.

(** a title is not found when the first response of the document is neither a text
    nor a table: the number of objects of such a response is compared with a counter it
    does not set, and the title is reported as ambiguous. *)
Theorem title_behind_other_class_lost (j : oph_json) (text key c : string) (r : oph_json_response) (rs : list oph_json_response)
    (name : string) (row col : cstr) (m : mem) :
  read_json text = Some j → doc_ok j → response j = r :: rs → objclass r = Some c → c ≠ OPH_JSON_TEXT → c ≠ OPH_JSON_GRID →
  parse_reference key = Some (Ref name None None row col) → name ∉ responseKeyset j →
  wp (oph_extract_from_json (Some key) (Some text)) (λ r _, r = (OPH_SERVER_ERROR, Some key)) m.
Proof.
  intros Hread Hok Hrs Hc Ht Hg Hparse Hname. unfold oph_extract_from_json. rewrite Hparse, Hread. apply wp_bind. unfold locate.
  simpl ref_objkey. simpl ref_colkey.
  assert (response_of_key (response j) 0 name = None) as ->.
  { pose proof (do_responses j Hok) as Hall. revert Hname. generalize 0%nat. generalize dependent (response j). intros rs' _ Hall.
    induction Hall as [|k r' ks rs'' [Hk _] _ IH]; intros d Hname; [done|]. simpl. rewrite Hk. apply not_elem_of_cons in Hname as [Hne Hname].
    rewrite bool_decide_eq_false_2 by congruence. by apply IH. }
  apply wp_bind. rewrite Hrs. simpl loopC. apply wp_bind. unfold title_step at 1.
  pose proof (do_responses j Hok) as Hall. rewrite Hrs in Hall. apply Forall2_cons_inv_r in Hall as (k & ks & [Hk (c' & Hc' & Hcont)] & _ & _).
  rewrite Hk, Hc. apply wp_bind. rewrite !bool_decide_eq_false_2 by done. apply wp_ret. cbv beta iota.
  assert (0 <? contents_num (objcontent r) = true)%nat as ->.
  { apply Nat.ltb_lt. destruct (objcontent r) as [l|l|l|l|l]; simpl in Hcont |- *; destruct Hcont as (_ & Hl & _); destruct l; simpl; lia || done. }
  do 4 apply wp_ret. done.
Qed.
End externals.

(** ** Responses of the server

    The reader of the server, on a machine with enough memory. *)
Definition read_response_text `{JsonText.Jansson} (text : string) : option oph_json :=
  match JsonText._oph_json_from_json_string (Some text) [] with
  | Ok (rc, Some j) _ => if rc =? OPH_JSON_SUCCESS then Some j else None
  | _ => None
  end.

(** C35: a reference to a row, counted from 1, and a column of a table in the response of an
    earlier task, which the server printed as JSON text, is replaced by the text of that
    cell. *)
Theorem printed_cell_extracted `{JsonText.JanssonLaws} (j : oph_json) (k t ck v : string) (i n irow icol : nat) (l : list oph_json_obj_grid)
    (g : oph_json_obj_grid) (r : row) (m : mem) :
  JsonRound.printable j → JsonText.json_valid (JsonRound.doc_json j) = true → response_at i OPH_JSON_GRID k l j →
  list_find (λ o, grid_title o = Some t) l = Some (n, g) → grid_keys g !! icol = Some ck →
  grid_values g !! irow = Some r → r !! icol = Some (Some v) → (Z.of_nat irow + 1 < 2 ^ 32) →
  simple_name k → simple_name t → simple_name ck → reliable m →
  ∃ text, JsonText._oph_json_to_json_string (Some j) [] = Ok (OPH_JSON_SUCCESS, Some text) [] ∧
    wp (oph_extract_from_json read_response_text (Some (cell_reference k t ck irow)) (Some text)) (λ r _, r = (OPH_SERVER_OK, Some v)) m.
Proof.
  intros Hp Hv. destruct (JsonRound.print_then_read j Hp Hv) as [Hprint Hread]. intros. eexists. split; [exact Hprint|].
  eapply wp_extract_cell; try done; [|apply Hp]. unfold read_response_text. by rewrite Hread.
Qed.

(** ** A workflow whose second task uses the response of the first *)

Definition sample_grid : oph_json_obj_grid :=
  Grid (Some "files"%string) None ["name"; "size"]%string ["string"; "int"]%string
    [[Some "a.nc"; Some "10"]; [Some "b.nc"; Some "20"]]%string 2.
Definition sample_doc : oph_json :=
  Json None [] ["list"%string] [Response (Some OPH_JSON_GRID) (Some "list"%string) (Grids [sample_grid])] None.
Definition tree_doc : oph_json :=
  Json None [] ["tree"%string] [Response (Some OPH_JSON_TREE) (Some "tree"%string) (Trees [Tree (Some "t"%string) None [] [] 0 None []])] None.

Definition sample_reader (s : string) : option oph_json := if bool_decide (s = "tree"%string) then Some tree_doc else Some sample_doc.
Definition no_evaluator (s : string) : option (nat * double) := None.

Definition sample_wf : oph_workflow :=
  set_tasks [WfStructs.set_response (Some "list"%string) (set_dependents_indexes [1] zero_task); zero_task] (set_tasks_num 2 zero_workflow).

Lemma sample_doc_ok : doc_ok sample_doc.
Proof.
  split; simpl; try done; [|apply NoDup_singleton|constructor]. constructor; [|constructor]. split; [done|].
  exists OPH_JSON_GRID. split; [done|]. split_and!; [done..|]. constructor; [|constructor]. split; simpl.
  - by eexists.
  - split; [|done]. by apply (bool_decide_unpack _); vm_compute.
  - split; [|done]. by apply (bool_decide_unpack _); vm_compute.
  - done.
  - do 2 (constructor; [by eexists [_; _]|]). constructor.
Qed.

Lemma tree_doc_ok : doc_ok tree_doc.
Proof.
  split; simpl; try done; [|apply NoDup_singleton|constructor]. constructor; [|constructor]. split; [done|].
  exists OPH_JSON_TREE. split; [done|]. split_and!; [done..|]. constructor; [|constructor]. split_and!; simpl; [by eexists| |].
  - split_and!; [constructor|done|constructor|]. by rewrite decide_True.
  - exists []. split_and!; [constructor|by intros [|]|by intros _ [|]].
Qed.

Lemma plain_values_split_witness :
  wp (oph_check_input_response sample_reader no_evaluator 1 (Some sample_wf) 0 (Some (join_values ["a"; "b"; "c"]%string)))
    (λ r _, r = (OPH_SERVER_OK, Some [Some "a"; Some "b"; Some "c"]%string, 3)) [].
Proof.
  apply (plain_values_split sample_reader no_evaluator 1 sample_wf 0 ["a"; "b"; "c"]%string); [apply reliable_nil| |done| |lia].
  - split; [simpl; lia|]. intros [|[|h]] t Hh [= <-] Hin; [|done].
    by apply list_elem_of_singleton in Hin.
  - repeat (constructor; [split_and!; vm_compute; (done || lia)|]). constructor.
Defined.

Lemma expansion_before_value_ub_witness :
  oph_check_input_response sample_reader no_evaluator 1 (Some sample_wf) 1 (Some (join_values ["list.files.name(*)"; "c.nc"]%string)) [] = UB.
Proof.
  apply (expansion_before_value_ub sample_reader no_evaluator 1 sample_wf 1 "list.files.name(*)" "c.nc" "a.nc|b.nc"); [| |by vm_compute|done|lia].
  all: split_and!; vm_compute; (done || lia).
Defined.

Lemma list_doc_printable : JsonRound.printable sample_doc.
Proof. split; [apply sample_doc_ok| |done]. constructor; [done|constructor]. Qed.

Lemma printed_cell_extracted_witness :
  ∃ text, JsonText._oph_json_to_json_string (H := JsonRound.coded_jansson) (Some sample_doc) [] = Ok (OPH_JSON_SUCCESS, Some text) [] ∧
    wp (oph_extract_from_json (read_response_text (H := JsonRound.coded_jansson)) (Some (cell_reference "list" "files" "size" 1)) (Some text))
      (λ r _, r = (OPH_SERVER_OK, Some "20"%string)) [].
Proof.
  apply (printed_cell_extracted (H0 := JsonRound.coded_jansson_laws) sample_doc "list" "files" "size" "20" 0 0 1 1 [sample_grid] sample_grid
    [Some "b.nc"; Some "20"]%string); try done; [apply list_doc_printable|split_and!; done..|apply reliable_nil].
Defined.

Lemma title_behind_other_class_lost_witness :
  wp (oph_extract_from_json sample_reader (Some "files"%string) (Some "tree"%string)) (λ r _, r = (OPH_SERVER_ERROR, Some "files"%string)) [].
Proof.
  eapply (title_behind_other_class_lost sample_reader tree_doc "tree" "files" OPH_JSON_TREE); try done; [apply tree_doc_ok|].
  by intros [=]%list_elem_of_singleton.
Defined.
End Values.
