(* ===== verification/FlowControl.v ===== *)
(** * Flow control operators ([src/src/oph_flow_control_operators.c])

    The execution of the tasks that open and close blocks: [oph_if_impl], [oph_else_impl]
    and [oph_set_status_of_selection_block] select the branches of an if; [oph_for_impl]
    starts a loop, with its variable in the environment of the workflow and a frame on
    its stack, and [oph_endfor_impl] goes to the next value or leaves the loop.

    This is where the variables, the values, the index ranges, the hash table, the stack,
    the trash and the passes of the engine meet.  The reader of JSON texts and the
    evaluator of expressions are parameters, as in [Values]; the texts of the error
    messages are left out; the job that the database drops is a result. *)

From Stdlib Require Ascii.
From stdpp Require Import base gmap strings numbers relations pretty list.
From S2P Require Import Prelude CString HashTbl Trash WfStructs WfSetup WfDag WfFlow Auth WfVars WfEngine Subset JsonDoc Values.
Import (notations) Stdlib.Strings.Ascii.
Import HashTbl WfStructs.

Module FlowControl.

#[local] Open Scope Z_scope.

Definition OPH_SERVER_OK : Z := 0.
Definition OPH_SERVER_ERROR : Z := 3.
Definition OPH_SERVER_SYSTEM_ERROR : Z := 6.
Definition OPH_SERVER_NO_RESPONSE : Z := 8.
Definition OPH_MAX_STRING_SIZE : nat := 4096.
Definition OPH_ODB_STATUS_UNSELECTED : Z := 26.
Definition OPH_ARG_KEY : string := "key".
Definition OPH_ARG_VALUES : string := "values".
Definition OPH_OPERATOR_PARAMETER_COUNTER : string := "counter".
Definition OPH_OPERATOR_PARAMETER_PARALLEL : string := "parallel".
Definition OPH_OPERATOR_PARAMETER_CONDITION : string := "condition".
Definition OPH_OPERATOR_PARAMETER_FORWARD : string := "forward".
Definition OPH_COMMON_NULL : string := "-".
Definition OPH_COMMON_YES : string := "yes".
Definition OPH_COMMON_NO : string := "no".
Definition OPH_WORKFLOW_COUNTER_SIZE : string := "size".

(** [!strncasecmp(o, op, OPH_MAX_STRING_SIZE)] *)
Definition op_is (o : cstr) (op : string) : C bool := s ← deref o; mret (strncasecmp0 s op OPH_MAX_STRING_SIZE).

(** ** Selection blocks *)

(** [tasks[p].dependents_indexes[nk] = v] *)
Definition write_dependent (wf : oph_workflow) (p nk v : Z) : C oph_workflow :=
  t ← deref (task_at wf p);
  _ ← deref (WfSetup.cell (dependents_indexes t) nk);
  mret (update_task p (set_dependents_indexes (WfSetup.set_cell (dependents_indexes t) nk v) t) wf).

(** The dependencies of [i] on [from] become dependencies on [to]. *)
Definition relink (from to : Z) (ds : list oph_workflow_dep) : list oph_workflow_dep :=
  (λ d, if task_index d =? from then set_task_index to d else d) <$> ds.

Definition depends_on (from : Z) (ds : list oph_workflow_dep) : bool := existsb (λ d, task_index d =? from) ds.

(** [relink], and one residual dependency less if there was one. *)
Definition relink_and_count (wf : oph_workflow) (i from to : Z) : C oph_workflow :=
  t ← deref (task_at wf i);
  mret (update_task i
    (set_residual_deps_num (if depends_on from (deps t) then residual_deps_num t - 1 else residual_deps_num t)
      (set_deps (relink from to (deps t)) t)) wf).

(** A dependent whose parent is the task that opened the block. *)
Definition closing_dependent (wf : oph_workflow) (task_index i par nk skip : Z) (exit_output : option Z) :
    C (oph_workflow * option Z) :=
  t ← deref (task_at wf i);
  e ← op_is (operator t) WfFlow.OPH_OPERATOR_ENDIF;
  if negb e then mret (update_task i (set_is_skipped skip t) wf, exit_output)
  else if 1 <? branch_num t then
    wf ← write_dependent wf par nk par;
    wf ← relink_and_count wf i task_index i;
    mret (wf, exit_output)
  else
    wf ← write_dependent wf par nk i;
    t ← deref (task_at wf i);
    let wf := update_task i (set_deps (relink task_index par (deps t)) t) wf in
    match exit_output with
    | None => mret (wf, None)
    | Some x =>
        p ← deref (task_at wf par);
        b ← op_is (operator p) WfFlow.OPH_OPERATOR_IF;
        mret (wf, Some (if b && (forward p =? 0) then 0 else x))
    end.

(** An endif of the block around it: the dependency is dropped. *)
Definition outer_endif (wf : oph_workflow) (task_index i par gparent nk : Z) : C oph_workflow :=
  wf ← write_dependent wf par nk i;
  wf ← write_dependent wf gparent nk i;
  relink_and_count wf i task_index gparent.

(** A task of the block gets the status; [None]: no residual task is left. *)
Definition unselect (wf : oph_workflow) (i st : Z) : C (option oph_workflow) :=
  t ← deref (task_at wf i);
  if (status t <? OPH_ODB_STATUS_COMPLETED) && (residual_tasks_num wf =? 0) then mret None
  else
    let n := if status t <? OPH_ODB_STATUS_COMPLETED then residual_tasks_num wf - 1 else residual_tasks_num wf in
    mret (Some (update_task i (set_status st t) (set_residual_tasks_num n wf))).

(** The dependents of [task_index], read again in every round, down to the tasks that
    close the block of [par]; [nk] is set in the first round. *)
Fixpoint oph_set_status_of_selection_block (fuel : nat) (wf : oph_workflow) (task_index st par nk skip : Z)
    (exit_output : option Z) : C (Z * oph_workflow * option Z) :=
  match fuel with
  | O => out_of_fuel
  | S fuel' =>
      t ← deref (task_at wf task_index);
      r ← loopC (λ '(wf, nk, exit_output) k,
        let nk := if nk <? 0 then Z.of_nat k else nk in
        t ← deref (task_at wf task_index);
        i ← deref (dependents_indexes t !! k);
        ti ← deref (task_at wf i);
        if parent ti =? par then
          '(wf, exit_output) ← closing_dependent wf task_index i par nk skip exit_output;
          mret (Next (wf, nk, exit_output))
        else
          gparent ← WfFlow.oph_gparent_of (tasks wf) (tasks_num wf) par;
          e ← op_is (operator ti) WfFlow.OPH_OPERATOR_ENDIF;
          if e && (parent ti =? gparent) then
            wf ← outer_endif wf task_index i par gparent nk;
            mret (Next (wf, nk, exit_output))
          else
            o ← unselect wf i st;
            match o with
            | None => mret (Break (OPH_WORKFLOW_EXIT_BAD_PARAM_ERROR, wf, exit_output))
            | Some wf =>
                '(res, wf, exit_output) ← oph_set_status_of_selection_block fuel' wf i st par nk skip exit_output;
                mret (if res =? 0 then Next (wf, nk, exit_output) else Break (res, wf, exit_output))
            end)
        (wf, nk, exit_output) (seq 0 (length (dependents_indexes t)));
      mret (match r with Next (wf, _, x) => (OPH_SERVER_OK, wf, x) | Break r => r end)
  end.

Section externals.
(** [oph_json_from_json_string_unsafe], libmatheval, and the value of a variable of
    [oph_workflow_var_substitute] that is not initialised. *)
Context (read_json : string → option JsonDoc.oph_json) (evaluator : string → option (nat * Values.double)) (index0 : Z).

(** A substitution, and whether [*error] is set: a failure copies its message. *)
Definition substituted (fuel : nat) (wf : oph_workflow) (i : nat) (v skip_arg : cstr) : C (Z * cstr * bool) :=
  '(rc, s) ← WfVars.oph_workflow_var_substitute fuel index0 (Some wf) i (-1) v skip_arg;
  error ← (if rc =? 0 then mret false else malloc);
  mret (rc, s, error).

(** ** oph_if *)

(** One argument: the state is the workflow and the condition; [Break] leaves the loop, with
    an error message or, after a failed allocation, without one. *)
Definition if_argument (fuel i : nat) (st : oph_workflow * cstr) (a : argument) :
    C (ctl (oph_workflow * cstr) (oph_workflow * cstr * bool)) :=
  let '(wf, condition) := st in
  key ← deref (arg_key a);
  if strcasecmp0 key OPH_OPERATOR_PARAMETER_CONDITION then
    v ← strdup (arg_value a);
    match v with
    | None => mret (Break (wf, condition, false))
    | Some _ =>
        '(rc, s, error) ← substituted fuel wf i v (Some OPH_OPERATOR_PARAMETER_CONDITION);
        mret (if rc =? 0 then Next (wf, s) else Break (wf, condition, error))
    end
  else if strcasecmp0 key OPH_OPERATOR_PARAMETER_FORWARD then
    v ← strdup (arg_value a);
    '(rc, s, error) ← substituted fuel wf i v (Some OPH_OPERATOR_PARAMETER_FORWARD);
    if negb (rc =? 0) then mret (Break (wf, condition, error))
    else
      s ← deref s;
      if strcasecmp0 s OPH_COMMON_YES then
        t ← deref (tasks wf !! i);
        mret (Next (update_task (Z.of_nat i) (set_forward 1 t) wf, condition))
      else if strcasecmp0 s OPH_COMMON_NO then mret (Next (wf, condition))
      else error ← malloc; mret (Break (wf, condition, error))
  else mret (Next (wf, condition)).

(** The value of the condition: without a text it holds; [None]: an error. *)
Definition condition_holds (condition : cstr) : option bool :=
  match condition with
  | None | Some EmptyString => Some true
  | Some s =>
      match evaluator s with
      | Some (O, d) => if Values.finite d then Some (negb (Values.is_zero d)) else None
      | _ => None
      end
  end.

(** The first part, for a task that is not skipped yet. *)
Definition check_condition (fuel i : nat) (wf : oph_workflow) : C (bool * oph_workflow) :=
  t ← deref (tasks wf !! i);
  r ← loopC (if_argument fuel i) (wf, None) (arguments t);
  let '(wf, condition, error) := match r with Next (wf, c) => (wf, c, false) | Break x => x end in
  if error : bool then mret (false, wf)
  else
    match condition_holds condition with
    | None => mret (false, wf)
    | Some true => mret (true, wf)
    | Some false => t ← deref (tasks wf !! i); mret (true, update_task (Z.of_nat i) (set_is_skipped 1 t) wf)
    end.

(** The other branches of an if whose condition holds. *)
Definition skip_other_branches (wf : oph_workflow) (i : nat) : C oph_workflow :=
  foldC (λ wf j,
    t ← deref (tasks wf !! j);
    if parent t =? Z.of_nat i then
      e ← op_is (operator t) WfFlow.OPH_OPERATOR_ENDIF;
      mret (if e : bool then wf else update_task (Z.of_nat j) (set_is_skipped 1 t) wf)
    else mret wf) wf (seq 0 (tasks_num wf)).

(** Result, workflow and [*exit_output]; an error of the selection only leaves a
    message. *)
Definition oph_if_impl (fuel : nat) (wf : oph_workflow) (i : nat) (exit_output : option Z) : C (Z * oph_workflow * option Z) :=
  t ← deref (tasks wf !! i);
  let check := is_skipped t =? 0 in
  '(ok, wf) ← (if check then check_condition fuel i wf else mret (true, wf));
  if negb ok then mret (OPH_SERVER_ERROR, wf, exit_output)
  else
    t ← deref (tasks wf !! i);
    if negb (is_skipped t =? 0) then
      '(_, wf, exit_output) ← oph_set_status_of_selection_block fuel wf (Z.of_nat i) OPH_ODB_STATUS_UNSELECTED (Z.of_nat i) (-1)
                                (if check then 0 else 1) exit_output;
      t ← deref (tasks wf !! i);
      mret (OPH_SERVER_OK, if check then update_task (Z.of_nat i) (set_is_skipped 0 t) wf else wf, exit_output)
    else wf ← skip_other_branches wf i; mret (OPH_SERVER_OK, wf, exit_output).

Definition oph_else_impl (fuel : nat) (wf : oph_workflow) (i : nat) (exit_output : option Z) : C (Z * oph_workflow * option Z) :=
  t ← deref (tasks wf !! i);
  if negb (is_skipped t =? 0) then
    '(_, wf, exit_output) ← oph_set_status_of_selection_block fuel wf (Z.of_nat i) OPH_ODB_STATUS_UNSELECTED (Z.of_nat i) (-1) 0 exit_output;
    mret (OPH_SERVER_OK, wf, exit_output)
  else mret (OPH_SERVER_OK, wf, exit_output).

(** ** oph_for *)

(** What the first loop over the arguments collects. *)
Record for_args : Type := ForArgs {
  fa_name : cstr;
  fa_svalues : option (list cstr);
  fa_svalues_num : Z;
  fa_mode : bool;
}.

Definition not_null_word (s : string) : bool := negb (bool_decide (s = EmptyString)) && negb (strcasecmp0 s OPH_COMMON_NULL).

(** One argument; [Break]: an error. *)
Definition for_argument (fuel : nat) (wf : oph_workflow) (i : nat) (st : for_args) (a : argument) : C (ctl for_args ()) :=
  v ← strdup (arg_value a);
  match v with
  | None => mret (Break ())
  | Some _ =>
      '(rc, s, _) ← substituted fuel wf i v (arg_key a);
      if negb (rc =? 0) then mret (Break ())
      else
        s ← deref s;
        key ← deref (arg_key a);
        if JsonDoc.is_null (fa_name st) && strcasecmp0 key OPH_ARG_KEY then
          mret (Next (ForArgs (arg_value a) (fa_svalues st) (fa_svalues_num st) (fa_mode st)))
        else if JsonDoc.is_null (fa_svalues st) && strcasecmp0 key OPH_ARG_VALUES && not_null_word s then
          '(rc, svalues, num) ← Values.oph_check_input_response read_json evaluator fuel (Some wf) (Z.of_nat i) (Some s);
          mret (if rc =? 0 then Next (ForArgs (fa_name st) svalues num (fa_mode st)) else Break ())
        else if negb (fa_mode st) && strcasecmp0 key OPH_OPERATOR_PARAMETER_PARALLEL then
          mret (if strcasecmp0 s OPH_COMMON_YES then Next (ForArgs (fa_name st) (fa_svalues st) (fa_svalues_num st) true)
                else if strcasecmp0 s OPH_COMMON_NO then Next st else Break ())
        else mret (Next st)
  end.

(** The do-while over the indexes of a range: the array from the front, and how many cells are left. *)
Fixpoint fill_range (left : nat) (value stride end_ : Z) : list Z :=
  match left with
  | O => []
  | S left' =>
      let value' := wrap_i64 (value + stride) in
      wrap_i32 value :: (if value' <=? end_ then fill_range left' value' stride end_ else [])
  end.

(** [ivalues]: the cells the loop does not reach stay uninitialised. *)
Fixpoint fill_ivalues (s : Subset.oph_subset) (left : nat) (ks : list nat) : C (list Z) :=
  match ks with
  | [] => mret []
  | k :: ks' =>
      if (left =? 0)%nat then mret []
      else
        a ← Subset.value (Subset.start s) k;
        d ← Subset.value (Subset.stride s) k;
        e ← Subset.value (Subset.end_ s) k;
        let l := fill_range left a d e in
        rest ← fill_ivalues s (left - length l) ks';
        mret (l ++ rest)
  end.

(** The argument [counter]: [ivalues] and [ivalues_num]. *)
Definition counter_values (s : string) (svalues_num : Z) : C (option (list Z * Z)) :=
  rc ← Subset.oph_subset_init true;
  if negb (rc =? 0) then mret None
  else
    '(rc, sub) ← Subset.oph_subset_parse (Some s) (String.length s)
                   (Some (Subset.mk_oph_subset None None None None None 0 0)) svalues_num;
    sub ← deref sub;
    if negb (rc =? 0) then
      (* without a clause the arrays are released before they are set *)
      assertC (negb (Subset.number sub =? 0));; mret None
    else
      let num := wrap_i32 (Subset.total sub) in
      (* a negative size is more than there is *)
      ok ← (if num <? 0 then mret false else malloc);
      if negb ok then mret None
      else l ← fill_ivalues sub (Z.to_nat num) (seq 0 (Z.to_nat (Subset.number sub))); mret (Some (l, num)).

(** The second loop over the arguments, whose substitutions may fail; the state is [ivalues]
    with [ivalues_num] and whether a message is set. *)
Definition counter_argument (fuel : nat) (wf : oph_workflow) (i : nat) (svalues_num : Z) (st : option (list Z * Z) * bool)
    (a : argument) : C (ctl (option (list Z * Z) * bool) ()) :=
  let '(ivalues, error) := st in
  v ← strdup (arg_value a);
  match v with
  | None => mret (Break ())
  | Some _ =>
      '(_, s, e) ← substituted fuel wf i v (arg_key a);
      s ← deref s;
      key ← deref (arg_key a);
      if JsonDoc.is_null ivalues && strcasecmp0 key OPH_OPERATOR_PARAMETER_COUNTER && not_null_word s then
        r ← counter_values s svalues_num;
        mret (match r with Some iv => Next (Some iv, error || e) | None => Break () end)
      else mret (Next (ivalues, error || e))
  end.

(** A name with a separator is refused; any other character only leaves a message. *)
Fixpoint name_refused (first : bool) (s : string) : bool :=
  match s with
  | EmptyString => false
  | String c s' =>
      let n := Ascii.nat_of_ascii c in
      if (n =? 95)%nat || ((65 <=? n) && (n <=? 90))%nat || ((97 <=? n) && (n <=? 122))%nat || (negb first && is_digit c)
      then name_refused false s'
      else has_char c WfVars.OPH_WORKFLOW_SEPARATORS
  end.

(** A variable copied into a buffer and inserted; the buffer may be missing. *)
Definition store_var (wf : oph_workflow) (k : string) (v : oph_workflow_var) : C (bool * oph_workflow) :=
  ok ← malloc;
  if negb ok then mret (false, wf)
  else
    tbl ← deref (wf_vars wf);
    '(rc, tbl) ← hashtbl_insert_with_size tbl k v (WfVars.sizeof_var + (String.length (svalue v) + 1));
    mret (rc =? 0, set_wf_vars (Some tbl) wf).

(** The value number [k] of a loop: the text, copied or printed, and the index. *)
Definition loop_value (svalues : option (list cstr)) (ivalues : option (list Z)) (k : nat) : C (option (string * Z)) :=
  iv ← (match ivalues with Some l => deref (l !! k) | None => mret (Z.of_nat k + 1) end);
  sv ← (match svalues with
        | Some l => s ← deref (l !! k); strdup s
        | None => ok ← malloc; mret (if ok : bool then Some (print_int iv) else None)
        end);
  mret ((λ s, (s, iv)) <$> sv).

(** The number of rounds, once for each name. *)
Definition store_loop_size (wf : oph_workflow) (name : string) (num : Z) : C (bool * oph_workflow) :=
  let k := name +:+ "_" +:+ OPH_WORKFLOW_COUNTER_SIZE in
  tbl ← deref (wf_vars wf);
  v ← hashtbl_get tbl k;
  match v with
  | Some _ => mret (true, wf)
  | None => ok ← malloc; if negb ok then mret (false, wf) else store_var wf k (Var (-1) (print_int num) 1)
  end.

(** The variables of the loop and its frame. *)
Definition start_loop (wf : oph_workflow) (i : nat) (name : string) (svalues : option (list cstr)) (ivalues : option (list Z))
    (num : Z) : C (Z * oph_workflow) :=
  '(ok, wf) ← store_loop_size wf name num;
  if negb ok then mret (OPH_SERVER_ERROR, wf)
  else
    v ← loop_value svalues ivalues 0;
    match v with
    | None => mret (OPH_SERVER_ERROR, wf)
    | Some (s, iv) =>
        '(ok, wf) ← store_var wf name (Var (Z.of_nat i) s iv);
        if negb ok then mret (OPH_SERVER_ERROR, wf)
        else
          '(rc, wf') ← oph_workflow_push (Some wf) (Z.of_nat i) (Some name) svalues ivalues num;
          wf' ← deref wf';
          mret (if rc =? 0 then OPH_SERVER_OK else OPH_SERVER_SYSTEM_ERROR, wf')
    end.

(** The part behind the arguments; a name that cannot be copied is used as it is. *)
Definition run_for (fuel : nat) (wf : oph_workflow) (i : nat) (fa : for_args) (iv : option (list Z * Z)) : C (Z * oph_workflow) :=
  match fa_name fa with
  | None => mret (OPH_SERVER_ERROR, wf)
  | Some nm =>
      v ← strdup (Some nm);
      name ← (match v with
              | None => mret (Some nm)
              | Some _ => '(_, s, _) ← substituted fuel wf i v (Some OPH_ARG_KEY); mret s
              end);
      name ← deref name;
      if name_refused true name then mret (OPH_SERVER_ERROR, wf)
      else
        let ivalues_num := from_option snd 0 iv in
        if fa_mode fa then mret (OPH_SERVER_OK, wf)
        else if negb (fa_svalues_num fa =? 0) && negb (ivalues_num =? 0) && negb (ivalues_num =? fa_svalues_num fa)
        then mret (OPH_SERVER_ERROR, wf)
        else
          let num := if fa_svalues_num fa =? 0 then (if ivalues_num =? 0 then 1 else ivalues_num) else fa_svalues_num fa in
          if 0 <? num then start_loop wf i name (fa_svalues fa) (fst <$> iv) num
          else mret (OPH_SERVER_OK, wf)
  end.

Definition oph_for_impl (fuel : nat) (wf : oph_workflow) (i : nat) : C (Z * oph_workflow) :=
  t ← deref (tasks wf !! i);
  r ← loopC (for_argument fuel wf i) (ForArgs None None 0 false) (arguments t);
  match r with
  | Break _ => mret (OPH_SERVER_ERROR, wf)
  | Next fa =>
      r ← loopC (counter_argument fuel wf i (fa_svalues_num fa)) (None, false) (arguments t);
      match r with
      | Break _ | Next (_, true) => mret (OPH_SERVER_ERROR, wf)
      | Next (iv, false) => run_for fuel wf i fa iv
      end
  end.

(** ** oph_endfor *)

(** What the call leaves: the workflow, the trash, [*task_id] with [*odb_jobid], and the
    job dropped from the database. *)
Record endfor_result : Type := EndFor {
  ef_wf : oph_workflow;
  ef_trash : option Trash.oph_trash;
  ef_restart : option (Z * Z);
  ef_removed : option Z;
}.

Definition set_stk_index (v : Z) (f : oph_workflow_stack) : oph_workflow_stack :=
  Stack (stk_caller f) v (stk_tasks f) (stk_name f) (svalues f) (ivalues f) (values_num f).

(** The environment at the next value. *)
Definition next_value (wf : oph_workflow) (f : oph_workflow_stack) : C (bool * oph_workflow) :=
  v ← loop_value (svalues f) (ivalues f) (Z.to_nat (stk_index f));
  match v with
  | None => mret (false, wf)
  | Some (s, iv) => nm ← deref (stk_name f); store_var wf nm (Var (stk_caller f) s iv)
  end.

(** The body is reset and the loop starts again from its first task. *)
Definition restart_loop (fuel : nat) (wf : oph_workflow) (i : nat) (f : oph_workflow_stack) (trash : option Trash.oph_trash) :
    C endfor_result :=
  t ← deref (tasks wf !! i);
  let p := parent t in
  tp ← deref (task_at wf p);
  '(_, trash) ← Trash.oph_trash_append trash (sessionid wf) (markerid t);
  '(rc, wf, n) ← WfEngine.oph_workflow_reset_task fuel wf (dependents_indexes tp) (Z.of_nat i) f 0;
  let wf := if rc =? 0 then set_residual_tasks_num (residual_tasks_num wf + n) wf else wf in
  tp' ← deref (task_at wf p);
  '(_, wf) ← WfEngine.oph_workflow_disable_deps fuel wf (dependents_indexes tp') p (Z.of_nat i);
  tp'' ← deref (task_at wf p);
  mret (EndFor (update_task p (set_outputs [] tp'') wf) trash (Some (p, idjob tp)) (Some (idjob t))).

(** [with_job]: [odb_jobid] is not null. *)
Definition oph_endfor_impl (fuel : nat) (wf : oph_workflow) (i : nat) (trash : option Trash.oph_trash) (with_job : bool) :
    C (Z * endfor_result) :=
  t ← deref (tasks wf !! i);
  match list_find (λ f, stk_caller f = parent t) (stack wf) with
  | None => mret (OPH_SERVER_OK, EndFor wf trash None None)
  | Some (k, f) =>
      let f := set_stk_index (stk_index f + 1) f in
      let wf := set_stack (<[k := f]> (stack wf)) wf in
      tbl ← deref (wf_vars wf);
      nm ← deref (stk_name f);
      '(rc, tbl) ← hashtbl_remove tbl nm;
      let wf := set_wf_vars (Some tbl) wf in
      if negb (rc =? 0) then mret (OPH_SERVER_SYSTEM_ERROR, EndFor wf trash None None)
      else
        '(ok, wf) ← (if stk_index f <? values_num f then next_value wf f
                     else t ← deref (tasks wf !! i); mret (true, update_task (Z.of_nat i) (set_parallel_mode 1 t) wf));
        if negb ok then mret (OPH_SERVER_SYSTEM_ERROR, EndFor wf trash None None)
        else if (stk_index f <? values_num f) && with_job then
          r ← restart_loop fuel wf i f trash; mret (OPH_SERVER_NO_RESPONSE, r)
        else
          '(rc, wf') ← oph_workflow_pop (Some wf) (match k with O => None | S k' => Some k' end);
          wf' ← deref wf';
          mret (if rc =? 0 then OPH_SERVER_OK else OPH_SERVER_SYSTEM_ERROR, EndFor wf' trash None None)
  end.
(** ** The rounds of a loop *)

(** The graph of the body, now and as saved in the frame: in range and without cycles, by
    a rank below the fuel. *)
Record body_ok (rank : nat → nat) (fuel : nat) (f : oph_workflow_stack) (wf : oph_workflow) : Prop := {
  bo_frame : WfEngine.frame_ok wf f;
  bo_graph : ∀ i t, (i < tasks_num wf)%nat → tasks wf !! i = Some t →
    WfEngine.ranked rank fuel (tasks_num wf) i (dependents_indexes t) ∧
    Forall (λ d, task_index d < Z.of_nat (tasks_num wf)) (deps t);
  bo_saved : ∀ i st, (i < tasks_num wf)%nat → stk_tasks f !! i = Some st →
    WfEngine.ranked rank fuel (tasks_num wf) i (stt_dependents_indexes st) ∧
    Forall (λ k, k < Z.of_nat (tasks_num wf)) (stt_deps_task_index st);
  bo_rank : ∀ i, (i < tasks_num wf)%nat → (S (rank i) < fuel)%nat;
  bo_fuel : (tasks_num wf < fuel)%nat;
}.

(** A task with the same links, or the ones saved for it. *)
Definition relinked (f : oph_workflow_stack) (i : nat) (t t' : oph_workflow_task) : Prop :=
  (deps t' = deps t ∧ dependents_indexes t' = dependents_indexes t) ∨
  (∃ st, stk_tasks f !! i = Some st ∧ WfEngine.saved_for t st ∧
     deps t' = WfEngine.restore_deps (deps t) (stt_deps_task_index st) ∧ dependents_indexes t' = stt_dependents_indexes st).

Lemma restore_deps_index ds ks : length ks = length ds → task_index <$> WfEngine.restore_deps ds ks = ks.
Proof.
  unfold WfEngine.restore_deps. revert ks. induction ds as [|d ds IH]; intros [|k ks] Hlen; try done. simpl in *. by rewrite IH by lia.
Qed.

Lemma body_ok_relinked rank fuel f f' wf wf' :
  body_ok rank fuel f wf → stk_tasks f' = stk_tasks f → tasks_num wf' = tasks_num wf → length (tasks wf') = length (tasks wf) →
  (∀ i t', tasks wf' !! i = Some t' → ∃ t, tasks wf !! i = Some t ∧ relinked f i t t') →
  body_ok rank fuel f' wf'.
Proof.
  intros [[Hl Hs Ho] Hg Hsv Hr Hf] Hf' Hn Hlen Ht. split; rewrite ?Hn, ?Hf'; try done.
  - split; rewrite ?Hn, ?Hf', ?Hlen; try done. intros i t' Hi Ht'. destruct (Ht i t' Ht') as (t & Hit & Hrel).
    destruct (Hs i t Hi Hit) as (st & Hst & Ha & Hd & Hx). exists st. split; [done|]. split; [done|].
    destruct Hrel as [[-> ->]|(st' & Hst' & (_ & Hd' & Hx') & -> & ->)]; [done|]. rewrite Hst in Hst'. injection Hst' as <-.
    split; [|done]. unfold WfEngine.restore_deps. rewrite length_zip_with. lia.
  - intros i t' Hi Ht'. destruct (Ht i t' Ht') as (t & Hit & Hrel).
    destruct Hrel as [[-> ->]|(st' & Hst' & (_ & Hd' & Hx') & -> & ->)]; [by apply Hg|]. destruct (Hsv i st' Hi Hst') as [H1 H2].
    split; [done|]. rewrite Forall_forall in H2. apply Forall_forall. intros d Hd. apply H2. rewrite <-(restore_deps_index (deps t) _ Hd').
    by apply list_elem_of_fmap_2.
Qed.

Lemma task_at_nat wf i : task_at wf (Z.of_nat i) = tasks wf !! i.
Proof. unfold task_at. by rewrite (proj2 (Z.ltb_ge _ _)), Nat2Z.id by lia. Qed.

Lemma update_task_nat wf i t : update_task (Z.of_nat i) t wf = set_tasks (<[i := t]> (tasks wf)) wf.
Proof. unfold update_task. by rewrite (proj2 (Z.ltb_ge _ _)), Nat2Z.id by lia. Qed.

(** What a restart keeps: everything but the tasks and the number of residual ones. *)
Definition kept (wf wf' : oph_workflow) : Prop :=
  tasks_num wf' = tasks_num wf ∧ stack wf' = stack wf ∧ wf_vars wf' = wf_vars wf ∧ sessionid wf' = sessionid wf.

Lemma live_small wf : (base.size (WfEngine.live wf) ≤ tasks_num wf)%nat.
Proof.
  unfold WfEngine.live. etrans; [apply subseteq_size|by rewrite <-(size_set_seq (C := gset nat) 0 (tasks_num wf))].
  intros i [_ Hi]%elem_of_filter. done.
Qed.

Lemma restored_relinked f wf i t (Y : gset nat) :
  WfEngine.frame_ok wf f → (i < tasks_num wf)%nat ∨ i ∉ Y → tasks wf !! i = Some t →
  relinked f i t (if decide (i ∈ Y) then WfEngine.restore_at f i t else t).
Proof.
  intros Hfr Hi Ht. destruct (decide (i ∈ Y)) as [HY|]; [|by left]. destruct Hi as [Hi|]; [|done].
  destruct (WfEngine.fr_saved wf f Hfr i t Hi Ht) as (st & Hst & Hsv). right. exists st. unfold WfEngine.restore_at. rewrite Hst.
  split_and!; [done..|]. cbn. rewrite <-(proj2 (proj2 Hsv)). by rewrite take_ge by lia.
Qed.

(** The tasks of the reset body and of the recount. *)
Lemma body_ok_reset rank fuel f wf (Y : gset nat) :
  body_ok rank fuel f wf → Y ⊆ WfEngine.live wf → body_ok rank fuel f (WfEngine.after_reset wf f Y).
Proof.
  intros Hok HY. eapply body_ok_relinked; [exact Hok|done..| |].
  - change (tasks (WfEngine.after_reset wf f Y)) with (WfEngine.paint (WfEngine.restore_at f) Y (tasks wf)).
    unfold WfEngine.paint. by rewrite length_imap.
  - intros i t' Ht'. change (tasks (WfEngine.after_reset wf f Y)) with (WfEngine.paint (WfEngine.restore_at f) Y (tasks wf)) in Ht'.
    rewrite WfEngine.paint_lookup in Ht'. destruct (tasks wf !! i) as [t|] eqn:Ht; [|done]. simpl in Ht'. injection Ht' as <-.
    exists t. split; [done|]. apply (restored_relinked f wf); [apply Hok| |done].
    destruct (decide (i ∈ Y)) as [Hi|]; [left|by right]. apply HY, WfEngine.elem_of_live in Hi. apply Hi.
Qed.

Lemma body_ok_same_links rank fuel f f' wf wf' :
  body_ok rank fuel f wf → stk_tasks f' = stk_tasks f → tasks_num wf' = tasks_num wf → length (tasks wf') = length (tasks wf) →
  (∀ i t', tasks wf' !! i = Some t' → ∃ t, tasks wf !! i = Some t ∧ deps t' = deps t ∧ dependents_indexes t' = dependents_indexes t) →
  body_ok rank fuel f' wf'.
Proof.
  intros Hok Hf Hn Hl Ht. eapply body_ok_relinked; [done..|]. intros i t' Ht'. destruct (Ht i t' Ht') as (t & H1 & H2). exists t.
  split; [done|by left].
Qed.

Lemma body_ok_recount rank fuel f wf g : body_ok rank fuel f wf → body_ok rank fuel f (WfEngine.recount g wf).
Proof.
  intros Hok. eapply body_ok_same_links; [exact Hok|done..| |].
  - change (tasks (WfEngine.recount g wf)) with (imap (λ i t, set_residual_deps_num (g i) t) (tasks wf)). by rewrite length_imap.
  - intros i t' Ht'. rewrite WfEngine.recount_lookup in Ht'. destruct (tasks wf !! i) as [t|]; [|done]. simpl in Ht'. injection Ht' as <-. by exists t.
Qed.

Lemma body_ok_update rank fuel f wf i t t' :
  body_ok rank fuel f wf → tasks wf !! i = Some t → deps t' = deps t → dependents_indexes t' = dependents_indexes t →
  body_ok rank fuel f (update_task (Z.of_nat i) t' wf).
Proof.
  intros Hok Ht Hd Ho. rewrite update_task_nat. eapply body_ok_same_links; [exact Hok|done..| |].
  - change (length (<[i := t']> (tasks wf)) = length (tasks wf)). apply length_insert.
  - intros j t'' Hj. change (<[i := t']> (tasks wf) !! j = Some t'') in Hj. apply list_lookup_insert_Some in Hj as [(<- & <- & _)|[_ Hj]].
    + by exists t.
    + by exists t''.
Qed.

Lemma ranked_range rank B n i ds : WfEngine.ranked rank B n i ds → Forall (λ z, 0 ≤ z < Z.of_nat n) ds.
Proof. intros Hr. eapply Forall_impl; [exact Hr|]. intros z (j & -> & Hj & _). lia. Qed.

Lemma wp_disable rank fuel f wf p tp first last m (Q : Z * oph_workflow → mem → Prop) :
  body_ok rank fuel f wf → (p < tasks_num wf)%nat → tasks wf !! p = Some tp →
  (∀ g, Q (OPH_WORKFLOW_EXIT_SUCCESS, WfEngine.recount g wf) m) →
  wp (WfEngine.oph_workflow_disable_deps fuel wf (dependents_indexes tp) first last) Q m.
Proof.
  intros Hok Hp Htp HQ. destruct (WfEngine.recount_id wf) as [g Hg]. rewrite Hg at 1. eapply wp_mono.
  - apply (WfEngine.wp_disable_walk rank (fuel - 1) wf first last); [apply Hok| | |pose proof (bo_fuel _ _ _ _ Hok); lia|].
    + intros i t Hi Ht. apply (bo_graph _ _ _ _ Hok i t Hi Ht).
    + intros i Hi. pose proof (bo_rank _ _ _ _ Hok i Hi). lia.
    + destruct (bo_graph _ _ _ _ Hok p tp Hp Htp) as [Hr _]. eapply Forall_impl; [exact Hr|]. intros z (j & -> & Hj & Hlt). exists j. split_and!; [done..|lia].
  - intros r m' [-> (g' & ->)]. apply HQ.
Qed.

Lemma after_reset_parent f wf (Y : gset nat) i t :
  tasks wf !! i = Some t → ∃ t', tasks (WfEngine.after_reset wf f Y) !! i = Some t' ∧ parent t' = parent t.
Proof.
  intros Ht. rewrite (WfEngine.after_reset_lookup wf f Y i t Ht). eexists. split; [done|]. destruct (decide (i ∈ Y)); [|done].
  unfold WfEngine.restore_at. by destruct (stk_tasks f !! i).
Qed.

Lemma update_parent wf p tp' i t :
  tasks wf !! i = Some t → tasks wf !! p = Some tp' →
  ∃ t', tasks (update_task (Z.of_nat p) (set_outputs [] tp') wf) !! i = Some t' ∧ parent t' = parent t.
Proof.
  intros Ht Hp. rewrite update_task_nat. change (tasks (set_tasks ?x wf)) with x. destruct (decide (i = p)) as [->|].
  - rewrite Ht in Hp. injection Hp as <-. rewrite list_lookup_insert_eq by (by eapply lookup_lt_Some). by eexists.
  - rewrite list_lookup_insert_ne by done. by exists t.
Qed.

Lemma restart_spec rank fuel f wf i p t trash sid m :
  body_ok rank fuel f wf → tasks wf !! i = Some t → parent t = Z.of_nat p → (p < tasks_num wf)%nat → sessionid wf = Some sid →
  Trash.keyed_trash trash → reliable m →
  wp (restart_loop fuel wf i f (Some trash)) (λ r m', reliable m' ∧ kept wf (ef_wf r) ∧ body_ok rank fuel f (ef_wf r) ∧
    (∃ t', tasks (ef_wf r) !! i = Some t' ∧ parent t' = Z.of_nat p) ∧
    (∃ trash', ef_trash r = Some trash' ∧ Trash.keyed_trash trash') ∧ ∃ tp, ef_restart r = Some (Z.of_nat p, idjob tp)) m.
Proof.
  intros Hok Ht Hpar Hp Hsid Htr Hm. unfold restart_loop. apply wp_bind, (wp_deref _ _ _ _ Ht). rewrite Hpar, Hsid, task_at_nat.
  destruct (lookup_lt_is_Some_2 (tasks wf) p) as [tp Htp]; [pose proof (WfEngine.fr_length _ _ (bo_frame _ _ _ _ Hok)); lia|].
  apply wp_bind, (wp_deref _ _ _ _ Htp), wp_bind, Trash.wp_append_keyed; [done..|]. intros trash' m1 Htr' Hm1.
  apply wp_bind, WfEngine.wp_reset_body; [apply Hok| | |done|].
  { pose proof (live_small wf). pose proof (bo_fuel _ _ _ _ Hok). lia. }
  { eapply ranked_range, (bo_graph _ _ _ _ Hok p tp Hp Htp). }
  intros Y m2 HY Hm2. cbv beta iota zeta. rewrite Z.eqb_refl. set (wf1 := set_residual_tasks_num _ _).
  assert (body_ok rank fuel f wf1) as Hok1.
  { assert (Y ⊆ WfEngine.live wf) as HYl by (apply WfEngine.se_live in HY; clear -HY; set_solver).
    apply (body_ok_same_links rank fuel f f _ wf1 (body_ok_reset _ _ _ _ Y Hok HYl)); [done..|]. intros j t' Hj. by exists t'. }
  destruct (after_reset_parent f wf Y p tp Htp) as (tp1 & Htp1 & _). apply wp_bind. rewrite task_at_nat. apply (wp_deref _ _ _ tp1); [exact Htp1|].
  apply wp_bind, (wp_disable rank fuel f _ p); [done..|]. intros g. cbv beta iota. rewrite task_at_nat, WfEngine.recount_lookup.
  change (tasks wf1) with (tasks (WfEngine.after_reset wf f Y)). rewrite Htp1. apply wp_bind, wp_ret, wp_ret.
  assert (tasks (WfEngine.recount g wf1) !! p = Some (set_residual_deps_num (g p) tp1)) as Htp2.
  { rewrite WfEngine.recount_lookup. change (tasks wf1) with (tasks (WfEngine.after_reset wf f Y)). by rewrite Htp1. }
  split_and!; [done| | | |by exists trash'|by exists tp].
  - cbn [ef_wf]. by rewrite update_task_nat.
  - apply (body_ok_update _ _ _ _ p _ _ (body_ok_recount _ _ _ _ g Hok1) Htp2); done.
  - cbn [ef_wf]. destruct (after_reset_parent f wf Y i t Ht) as (t1 & Ht1 & Hp1).
    destruct (update_parent (WfEngine.recount g wf1) p (set_residual_deps_num (g p) tp1) i (set_residual_deps_num (g i) t1)) as (t2 & Ht2 & Hp2).
    + rewrite WfEngine.recount_lookup. change (tasks wf1) with (tasks (WfEngine.after_reset wf f Y)). by rewrite Ht1.
    + done.
    + exists t2. split; [done|]. rewrite Hp2. cbn [parent set_residual_deps_num]. congruence.
Qed.
(** The environment of a workflow as a map. *)
Definition env (wf : oph_workflow) : gmap string oph_workflow_var := from_option abs ∅ (wf_vars wf).
Definition env_ok (wf : oph_workflow) : Prop := ∃ tbl, wf_vars wf = Some tbl ∧ hash_wf tbl.

Lemma wp_store_var wf k v (Q : bool * oph_workflow → mem → Prop) m :
  env_ok wf → env wf !! k = None → reliable m →
  (∀ tbl m', hash_wf tbl → abs tbl = <[k := v]> (env wf) → reliable m' → Q (true, set_wf_vars (Some tbl) wf) m') →
  wp (store_var wf k v) Q m.
Proof.
  intros (tbl & Htbl & Hwf) Hk Hm HQ. unfold store_var, env in *. rewrite Htbl in *. simpl in Hk, HQ. wp_steps.
  eapply wp_mono; [by apply insert_spec|]. intros [rc t] m1 (Hm1 & Hwf1 & _ & _ & Hins). rewrite Hk in Hins. simpl in *.
  destruct Hins as (-> & _ & Habs). wp_step. by apply HQ.
Qed.

(** Value number [k] of a loop: its text and its index. *)
Definition value_at (sv : option (list cstr)) (iv : option (list Z)) (k : nat) : option (string * Z) :=
  x ← (match iv with Some l => l !! k | None => Some (Z.of_nat k + 1) end);
  s ← (match sv with Some l => mjoin (l !! k) | None => Some (print_int x) end);
  Some (s, x).

Lemma wp_loop_value sv iv k v (Q : option (string * Z) → mem → Prop) m :
  value_at sv iv k = Some v → reliable m → (∀ m', reliable m' → Q (Some v) m') → wp (loop_value sv iv k) Q m.
Proof.
  unfold value_at, loop_value. intros Hv Hm HQ. apply bind_Some in Hv as (x & Hx & (s & Hs & [= <-])%bind_Some).
  wp_step. apply (wp_mono _ (λ r m', r = x ∧ m' = m)).
  { destruct iv as [l|]; [by eapply wp_deref|]. injection Hx as <-. by wp_step. }
  intros ? ? [-> ->]. wp_step. apply (wp_mono _ (λ r m', r = Some s ∧ reliable m')).
  - destruct sv as [l|]; [|injection Hs as <-; by wp_steps]. destruct (l !! k) as [o|]; [|done]. simpl in Hs. subst o. wp_steps.
    apply wp_strdup; [done|]. by intros m' Hm'.
  - intros ? m' [-> Hm']. wp_step. by apply HQ.
Qed.

Lemma wp_pop_at wf d f (Q : Z * option oph_workflow → mem → Prop) m :
  stack wf !! d = Some f → Q (OPH_WORKFLOW_EXIT_SUCCESS, Some (set_stack (delete d (stack wf)) wf)) m →
  wp (oph_workflow_pop (Some wf) (match d with O => None | S d' => Some d' end)) Q m.
Proof.
  intros Hd HQ. unfold oph_workflow_pop. destruct d as [|d].
  - wp_step. by destruct (stack wf).
  - wp_step. destruct (lookup_lt_is_Some_2 (stack wf) d) as [g Hg]; [apply lookup_lt_Some in Hd; lia|].
    apply (wp_deref _ _ _ g Hg). by wp_step.
Qed.

Section loop.
Context (rank : nat → nat) (fuel i p d : nat) (saved : list oph_workflow_stack_task) (nm : string)
  (sv : option (list cstr)) (iv : option (list Z)) (num : nat) (others : list oph_workflow_stack).

Definition loop_frame (k : nat) : oph_workflow_stack := Stack (Z.of_nat p) (Z.of_nat k) saved (Some nm) sv iv (Z.of_nat num).

(** Round [k] of the loop that task [p] opened and task [i] closes: its frame is the
    topmost one of [p], at depth [d], and its variable is set. *)
Record in_loop (k : nat) (wf : oph_workflow) : Prop := {
  il_body : body_ok rank fuel (loop_frame k) wf;
  il_task : ∃ t, tasks wf !! i = Some t ∧ parent t = Z.of_nat p;
  il_parent : (p < tasks_num wf)%nat;
  il_frame : list_find (λ f, stk_caller f = Z.of_nat p) (stack wf) = Some (d, loop_frame k);
  il_others : delete d (stack wf) = others;
  il_env : env_ok wf;
  il_var : is_Some (env wf !! nm);
  il_session : is_Some (sessionid wf);
}.

Lemma next_frame_find (st : list oph_workflow_stack) k :
  list_find (λ f, stk_caller f = Z.of_nat p) st = Some (d, loop_frame k) →
  list_find (λ f, stk_caller f = Z.of_nat p) (<[d := loop_frame (S k)]> st) = Some (d, loop_frame (S k)).
Proof.
  intros (Hd & Hc & Hbefore)%list_find_Some. apply list_find_Some. split_and!.
  - apply list_lookup_insert_eq. by eapply lookup_lt_Some.
  - done.
  - intros j f Hj Hlt. rewrite list_lookup_insert_ne in Hj by lia. by eapply Hbefore.
Qed.

Lemma delete_insert_same {A} (l : list A) k x : delete k (<[k := x]> l) = delete k l.
Proof. revert k. induction l as [|a l IH]; intros [|k]; try done. simpl. f_equal. apply IH. Qed.

Lemma next_frame k : set_stk_index (stk_index (loop_frame k) + 1) (loop_frame k) = loop_frame (S k).
Proof. unfold set_stk_index, loop_frame. simpl. f_equal. lia. Qed.

(** The workflow with the frame at the next value and without the variable. *)
Definition advanced (k : nat) (tbl : HASHTBL oph_workflow_var) (wf : oph_workflow) : oph_workflow :=
  set_wf_vars (Some tbl) (set_stack (<[d := loop_frame (S k)]> (stack wf)) wf).

Lemma body_ok_advanced k tbl wf : in_loop k wf → body_ok rank fuel (loop_frame (S k)) (advanced k tbl wf).
Proof.
  intros Hin. apply (body_ok_same_links rank fuel (loop_frame k) _ wf); [apply Hin|done..|]. intros j t Hj. by exists t.
Qed.

(** The first part of [oph_endfor_impl]. *)
Lemma endfor_advance k wf trash (Q : Z * endfor_result → mem → Prop) m :
  in_loop k wf →
  (∀ tbl, hash_wf tbl → abs tbl = delete nm (env wf) → ∀ t, tasks wf !! i = Some t →
    wp ('(ok, wf) ← (if Z.of_nat (S k) <? Z.of_nat num then next_value (advanced k tbl wf) (loop_frame (S k))
                     else t ← deref (tasks wf !! i); mret (true, update_task (Z.of_nat i) (set_parallel_mode 1 t) (advanced k tbl wf)));
        if negb ok then mret (OPH_SERVER_SYSTEM_ERROR, EndFor wf trash None None)
        else if (Z.of_nat (S k) <? Z.of_nat num) && true then
          r ← restart_loop fuel wf i (loop_frame (S k)) trash; mret (OPH_SERVER_NO_RESPONSE, r)
        else
          '(rc, wf') ← oph_workflow_pop (Some wf) (match d with O => None | S d' => Some d' end);
          wf' ← deref wf';
          mret (if rc =? 0 then OPH_SERVER_OK else OPH_SERVER_SYSTEM_ERROR, EndFor wf' trash None None)) Q m) →
  wp (oph_endfor_impl fuel wf i trash true) Q m.
Proof.
  intros [Hb (t & Ht & Hpar) Hp Hf Ho (tbl & Htbl & Hwf) [v Hv] Hs] HQ. unfold oph_endfor_impl.
  apply wp_bind, (wp_deref _ _ _ _ Ht). rewrite Hpar, Hf, next_frame. cbv zeta. apply wp_bind.
  change (wf_vars (set_stack _ wf)) with (wf_vars wf). apply (wp_deref _ _ _ _ Htbl). apply wp_bind, (wp_deref _ _ _ nm); [done|]. apply wp_bind.
  unfold env in Hv. rewrite Htbl in Hv. simpl in Hv.
  eapply wp_mono; [by apply remove_spec|]. intros [rc tbl'] m1 (-> & Hwf' & _ & _ & Hrem). rewrite Hv in Hrem. simpl in *.
  destruct Hrem as (-> & _ & Habs). simpl negb. cbv iota. refine (HQ tbl' Hwf' _ t Ht). unfold env. by rewrite Htbl.
Qed.

(** The values and the trash that the rounds need. *)
Definition trash_ok (trash : option Trash.oph_trash) : Prop := ∃ t, trash = Some t ∧ Trash.keyed_trash t.

Lemma endfor_next k wf trash s x m :
  in_loop k wf → (S k < num)%nat → value_at sv iv (S k) = Some (s, x) → trash_ok trash → reliable m →
  wp (oph_endfor_impl fuel wf i trash true) (λ r m', reliable m' ∧ r.1 = OPH_SERVER_NO_RESPONSE ∧
    in_loop (S k) (ef_wf r.2) ∧ trash_ok (ef_trash r.2) ∧ env (ef_wf r.2) = <[nm := Var (Z.of_nat p) s x]> (env wf)) m.
Proof.
  intros Hin Hk Hv (tr & -> & Htr) Hm. apply (endfor_advance k); [done|]. intros tbl Hwf Habs t Ht. rewrite (proj2 (Z.ltb_lt _ _)) by lia.
  apply wp_bind. unfold next_value. apply wp_bind. cbn [svalues ivalues stk_index loop_frame stk_name stk_caller]. rewrite Nat2Z.id.
  apply (wp_loop_value _ _ _ _ _ _ Hv Hm). intros m1 Hm1. apply wp_bind, wp_ret, wp_store_var; [by exists tbl| |done|].
  { unfold env. cbn. rewrite Habs. apply lookup_delete_eq. }
  intros tbl2 m2 Hwf2 Habs2 Hm2. cbn [negb andb]. cbv beta iota. apply wp_bind.
  destruct (il_session k wf Hin) as [sid Hsid]. destruct (il_task k wf Hin) as (t' & Ht' & Hpar).
  eapply wp_mono; [apply (restart_spec rank fuel (loop_frame (S k)) _ i p t' tr sid)|]; try done.
  - apply (body_ok_same_links _ _ _ _ _ _ (body_ok_advanced k tbl wf Hin)); [done..|]. intros j t2 Hj. by exists t2.
  - apply Hin.
  - intros r m3 (Hm3 & (Hn & Hst & Hvars & Hss) & Hb & Htk & (tr' & Htr' & Hk') & _). apply wp_ret. cbn [fst snd].
    assert (env (ef_wf r) = <[nm := Var (Z.of_nat p) s x]> (env wf)) as Henv.
    { unfold env at 1. rewrite Hvars. cbn. rewrite Habs2. unfold env at 1. cbn. rewrite Habs. apply insert_delete_eq. }
    split_and!; [done|done| |by exists tr'|done]. split; [done|done| | | | | |].
    + rewrite Hn. apply Hin.
    + rewrite Hst. apply next_frame_find, Hin.
    + rewrite Hst. cbn. rewrite delete_insert_same. apply Hin.
    + unfold env_ok. rewrite Hvars. by exists tbl2.
    + rewrite Henv. rewrite lookup_insert_eq. by eexists.
    + rewrite Hss. cbn. by exists sid.
Qed.

Lemma endfor_last k wf trash m :
  in_loop k wf → S k = num → reliable m →
  wp (oph_endfor_impl fuel wf i trash true) (λ r m', reliable m' ∧ r.1 = OPH_SERVER_OK ∧
    stack (ef_wf r.2) = others ∧ env (ef_wf r.2) = delete nm (env wf) ∧ ef_restart r.2 = None) m.
Proof.
  intros Hin Hk Hm. apply (endfor_advance k); [done|]. intros tbl Hwf Habs t Ht. rewrite (proj2 (Z.ltb_ge _ _)) by lia.
  apply wp_bind, wp_bind, (wp_deref _ _ _ _ Ht), wp_ret. cbn [negb andb]. apply wp_bind. rewrite update_task_nat.
  apply (wp_pop_at _ d (loop_frame (S k))).
  { cbn. destruct (proj1 (list_find_Some _ _ _ _) (il_frame k wf Hin)) as (Hd & _). apply list_lookup_insert_eq. by eapply lookup_lt_Some. }
  apply wp_bind, wp_ret, wp_ret. cbn. rewrite delete_insert_same. by split_and!; [..|apply Hin| |].
Qed.

(** The rounds: a body runs, as a step on the workflow, and then the end of the loop; the
    trace has what the body finds in the variable and the result of the end. *)
Fixpoint run_loop (wf : oph_workflow) (trash : option Trash.oph_trash) (bodies : list (oph_workflow → oph_workflow)) :
    C (list (option oph_workflow_var * Z) * oph_workflow) :=
  match bodies with
  | [] => mret ([], wf)
  | b :: bodies' =>
      '(rc, r) ← oph_endfor_impl fuel (b wf) i trash true;
      '(l, wf') ← run_loop (ef_wf r) (ef_trash r) bodies';
      mret ((env (b wf) !! nm, rc) :: l, wf')
  end.

(** A body that keeps the loop and its variable. *)
Definition keeps_loop (b : oph_workflow → oph_workflow) : Prop :=
  ∀ k wf, in_loop k wf → in_loop k (b wf) ∧ env (b wf) !! nm = env wf !! nm.

(** A body that works on its tasks keeps the loop: it may submit them, complete them, discharge dependencies and pass
    outputs, as long as the number of their dependencies, their dependents and the parents, the stack, the variables and the session stay. *)
Lemma working_body (b : oph_workflow → oph_workflow) :
  (∀ wf, kept wf (b wf) ∧ length (tasks (b wf)) = length (tasks wf) ∧
     ∀ j t', tasks (b wf) !! j = Some t' → ∃ t, tasks wf !! j = Some t ∧ parent t' = parent t ∧ dependents_indexes t' = dependents_indexes t ∧
       length (deps t') = length (deps t) ∧ Forall (λ d, task_index d = -1 ∨ ∃ d0, d0 ∈ deps t ∧ task_index d = task_index d0) (deps t')) → keeps_loop b.
Proof.
  intros Hb k wf [[[Hl Hs Ho] Hg Hsv Hr Hf] (t & Ht & Hpar) Hp Hfr Hot (tbl & Htbl & Hwf) Hv Hse]. destruct (Hb wf) as ((Kn & Ks & Kv & Kse) & Klen & Kt).
  assert (env (b wf) = env wf) as Ke by (unfold env; by rewrite Kv). split; [|by rewrite Ke]. split; rewrite ?Kn, ?Ks, ?Ke, ?Kse; try done; [| |by exists tbl; rewrite Kv].
  - split; rewrite ?Kn; try done.
    + split; rewrite ?Kn, ?Klen; try done. intros j t' Hj Ht'. destruct (Kt j t' Ht') as (t1 & Ht1 & _ & Ed & El & _). destruct (Hs j t1 Hj Ht1) as (st & Hst & H1 & H2 & H3).
      exists st. split; [done|]. split; [done|]. by rewrite El, Ed.
    + intros j t' Hj Ht'. destruct (Kt j t' Ht') as (t1 & Ht1 & _ & Ed & _ & Hds). destruct (Hg j t1 Hj Ht1) as [H1 H2]. rewrite Ed. split; [done|].
      eapply Forall_impl; [exact Hds|]. intros dp [-> |(d0 & Hd0 & ->)]; [lia|]. rewrite Forall_forall in H2. by apply H2.
  - destruct (lookup_lt_is_Some_2 (tasks (b wf)) i) as [t' Ht']; [rewrite Klen; by eapply lookup_lt_Some|]. exists t'. split; [done|].
    destruct (Kt i t' Ht') as (t1 & Ht1 & -> & _). rewrite Ht in Ht1. by injection Ht1 as <-.
Qed.

(** What round [k] of [n] sees and returns. *)
Definition round (n k : nat) (v : string * Z) : option oph_workflow_var * Z :=
  (Some (Var (Z.of_nat p) v.1 v.2), if (S k =? n)%nat then OPH_SERVER_OK else OPH_SERVER_NO_RESPONSE).

Lemma run_loop_from vals : ∀ bodies k wf trash m,
  (k + length vals = num)%nat → vals ≠ [] → length bodies = length vals → Forall keeps_loop bodies →
  (∀ j v, vals !! j = Some v → value_at sv iv (k + j) = Some v) →
  in_loop k wf → env wf !! nm = ((λ v, Var (Z.of_nat p) v.1 v.2) <$> head vals) → trash_ok trash → reliable m →
  wp (run_loop wf trash bodies) (λ r _, r.1 = imap (λ j, round num (k + j)) vals ∧ stack r.2 = others ∧ env r.2 !! nm = None) m.
Proof.
  induction vals as [|v vals IH]; intros bodies k wf trash m Hnum Hne Hlen Hb Hv Hin Henv Htr Hm; [done|].
  destruct bodies as [|b bodies]; [done|]. apply Forall_cons in Hb as [Hb Hbs]. destruct (Hb k wf Hin) as [Hin' Hkeep]. rewrite Henv in Hkeep.
  simpl in Hnum, Hlen. cbn [run_loop]. apply wp_bind. destruct vals as [|v' vals].
  - eapply wp_mono; [apply (endfor_last k (b wf)); [done|simpl in Hnum; lia|done]|].
    intros [rc r] m1 (Hm1 & Hrc & Hst & He & _). cbn [fst snd] in Hrc, Hst, He. subst rc. destruct bodies; [|done]. apply wp_bind, wp_ret, wp_ret. cbn. rewrite Hkeep, Hst, He, lookup_delete_eq.
    split_and!; [|done..]. unfold round. rewrite Nat.add_0_r. by rewrite (proj2 (Nat.eqb_eq _ _)) by (simpl in Hnum; lia).
  - destruct v' as [s x]. pose proof (Hv 1%nat (s, x) eq_refl) as Hv1. rewrite Nat.add_1_r in Hv1.
    eapply wp_mono; [apply (endfor_next k (b wf) trash s x); [done|simpl in Hnum; lia|done..]|].
    intros [rc r] m1 (Hm1 & Hrc & Hin1 & Htr1 & He). cbn [fst snd] in Hrc, Hin1, Htr1, He. subst rc. cbv beta iota. apply wp_bind.
    eapply wp_mono; [apply (IH bodies (S k)); [simpl in *; lia|done|simpl in *; lia|done| |done|rewrite He; by rewrite lookup_insert_eq|done|done]|].
    + intros j v'' Hj. specialize (Hv (S j) v'' Hj). by rewrite Nat.add_succ_r in Hv.
    + intros [l wf'] m2 (Hl & Hst & Hn). cbn [fst snd] in Hl, Hst, Hn. subst l. apply wp_ret. cbn [fst snd]. split_and!; [|done..]. rewrite (imap_cons _ v). f_equal.
      * rewrite Hkeep. unfold round. rewrite Nat.add_0_r. by rewrite (proj2 (Nat.eqb_neq _ _)) by (simpl in Hnum; lia).
      * apply imap_ext. intros j w _. unfold compose. by rewrite Nat.add_succ_r.
Qed.

Lemma run_loop_all (vals : list (string * Z)) (bodies : list (oph_workflow → oph_workflow)) (wf : oph_workflow)
    (trash : option Trash.oph_trash) (v : string * Z) (m : mem) :
  length vals = num → vals !! 0%nat = Some v → length bodies = num → Forall keeps_loop bodies →
  (∀ k v, vals !! k = Some v → value_at sv iv k = Some v) →
  in_loop 0 wf → env wf !! nm = Some (Var (Z.of_nat p) v.1 v.2) → trash_ok trash → reliable m →
  wp (run_loop wf trash bodies) (λ r _, r.1 = imap (round num) vals ∧ stack r.2 = others ∧ env r.2 !! nm = None) m.
Proof.
  intros Hnum Hv Hb Hbs Hvals Hin Henv Htr Hm. destruct vals as [|v0 vals]; [done|]. injection Hv as ->.
  eapply wp_mono; [apply (run_loop_from (v :: vals) bodies 0); try done; lia|]. by intros r m'.
Qed.
End loop.
(** ** The start of a loop *)

Lemma wp_substituted_literal fuel wf i s skip (Q : Z * cstr * bool → mem → Prop) m :
  (0 < fuel)%nat → WfVars.literal s = true → Q (0, Some s, false) m → wp (substituted fuel wf i (Some s) skip) Q m.
Proof.
  intros Hf Hs HQ. destruct fuel as [|fuel]; [lia|]. unfold substituted, WfVars.oph_workflow_var_substitute. cbn [WfVars.substitute].
  apply wp_bind, wp_bind, wp_bind. unfold wp at 1. rewrite WfVars.next_prefix_none by done. exact HQ.
Qed.

(** A name that can be used in strings: no prefix and no separator. *)
Definition name_ok (nm : string) : Prop := WfVars.literal nm = true ∧ name_refused true nm = false.

Definition size_name (nm : string) : string := nm +:+ "_" +:+ OPH_WORKFLOW_COUNTER_SIZE.

Lemma size_name_ne nm : size_name nm ≠ nm.
Proof. intros Heq%(f_equal String.length). unfold size_name in Heq. rewrite !length_app_str in Heq. simpl in Heq. lia. Qed.

(** The environment of a loop that starts: its variable and the number of rounds. *)
Definition loop_env (c : Z) (nm v : string) (n : nat) (e : gmap string oph_workflow_var) : gmap string oph_workflow_var :=
  <[nm := Var c v 1]> (<[size_name nm := default (Var (-1) (print_int (Z.of_nat n)) 1) (e !! size_name nm)]> e).

Lemma wp_store_loop_size wf nm n (Q : bool * oph_workflow → mem → Prop) m :
  env_ok wf → reliable m →
  (∀ tbl m', hash_wf tbl → abs tbl = <[size_name nm := default (Var (-1) (print_int n) 1) (env wf !! size_name nm)]> (env wf) → reliable m' →
     Q (true, set_wf_vars (Some tbl) wf) m') →
  wp (store_loop_size wf nm n) Q m.
Proof.
  intros (tbl & Htbl & Hwf) Hm HQ. unfold store_loop_size. fold (size_name nm). apply wp_bind, (wp_deref _ _ _ _ Htbl), wp_bind.
  eapply wp_mono; [by apply get_spec|]. intros o m1 [-> ->]. assert (abs tbl = env wf) as Henv by (unfold env; by rewrite Htbl). rewrite Henv.
  destruct (env wf !! size_name nm) as [v|] eqn:Hv.
  - wp_step. assert (wf = set_wf_vars (Some tbl) wf) as -> by (rewrite <-Htbl; by destruct wf). apply HQ; [done| |done]. simpl. by rewrite insert_id.
  - wp_step. wp_step. simpl negb. cbv iota. apply wp_store_var; [by exists tbl|done|done|]. intros tbl' m2 H1 H2 H3. by apply HQ.
Qed.

Lemma start_loop_spec wf i nm w ws m :
  env_ok wf → env wf !! nm = None → tasks_ok wf → reliable m →
  wp (start_loop wf i nm (Some (Some <$> w :: ws)) None (Z.of_nat (length (w :: ws)))) (λ r m', reliable m' ∧ r.1 = OPH_SERVER_OK ∧
    ∃ tbl, hash_wf tbl ∧ abs tbl = loop_env (Z.of_nat i) nm w (length (w :: ws)) (env wf) ∧
      r.2 = pushed (set_wf_vars (Some tbl) wf) (Z.of_nat i) nm (Some (Some <$> w :: ws)) None (Z.of_nat (length (w :: ws)))) m.
Proof.
  intros Hok Hnm Htk Hm. unfold start_loop. apply wp_bind, wp_store_loop_size; [done..|]. intros tbl1 m1 Hwf1 Habs1 Hm1. simpl negb. cbv beta iota.
  apply wp_bind, (wp_loop_value _ _ _ (w, 1)); [done..|]. intros m2 Hm2. cbv beta iota.
  apply wp_bind, wp_store_var; [by exists tbl1| |done|].
  { unfold env. cbn. rewrite Habs1, lookup_insert_ne; [done|]. apply size_name_ne. }
  intros tbl2 m3 Hwf2 Habs2 Hm3. simpl negb. cbv beta iota. apply wp_bind. eapply wp_mono; [apply push_spec; [exact Htk|simpl; lia|done]|].
  intros r m4 [Hm4 ->]. apply wp_bind, wp_ret, wp_ret. split_and!; [done..|]. exists tbl2. split_and!; [done| |done].
  rewrite Habs2. unfold env at 1. cbn. by rewrite Habs1.
Qed.

(** An argument of a for over the values [js] with the variable [nm]: neither a counter nor a parallel loop; other
    arguments, such as the folders that every task has, have texts without variables. *)
Definition for_argument_ok (nm js : string) (a : argument) : Prop :=
  ∃ k v, arg_key a = Some k ∧ arg_value a = Some v ∧ WfVars.literal v = true ∧
    (strcasecmp0 k OPH_ARG_KEY = true → v = nm) ∧ (strcasecmp0 k OPH_ARG_VALUES = true → v = js) ∧
    strcasecmp0 k OPH_OPERATOR_PARAMETER_PARALLEL = false ∧ strcasecmp0 k OPH_OPERATOR_PARAMETER_COUNTER = false.

Definition has_key (key : string) (a : argument) : bool := from_option (λ k, strcasecmp0 k key) false (arg_key a).

(** The arguments of a for: the name of its variable and its values among them. *)
Definition for_arguments (nm js : string) (args : list argument) : Prop :=
  Forall (for_argument_ok nm js) args ∧ existsb (has_key OPH_ARG_KEY) args = true ∧ existsb (has_key OPH_ARG_VALUES) args = true.

Section for_start.
Context (fuel : nat) (wf : oph_workflow) (i : nat) (nm w : string) (ws : list string).
Notation js := (Values.join_values (w :: ws)).
Context (Hplain : Forall Values.plain (w :: ws)) (Hnull : strcasecmp0 js OPH_COMMON_NULL = false)
  (Hresp : Values.no_responses wf (Z.of_nat i)) (Hf : (0 < fuel)%nat).

(** What was read of the name and the values. *)
Definition for_read (named valued : bool) : for_args :=
  ForArgs (if named then Some nm else None) (if valued then Some (Some <$> w :: ws) else None) (if valued then Z.of_nat (length (w :: ws)) else 0) false.

Lemma wp_for_argument a named valued (Q : ctl for_args () → mem → Prop) m :
  for_argument_ok nm js a → reliable m →
  (∀ m', reliable m' → Q (Next (for_read (named || has_key OPH_ARG_KEY a) (valued || has_key OPH_ARG_VALUES a))) m') →
  wp (for_argument fuel wf i (for_read named valued) a) Q m.
Proof.
  intros (k & v & Hk & Hv & Hl & Hn & Hj & Hp & _) Hm HQ. unfold for_argument, has_key in *. rewrite Hk, Hv in *. cbn [from_option] in HQ. apply wp_bind, wp_strdup; [done|]. intros m1 Hm1.
  apply wp_bind, wp_substituted_literal; [done..|]. cbn [Z.eqb negb]. do 2 apply wp_bind, wp_ret. cbn [for_read fa_name fa_svalues fa_svalues_num fa_mode]. rewrite Hp.
  assert (strcasecmp0 k OPH_ARG_KEY = true → strcasecmp0 k OPH_ARG_VALUES = false) as Hdiff.
  { unfold strcasecmp0. intros E%bool_decide_eq_true. apply bool_decide_eq_false. rewrite E. by vm_compute. }
  destruct (strcasecmp0 k OPH_ARG_KEY) eqn:Ek.
  - rewrite (Hdiff eq_refl) in *. rewrite orb_false_r in HQ. destruct named; cbn [JsonDoc.is_null andb orb]; [rewrite andb_false_r; by apply wp_ret, HQ|].
    rewrite (Hn eq_refl). by apply wp_ret, HQ.
  - rewrite andb_false_r, orb_false_r in *. destruct (strcasecmp0 k OPH_ARG_VALUES) eqn:Ej; [|rewrite andb_false_r, orb_false_r in *; by apply wp_ret, HQ].
    rewrite (Hj eq_refl) in *. destruct valued; cbn [JsonDoc.is_null andb orb] in *; [by apply wp_ret, HQ|].
    assert (not_null_word js = true) as -> by (unfold not_null_word; rewrite bool_decide_eq_false_2 by (by apply Values.join_nonempty); by rewrite Hnull).
    apply wp_bind, Values.wp_plain_values; [done..|]. intros m2 Hm2. apply wp_ret. by apply HQ.
Qed.

Lemma wp_for_arguments args m :
  Forall (for_argument_ok nm js) args → reliable m →
  ∀ named valued, wp (loopC (for_argument fuel wf i) (for_read named valued) args) (λ r m', reliable m' ∧
    r = Next (for_read (named || existsb (has_key OPH_ARG_KEY) args) (valued || existsb (has_key OPH_ARG_VALUES) args))) m.
Proof.
  intros Hall. revert m. induction Hall as [|a args Ha _ IH]; intros m Hm named valued; cbn [loopC existsb]; [apply wp_ret; by rewrite !orb_false_r|].
  apply wp_bind, wp_for_argument; [done..|]. intros m1 Hm1. eapply wp_mono; [by apply IH|]. intros r m2 [Hm2 ->]. split; [done|]. by rewrite !orb_assoc.
Qed.

Lemma wp_counter_arguments args n m :
  Forall (for_argument_ok nm js) args → reliable m →
  wp (loopC (counter_argument fuel wf i n) (None, false) args) (λ r m', reliable m' ∧ r = Next (None, false)) m.
Proof.
  intros Hall. revert m. induction Hall as [|a args (k & v & Hk & Hv & Hl & _ & _ & _ & Hc) _ IH]; intros m Hm; cbn [loopC]; [by apply wp_ret|].
  apply wp_bind. unfold counter_argument at 1. rewrite Hk, Hv. apply wp_bind, wp_strdup; [done|]. intros m1 Hm1.
  apply wp_bind, wp_substituted_literal; [done..|]. do 2 apply wp_bind, wp_ret. cbn [JsonDoc.is_null andb]. rewrite Hc. apply wp_ret. by apply IH.
Qed.
End for_start.

Lemma for_impl_spec (fuel : nat) (wf : oph_workflow) (i : nat) (t : oph_workflow_task) (nm w : string) (ws : list string) (m : mem) :
  tasks wf !! i = Some t → for_arguments nm (Values.join_values (w :: ws)) (arguments t) →
  name_ok nm → Forall Values.plain (w :: ws) → strcasecmp0 (Values.join_values (w :: ws)) OPH_COMMON_NULL = false →
  Values.no_responses wf (Z.of_nat i) → tasks_ok wf → env_ok wf → env wf !! nm = None → (0 < fuel)%nat → reliable m →
  wp (oph_for_impl fuel wf i) (λ r m', reliable m' ∧ r.1 = OPH_SERVER_OK ∧
    ∃ tbl, hash_wf tbl ∧ abs tbl = loop_env (Z.of_nat i) nm w (length (w :: ws)) (env wf) ∧
      r.2 = pushed (set_wf_vars (Some tbl) wf) (Z.of_nat i) nm (Some (Some <$> w :: ws)) None (Z.of_nat (length (w :: ws)))) m.
Proof.
  intros Ht (Hargs & Hkey & Hval) [Hlit Hname] Hplain Hnull Hresp Htk Henv Hnm Hf Hm.
  unfold oph_for_impl. apply wp_bind, (wp_deref _ _ _ _ Ht), wp_bind. change (ForArgs None None 0 false) with (for_read nm w ws false false).
  eapply wp_mono; [by apply wp_for_arguments|]. intros r m1 [Hm1 ->]. rewrite Hkey, Hval. cbn [orb]. apply wp_bind.
  eapply wp_mono; [by eapply wp_counter_arguments|]. intros r m2 [Hm2 ->]. cbv beta iota.
  unfold run_for. cbn [for_read fa_name fa_mode fa_svalues fa_svalues_num from_option fmap option_fmap option_map].
  apply wp_bind, wp_strdup; [done|]. intros m6 Hm6. apply wp_bind, wp_bind, wp_substituted_literal; [done..|]. apply wp_ret.
  apply wp_bind, wp_ret. rewrite Hname. cbv zeta. rewrite (proj2 (Z.eqb_neq (Z.of_nat (length (w :: ws))) 0)) by (simpl; lia).
  cbn [negb andb Z.eqb]. rewrite (proj2 (Z.ltb_lt _ _)) by (simpl; lia).
  eapply wp_mono; [by apply start_loop_spec|]. by intros r m7.
Qed.

(** a loop over a list of plain values, with a variable that is not set yet, starts:
    the variable has the first value and the index 1, the number of values is stored next to
    it unless there is one, and a frame with the values and the state of every task is on
    the stack; nothing else changes. *)
Theorem for_starts_loop (fuel : nat) (wf : oph_workflow) (i : nat) (t : oph_workflow_task) (nm w : string) (ws : list string) (m : mem) :
  tasks wf !! i = Some t → for_arguments nm (Values.join_values (w :: ws)) (arguments t) →
  name_ok nm → Forall Values.plain (w :: ws) → strcasecmp0 (Values.join_values (w :: ws)) OPH_COMMON_NULL = false →
  Values.no_responses wf (Z.of_nat i) → tasks_ok wf → env_ok wf → env wf !! nm = None → (0 < fuel)%nat → reliable m →
  wp (oph_for_impl fuel wf i) (λ r _, r.1 = OPH_SERVER_OK ∧
    ∃ tbl, hash_wf tbl ∧ abs tbl = loop_env (Z.of_nat i) nm w (length (w :: ws)) (env wf) ∧
      r.2 = pushed (set_wf_vars (Some tbl) wf) (Z.of_nat i) nm (Some (Some <$> w :: ws)) None (Z.of_nat (length (w :: ws)))) m.
Proof.
  intros Ht Hargs Hname Hplain Hnull Hresp Htk Henv Hnm Hf Hm. eapply wp_mono; [by eapply for_impl_spec|]. by intros r m' [_ Hr].
Qed.

(** ** A loop from its start to its end *)

(** The graph of a workflow: in range, without cycles, with less tasks than fuel. *)
Record graph_ok (rank : nat → nat) (fuel : nat) (wf : oph_workflow) : Prop := {
  go_graph : ∀ i t, (i < tasks_num wf)%nat → tasks wf !! i = Some t →
    WfEngine.ranked rank fuel (tasks_num wf) i (dependents_indexes t) ∧
    Forall (λ d, task_index d < Z.of_nat (tasks_num wf)) (deps t);
  go_rank : ∀ i, (i < tasks_num wf)%nat → (S (rank i) < fuel)%nat;
  go_fuel : (tasks_num wf < fuel)%nat;
}.

Lemma snapshot_lookup wf i st :
  (snapshot <$> take (tasks_num wf) (tasks wf)) !! i = Some st ↔ (i < tasks_num wf)%nat ∧ ∃ t, tasks wf !! i = Some t ∧ st = snapshot t.
Proof. rewrite list_lookup_fmap_Some. setoid_rewrite lookup_take_Some. naive_solver. Qed.

Lemma body_ok_pushed rank fuel wf c k nm sv iv n :
  tasks_ok wf → graph_ok rank fuel wf →
  body_ok rank fuel (Stack c k (snapshot <$> take (tasks_num wf) (tasks wf)) nm sv iv n) wf.
Proof.
  intros [Hlen Hkeys] [Hg Hr Hf]. split; [|done| |done|done].
  - split; [lia| |].
    + intros i t Hi Ht. exists (snapshot t). split; [apply snapshot_lookup; by eauto|]. split_and!; [|by simpl; rewrite length_fmap|done].
      exact (Forall_lookup_1 _ _ _ _ Hkeys Ht).
    + intros i st Hi (_ & t & Ht & ->)%snapshot_lookup. eapply ranked_range, (Hg i t Hi Ht).
  - intros i st Hi (_ & t & Ht & ->)%snapshot_lookup. destruct (Hg i t Hi Ht) as [H1 H2]. split; [done|].
    simpl. by rewrite Forall_fmap.
Qed.

(** The texts of a list of values and their indexes. *)
Definition numbered (ws : list string) : list (string * Z) := imap (λ k w, (w, Z.of_nat k + 1)) ws.

Lemma numbered_value ws k v : numbered ws !! k = Some v → value_at (Some (Some <$> ws)) None k = Some v.
Proof.
  unfold numbered, value_at. rewrite list_lookup_imap, list_lookup_fmap. destruct (ws !! k) as [w|]; [|done]. simpl. by intros [= <-].
Qed.

(** C21: A for over plain values without variables, in an acyclic workflow where the variable is not set yet, neither
    parallel nor with a counter, whose other arguments (such as the folders the loader adds) hold no variables and
    where no task it depends on has a response in which a value would be looked up, runs to its end: the start
    succeeds and, with any body in each round that keeps the frame of the loop, its variable, the links of the tasks
    and the session (the execution of the body itself is not modelled; a body that submits and completes tasks,
    discharges dependencies and passes outputs is shown to be one), every round terminates, round k sees value k and
    index k in the variable, the end of the loop asks for another round exactly after all rounds but the last, and
    afterwards the stack is the one before the loop and the variable is not set. *)
Theorem for_loop_runs_all_values (rank : nat → nat) (fuel : nat) (wf : oph_workflow) (p i : nat) (tp ti : oph_workflow_task)
    (nm w : string) (ws : list string) (bodies : list (oph_workflow → oph_workflow))
    (trash : option Trash.oph_trash) (m : mem) :
  tasks wf !! p = Some tp → (p < tasks_num wf)%nat → tasks wf !! i = Some ti → parent ti = Z.of_nat p →
  for_arguments nm (Values.join_values (w :: ws)) (arguments tp) →
  name_ok nm → Forall Values.plain (w :: ws) →
  strcasecmp0 (Values.join_values (w :: ws)) OPH_COMMON_NULL = false →
  Values.no_responses wf (Z.of_nat p) → tasks_ok wf → graph_ok rank fuel wf → env_ok wf → env wf !! nm = None → is_Some (sessionid wf) →
  length bodies = length (w :: ws) →
  Forall (keeps_loop rank fuel i p 0 (snapshot <$> take (tasks_num wf) (tasks wf)) nm (Some (Some <$> w :: ws)) None
    (length (w :: ws)) (stack wf)) bodies →
  trash_ok trash → reliable m →
  wp ('(rc, wf1) ← oph_for_impl fuel wf p; '(l, wf2) ← run_loop fuel i nm wf1 trash bodies; mret (rc, l, wf2))
    (λ r _, r.1.1 = OPH_SERVER_OK ∧ r.1.2 = imap (round p (length (w :: ws))) (numbered (w :: ws)) ∧
      stack r.2 = stack wf ∧ env r.2 !! nm = None) m.
Proof.
  intros Htp Hp Hti Hpar Hargs Hname Hplain Hnull Hresp Htk Hg Henv Hnm Hsid Hb Hbs Htr Hm.
  assert (0 < fuel)%nat as Hf by (pose proof (go_fuel _ _ _ Hg); lia).
  apply wp_bind. eapply wp_mono; [by eapply for_impl_spec|]. intros [rc wf1] m1 (Hm1 & Hrc & tbl & Hwf & Habs & Hwf1). cbn [fst snd] in *. subst rc wf1.
  apply wp_bind. eapply wp_mono.
  - apply (run_loop_all rank fuel i p 0 (snapshot <$> take (tasks_num wf) (tasks wf)) nm (Some (Some <$> w :: ws)) None (length (w :: ws)) (stack wf)
      (numbered (w :: ws)) bodies _ trash (w, 1)); [by unfold numbered; rewrite length_imap|done|done|done|apply numbered_value| | |done|done].
    + split; [|by exists ti|done|by cbn; rewrite decide_True|done|by exists tbl| |done].
      * apply (body_ok_same_links _ _ _ _ _ _ (body_ok_pushed rank fuel wf 0 0 None None None 0 Htk Hg)); [done..|]. intros j t Hj. by exists t.
      * unfold env. cbn. rewrite Habs. unfold loop_env. rewrite lookup_insert_eq. by eexists.
    + unfold env. cbn. rewrite Habs. unfold loop_env. by rewrite lookup_insert_eq.
  - intros [l wf2] m2 (Hl & Hst & He). cbn [fst snd] in *. apply wp_ret. cbn [fst snd]. done.
Qed.

(** ** Ranges without a clause *)

Lemma counter_values_ub s n :
  strtok Subset.OPH_SUBSET_LIB_SUBSET_SEPARATOR s = [] → (String.length s < Subset.OPH_SUBSET_LIB_MAX_STRING_LENGTH)%nat →
  counter_values s n [] = UB.
Proof.
  intros Hs Hlen. unfold counter_values. apply bind_ub. unfold Subset.oph_subset_init. apply wp_bind, wp_malloc_reliable; [apply reliable_nil|].
  intros m _. apply wp_ret. cbn [negb Z.eqb]. apply bind_ub. unfold Subset.oph_subset_parse.
  apply wp_bind, wp_ret, wp_bind, wp_assert; [by apply bool_decide_eq_true|]. rewrite take_str_ge, Hs by done. by apply wp_ret.
Qed.

(** a [counter] that is not empty but has no clause, such as a single comma, makes the
    start of a loop release arrays that were never allocated: the structure of the subset is
    not initialised and its parser returns before it sets the pointers. *)
Theorem counter_without_clause_ub (fuel : nat) (wf : oph_workflow) (i : nat) (t : oph_workflow_task) (s : string)
    (l : oph_workflow_ordered_list) :
  tasks wf !! i = Some t → arguments t = [Arg (Some OPH_OPERATOR_PARAMETER_COUNTER) (Some s) l] →
  WfVars.literal s = true → not_null_word s = true → strtok Subset.OPH_SUBSET_LIB_SUBSET_SEPARATOR s = [] →
  (String.length s < Subset.OPH_SUBSET_LIB_MAX_STRING_LENGTH)%nat → (0 < fuel)%nat →
  oph_for_impl fuel wf i [] = UB.
Proof.
  intros Ht Hargs Hlit Hnn Hs Hlen Hf. unfold oph_for_impl. apply bind_ub, (wp_deref _ _ _ _ Ht). rewrite Hargs. cbn [loopC].
  apply bind_ub, wp_bind. unfold for_argument. apply wp_bind, JsonDoc.wp_strdup_steady; [done|]. intros m ->.
  apply wp_bind, wp_substituted_literal; [done..|]. cbn [Z.eqb negb]. do 2 apply wp_bind, wp_ret. cbn [JsonDoc.is_null fa_name fa_svalues fa_mode andb negb].
  change (strcasecmp0 OPH_OPERATOR_PARAMETER_COUNTER OPH_ARG_KEY) with false. change (strcasecmp0 OPH_OPERATOR_PARAMETER_COUNTER OPH_ARG_VALUES) with false.
  change (strcasecmp0 OPH_OPERATOR_PARAMETER_COUNTER OPH_OPERATOR_PARAMETER_PARALLEL) with false. cbn [andb]. do 2 apply wp_ret. cbv beta iota.
  cbn [fa_svalues_num]. assert (counter_argument fuel wf i 0 (None, false) (Arg (Some OPH_OPERATOR_PARAMETER_COUNTER) (Some s) l) [] = UB) as Hub.
  { unfold counter_argument. apply bind_ub, JsonDoc.wp_strdup_steady; [done|]. intros m ->. apply bind_ub, wp_substituted_literal; [done..|].
    do 2 apply bind_ub, wp_ret. cbn [JsonDoc.is_null andb]. rewrite Hnn.
    change (strcasecmp0 OPH_OPERATOR_PARAMETER_COUNTER OPH_OPERATOR_PARAMETER_COUNTER) with true. cbn [andb].
    unfold mbind, C_bind. by rewrite counter_values_ub. }
  unfold mbind, C_bind. by rewrite Hub.
Qed.
End externals.

(** ** The tasks of a branch that is not selected *)

Section selection.
Context (rank : nat → nat) (B : nat) (wf0 : oph_workflow) (par : nat) (gp st : Z).

Definition is_endif (t : oph_workflow_task) : bool :=
  from_option (λ o, strncasecmp0 o WfFlow.OPH_OPERATOR_ENDIF OPH_MAX_STRING_SIZE) false (operator t).

(** A task inside the branch: it neither closes the branch nor the whole block. *)
Definition interior (t : oph_workflow_task) : bool :=
  negb (parent t =? Z.of_nat par) && negb (is_endif t && (parent t =? gp)).

Definition sel_step (j k : nat) : Prop :=
  ∃ t u, tasks wf0 !! j = Some t ∧ tasks wf0 !! k = Some u ∧ Z.of_nat k ∈ dependents_indexes t ∧ interior u = true.

Definition unfinished (X : gset nat) : gset nat :=
  filter (λ j, from_option (λ t, status t <? OPH_ODB_STATUS_COMPLETED) false (tasks wf0 !! j) = true) X.

(** The tasks whose array of dependents may be written, in its first cell. *)
Definition owner (j : nat) : Prop := j = par ∨ Z.of_nat j = gp.

(** Task [j] was [t] and is [t']: only its links and flags changed, and its status if it is in [X]. *)
Record sel_task (X : gset nat) (j : nat) (t t' : oph_workflow_task) : Prop := {
  sl_parent : parent t' = parent t;
  sl_operator : operator t' = operator t;
  sl_status : status t' = if decide (j ∈ X) then st else status t;
  sl_outs : ¬ owner j → dependents_indexes t' = dependents_indexes t;
  sl_owner : length (dependents_indexes t') = length (dependents_indexes t) ∧ drop 1 (dependents_indexes t') = drop 1 (dependents_indexes t);
}.

(** The workflow after the tasks in [X] got the status. *)
Record sel (X : gset nat) (wf : oph_workflow) : Prop := {
  se_num : tasks_num wf = tasks_num wf0;
  se_tasks : ∀ j t, tasks wf0 !! j = Some t → ∃ t', tasks wf !! j = Some t' ∧ sel_task X j t t';
  se_length : length (tasks wf) = length (tasks wf0);
  se_residual : residual_tasks_num wf = residual_tasks_num wf0 - Z.of_nat (base.size (unfinished X));
  se_range : X ⊆ set_seq 0 (tasks_num wf0);
}.

(** The operators are set; the dependents of [par] and of the tasks of its branch are in range and ranked (elsewhere
    the graph may have cycles, such as the link from a task to itself that replaces the one to a branch);
    [par] has dependents and, if there is a block around it, that has some, too. *)
Record block_ok : Prop := {
  bk_length : (tasks_num wf0 ≤ length (tasks wf0))%nat;
  bk_operator : ∀ j t, (j < tasks_num wf0)%nat → tasks wf0 !! j = Some t → is_Some (operator t);
  bk_graph : ∀ j t, rtc sel_step par j → tasks wf0 !! j = Some t → WfEngine.ranked rank B (tasks_num wf0) j (dependents_indexes t);
  bk_rank : ∀ j, (j < tasks_num wf0)%nat → (rank j < B)%nat;
  bk_par : (par < tasks_num wf0)%nat ∧ ∃ t, tasks wf0 !! par = Some t ∧ dependents_indexes t ≠ [];
  bk_gparent : gp = -2 ∨ ∃ (g : nat) t, gp = Z.of_nat g ∧ (g < tasks_num wf0)%nat ∧ (rank g < rank par)%nat ∧
    tasks wf0 !! g = Some t ∧ dependents_indexes t ≠ [];
  bk_parents : ∀ j t, tasks wf0 !! j = Some t → -1 ≤ parent t;
  bk_gparent_of : ∀ m, WfFlow.oph_gparent_of (tasks wf0) (tasks_num wf0) (Z.of_nat par) m = Ok gp m;
  bk_residual : Z.of_nat (base.size (unfinished (set_seq 0 (tasks_num wf0)))) ≤ residual_tasks_num wf0;
  bk_status : OPH_ODB_STATUS_COMPLETED ≤ st;
}.
Context (Hbk : block_ok).

Lemma sel_lookup X wf j t' : sel X wf → tasks wf !! j = Some t' → ∃ t, tasks wf0 !! j = Some t ∧ sel_task X j t t'.
Proof.
  intros Hs Ht'. destruct (lookup_lt_is_Some_2 (tasks wf0) j) as [t Ht]; [rewrite <-(se_length X wf Hs); by eapply lookup_lt_Some|].
  exists t. split; [done|]. destruct (se_tasks X wf Hs j t Ht) as (t2 & Ht2 & Hk). congruence.
Qed.

(** An update of links or flags. *)
Lemma sel_update X wf j u u' :
  sel X wf → tasks wf !! j = Some u → parent u' = parent u → operator u' = operator u → status u' = status u →
  (¬ owner j → dependents_indexes u' = dependents_indexes u) → length (dependents_indexes u') = length (dependents_indexes u) →
  drop 1 (dependents_indexes u') = drop 1 (dependents_indexes u) →
  sel X (update_task (Z.of_nat j) u' wf).
Proof.
  intros Hs Hu H1 H2 H3 H4 H5 H6. rewrite update_task_nat. split; [apply Hs| |rewrite <-(se_length X wf Hs); apply length_insert|apply Hs..].
  intros k t Ht. destruct (se_tasks X wf Hs k t Ht) as (t1 & Ht1 & Hk). change (tasks (set_tasks ?x wf)) with x. destruct (decide (k = j)) as [->|Hne].
  - exists u'. split; [apply list_lookup_insert_eq; by eapply lookup_lt_Some|]. rewrite Hu in Ht1. injection Ht1 as <-.
    destruct Hk as [K1 K2 K3 K4 [K5 K6]]. split; [congruence..| |split; congruence]. intros Hn. rewrite H4 by done. by apply K4.
  - exists t1. split; [by rewrite list_lookup_insert_ne|done].
Qed.

Lemma parents_climb (ts ts' : list oph_workflow_task) :
  (∀ j, parent <$> ts !! j = parent <$> ts' !! j) → ∀ fuel p m, WfFlow.climb fuel ts p m = WfFlow.climb fuel ts' p m.
Proof.
  intros Hp. induction fuel as [|fuel IH]; intros p m; [done|]. simpl. unfold WfSetup.cell, mbind, C_bind. destruct (p <? 0); [done|].
  specialize (Hp (Z.to_nat p)). destruct (ts !! Z.to_nat p) as [t|], (ts' !! Z.to_nat p) as [t'|]; try done. simpl in *. injection Hp as ->.
  destruct (0 <=? parent t'); [apply IH|done].
Qed.

Lemma wp_gparent_of_block X wf (Q : Z → mem → Prop) m :
  sel X wf → Q gp m → wp (WfFlow.oph_gparent_of (tasks wf) (tasks_num wf) (Z.of_nat par)) Q m.
Proof.
  intros Hs HQ. unfold wp. assert (∀ j, parent <$> tasks wf !! j = parent <$> tasks wf0 !! j) as Hp.
  { intros j. destruct (tasks wf0 !! j) as [t|] eqn:Ht.
    - destruct (se_tasks X wf Hs j t Ht) as (t' & -> & Hk). simpl. by rewrite (sl_parent _ _ _ _ Hk).
    - destruct (tasks wf !! j) as [t'|] eqn:Ht'; [|done]. destruct (sel_lookup X wf j t' Hs Ht') as (t & Ht2 & _). congruence. }
  assert (WfFlow.oph_gparent_of (tasks wf) (tasks_num wf) (Z.of_nat par) m = WfFlow.oph_gparent_of (tasks wf0) (tasks_num wf0) (Z.of_nat par) m) as ->.
  { rewrite (se_num X wf Hs). unfold WfFlow.oph_gparent_of. destruct (Z.of_nat par <? 0) eqn:Hn; [done|]. unfold WfSetup.cell, mbind, C_bind. rewrite Hn.
    specialize (Hp (Z.to_nat (Z.of_nat par))) as Hpp. destruct (tasks wf !! _) as [t|], (tasks wf0 !! _) as [t'|]; try done. simpl in *.
    injection Hpp as ->. destruct (parent t' <? 0); [done|]. exact (parents_climb _ _ Hp (S (tasks_num wf0)) (parent t') m). }
  by rewrite (bk_gparent_of Hbk m).
Qed.

Lemma owner_outs X wf j t :
  sel X wf → owner j → tasks wf !! j = Some t → ∃ z l, dependents_indexes t = z :: l.
Proof.
  intros Hs Ho Ht. destruct (sel_lookup X wf j t Hs Ht) as (t0 & Ht0 & Hk). destruct (sl_owner _ _ _ _ Hk) as [Hl _].
  assert (dependents_indexes t0 ≠ []) as Hne.
  { destruct Ho as [->|Hg]; [destruct (bk_par Hbk) as [_ (u & Hu & ?)]; congruence|].
    destruct (bk_gparent Hbk) as [->|(g & u & -> & _ & _ & Hu & ?)]; [lia|]. apply Nat2Z.inj in Hg. congruence. }
  destruct (dependents_indexes t) as [|z l]; [|by exists z, l]. destruct (dependents_indexes t0); [done|]. done.
Qed.

Lemma wp_write_dependent X wf j v (Q : oph_workflow → mem → Prop) m :
  sel X wf → owner j → (j < tasks_num wf0)%nat → (∀ wf', sel X wf' → Q wf' m) → wp (write_dependent wf (Z.of_nat j) 0 v) Q m.
Proof.
  intros Hs Ho Hj HQ. unfold write_dependent. rewrite task_at_nat.
  destruct (lookup_lt_is_Some_2 (tasks wf) j) as [t Ht]; [rewrite (se_length X wf Hs); pose proof (bk_length Hbk); lia|].
  apply wp_bind, (wp_deref _ _ _ _ Ht), wp_bind. destruct (owner_outs X wf j t Hs Ho Ht) as (z & l & Hz). rewrite Hz.
  apply (wp_deref _ _ _ z); [done|]. apply wp_ret, HQ. eapply sel_update; [exact Hs|exact Ht|done..| | |].
  - done.
  - cbn. by rewrite Hz.
  - cbn. by rewrite Hz.
Qed.

Lemma wp_relink X wf j from to (Q : oph_workflow → mem → Prop) m :
  sel X wf → (j < tasks_num wf0)%nat → (∀ wf', sel X wf' → Q wf' m) → wp (relink_and_count wf (Z.of_nat j) from to) Q m.
Proof.
  intros Hs Hj HQ. unfold relink_and_count. rewrite task_at_nat.
  destruct (lookup_lt_is_Some_2 (tasks wf) j) as [t Ht]; [rewrite (se_length X wf Hs); pose proof (bk_length Hbk); lia|].
  apply wp_bind, (wp_deref _ _ _ _ Ht), wp_ret, HQ. by eapply sel_update.
Qed.

Lemma sel_operator X wf j t : sel X wf → (j < tasks_num wf0)%nat → tasks wf !! j = Some t → ∃ o, operator t = Some o.
Proof.
  intros Hs Hj Ht. destruct (sel_lookup X wf j t Hs Ht) as (t0 & Ht0 & Hk). rewrite (sl_operator _ _ _ _ Hk).
  destruct (bk_operator Hbk j t0 Hj Ht0) as [o Ho]. by exists o.
Qed.

Lemma wp_closing X wf from j skip x (Q : oph_workflow * option Z → mem → Prop) m :
  sel X wf → (j < tasks_num wf0)%nat → (∀ wf' x', sel X wf' → Q (wf', x') m) →
  wp (closing_dependent wf from (Z.of_nat j) (Z.of_nat par) 0 skip x) Q m.
Proof.
  intros Hs Hj HQ. unfold closing_dependent. destruct (bk_par Hbk) as [Hpar _]. pose proof (bk_length Hbk).
  assert (∀ wf', sel X wf' → length (tasks wf') = length (tasks wf0)) as Hlen by (intros wf' H'; apply H').
  rewrite task_at_nat. destruct (lookup_lt_is_Some_2 (tasks wf) j) as [t Ht]; [rewrite Hlen by done; lia|].
  apply wp_bind, (wp_deref _ _ _ _ Ht), wp_bind. destruct (sel_operator X wf j t Hs Hj Ht) as [o Ho]. unfold op_is at 1. rewrite Ho. wp_steps.
  destruct (strncasecmp0 o _ _); simpl negb; cbv iota; [|apply wp_ret, HQ; by eapply sel_update].
  destruct (1 <? branch_num t).
  - apply wp_bind, (wp_write_dependent X); [done|by left|done|]. intros wf1 H1. apply wp_bind, (wp_relink X); [done..|]. intros wf2 H2. by apply wp_ret, HQ.
  - apply wp_bind, (wp_write_dependent X); [done|by left|done|]. intros wf1 H1. rewrite task_at_nat.
    destruct (lookup_lt_is_Some_2 (tasks wf1) j) as [t1 Ht1]; [rewrite Hlen by done; lia|]. apply wp_bind, (wp_deref _ _ _ _ Ht1). cbv zeta.
    set (wf2 := update_task _ _ wf1). assert (sel X wf2) as H2 by (by eapply sel_update). destruct x as [x|]; [|by apply wp_ret, HQ].
    rewrite task_at_nat. destruct (lookup_lt_is_Some_2 (tasks wf2) par) as [tp Htp]; [rewrite Hlen by done; lia|]. apply wp_bind, (wp_deref _ _ _ _ Htp), wp_bind.
    destruct (sel_operator X wf2 par tp H2 Hpar Htp) as [op Hop]. unfold op_is. rewrite Hop. wp_steps. by apply HQ.
Qed.

Lemma wp_outer X wf from j (Q : oph_workflow → mem → Prop) m :
  sel X wf → (j < tasks_num wf0)%nat → 0 ≤ gp → (∀ wf', sel X wf' → Q wf' m) →
  wp (outer_endif wf from (Z.of_nat j) (Z.of_nat par) gp 0) Q m.
Proof.
  intros Hs Hj Hgp HQ. unfold outer_endif. destruct (bk_par Hbk) as [Hpar _].
  apply wp_bind, (wp_write_dependent X); [done|by left|done|]. intros wf1 H1.
  destruct (bk_gparent Hbk) as [->|(g & u & Hg & Hgn & _)]; [lia|]. rewrite Hg at 1.
  apply wp_bind, (wp_write_dependent X); [done|by right|done|]. intros wf2 H2. by apply (wp_relink X).
Qed.

Lemma unfinished_elem X j : j ∈ unfinished X ↔ j ∈ X ∧ ∃ t, tasks wf0 !! j = Some t ∧ status t < OPH_ODB_STATUS_COMPLETED.
Proof.
  unfold unfinished. rewrite elem_of_filter. destruct (tasks wf0 !! j) as [t|]; simpl; [|naive_solver].
  rewrite Z.ltb_lt. naive_solver.
Qed.

Lemma unfinished_grow X j t :
  tasks wf0 !! j = Some t → j ∉ X →
  base.size (unfinished ({[j]} ∪ X)) = ((if (status t <? OPH_ODB_STATUS_COMPLETED)%Z then 1 else 0) + base.size (unfinished X))%nat.
Proof.
  intros Ht Hj. destruct (Z.ltb_spec (status t) OPH_ODB_STATUS_COMPLETED) as [Hlt|Hge].
  - replace (unfinished ({[j]} ∪ X)) with ({[j]} ∪ unfinished X : gset nat).
    + rewrite size_union, size_singleton; [done|]. apply disjoint_singleton_l. by intros [? _]%unfinished_elem.
    + apply set_eq. intros k. rewrite elem_of_union, !unfinished_elem, elem_of_union, elem_of_singleton. naive_solver.
  - replace (unfinished ({[j]} ∪ X)) with (unfinished X); [done|].
    apply set_eq. intros k. rewrite !unfinished_elem, elem_of_union, elem_of_singleton.
    split; [naive_solver|]. intros [[->|?] (u & Hu & Hlt)]; [|by eauto]. rewrite Ht in Hu. injection Hu as <-. lia.
Qed.

Lemma sel_status X wf j u n :
  sel X wf → tasks wf !! j = Some u → (j < tasks_num wf0)%nat →
  n = residual_tasks_num wf0 - Z.of_nat (base.size (unfinished ({[j]} ∪ X))) →
  sel ({[j]} ∪ X) (update_task (Z.of_nat j) (set_status st u) (set_residual_tasks_num n wf)).
Proof.
  intros Hs Hu Hj ->. rewrite update_task_nat. split; [apply Hs| |rewrite <-(se_length X wf Hs); apply length_insert|done|].
  - intros k t Ht. destruct (se_tasks X wf Hs k t Ht) as (t1 & Ht1 & [K1 K2 K3 K4 K5]). destruct (decide (k = j)) as [->|Hne].
    + exists (set_status st u). split; [apply list_lookup_insert_eq; by eapply lookup_lt_Some|]. rewrite Hu in Ht1. injection Ht1 as <-.
      split; try done. cbn. by rewrite decide_True by (clear; set_solver).
    + exists t1. split; [etrans; [apply list_lookup_insert_ne; congruence|done]|]. split; try done. rewrite K3.
      destruct (decide (k ∈ X)) as [Hk|Hk]; [by rewrite decide_True by (clear -Hk; set_solver)|].
      by rewrite decide_False by (clear -Hk Hne; set_solver).
  - apply union_least; [|apply Hs]. apply singleton_subseteq_l, elem_of_set_seq. lia.
Qed.

Lemma wp_unselect X wf j (Q : option oph_workflow → mem → Prop) m :
  sel X wf → (j < tasks_num wf0)%nat → (∀ wf', sel ({[j]} ∪ X) wf' → Q (Some wf') m) → wp (unselect wf (Z.of_nat j) st) Q m.
Proof.
  intros Hs Hj HQ. unfold unselect. rewrite task_at_nat.
  destruct (lookup_lt_is_Some_2 (tasks wf) j) as [t Ht]; [rewrite (se_length X wf Hs); pose proof (bk_length Hbk); lia|].
  apply wp_bind, (wp_deref _ _ _ _ Ht). destruct (sel_lookup X wf j t Hs Ht) as (t0 & Ht0 & Hk). pose proof (sl_status _ _ _ _ Hk) as Hst.
  pose proof (se_residual X wf Hs) as Hres. pose proof (bk_status Hbk). destruct (decide (j ∈ X)) as [Hin|Hout].
  - rewrite (proj2 (Z.ltb_ge (status t) _)) by lia. cbn [andb]. apply wp_ret, HQ. apply sel_status; [done..|].
    by replace ({[j]} ∪ X) with X by (clear -Hin; set_solver).
  - pose proof (unfinished_grow X j t0 Ht0 Hout) as Hgrow. rewrite Hst.
    assert (base.size (unfinished ({[j]} ∪ X)) ≤ base.size (unfinished (set_seq 0 (tasks_num wf0))))%nat as Hle.
    { apply subseteq_size. intros k [Hk1 Hk2]%unfinished_elem. apply unfinished_elem. split; [|done]. pose proof (se_range X wf Hs) as HX.
      apply elem_of_union in Hk1 as [->%elem_of_singleton|Hk1]; [apply elem_of_set_seq; lia|by apply HX]. }
    pose proof (bk_residual Hbk). destruct (status t0 <? OPH_ODB_STATUS_COMPLETED).
    + rewrite (proj2 (Z.eqb_neq (residual_tasks_num wf) 0)) by lia. cbn [andb]. apply wp_ret, HQ. apply sel_status; [done..|lia].
    + cbn [andb]. apply wp_ret, HQ. apply sel_status; [done..|lia].
Qed.

(** The tasks reached from the first [n] dependents. *)
Definition reached (ds : list Z) (q : nat) : Prop :=
  ∃ c u, Z.of_nat c ∈ ds ∧ tasks wf0 !! c = Some u ∧ interior u = true ∧ rtc sel_step c q.

Lemma reached_tc j t q : tasks wf0 !! j = Some t → reached (dependents_indexes t) q ↔ tc sel_step j q.
Proof.
  intros Ht. split.
  - intros (c & u & Hc & Hu & Hi & Hr). assert (sel_step j c) as Hs by (by exists t, u).
    destruct (proj1 (rtc_tc _ _) Hr) as [<-|Htc]; [by apply tc_once|by eapply tc_l].
  - intros Htc. assert (∃ c, sel_step j c ∧ rtc sel_step c q) as (c & (t' & u & Ht' & Hu & Hc & Hi) & Hr).
    { destruct Htc as [? ? ?|? ? ? ? ?]; [by eexists|]. eexists. split; [done|by apply tc_rtc]. }
    rewrite Ht in Ht'. injection Ht' as <-. by exists c, u.
Qed.

Lemma sel_reached_snoc ds z q : reached (ds ++ [z]) q ↔ reached ds q ∨ reached [z] q.
Proof. unfold reached. setoid_rewrite elem_of_app. naive_solver. Qed.

Lemma reached_one c c0 q :
  tasks wf0 !! c = Some c0 → reached [Z.of_nat c] q ↔ interior c0 = true ∧ (q = c ∨ tc sel_step c q).
Proof.
  intros Hc0. split.
  - intros (c' & u & Hc%list_elem_of_singleton & Hu & Hi & Hr). apply Nat2Z.inj in Hc as ->. rewrite Hc0 in Hu. injection Hu as <-.
    split; [done|]. destruct (proj1 (rtc_tc _ _) Hr) as [<-|?]; [by left|by right].
  - intros [Hi Hq]. exists c, c0. split_and!; [by apply list_elem_of_singleton|done|done|]. destruct Hq as [->|Hq]; [done|by apply tc_rtc].
Qed.

(** The dependents of a task behind the opening one are never written. *)
Lemma inner_outs X wf c t t0 :
  sel X wf → (rank par < rank c)%nat → tasks wf !! c = Some t → tasks wf0 !! c = Some t0 → dependents_indexes t = dependents_indexes t0.
Proof.
  intros Hs Hc Ht Ht0. destruct (se_tasks X wf Hs c t0 Ht0) as (u & Hu & Hk). rewrite Ht in Hu. injection Hu as <-. apply (sl_outs _ _ _ _ Hk).
  intros [->|Hg]; [lia|]. destruct (bk_gparent Hbk) as [|(g & ? & -> & _ & Hgr & _)]; [lia|]. apply Nat2Z.inj in Hg as ->. lia.
Qed.

(** The dependents as they are read in a round. *)
Lemma outs_read X wf j t t0 (k : nat) :
  sel X wf → tasks wf !! j = Some t → tasks wf0 !! j = Some t0 → (k ≠ 0%nat ∨ dependents_indexes t = dependents_indexes t0) →
  dependents_indexes t !! k = dependents_indexes t0 !! k.
Proof.
  intros Hs Ht Ht0 [Hk| ->]; [|done]. destruct (sel_lookup X wf j t Hs Ht) as (t1 & Ht1 & Hkt). rewrite Ht0 in Ht1. injection Ht1 as <-.
  destruct (sl_owner _ _ _ _ Hkt) as [_ Hd]. destruct k as [|k]; [done|]. change (S k) with (1 + k)%nat. by rewrite <-!lookup_drop, Hd.
Qed.

Lemma wp_block_walk skip : ∀ fuel j nk x X wf m,
  (0 < fuel)%nat → (B ≤ rank j + fuel)%nat → (j < tasks_num wf0)%nat → rtc sel_step par j → (rank par ≤ rank j)%nat → nk = 0 ∨ nk = -1 → sel X wf →
  (∀ t t0, tasks wf !! j = Some t → tasks wf0 !! j = Some t0 → dependents_indexes t = dependents_indexes t0) →
  wp (oph_set_status_of_selection_block fuel wf (Z.of_nat j) st (Z.of_nat par) nk skip x) (λ r m', m' = m ∧ r.1.1 = OPH_SERVER_OK ∧
    ∃ Y : gset nat, (∀ q, q ∈ Y ↔ tc sel_step j q) ∧ sel (X ∪ Y) r.1.2) m.
Proof.
  induction fuel as [|fuel IH]; intros j nk x X wf m H0 HB Hj Hin Hrank Hnk Hs Houts; [lia|]. cbn [oph_set_status_of_selection_block].
  pose proof (bk_length Hbk) as Hlen. destruct (lookup_lt_is_Some_2 (tasks wf0) j) as [t0 Ht0]; [lia|].
  destruct (se_tasks X wf Hs j t0 Ht0) as (t & Ht & _). rewrite task_at_nat. apply wp_bind, (wp_deref _ _ _ _ Ht), wp_bind.
  rewrite (Houts t t0 Ht Ht0). eapply wp_mono; [apply (wp_loopC _ (λ don '(w, nk', x') m', m' = m ∧ (nk' = 0 ∨ nk' = -1 ∧ don = []) ∧
    (don = [] → w = wf) ∧ ∃ Y : gset nat, (∀ q, q ∈ Y ↔ reached (take (length don) (dependents_indexes t0)) q) ∧ sel (X ∪ Y) w) (λ _ _, False))|].
  - split_and!; [done|naive_solver|done|]. exists ∅. split; [|by rewrite union_empty_r_L]. intros q. rewrite elem_of_empty.
    split; [done|]. intros (c & u & Hc & _). by apply elem_of_nil in Hc.
  - intros don k rest [[w nk'] x'] m' (-> & _ & Hk)%seq_app_cons_inv (-> & Hnk' & Hfirst & Y & HY & Hw). rewrite task_at_nat.
    assert ((if nk' <? 0 then Z.of_nat (length don) else nk') = 0) as -> by (destruct Hnk' as [->|[-> ->]]; done). cbv zeta.
    destruct (se_tasks _ w Hw j t0 Ht0) as (t' & Ht' & _). apply wp_bind, (wp_deref _ _ _ _ Ht'), wp_bind.
    destruct (lookup_lt_is_Some_2 (dependents_indexes t0) (length don)) as [z Hz]; [lia|]. apply (wp_deref _ _ _ z).
    { rewrite (outs_read _ w j t' t0 (length don) Hw Ht' Ht0); [done|]. destruct don; [right|by left]. rewrite (Hfirst eq_refl) in Ht'. by apply Houts. }
    pose proof (bk_graph Hbk j t0 Hin Ht0) as Hr. destruct (Forall_lookup_1 _ _ _ _ Hr Hz) as (c & -> & Hc & Hrc).
    destruct (lookup_lt_is_Some_2 (tasks wf0) c) as [c0 Hc0]; [lia|]. destruct (se_tasks _ w Hw c c0 Hc0) as (c1 & Hc1 & Hck).
    rewrite task_at_nat. apply wp_bind, (wp_deref _ _ _ _ Hc1). rewrite (sl_parent _ _ _ _ Hck), (sl_operator _ _ _ _ Hck).
    rewrite length_app. cbn [length]. rewrite Nat.add_1_r, (take_S_r _ _ _ Hz).
    assert (Hstep : ∀ q, reached (take (length don) (dependents_indexes t0) ++ [Z.of_nat c]) q ↔
      q ∈ Y ∨ interior c0 = true ∧ (q = c ∨ tc sel_step c q)) by (intros q; by rewrite sel_reached_snoc, HY, (reached_one c c0)).
    assert (Hskip : interior c0 = false → ∀ q, q ∈ Y ↔ reached (take (length don) (dependents_indexes t0) ++ [Z.of_nat c]) q).
    { intros Hi q. rewrite Hstep, Hi. naive_solver. }
    unfold interior in Hskip. destruct (parent c0 =? Z.of_nat par) eqn:Hpar.
    + apply wp_bind, (wp_closing (X ∪ Y)); [done..|]. intros w' x2 Hw'. apply wp_ret. split_and!; [done|by left|by destruct don|]. exists Y.
      split; [by apply Hskip|done].
    + apply wp_bind, (wp_gparent_of_block (X ∪ Y)); [done|]. destruct (bk_operator Hbk c c0 Hc Hc0) as [o Ho]. apply wp_bind. unfold op_is. rewrite Ho. wp_steps.
      assert (is_endif c0 = strncasecmp0 o WfFlow.OPH_OPERATOR_ENDIF OPH_MAX_STRING_SIZE) as Hend by (unfold is_endif; by rewrite Ho).
      rewrite Hend in Hskip. destruct (strncasecmp0 o _ _ && (parent c0 =? gp)) eqn:Hout.
      * apply wp_bind, (wp_outer (X ∪ Y)); [done|done| |].
        { apply andb_true_iff in Hout as [_ Hg%Z.eqb_eq]. pose proof (bk_parents Hbk c c0 Hc0). destruct (bk_gparent Hbk) as [|(g & ? & -> & _)]; lia. }
        intros w' Hw'. apply wp_ret. split_and!; [done|by left|by destruct don|]. exists Y. split; [by apply Hskip|done].
      * apply wp_bind, (wp_unselect (X ∪ Y)); [done..|]. intros w' Hw'. apply wp_bind. eapply wp_mono.
        { assert (sel_step j c) as Hjc by (exists t0, c0; split_and!; [done|done|by eapply list_elem_of_lookup_2|unfold interior; by rewrite Hpar, Hend, Hout]).
          apply (IH c 0 x' ({[c]} ∪ (X ∪ Y)) w'); [pose proof (bk_rank Hbk c Hc); lia|lia|done|by eapply rtc_r|lia|by left|exact Hw'|]. intros u u0. apply (inner_outs _ w' c u u0 Hw'). lia. }
        intros [[res w2] x2] m' (-> & Hres & Y' & HY' & Hw2). cbn [fst snd] in *. subst res. apply wp_ret. cbn [Z.eqb].
        split_and!; [done|by left|by destruct don|]. exists (Y ∪ ({[c]} ∪ Y')). split; [|by replace (X ∪ (Y ∪ ({[c]} ∪ Y'))) with ({[c]} ∪ (X ∪ Y) ∪ Y') by (clear; set_solver)].
        intros q. rewrite Hstep, !elem_of_union, elem_of_singleton, HY'. unfold interior. rewrite Hpar, Hend, Hout. cbn. naive_solver.
  - intros [[[w nk'] x']|r] m'; [|done]. intros (-> & _ & _ & Y & HY & Hw). apply wp_ret. split_and!; [done..|]. exists Y. split; [|done].
    intros q. rewrite HY, length_seq, firstn_all. by apply reached_tc.
Qed.
End selection.

(** ** Branches of an if *)

Section branches.
Context (evaluator : string → option (nat * Values.double)) (index0 : Z).

(** An argument of an if: a condition has the text [c], and it is not asked to forward the output; other
    arguments, such as the folders that every task has, are not looked at. *)
Definition if_argument_ok (c : string) (a : argument) : Prop :=
  ∃ k, arg_key a = Some k ∧ (strcasecmp0 k OPH_OPERATOR_PARAMETER_CONDITION = true → arg_value a = Some c) ∧
    (strcasecmp0 k OPH_OPERATOR_PARAMETER_FORWARD = true → ∃ v, arg_value a = Some v ∧ WfVars.literal v = true ∧
       strcasecmp0 v OPH_COMMON_YES = false ∧ strcasecmp0 v OPH_COMMON_NO = true).

Definition is_condition (a : argument) : bool := from_option (λ k, strcasecmp0 k OPH_OPERATOR_PARAMETER_CONDITION) false (arg_key a).

(** The substitution of the variables in [c] delivers [e]. *)
Definition expands (fuel : nat) (wf : oph_workflow) (i : nat) (c e : string) : Prop :=
  ∀ m, reliable m → wp (substituted index0 fuel wf i (Some c) (Some OPH_OPERATOR_PARAMETER_CONDITION)) (λ r m', reliable m' ∧ r = (0, Some e, false)) m.

(** The condition of task [i] is [c], which becomes the expression [e] with the value [v]. *)
Definition condition_is (fuel : nat) (wf : oph_workflow) (i : nat) (t : oph_workflow_task) (c e : string) (v : Values.double) : Prop :=
  Forall (if_argument_ok c) (arguments t) ∧ Exists (λ a, is_condition a = true) (arguments t) ∧ expands fuel wf i c e ∧ e ≠ EmptyString ∧
  evaluator e = Some (0%nat, v) ∧ Values.finite v = true.

Lemma expands_literal fuel wf i c : (0 < fuel)%nat → WfVars.literal c = true → expands fuel wf i c c.
Proof. intros Hf Hc m Hm. by apply wp_substituted_literal. Qed.

Lemma wp_if_argument fuel wf i c e cond a (Q : ctl (oph_workflow * cstr) (oph_workflow * cstr * bool) → mem → Prop) m :
  (0 < fuel)%nat → if_argument_ok c a → expands fuel wf i c e → reliable m →
  (∀ m', reliable m' → Q (Next (wf, if is_condition a then Some e else cond)) m') → wp (if_argument index0 fuel i (wf, cond) a) Q m.
Proof.
  intros Hf (k & Hk & Hc & Hfw) He Hm HQ. unfold if_argument, is_condition in *. rewrite Hk in *. cbn [from_option] in HQ. apply wp_bind, wp_ret.
  destruct (strcasecmp0 k OPH_OPERATOR_PARAMETER_CONDITION) eqn:E1.
  - rewrite (Hc eq_refl). apply wp_bind, wp_strdup; [done|]. intros m1 Hm1. apply wp_bind. eapply wp_mono; [by apply He|]. intros r m2 [Hm2 ->]. apply wp_ret. by apply HQ.
  - destruct (strcasecmp0 k OPH_OPERATOR_PARAMETER_FORWARD); [|by apply wp_ret, HQ]. destruct (Hfw eq_refl) as (v & -> & Hl & Hy & Hn).
    apply wp_bind, wp_strdup; [done|]. intros m1 Hm1. apply wp_bind, wp_substituted_literal; [done..|]. cbn [Z.eqb negb]. apply wp_bind, wp_ret. rewrite Hy, Hn. by apply wp_ret, HQ.
Qed.

Lemma wp_if_arguments fuel wf i c e args m :
  (0 < fuel)%nat → Forall (if_argument_ok c) args → expands fuel wf i c e → reliable m →
  ∀ cond, wp (loopC (if_argument index0 fuel i) (wf, cond) args)
    (λ r m', reliable m' ∧ r = Next (wf, if existsb is_condition args then Some e else cond)) m.
Proof.
  intros Hf Hall He Hm. revert m Hm. induction Hall as [|a args Ha _ IH]; intros m Hm cond; cbn [loopC]; [by apply wp_ret|]. apply wp_bind, (wp_if_argument fuel wf i c e); [done..|].
  intros m1 Hm1. eapply wp_mono; [by apply IH|]. intros r m2 [Hm2 ->]. split; [done|]. cbn [existsb]. by destruct (is_condition a), (existsb is_condition args).
Qed.

Lemma wp_check_condition fuel wf i t c e v (Q : bool * oph_workflow → mem → Prop) m :
  tasks wf !! i = Some t → condition_is fuel wf i t c e v → (0 < fuel)%nat → reliable m →
  (∀ m', reliable m' → Q (true, if Values.is_zero v then update_task (Z.of_nat i) (set_is_skipped 1 t) wf else wf) m') →
  wp (check_condition evaluator index0 fuel i wf) Q m.
Proof.
  intros Ht (Hargs & Hex & He & Hne & Hev & Hfin) Hf Hm HQ. unfold check_condition. apply wp_bind, (wp_deref _ _ _ _ Ht), wp_bind.
  eapply wp_mono; [by apply (wp_if_arguments fuel wf i c e)|]. intros r m1 [Hm1 ->].
  assert (existsb is_condition (arguments t) = true) as -> 
    by (apply Exists_exists in Hex as (a & Ha & Hc); apply existsb_exists; exists a; split; [by apply list_elem_of_In|done]).
  cbv beta iota zeta. assert (condition_holds evaluator (Some e) = Some (negb (Values.is_zero v))) as ->.
  { unfold condition_holds. destruct e; [done|]. by rewrite Hev, Hfin. }
  destruct (Values.is_zero v); simpl negb; cbv iota; [|by apply wp_ret, HQ]. apply wp_bind, (wp_deref _ _ _ _ Ht), wp_ret. by apply HQ.
Qed.

(** The closing tasks of the block of task [i] but the endif. *)
Definition other_branch (i : nat) (t : oph_workflow_task) : bool := (parent t =? Z.of_nat i) && negb (is_endif t).

Definition skip_below (i n j : nat) (t : oph_workflow_task) : oph_workflow_task :=
  if (j <? n)%nat && other_branch i t then set_is_skipped 1 t else t.
Definition skip_branches (i n : nat) (wf : oph_workflow) : oph_workflow := set_tasks (imap (skip_below i n) (tasks wf)) wf.

Lemma skip_branches_lookup i n wf j : tasks (skip_branches i n wf) !! j = skip_below i n j <$> tasks wf !! j.
Proof. change (imap (skip_below i n) (tasks wf) !! j = skip_below i n j <$> tasks wf !! j). apply list_lookup_imap. Qed.

Lemma skip_branches_0 i wf : skip_branches i 0 wf = wf.
Proof.
  unfold skip_branches. assert (imap (skip_below i 0) (tasks wf) = tasks wf) as ->; [|by destruct wf].
  apply list_eq. intros j. rewrite list_lookup_imap. by destruct (tasks wf !! j).
Qed.

Lemma skip_branches_S i n wf t :
  tasks wf !! n = Some t →
  update_task (Z.of_nat n) (if other_branch i t then set_is_skipped 1 t else t) (skip_branches i n wf) = skip_branches i (S n) wf.
Proof.
  intros Ht. rewrite update_task_nat. unfold skip_branches at 3.
  match goal with |- set_tasks ?a _ = set_tasks ?b _ => assert (a = b) as ->; [|by destruct wf] end.
  apply list_eq. intros k. rewrite list_lookup_imap. destruct (decide (k = n)) as [->|Hne].
  - rewrite list_lookup_insert_eq, Ht.
    + simpl. unfold skip_below. by rewrite (proj2 (Nat.ltb_lt _ _)) by lia.
    + apply lookup_lt_is_Some_1. rewrite skip_branches_lookup, Ht. by eexists.
  - rewrite list_lookup_insert_ne, skip_branches_lookup by done. destruct (tasks wf !! k); simpl; [|done]. unfold skip_below.
    replace (k <? S n)%nat with (k <? n)%nat; [done|]. apply eq_true_iff_eq. rewrite !Nat.ltb_lt. lia.
Qed.

Lemma skip_branches_same i n wf t : tasks wf !! n = Some t → other_branch i t = false → skip_branches i n wf = skip_branches i (S n) wf.
Proof.
  intros Ht Ho. rewrite <-(skip_branches_S i n wf t Ht), Ho, update_task_nat, list_insert_id; [by destruct wf|].
  rewrite skip_branches_lookup, Ht. simpl. unfold skip_below. by rewrite Ho, andb_false_r.
Qed.

Lemma wp_skip_other_branches wf i (Q : oph_workflow → mem → Prop) m :
  (tasks_num wf ≤ length (tasks wf))%nat → (∀ j t, (j < tasks_num wf)%nat → tasks wf !! j = Some t → is_Some (operator t)) →
  Q (skip_branches i (tasks_num wf) wf) m → wp (skip_other_branches wf i) Q m.
Proof.
  intros Hlen Hop HQ. unfold skip_other_branches.
  eapply wp_mono; [apply (wp_foldC _ (λ don w m', m' = m ∧ w = skip_branches i (length don) wf))|].
  - split; [done|]. symmetry. apply skip_branches_0.
  - intros don j rest w m' (-> & _ & Hj)%seq_app_cons_inv [-> ->]. destruct (lookup_lt_is_Some_2 (tasks wf) (length don)) as [t Ht]; [lia|].
    rewrite skip_branches_lookup, Ht. assert (skip_below i (length don) (length don) t = t) as Hself by (unfold skip_below; by rewrite Nat.ltb_irrefl).
    cbn [fmap option_fmap option_map]. rewrite Hself. apply wp_bind, wp_ret. rewrite length_app. cbn [length]. rewrite Nat.add_1_r.
    pose proof (skip_branches_S i (length don) wf t Ht) as Hupd. pose proof (skip_branches_same i (length don) wf t Ht) as Hsame.
    unfold other_branch in Hupd, Hsame. destruct (parent t =? Z.of_nat i) eqn:Hp; [|apply wp_ret; split; [done|by apply Hsame]].
    destruct (Hop (length don) t Hj Ht) as [o Ho]. unfold op_is. apply wp_bind. rewrite Ho. wp_steps. unfold is_endif in Hupd, Hsame. rewrite Ho in Hupd, Hsame.
    cbn [from_option andb] in Hupd, Hsame. destruct (strncasecmp0 o _ _); (split; [done|]); [apply Hsame; reflexivity|exact Hupd].
  - intros w m' [-> ->]. by rewrite length_seq.
Qed.

(** an if (or elseif) that is not skipped and whose condition has a value other than 0
    keeps its branch and marks exactly the other branches of its block, the tasks that it opens
    except the endif, to be skipped. *)
Theorem if_true_skips_other_branches (fuel : nat) (wf : oph_workflow) (i : nat) (t : oph_workflow_task) (c e : string)
    (v : Values.double) (x : option Z) (m : mem) :
  tasks wf !! i = Some t → is_skipped t = 0 → condition_is fuel wf i t c e v → Values.is_zero v = false →
  (tasks_num wf ≤ length (tasks wf))%nat → (∀ j t, (j < tasks_num wf)%nat → tasks wf !! j = Some t → is_Some (operator t)) →
  (0 < fuel)%nat → reliable m →
  wp (oph_if_impl evaluator index0 fuel wf i x) (λ r _, r = (OPH_SERVER_OK, skip_branches i (tasks_num wf) wf, x)) m.
Proof.
  intros Ht Hsk Hc Hz Hlen Hop Hf Hm. unfold oph_if_impl. apply wp_bind, (wp_deref _ _ _ _ Ht). rewrite Hsk. cbn [Z.eqb]. cbv zeta iota.
  apply wp_bind, (wp_check_condition fuel wf i t c e v); [done..|]. intros m1 Hm1. rewrite Hz. simpl negb. cbv beta iota.
  apply wp_bind, (wp_deref _ _ _ _ Ht). rewrite Hsk. simpl negb. cbv iota. apply wp_bind, wp_skip_other_branches; [done..|]. by apply wp_ret.
Qed.

(** The branch of a task that is marked to be skipped, or whose condition is 0, is not
    selected. *)
Definition not_selected (fuel : nat) (wf : oph_workflow) (i : nat) (t : oph_workflow_task) : Prop :=
  is_skipped t ≠ 0 ∨ is_skipped t = 0 ∧ ∃ c e v, condition_is fuel wf i t c e v ∧ Values.is_zero v = true.

Lemma sel_start wf par gp st : sel wf par gp st ∅ wf.
Proof.
  split; [done| |done| |set_solver].
  - intros j t Ht. exists t. split; [done|]. split; try done.
  - assert (unfinished wf ∅ = ∅) as -> by (apply set_eq; intros j; rewrite unfinished_elem; set_solver). rewrite size_empty. lia.
Qed.

Lemma wp_block rank B fuel wf wf1 (i : nat) gp t skip x m :
  block_ok rank B wf i gp OPH_ODB_STATUS_UNSELECTED → (B ≤ fuel)%nat → tasks wf !! i = Some t →
  wf1 = wf ∨ wf1 = update_task (Z.of_nat i) (set_is_skipped 1 t) wf →
  wp (oph_set_status_of_selection_block fuel wf1 (Z.of_nat i) OPH_ODB_STATUS_UNSELECTED (Z.of_nat i) (-1) skip x) (λ r m', m' = m ∧
    ∃ Y : gset nat, (∀ q, q ∈ Y ↔ tc (sel_step wf i gp) i q) ∧ sel wf i gp OPH_ODB_STATUS_UNSELECTED Y r.1.2) m.
Proof.
  intros Hbk HB Ht Hwf1. destruct (bk_par _ _ _ _ _ _ Hbk) as [Hi _]. pose proof (bk_rank _ _ _ _ _ _ Hbk i Hi).
  assert (sel wf i gp OPH_ODB_STATUS_UNSELECTED ∅ wf1) as Hs by (destruct Hwf1 as [->| ->]; [apply sel_start|eapply sel_update; [apply sel_start|done..]]).
  eapply wp_mono; [apply (wp_block_walk rank B wf i gp _ Hbk skip fuel i (-1) x ∅ wf1); [lia|lia|done|done|lia|by right|done|]|].
  - intros t1 t0 Ht1 Ht0. rewrite Ht in Ht0. injection Ht0 as <-. destruct Hwf1 as [->| ->]; [congruence|].
    rewrite update_task_nat in Ht1. cbn in Ht1. rewrite list_lookup_insert_eq in Ht1 by (by eapply lookup_lt_Some). by injection Ht1 as <-.
  - intros r m' (-> & _ & Y & HY & Hr). split; [done|]. exists Y. split; [done|]. by rewrite union_empty_l_L in Hr.
Qed.

(** C23: When the branch of an if (or elseif) is not selected, because the task is marked or because its condition,
    after the substitution of its variables, evaluates to 0 (other arguments do not matter, forward is not yes), the
    call succeeds and exactly the tasks of the branch, those reached from it without passing a task that closes the
    branch or the block, become UNSELECTED; the number of residual tasks decreases by those that were not finished,
    and no other task changes its status. The task has dependents, as has the block around it if there is one; the
    dependents of the task and of its branch are in range and form no cycle; elsewhere the graph may have cycles, such
    as the link of a task to itself that the code writes in place of a dropped branch. *)
Theorem branch_unselected (rank : nat → nat) (B fuel : nat) (wf : oph_workflow) (i : nat) (gp : Z) (t : oph_workflow_task)
    (x : option Z) (m : mem) :
  block_ok rank B wf i gp OPH_ODB_STATUS_UNSELECTED → (B ≤ fuel)%nat → tasks wf !! i = Some t → not_selected fuel wf i t → reliable m →
  wp (oph_if_impl evaluator index0 fuel wf i x) (λ r _, r.1.1 = OPH_SERVER_OK ∧ ∃ Y : gset nat,
    (∀ q, q ∈ Y ↔ tc (sel_step wf i gp) i q) ∧ sel wf i gp OPH_ODB_STATUS_UNSELECTED Y r.1.2) m.
Proof.
  intros Hbk HB Ht Hnot Hm. destruct (bk_par _ _ _ _ _ _ Hbk) as [Hi _]. pose proof (bk_rank _ _ _ _ _ _ Hbk i Hi).
  unfold oph_if_impl. apply wp_bind, (wp_deref _ _ _ _ Ht). cbv zeta. apply wp_bind. destruct Hnot as [Hsk|(Hsk & c & e & v & Hc & Hz)].
  - rewrite (proj2 (Z.eqb_neq _ _)) by done. apply wp_ret. cbn [negb]. apply wp_bind, (wp_deref _ _ _ _ Ht).
    rewrite (proj2 (Z.eqb_neq _ _)) by done. cbn [negb]. apply wp_bind.
    eapply wp_mono; [eapply (wp_block rank B fuel wf wf i gp t); [done..|by left]|]. intros [[rc w] x'] m' (-> & Y & HY & Hs). cbn [fst snd] in *.
    destruct (se_tasks _ _ _ _ _ _ Hs i t Ht) as (t' & Ht' & _). apply wp_bind, (wp_deref _ _ _ _ Ht'), wp_ret. split; [done|]. by exists Y.
  - rewrite Hsk. cbn [Z.eqb]. apply (wp_check_condition fuel wf i t c e v); [done..|lia|done|]. intros m1 Hm1. rewrite Hz. cbn [negb]. cbv beta iota.
    set (wf1 := update_task (Z.of_nat i) (set_is_skipped 1 t) wf). assert (tasks wf1 !! i = Some (set_is_skipped 1 t)) as Ht1.
    { unfold wf1. rewrite update_task_nat. apply list_lookup_insert_eq. by eapply lookup_lt_Some. }
    apply wp_bind, (wp_deref _ _ _ _ Ht1). cbn [is_skipped set_is_skipped Z.eqb negb]. apply wp_bind.
    eapply wp_mono; [eapply (wp_block rank B fuel wf wf1 i gp t); [done..|by right]|]. intros [[rc w] x'] m' (-> & Y & HY & Hs). cbn [fst snd] in *.
    destruct (se_tasks _ _ _ _ _ _ Hs i t Ht) as (t' & Ht' & _). apply wp_bind, (wp_deref _ _ _ _ Ht'), wp_ret. split; [done|]. exists Y.
    split; [done|]. by eapply sel_update.
Qed.
End branches.

(** ** A loop and a selection *)

Definition linked_task (o : string) (par : Z) (ins outs : list Z) : oph_workflow_task :=
  set_operator (Some o) (set_parent par (set_residual_deps_num (Z.of_nat (length ins)) (set_dependents_indexes outs
    (set_deps ((λ k, set_task_index k (WfSetup.dep_on "")) <$> ins) zero_task)))).

(** The arguments that the loader adds to every task. *)
Definition folder_arguments : list argument := [Arg (Some "cwd") (Some "/a") []; Arg (Some "cdd") (Some "/") []]%string.

(** Task 0 opens a loop over two values, task 1 is its body, task 2 closes it. *)
Definition loop_wf : oph_workflow :=
  set_sessionid (Some "s"%string) (set_wf_vars (Some (empty_table 4 def_hashfunc)) (set_tasks_num 3 (set_tasks
    [set_arguments (Arg (Some OPH_ARG_VALUES) (Some (Values.join_values ["a"; "b"]%string)) [] :: Arg (Some OPH_ARG_KEY) (Some "i"%string) [] :: folder_arguments)
       (linked_task "oph_for" (-1) [] [1]);
     linked_task "oph_reduce" (-1) [0] [2]; linked_task "oph_endfor" 0 [1] []; zero_task] zero_workflow))).

Definition no_json (s : string) : option JsonDoc.oph_json := None.

Lemma loop_wf_graph : graph_ok id 8 loop_wf.
Proof.
  split; [|simpl; intros; lia|simpl; lia]. intros j t Hj Ht. change (tasks_num loop_wf) with 3%nat in *.
  destruct j as [|[|[|j]]]; [..|lia]; injection Ht as <-; (split; [|repeat constructor]).
  - apply Forall_singleton. exists 1%nat. simpl. lia.
  - apply Forall_singleton. exists 2%nat. simpl. lia.
  - constructor.
Qed.

Lemma loop_wf_tasks : tasks_ok loop_wf.
Proof. split; [simpl; lia|]. repeat constructor; by eexists. Qed.

Lemma loop_wf_arguments : for_arguments "i" (Values.join_values ["a"; "b"]%string) (arguments (default zero_task (tasks loop_wf !! 0%nat))).
Proof.
  split_and!; [|done|done]. repeat (apply Forall_cons; split; [do 2 eexists; split_and!; (done || (intros E; by vm_compute in E))|]). by apply Forall_nil.
Qed.

(** A body that completes every task and discharges its dependencies. *)
Definition complete_all (wf : oph_workflow) : oph_workflow :=
  set_tasks ((λ t, set_status OPH_ODB_STATUS_COMPLETED (set_deps (set_task_index (-1) <$> deps t) t)) <$> tasks wf) wf.

Lemma for_loop_runs_all_values_witness :
  wp ('(rc, wf1) ← oph_for_impl no_json Values.no_evaluator 0 8 loop_wf 0; '(l, wf2) ← run_loop 8 2 "i" wf1 (Some []) [complete_all; complete_all]; mret (rc, l, wf2))
    (λ r _, r.1.1 = OPH_SERVER_OK ∧
      r.1.2 = [(Some (Var 0 "a" 1), OPH_SERVER_NO_RESPONSE); (Some (Var 0 "b" 2), OPH_SERVER_OK)] ∧
      stack r.2 = [] ∧ env r.2 !! "i"%string = None) [].
Proof.
  apply (for_loop_runs_all_values no_json Values.no_evaluator 0 id 8 loop_wf 0 2
    (default zero_task (tasks loop_wf !! 0%nat)) (default zero_task (tasks loop_wf !! 2%nat)) "i" "a" ["b"]%string [complete_all; complete_all] (Some []));
    try done; try (simpl; lia).
  - apply loop_wf_arguments.
  - repeat (constructor; [split_and!; vm_compute; (done || lia)|]). constructor.
  - split; [simpl; lia|]. intros h t Hh Ht Hin. change (tasks_num loop_wf) with 3%nat in Hh.
    destruct h as [|[|[|h]]]; [..|lia]; by injection Ht as <-.
  - apply loop_wf_tasks.
  - apply loop_wf_graph.
  - exists (empty_table 4 def_hashfunc). split; [done|]. apply empty_table_spec. lia.
  - assert (∀ rank fuel i p d saved nm sv iv num others, keeps_loop rank fuel i p d saved nm sv iv num others complete_all) as Hk; [|apply Forall_cons; split; [apply Hk|]; apply Forall_cons; split; [apply Hk|by apply Forall_nil]].
    intros. apply working_body. intros wf. split; [done|]. split; [apply length_fmap|]. intros j t' Hj. change (tasks (complete_all wf)) with
      ((λ t, set_status OPH_ODB_STATUS_COMPLETED (set_deps (set_task_index (-1) <$> deps t) t)) <$> tasks wf) in Hj. rewrite list_lookup_fmap in Hj.
    destruct (tasks wf !! j) as [t|]; [|done]. injection Hj as <-. exists t. split_and!; [done|done|done|simpl; by rewrite length_fmap|]. simpl.
    apply Forall_fmap, Forall_true. by left.
  - exists []. split; [done|constructor].
  - apply reliable_nil.
Defined.

Lemma for_starts_loop_witness :
  wp (oph_for_impl no_json Values.no_evaluator 0 8 loop_wf 0) (λ r _, r.1 = OPH_SERVER_OK ∧
    ∃ tbl, hash_wf tbl ∧ abs tbl = loop_env 0 "i" "a" 2 (env loop_wf) ∧
      r.2 = pushed (set_wf_vars (Some tbl) loop_wf) 0 "i" (Some (Some <$> ["a"; "b"]%string)) None 2) [].
Proof.
  apply (for_starts_loop no_json Values.no_evaluator 0 8 loop_wf 0 (default zero_task (tasks loop_wf !! 0%nat)) "i" "a" ["b"]%string);
    try done; try lia.
  - apply loop_wf_arguments.
  - repeat (constructor; [split_and!; vm_compute; (done || lia)|]). constructor.
  - split; [simpl; lia|]. intros h t Hh Ht Hin. change (tasks_num loop_wf) with 3%nat in Hh.
    destruct h as [|[|[|h]]]; [..|lia]; by injection Ht as <-.
  - apply loop_wf_tasks.
  - exists (empty_table 4 def_hashfunc). split; [done|]. apply empty_table_spec. lia.
  - apply reliable_nil.
Defined.

Lemma counter_without_clause_ub_witness :
  oph_for_impl no_json Values.no_evaluator 0 8
    (set_tasks [set_arguments [Arg (Some OPH_OPERATOR_PARAMETER_COUNTER) (Some ","%string) []] zero_task] zero_workflow) 0 [] = UB.
Proof.
  eapply (counter_without_clause_ub no_json Values.no_evaluator 0 8 _ 0 _ ","); try reflexivity; [|lia].
  apply Nat.ltb_lt. by vm_compute.
Defined.

(** Task 0 is an if with one task in its branch, task 2 its else, task 4 its endif. *)
Definition if_wf (c : string) : oph_workflow :=
  set_residual_tasks_num 5 (set_tasks_num 5 (set_tasks
    [set_arguments (Arg (Some OPH_OPERATOR_PARAMETER_CONDITION) (Some c) [] :: folder_arguments) (linked_task "oph_if" (-1) [] [1; 2]);
     linked_task "oph_reduce" (-1) [0] [4]; linked_task "oph_else" 0 [0] [3]; linked_task "oph_reduce" (-1) [2] [4];
     linked_task "oph_endif" 0 [1; 3] []] zero_workflow)).

(** An evaluator of two numbers. *)
Definition digit_evaluator (s : string) : option (nat * Values.double) :=
  if bool_decide (s = "1"%string) then Some (0%nat, Values.Double true false "1.000000")
  else if bool_decide (s = "0"%string) then Some (0%nat, Values.Double true true "0.000000") else None.

Lemma if_wf_arguments c : Forall (if_argument_ok c) (Arg (Some OPH_OPERATOR_PARAMETER_CONDITION) (Some c) [] :: folder_arguments).
Proof. repeat (apply Forall_cons; split; [eexists; split; [done|split; [done|intros E; by vm_compute in E]]|]). by apply Forall_nil. Qed.

Lemma if_true_skips_other_branches_witness :
  wp (oph_if_impl digit_evaluator 0 8 (if_wf "1") 0 None) (λ r _, r = (OPH_SERVER_OK, skip_branches 0 5 (if_wf "1"), None)) [].
Proof.
  eapply (if_true_skips_other_branches digit_evaluator 0 8 (if_wf "1") 0 _ "1" "1" (Values.Double true false "1.000000")); try reflexivity; try (simpl; lia).
  - split_and!; [apply if_wf_arguments|by apply Exists_cons_hd|apply expands_literal; [lia|done]|done..].
  - intros j t Hj Ht. change (tasks_num (if_wf "1")) with 5%nat in Hj. destruct j as [|[|[|[|[|j]]]]]; [..|lia]; injection Ht as <-; by eexists.
  - apply reliable_nil.
Defined.

Lemma if_wf_block : block_ok id 6 (if_wf "0") 0 (-2) OPH_ODB_STATUS_UNSELECTED.
Proof.
  split.
  - simpl; lia.
  - intros j t Hj Ht. change (tasks_num (if_wf "0")) with 5%nat in *. destruct j as [|[|[|[|[|j]]]]]; [..|lia]; injection Ht as <-; by eexists.
  - intros j t _ Ht. change (tasks_num (if_wf "0")) with 5%nat in *.
    destruct j as [|[|[|[|[|j]]]]]; [..|done]; injection Ht as <-.
    + constructor; [exists 1%nat; simpl; lia|]. apply Forall_singleton. exists 2%nat. simpl. lia.
    + apply Forall_singleton. exists 4%nat. simpl. lia.
    + apply Forall_singleton. exists 3%nat. simpl. lia.
    + apply Forall_singleton. exists 4%nat. simpl. lia.
    + constructor.
  - simpl. intros j Hj. unfold id. lia.
  - split; [simpl; lia|]. by eexists.
  - by left.
  - intros j t Ht. destruct j as [|[|[|[|[|j]]]]]; [..|done]; injection Ht as <-; simpl; lia.
  - done.
  - by vm_compute.
  - done.
Qed.

Lemma branch_unselected_witness :
  wp (oph_if_impl digit_evaluator 0 8 (if_wf "0") 0 None) (λ r _, r.1.1 = OPH_SERVER_OK ∧ ∃ Y : gset nat,
    (∀ q, q ∈ Y ↔ tc (sel_step (if_wf "0") 0 (-2)) 0%nat q) ∧ sel (if_wf "0") 0 (-2) OPH_ODB_STATUS_UNSELECTED Y r.1.2) [].
Proof.
  eapply (branch_unselected digit_evaluator 0 id 6 8 (if_wf "0") 0 (-2)); [apply if_wf_block|lia|reflexivity| |apply reliable_nil].
  right. split; [done|]. exists "0"%string, "0"%string, (Values.Double true true "0.000000"). split; [|done].
  split_and!; [apply if_wf_arguments|by apply Exists_cons_hd|apply expands_literal; [lia|done]|done..].
Defined.
End FlowControl.
