(* ===== verification/OdbFs.v ===== *)
(** * The folders of the OphidiaDB ([src/src/oph_ophidiadb_fs_library.c])

    The virtual file system of the server is a table of folders in a database: paths are resolved name by
    name, the folders of a session are those below its home.  The database is a parameter, the class
    [MySQL]: a query text has rows or fails.  The pointers to results are never null here, since every caller passes
    the address of a variable. *)

From Stdlib Require Ascii.
From stdpp Require Import base gmap strings numbers pretty list.
From S2P Require Import Prelude CString.
Import (notations) Stdlib.Strings.Ascii.

Module OdbFs.

#[local] Open Scope Z_scope.

Definition OPH_ODB_SUCCESS : Z := 0.
Definition OPH_ODB_NULL_PARAM : Z := 1.
Definition OPH_ODB_MYSQL_ERROR : Z := 2.
Definition OPH_ODB_STR_BUFF_OVERFLOW : Z := 3.
Definition OPH_ODB_MEMORY_ERROR : Z := 4.
Definition OPH_ODB_TOO_MANY_ROWS : Z := 5.
Definition OPH_ODB_ERROR : Z := 6.
Definition MYSQL_BUFLEN : nat := 2048.
Definition OPH_ODB_FS_ROOT : string := "/".

(** What [mysql_query] and [mysql_store_result] deliver: a failure, or the number of the columns and the rows,
    whose cells may be null.  [connected] is the answer of [mysql_ping], or of the new connection. *)
Record result : Type := Result { field_count : nat; rows : list (list cstr) }.
Class MySQL := { mysql_query : string → option result; connected : bool }.

(** ** The queries *)

Definition query_root : string := "SELECT idfolder FROM folder WHERE idparent IS NULL".
Definition query_child (parent : Z) (name : string) : string :=
  "SELECT idfolder FROM folder WHERE idparent=" +:+ print_int parent +:+ " AND foldername='" +:+ name +:+ "'".
Definition query_session (sessionid : string) : string := "SELECT idfolder FROM session WHERE sessionid = '" +:+ sessionid +:+ "';".
Definition query_parent (folder : Z) : string := "SELECT idparent FROM folder WHERE idfolder = " +:+ print_int folder +:+ ";".
Definition query_subfolders (folder : Z) : string := "SELECT idfolder FROM folder WHERE idparent = " +:+ print_int folder +:+ ";".
Definition query_parent_name (folder : Z) : string := "SELECT idparent, foldername FROM folder WHERE idfolder = " +:+ print_int folder +:+ ";".
Definition query_container (container : Z) : string := "SELECT idfolder FROM container WHERE idcontainer = " +:+ print_int container +:+ ";".
Definition query_visible (folder : Z) (name : string) : string :=
  "SELECT idcontainer FROM container WHERE idfolder=" +:+ print_int folder +:+ " AND containername='" +:+ name +:+ "'".
Definition query_unique (folder : Z) (name : string) : string :=
  "SELECT folder.foldername FROM folder WHERE folder.idparent=" +:+ print_int folder +:+ " AND folder.foldername='" +:+ name
  +:+ "' UNION SELECT container.containername FROM container WHERE container.idfolder=" +:+ print_int folder +:+ " AND container.containername='" +:+ name +:+ "'".
Definition query_empty (folder : Z) : string :=
  "SELECT folder.foldername FROM folder WHERE folder.idparent=" +:+ print_int folder
  +:+ " UNION SELECT container.containername FROM container WHERE container.idfolder=" +:+ print_int folder.
Definition query_move (folder : Z) (name : string) (container : Z) : string :=
  "UPDATE container SET container.idfolder=" +:+ print_int folder +:+ ", container.containername='" +:+ name +:+ "' WHERE container.idcontainer="
  +:+ print_int container +:+ ";".

(** The number in the first cell of a row. *)
Definition first_int (row : list cstr) : C Z := c ← deref (row !! 0%nat); s ← deref c; mret (wrap_i32 (strtol s)).

Section db.
Context `{MySQL}.

(** The part the functions that read one row share: the query must fit its buffer, and give one row of [cols] columns. *)
Definition one_row (cols : nat) (query : string) : Z + list cstr :=
  if (MYSQL_BUFLEN <=? String.length query)%nat then inl OPH_ODB_STR_BUFF_OVERFLOW else
  match mysql_query query with
  | None => inl OPH_ODB_MYSQL_ERROR
  | Some res =>
      match rows res with
      | [row] => if negb (field_count res =? cols)%nat then inl OPH_ODB_TOO_MANY_ROWS else inr row
      | _ => inl OPH_ODB_TOO_MANY_ROWS
      end
  end.

(** ** Paths *)

(** One buffer for each token, until an allocation fails. *)
Fixpoint allocate_tokens (n : nat) : C bool :=
  match n with
  | O => mret true
  | S n => b ← malloc; if b : bool then allocate_tokens n else mret false
  end.

(** A token of the path and the tokens before it: without an output path the dots are refused. *)
Definition path_token (output : bool) (l : list string) (t : string) : option (list string) :=
  if bool_decide (t = ".") then if output then Some l else None
  else if bool_decide (t = "..") then
    if output then match l with [] => None | _ => Some (removelast l) end else None
  else Some (l ++ [t]).

Fixpoint path_tokens (output : bool) (l : list string) (ts : list string) : option (list string) :=
  match ts with
  | [] => Some l
  | t :: ts => match path_token output l t with Some l => path_tokens output l ts | None => None end
  end.

(** The text of the output path: each piece is written behind the others in a buffer of [MYSQL_BUFLEN] characters. *)
Definition output_text (l : list string) : C string :=
  let text := foldl (λ acc t, acc +:+ t +:+ "/") "/" l in
  assertC (String.length text <? MYSQL_BUFLEN)%nat;;
  mret text.

(** The identifier of a folder, one query for each name; the query is cut off at the size of its buffer. *)
Fixpoint find_folder (folder_id : Z) (l : list string) : C (Z * Z) :=
  match l with
  | [] => mret (OPH_ODB_SUCCESS, folder_id)
  | name :: l =>
      match mysql_query (truncate MYSQL_BUFLEN (query_child folder_id name)) with
      | None => mret (OPH_ODB_MYSQL_ERROR, folder_id)
      | Some res =>
          match rows res with
          | [row] => id ← first_int row; find_folder id l
          | _ => mret (OPH_ODB_ERROR, folder_id)
          end
      end
  end.

Definition find_root : C (Z * Z) :=
  match mysql_query query_root with
  | None => mret (OPH_ODB_MYSQL_ERROR, 0)
  | Some res =>
      match rows res with
      | [row] => id ← first_int row; mret (OPH_ODB_SUCCESS, id)
      | _ => mret (OPH_ODB_ERROR, 0)
      end
  end.

(** The return code, the identifier ([folder_id] is written only after the root was found) and the output path. *)
Definition oph_odb_fs_path_parsing (inpath cwd : cstr) (folder_id : Z) (output : bool) (oDB : bool) : C (Z * Z * cstr) :=
  match oDB, inpath, cwd with
  | true, Some inpath, Some cwd =>
      if negb connected then mret (OPH_ODB_MYSQL_ERROR, folder_id, None) else
      if negb (strncmp0 cwd "/" 1) then mret (OPH_ODB_ERROR, folder_id, None) else
      let buffer := truncate MYSQL_BUFLEN (if strncmp0 inpath "/" 1 then inpath else cwd +:+ "/" +:+ inpath) in
      if bool_decide (buffer = "//") then mret (OPH_ODB_ERROR, folder_id, None) else
      match strtok "/" buffer with
      | [] => mret (OPH_ODB_ERROR, folder_id, None)
      | ts =>
          b ← malloc;
          if negb b then mret (OPH_ODB_MEMORY_ERROR, folder_id, None) else
          b ← allocate_tokens (length ts);
          if negb b then mret (OPH_ODB_MEMORY_ERROR, folder_id, None) else
          match path_tokens output [] ts with
          | None => mret (OPH_ODB_ERROR, folder_id, None)
          | Some l =>
              b ← (if output then malloc else mret true);
              if negb b then mret (OPH_ODB_MEMORY_ERROR, folder_id, None) else
              out ← (if output then o ← output_text l; mret (Some o) else mret None);
              '(rc, root) ← find_root;
              if negb (rc =? OPH_ODB_SUCCESS) then mret (rc, folder_id, None) else
              '(rc, id) ← find_folder root l;
              mret (rc, id, if rc =? OPH_ODB_SUCCESS then out else None)
          end
      end
  | _, _, _ => mret (OPH_ODB_NULL_PARAM, folder_id, None)
  end.

(** The last component of a path and what is before it. *)
Definition oph_odb_fs_str_last_token (input : cstr) : C (Z * option (string * string)) :=
  match input with
  | None => mret (OPH_ODB_NULL_PARAM, None)
  | Some input =>
      b1 ← malloc;
      if negb b1 then mret (OPH_ODB_MEMORY_ERROR, None) else
      b2 ← malloc;
      if negb b2 then mret (OPH_ODB_MEMORY_ERROR, None) else
      let ts := strtok "/" (truncate MYSQL_BUFLEN input) in
      match last ts with
      | None => mret (OPH_ODB_ERROR, None)
      | Some t =>
          let first := foldl (λ acc t, acc +:+ t +:+ "/") (if strncmp0 input "/" 1 then "/" else "") (removelast ts) in
          assertC (String.length first <? MYSQL_BUFLEN)%nat;;
          mret (OPH_ODB_SUCCESS, Some (first, t))
      end
  end.

(** ** The folders of a session *)

Definition oph_odb_fs_get_session_home_id (sessionid : cstr) (oDB : bool) : C (Z + Z) :=
  match oDB, sessionid with
  | true, Some sessionid =>
      if negb connected then mret (inl OPH_ODB_MYSQL_ERROR) else
      match one_row 1 (query_session sessionid) with
      | inl rc => mret (inl rc)
      | inr row => id ← first_int row; mret (inr id)
      end
  | _, _ => mret (inl OPH_ODB_NULL_PARAM)
  end.

(** The loop [while (!root_flag)] from a folder to the root. *)
Fixpoint parents_loop (fuel : nat) (session_folder_id internal_folder_id : Z) : C (Z * bool) :=
  match fuel with
  | O => out_of_fuel
  | S fuel =>
      match one_row 1 (query_parent internal_folder_id) with
      | inl rc => mret (rc, false)
      | inr row =>
          c ← deref (row !! 0%nat);
          match c with
          | None => mret (OPH_ODB_SUCCESS, false)
          | Some s =>
              let tmp_folder_id := wrap_i32 (strtol s) in
              if tmp_folder_id =? session_folder_id then mret (OPH_ODB_SUCCESS, true)
              else parents_loop fuel session_folder_id tmp_folder_id
          end
      end
  end.

(** The return code and the status. *)
Definition oph_odb_fs_check_folder_session (fuel : nat) (folder_id : Z) (sessionid : cstr) (oDB : bool) : C (Z * bool) :=
  match oDB, sessionid with
  | true, Some sessionid =>
      if folder_id =? 0 then mret (OPH_ODB_NULL_PARAM, false) else
      if negb connected then mret (OPH_ODB_MYSQL_ERROR, false) else
      home ← oph_odb_fs_get_session_home_id (Some sessionid) oDB;
      match home with
      | inl _ => mret (OPH_ODB_MYSQL_ERROR, false)
      | inr session_folder_id =>
          if session_folder_id =? folder_id then mret (OPH_ODB_SUCCESS, true)
          else parents_loop fuel session_folder_id folder_id
      end
  | _, _ => mret (OPH_ODB_NULL_PARAM, false)
  end.

(** The names from a folder to the root, the last one first; a text that is too long is cut off. *)
Fixpoint build_loop (fuel : nat) (internal_folder_id : Z) (path : string) : C (Z + string) :=
  match fuel with
  | O => out_of_fuel
  | S fuel =>
      match one_row 2 (query_parent_name internal_folder_id) with
      | inl rc => mret (inl rc)
      | inr row =>
          c ← deref (row !! 0%nat);
          match c with
          | None => mret (inr path)
          | Some s =>
              n ← deref (row !! 1%nat); n ← deref n;
              build_loop fuel (wrap_i32 (strtol s)) (truncate MYSQL_BUFLEN (n +:+ "/" +:+ path))
          end
      end
  end.

Definition oph_odb_fs_build_path (fuel : nat) (folder_id : Z) (oDB : bool) : C (Z + string) :=
  if negb oDB || (folder_id =? 0) then mret (inl OPH_ODB_NULL_PARAM) else
  if negb connected then mret (inl OPH_ODB_MYSQL_ERROR) else
  r ← build_loop fuel folder_id EmptyString;
  mret (match r with inl rc => inl rc | inr path => inr (truncate MYSQL_BUFLEN (OPH_ODB_FS_ROOT +:+ path)) end).

Definition oph_odb_fs_get_subfolders (folder_id : Z) (oDB : bool) : C (Z + list Z) :=
  if negb oDB || (folder_id =? 0) then mret (inl OPH_ODB_NULL_PARAM) else
  if negb connected then mret (inl OPH_ODB_MYSQL_ERROR) else
  let query := query_subfolders folder_id in
  if (MYSQL_BUFLEN <=? String.length query)%nat then mret (inl OPH_ODB_STR_BUFF_OVERFLOW) else
  match mysql_query query with
  | None => mret (inl OPH_ODB_MYSQL_ERROR)
  | Some res =>
      match rows res with
      | [] => mret (inr [])
      | rs =>
          if negb (field_count res =? 1)%nat then mret (inl OPH_ODB_TOO_MANY_ROWS) else
          b ← malloc;
          if negb b then mret (inl OPH_ODB_MEMORY_ERROR) else
          ids ← mapC first_int rs;
          mret (inr ids)
      end
  end.

(** ** Containers *)

Definition oph_odb_fs_retrive_container_folder_id (container_id : Z) (oDB : bool) : C (Z + Z) :=
  if negb oDB || (container_id =? 0) then mret (inl OPH_ODB_NULL_PARAM) else
  if negb connected then mret (inl OPH_ODB_MYSQL_ERROR) else
  match one_row 1 (query_container container_id) with
  | inl rc => mret (inl rc)
  | inr row => id ← first_int row; mret (inr id)
  end.

(** The three questions whose answer is the number of rows; the query is cut off at the size of its buffer. *)
Definition ask (query : string) (answer : nat → Z + bool) : Z + bool :=
  match mysql_query (truncate MYSQL_BUFLEN query) with
  | None => inl OPH_ODB_MYSQL_ERROR
  | Some res => answer (length (rows res))
  end.

Definition oph_odb_fs_is_visible_container (folder_id : Z) (name : cstr) (oDB : bool) : Z + bool :=
  match oDB, name with
  | true, Some name =>
      if folder_id =? 0 then inl OPH_ODB_NULL_PARAM else
      if negb connected then inl OPH_ODB_MYSQL_ERROR else
      ask (query_visible folder_id name) (λ n, match n with 0%nat => inr false | 1%nat => inr true | _ => inl OPH_ODB_ERROR end)
  | _, _ => inl OPH_ODB_NULL_PARAM
  end.

Definition oph_odb_fs_is_unique (folder_id : Z) (name : cstr) (oDB : bool) : Z + bool :=
  match oDB, name with
  | true, Some name =>
      if folder_id =? 0 then inl OPH_ODB_NULL_PARAM else
      if negb connected then inl OPH_ODB_MYSQL_ERROR else
      ask (query_unique folder_id name) (λ n, inr (n =? 0)%nat)
  | _, _ => inl OPH_ODB_NULL_PARAM
  end.

Definition oph_odb_fs_is_empty_folder (folder_id : Z) (oDB : bool) : Z + bool :=
  if negb oDB || (folder_id =? 0) then inl OPH_ODB_NULL_PARAM else
  if negb connected then inl OPH_ODB_MYSQL_ERROR else
  ask (query_empty folder_id) (λ n, inr (n =? 0)%nat).

Definition oph_odb_fs_update_container_path_name (in_container_id out_folder_id : Z) (out_container_name : cstr) (oDB : bool) : Z :=
  match oDB, out_container_name with
  | true, Some name =>
      if (in_container_id =? 0) || (out_folder_id =? 0) then OPH_ODB_NULL_PARAM else
      if negb connected then OPH_ODB_MYSQL_ERROR else
      let query := query_move out_folder_id name in_container_id in
      if (MYSQL_BUFLEN <=? String.length query)%nat then OPH_ODB_STR_BUFF_OVERFLOW else
      match mysql_query query with None => OPH_ODB_MYSQL_ERROR | Some _ => OPH_ODB_SUCCESS end
  | _, _ => OPH_ODB_NULL_PARAM
  end.

(** The listing of a folder: its subfolders, its containers, or the cubes of these; a name restricts it to one container. *)
Definition query_list (level folder : Z) (name : cstr) : option string :=
  match level, name with
  | 0, _ => Some ("SELECT foldername, idfolder FROM folder WHERE folder.idparent=" +:+ print_int folder +:+ ";")
  | 1, Some n => Some ("SELECT containername AS name, 2 AS type FROM container WHERE container.idfolder=" +:+ print_int folder +:+ " AND containername = '" +:+ n +:+ "';")
  | 1, None => Some ("SELECT foldername AS name, 1 AS type FROM folder WHERE folder.idparent=" +:+ print_int folder
      +:+ " UNION SELECT containername AS name, 2 AS type FROM container WHERE container.idfolder=" +:+ print_int folder +:+ ";")
  | 2, Some n => Some ("SELECT containername AS name, 2 AS type, datacube.idcontainer, iddatacube FROM container LEFT OUTER JOIN datacube ON datacube.idcontainer=container.idcontainer WHERE container.idfolder="
      +:+ print_int folder +:+ " AND containername = '" +:+ n +:+ "';")
  | 2, None => Some ("SELECT foldername AS name, 1 AS type, NULL AS idcontainer, NULL AS iddatacube FROM folder WHERE folder.idparent=" +:+ print_int folder
      +:+ " UNION SELECT containername AS name, 2 AS type, datacube.idcontainer, iddatacube FROM container LEFT OUTER JOIN datacube ON datacube.idcontainer=container.idcontainer WHERE container.idfolder="
      +:+ print_int folder +:+ ";")
  | _, _ => None
  end.

Definition oph_odb_fs_find_fs_objects (level id_folder : Z) (container_name : cstr) (oDB : bool) : Z + result :=
  if negb oDB || (id_folder =? 0) then inl OPH_ODB_NULL_PARAM else
  if negb connected then inl OPH_ODB_MYSQL_ERROR else
  match query_list level id_folder container_name with
  | None => inl OPH_ODB_NULL_PARAM
  | Some query =>
      if (MYSQL_BUFLEN <=? String.length query)%nat then inl OPH_ODB_STR_BUFF_OVERFLOW else
      match mysql_query query with None => inl OPH_ODB_MYSQL_ERROR | Some res => inr res end
  end.

(** ** What the database holds

    A table of folders: the parent, none for the root, and the name of each; the answers of the database are those of
    the table. *)
Record folder_db (T : gmap Z (option Z * string)) : Prop := {
  fd_ids : ∀ f p n, T !! f = Some (p, n) → in_i32 f;
  fd_parent : ∀ f p n, T !! f = Some (p, n) → mysql_query (query_parent f) = Some (Result 1 [[print_int <$> p]]);
  fd_parent_row : ∀ f res row, mysql_query (query_parent f) = Some res → rows res = [row] → ∃ p n, T !! f = Some (p, n) ∧ row = [print_int <$> p];
  fd_parent_name : ∀ f p n, T !! f = Some (p, n) → mysql_query (query_parent_name f) = Some (Result 2 [[print_int <$> p; Some n]]);
  fd_child : ∀ f p n, T !! f = Some (Some p, n) → mysql_query (query_child p n) = Some (Result 1 [[Some (print_int f)]]);
  fd_root : ∀ f n, T !! f = Some (None, n) → mysql_query query_root = Some (Result 1 [[Some (print_int f)]]);
  fd_closed : ∀ f p n, T !! f = Some (Some p, n) → is_Some (T !! p);
  fd_sub : ∀ p res row, mysql_query (query_subfolders p) = Some res → row ∈ rows res → ∃ f n, row = [Some (print_int f)] ∧ T !! f = Some (Some p, n);
}.

Definition below (T : gmap Z (option Z * string)) (f g : Z) : Prop := ∃ n, T !! f = Some (Some g, n).

(** The names from the root to a folder. *)
Inductive path_of (T : gmap Z (option Z * string)) : Z → list string → Prop :=
| path_root f n : T !! f = Some (None, n) → path_of T f []
| path_folder f p n l : T !! f = Some (Some p, n) → path_of T p l → path_of T f (l ++ [n]).

Lemma print_read f : in_i32 f → wrap_i32 (strtol (print_int f)) = f.
Proof. intros Hf. rewrite strtol_print by (unfold in_i32, in_i64 in *; lia). by apply wrap_i32_id. Qed.

Lemma wp_first_int f l Q m : in_i32 f → Q f m → wp (first_int (Some (print_int f) :: l)) Q m.
Proof. intros Hf HQ. unfold first_int. wp_steps. by rewrite print_read. Qed.

Lemma first_int_run f l m : in_i32 f → first_int (Some (print_int f) :: l) m = Ok f m.
Proof. intros Hf. change (Ok (wrap_i32 (strtol (print_int f))) m = Ok f m). by rewrite print_read. Qed.

Lemma short_query f a b : in_i32 f → (String.length a + String.length b < 2000)%nat → (String.length (a +:+ print_int f +:+ b) < MYSQL_BUFLEN)%nat.
Proof. intros Hf Hl. rewrite !length_app_str. pose proof (length_print_int f Hf). unfold MYSQL_BUFLEN. lia. Qed.

Section tree.
Context (T : gmap Z (option Z * string)) (HT : folder_db T).

Lemma parent_row f p n : T !! f = Some (p, n) → one_row 1 (query_parent f) = inr [print_int <$> p].
Proof.
  intros Hf. unfold one_row. rewrite (proj2 (Nat.leb_gt _ _)) by (apply short_query; [by eapply fd_ids|simpl; lia]).
  by rewrite (fd_parent T HT _ _ _ Hf).
Qed.

Lemma parent_name_row f p n : T !! f = Some (p, n) → one_row 2 (query_parent_name f) = inr [print_int <$> p; Some n].
Proof.
  intros Hf. unfold one_row. rewrite (proj2 (Nat.leb_gt _ _)) by (apply short_query; [by eapply fd_ids|simpl; lia]).
  by rewrite (fd_parent_name T HT _ _ _ Hf).
Qed.

Lemma parent_id f p n : T !! f = Some (Some p, n) → in_i32 p.
Proof. intros Hf. destruct (fd_closed T HT _ _ _ Hf) as [[q k] Hp]. by eapply fd_ids. Qed.

(** From a folder up to the root, the home of the session is met exactly when the folder is below it. *)
Lemma wp_parents_loop home f l fuel m :
  path_of T f l → (length l < fuel)%nat →
  wp (parents_loop fuel home f) (λ r _, r.1 = OPH_ODB_SUCCESS ∧ (r.2 = true ↔ tc (below T) f home)) m.
Proof.
  intros Hp. revert fuel m. induction Hp as [f n Hf|f p n l Hf Hp IH]; intros [|fuel] m Hl; try (simpl in Hl; lia); cbn [parents_loop]; rewrite (parent_row _ _ _ Hf).
  - wp_steps. split; [done|]. split; [done|]. intros Ht. inversion Ht as [? ? [? E]|? ? ? [? E]]; subst; congruence.
  - wp_steps. rewrite print_read by (by eapply parent_id). case (Z.eqb_spec p home) as [->|Hne].
    + wp_steps. split; [done|]. split; [intros _; apply tc_once; by exists n|done].
    + rewrite length_app in Hl. simpl in Hl. eapply wp_mono; [apply IH; lia|]. intros r _ [E Hr]. split; [done|]. rewrite Hr. split.
      * intros Ht. eapply tc_l; [by exists n|done].
      * intros Ht. inversion Ht as [? ? [? E']|? y ? [? E'] Ht']; subst; rewrite Hf in E'; injection E' as <- _; done.
Qed.

(** C8: A folder belongs to a session exactly when it is the home of the session or is below it, whatever the depth of
    the tree. *)
Theorem check_folder_session_correct f l home sessionid fuel m :
  connected = true → path_of T f l → (length l < fuel)%nat → f ≠ 0 → in_i32 home →
  (String.length sessionid < 1900)%nat → mysql_query (query_session sessionid) = Some (Result 1 [[Some (print_int home)]]) →
  wp (oph_odb_fs_check_folder_session fuel f (Some sessionid) true) (λ r _, r.1 = OPH_ODB_SUCCESS ∧ (r.2 = true ↔ rtc (below T) f home)) m.
Proof.
  intros Hcon Hp Hl Hf Hh Hs Hq. unfold oph_odb_fs_check_folder_session, oph_odb_fs_get_session_home_id, one_row. rewrite (proj2 (Z.eqb_neq _ _) Hf), Hcon.
  rewrite (proj2 (Nat.leb_gt _ _)) by (unfold query_session, MYSQL_BUFLEN; rewrite !length_app_str; simpl; lia). rewrite Hq. cbn [negb]. wp_step. simpl. wp_step. apply wp_first_int; [done|].
  wp_step. case (Z.eqb_spec home f) as [->|Hne].
  - wp_step. split; [done|]. split; [intros _; apply rtc_refl|done].
  - eapply wp_mono; [by eapply wp_parents_loop|]. intros r _ [E Hr]. split; [done|]. rewrite Hr. split; [apply tc_rtc|]. intros Ht. apply rtc_tc in Ht as [E'|?]; [|done]. by subst.
Qed.

(** Whatever is known of the folder, it is below the home when the answer is yes. *)
Lemma parents_loop_true home f fuel m rc m' : parents_loop fuel home f m = Ok (rc, true) m' → tc (below T) f home.
Proof.
  revert f m. induction fuel as [|fuel IH]; intros f m; [done|]. cbn [parents_loop]. unfold one_row.
  destruct (_ <=? _)%nat; [done|]. destruct (mysql_query (query_parent f)) as [res|] eqn:Eq; [|done]. destruct (rows res) as [|row [|]] eqn:Er; [done| |done].
  destruct (fd_parent_row T HT _ _ _ Eq Er) as (p & n & Hf & ->). destruct (negb _); [done|]. destruct p as [p|]; [|done].
  cbn [fmap option_fmap option_map]. rewrite (bind_run _ _ _ (Some (print_int p)) m) by done. cbv beta iota. rewrite print_read by (by eapply parent_id).
  case (Z.eqb_spec p home) as [->|Hne].
  - intros _. apply tc_once. by exists n.
  - intros Hl%IH. eapply tc_l; [by exists n|done].
Qed.

Lemma session_folder f home sessionid oDB fuel m rc m' :
  in_i32 home → mysql_query (query_session sessionid) = Some (Result 1 [[Some (print_int home)]]) →
  oph_odb_fs_check_folder_session fuel f (Some sessionid) oDB m = Ok (rc, true) m' → rtc (below T) f home.
Proof.
  intros Hh Hq. unfold oph_odb_fs_check_folder_session, oph_odb_fs_get_session_home_id, one_row. destruct oDB; [|done]. destruct (f =? 0); [done|].
  destruct connected; [|done]. cbn [negb]. destruct (_ <=? _)%nat; [done|]. rewrite Hq. cbn [rows field_count Nat.eqb negb].
  rewrite (bind_run _ _ _ (inr home) m) by (by rewrite (bind_run _ _ _ _ _ (first_int_run home [] m Hh))). cbv beta iota.
  case (Z.eqb_spec home f) as [->|Hne]; [intros _; apply rtc_refl|]. intros Hl%parents_loop_true. by apply tc_rtc.
Qed.

Lemma mapC_first_int p rs m ids m' :
  (∀ row, row ∈ rs → ∃ f n, row = [Some (print_int f)] ∧ T !! f = Some (Some p, n)) → mapC first_int rs m = Ok ids m' → Forall (λ f, below T f p) ids.
Proof.
  intros Hrs. revert m ids. induction rs as [|row rs IH]; intros m ids; cbn [mapC]; [intros [= <- _]; constructor|].
  destruct (Hrs row) as (f & n & -> & Hf); [by left|]. rewrite (bind_run _ _ _ _ _ (first_int_run f [] m (fd_ids T HT _ _ _ Hf))).
  destruct (mapC first_int rs m) as [ids' m1| |] eqn:E; unfold mbind, C_bind; rewrite E; [|done..]. intros [= <- ->]. constructor; [by exists n|].
  eapply IH; [|exact E]. intros row Hr. apply Hrs. by right.
Qed.

Lemma subfolders_below p oDB m ids m' : oph_odb_fs_get_subfolders p oDB m = Ok (inr ids) m' → Forall (λ f, below T f p) ids.
Proof.
  unfold oph_odb_fs_get_subfolders. destruct (negb oDB || _); [done|]. destruct (negb connected); [done|]. destruct (_ <=? _)%nat; [done|].
  destruct (mysql_query (query_subfolders p)) as [res|] eqn:Eq; [|done]. pose proof (fd_sub T HT p res) as Hsub. destruct (rows res) as [|row rs]; [intros [= <- _]; constructor|].
  destruct (negb _); [done|]. unfold mbind at 1, C_bind at 1. destruct (malloc m) as [b m1| |]; [|done..]. destruct b; [|done]. cbn [negb].
  unfold mbind at 1, C_bind at 1. destruct (mapC first_int (row :: rs) m1) as [l m2| |] eqn:E; [|done..]. intros [= <- _]. eapply mapC_first_int; [|exact E]. intros r Hr. by eapply Hsub.
Qed.

(** On a cycle of folders that does not meet the home the loop never ends. *)
Lemma cycle_diverges (S : Z → Prop) home f fuel m :
  (∀ f, S f → ∃ g, below T f g ∧ S g ∧ g ≠ home) → S f → parents_loop fuel home f m = OutOfFuel.
Proof.
  intros HS. revert f. induction fuel as [|fuel IH]; intros f Hf; [done|]. destruct (HS f Hf) as (g & [n Hn] & Hg & Hne).
  cbn [parents_loop]. rewrite (parent_row _ _ _ Hn). cbn [deref lookup list_lookup]. rewrite (bind_run _ _ _ (Some (print_int g)) m) by done.
  cbv beta iota. rewrite print_read by (by eapply parent_id). rewrite (proj2 (Z.eqb_neq _ _) Hne). by apply IH.
Qed.

(** ** A path and its folder *)

Definition path_text (l : list string) : string := foldr (λ n acc, n +:+ "/" +:+ acc) "" l.
Definition slash (c : ascii) : bool := has_char c "/".
Definition good_name (n : string) : Prop := n ≠ "" ∧ n ≠ "." ∧ n ≠ ".." ∧ none_of slash n = true.

Lemma path_text_app l1 l2 : path_text (l1 ++ l2) = path_text l1 +:+ path_text l2.
Proof. induction l1 as [|n l1 IH]; [done|]. simpl. by rewrite IH, !app_str_assoc. Qed.

Lemma strtok_path l s : Forall good_name l → strtok "/" (path_text l +:+ s) = l ++ strtok "/" s.
Proof.
  intros Hl. induction Hl as [|n l (Hn & _ & _ & Hs) _ IH]; [done|]. simpl. rewrite app_str_assoc.
  change ("/" +:+ path_text l) with (String "/" (path_text l)). rewrite app_str_cons, strtok_app by done. by rewrite IH.
Qed.

Lemma path_tokens_good output l0 l : Forall good_name l → path_tokens output l0 l = Some (l0 ++ l).
Proof.
  intros Hl. revert l0. induction Hl as [|n l (_ & H1 & H2 & _) _ IH]; intros l0; simpl; [by rewrite app_nil_r|].
  unfold path_token. rewrite (bool_decide_false _ H1), (bool_decide_false _ H2). by rewrite IH, <-app_assoc.
Qed.

Lemma wp_buffers n Q m : reliable m → (∀ m', reliable m' → Q true m') → wp (allocate_tokens n) Q m.
Proof. revert m. induction n as [|n IH]; intros m Hm HQ; cbn [allocate_tokens]; [by apply HQ|]. do 2 wp_step. by apply IH. Qed.

Lemma truncate_short n s : (String.length s < n)%nat → truncate n s = s.
Proof. intros Hs. unfold truncate. apply take_str_ge. lia. Qed.

Lemma wp_build_loop f l acc fuel m :
  path_of T f l → (length l < fuel)%nat → (String.length (path_text l +:+ acc) < MYSQL_BUFLEN)%nat →
  wp (build_loop fuel f acc) (λ r m', m' = m ∧ r = inr (path_text l +:+ acc)) m.
Proof.
  intros Hp. revert fuel acc m. induction Hp as [f n Hf|f p n l Hf Hp IH]; intros [|fuel] acc m Hl Hs; try (simpl in Hl; lia); cbn [build_loop]; rewrite (parent_name_row _ _ _ Hf).
  - by wp_steps.
  - wp_steps. rewrite print_read by (by eapply parent_id). rewrite length_app in Hl. simpl in Hl. rewrite path_text_app, app_str_assoc in Hs |- *. simpl in Hs |- *.
    assert ((n +:+ "/" +:+ "") +:+ acc = n +:+ "/" +:+ acc) as E by by rewrite app_str_assoc.
    rewrite E in Hs |- *. rewrite length_app_str in Hs. rewrite truncate_short by lia. apply IH; [lia|]. by rewrite length_app_str.
Qed.

Lemma find_folder_path r k f l l' m :
  T !! r = Some (None, k) → (∀ r' n', T !! r' = Some (None, n') → r' = r) → path_of T f l → (String.length (path_text l) < 1900)%nat →
  find_folder r (l ++ l') m = find_folder f l' m.
Proof.
  intros Hr Hu Hp. revert l'. induction Hp as [f n Hf|f p n l Hf Hp IH]; intros l' Hs; [by rewrite (Hu _ _ Hf)|].
  rewrite <-app_assoc. simpl. rewrite path_text_app, length_app_str in Hs. simpl in Hs. rewrite length_app_str in Hs. rewrite IH by lia. cbn [find_folder].
  rewrite truncate_short; [|unfold query_child, MYSQL_BUFLEN; rewrite !length_app_str; pose proof (length_print_int p (parent_id _ _ _ Hf)); simpl; lia].
  rewrite (fd_child T HT _ _ _ Hf). cbn [rows]. by rewrite (bind_run _ _ _ _ _ (first_int_run f [] m (fd_ids T HT _ _ _ Hf))).
Qed.

Lemma root_of f l : path_of T f l → ∃ r k, T !! r = Some (None, k).
Proof. induction 1 as [f n Hf|]; eauto. Qed.

(** C40: The path that is built for a folder below the root is parsed to this folder again, relative to any directory. *)
Theorem built_path_parsed f l fuel cwd id0 m :
  connected = true → path_of T f l → l ≠ [] → f ≠ 0 → (length l < fuel)%nat → (String.length (path_text l) < 1900)%nat → Forall good_name l →
  (∀ r n r' n', T !! r = Some (None, n) → T !! r' = Some (None, n') → r' = r) → reliable m →
  wp (oph_odb_fs_build_path fuel f true) (λ r m', ∃ path, r = inr path ∧
    wp (oph_odb_fs_path_parsing (Some path) (Some (String "/" cwd)) id0 false true) (λ x _, x = (OPH_ODB_SUCCESS, f, None)) m') m.
Proof.
  intros Hcon Hp Hl Hf Hfuel Hlen Hgood Hu Hm. assert (String.length (path_text l) < MYSQL_BUFLEN - 1)%nat as Hb by (unfold MYSQL_BUFLEN; lia).
  unfold oph_odb_fs_build_path. rewrite Hcon, (proj2 (Z.eqb_neq _ _) Hf). simpl. wp_step.
  assert (∀ m, reliable m → wp (oph_odb_fs_path_parsing (Some (String "/" (path_text l))) (Some (String "/" cwd)) id0 false true) (λ x _, x = (OPH_ODB_SUCCESS, f, None)) m) as Hparse.
  { clear m Hm. intros m Hm. unfold oph_odb_fs_path_parsing. rewrite Hcon. cbn [negb strncmp0 eqn Ascii.eqb Bool.eqb andb]. rewrite truncate_short by (simpl; lia).
    rewrite bool_decide_false by (intros E; injection E as E; destruct l as [|n l]; [done|]; apply Forall_cons in Hgood as [(H1 & _ & _ & H2) _]; destruct n; [done|]; injection E as -> _; done).
    assert (strtok "/" (String "/" (path_text l)) = l) as Et by (rewrite strtok_skip by done; pose proof (strtok_path l "" Hgood) as E; by rewrite app_str_nil_r, app_nil_r in E).
    rewrite Et. destruct l as [|n l']; [done|]. set (l := n :: l') in *. do 2 wp_step. cbn [negb]. wp_step. apply wp_buffers; [done|]. intros m1 Hm1. cbn [negb].
    rewrite (path_tokens_good _ [] l Hgood). cbn [app negb]. destruct (root_of f l Hp) as (r & k & Hr). unfold find_root. rewrite (fd_root T HT _ _ Hr). cbn [rows].
    do 2 wp_step. cbn [negb]. do 4 wp_step. apply wp_first_int; [by eapply fd_ids|]. wp_step. change (OPH_ODB_SUCCESS =? OPH_ODB_SUCCESS) with true. cbn [negb]. wp_step. unfold wp at 1.
    pose proof (find_folder_path r k f l [] m1 Hr ltac:(by eauto) Hp Hlen) as E. rewrite app_nil_r in E. by rewrite E. }
  eapply wp_mono; [by apply (wp_build_loop f l "" fuel m Hp Hfuel); rewrite app_str_nil_r; lia|]. intros r m' [-> ->]. wp_step.
  exists (String "/" (path_text l)). split; [|by apply Hparse]. change (OPH_ODB_FS_ROOT +:+ ?s) with (String "/" s). by rewrite app_str_nil_r, truncate_short by (simpl; lia).
Qed.

End tree.
End db.

(** ** A small database *)

Definition sample_rows : list (Z * (option Z * string)) := [(1, (None, "")); (2, (Some 1, "abc")); (3, (Some 2, "data")); (4, (Some 1, "other"))]%string.
Definition sample_folders : gmap Z (option Z * string) := list_to_map sample_rows.

Definition id_row (f : Z) : list cstr := [Some (print_int f)].
Definition sample_answers : list (string * result) :=
  (query_root, Result 1 [id_row 1]) :: (query_session "http://x/sessions/abc/experiment", Result 1 [id_row 2]) ::
  (query_subfolders 1, Result 1 [id_row 2; id_row 4]) :: (query_subfolders 2, Result 1 [id_row 3]) ::
  (query_subfolders 3, Result 1 []) :: (query_subfolders 4, Result 1 []) ::
  mjoin ((λ r, (query_parent r.1, Result 1 [[print_int <$> r.2.1]]) :: (query_parent_name r.1, Result 2 [[print_int <$> r.2.1; Some r.2.2]]) ::
    match r.2.1 with Some p => [(query_child p r.2.2, Result 1 [id_row r.1])] | None => [] end) <$> sample_rows).

Fixpoint answer (l : list (string * result)) (q : string) : option result :=
  match l with
  | [] => None
  | (k, r) :: l => if bool_decide (k = q) then Some r else answer l q
  end.

Definition sample_mysql : MySQL := {| mysql_query := answer sample_answers; connected := true |}.

Lemma sample_lookup f x : sample_folders !! f = Some x → (f, x) ∈ sample_rows.
Proof. apply elem_of_list_to_map_2. Qed.

Lemma print_int_inj a b : print_int a = print_int b → a = b.
Proof. unfold print_int. apply (inj pretty). Qed.

Lemma app_str_inj_r a b s : a +:+ s = b +:+ s → a = b.
Proof.
  intros E. pose proof (f_equal String.length E) as El. rewrite !length_app_str in El. assert (String.length a = String.length b) as El' by lia.
  rewrite <-(take_str_app a s), <-(take_str_app b s). by rewrite E, El'.
Qed.

Lemma subfolders_inj a b : query_subfolders a = query_subfolders b → a = b.
Proof.
  unfold query_subfolders. intros E. apply (inj (String.app "SELECT idfolder FROM folder WHERE idparent = ")) in E.
  apply app_str_inj_r in E. by apply print_int_inj.
Qed.

Lemma parent_inj a b : query_parent a = query_parent b → a = b.
Proof.
  unfold query_parent. intros E. apply (inj (String.app "SELECT idparent FROM folder WHERE idfolder = ")) in E.
  apply app_str_inj_r in E. by apply print_int_inj.
Qed.

Lemma answer_listed l q res : answer l q = Some res → (q, res) ∈ l.
Proof.
  induction l as [|[k r] l IH]; simpl; [done|]. case_bool_decide as E; [|by right; apply IH].
  intros [= ->]. subst k. apply elem_of_cons. by left.
Qed.

Lemma sample_db : folder_db (H := sample_mysql) sample_folders.
Proof.
  split; change (@mysql_query sample_mysql) with (answer sample_answers).
  - intros f p n Hf%sample_lookup. repeat (apply elem_of_cons in Hf as [[= -> -> ->]|Hf]; [by unfold in_i32; lia|]). by apply elem_of_nil in Hf.
  - intros f p n Hf%sample_lookup. repeat (apply elem_of_cons in Hf as [[= -> -> ->]|Hf]; [vm_compute; reflexivity|]). by apply elem_of_nil in Hf.
  - intros f res row Hres%answer_listed Hrow. unfold sample_answers, sample_rows in Hres. cbn [mjoin list_join fmap list_fmap app fst snd] in Hres.
    repeat (apply elem_of_cons in Hres as [E|Hres]; [first [discriminate E|apply pair_equal_spec in E as [Eq ->]; apply parent_inj in Eq as ->; cbn [rows] in Hrow;
      injection Hrow as <-; by eexists _, _; split; [vm_compute; reflexivity|reflexivity]]|]).
    by apply elem_of_nil in Hres.
  - intros f p n Hf%sample_lookup. repeat (apply elem_of_cons in Hf as [[= -> -> ->]|Hf]; [vm_compute; reflexivity|]). by apply elem_of_nil in Hf.
  - intros f p n Hf%sample_lookup. repeat (apply elem_of_cons in Hf as [Hf|Hf]; [first [discriminate Hf|injection Hf as -> -> ->; vm_compute; reflexivity]|]). by apply elem_of_nil in Hf.
  - intros f n Hf%sample_lookup. repeat (apply elem_of_cons in Hf as [Hf|Hf]; [first [discriminate Hf|injection Hf as -> ->; vm_compute; reflexivity]|]). by apply elem_of_nil in Hf.
  - intros f p n Hf%sample_lookup. repeat (apply elem_of_cons in Hf as [Hf|Hf]; [first [discriminate Hf|injection Hf as -> -> ->; by eexists; vm_compute]|]). by apply elem_of_nil in Hf.
  - intros p res row Hres%answer_listed Hrow. unfold sample_answers, sample_rows in Hres. cbn [mjoin list_join fmap list_fmap app fst snd] in Hres.
    repeat (apply elem_of_cons in Hres as [E|Hres]; [first [discriminate E|apply pair_equal_spec in E as [Eq ->]; apply subfolders_inj in Eq as ->; cbn [rows] in Hrow;
      repeat (apply elem_of_cons in Hrow as [-> |Hrow]; [by eexists _, _; split; [reflexivity|vm_compute; reflexivity]|]); by apply elem_of_nil in Hrow]|]).
    by apply elem_of_nil in Hres.
Qed.

Lemma sample_path : path_of sample_folders 3 ["abc"; "data"]%string.
Proof. apply (path_folder _ 3 2 "data" ["abc"%string]); [done|]. apply (path_folder _ 2 1 "abc" []); [done|]. by apply (path_root _ 1 ""). Qed.

Lemma check_folder_session_correct_witness :
  wp (oph_odb_fs_check_folder_session (H := sample_mysql) 5 3 (Some "http://x/sessions/abc/experiment") true)
    (λ r _, r.1 = OPH_ODB_SUCCESS ∧ (r.2 = true ↔ rtc (below sample_folders) 3 2)) [].
Proof.
  apply (check_folder_session_correct (H := sample_mysql) sample_folders sample_db 3 ["abc"; "data"]%string); try (simpl; lia); try done.
  apply sample_path.
Defined.

Lemma built_path_parsed_witness :
  wp (oph_odb_fs_build_path (H := sample_mysql) 5 3 true) (λ r m', ∃ path, r = inr path ∧
    wp (oph_odb_fs_path_parsing (H := sample_mysql) (Some path) (Some "/"%string) 0 false true) (λ x _, x = (OPH_ODB_SUCCESS, 3, None)) m') [].
Proof.
  apply (built_path_parsed (H := sample_mysql) sample_folders sample_db 3 ["abc"; "data"]%string 5 ""); try (simpl; lia); try done.
  - apply sample_path.
  - by repeat constructor.
  - intros r n r' n' H1%sample_lookup H2%sample_lookup.
    repeat (apply elem_of_cons in H1 as [H1|H1]; [first [discriminate H1|injection H1 as -> _]|]); try by apply elem_of_nil in H1.
    repeat (apply elem_of_cons in H2 as [H2|H2]; [first [discriminate H2|injection H2 as -> _; reflexivity]|]). by apply elem_of_nil in H2.
  - apply reliable_nil.
Defined.
End OdbFs.
