(* ===== verification/Filters.v ===== *)
(** * Filters of massive operations ([src/src/oph_filters.c])

    A massive operation is applied to the cubes a query of the database selects.  The functions here translate the
    arguments of a filter into the tables and the where clause of that query, with buffers of [OPH_MAX_STRING_SIZE]
    characters; the folders come from [OdbFs], the database is its parameter.  An error leaves nothing behind, since
    the buffers are local to [_oph_filter]. *)

From Stdlib Require Ascii.
From stdpp Require Import base gmap strings numbers pretty list.
From S2P Require Import Prelude CString HashTbl Auth Subset TaskParser OdbFs.
Import (notations) Stdlib.Strings.Ascii.

Module Filters.
Import HashTbl.

#[local] Open Scope Z_scope.

Definition OPH_MAX_STRING_SIZE : nat := 4096.
Definition OPH_FILTER_AND1 : string := " AND ".
Definition OPH_FILTER_AND2 : string := " AND (".
Definition OPH_FILTER_OR : string := " OR ".
Definition OPH_FILTER_TASK : string := "task AS taskp,hasinput AS hasinputp,datacube AS datacubep".
Definition OPH_FILTER_NOT1 (not_clause : bool) : string := if not_clause then "!" else "".
Definition OPH_FILTER_NOT2 (not_clause : bool) : string := if not_clause then "NOT " else "".

(** A step that may fail: [OPH_MF_OK] with a value, or [OPH_MF_ERROR]. *)
Notation MF A := (C (option A)).
Definition good {A} (a : A) : MF A := mret (Some a).
Definition bad {A} : MF A := mret None.
Definition mf_then {A B} (c : MF A) (f : A → MF B) : MF B := r ← c; match r with None => bad | Some a => f a end.
Notation "'let?' x := c 'in' f" := (mf_then c (λ x, f)) (at level 200, x pattern, c at level 100, f at level 200, right associativity).

Fixpoint foldMF {S X} (f : S → X → MF S) (s : S) (l : list X) : MF S :=
  match l with
  | [] => good s
  | x :: l => let? s := f s x in foldMF f s l
  end.

(** The two buffers. *)
Record clauses : Type := Clauses { tables : string; where_clause : string }.
Definition set_tables v (cl : clauses) : clauses := Clauses v (where_clause cl).
Definition set_where v (cl : clauses) : clauses := Clauses (tables cl) v.

(** [if ((s = OPH_MAX_STRING_SIZE - strlen(buf) - 1) <= strlen(x)) return OPH_MF_ERROR; strncat(buf, x, s);] *)
Definition append (buf x : string) : MF string :=
  let s := (OPH_MAX_STRING_SIZE - String.length buf - 1)%nat in
  if (s <=? String.length x)%nat then bad else good (buf +:+ take_str s x).

Definition printed (s : string) : string := truncate OPH_MAX_STRING_SIZE s.

Definition is_empty (s : string) : bool := match s with EmptyString => true | _ => false end.
Definition join_with (sep buf : string) : MF string := if is_empty buf then good buf else append buf sep.
Definition open_paren (buf : string) : MF string := if is_empty buf then good "(" else append buf OPH_FILTER_AND2.
Definition close_paren (buf : string) : MF string := append buf ")".

(** [!value || !strlen(value)] *)
Definition given (value : cstr) : cstr := match value with Some EmptyString => None | _ => value end.

Definition multiple_values (value : cstr) : MF (list string) :=
  '(rc, l, n) ← TaskParser.oph_tp_parse_multiple_value_param value;
  if negb (rc =? 0) || (n =? 0)%nat then bad else
  l ← deref l; good l.

(** The loops over values: the [i]-th condition after a connective, except for the first. *)
Fixpoint chain {X} (connective : string) (condition : nat → X → string) (i : nat) (l : list X) (buf : string) : MF string :=
  match l with
  | [] => good buf
  | x :: l =>
      let? buf := (if (i =? 0)%nat then good buf else append buf connective) in
      let? buf := append buf (printed (condition i x)) in
      chain connective condition (S i) l buf
  end.

Definition either (not_clause : bool) : string := if not_clause then OPH_FILTER_AND1 else OPH_FILTER_OR.
Definition every (not_clause : bool) : string := if not_clause then OPH_FILTER_OR else OPH_FILTER_AND1.

(** ** The filters *)

Definition level_condition (not_clause : bool) (_ : nat) (key : string) : string :=
  "datacube.level" +:+ OPH_FILTER_NOT1 not_clause +:+ "='" +:+ print_int (wrap_i32 (strtol key)) +:+ "'".

Definition oph_filter_level (value : cstr) (cl : clauses) (not_clause : bool) : MF clauses :=
  match given value with
  | None => good cl
  | Some value =>
      let? keys := multiple_values (Some value) in
      let? w := open_paren (where_clause cl) in
      let? w := chain (either not_clause) (level_condition not_clause) 0 keys w in
      let? w := close_paren w in
      good (set_where w cl)
  end.

Definition measure_condition (not_clause : bool) (value : string) : string := "datacube.measure" +:+ OPH_FILTER_NOT1 not_clause +:+ "='" +:+ value +:+ "'".

(** One condition behind the others. *)
Definition add_condition (condition : string) (cl : clauses) : MF clauses :=
  let? w := join_with OPH_FILTER_AND1 (where_clause cl) in
  let? w := append w (printed condition) in
  good (set_where w cl).

Definition oph_filter_measure (value : cstr) (cl : clauses) (not_clause : bool) : MF clauses :=
  match given value with
  | None => good cl
  | Some value => add_condition (measure_condition not_clause value) cl
  end.

(** What follows the address of the web server and a slash in an identifier. *)
Definition identifier (oph_web_server : cstr) (value : string) : MF string :=
  ws ← deref oph_web_server;
  if negb (strncasecmp0 value ws (String.length ws)) then bad else
  match String.substring (String.length ws) (String.length value - String.length ws) value with
  | String c pointer => if Ascii.eqb c "/" then good pointer else bad
  | EmptyString => bad
  end.

Definition parent_condition (not_clause : bool) (idparent idcontainer : Z) : string :=
  "datacube.iddatacube=taskp.idoutputcube AND taskp.idtask=hasinputp.idtask AND hasinputp.iddatacube=datacubep.iddatacube AND datacubep.iddatacube"
  +:+ OPH_FILTER_NOT1 not_clause +:+ "='" +:+ print_int idparent +:+ "' AND datacubep.idcontainer='" +:+ print_int idcontainer +:+ "'".

Definition oph_filter_parent (oph_web_server value : cstr) (cl : clauses) (not_clause : bool) : MF clauses :=
  match given value with
  | None => good cl
  | Some value =>
      let? pointer1 := identifier oph_web_server value in
      assertC (String.length pointer1 <? OPH_MAX_STRING_SIZE)%nat;;
      match strtok "/" pointer1 with
      | _ :: pointer2 :: _ =>
          let idcontainer := wrap_i32 (strtol pointer1) in
          let idparent := wrap_i32 (strtol pointer2) in
          let? t := join_with "," (tables cl) in
          let? t := append t OPH_FILTER_TASK in
          add_condition (parent_condition not_clause idparent idcontainer) (set_tables t cl)
      | _ => bad
      end
  end.

Definition subset_condition (not_clause : bool) (start stride end_ : Z) : string :=
  OPH_FILTER_NOT2 not_clause +:+ "mysql.oph_is_in_subset(datacube.iddatacube," +:+ print_int start +:+ "," +:+ print_int (wrap_i64 stride) +:+ ","
  +:+ print_int end_ +:+ ")".

(** The loop over the index sets, in the buffer [condition]. *)
Fixpoint subset_chain (not_clause : bool) (s : Subset.oph_subset) (l : list nat) (condition : string) : MF string :=
  match l with
  | [] => good condition
  | i :: l =>
      let? condition := (if (i =? 0)%nat then good condition else append condition (either not_clause)) in
      st ← Subset.value (Subset.start s) i; sr ← Subset.value (Subset.stride s) i; e ← Subset.value (Subset.end_ s) i;
      let? condition := append condition (printed (subset_condition not_clause st sr e)) in
      subset_chain not_clause s l condition
  end.

(** The structure of [oph_subset_init], whose fields are indeterminate. *)
Definition blank_subset : Subset.oph_subset := Subset.mk_oph_subset None None None None None 0 0.

(** When there is no index set, the arrays were never set, and their release is undefined. *)
Definition free_failed (s : option Subset.oph_subset) : MF clauses :=
  match s with
  | Some s => if Subset.number s =? 0 then undef else bad
  | None => bad
  end.

Definition oph_filter_using_subset (value : cstr) (cl : clauses) (not_clause : bool) : MF clauses :=
  match given value with
  | None => good cl
  | Some value =>
      let? w := open_paren (where_clause cl) in
      let text := string_map (λ c, if Ascii.eqb c "|" then ","%char else c) value in
      rc ← Subset.oph_subset_init true;
      if negb (rc =? 0) then bad else
      '(rc, s) ← Subset.oph_subset_parse (Some text) (String.length value) (Some blank_subset) 0;
      if negb (rc =? 0) then free_failed s else
      s ← deref s;
      let? condition := subset_chain not_clause s (seq 0 (Z.to_nat (Subset.number s))) "" in
      let? w := append w condition in
      let? w := close_paren w in
      good (set_where w cl)
  end.

Definition container_condition (not_clause : bool) (value : string) : string :=
  "container.containername" +:+ OPH_FILTER_NOT1 not_clause +:+ "='" +:+ value +:+ "'".

Definition oph_filter_container (value : cstr) (cl : clauses) (not_clause : bool) : MF clauses :=
  match given value with
  | None => good cl
  | Some value => add_condition (container_condition not_clause value) cl
  end.

Definition pid_condition (not_clause : bool) (idcontainer : Z) : string :=
  "datacube.idcontainer" +:+ OPH_FILTER_NOT1 not_clause +:+ "='" +:+ print_int idcontainer +:+ "'".

Definition oph_filter_container_pid (oph_web_server value : cstr) (cl : clauses) (not_clause : bool) : MF clauses :=
  match given value with
  | None => good cl
  | Some value =>
      let? pointer := identifier oph_web_server value in
      add_condition (pid_condition not_clause (wrap_i32 (strtol pointer))) cl
  end.

(** ** Metadata *)

(** The loop over metadata: a table and a condition for each value. *)
Fixpoint metadata_chain {X} (connective : string) (table : nat → string) (condition : nat → X → string) (i : nat) (l : list X) (cl : clauses) : MF clauses :=
  match l with
  | [] => good cl
  | x :: l =>
      let? t := (if (i =? 0)%nat then good (tables cl) else append (tables cl) ",") in
      let? t := append t (printed (table i)) in
      let? w := (if (i =? 0)%nat then good (where_clause cl) else append (where_clause cl) connective) in
      let? w := append w (printed (condition i x)) in
      metadata_chain connective table condition (S i) l (Clauses t w)
  end.

Definition metadata_filter {X} (connective : string) (table : nat → string) (condition : nat → X → string) (l : list X) (cl : clauses) : MF clauses :=
  let? t := join_with "," (tables cl) in
  let? w := join_with OPH_FILTER_AND1 (where_clause cl) in
  metadata_chain connective table condition 0 l (Clauses t w).

Definition print_nat (i : nat) : string := print_int (Z.of_nat i).
Definition key_table (i : nat) : string := "metadatainstance AS metadatainstance" +:+ print_nat i.
Definition key_condition (not_clause : bool) (i : nat) (key : string) : string :=
  "metadatainstance" +:+ print_nat i +:+ ".iddatacube=datacube.iddatacube AND metadatainstance" +:+ print_nat i +:+ ".label"
  +:+ OPH_FILTER_NOT1 not_clause +:+ "='" +:+ key +:+ "'".

Definition oph_filter_metadata_key (value : cstr) (cl : clauses) (not_clause : bool) : MF clauses :=
  match given value with
  | None => good cl
  | Some value =>
      let? keys := multiple_values (Some value) in
      metadata_filter (every not_clause) key_table (key_condition not_clause) keys cl
  end.

Definition instance (prefix i : nat) : string := "metadatainstance" +:+ print_nat prefix +:+ "k" +:+ print_nat i.
Definition value_table (prefix i : nat) : string := "metadatainstance AS " +:+ instance prefix i.
Definition value_condition (not_clause : bool) (prefix i : nat) (kv : string * string) : string :=
  instance prefix i +:+ ".iddatacube=datacube.iddatacube AND " +:+ instance prefix i +:+ ".label='" +:+ kv.1 +:+ "' AND CONVERT("
  +:+ instance prefix i +:+ ".value USING latin1) " +:+ OPH_FILTER_NOT2 not_clause +:+ "LIKE '%" +:+ kv.2 +:+ "%'".

Definition _oph_filter_metadata_value (key value : cstr) (cl : clauses) (prefix : nat) (not_clause : bool) : MF clauses :=
  match given value with
  | None => good cl
  | Some value =>
      let? keys := multiple_values key in
      let? values := multiple_values (Some value) in
      if negb (length keys =? length values)%nat then bad else
      metadata_filter (every not_clause) (value_table prefix) (value_condition not_clause prefix) (zip keys values) cl
  end.

Definition oph_filter_metadata_value (key value : cstr) (cl : clauses) (not_clause : bool) : MF clauses :=
  _oph_filter_metadata_value key value cl 0 not_clause.

(** Every entry of a table is a key and a value. *)
Definition oph_filter_free_kvp (task_tbl : HASHTBL string) (cl : clauses) (not_clause : bool) : MF clauses :=
  foldMF (λ cl jn, _oph_filter_metadata_value (Some (key jn.2)) (Some (data jn.2)) cl jn.1 not_clause) cl
    (zip (seq 1 (length (concat (nodes task_tbl)))) (concat (nodes task_tbl))).

(** ** Folders *)

Section db.
Context `{OdbFs.MySQL}.

Definition folder_condition (not_clause : bool) (folder_id : Z) : string :=
  "container.idfolder" +:+ OPH_FILTER_NOT1 not_clause +:+ "='" +:+ print_int folder_id +:+ "'".

(** A folder and its subfolders: a positive [recursive_flag] has no limit, a negative one is the depth left. *)
Fixpoint oph_add_folder (fuel : nat) (oDB : bool) (not_clause : bool) (recursive_flag : Z) (st : Z * string) (folder_id : Z) : MF (Z * string) :=
  match fuel with
  | O => out_of_fuel
  | S fuel =>
      let '(counter, w) := st in
      let? w := (if counter =? 0 then good w else append w (either not_clause)) in
      let? w := append w (printed (folder_condition not_clause folder_id)) in
      let counter := counter + 1 in
      let recursive_flag := if recursive_flag <? 0 then recursive_flag + 1 else recursive_flag in
      if recursive_flag =? 0 then good (counter, w) else
      subs ← OdbFs.oph_odb_fs_get_subfolders folder_id oDB;
      match subs with
      | inl _ => bad
      | inr ids => foldMF (oph_add_folder fuel oDB not_clause recursive_flag) (counter, w) ids
      end
  end.

(** The flag of the recursion: [yes] with a positive depth is a negative number. *)
Definition recursion (recursive depth : cstr) : Z :=
  match recursive with
  | Some r =>
      if bool_decide (r = "yes") then
        match depth with
        | Some d => let rdepth := wrap_i32 (strtol d) in if 0 <? rdepth then - rdepth else 1
        | None => 1
        end
      else 0
  | None => 0
  end.

(** [fuel] bounds the folders above and below the path. *)
Definition oph_filter_path (fuel : nat) (path recursive depth : cstr) (sessionid : cstr) (oDB : bool) (cl : clauses) (not_clause : bool) : MF clauses :=
  match given path with
  | None => good cl
  | Some path =>
      let recursive_flag := recursion recursive depth in
      '(rc, folder_id, _) ← OdbFs.oph_odb_fs_path_parsing (Some EmptyString) (Some path) 0 false oDB;
      if negb (rc =? 0) then bad else
      '(rc, permission) ← OdbFs.oph_odb_fs_check_folder_session fuel folder_id sessionid oDB;
      if negb (rc =? 0) || negb permission then bad else
      let? w := open_paren (where_clause cl) in
      let? (_, w) := oph_add_folder fuel oDB not_clause recursive_flag (0, w) folder_id in
      let? w := close_paren w in
      good (set_where w cl)
  end.

(** ** The query *)

(** [strncat(s, t, OPH_MAX_STRING_SIZE - strlen(s))] writes the terminator behind the buffer when it is full. *)
Definition strncat_path (s t : string) : C string :=
  let r := s +:+ take_str (OPH_MAX_STRING_SIZE - String.length s) t in
  assertC (String.length r <? OPH_MAX_STRING_SIZE)%nat;;
  mret r.

Fixpoint skip_path_blanks (s : string) : string :=
  match s with
  | String c s' => if Ascii.eqb c " " then skip_path_blanks s' else s
  | EmptyString => EmptyString
  end.
Definition absolute (s : string) : bool := strncmp0 (skip_path_blanks s) "/" 1.

(** The last character that is no blank is a slash. *)
Fixpoint ends_in_slash (b : bool) (s : string) : bool :=
  match s with
  | EmptyString => b
  | String c s' => ends_in_slash (if Ascii.eqb c " " then b else Ascii.eqb c "/") s'
  end.

(** A path behind the folder of the session, and behind the working directory if it is relative. *)
Definition extend_path (ext : string) (cwd : cstr) (path : string) : C string :=
  if absolute path then strncat_path ext path
  else
    cwd ← deref cwd;
    ext ← strncat_path ext cwd;
    ext ← (if ends_in_slash false ext then mret ext else strncat_path ext "/");
    strncat_path ext path.

Definition argument (task_tbl : option (HASHTBL string)) (k : string) : C cstr :=
  match task_tbl with None => mret None | Some t => hashtbl_get t k end.

(** The metadata arguments that are not negated. *)
Definition positive_metadata (task_tbl : option (HASHTBL string)) (cl : clauses) : MF clauses :=
  metadata_key ← argument task_tbl "metadata_key";
  metadata_value ← argument task_tbl "metadata_value";
  match given metadata_key, given metadata_value with
  | Some k, Some v => oph_filter_metadata_value (Some k) (Some v) cl false
  | Some k, None =>
      metadata_value ← argument task_tbl "metadata_value!";
      match given metadata_value with
      | Some v => oph_filter_metadata_value (Some k) (Some v) cl true
      | None => oph_filter_metadata_key (Some k) cl false
      end
  | None, Some _ => bad
  | None, None => good cl
  end.

Definition negative_metadata (task_tbl : option (HASHTBL string)) (cl : clauses) : MF clauses :=
  metadata_key ← argument task_tbl "metadata_key!";
  metadata_value ← argument task_tbl "metadata_value";
  metadata_value_n ← argument task_tbl "metadata_value!";
  match given metadata_key with
  | Some k =>
      match metadata_value, metadata_value_n with
      | None, None => oph_filter_metadata_key (Some k) cl true
      | _, _ => bad
      end
  | None => match given metadata_value_n with Some _ => bad | None => good cl end
  end.

(** The filters without a folder; the container is given by its name or its identifier. *)
Definition plain_filters (oph_web_server : cstr) (task_tbl : option (HASHTBL string)) (container : cstr) (not_clause : bool) (cl : clauses) : MF clauses :=
  let arg k := argument task_tbl (k +:+ OPH_FILTER_NOT1 not_clause) in
  value ← arg "level"; let? cl := oph_filter_level value cl not_clause in
  value ← arg "measure"; let? cl := oph_filter_measure value cl not_clause in
  value ← arg "parent_cube"; let? cl := oph_filter_parent oph_web_server value cl not_clause in
  value ← arg "cube_filter"; let? cl := oph_filter_using_subset value cl not_clause in
  match given container with
  | Some c => oph_filter_container (Some c) cl not_clause
  | None => value ← arg "container_pid"; oph_filter_container_pid oph_web_server value cl not_clause
  end.

Definition first_clauses : clauses := Clauses "datacube,container" "datacube.idcontainer=container.idcontainer".

Definition query_text (cl : clauses) : string :=
  printed (if is_empty (where_clause cl) then "SELECT datacube.iddatacube, datacube.idcontainer FROM " +:+ tables cl
           else "SELECT DISTINCT datacube.iddatacube, datacube.idcontainer FROM " +:+ tables cl +:+ " WHERE " +:+ where_clause cl).

(** The tables and the where clause. *)
Definition filter_clauses (fuel : nat) (oph_web_server : cstr) (task_tbl : option (HASHTBL string)) (cwd : cstr) (sessionid : string) (oDB : bool) : MF clauses :=
  container ← argument task_tbl "container";
  container_n ← argument task_tbl "container!";
  path ← (match task_tbl with None => mret cwd | Some _ => argument task_tbl "path" end);
  path_n ← argument task_tbl "path!";
  '(rc, code) ← Auth.oph_get_session_code oph_web_server sessionid;
  if negb (rc =? 0) then bad else
  code ← deref code;
  let session_path := String "/" code in
  ext_path ← (match given path with
              | Some p => extend_path session_path cwd p
              | None => cwd ← deref cwd; strncat_path session_path cwd
              end);
  ext_path_n ← (match given path_n with Some p => extend_path session_path cwd p | None => mret EmptyString end);
  match task_tbl with
  | None => oph_filter_path fuel (Some ext_path) (Some "no"%string) None (Some sessionid) oDB first_clauses false
  | Some _ =>
      let? cl := plain_filters oph_web_server task_tbl container false first_clauses in
      let? cl := positive_metadata task_tbl cl in
      recursive ← argument task_tbl "recursive";
      depth ← argument task_tbl "depth";
      let? cl := oph_filter_path fuel (Some ext_path) recursive depth (Some sessionid) oDB cl false in
      let? cl := plain_filters oph_web_server task_tbl container_n true cl in
      let? cl := negative_metadata task_tbl cl in
      match given path_n with
      | Some _ => oph_filter_path fuel (Some ext_path_n) recursive depth (Some sessionid) oDB cl true
      | None => good cl
      end
  end.

(** [query] is never a null pointer. *)
Definition _oph_filter (fuel : nat) (oph_web_server : cstr) (task_tbl : option (HASHTBL string)) (cwd sessionid : cstr) (oDB : bool) : MF string :=
  match sessionid with
  | None => bad
  | Some sessionid =>
      let? cl := filter_clauses fuel oph_web_server task_tbl cwd sessionid oDB in
      good (query_text cl)
  end.

(** The variants differ in the lock. *)
Definition oph_filter := _oph_filter.
Definition oph_filter_unsafe := _oph_filter.
End db.
End Filters.
