(* ===== verification/FilterScope.v ===== *)
(** * What a filter selects

    The where clause that [Filters] builds is read as SQL reads it: words between blanks outside of quotes and
    parentheses, [AND] before [OR].  With values that hold no quote, every row that the query of a filter selects, as
    long as the query was not cut off, is in a folder of the session; the exceptions are stated as such. *)

From Stdlib Require Ascii.
From stdpp Require Import base gmap strings numbers pretty list.
From S2P Require Import Prelude CString HashTbl Auth Subset TaskParser OdbFs Filters.
Import (notations) Stdlib.Strings.Ascii.

Module FilterScope.
Import HashTbl Filters.

#[local] Open Scope Z_scope.

(** ** Results of a step that may fail *)

Definition delivers {A} (c : C A) (P : A → Prop) : Prop := ∀ m a m', c m = Ok a m' → P a.
Definition ensures {A} (c : MF A) (P : A → Prop) : Prop := delivers c (λ r, match r with Some a => P a | None => True end).

Lemma delivers_bind {A B} (c : C A) (f : A → C B) (Q : A → Prop) (P : B → Prop) : delivers c Q → (∀ a, Q a → delivers (f a) P) → delivers (c ≫= f) P.
Proof. intros Hc Hf m b m'. unfold mbind, C_bind. destruct (c m) as [a m1| |] eqn:E; [|done..]. intros Hb. eapply Hf; [by eapply Hc|done]. Qed.
Lemma delivers_any {A} (c : C A) : delivers c (λ _, True).
Proof. by intros ???. Qed.
Lemma delivers_bind_any {A B} (c : C A) (f : A → C B) (P : B → Prop) : (∀ a, delivers (f a) P) → delivers (c ≫= f) P.
Proof. intros Hf. eapply delivers_bind; [apply delivers_any|auto]. Qed.
Lemma delivers_ret {A} (a : A) (P : A → Prop) : P a → delivers (mret a) P.
Proof. intros HP m b m' [= <- _]. done. Qed.
Lemma delivers_deref {A} (o : option A) (P : A → Prop) : (∀ a, o = Some a → P a) → delivers (deref o) P.
Proof. intros HP m b m'. destruct o; [|done]. intros [= <- _]. by apply HP. Qed.
Lemma delivers_undef {A} (P : A → Prop) : delivers undef P.
Proof. by intros ???. Qed.
Lemma delivers_fuel {A} (P : A → Prop) : delivers out_of_fuel P.
Proof. by intros ???. Qed.
Lemma delivers_assert b : delivers (assertC b) (λ _, b = true).
Proof. intros m a m'. by destruct b. Qed.
Lemma delivers_mono {A} (c : C A) (Q P : A → Prop) : delivers c Q → (∀ a, Q a → P a) → delivers c P.
Proof. intros Hc HP m a m' E. by eapply HP, Hc. Qed.

Lemma ensures_good {A} (a : A) (P : A → Prop) : P a → ensures (good a) P.
Proof. intros HP. by apply delivers_ret. Qed.
Lemma ensures_bad {A} (P : A → Prop) : ensures bad P.
Proof. by apply delivers_ret. Qed.
Lemma ensures_then {A B} (c : MF A) (f : A → MF B) (Q : A → Prop) (P : B → Prop) : ensures c Q → (∀ a, Q a → ensures (f a) P) → ensures (mf_then c f) P.
Proof. intros Hc Hf. eapply delivers_bind; [exact Hc|]. intros [a|] Ha; [by apply Hf|apply ensures_bad]. Qed.
Lemma ensures_mono {A} (c : MF A) (Q P : A → Prop) : ensures c Q → (∀ a, Q a → P a) → ensures c P.
Proof. intros Hc HP. eapply delivers_mono; [exact Hc|]. intros [a|]; [apply HP|done]. Qed.

Lemma ensures_any {A} (c : MF A) : ensures c (λ _, True).
Proof. apply (delivers_mono _ _ _ (delivers_any _)). by intros []. Qed.

Lemma ensures_fold {S X} (f : S → X → MF S) (l : list X) (P : S → Prop) s :
  P s → (∀ x s, x ∈ l → P s → ensures (f s x) P) → ensures (foldMF f s l) P.
Proof.
  revert s. induction l as [|x l IH]; intros s HP Hf; [by apply ensures_good|]. cbn [foldMF]. eapply ensures_then; [apply Hf; [left|done]|].
  intros s' HP'. apply IH; [done|]. intros y s2 Hy. apply Hf. by right.
Qed.

Ltac ens :=
  repeat lazymatch goal with
  | |- ensures (good _) _ => apply ensures_good
  | |- ensures bad _ => apply ensures_bad
  | |- ensures undef _ => apply delivers_undef
  | |- ensures out_of_fuel _ => apply delivers_fuel
  | |- ensures (let '(_, _) := ?x in _) _ => destruct x
  | |- ensures (if ?b then _ else _) _ => destruct b eqn:?
  end.

(** ** The texts that are appended *)

Lemma ensures_append buf x : ensures (append buf x) (λ r, r = buf +:+ x ∧ (String.length x < 4095)%nat).
Proof.
  unfold append. destruct (Nat.leb_spec (OPH_MAX_STRING_SIZE - String.length buf - 1) (String.length x)); [apply ensures_bad|]. apply ensures_good.
  unfold OPH_MAX_STRING_SIZE in *. rewrite take_str_ge by lia. split; [done|lia].
Qed.

(** A condition that was cut off does not fit any more. *)
Lemma ensures_append_printed buf x : ensures (append buf (printed x)) (λ r, r = buf +:+ x).
Proof.
  eapply ensures_mono; [apply ensures_append|]. intros r [-> Hl]. unfold printed, truncate, OPH_MAX_STRING_SIZE in *. rewrite length_take_str in Hl. by rewrite take_str_ge by lia.
Qed.

Fixpoint more (sep : string) (l : list string) : string := match l with [] => "" | x :: l => sep +:+ x +:+ more sep l end.
Definition joined (sep : string) (l : list string) : string := match l with [] => "" | x :: l => x +:+ more sep l end.

Lemma more_app sep l1 l2 : more sep (l1 ++ l2) = more sep l1 +:+ more sep l2.
Proof. induction l1 as [|x l1 IH]; [done|]. simpl. by rewrite IH, !app_str_assoc. Qed.
Lemma joined_snoc sep l x : joined sep (l ++ [x]) = joined sep l +:+ (if decide (l = []) then x else sep +:+ x).
Proof.
  destruct l as [|y l]; simpl; [by rewrite app_str_nil, app_str_nil_r|]. rewrite more_app. simpl. by rewrite app_str_nil_r, !app_str_assoc.
Qed.

(** The conditions of a list, numbered. *)
Fixpoint numbered {X} (condition : nat → X → string) (i : nat) (l : list X) : list string :=
  match l with [] => [] | x :: l => condition i x :: numbered condition (S i) l end.

Lemma numbered_snoc {X} (condition : nat → X → string) i l x : numbered condition i (l ++ [x]) = numbered condition i l ++ [condition (i + length l)%nat x].
Proof. revert i. induction l as [|y l IH]; intros i; simpl; [by rewrite Nat.add_0_r|]. by rewrite IH, <-plus_n_Sm. Qed.

Lemma chain_more {X} sep (condition : nat → X → string) i l buf : ensures (chain sep condition (S i) l buf) (λ r, r = buf +:+ more sep (numbered condition (S i) l)).
Proof.
  revert i buf. induction l as [|x l IH]; intros i buf; cbn [chain numbered more]; [apply ensures_good; by rewrite app_str_nil_r|]. cbn [Nat.eqb].
  eapply ensures_then; [apply ensures_append|]. intros b [-> _]. eapply ensures_then; [apply ensures_append_printed|]. intros b ->.
  eapply ensures_mono; [apply IH|]. intros r ->. by rewrite !app_str_assoc.
Qed.

Lemma chain_joined {X} sep (condition : nat → X → string) l buf : ensures (chain sep condition 0 l buf) (λ r, r = buf +:+ joined sep (numbered condition 0 l)).
Proof.
  destruct l as [|x l]; cbn [chain numbered joined]; [apply ensures_good; by rewrite app_str_nil_r|]. cbn [Nat.eqb].
  eapply ensures_then; [by apply (ensures_good _ (λ b, b = buf))|]. intros b ->. eapply ensures_then; [apply ensures_append_printed|]. intros b ->.
  eapply ensures_mono; [apply chain_more|]. intros r ->. by rewrite !app_str_assoc.
Qed.

Lemma metadata_more {X} sep table (condition : nat → X → string) i l cl :
  ensures (metadata_chain sep table condition (S i) l cl) (λ r, where_clause r = where_clause cl +:+ more sep (numbered condition (S i) l)).
Proof.
  revert i cl. induction l as [|x l IH]; intros i cl; cbn [metadata_chain numbered more]; [apply ensures_good; by rewrite app_str_nil_r|]. cbn [Nat.eqb].
  eapply ensures_then; [apply ensures_append|]. intros t _. eapply ensures_then; [apply ensures_append|]. intros t' _.
  eapply ensures_then; [apply ensures_append|]. intros b [-> _]. eapply ensures_then; [apply ensures_append_printed|]. intros b ->.
  eapply ensures_mono; [apply IH|]. intros r ->. simpl. by rewrite !app_str_assoc.
Qed.

Lemma metadata_joined {X} sep table (condition : nat → X → string) l cl :
  ensures (metadata_chain sep table condition 0 l cl) (λ r, where_clause r = where_clause cl +:+ joined sep (numbered condition 0 l)).
Proof.
  destruct l as [|x l]; cbn [metadata_chain numbered joined]; [apply ensures_good; by rewrite app_str_nil_r|]. cbn [Nat.eqb].
  eapply ensures_then; [by apply (ensures_good _ (λ _, True))|]. intros t _. eapply ensures_then; [apply ensures_append|]. intros t' _.
  eapply ensures_then; [by apply (ensures_good _ (λ b, b = where_clause cl))|]. intros b ->. eapply ensures_then; [apply ensures_append_printed|]. intros b ->.
  eapply ensures_mono; [apply metadata_more|]. intros r ->. simpl. by rewrite !app_str_assoc.
Qed.

(** ** Reading a condition

    The words of a condition are separated by blanks outside of quotes and parentheses; [AND] binds before [OR]; a word in
    parentheses is a condition again, and anything else is a comparison, whose truth for a row is [v]. *)
Inductive quoting : Type := Plain | Quoted | Escaped.

Definition step (st : nat * quoting) (c : ascii) : nat * quoting :=
  let '(d, q) := st in
  match q with
  | Plain =>
      if Ascii.eqb c "'" then (d, Quoted)
      else if Ascii.eqb c "(" then (S d, Plain)
      else if Ascii.eqb c ")" then (pred d, Plain)
      else (d, Plain)
  | Quoted => if Ascii.eqb c "'" then (d, Plain) else if Ascii.eqb c "\" then (d, Escaped) else (d, Quoted)
  | Escaped => (d, Quoted)
  end.

Fixpoint steps (st : nat * quoting) (s : string) : nat * quoting :=
  match s with EmptyString => st | String c s => steps (step st c) s end.

Definition top (st : nat * quoting) : bool := match st with (O, Plain) => true | _ => false end.
Definition cons_word (c : ascii) (l : list string) : list string := match l with [] => [String c ""] | w :: ws => String c w :: ws end.

Fixpoint words (st : nat * quoting) (s : string) : list string :=
  match s with
  | EmptyString => [EmptyString]
  | String c s => if top st && Ascii.eqb c " " then EmptyString :: words st s else cons_word c (words (step st c) s)
  end.

(** The parts of a list between the occurrences of a word. *)
Fixpoint split_at (k : string) (l : list string) : list (list string) :=
  match l with
  | [] => [[]]
  | w :: l => if bool_decide (w = k) then [] :: split_at k l else match split_at k l with [] => [[w]] | p :: ps => (w :: p) :: ps end
  end.

Fixpoint without_last (s : string) : option (string * ascii) :=
  match s with
  | EmptyString => None
  | String c s => match without_last s with None => Some (EmptyString, c) | Some (t, e) => Some (String c t, e) end
  end.

(** What is between the parentheses of a word. *)
Definition inside (w : string) : option string :=
  match w with
  | String c s => if Ascii.eqb c "(" then match without_last s with Some (t, e) => if Ascii.eqb e ")" then Some t else None | None => None end else None
  | EmptyString => None
  end.

Fixpoint selected (n : nat) (v : list string → bool) (w : string) : bool :=
  match n with
  | O => false
  | S n =>
      existsb (λ d, forallb (λ c, match c with
                                  | [x] => match inside x with Some y => selected n v y | None => v c end
                                  | _ => v c
                                  end) (split_at "AND" d))
        (split_at "OR" (words (0%nat, Plain) w))
  end.

Fixpoint glue (l1 l2 : list string) : list string :=
  match l1 with
  | [] => l2
  | [w] => match l2 with [] => [w] | u :: us => (w +:+ u) :: us end
  | w :: ws => w :: glue ws l2
  end.

Lemma steps_app st a b : steps st (a +:+ b) = steps (steps st a) b.
Proof. revert st. induction a as [|c a IH]; intros st; [done|]. rewrite app_str_cons. simpl. apply IH. Qed.

Lemma words_nonempty st s : words st s ≠ [].
Proof. destruct s as [|c s]; simpl; [done|]. destruct (_ && _); [done|]. by destruct (words _ s). Qed.

Lemma glue_cons c l1 l2 : l1 ≠ [] → glue (cons_word c l1) l2 = cons_word c (glue l1 l2).
Proof. destruct l1 as [|w [|u us]]; [done| |done]. intros _. by destruct l2. Qed.

Lemma words_app st a b : words st (a +:+ b) = glue (words st a) (words (steps st a) b).
Proof.
  revert st. induction a as [|c a IH]; intros st.
  - rewrite app_str_nil. simpl. destruct (words st b) eqn:E; [by apply words_nonempty in E|]. by rewrite app_str_nil.
  - rewrite app_str_cons. simpl. destruct (top st && Ascii.eqb c " ") eqn:Et.
    + apply andb_true_iff in Et as [Ht Hc]. apply Ascii.eqb_eq in Hc as ->. rewrite IH. assert (step st " " = st) as Es by (destruct st as [[|?] []]; done). rewrite Es.
      destruct (words st a) eqn:E; [by apply words_nonempty in E|]. done.
    + rewrite IH. rewrite glue_cons by apply words_nonempty. done.
Qed.

(** A text that ends as it begins, within any parentheses; and such a text that is one word. *)
Definition frag (x : string) : Prop := ∀ d, steps (d, Plain) x = (d, Plain) ∧ words (S d, Plain) x = [x].
Definition one (x : string) : Prop := frag x ∧ words (0%nat, Plain) x = [x].

Lemma frag_app a b : frag a → frag b → frag (a +:+ b).
Proof.
  intros Ha Hb d. destruct (Ha d) as [Ha1 Ha2], (Hb d) as [Hb1 Hb2]. rewrite steps_app, Ha1, words_app, Ha2, (proj1 (Ha (S d))), Hb2. done.
Qed.
Lemma one_app a b : one a → one b → one (a +:+ b).
Proof. intros [Ha Ha'] [Hb Hb']. split; [by apply frag_app|]. by rewrite words_app, Ha', (proj1 (Ha 0%nat)), Hb'. Qed.

(** Plain characters, quoted values, parentheses. *)
Definition special (c : ascii) : bool := Ascii.eqb c " " || Ascii.eqb c "'" || Ascii.eqb c "(" || Ascii.eqb c ")".
Definition unsafe (c : ascii) : bool := Ascii.eqb c "'" || Ascii.eqb c "\".
Definition safe (v : string) : Prop := none_of unsafe v = true.

Lemma plain_steps s d : none_of special s = true → steps (d, Plain) s = (d, Plain) ∧ words (d, Plain) s = [s].
Proof.
  induction s as [|c s IH]; [done|]. cbn [none_of]. intros [Hc Hs]%andb_true_iff. apply negb_true_iff in Hc. unfold special in Hc.
  apply orb_false_iff in Hc as [Hc H4]. apply orb_false_iff in Hc as [Hc H3]. apply orb_false_iff in Hc as [H1 H2]. destruct (IH Hs) as [I1 I2].
  cbn [steps words step]. rewrite H1, H2, H3, H4, andb_false_r, I2. done.
Qed.
Lemma one_plain s : none_of special s = true → one s.
Proof. intros Hs. split; [intros d; split|]; by apply plain_steps. Qed.
Lemma one_int z : one (print_int z).
Proof. apply one_plain, print_int_none. intros c [Hc| ->]; [|done]. unfold special. by destruct c as [[] [] [] [] [] [] [] []]. Qed.

Lemma quoted_steps v d : safe v → steps (d, Quoted) v = (d, Quoted) ∧ words (d, Quoted) v = [v].
Proof.
  induction v as [|c v IH]; [done|]. unfold safe. cbn [none_of]. intros [Hc Hs]%andb_true_iff. apply negb_true_iff in Hc. unfold unsafe in Hc.
  apply orb_false_iff in Hc as [H1 H2]. destruct (IH Hs) as [I1 I2]. cbn [steps words step]. rewrite H1, H2.
  assert (top (d, Quoted) = false) as -> by by destruct d. by rewrite I2.
Qed.

Lemma one_quoted v : safe v → one ("'" +:+ v +:+ "'").
Proof.
  intros Hv. change ("'" +:+ v +:+ "'") with (String "'" (v +:+ "'")). split; [intros d; split|].
  - cbn [steps step]. change (Ascii.eqb "'" "'") with true. cbv iota. by rewrite steps_app, (proj1 (quoted_steps v d Hv)).
  - cbn [words step]. change (top (S d, Plain)) with false. change (Ascii.eqb "'" "'") with true. cbn [andb]. by rewrite words_app, (proj1 (quoted_steps v _ Hv)), (proj2 (quoted_steps v _ Hv)).
  - cbn [words step]. change (Ascii.eqb "'" " ") with false. change (Ascii.eqb "'" "'") with true. rewrite andb_false_r. by rewrite words_app, (proj1 (quoted_steps v _ Hv)), (proj2 (quoted_steps v _ Hv)).
Qed.

Lemma one_parens x : frag x → one ("(" +:+ x +:+ ")").
Proof.
  intros Hx. change ("(" +:+ x +:+ ")") with (String "(" (x +:+ ")")). split; [intros d; split|].
  - cbn [steps]. change (step (d, Plain) "(") with (S d, Plain). by rewrite steps_app, (proj1 (Hx (S d))).
  - cbn [words]. change (step (S d, Plain) "(") with (S (S d), Plain). change (top (S d, Plain)) with false. cbn [andb]. by rewrite words_app, (proj1 (Hx _)), (proj2 (Hx _)).
  - cbn [words]. change (step (0%nat, Plain) "(") with (1%nat, Plain). change (Ascii.eqb "(" " ") with false. rewrite andb_false_r. by rewrite words_app, (proj1 (Hx _)), (proj2 (Hx _)).
Qed.

(** ** Conjunctions *)

Definition noor (x : string) : Prop := frag x ∧ "OR"%string ∉ words (0%nat, Plain) x.
Definition member (c : list string) (w : string) : Prop := c ∈ split_at "AND" (words (0%nat, Plain) w).

Lemma glue_space l1 l2 : l1 ≠ [] → l2 ≠ [] → glue l1 (glue ["" ; ""]%string l2) = l1 ++ l2.
Proof.
  intros H1 H2. destruct l2 as [|u us]; [done|]. change (glue ["" ; ""]%string (u :: us)) with (""%string :: u :: us). clear H2.
  induction l1 as [|w [|w' ws] IH]; [done| |].
  - change (glue [w] (""%string :: u :: us)) with ((w +:+ "") :: u :: us). by rewrite app_str_nil_r.
  - change (glue (w :: w' :: ws) (""%string :: u :: us)) with (w :: glue (w' :: ws) (""%string :: u :: us)). by rewrite IH.
Qed.

Lemma words_space a b : frag a → words (0%nat, Plain) (a +:+ " " +:+ b) = words (0%nat, Plain) a ++ words (0%nat, Plain) b.
Proof.
  intros Ha. rewrite words_app, (proj1 (Ha _)), words_app. change (steps (0%nat, Plain) " ") with (0%nat, Plain). change (words (0%nat, Plain) " ") with ["" ; ""]%string.
  apply glue_space; apply words_nonempty.
Qed.

Lemma frag_literal_space : frag " ".
Proof. intros d. split; reflexivity. Qed.
Lemma frag_and : frag OPH_FILTER_AND1.
Proof. intros d. split; reflexivity. Qed.
Lemma frag_or : frag OPH_FILTER_OR.
Proof. intros d. split; reflexivity. Qed.
Lemma frag_either b : frag (either b).
Proof. destruct b; [apply frag_and|apply frag_or]. Qed.

Lemma noor_one x : one x → x ≠ "OR"%string → noor x.
Proof. intros [Hx Hw] Hne. split; [done|]. rewrite Hw. rewrite list_elem_of_singleton. congruence. Qed.
Lemma noor_space a b : noor a → noor b → noor (a +:+ " " +:+ b).
Proof.
  intros [Ha Ha'] [Hb Hb']. split; [by repeat apply frag_app; [|apply frag_literal_space|]|]. rewrite words_space by done. rewrite elem_of_app. tauto.
Qed.
Lemma noor_AND : noor "AND".
Proof. apply noor_one; [by apply one_plain|done]. Qed.
Lemma and_spaces a b : a +:+ OPH_FILTER_AND1 +:+ b = a +:+ " " +:+ "AND" +:+ " " +:+ b.
Proof. done. Qed.
Lemma noor_and a b : noor a → noor b → noor (a +:+ OPH_FILTER_AND1 +:+ b).
Proof. intros Ha Hb. rewrite and_spaces. apply noor_space; [done|]. apply noor_space; [apply noor_AND|done]. Qed.

Lemma split_at_nonempty k l : split_at k l ≠ [].
Proof. destruct l as [|w l]; simpl; [done|]. case_bool_decide; [done|]. by destruct (split_at k l). Qed.
Lemma split_at_app k l1 l2 : split_at k (l1 ++ k :: l2) = split_at k l1 ++ split_at k l2.
Proof.
  induction l1 as [|w l1 IH]; simpl; [by rewrite bool_decide_true|]. rewrite IH. case_bool_decide; [done|].
  destruct (split_at k l1) as [|p ps] eqn:E; [by apply split_at_nonempty in E|done].
Qed.
Lemma split_at_none k l : k ∉ l → split_at k l = [l].
Proof. induction l as [|w l IH]; simpl; [done|]. intros Hk. rewrite bool_decide_false by (intros ->; apply Hk; left). rewrite IH; [done|]. intros ?. apply Hk. by right. Qed.

Lemma words_and a b : frag a → words (0%nat, Plain) (a +:+ OPH_FILTER_AND1 +:+ b) = words (0%nat, Plain) a ++ "AND"%string :: words (0%nat, Plain) b.
Proof. intros Ha. rewrite and_spaces, words_space by done. rewrite words_space; [done|]. by apply noor_AND. Qed.
Lemma words_or a b : frag a → words (0%nat, Plain) (a +:+ OPH_FILTER_OR +:+ b) = words (0%nat, Plain) a ++ "OR"%string :: words (0%nat, Plain) b.
Proof.
  intros Ha. change (a +:+ OPH_FILTER_OR +:+ b) with (a +:+ " " +:+ "OR" +:+ " " +:+ b). rewrite words_space by done. rewrite words_space; [done|].
  intros d. split; reflexivity.
Qed.
Lemma member_and_l c a b : frag a → member c a → member c (a +:+ OPH_FILTER_AND1 +:+ b).
Proof. intros Ha Hc. unfold member. rewrite words_and, split_at_app, elem_of_app by done. by left. Qed.
Lemma member_and_r c a b : frag a → member c b → member c (a +:+ OPH_FILTER_AND1 +:+ b).
Proof. intros Ha Hc. unfold member. rewrite words_and, split_at_app, elem_of_app by done. by right. Qed.
Lemma member_one x : one x → x ≠ "AND"%string → member [x] x.
Proof. intros [_ Hw] Hne. unfold member. rewrite Hw, split_at_none; [by apply list_elem_of_singleton|]. rewrite list_elem_of_singleton. congruence. Qed.

Lemma frag_more sep l : frag sep → Forall frag l → frag (more sep l).
Proof. intros Hs Hl. induction Hl; [intros d; split; reflexivity|]. simpl. by repeat apply frag_app. Qed.
Lemma frag_joined sep l : frag sep → Forall frag l → frag (joined sep l).
Proof. intros Hs Hl. destruct Hl; [intros d; split; reflexivity|]. apply frag_app; [done|by apply frag_more]. Qed.
Lemma noor_more x l : noor x → Forall noor l → noor (x +:+ more OPH_FILTER_AND1 l).
Proof.
  intros Hx Hl. revert x Hx. induction Hl as [|y l Hy _ IH]; intros x Hx; simpl; [by rewrite app_str_nil_r|].
  rewrite <-!app_str_assoc, (app_str_assoc x). apply IH. by apply noor_and.
Qed.
Lemma noor_joined l : l ≠ [] → Forall noor l → noor (joined OPH_FILTER_AND1 l).
Proof. intros Hne Hl. destruct Hl; [done|]. by apply noor_more. Qed.

(** Every row that satisfies a conjunction satisfies its members. *)
Lemma selected_member n v w c : noor w → member c w → selected (S n) v w = true →
  match c with [x] => match inside x with Some y => selected n v y | None => v c end | _ => v c end = true.
Proof.
  intros [_ Hor] Hc. cbn [selected]. rewrite split_at_none by done. cbn [existsb]. rewrite orb_false_r, forallb_forall. intros Hall. apply Hall. by apply list_elem_of_In.
Qed.

Lemma selected_two n v a b : one a → one b → a ≠ "AND"%string → a ≠ "OR"%string → b ≠ "AND"%string → b ≠ "OR"%string → inside a = None → inside b = None →
  v [a] = true → v [b] = true → selected (S n) v (a +:+ OPH_FILTER_AND1 +:+ b) = true.
Proof.
  intros [Ha Hwa] [Hb Hwb] A1 A2 B1 B2 Ia Ib H1 H2. cbn [selected]. rewrite words_and, Hwa, Hwb by done.
  rewrite (split_at_none "OR") by (intros [Hx%list_elem_of_singleton|[?|Hx%list_elem_of_singleton]%elem_of_cons]%elem_of_app; done). cbn [existsb]. rewrite split_at_app.
  rewrite !split_at_none by (rewrite list_elem_of_singleton; congruence). cbn [app forallb]. rewrite Ia, Ib, H1, H2. done.
Qed.

(** A disjunction is satisfied when its last part is. *)
Lemma selected_last n v a b : frag a → noor b → selected (S n) v b = true → selected (S n) v (a +:+ OPH_FILTER_OR +:+ b) = true.
Proof.
  intros Ha [Hb Hor]. cbn [selected]. rewrite words_or, split_at_app, existsb_app by done. intros ->. by rewrite orb_true_r.
Qed.

Lemma selected_first n v a b : frag a → selected (S n) v a = true → selected (S n) v (a +:+ OPH_FILTER_OR +:+ b) = true.
Proof. intros Ha. cbn [selected]. rewrite words_or, split_at_app, existsb_app by done. by intros ->. Qed.

(** ** The filters add conjuncts *)

Definition extends (w w' : string) : Prop := w' = w ∨ ∃ x, noor x ∧ w' = w +:+ OPH_FILTER_AND1 +:+ x.

Lemma extends_and w x : noor x → extends w (w +:+ OPH_FILTER_AND1 +:+ x).
Proof. intros Hx. right. by exists x. Qed.
Lemma extends_trans w1 w2 w3 : extends w1 w2 → extends w2 w3 → extends w1 w3.
Proof.
  intros [-> |(x & Hx & ->)] [-> |(y & Hy & ->)]; [by left|right; by exists y|right; by exists x|]. right. exists (x +:+ OPH_FILTER_AND1 +:+ y).
  split; [by apply noor_and|by rewrite !app_str_assoc].
Qed.
Lemma extends_nonempty w w' : w ≠ "" → extends w w' → w' ≠ "".
Proof. intros Hw [-> |(x & _ & ->)]; [done|]. by destruct w. Qed.
Lemma extends_noor w w' : noor w → extends w w' → noor w'.
Proof. intros Hw [-> |(x & Hx & ->)]; [done|]. by apply noor_and. Qed.
Lemma extends_member c w w' : noor w → member c w → extends w w' → member c w'.
Proof. intros [Hw _] Hc [-> |(x & Hx & ->)]; [done|]. by apply member_and_l. Qed.

Lemma ensures_open w : w ≠ "" → ensures (open_paren w) (λ r, r = w +:+ OPH_FILTER_AND1 +:+ "(").
Proof. intros Hw. unfold open_paren. destruct w; [done|]. eapply ensures_mono; [apply ensures_append|]. by intros r [-> _]. Qed.
Lemma ensures_close w : ensures (close_paren w) (λ r, r = w +:+ ")").
Proof. eapply ensures_mono; [apply ensures_append|]. by intros r [-> _]. Qed.
Lemma ensures_join sep w : w ≠ "" → ensures (join_with sep w) (λ r, r = w +:+ sep).
Proof. intros Hw. unfold join_with. destruct w; [done|]. eapply ensures_mono; [apply ensures_append|]. by intros r [-> _]. Qed.

Lemma ensures_condition c cl : where_clause cl ≠ "" → ensures (add_condition c cl) (λ r, where_clause r = where_clause cl +:+ OPH_FILTER_AND1 +:+ c).
Proof.
  intros Hw. unfold add_condition. eapply ensures_then; [by apply ensures_join|]. intros w ->. eapply ensures_then; [apply ensures_append_printed|]. intros w ->.
  apply ensures_good. simpl. by rewrite app_str_assoc.
Qed.

Lemma ensures_metadata {X} sep table (condition : nat → X → string) l cl : where_clause cl ≠ "" →
  ensures (metadata_filter sep table condition l cl) (λ r, where_clause r = where_clause cl +:+ OPH_FILTER_AND1 +:+ joined sep (numbered condition 0 l)).
Proof.
  intros Hw. unfold metadata_filter. eapply ensures_then; [apply ensures_any|]. intros t _.
  eapply ensures_then; [by apply ensures_join|]. intros w ->. eapply ensures_mono; [apply metadata_joined|]. intros r ->. simpl. by rewrite app_str_assoc.
Qed.

Lemma parens_text w x : ((w +:+ OPH_FILTER_AND1 +:+ "(") +:+ x) +:+ ")" = w +:+ OPH_FILTER_AND1 +:+ "(" +:+ x +:+ ")".
Proof. by rewrite !app_str_assoc. Qed.

Lemma noor_parens x : frag x → noor ("(" +:+ x +:+ ")").
Proof. intros Hx. apply noor_one; [by apply one_parens|]. done. Qed.

Lemma safe_int z : safe (print_int z).
Proof. apply print_int_none. intros c [Hc| ->]; [|done]. by destruct c as [[] [] [] [] [] [] [] []]. Qed.
Lemma one_eq v : safe v → one ("='" +:+ v +:+ "'").
Proof. intros Hv. change ("='" +:+ v +:+ "'") with ("=" +:+ "'" +:+ v +:+ "'"). apply one_app; [by apply one_plain|by apply one_quoted]. Qed.
Lemma one_not1 b : one (OPH_FILTER_NOT1 b).
Proof. by destruct b; apply one_plain. Qed.

(** A name compared with a value. *)
Lemma one_compare name b v : none_of special name = true → safe v → one (name +:+ OPH_FILTER_NOT1 b +:+ "='" +:+ v +:+ "'").
Proof. intros Hn Hv. apply one_app; [by apply one_plain|]. apply one_app; [apply one_not1|by apply one_eq]. Qed.

Lemma level_frag b i k : frag (level_condition b i k).
Proof. apply one_compare; [done|apply safe_int]. Qed.

Lemma numbered_forall {X} (P : string → Prop) (condition : nat → X → string) i l : (∀ i x, x ∈ l → P (condition i x)) → Forall P (numbered condition i l).
Proof.
  revert i. induction l as [|x l IH]; intros i HP; constructor; [apply HP; left|]. apply IH. intros j y Hy. apply HP. by right.
Qed.

Lemma level_extends value cl b : where_clause cl ≠ "" → ensures (oph_filter_level value cl b) (λ r, extends (where_clause cl) (where_clause r)).
Proof.
  intros Hw. unfold oph_filter_level. destruct (given value) as [v|]; [|apply ensures_good; by left].
  eapply ensures_then; [apply ensures_any|]. intros keys _. eapply ensures_then; [by apply ensures_open|]. intros w ->.
  eapply ensures_then; [apply chain_joined|]. intros w ->. eapply ensures_then; [apply ensures_close|]. intros w ->. apply ensures_good. simpl. rewrite parens_text.
  apply extends_and, noor_parens, frag_joined; [apply frag_either|]. apply numbered_forall. intros. apply level_frag.
Qed.

Lemma condition_extends c cl : where_clause cl ≠ "" → noor c → ensures (add_condition c cl) (λ r, extends (where_clause cl) (where_clause r)).
Proof. intros Hw Hc. eapply ensures_mono; [by apply ensures_condition|]. intros r ->. by apply extends_and. Qed.

Definition safe_value (value : cstr) : Prop := ∀ v, value = Some v → safe v.
Lemma given_some value v : given value = Some v → value = Some v.
Proof. destruct value as [[]|]; simpl; congruence. Qed.

Lemma measure_extends value cl b : safe_value value → where_clause cl ≠ "" → ensures (oph_filter_measure value cl b) (λ r, extends (where_clause cl) (where_clause r)).
Proof.
  intros Hs Hw. unfold oph_filter_measure. destruct (given value) as [v|] eqn:E; [|apply ensures_good; by left]. apply condition_extends; [done|].
  apply noor_one; [|done]. apply one_compare; [done|]. by apply Hs, given_some.
Qed.

Lemma container_extends value cl b : safe_value value → where_clause cl ≠ "" → ensures (oph_filter_container value cl b) (λ r, extends (where_clause cl) (where_clause r)).
Proof.
  intros Hs Hw. unfold oph_filter_container. destruct (given value) as [v|] eqn:E; [|apply ensures_good; by left]. apply condition_extends; [done|].
  apply noor_one; [|done]. apply one_compare; [done|]. by apply Hs, given_some.
Qed.

Lemma pid_extends ws value cl b : where_clause cl ≠ "" → ensures (oph_filter_container_pid ws value cl b) (λ r, extends (where_clause cl) (where_clause r)).
Proof.
  intros Hw. unfold oph_filter_container_pid. destruct (given value) as [v|]; [|apply ensures_good; by left]. eapply ensures_then; [apply ensures_any|]. intros p _.
  apply condition_extends; [done|]. apply noor_one; [|done]. apply one_compare; [done|apply safe_int].
Qed.

Lemma parent_noor b p c : noor (parent_condition b p c).
Proof.
  change (parent_condition b p c) with ("datacube.iddatacube=taskp.idoutputcube" +:+ OPH_FILTER_AND1 +:+ "taskp.idtask=hasinputp.idtask" +:+ OPH_FILTER_AND1 +:+
    "hasinputp.iddatacube=datacubep.iddatacube" +:+ OPH_FILTER_AND1 +:+ "datacubep.iddatacube" +:+ OPH_FILTER_NOT1 b +:+ "='" +:+ print_int p +:+ "' AND datacubep.idcontainer='" +:+ print_int c +:+ "'").
  do 3 (apply noor_and; [apply noor_one; [by apply one_plain|done]|]).
  assert ("datacubep.iddatacube" +:+ OPH_FILTER_NOT1 b +:+ "='" +:+ print_int p +:+ "' AND datacubep.idcontainer='" +:+ print_int c +:+ "'" =
    ("datacubep.iddatacube" +:+ OPH_FILTER_NOT1 b +:+ "='" +:+ print_int p +:+ "'") +:+ OPH_FILTER_AND1 +:+ ("datacubep.idcontainer" +:+ OPH_FILTER_NOT1 false +:+ "='" +:+ print_int c +:+ "'")) as ->
    by (rewrite !app_str_assoc; done).
  apply noor_and; (apply noor_one; [apply one_compare; [done|apply safe_int]|done]).
Qed.

Lemma parent_extends ws value cl b : where_clause cl ≠ "" → ensures (oph_filter_parent ws value cl b) (λ r, extends (where_clause cl) (where_clause r)).
Proof.
  intros Hw. unfold oph_filter_parent. destruct (given value) as [v|]; [|apply ensures_good; by left]. eapply ensures_then; [apply ensures_any|]. intros p _.
  apply delivers_bind_any. intros _. destruct (strtok "/" p) as [|t1 [|t2 ts]]; [apply ensures_bad..|]. eapply ensures_then; [apply ensures_any|]. intros t _.
  eapply ensures_then; [apply ensures_any|]. intros t' _. by apply (condition_extends _ (set_tables t' cl)); [|apply parent_noor].
Qed.

Lemma subset_frag b st sr e : frag (subset_condition b st sr e).
Proof.
  unfold subset_condition. apply frag_app; [destruct b; intros d; split; reflexivity|].
  assert (∀ x y z : string, "mysql.oph_is_in_subset(datacube.iddatacube," +:+ x +:+ "," +:+ y +:+ "," +:+ z +:+ ")" =
    "mysql.oph_is_in_subset" +:+ "(" +:+ ("datacube.iddatacube," +:+ x +:+ "," +:+ y +:+ "," +:+ z) +:+ ")") as -> by (intros; by rewrite !app_str_assoc).
  apply frag_app; [by apply one_plain|]. apply one_parens. repeat (apply frag_app; [first [apply one_int|by apply one_plain]|]). apply one_int.
Qed.

Lemma subset_chain_frag b s l c : frag c → ensures (subset_chain b s l c) frag.
Proof.
  revert c. induction l as [|i l IH]; intros c Hc; cbn [subset_chain]; [by apply ensures_good|].
  eapply (ensures_then _ _ frag); [ens; [done|eapply ensures_mono; [apply ensures_append|]; intros r [-> _]; by apply frag_app; [|apply frag_either]]|]. intros c' Hc'.
  do 3 (apply delivers_bind_any; intros ?). eapply ensures_then; [apply ensures_append_printed|]. intros r ->. apply IH. apply frag_app; [done|apply subset_frag].
Qed.

Lemma subset_extends value cl b : where_clause cl ≠ "" → ensures (oph_filter_using_subset value cl b) (λ r, extends (where_clause cl) (where_clause r)).
Proof.
  intros Hw. unfold oph_filter_using_subset. destruct (given value) as [v|]; [|apply ensures_good; by left]. eapply ensures_then; [by apply ensures_open|]. intros w ->.
  apply delivers_bind_any. intros rc. destruct (negb _); [apply ensures_bad|]. apply delivers_bind_any. intros [rc' s]. destruct (negb _).
  { destruct s as [s|]; simpl; [|apply ensures_bad]. destruct (_ =? 0); [apply delivers_undef|apply ensures_bad]. }
  apply delivers_bind_any. intros s'. eapply ensures_then; [apply subset_chain_frag; intros d; split; reflexivity|]. intros c Hc.
  eapply ensures_then; [apply ensures_append|]. intros w [-> _]. eapply ensures_then; [apply ensures_close|]. intros w ->. apply ensures_good. simpl. rewrite parens_text.
  by apply extends_and, noor_parens.
Qed.

(** ** Metadata *)

Lemma delivers_copy cap a b : delivers (TaskParser.copy_between cap (a +:+ b) b) (λ v, v = a).
Proof.
  unfold TaskParser.copy_between. apply delivers_bind_any. intros _. apply delivers_bind_any. intros _. apply delivers_ret.
  by rewrite length_app_str, Nat.add_sub, take_str_app.
Qed.

Lemma delivers_split fuel msize oks s acc : delivers (TaskParser.split_values fuel msize oks s acc) (λ l, l = acc ++ split_on TaskParser.bar s).
Proof.
  revert s acc. induction fuel as [|fuel IH]; intros s acc; cbn [TaskParser.split_values]; [apply delivers_fuel|]. apply delivers_bind_any. intros cell. apply delivers_bind_any. intros _.
  destruct (TaskParser.span_char TaskParser.bar s) as [Hno|(a & c & b & -> & Ha & Hc)].
  - rewrite (TaskParser.strchr_none _ _ Hno), (split_on_none _ _ Hno). eapply (delivers_bind _ _ (λ v, v = s)); [|intros v ->; by apply delivers_ret].
    pose proof (delivers_copy (1 + msize) s "") as Hcopy. by rewrite app_str_nil_r in Hcopy.
  - apply Ascii.eqb_eq in Hc as ->. rewrite (TaskParser.strchr_at _ a) by exact Ha. rewrite (split_on_app _ a) by done. eapply delivers_bind; [apply delivers_copy|].
    intros v ->. eapply delivers_mono; [apply IH|]. intros l ->. by rewrite <-app_assoc.
Qed.

Lemma ensures_values v : ensures (multiple_values (Some v)) (λ l, l = split_on TaskParser.bar v ∧ l ≠ []).
Proof.
  unfold multiple_values. eapply (delivers_bind _ _ (λ r, ∀ l, r.1.2 = Some l → l = split_on TaskParser.bar v)).
  - unfold TaskParser.oph_tp_parse_multiple_value_param. destruct v as [|c v]; [by apply delivers_ret|]. set (t := String c v).
    destruct (negb _); [by apply delivers_ret|]. destruct (TaskParser.count_params t 1 0 0) as [n ms]. apply delivers_bind_any. intros b. destruct (negb b); [by apply delivers_ret|].
    apply delivers_bind_any. intros oks. eapply delivers_bind; [apply delivers_split|]. intros l ->. apply delivers_ret. by intros l' [= <-].
  - intros [[rc l] n] Hl. destruct (_ || _); [apply ensures_bad|]. destruct l as [l|]; [|apply delivers_undef]. eapply delivers_bind; [by apply (delivers_deref _ (λ x, x = l)); intros x [= <-]|].
    intros x ->. apply ensures_good. specialize (Hl l eq_refl). simpl in Hl. subst l. split; [done|]. apply split_on_nonempty.
Qed.

Lemma safe_pieces p v : safe v → Forall safe (split_on p v).
Proof.
  unfold safe. induction v as [|c v IH]; simpl; [by repeat constructor|]. intros [Hc Hv]%andb_true_iff. specialize (IH Hv). destruct (p c); [by constructor|].
  destruct IH as [|w ws Hw Hws]; [constructor; [simpl; by rewrite Hc|constructor]|]. constructor; [simpl; by rewrite Hc, Hw|done].
Qed.

Lemma one_nat i : one (print_nat i).
Proof. apply one_int. Qed.

Lemma key_noor b i k : safe k → noor (key_condition b i k).
Proof.
  intros Hk. assert (key_condition b i k = ("metadatainstance" +:+ print_nat i +:+ ".iddatacube=datacube.iddatacube") +:+ OPH_FILTER_AND1 +:+
    ("metadatainstance" +:+ print_nat i +:+ ".label" +:+ OPH_FILTER_NOT1 b +:+ "='" +:+ k +:+ "'")) as -> by (unfold key_condition; by rewrite !app_str_assoc).
  apply noor_and; (apply noor_one; [|done]); (apply one_app; [by apply one_plain|]); (apply one_app; [apply one_nat|]); [by apply one_plain|by apply one_compare].
Qed.

Lemma one_instance p i : one (instance p i).
Proof. repeat (apply one_app; [first [apply one_nat|by apply one_plain]|]). apply one_nat. Qed.

Lemma value_noor p i kv : safe kv.1 → safe kv.2 → noor (value_condition false p i kv).
Proof.
  destruct kv as [k v]. simpl. intros Hk Hv.
  assert (value_condition false p i (k, v) = (instance p i +:+ ".iddatacube=datacube.iddatacube") +:+ OPH_FILTER_AND1 +:+ (instance p i +:+ ".label" +:+ "='" +:+ k +:+ "'") +:+ OPH_FILTER_AND1 +:+
    ("CONVERT" +:+ "(" +:+ (instance p i +:+ ".value USING latin1") +:+ ")") +:+ " " +:+ "LIKE" +:+ " " +:+ "'" +:+ ("%" +:+ v +:+ "%") +:+ "'") as ->
    by (unfold value_condition; simpl; by rewrite !app_str_assoc).
  assert (∀ x, instance p i +:+ x ≠ "OR"%string) as Hne by (intros x; done).
  apply noor_and; [apply noor_one; [apply one_app; [apply one_instance|by apply one_plain]|done]|].
  apply noor_and; [apply noor_one; [apply one_app; [apply one_instance|apply one_app; [by apply one_plain|by apply one_eq]]|done]|].
  apply noor_space; [apply noor_one; [apply one_app; [by apply one_plain|apply one_parens]|done]|].
  { apply frag_app; [apply one_instance|intros d; split; reflexivity]. }
  apply noor_space; [apply noor_one; [by apply one_plain|done]|]. apply noor_one; [|done]. apply one_quoted. unfold safe in *. rewrite !none_of_app, Hv. done.
Qed.

Lemma key_extends value cl b : safe_value value → (b = true → ∀ v, value = Some v → none_of TaskParser.bar v = true) → where_clause cl ≠ "" →
  ensures (oph_filter_metadata_key value cl b) (λ r, extends (where_clause cl) (where_clause r)).
Proof.
  intros Hs Hb Hw. unfold oph_filter_metadata_key. destruct (given value) as [v|] eqn:E; [|apply ensures_good; by left]. apply given_some in E. eapply ensures_then; [apply ensures_values|].
  intros l [-> Hne]. eapply ensures_mono; [by apply ensures_metadata|]. intros r ->. apply extends_and. pose proof (safe_pieces TaskParser.bar v (Hs v E)) as Hl. destruct b.
  - rewrite (split_on_none _ v) in * by auto. simpl. rewrite app_str_nil_r. apply key_noor. by inversion Hl.
  - apply noor_joined; [by destruct (split_on _ v)|]. apply numbered_forall. intros i x Hx. apply key_noor. by eapply Forall_forall in Hl.
Qed.

Lemma value_extends k v cl p : safe k → safe v → where_clause cl ≠ "" →
  ensures (_oph_filter_metadata_value (Some k) (Some v) cl p false) (λ r, extends (where_clause cl) (where_clause r)).
Proof.
  intros Hk Hv Hw. unfold _oph_filter_metadata_value. destruct (given (Some v)) as [v'|] eqn:E; [|apply ensures_good; by left]. apply given_some in E as [= ->].
  eapply ensures_then; [apply ensures_values|]. intros ks [-> Hks]. eapply ensures_then; [apply ensures_values|]. intros vs [-> Hvs].
  destruct (negb _) eqn:El; [apply ensures_bad|]. apply negb_false_iff, Nat.eqb_eq in El. eapply ensures_mono; [by apply ensures_metadata|]. intros r ->. apply extends_and.
  apply noor_joined; [by destruct (split_on _ k), (split_on _ v')|]. apply numbered_forall. intros i [x y] Hxy. pose proof (elem_of_zip_l _ _ _ _ Hxy) as Hx. pose proof (elem_of_zip_r _ _ _ _ Hxy) as Hy.
  apply value_noor; simpl; eapply Forall_forall; try eassumption; by apply safe_pieces.
Qed.

(** ** Folders *)

Section db.
Context `{HD : OdbFs.MySQL} (T : gmap Z (option Z * string)) (HT : OdbFs.folder_db T).

(** The text of the folders that were added so far. *)
Definition folders_text (b : bool) (fs : list Z) : string := joined (either b) (folder_condition b <$> fs).
Definition added (b : bool) (w0 : string) (P : Z → Prop) (st : Z * string) : Prop :=
  ∃ fs, Forall P fs ∧ st.2 = w0 +:+ folders_text b fs ∧ st.1 = Z.of_nat (length fs).

Lemma ensures_folder b w0 f (P : Z → Prop) st :
  added b w0 P st → P f →
  ensures (let? w := (if st.1 =? 0 then good st.2 else append st.2 (either b)) in append w (printed (folder_condition b f))) (λ w, added b w0 P (st.1 + 1, w)).
Proof.
  intros (fs & Hfs & Hw & Hc) Hf. eapply (ensures_then _ _ (λ w, w = st.2 +:+ (if decide (fs = []) then "" else either b))).
  - destruct (decide (fs = [])) as [->|Hne].
    + rewrite Hc. apply ensures_good. by rewrite app_str_nil_r.
    + destruct (Z.eqb_spec st.1 0) as [E|_]; [destruct fs; [done|rewrite Hc in E; simpl in E; lia]|]. eapply ensures_mono; [apply ensures_append|]. by intros r [-> _].
  - intros w ->. eapply ensures_mono; [apply ensures_append_printed|]. intros r ->. exists (fs ++ [f]). split; [by apply Forall_app; split; [|constructor]|]. simpl. split.
    + unfold folders_text. rewrite fmap_app. change (folder_condition b <$> [f]) with [folder_condition b f]. rewrite joined_snoc, Hw. unfold folders_text. rewrite !app_str_assoc. do 2 f_equal. destruct fs; simpl; [by rewrite app_str_nil|done].
    + rewrite Hc, length_app. simpl. lia.
Qed.

Lemma mf_assoc {A B D} (c : MF A) (f : A → MF B) (g : B → MF D) (P : D → Prop) :
  ensures (mf_then (mf_then c f) g) P → ensures (mf_then c (λ a, mf_then (f a) g)) P.
Proof.
  intros He m r m' E. apply (He m r m'). revert E. unfold mf_then, mbind, C_bind. destruct (c m) as [[a|] m1| |]; done.
Qed.

Lemma ensures_add_folder fuel oDB b w0 (P : Z → Prop) flag st f :
  (∀ p f, P p → OdbFs.below T f p → P f) → added b w0 P st → P f →
  ensures (oph_add_folder fuel oDB b flag st f) (λ st', added b w0 P st' ∧ 0 < st'.1).
Proof.
  intros Hclosed. revert flag st f. induction fuel as [|fuel IH]; intros flag st f Hst Hf; cbn [oph_add_folder]; [apply delivers_fuel|]. destruct st as [counter w]. apply mf_assoc.
  eapply ensures_then; [by apply (ensures_folder b w0 f P (counter, w))|]. simpl. intros w' Hw'.
  assert (0 < counter + 1) as Hpos by (destruct Hst as (fs & _ & _ & E); simpl in E; lia). destruct (_ =? 0); [by apply ensures_good|].
  eapply (delivers_bind _ _ (λ r, ∀ ids, r = inr ids → Forall (λ g, OdbFs.below T g f) ids)).
  - intros m r m' E ids ->. by eapply OdbFs.subfolders_below.
  - intros [rc|ids] Hids; [apply ensures_bad|]. apply ensures_fold; [done|]. intros g st Hg [Hst' _]. apply IH; [done|]. eapply Hclosed; [exact Hf|]. by eapply Forall_forall in Hg; [|apply Hids].
Qed.

Definition in_session (home f : Z) : Prop := rtc (OdbFs.below T) f home.

Lemma in_session_below home p f : in_session home p → OdbFs.below T f p → in_session home f.
Proof. intros Hp Hf. eapply rtc_l; [exact Hf|done]. Qed.

Lemma ensures_path fuel path recursive depth sessionid oDB cl b home :
  in_i32 home → OdbFs.mysql_query (OdbFs.query_session sessionid) = Some (OdbFs.Result 1 [[Some (print_int home)]]) → where_clause cl ≠ "" →
  ensures (oph_filter_path fuel (Some path) recursive depth (Some sessionid) oDB cl b) (λ r, path = "" ∨
    ∃ fs, fs ≠ [] ∧ Forall (in_session home) fs ∧ where_clause r = where_clause cl +:+ OPH_FILTER_AND1 +:+ "(" +:+ folders_text b fs +:+ ")").
Proof.
  intros Hh Hq Hw. unfold oph_filter_path. destruct path as [|c path]; [apply ensures_good; by left|]. simpl given. cbv iota beta. apply delivers_bind_any. intros [[rc f] o].
  destruct (negb _); [apply ensures_bad|]. eapply (delivers_bind _ _ (λ r, r.2 = true → in_session home f)).
  - intros m [rc' p] m' E Ep. simpl in Ep. subst p. by eapply OdbFs.session_folder.
  - intros [rc' p] Hp. destruct (_ || negb p) eqn:Eb; [apply ensures_bad|]. apply orb_false_iff in Eb as [_ Eb]. apply negb_false_iff in Eb as ->.
    eapply ensures_then; [by apply ensures_open|]. intros w ->. eapply ensures_then; [apply (ensures_add_folder _ _ _ (where_clause cl +:+ OPH_FILTER_AND1 +:+ "(") (in_session home))|].
    + intros p' g Hp' Hg. by eapply in_session_below.
    + exists []. split; [done|]. split; [simpl; by rewrite app_str_nil_r|done].
    + by apply Hp.
    + intros [n w] [(fs & Hfs & Ew & En) Hpos]. simpl in Ew, En, Hpos. subst w n. eapply ensures_then; [apply ensures_close|]. intros w ->. apply ensures_good. right. exists fs. split; [by destruct fs|]. split; [done|]. simpl. by rewrite parens_text.
Qed.

Lemma folder_one b f : one (folder_condition b f).
Proof. apply one_compare; [done|apply safe_int]. Qed.

Lemma folders_frag b fs : frag (folders_text b fs).
Proof. apply frag_joined; [apply frag_either|]. apply Forall_fmap, Forall_true. intros f. apply folder_one. Qed.

(** A row of the listed folders is in one of them. *)
Lemma without_last_app s c : without_last (s +:+ String c "") = Some (s, c).
Proof. induction s as [|d s IH]; [done|]. rewrite app_str_cons. simpl. by rewrite IH. Qed.

Lemma selected_folders n v f fs :
  selected (S n) v (folder_condition false f +:+ more OPH_FILTER_OR (folder_condition false <$> fs)) = true →
  ∃ g, g ∈ f :: fs ∧ v [folder_condition false g] = true.
Proof.
  revert f. induction fs as [|g fs IH]; intros f.
  - simpl more. rewrite app_str_nil_r. cbn [selected]. rewrite (proj2 (folder_one false f)). rewrite split_at_none by (by rewrite list_elem_of_singleton).
    cbn [existsb]. rewrite split_at_none by (by rewrite list_elem_of_singleton). cbn [forallb]. change (inside (folder_condition false f)) with (@None string). cbv iota.
    rewrite andb_true_r, orb_false_r. intros Hv. exists f. split; [left|done].
  - simpl more. cbn [selected]. rewrite words_or by apply folder_one. rewrite split_at_app, existsb_app. intros [Hv|Hv]%orb_true_iff.
    + rewrite (proj2 (folder_one false f)) in Hv. rewrite split_at_none in Hv by (by rewrite list_elem_of_singleton). cbn [existsb] in Hv.
      rewrite split_at_none in Hv by (by rewrite list_elem_of_singleton). cbn [forallb] in Hv. change (inside (folder_condition false f)) with (@None string) in Hv. cbv iota in Hv.
      rewrite andb_true_r, orb_false_r in Hv. exists f. split; [left|done].
    + destruct (IH g Hv) as (h & Hh & Hv'). exists h. split; [by right|done].
Qed.

(** ** The whole filter *)

(** The value of an argument in a table. *)
Definition value_of (task_tbl : option (HASHTBL string)) (k : string) : cstr :=
  match task_tbl with
  | None => None
  | Some t => match nodes t !! index_of t k with Some chain => data <$> List.find (has_key k) chain | None => None end
  end.

Definition safe_table (task_tbl : option (HASHTBL string)) : Prop :=
  match task_tbl with None => True | Some t => Forall (λ n, safe (data n)) (concat (nodes t)) end.

Lemma delivers_argument tbl k : delivers (argument tbl k) (λ r, r = value_of tbl k).
Proof.
  destruct tbl as [t|]; [|by apply delivers_ret]. simpl. unfold hashtbl_get, bucket. eapply (delivers_bind _ _ (λ i, i = index_of t k)).
  - apply delivers_bind_any. intros _. by apply delivers_ret.
  - intros i ->. eapply (delivers_bind _ _ (λ c, nodes t !! index_of t k = Some c)); [by apply delivers_deref|]. intros c Hc. apply delivers_ret. by rewrite Hc.
Qed.

Lemma safe_value_of tbl k : safe_table tbl → safe_value (value_of tbl k).
Proof.
  intros Hs v. destruct tbl as [t|]; [|done]. simpl in *. destruct (nodes t !! _) as [c|] eqn:Ec; [|done]. destruct (List.find _ c) as [n|] eqn:En; [|done]. intros [= <-].
  apply List.find_some in En as [Hn _]. eapply Forall_forall in Hs; [exact Hs|]. apply list_elem_of_In, in_concat. exists c. split; [|done]. by eapply list_elem_of_In, list_elem_of_lookup_2.
Qed.

Definition base_condition : string := "datacube.idcontainer=container.idcontainer".

Record scoped (home : Z) (w : string) : Prop := {
  sc_noor : noor w;
  sc_base : member [base_condition] w;
  sc_folders : ∃ fs, fs ≠ [] ∧ Forall (in_session home) fs ∧ member ["(" +:+ folders_text false fs +:+ ")"] w;
}.

Lemma scoped_extends home w w' : scoped home w → extends w w' → scoped home w'.
Proof.
  intros [Hn Hb (fs & Hne & Hfs & Hm)] He. split; [by eapply extends_noor|by eapply extends_member|]. exists fs. split_and!; [done|done|by eapply extends_member].
Qed.
Lemma scoped_nonempty home w : scoped home w → w ≠ "".
Proof. intros [_ Hb _] ->. unfold member in Hb. simpl in Hb. by apply list_elem_of_singleton in Hb. Qed.

(** What a row in scope satisfies. *)
Lemma scoped_selected home w n v r : scoped home w → (∀ f, v [folder_condition false f] = true → r = f) → selected n v w = true →
  v [base_condition] = true ∧ in_session home r.
Proof.
  intros [Hn Hb (fs & Hne & Hfs & Hm)] Hv Hs. destruct n as [|n]; [done|]. split; [by apply (selected_member n v w _ Hn Hb)|].
  pose proof (selected_member n v w _ Hn Hm Hs) as Hin. cbv iota in Hin. change ("(" +:+ ?x +:+ ")") with (String "(" (x +:+ ")")) in Hin.
  cbn [inside] in Hin. change (Ascii.eqb "(" "(") with true in Hin. cbv iota in Hin. rewrite without_last_app in Hin. change (Ascii.eqb ")" ")") with true in Hin. cbv iota in Hin.
  destruct n as [|n]; [done|]. destruct fs as [|f fs]; [done|]. destruct (selected_folders n v f fs Hin) as (g & Hg & Hvg). rewrite (Hv g Hvg). by eapply Forall_forall in Hfs.
Qed.

Section table.
Context (ws : cstr) (tbl : option (HASHTBL string)) (Hsafe : safe_table tbl).

(** A filter that extends the clause, then the others. *)
Lemma extends_then c (f : clauses → MF clauses) cl :
  ensures c (λ r, extends (where_clause cl) (where_clause r)) → where_clause cl ≠ "" →
  (∀ r, where_clause r ≠ "" → ensures (f r) (λ r', extends (where_clause r) (where_clause r'))) → ensures (mf_then c f) (λ r', extends (where_clause cl) (where_clause r')).
Proof.
  intros Hc Hw Hf. eapply ensures_then; [exact Hc|]. intros r Hr. eapply ensures_mono; [by apply Hf, (extends_nonempty (where_clause cl))|]. intros r' Hr'. exact (extends_trans _ _ _ Hr Hr').
Qed.

Lemma plain_extends container b cl : safe_value container → where_clause cl ≠ "" →
  ensures (plain_filters ws tbl container b cl) (λ r, extends (where_clause cl) (where_clause r)).
Proof.
  intros Hc Hw. unfold plain_filters. apply delivers_bind_any. intros v1. apply extends_then; [by apply level_extends|done|]. clear cl Hw. intros cl Hw.
  eapply delivers_bind; [apply delivers_argument|]. intros v2 ->. apply extends_then; [by apply measure_extends; [apply safe_value_of|]|done|]. clear cl Hw. intros cl Hw.
  apply delivers_bind_any. intros v3. apply extends_then; [by apply parent_extends|done|]. clear cl Hw. intros cl Hw.
  apply delivers_bind_any. intros v4. apply extends_then; [by apply subset_extends|done|]. clear cl Hw. intros cl Hw.
  destruct (given container) as [c|] eqn:E; [apply container_extends; [|done]; apply given_some in E as ->; done|]. apply delivers_bind_any. intros v5. by apply pid_extends.
Qed.

Lemma safe_given k v : given (value_of tbl k) = Some v → safe v.
Proof. intros E. by eapply safe_value_of, given_some. Qed.

Lemma positive_extends cl : where_clause cl ≠ "" →
  ensures (positive_metadata tbl cl) (λ r, extends (where_clause cl) (where_clause r) ∨ given (value_of tbl "metadata_value!") ≠ None).
Proof.
  intros Hw. unfold positive_metadata. eapply delivers_bind; [apply delivers_argument|]. intros k ->. eapply delivers_bind; [apply delivers_argument|]. intros v ->.
  destruct (given (value_of tbl "metadata_key")) as [k|] eqn:Ek, (given (value_of tbl "metadata_value")) as [v|] eqn:Ev; [|clear Ev|apply ensures_bad|apply ensures_good; left; by left].
  - eapply ensures_mono; [by apply value_extends; [eapply safe_given|eapply safe_given|]|]. auto.
  - eapply delivers_bind; [apply delivers_argument|]. intros v ->. destruct (given (value_of tbl "metadata_value!")) as [v|] eqn:Ev.
    + eapply ensures_mono; [apply ensures_any|]. by right.
    + eapply ensures_mono; [apply key_extends; [|done|done]|auto]. intros v [= <-]. by eapply safe_given.
Qed.

Lemma negative_extends cl : where_clause cl ≠ "" → (∀ v, value_of tbl "metadata_key!" = Some v → none_of TaskParser.bar v = true) →
  ensures (negative_metadata tbl cl) (λ r, extends (where_clause cl) (where_clause r)).
Proof.
  intros Hw Hb. unfold negative_metadata. do 3 (eapply delivers_bind; [apply delivers_argument|]; intros ? ->).
  destruct (given (value_of tbl "metadata_key!")) as [k|] eqn:Ek.
  - destruct (value_of tbl "metadata_value"), (value_of tbl "metadata_value!"); try apply ensures_bad. apply key_extends; [|intros _ v [= <-]; by apply Hb, given_some|done].
    intros v [= <-]. by eapply safe_given.
  - destruct (given (value_of tbl "metadata_value!")); [apply ensures_bad|apply ensures_good; by left].
Qed.

(** A negated metadata value is always refused. *)
Lemma negative_refused cl : given (value_of tbl "metadata_value!") ≠ None → ensures (negative_metadata tbl cl) (λ _, False).
Proof.
  intros Hv. unfold negative_metadata. do 3 (eapply delivers_bind; [apply delivers_argument|]; intros ? ->).
  destruct (given (value_of tbl "metadata_key!")).
  - destruct (value_of tbl "metadata_value"), (value_of tbl "metadata_value!"); try apply ensures_bad. done.
  - destruct (given (value_of tbl "metadata_value!")); [apply ensures_bad|done].
Qed.
End table.

Section session.
Context (fuel : nat) (ws : cstr) (tbl : option (HASHTBL string)) (cwd : cstr) (sessionid : string) (oDB : bool) (home : Z).
Context (Hsafe : safe_table tbl) (Hhome : in_i32 home)
  (Hsession : OdbFs.mysql_query (OdbFs.query_session sessionid) = Some (OdbFs.Result 1 [[Some (print_int home)]])).

Lemma delivers_strncat s t : s ≠ "" → delivers (strncat_path s t) (λ r, r ≠ "").
Proof. intros Hs. unfold strncat_path. apply delivers_bind_any. intros _. apply delivers_ret. by destruct s. Qed.

Lemma delivers_extend s p : s ≠ "" → delivers (extend_path s cwd p) (λ r, r ≠ "").
Proof.
  intros Hs. unfold extend_path. destruct (absolute p); [by apply delivers_strncat|]. apply delivers_bind_any. intros c. eapply delivers_bind; [by apply delivers_strncat|].
  intros e He. eapply (delivers_bind _ _ (λ r, r ≠ ""%string)); [destruct (ends_in_slash false e); [by apply delivers_ret|by apply delivers_strncat]|]. intros e' He'. by apply delivers_strncat.
Qed.

Lemma path_scoped path recursive depth cl : path ≠ "" → noor (where_clause cl) → member [base_condition] (where_clause cl) → where_clause cl ≠ "" →
  ensures (oph_filter_path fuel (Some path) recursive depth (Some sessionid) oDB cl false) (λ r, scoped home (where_clause r)).
Proof.
  intros Hp Hn Hb Hw. eapply ensures_mono; [by apply (ensures_path fuel path recursive depth sessionid oDB cl false home)|]. intros r [?|(fs & Hne & Hfs & ->)]; [done|].
  pose proof (one_parens _ (folders_frag false fs)) as Hone. split.
  - apply noor_and; [done|]. by apply noor_one.
  - apply member_and_l; [apply Hn|done].
  - exists fs. split_and!; [done|done|]. apply member_and_r; [apply Hn|]. by apply member_one.
Qed.

Lemma path_extends path recursive depth cl : where_clause cl ≠ "" →
  ensures (oph_filter_path fuel (Some path) recursive depth (Some sessionid) oDB cl true) (λ r, path ≠ "" → extends (where_clause cl) (where_clause r)).
Proof.
  intros Hw. eapply ensures_mono; [by apply (ensures_path fuel path recursive depth sessionid oDB cl true home)|]. intros r [?|(fs & _ & _ & ->)] Hp; [done|].
  apply extends_and, noor_parens, folders_frag.
Qed.

Lemma base_noor : noor base_condition.
Proof. apply noor_one; [by apply one_plain|done]. Qed.
Lemma base_member : member [base_condition] base_condition.
Proof. apply member_one; [by apply one_plain|done]. Qed.

(** Up to the negated metadata every filter is in scope. *)
Lemma filter_tail (P : clauses → Prop) :
  (∀ cl, tbl = None → scoped home (where_clause cl) → P cl) →
  (∀ cl ext_path_n recursive depth, scoped home (where_clause cl) → (given (value_of tbl "path!") ≠ None → ext_path_n ≠ "") → given (value_of tbl "metadata_value!") = None →
    ensures (let? cl := negative_metadata tbl cl in
             match given (value_of tbl "path!") with
             | Some _ => oph_filter_path fuel (Some ext_path_n) recursive depth (Some sessionid) oDB cl true
             | None => good cl
             end) P) →
  ensures (filter_clauses fuel ws tbl cwd sessionid oDB) P.
Proof.
  intros Hnone Htail. unfold filter_clauses. eapply delivers_bind; [apply delivers_argument|]. intros ct ->. eapply delivers_bind; [apply delivers_argument|]. intros ct' ->.
  apply delivers_bind_any. intros path. eapply delivers_bind; [apply delivers_argument|]. intros pn ->. apply delivers_bind_any. intros [rc code]. destruct (negb _); [apply ensures_bad|].
  apply delivers_bind_any. intros c. cbv zeta. eapply (delivers_bind _ _ (λ r, r ≠ ""%string)).
  { destruct (given path); [by apply delivers_extend|]. apply delivers_bind_any. intros d. by apply delivers_strncat. }
  intros ext He. eapply (delivers_bind _ _ (λ r, given (value_of tbl "path!") ≠ None → r ≠ ""%string)).
  { destruct (given (value_of tbl "path!")); [|by apply delivers_ret]. eapply delivers_mono; [by apply delivers_extend|]. auto. }
  intros ext' He'. destruct tbl as [t|] eqn:Et.
  - rewrite <-Et in *. eapply ensures_then; [by apply plain_extends; [|apply safe_value_of|]|]. intros cl Hcl. simpl in Hcl.
    assert (noor (where_clause cl) ∧ member [base_condition] (where_clause cl) ∧ where_clause cl ≠ "") as (Hn & Hb & Hw).
    { split_and!; [eapply extends_noor; [apply base_noor|done]|eapply extends_member; [apply base_noor|apply base_member|done]|by eapply extends_nonempty; [|exact Hcl]]. }
    destruct (given (value_of tbl "metadata_value!")) as [mv|] eqn:Emv.
    + eapply ensures_then; [apply ensures_any|]. intros cl1 _. do 2 (apply delivers_bind_any; intros ?). eapply ensures_then; [apply ensures_any|]. intros cl2 _.
      eapply ensures_then; [apply ensures_any|]. intros cl3 _. eapply ensures_then; [by apply negative_refused; rewrite Emv|]. done.
    + eapply ensures_then; [by apply positive_extends|]. rewrite Emv. intros cl1 [H1|?]; [|done]. do 2 (apply delivers_bind_any; intros ?).
      eapply ensures_then; [apply path_scoped; [done|by eapply extends_noor|by eapply extends_member|by eapply extends_nonempty; [|exact H1]]|]. intros cl2 H2.
      eapply ensures_then; [apply plain_extends; [done|by apply safe_value_of|exact (scoped_nonempty _ _ H2)]|]. intros cl3 H3. apply Htail; [exact (scoped_extends _ _ _ H2 H3)|done|done].
  - eapply ensures_mono; [apply path_scoped; [done|apply base_noor|apply base_member|done]|]. intros cl Hcl. by apply Hnone.
Qed.

Lemma clauses_scoped :
  (∀ v, value_of tbl "metadata_key!" = Some v → none_of TaskParser.bar v = true) →
  ensures (filter_clauses fuel ws tbl cwd sessionid oDB) (λ cl, scoped home (where_clause cl)).
Proof.
  intros Hb. apply filter_tail; [done|]. intros cl ext recursive depth Hcl Hext Hmv. pose proof (scoped_nonempty _ _ Hcl) as Hw.
  eapply ensures_then; [by apply negative_extends|]. intros cl1 H1. assert (scoped home (where_clause cl1)) as Hs by exact (scoped_extends _ _ _ Hcl H1).
  destruct (given (value_of tbl "path!")) as [p|]; [|by apply ensures_good]. eapply ensures_mono; [apply path_extends; exact (scoped_nonempty _ _ Hs)|]. intros r Hr. eapply scoped_extends; [exact Hs|]. by apply Hr, Hext.
Qed.

(** The query over the tables [t] with the where clause [w]. *)
Definition select_text (t w : string) : string := "SELECT DISTINCT datacube.iddatacube, datacube.idcontainer FROM " +:+ t +:+ " WHERE " +:+ w.

(** A query that does not fill its buffer was not cut off. *)
Lemma query_text_whole cl : (String.length (query_text cl) < OPH_MAX_STRING_SIZE - 1)%nat → where_clause cl ≠ EmptyString → query_text cl = select_text (tables cl) (where_clause cl).
Proof.
  unfold query_text, select_text, printed, truncate. destruct (where_clause cl) as [|c w] eqn:Ew; [done|]. cbn [is_empty]. set (s := _ +:+ _). intros Hl _. apply take_str_ge.
  destruct (Nat.le_gt_cases (String.length s) (OPH_MAX_STRING_SIZE - 1)) as [|Hgt]; [lia|]. rewrite length_take_str in Hl by lia. lia.
Qed.

(** C3: When the values of the arguments of a filter hold no quote or backslash, at most one metadata key is negated
    and the query that is made is shorter than its buffer (fewer than 4095 characters, so that it was not cut off),
    this query is a SELECT whose where clause selects only rows of containers in the home folder of the session or
    below it. *)
Theorem filter_scoped m q m' :
  (∀ v, value_of tbl "metadata_key!" = Some v → none_of TaskParser.bar v = true) →
  _oph_filter fuel ws tbl cwd (Some sessionid) oDB m = Ok (Some q) m' → (String.length q < OPH_MAX_STRING_SIZE - 1)%nat →
  ∃ t w, q = select_text t w ∧ ∀ n v r, (∀ f, v [folder_condition false f] = true → r = f) → selected n v w = true →
    v [base_condition] = true ∧ in_session home r.
Proof.
  intros Hb Hq Hlen. assert (ensures (_oph_filter fuel ws tbl cwd (Some sessionid) oDB) (λ q, ∃ cl, q = query_text cl ∧ scoped home (where_clause cl))) as He.
  { eapply ensures_then; [by apply clauses_scoped|]. intros cl Hcl. apply ensures_good. by exists cl. }
  destruct (He m (Some q) m' Hq) as (cl & -> & Hs). exists (tables cl), (where_clause cl).
  split; [apply query_text_whole; [done|exact (scoped_nonempty _ _ Hs)]|]. intros n v r. by apply scoped_selected.
Qed.

(** The two comparisons of a negated key. *)
Definition key_link (i : nat) : string := "metadatainstance" +:+ print_nat i +:+ ".iddatacube=datacube.iddatacube".
Definition key_differs (i : nat) (k : string) : string := "metadatainstance" +:+ print_nat i +:+ ".label!='" +:+ k +:+ "'".

Lemma selected_key n v i k : safe k → v [key_link i] = true → v [key_differs i k] = true → selected (S n) v (key_condition true i k) = true.
Proof.
  intros Hk H1 H2. assert (key_condition true i k = key_link i +:+ OPH_FILTER_AND1 +:+ key_differs i k) as -> by (unfold key_condition, key_link; by rewrite !app_str_assoc).
  assert (one (key_link i)) as Hone1 by (unfold key_link; apply one_app; [by apply one_plain|apply one_app; [apply one_nat|by apply one_plain]]).
  assert (one (key_differs i k)) as Hone2.
  { unfold key_differs. change (".label!='" +:+ k +:+ "'") with (".label" +:+ OPH_FILTER_NOT1 true +:+ "='" +:+ k +:+ "'").
    apply one_app; [by apply one_plain|apply one_app; [apply one_nat|by apply one_compare]]. }
  by apply selected_two.
Qed.

Lemma negated_alternative value ks k :
  value_of tbl "metadata_key!" = Some value → split_on TaskParser.bar value = ks ++ [k] → ks ≠ [] → given (value_of tbl "path!") = None →
  ensures (filter_clauses fuel ws tbl cwd sessionid oDB) (λ cl, where_clause cl ≠ EmptyString ∧
    ∀ n v, v [key_link (length ks)] = true → v [key_differs (length ks) k] = true → selected (S n) v (where_clause cl) = true).
Proof.
  intros Hv Hks Hne Hp. apply filter_tail; [intros cl' Htbl; by rewrite Htbl in Hv|].
  intros cl ext recursive depth Hcl _ Hmv. rewrite Hp. pose proof (scoped_nonempty _ _ Hcl) as Hw. pose proof (safe_value_of tbl "metadata_key!" Hsafe value Hv) as Hs.
  pose proof (safe_pieces TaskParser.bar value Hs) as Hl. rewrite Hks in Hl. apply Forall_app in Hl as [Hl Hk]. apply Forall_cons in Hk as [Hk _].
  eapply (ensures_then _ _ (λ r, where_clause r ≠ EmptyString ∧
    ∀ n v, v [key_link (length ks)] = true → v [key_differs (length ks) k] = true → selected (S n) v (where_clause r) = true)); [|intros r Hr; by apply ensures_good].
  unfold negative_metadata. do 3 (eapply delivers_bind; [apply delivers_argument|]; intros ? ->). rewrite Hv. destruct value as [|c value]; [by destruct ks as [|? []]|]. simpl given. cbv iota.
  destruct (value_of tbl "metadata_value"), (value_of tbl "metadata_value!"); try apply ensures_bad. unfold oph_filter_metadata_key. simpl given. cbv iota beta.
  eapply ensures_then; [apply ensures_values|]. intros l [-> _]. rewrite Hks. eapply ensures_mono; [by apply ensures_metadata|]. intros r ->. rewrite numbered_snoc, joined_snoc.
  rewrite decide_False by (by destruct ks). change (every true) with OPH_FILTER_OR. rewrite <-!app_str_assoc. rewrite (app_str_assoc _ OPH_FILTER_OR).
  split; [intros E%(f_equal String.length); rewrite !length_app_str in E; simpl in E; lia|]. intros n v H1 H2. apply selected_last.
  - repeat apply frag_app; [apply Hcl|apply frag_and|]. apply frag_joined; [apply frag_or|]. apply numbered_forall. intros i x Hx. apply key_noor. by eapply Forall_forall in Hl.
  - by apply key_noor.
  - by apply selected_key.
Qed.

(** C7: With two or more negated metadata keys and no negated path, and values without quotes or backslashes, the
    query that is made, if it was not cut off, selects every row that satisfies the condition on the last key alone,
    whatever its container and its folder: the alternatives are not in parentheses. *)
Theorem negated_keys_escape value ks k m q m' :
  value_of tbl "metadata_key!" = Some value → split_on TaskParser.bar value = ks ++ [k] → ks ≠ [] → given (value_of tbl "path!") = None →
  _oph_filter fuel ws tbl cwd (Some sessionid) oDB m = Ok (Some q) m' → (String.length q < OPH_MAX_STRING_SIZE - 1)%nat →
  ∃ t w, q = select_text t w ∧ ∀ n v, v [key_link (length ks)] = true → v [key_differs (length ks) k] = true → selected (S n) v w = true.
Proof.
  intros Hv Hks Hne Hp Hq Hlen.
  assert (ensures (_oph_filter fuel ws tbl cwd (Some sessionid) oDB) (λ q, ∃ cl, q = query_text cl ∧ where_clause cl ≠ EmptyString ∧
    ∀ n v, v [key_link (length ks)] = true → v [key_differs (length ks) k] = true → selected (S n) v (where_clause cl) = true)) as He.
  { eapply ensures_then; [eapply (negated_alternative value ks k); done|]. intros cl Hcl. apply ensures_good. by exists cl. }
  destruct (He m (Some q) m' Hq) as (cl & -> & Hw & Hs). exists (tables cl), (where_clause cl). split; [by apply query_text_whole|done].
Qed.
End session.

(** ** Queries that are cut off *)

Definition measure_clause (v : string) : string := base_condition +:+ OPH_FILTER_AND1 +:+ measure_condition false v.

(** The length of a measure that fills the query. *)
Definition cut_length : nat := 4095 - String.length (select_text "datacube,container" (measure_clause "")).

Definition longer (cl r : clauses) : Prop := tables r = tables cl ∧ ∃ x, where_clause r = where_clause cl +:+ x.

Lemma add_folder_longer fuel oDB b flag st f : ensures (oph_add_folder fuel oDB b flag st f) (λ st', ∃ x, st'.2 = st.2 +:+ x).
Proof.
  revert flag st f. induction fuel as [|fuel IH]; intros flag st f; cbn [oph_add_folder]; [apply delivers_fuel|]. destruct st as [counter w].
  eapply (ensures_then _ _ (λ w', ∃ x, w' = w +:+ x)).
  { destruct (_ =? 0); [apply ensures_good; exists ""%string; by rewrite app_str_nil_r|]. eapply ensures_mono; [apply ensures_append|]. intros r [-> _]. by eexists. }
  intros w' [x ->]. eapply ensures_then; [apply ensures_append_printed|]. intros w' ->. cbv zeta.
  assert (∃ y, (w +:+ x) +:+ folder_condition b f = w +:+ y) as Hy by (eexists; apply app_str_assoc). revert Hy. generalize ((w +:+ x) +:+ folder_condition b f). intros w2 Hw2.
  destruct (_ =? 0); [by apply ensures_good|]. apply delivers_bind_any. intros [rc|ids]; [apply ensures_bad|].
  apply (ensures_fold _ _ (λ st', ∃ x, st'.2 = w +:+ x)); [done|]. intros g st _ [y Ey]. eapply ensures_mono; [apply IH|]. intros st' [z Ez]. exists (y +:+ z). by rewrite Ez, Ey, app_str_assoc.
Qed.

Lemma path_longer fuel path recursive depth sessionid oDB cl b : where_clause cl ≠ "" → ensures (oph_filter_path fuel path recursive depth sessionid oDB cl b) (longer cl).
Proof.
  intros Hw. unfold oph_filter_path. destruct (given path) as [p|]; [|apply ensures_good; split; [done|exists ""%string; by rewrite app_str_nil_r]].
  apply delivers_bind_any. intros [[rc f] o]. destruct (negb _); [apply ensures_bad|]. apply delivers_bind_any. intros [rc' pm]. destruct (_ || _); [apply ensures_bad|].
  eapply ensures_then; [by apply ensures_open|]. intros w ->. eapply ensures_then; [apply add_folder_longer|]. intros [n w] [x Ex]. simpl in Ex. subst w.
  eapply ensures_then; [apply ensures_close|]. intros w ->. apply ensures_good. split; [done|]. simpl. eexists. by rewrite !app_str_assoc.
Qed.

Lemma measure_longer fuel ws tbl cwd sessionid oDB v :
  (∀ k, k ≠ "measure"%string → value_of tbl k = None) → value_of tbl "measure" = Some v → v ≠ "" →
  ensures (filter_clauses fuel ws tbl cwd sessionid oDB) (longer (Clauses "datacube,container" (measure_clause v))).
Proof.
  intros Hnone Hv Hne. unfold filter_clauses. destruct tbl as [t|] eqn:Et; [rewrite <-Et in *|done]. do 2 (eapply delivers_bind; [apply delivers_argument|]; intros ? ->; rewrite Hnone by done).
  apply delivers_bind_any. intros p. eapply delivers_bind; [apply delivers_argument|]. intros ? ->. rewrite Hnone by done. apply delivers_bind_any. intros [rc code]. destruct (negb _); [apply ensures_bad|].
  do 3 (apply delivers_bind_any; intros ?).
  eapply (ensures_then _ _ (λ r, r = Clauses "datacube,container" (measure_clause v))).
  { unfold plain_filters. cbv zeta. change (OPH_FILTER_NOT1 false) with ""%string. rewrite !app_str_nil_r. eapply delivers_bind; [apply delivers_argument|]. intros ? ->. rewrite Hnone by done. cbn [oph_filter_level given].
    eapply ensures_then; [by apply (ensures_good _ (λ r, r = first_clauses))|]. intros cl ->. eapply delivers_bind; [apply delivers_argument|]. intros ? ->. rewrite Hv.
    eapply (ensures_then _ _ (λ r, r = Clauses "datacube,container" (measure_clause v))).
    { destruct v as [|c v]; [done|]. cbn [oph_filter_measure given]. unfold add_condition. eapply ensures_then; [by apply ensures_join|]. intros w ->.
      eapply ensures_then; [apply ensures_append_printed|]. intros w ->. apply ensures_good. unfold measure_clause. by rewrite app_str_assoc. }
    intros cl ->. do 2 (eapply delivers_bind; [apply delivers_argument|]; intros ? ->; rewrite Hnone by done; eapply ensures_then;
      [by apply (ensures_good _ (λ r, r = Clauses "datacube,container" (measure_clause v)))|]; intros cl ->).
    cbn [given]. eapply delivers_bind; [apply delivers_argument|]. intros ? ->. rewrite Hnone by done. by apply ensures_good. }
  intros cl ->. eapply (ensures_then _ _ (λ r, r = Clauses "datacube,container" (measure_clause v))).
  { unfold positive_metadata. do 2 (eapply delivers_bind; [apply delivers_argument|]; intros ? ->; rewrite Hnone by done). by apply ensures_good. }
  intros cl ->. do 2 (apply delivers_bind_any; intros ?). eapply ensures_then; [by apply path_longer|]. intros cl Hcl. 
  eapply (ensures_then _ _ (λ r, r = cl)).
  { unfold plain_filters. cbv zeta. do 4 (eapply delivers_bind; [apply delivers_argument|]; intros ? ->; rewrite Hnone by done; eapply ensures_then; [by apply (ensures_good _ (λ r, r = cl))|]; intros ? ->).
    cbn [given]. eapply delivers_bind; [apply delivers_argument|]. intros ? ->. rewrite Hnone by done. by apply ensures_good. }
  intros ? ->. eapply (ensures_then _ _ (λ r, r = cl)); [|intros ? ->; by apply ensures_good].
  unfold negative_metadata. do 3 (eapply delivers_bind; [apply delivers_argument|]; intros ? ->; rewrite Hnone by done). by apply ensures_good.
Qed.

Lemma measure_length v :
  String.length (select_text "datacube,container" (measure_clause v)) = (String.length (select_text "datacube,container" (measure_clause "")) + String.length v)%nat.
Proof. unfold select_text, measure_clause, measure_condition. rewrite !length_app_str. change (String.length "") with 0%nat. lia. Qed.

(** C9: A filter on a measure of a certain length fills the buffer of the query exactly, so that the folders of the session are cut off: the query
    is complete without them and selects the cubes with this measure in any folder. *)
Theorem long_measure_escapes fuel ws tbl cwd sessionid oDB v m q m' :
  (∀ k, k ≠ "measure"%string → value_of tbl k = None) → value_of tbl "measure" = Some v → String.length v = cut_length → safe v →
  _oph_filter fuel ws tbl cwd (Some sessionid) oDB m = Ok (Some q) m' →
  q = select_text "datacube,container" (measure_clause v) ∧
  ∀ n val, val [base_condition] = true → val [measure_condition false v] = true → selected (S n) val (measure_clause v) = true.
Proof.
  intros Hnone Hv Hl Hs Hq. assert (v ≠ "") as Hne by (intros ->; vm_compute in Hl; done). split.
  - assert (ensures (_oph_filter fuel ws tbl cwd (Some sessionid) oDB) (λ q, q = select_text "datacube,container" (measure_clause v))) as He; [|by apply (He m (Some q) m')].
    eapply ensures_then; [by apply measure_longer|]. intros [t w] (Ht & x & Hw). simpl in Ht, Hw. subst t w. apply ensures_good. unfold query_text, printed, truncate.
    destruct (is_empty _) eqn:Ee; [by destruct v|]. unfold where_clause, tables.
    assert ("SELECT DISTINCT datacube.iddatacube, datacube.idcontainer FROM " +:+ "datacube,container" +:+ " WHERE " +:+ measure_clause v +:+ x = select_text "datacube,container" (measure_clause v) +:+ x) as ->
      by (unfold select_text; by rewrite !app_str_assoc).
    assert (String.length (select_text "datacube,container" (measure_clause v)) = OPH_MAX_STRING_SIZE - 1)%nat as <-; [|apply take_str_app].
    rewrite measure_length, Hl. unfold cut_length, OPH_MAX_STRING_SIZE. assert (String.length (select_text "datacube,container" (measure_clause "")) ≤ 4095)%nat by (vm_compute; lia). lia.
  - intros n val H1 H2. apply selected_two; try done. by apply one_compare.
Qed.
End db.

(** ** The exploration of folders ends *)

Section exploration.
Context `{HD : OdbFs.MySQL}.

(** The step does not run out of fuel, and what it delivers satisfies [Q]. *)
Definition ends {A} (c : MF A) (Q : A → Prop) : Prop := ∀ m, match c m with OutOfFuel => False | Ok (Some a) _ => Q a | _ => True end.

Lemma ends_then {A B} (c : MF A) (f : A → MF B) (Q : A → Prop) (P : B → Prop) : ends c Q → (∀ a, Q a → ends (f a) P) → ends (mf_then c f) P.
Proof.
  intros Hc Hf m. specialize (Hc m). unfold mf_then, mbind, C_bind. destruct (c m) as [[a|] m1| |]; [by apply Hf|done..].
Qed.
Lemma ends_bind {A B} (c : C A) (f : A → MF B) (P : B → Prop) : (∀ m, c m ≠ OutOfFuel) → (∀ a, ends (f a) P) → ends (c ≫= f) P.
Proof. intros Hc Hf m. specialize (Hc m). unfold mbind, C_bind. destruct (c m); [by apply Hf|done..]. Qed.
Lemma ends_good {A} (a : A) (P : A → Prop) : P a → ends (good a) P.
Proof. by intros HP m. Qed.
Lemma ends_bad {A} (P : A → Prop) : ends bad P.
Proof. by intros m. Qed.

Lemma ends_append buf x : ends (append buf x) (λ r, String.length r = (String.length buf + String.length x)%nat ∧ (String.length r < OPH_MAX_STRING_SIZE)%nat).
Proof.
  intros m. unfold append. destruct (Nat.leb_spec (OPH_MAX_STRING_SIZE - String.length buf - 1) (String.length x)); [done|]. simpl. rewrite take_str_ge by lia. rewrite length_app_str. lia.
Qed.

Lemma ends_fold {S X} (f : S → X → MF S) (l : list X) (P : S → Prop) s : P s → (∀ x s, P s → ends (f s x) P) → ends (foldMF f s l) P.
Proof.
  intros HP Hf. revert s HP. induction l as [|x l IH]; intros s HP; [by apply ends_good|]. cbn [foldMF]. eapply ends_then; [by apply Hf|]. auto.
Qed.

Lemma first_int_ends rs m : mapC OdbFs.first_int rs m ≠ OutOfFuel.
Proof.
  revert m. induction rs as [|row rs IH]; intros m; cbn [mapC]; [done|]. unfold mbind, C_bind at 1. destruct (OdbFs.first_int row m) as [a m1| |] eqn:E; [|done|].
  - unfold C_bind. specialize (IH m1). by destruct (mapC OdbFs.first_int rs m1).
  - exfalso. revert E. unfold OdbFs.first_int. destruct row as [|[c|] row]; done.
Qed.

Lemma subfolders_ends f oDB m : OdbFs.oph_odb_fs_get_subfolders f oDB m ≠ OutOfFuel.
Proof.
  unfold OdbFs.oph_odb_fs_get_subfolders. destruct (_ || _); [done|]. destruct (negb _); [done|]. destruct (_ <=? _)%nat; [done|].
  destruct (OdbFs.mysql_query _) as [res|]; [|done]. destruct (OdbFs.rows res) as [|r rs]; [done|]. destruct (negb _); [done|].
  unfold mbind, C_bind at 1. destruct (malloc m) as [b m1| |] eqn:Em; [|done|by destruct m]. destruct (negb b); [done|]. unfold C_bind.
  pose proof (first_int_ends (r :: rs) m1) as Hi. by destruct (mapC OdbFs.first_int (r :: rs) m1).
Qed.

Lemma folder_nonempty b f : (0 < String.length (printed (folder_condition b f)))%nat.
Proof. unfold printed, truncate. rewrite length_take_str. unfold OPH_MAX_STRING_SIZE. change (folder_condition b f) with ("container.idfolder" +:+ (OPH_FILTER_NOT1 b +:+ "='" +:+ print_int f +:+ "'")). rewrite length_app_str. simpl String.length at 1. lia. Qed.

Lemma add_folder_grows fuel oDB b flag st f : (OPH_MAX_STRING_SIZE - String.length st.2 < fuel)%nat →
  ends (oph_add_folder fuel oDB b flag st f) (λ st', (String.length st.2 < String.length st'.2)%nat).
Proof.
  revert flag st f. induction fuel as [|fuel IH]; intros flag [counter w] f Hfuel; [lia|]. cbn [oph_add_folder]. simpl in Hfuel |- *.
  eapply (ends_then _ _ (λ w', (String.length w ≤ String.length w')%nat)).
  { destruct (_ =? 0); [by apply ends_good|]. intros m. pose proof (ends_append w (either b) m) as Ha. destruct (append _ _ m) as [[r|] ?| |]; [lia|done..]. }
  intros w1 Hw1. eapply ends_then; [apply ends_append|]. intros w2 [E2 Hw2]. pose proof (folder_nonempty b f). cbv zeta. destruct (_ =? 0); [apply ends_good; simpl; lia|].
  apply ends_bind; [intros m; apply subfolders_ends|]. intros [rc|ids]; [apply ends_bad|]. apply ends_fold; [simpl; lia|]. intros g st Hst m.
  pose proof (IH (if flag <? 0 then flag + 1 else flag) st g ltac:(lia) m) as Hi. destruct (oph_add_folder _ _ _ _ st g m) as [[st'|] ?| |]; [lia|done..].
Qed.

(** C39: The exploration of the folders below a path ends, whatever the database answers, even if the folders form a cycle: every folder takes up room in the
    where clause, and a folder that does not fit is an error. *)
Theorem add_folder_ends oDB b flag counter w f m : oph_add_folder (S OPH_MAX_STRING_SIZE) oDB b flag (counter, w) f m ≠ OutOfFuel.
Proof.
  pose proof (add_folder_grows (S OPH_MAX_STRING_SIZE) oDB b flag (counter, w) f ltac:(lia) m) as Hg. by destruct (oph_add_folder _ _ _ _ _ _ m).
Qed.
End exploration.

(** ** Samples *)

Definition one_chain (l : list (string * string)) : option (HASHTBL string) := Some (Tbl 1 [(λ kv, Node kv.1 kv.2 0%nat) <$> l] (λ _, 0)).
Definition sample_session : string := "http://x/sessions/abc/experiment".
Definition sample_filter (l : list (string * string)) : MF string :=
  _oph_filter (H := OdbFs.sample_mysql) 100 (Some "http://x"%string) (one_chain l) (Some "/"%string) (Some sample_session) true.
Definition sample_clauses (l : list (string * string)) : MF clauses :=
  filter_clauses (H := OdbFs.sample_mysql) 100 (Some "http://x"%string) (one_chain l) (Some "/"%string) sample_session true.

Definition sample_args : list (string * string) := [("level", "1|2"); ("recursive", "yes"); ("measure", "tos"); ("metadata_key!", "units")]%string.

Lemma filter_scoped_witness :
  ∃ q t w, sample_filter sample_args [] = Ok (Some q) [] ∧ q = select_text t w ∧
    ∀ n v r, (∀ f, v [folder_condition false f] = true → r = f) → selected n v w = true →
      v [base_condition] = true ∧ in_session OdbFs.sample_folders 2 r.
Proof.
  eexists. destruct (filter_scoped (HD := OdbFs.sample_mysql) OdbFs.sample_folders OdbFs.sample_db 100 (Some "http://x"%string) (one_chain sample_args) (Some "/"%string) sample_session true 2
    ltac:(by repeat constructor) ltac:(by unfold in_i32; lia) ltac:(vm_compute; reflexivity) [] _ [] ltac:(intros v; vm_compute; intros [= <-]; reflexivity) ltac:(vm_compute; reflexivity)
    ltac:(vm_compute; lia)) as (t & w & Hq & Hs).
  exists t, w. split; [vm_compute; reflexivity|]. split; [exact Hq|exact Hs].
Defined.

Lemma negated_keys_escape_witness :
  ∃ q t w, sample_filter [("metadata_key!", "a|b")]%string [] = Ok (Some q) [] ∧ q = select_text t w ∧
    ∀ n v, v [key_link 1] = true → v [key_differs 1 "b"] = true → selected (S n) v w = true.
Proof.
  eexists. destruct (negated_keys_escape (HD := OdbFs.sample_mysql) OdbFs.sample_folders OdbFs.sample_db 100 (Some "http://x"%string) (one_chain [("metadata_key!", "a|b")]%string) (Some "/"%string) sample_session true 2
    ltac:(by repeat constructor) ltac:(by unfold in_i32; lia) ltac:(vm_compute; reflexivity) "a|b" ["a"%string] "b" [] _ [] eq_refl eq_refl ltac:(done) eq_refl ltac:(vm_compute; reflexivity)
    ltac:(vm_compute; lia)) as (t & w & Hq & Hs).
  exists t, w. split; [vm_compute; reflexivity|]. split; [exact Hq|exact Hs].
Defined.

Fixpoint xs (n : nat) : string := match n with O => EmptyString | S n => String "x" (xs n) end.

Definition long_args : list (string * string) := [("measure"%string, xs cut_length)].

Lemma long_measure_only k : k ≠ "measure"%string → value_of (one_chain long_args) k = None.
Proof.
  intros Hk. unfold value_of, one_chain. cbn [nodes]. change (index_of _ k) with 0%nat. unfold long_args. cbn [lookup list_lookup fmap list_fmap List.find]. unfold has_key. cbn [key fst].
  rewrite bool_decide_false by congruence. reflexivity.
Qed.
Lemma long_measure_value : value_of (one_chain long_args) "measure" = Some (xs cut_length).
Proof. vm_compute. reflexivity. Qed.
Lemma long_measure_size : String.length (xs cut_length) = cut_length.
Proof. vm_compute. reflexivity. Qed.
Lemma long_measure_safe : safe (xs cut_length).
Proof. vm_compute. reflexivity. Qed.
Lemma long_measure_filter :
  ∃ q, _oph_filter (H := OdbFs.sample_mysql) 100 (Some "http://x"%string) (one_chain long_args) (Some "/"%string) (Some sample_session) true [] = Ok (Some q) [].
Proof. eexists. vm_compute. reflexivity. Qed.

Lemma long_measure_escapes_witness :
  (∃ q, sample_filter long_args [] = Ok (Some q) [] ∧ q = select_text "datacube,container" (measure_clause (xs cut_length))) ∧
  ∀ n val, val [base_condition] = true → val [measure_condition false (xs cut_length)] = true → selected (S n) val (measure_clause (xs cut_length)) = true.
Proof.
  destruct long_measure_filter as [q E].
  pose proof (long_measure_escapes (HD := OdbFs.sample_mysql) 100 (Some "http://x"%string) (one_chain long_args) (Some "/"%string) sample_session true (xs cut_length) [] q []
    long_measure_only long_measure_value long_measure_size long_measure_safe E) as [Hq Hs].
  split; [|exact Hs]. exists q. split; [exact E|exact Hq].
Defined.

(** A quote in a value ends it, and the rest of the value is read as a condition: here the folders only restrict the second alternative. *)
Example quote_escapes :
  ∃ cl, sample_clauses [("measure", "x' OR 'a'='b")]%string [] = Ok (Some cl) [] ∧
    ∀ n v, v [base_condition] = true → v ["datacube.measure='x'"%string] = true → selected (S n) v (where_clause cl) = true.
Proof.
  exists (Clauses "datacube,container" ((base_condition +:+ OPH_FILTER_AND1 +:+ "datacube.measure='x'") +:+ OPH_FILTER_OR +:+ "'a'='b' AND (container.idfolder='2')")).
  split; [vm_compute; reflexivity|]. intros n v H1 H2. apply selected_first; [intros d; split; reflexivity|]. by apply selected_two.
Qed.
End FilterScope.
